(* ===== verification/_CoqProject ===== *)
-Q . S2P
Prelude.v
RustStr.v
BTree.v
RustVec.v
RustIp.v
TelnetProtocol.v
TelnetTransport.v
ServerMetrics.v
SshEndpoint.v
OpensshConfig.v
SyncSchema.v
SyncMerge.v
SyncResolve.v
SyncThreeWay.v
SyncGuarantees.v
DesktopProtocol.v
VncClient.v
DesktopSession.v
DesktopPipeline.v
PluginOperations.v
PluginShell.v
PluginResults.v
RouteConnector.v
OperationLedger.v
TerminalFocus.v
SessionLifecycle.v
SerdeJson.v
SyncCanonical.v
SyncCrypto.v
SyncExchange.v
SyncModels.v
SecretVault.v
VaultDurability.v
VaultStore.v
VaultAccess.v
VaultModels.v
SftpActor.v
SftpTransfers.v
SftpServer.v
SftpUpload.v
SftpCommit.v
SftpMutations.v
SftpEffects.v
SftpLedger.v
SftpModels.v
