(* ===== verification/Prelude.v ===== *)
(** * NoriShell: a verification library for its protocol, domain and session code

    NoriShell is a desktop and mobile terminal application. Its Rust workspace
    has library crates that carry the logic (crates/), a Tauri application
    that drives them (src-tauri/) and a web front end. This library models the
    code whose behaviour is the program's own: what is parsed from an untrusted
    peer, file, bundle or plugin, what is decided from it, what is merged, what
    is shown, and who may type where. Each file models one source file or one
    layer of it, definition by definition, and proves what makes it correct.

    ** The parts and how they interact

    - The Telnet runtime (crates/telnet-runtime). [TelnetProtocol], Module
      [Telnet], is src/protocol.rs: the codec's parse state, option tables and
      subnegotiation buffer, [decode] over [decode_byte], the encoders of
      input, NAWS and terminal type. [TelnetTransport] is src/transport.rs:
      the connection between the codec and a TCP stream, with its queue of
      pending replies and its deferred events. The stream and the resolver are
      outside the crate, so every operation takes the outcomes of its awaits
      as a script; an exhausted script is a future dropped at that await,
      which is how the session actor cancels a read.
    - Server metrics (crates/server-metrics). [ServerMetrics], Module
      [Metrics], is src/linux.rs: bounded parsers for /proc/stat,
      /proc/meminfo, /proc/net/dev and df, and the provider that keeps the
      previous sample and computes CPU use and network rates with checked
      arithmetic.
    - SSH addresses and configuration import (crates/ssh-domain).
      [SshEndpoint] is src/lib.rs: address normalization, endpoints, the keys
      under which host keys are trusted and fingerprints. [OpensshConfig],
      Module [OpenSsh], is src/openssh_config.rs: the tokenizer, the line and
      directive parsers, host patterns and the preview of importable hosts.
      The preview normalizes its endpoints with [SshEndpoint].
    - The first hop of an SSH route (crates/ssh-transport). [RouteConnector],
      Module [Route], is src/route_connector.rs: direct connections, HTTP
      CONNECT and SOCKS5, in a state and error monad over a connection.
    - Profile synchronization (crates/ssh-profile-sync). [SyncSchema], Module
      [Sync], is src/schema.rs: the exchanged bundle, its validation and its
      canonical form. [SyncMerge] is src/merge.rs: the three-way merge with its
      conflict policies. [SyncResolve], [SyncThreeWay] (Module [ThreeWay]) and
      [SyncGuarantees] (Module [Guarantees]) hold its proofs. The endpoint
      check of the schema is a copy of the one in ssh-domain; the two are
      proved to agree. [SerdeJson] writes out the JSON that serde_json prints
      for the types whose text is authenticated, with a reader of it, and
      [SyncCanonical] the canonical bytes of a bundle. [SyncCrypto], Module
      [Crypto], is src/crypto.rs, src/offline_backup.rs and src/secret.rs:
      encrypted bundles, recovery envelopes and offline backups.
      [SyncExchange], Module [Exchange], is src/exchange.rs: the packages that
      plugins carry between devices. [SyncModels] has concrete ciphers and the
      theorems at concrete inputs.
    - The secret vault (crates/secret-vault/src/lib.rs). [SecretVault], Module
      [Vault], has the payload, the envelopes on disk, and every operation of
      an unlocked vault over a state and error monad whose world is the file
      system: each system call takes its answer from the input. [VaultDurability]
      has the effect of a write, [VaultStore] (Module [Store]) the abstract
      durable store and the refinement, [VaultAccess] (Module [Access]) device
      slots, merges and transfers of vaults, [VaultModels] the instances.
    - SFTP (src-tauri/src/sftp_session_service.rs and its directory).
      [SftpActor], Module [Sftp], is the session actor: the connection, its
      transfers and the plans of file changes. [SftpTransfers] runs its
      operations as steps and has its invariant. [SftpServer], Module [Remote],
      is what an asynchronous task does between two awaits: requests to the
      server, changes of the actor under its lock; [exec] runs such a program
      among the operations of other tasks and may stop it at every await, and
      [wp] is the rule for it. [SftpUpload], Module [Upload], is the task of an
      upload ([run_transfer], [run_upload]), [SftpCommit], Module [Commit], has
      the laws of a server ([ServerLaws]) and its theorem. [SftpMutations],
      Module [Mutate], is every change of remote files ([execute_mutation]),
      [SftpEffects], Module [Effects], its specification and theorems.
      [SftpLedger], Module [MutationLedger], is the ledger of changes with the
      fingerprints of requests. [SftpModels] has a server in memory with faults.
    - Remote desktops. [DesktopProtocol], Module [Desktop], is
      crates/desktop-protocol: rectangles, dirty regions, frames and patches,
      cursors, input. [VncClient], Module [Vnc], is crates/vnc-client: the
      publisher that turns server updates into frame events, and the planning
      and delivery of input. [DesktopSession], Module [Session], is the
      session's copy of the screen and its responses
      (src-tauri/src/desktop_service/) together with the decoder and the canvas
      of the front end (src/components/desktop/). [DesktopPipeline], Module
      [Pipeline], composes the three: engine, session, any number of views.
    - Plugin operations (crates/plugin-platform/src/operations).
      [PluginOperations], Module [Ops], is types.rs, validation.rs and plan.rs:
      the typed remote operations and their compilation to shell commands.
      [PluginShell], Module [Shell], is a reader of the shell's quoting, and
      what the plans are under it. [PluginResults], Module [Results], is
      result.rs: reading the captured output of a plan.
    - Control operations and terminal focus (src-tauri/src).
      [OperationLedger], Module [Ledger], is ssh_operation_ledger.rs with its
      two uses in ssh_session_service.rs, and terminal_focus_broker.rs; the
      class [OnceRegistry] is what both registries promise. [TerminalFocus],
      Module [Focus], is the focus, lease and input part of the session actor
      (ssh_session_service.rs and ssh_session_service/local_terminal.rs), which
      uses the ledger for its focus changes. [SessionLifecycle], Module
      [Lifecycle], adds the handlers of the same actor that open, connect,
      detach, disconnect, fail, close and reconnect an SSH session.
    - The Rust standard library, as far as this code uses it: this file
      (results with panics, loops with [?], machine integers), [RustStr]
      (UTF-8 strings, trimming, splitting, integer parsing and printing),
      [RustVec] (slices and vectors), [BTree] (ordered sets and maps, [OrdKey]
      for [Ord]) and [RustIp] (parsing and printing of IP addresses).

    ** Conventions

    A function that returns [Result] is a function into [rres], whose third
    constructor [Panic] stands for [unreachable!], [expect] and indexing; the
    [?] operator is [let?]. The session actor's results are a sum. An integer
    is a [Z] kept in range by the checked, saturating or wrapping operations
    the source uses. Text is the list of its scalar values, bytes are numbers
    below 256. State is passed explicitly: an operation returns the new state.
    Loops over collections are folds; the loops that are not structural carry
    fuel. Library code is a parameter, with what is documented of it as laws of a
    class or as hypotheses: the digest and base64 of a fingerprint, [serde_json]
    ([JsonValue], and its readers in the exchange and the vault), the JPEG
    decoder, the digest of a crontab, the base64 of proxy credentials, the
    ciphers and the key derivation, SHA-256, random bytes, the answers of the
    operating system, the zip library, the URL parser and the HTTP client, the
    SFTP server, the resolver, the clock, fresh ids and the socket. Every such
    theorem has a witness with concrete functions in their place.

    ** What the theorems show

    - Telnet: over any session, with any interleaving, cancellation and
      failure, what was delivered and is queued is what was decoded from the
      bytes received, and what was written and is buffered is what is owed to
      the peer ([session_conserves_bytes]); the decoder refines an event-level
      specification of the protocol ([decode_refines_spec]), does not depend
      on fragmentation, keeps its invariant, refuses an option once, sends
      bounded replies, and round-trips input and NAWS; a flush terminates, and
      input follows the replies queued before it.
    - Metrics: no run of the provider panics and every run keeps its baseline
      well formed and its sample times increasing; CPU use and network rates
      are the values the counters stand for, or the documented
      unavailability; a failing sample leaves the state untouched; a CPU
      follow-up leaves the network baseline; the parser inverts the kernel's
      format.
    - SSH domain: normalization is idempotent, ignores case, yields safe
      addresses, and trust keys identify endpoints; an importable host is
      untouched by anything the importer does not understand, every candidate
      is safe to show and use, the first value of each directive wins, the
      pattern matcher and the tokenizer meet their specifications, and the
      limits on lines fail closed.
    - Routes: the stream handed to SSH starts exactly after the proxy's
      answer, and what was sent before is the one request for the target, by
      readers of both protocols written from their standards
      ([route_stream_clean]); a proxy that accepts gives a connection; the
      response header is read to its end and within its bound.
    - Synchronization: validation establishes [bundle_wf]; the canonical form
      is order independent. The merge never panics; it detects exactly the
      objects both sides edited differently; without a policy each object
      follows the three-way rule and deletions persist; linked conflicts are
      settled from one side; both devices reach the same objects; the result
      is well formed, has no orphans, and carries only update times recorded
      for the values it has.
    - Exchange and backups: a package opens only with the key and for exactly the
      owner, profile, revision and base it was made for ([exchange_authentic]),
      and gives back its bundle ([exchange_roundtrip]); an offline backup opens
      again, and the sizes that can be exported are exact
      ([offline_backup_exact]).
    - Vault: any operations under any answers of the operating system refine a
      durable store ([vault_durable]); a device slot opens the vault through
      password changes and no other vault ([device_slot_lasts]); a merge loses
      nothing and collides with nothing ([merge_preserves]); exported vaults and
      keys open elsewhere as the same vault ([vault_transfer]).
    - SFTP: an upload leaves the target untouched or whole, wherever it is
      stopped ([upload_all_or_nothing]); a change of remote files has exactly its
      specified effect ([mutation_effect]) and leaves the files of a running
      transfer alone ([mutation_spares_transfer]); the ledger of changes refines
      the history of what it granted, and its fingerprints identify requests
      ([ledger_refines_history]); the actor keeps its invariant
      ([session_keeps_invariant]), a commit with an unknown outcome is never
      repeated ([uncertain_never_retried]), and a revision is accepted exactly
      when only progress has happened since ([progress_fence_exact]).
    - Desktops: a dirty region never loses a changed pixel, patches
      synchronize, overlapping copies move the original pixels, every frame
      operation is total; whatever is held down at the peer is tracked and
      released, and stale input is never sent; every view that is up to date
      shows the session's pixels ([views_show_session]), and a completed update
      of the remote screen reaches the canvas.
    - Plugins: the parameters of a typed operation are quoted words of its
      command and nothing else ([no_shell_injection]); every plan has the
      approval, limits and precondition its kind requires; its captured result
      is read soundly, CPU use exactly, and a snapshot gives the precondition
      of the change that follows it.
    - Sessions: a control operation and a focus change run at most once while
      they are remembered, and the ledger is the window of the last operations
      ([ledger_refines_window], [control_at_most_once], [focus_at_most_once]).
      At most one pane, SSH or local, may type ([one_writer]); accepted inputs
      never repeat or go back, over any run ([inputs_in_order]); what
      authorises an input is exact, a focus change grants it, and the reaper
      takes it from silent panes. The handlers of a session's life are steps of
      that model ([session_run_refines]); a request fenced to a state the
      session has left is refused ([stale_fence_refused]), and the last view of
      a live session goes only with a current confirmation
      ([detach_needs_confirmation]).

    ** Fuel and bounds

    [closure_loop] gets one unit per start node and per entry of the graph:
    every step takes a node off the queue and a node is queued once, so
    [closure_is_reachability] holds with that fuel. [resolve_loop] gets one
    unit per conflict and each step removes at least one; that it returns is
    part of [merge_never_panics], since running out is a [Panic]. [add_fuel]
    gets one unit per rectangle of the region, each merge removing one, and
    [region_add_sound] shows it suffices. [read_header_loop] gets
    [header_fuel], the 16384 bytes of the source's bound. [chunks_fuel] and
    [http_head] get the length of their input, and each round shortens it.
    [to_radix_fuel] gets one unit per binary digit. [read_all] and
    [collect_archive_entries] get one round more than the bytes and the entries
    that the source allows; the pages of a directory that goes into an archive
    are not bounded by the source and get a parameter, for any value of which
    [mutation_effect] holds. Everything else is structural. Constants are those of the source. The only width assumptions
    are that the 64-bit focus epoch has not saturated, in [inputs_in_order]
    and [session_run_refines], the state revision, in [stale_fence_refused] and
    [progress_fence_exact], and the revision of a vault, which with the number of
    operations stays within 64 bits in [vault_durable]. The random draws of a
    merge, the reads of an uploaded file and the chunks of a download are finite
    lists. The paths of an SFTP server are names: that one file of a directory
    has one path, and that a request which is not answered in time has been
    carried out by then or never is, are assumptions of [ServerLaws].

    ** What is not modelled

    The SQLite layer (crates/app-persistence); the SSH and RDP clients and the
    RFB handshake over vendored crates; packages and the runtime of plugins; the
    services of the application that exchange bundles; the operating system's
    key stores; the rest of the Tauri services and of the front end. Of the
    session actor, the connection tasks and their challenges, output, login
    automation, shared channels and the events it emits are left out: the
    messages of a connection task are inputs of [SessionLifecycle], and
    [TerminalFocus] lets the rest rewrite a session freely, as a step of the
    environment. Of SFTP, downloads to local files, copies between servers,
    listings, previews, local directories, and the tables and command handlers
    of the service are left out; [run_transfer] is modelled up to the end of the
    connection, without the service's tables. Cryptography is modelled by what
    its interfaces promise, not by its algorithms. *)

From stdpp Require Export prelude gmap strings.
From Stdlib Require Export ZArith Lia.
From Stdlib Require Import Sorting.Sorted.

#[global] Open Scope Z_scope.

(** ** Rust results

    A Rust function that returns [Result<A, E>] and may also panic (an
    [unreachable!], an [expect], an out-of-range index) returns [rres E A]. *)

Inductive rres (E A : Type) : Type :=
| Ok (a : A)
| Err (e : E)
| Panic.
Arguments Ok {E A} a.
Arguments Err {E A} e.
Arguments Panic {E A}.

Definition rbind {E A B} (x : rres E A) (k : A → rres E B) : rres E B :=
  match x with
  | Ok a => k a
  | Err e => Err e
  | Panic => Panic
  end.

Definition rmap_err {E F A} (f : E → F) (x : rres E A) : rres F A :=
  match x with
  | Ok a => Ok a
  | Err e => Err (f e)
  | Panic => Panic
  end.

(** [Option::ok_or]. *)
Definition ok_or {E A} (o : option A) (e : E) : rres E A :=
  match o with
  | Some a => Ok a
  | None => Err e
  end.

(** [Result::map]. *)
Definition rok_map {E A B} (f : A → B) (x : rres E A) : rres E B :=
  match x with
  | Ok a => Ok (f a)
  | Err e => Err e
  | Panic => Panic
  end.

Definition is_ok {E A} (x : rres E A) : bool :=
  match x with Ok _ => true | _ => false end.

(** [Result::ok]: the value, an error is dropped. *)
Definition rok {E A} (x : rres E A) : option A :=
  match x with Ok a => Some a | _ => None end.

Declare Scope rust_scope.
Delimit Scope rust_scope with rust.
#[global] Open Scope rust_scope.

(** The [?] operator. *)
Notation "'let?' x ':=' e 'in' k" := (rbind e (fun x => k))
  (at level 10, x pattern, e at level 200, k at level 200,
   format "'[v' 'let?'  x  ':='  e  'in' '/' k ']'") : rust_scope.

#[global] Instance rres_eq_dec {E A} `{EqDecision E} `{EqDecision A} :
  EqDecision (rres E A).
Proof. solve_decision. Defined.

Section RustLoops.
Context {E A B St : Type}.

(** [iter().map(f).collect::<Result<Vec<_>, _>>()]. *)
Fixpoint rmap (f : A → rres E B) (l : list A) : rres E (list B) :=
  match l with
  | [] => Ok []
  | x :: l => let? y := f x in let? ys := rmap f l in Ok (y :: ys)
  end.

(** A [for] loop over mutable state whose body may use [?]. *)
Fixpoint rfold (f : St → A → rres E St) (s : St) (l : list A) : rres E St :=
  match l with
  | [] => Ok s
  | x :: l => let? s' := f s x in rfold f s' l
  end.

(** A [for] loop that only checks. *)
Fixpoint rforall (f : A → rres E unit) (l : list A) : rres E unit :=
  match l with
  | [] => Ok tt
  | x :: l => let? _ := f x in rforall f l
  end.

End RustLoops.

(** ** Machine integers

    A [w]-bit unsigned integer is a [Z] in [0 .. 2^w - 1]. The checked
    operations of the standard library take the maximum as an argument. *)

Definition u8_max : Z := 255.
Definition u16_max : Z := 65535.
Definition u32_max : Z := 4294967295.
Definition u64_max : Z := 18446744073709551615.
Definition u128_max : Z := 340282366920938463463374607431768211455.
Definition i64_max : Z := 9223372036854775807.
Definition i64_min : Z := -9223372036854775808.

Definition checked_add (max a b : Z) : option Z :=
  if a + b <=? max then Some (a + b) else None.

Definition checked_sub (a b : Z) : option Z :=
  if b <=? a then Some (a - b) else None.

Definition checked_mul (max a b : Z) : option Z :=
  if a * b <=? max then Some (a * b) else None.

(** [uN::try_from]. *)
Definition try_from (max a : Z) : option Z :=
  if (0 <=? a) && (a <=? max) then Some a else None.

(** [i64::saturating_add]. *)
Definition i64_saturating_add (a b : Z) : Z :=
  Z.max i64_min (Z.min i64_max (a + b)).

(** [len()] of a vector or slice. *)
Definition zlen {A} (l : list A) : Z := Z.of_nat (length l).

(** ** Automation *)

Create HintDb rust.
Create Rewrite HintDb rust.

(** Splits a hypothesis about a chain of [?] steps into one hypothesis for
    each step, discarding the steps that contradict the conclusion. *)
Ltac rinv H :=
  repeat match type of H with
  | rbind (ok_or ?o _) _ = Ok _ =>
      let x := fresh "x" in let E := fresh "E" in
      destruct o as [x|] eqn:E; cbn [ok_or rbind] in H; [|discriminate H]
  | rbind ?e _ = Ok _ =>
      let x := fresh "x" in let E := fresh "E" in
      destruct e as [x| |] eqn:E; cbn [rbind] in H; [|discriminate H|discriminate H]
  | (if ?c then Err _ else _) = Ok _ =>
      let E := fresh "E" in destruct c eqn:E; [discriminate H|]
  | (if ?c then _ else Err _) = Ok _ =>
      let E := fresh "E" in destruct c eqn:E; [|discriminate H]
  | ok_or ?o _ = Ok _ =>
      let E := fresh "E" in
      destruct o eqn:E; cbn [ok_or] in H; [|discriminate H]
  | Ok _ = Ok _ => injection H as H
  end.

(** Turns the boolean tests of the code into propositions. *)
Ltac bprop :=
  repeat match goal with
  | H : _ && _ = true |- _ => apply andb_true_iff in H as [? ?]
  | H : _ || _ = false |- _ => apply orb_false_iff in H as [? ?]
  | H : negb _ = true |- _ => apply negb_true_iff in H
  | H : negb _ = false |- _ => apply negb_false_iff in H
  | H : (_ =? _) = true |- _ => apply Z.eqb_eq in H
  | H : (_ =? _) = false |- _ => apply Z.eqb_neq in H
  | H : (_ <=? _) = true |- _ => apply Z.leb_le in H
  | H : (_ <=? _) = false |- _ => apply Z.leb_gt in H
  | H : (_ <? _) = true |- _ => apply Z.ltb_lt in H
  | H : (_ <? _) = false |- _ => apply Z.ltb_ge in H
  | H : bool_decide _ = true |- _ => apply bool_decide_eq_true in H
  | H : bool_decide _ = false |- _ => apply bool_decide_eq_false in H
  end.

(** ** Shared lemmas *)

Lemma rbind_Ok {E A B} (x : rres E A) (k : A → rres E B) b :
  rbind x k = Ok b ↔ ∃ a, x = Ok a ∧ k a = Ok b.
Proof. destruct x; simpl; naive_solver. Qed.

Lemma rbind_no_panic {E A B} (x : rres E A) (k : A → rres E B) :
  x ≠ Panic → (∀ a, x = Ok a → k a ≠ Panic) → rbind x k ≠ Panic.
Proof. destruct x; simpl; naive_solver. Qed.

Lemma ok_or_no_panic {E A} (o : option A) (e : E) : ok_or o e ≠ Panic.
Proof. by destruct o. Qed.

Lemma rmap_no_panic {E A B} (f : A → rres E B) l :
  (∀ x, x ∈ l → f x ≠ Panic) → rmap f l ≠ Panic.
Proof.
  intros Hf. induction l as [|x l IH]; simpl; [done|].
  apply rbind_no_panic; [apply Hf; set_solver|]. intros y _.
  apply rbind_no_panic; [apply IH; set_solver|done].
Qed.

(** A loop does not panic when no iteration does in a state satisfying the
    loop's invariant. *)
Lemma rfold_no_panic {E A St} (P : St → Prop) (f : St → A → rres E St) s l :
  P s → (∀ s1 x s2, P s1 → f s1 x = Ok s2 → P s2) →
  (∀ s1 x, P s1 → f s1 x ≠ Panic) → rfold f s l ≠ Panic.
Proof.
  intros Hs Hf Hp. revert s Hs. induction l as [|x l IH]; simpl; intros s Hs; [done|].
  apply rbind_no_panic; eauto.
Qed.

#[export] Hint Resolve ok_or_no_panic : rust.

(** Walks down a chain of [?] steps proving that no step panics. *)
Ltac rnp :=
  repeat match goal with
  | |- Ok _ ≠ Panic => discriminate
  | |- Err _ ≠ Panic => discriminate
  | |- rbind _ _ ≠ Panic =>
      apply rbind_no_panic; [try solve [eauto with rust]|intros ? ?]
  | |- (if ?c then _ else _) ≠ Panic => let E := fresh "Ec" in destruct c eqn:E
  | |- _ => solve [eauto with rust]
  end.

Lemma rmap_Ok {E A B} (f : A → rres E B) l ys :
  rmap f l = Ok ys ↔ Forall2 (λ x y, f x = Ok y) l ys.
Proof.
  revert ys. induction l as [|x l IH]; intros ys; simpl.
  - split; [intros [= <-]; constructor | by inversion 1].
  - rewrite rbind_Ok. setoid_rewrite rbind_Ok. setoid_rewrite IH. split.
    + intros (y & Hy & zs & Hzs & [= <-]). by constructor.
    + inversion 1; subst. eauto 6.
Qed.

Lemma rfold_app {E A St} (f : St → A → rres E St) s l1 l2 :
  rfold f s (l1 ++ l2) = let? s' := rfold f s l1 in rfold f s' l2.
Proof.
  revert s. induction l1 as [|x l1 IH]; intros s; simpl; [done|].
  destruct (f s x); simpl; auto.
Qed.

Lemma rfold_ext {E A St} (f g : St → A → rres E St) s l :
  (∀ s x, f s x = g s x) → rfold f s l = rfold g s l.
Proof.
  intros H. revert s. induction l as [|x l IH]; intros s; simpl; [done|].
  rewrite H. destruct (g s x); simpl; auto.
Qed.

Lemma rfold_inv {E A St} (P : St → Prop) (f : St → A → rres E St) s l s' :
  P s → (∀ s1 x s2, x ∈ l → P s1 → f s1 x = Ok s2 → P s2) →
  rfold f s l = Ok s' → P s'.
Proof.
  revert s. induction l as [|x l IH]; simpl; intros s Hs Hf H.
  - by injection H as <-.
  - rinv H. eapply (IH x0); [|intros; eapply Hf; eauto; set_solver|done].
    eapply Hf; eauto. set_solver.
Qed.

Lemma rforall_Ok {E A} (f : A → rres E unit) l u :
  rforall f l = Ok u ↔ Forall (λ x, f x = Ok tt) l.
Proof.
  destruct u. induction l as [|x l IH]; simpl.
  - split; [constructor | done].
  - rewrite rbind_Ok, Forall_cons, <- IH. split.
    + by intros ([] & ? & ?).
    + intros [? ?]. by exists tt.
Qed.

Lemma rforall_no_panic {E A} (f : A → rres E unit) l :
  (∀ x, f x ≠ Panic) → rforall f l ≠ Panic.
Proof.
  intros Hf. induction l as [|x l IH]; simpl; [done|].
  pose proof (Hf x). by destruct (f x).
Qed.

Lemma checked_add_Some max a b c :
  checked_add max a b = Some c ↔ c = a + b ∧ a + b ≤ max.
Proof.
  unfold checked_add. destruct (Z.leb_spec (a + b) max); naive_solver lia.
Qed.

Lemma checked_sub_Some a b c : checked_sub a b = Some c ↔ c = a - b ∧ b ≤ a.
Proof. unfold checked_sub. destruct (Z.leb_spec b a); naive_solver lia. Qed.

Lemma checked_mul_Some max a b c :
  checked_mul max a b = Some c ↔ c = a * b ∧ a * b ≤ max.
Proof.
  unfold checked_mul. destruct (Z.leb_spec (a * b) max); naive_solver lia.
Qed.

Lemma try_from_Some max a c : try_from max a = Some c ↔ c = a ∧ 0 ≤ a ≤ max.
Proof.
  unfold try_from. destruct (Z.leb_spec 0 a), (Z.leb_spec a max); simpl;
    naive_solver lia.
Qed.

Lemma zlen_app {A} (l1 l2 : list A) : zlen (l1 ++ l2) = zlen l1 + zlen l2.
Proof. unfold zlen. rewrite length_app. lia. Qed.

Lemma zlen_cons {A} (x : A) l : zlen (x :: l) = 1 + zlen l.
Proof. unfold zlen. simpl. lia. Qed.

Lemma zlen_nil {A} : zlen (@nil A) = 0.
Proof. done. Qed.

Lemma zlen_nonneg {A} (l : list A) : 0 ≤ zlen l.
Proof. unfold zlen. lia. Qed.

Lemma existsb_false_Forall {A} (f : A → bool) l :
  existsb f l = false ↔ Forall (λ x, f x = false) l.
Proof.
  induction l as [|x l IH]; simpl; [split; [constructor|done]|].
  rewrite orb_false_iff, Forall_cons, IH. done.
Qed.

Lemma forallb_true_Forall {A} (f : A → bool) l :
  forallb f l = true ↔ Forall (λ x, f x = true) l.
Proof.
  induction l as [|x l IH]; simpl; [split; [constructor|done]|].
  rewrite andb_true_iff, Forall_cons, IH. done.
Qed.

Lemma StronglySorted_snoc {A} (R : A → A → Prop) l x :
  StronglySorted R l → Forall (λ y, R y x) l → StronglySorted R (l ++ [x]).
Proof.
  induction 1 as [|y l Hl IH Hy]; intros Hf; cbn; [repeat constructor|].
  apply Forall_cons in Hf as [Hyx Hf]. constructor; [by apply IH|].
  apply Forall_app. split; [done|by repeat constructor].
Qed.

#[export] Hint Resolve zlen_nonneg : rust.
#[export] Hint Rewrite @zlen_app @zlen_cons @zlen_nil : rust.
