(* ===== verification/RustStr.v ===== *)
(** * Rust strings

    The string operations of the Rust standard library the crates use. A
    [str] is the list of its Unicode scalar values; [str_len] is the UTF-8
    byte length [str::len] returns, [utf8_encode] the bytes [as_bytes] gives
    and [from_utf8] the decoder of [std::str::from_utf8]. *)

From S2P Require Import Prelude.

Abbreviation str := (list Z) (only parsing).

(** A string literal of the source. *)
Definition lit (s : string) : str :=
  map (λ a, Z.of_N (Ascii.N_of_ascii a)) (String.list_ascii_of_string s).

(** ** Character classes *)

(** [char::is_whitespace]: the Unicode [White_Space] property. *)
Definition is_whitespace (c : Z) : bool :=
  ((9 <=? c) && (c <=? 13)) || (c =? 32) || (c =? 133) || (c =? 160)
  || (c =? 5760) || ((8192 <=? c) && (c <=? 8202)) || (c =? 8232) || (c =? 8233)
  || (c =? 8239) || (c =? 8287) || (c =? 12288).

(** [char::is_control]: the Unicode category [Cc]. *)
Definition is_control (c : Z) : bool :=
  ((0 <=? c) && (c <=? 31)) || ((127 <=? c) && (c <=? 159)).

Definition is_ascii (c : Z) : bool := (0 <=? c) && (c <=? 127).
Definition is_ascii_digit (c : Z) : bool := (48 <=? c) && (c <=? 57).
Definition is_ascii_upper (c : Z) : bool := (65 <=? c) && (c <=? 90).
Definition is_ascii_lower (c : Z) : bool := (97 <=? c) && (c <=? 122).
Definition is_ascii_alphanumeric (c : Z) : bool :=
  is_ascii_digit c || is_ascii_upper c || is_ascii_lower c.
Definition is_ascii_graphic (c : Z) : bool := (33 <=? c) && (c <=? 126).
Definition is_ascii_control (c : Z) : bool :=
  ((0 <=? c) && (c <=? 31)) || (c =? 127).
(** [char::is_ascii_whitespace]: space, tab, line feed, form feed, return. *)
Definition is_ascii_whitespace (c : Z) : bool :=
  (c =? 32) || (c =? 9) || (c =? 10) || (c =? 12) || (c =? 13).

Definition ascii_lower (c : Z) : Z := if is_ascii_upper c then c + 32 else c.
Definition to_ascii_lowercase (s : str) : str := map ascii_lower s.
Definition eq_ignore_ascii_case (s t : str) : bool :=
  bool_decide (to_ascii_lowercase s = to_ascii_lowercase t).

(** ** UTF-8 *)

Definition utf8_width (c : Z) : Z :=
  if c <? 128 then 1 else if c <? 2048 then 2 else if c <? 65536 then 3 else 4.

Definition str_len (s : str) : Z := foldr (λ c n, utf8_width c + n) 0 s.

Definition utf8_encode_char (c : Z) : list Z :=
  if c <? 128 then [c]
  else if c <? 2048 then [192 + c / 64; 128 + c mod 64]
  else if c <? 65536 then [224 + c / 4096; 128 + (c / 64) mod 64; 128 + c mod 64]
  else [240 + c / 262144; 128 + (c / 4096) mod 64; 128 + (c / 64) mod 64; 128 + c mod 64].

Definition utf8_encode (s : str) : list Z := concat (map utf8_encode_char s).

Definition between (lo c hi : Z) : bool := (lo <=? c) && (c <=? hi).

(** [std::str::from_utf8]: rejects stray continuation bytes, overlong forms,
    surrogates and values above U+10FFFF. *)
Fixpoint from_utf8 (bs : list Z) : option str :=
  match bs with
  | [] => Some []
  | b0 :: r0 =>
      if between 0 b0 127 then cons b0 <$> from_utf8 r0
      else if between 194 b0 223 then
        match r0 with
        | b1 :: r1 =>
            if between 128 b1 191
            then cons ((b0 - 192) * 64 + (b1 - 128)) <$> from_utf8 r1 else None
        | _ => None
        end
      else if between 224 b0 239 then
        match r0 with
        | b1 :: b2 :: r2 =>
            if between (if b0 =? 224 then 160 else 128) b1 (if b0 =? 237 then 159 else 191)
               && between 128 b2 191
            then cons ((b0 - 224) * 4096 + (b1 - 128) * 64 + (b2 - 128)) <$> from_utf8 r2
            else None
        | _ => None
        end
      else if between 240 b0 244 then
        match r0 with
        | b1 :: b2 :: b3 :: r3 =>
            if between (if b0 =? 240 then 144 else 128) b1 (if b0 =? 244 then 143 else 191)
               && between 128 b2 191 && between 128 b3 191
            then cons ((b0 - 240) * 262144 + (b1 - 128) * 4096 + (b2 - 128) * 64 + (b3 - 128))
                   <$> from_utf8 r3
            else None
        | _ => None
        end
      else None
  end.

(** ** Searching and splitting *)

Fixpoint trim_start (s : str) : str :=
  match s with
  | c :: s' => if is_whitespace c then trim_start s' else s
  | [] => []
  end.

Definition trim_end (s : str) : str := rev (trim_start (rev s)).
Definition trim (s : str) : str := trim_end (trim_start s).

Definition contains_char (s : str) (c : Z) : bool := existsb (Z.eqb c) s.

Fixpoint starts_with (p s : str) : bool :=
  match p, s with
  | [], _ => true
  | a :: p', b :: s' => (a =? b) && starts_with p' s'
  | _ :: _, [] => false
  end.

(** [str::contains] with a string pattern. *)
Fixpoint contains_str (s p : str) : bool :=
  starts_with p s || match s with [] => false | _ :: s' => contains_str s' p end.

(** [str::split] on a character: always at least one piece. *)
Fixpoint split_char (d : Z) (s : str) : list str :=
  match s with
  | [] => [[]]
  | c :: s' =>
      if c =? d then [] :: split_char d s'
      else match split_char d s' with
           | piece :: rest => (c :: piece) :: rest
           | [] => [[c]]
           end
  end.

(** [str::split_once] on a character: at its first occurrence. *)
Fixpoint split_once (d : Z) (s : str) : option (str * str) :=
  match s with
  | [] => None
  | c :: s' =>
      if c =? d then Some ([], s')
      else match split_once d s' with
           | Some (a, b) => Some (c :: a, b)
           | None => None
           end
  end.

(** [str::rsplit_once]: at its last occurrence. *)
Definition rsplit_once (d : Z) (s : str) : option (str * str) :=
  match split_once d (rev s) with
  | Some (a, b) => Some (rev b, rev a)
  | None => None
  end.

Definition strip_prefix (c : Z) (s : str) : option str :=
  match s with
  | x :: s' => if x =? c then Some s' else None
  | [] => None
  end.

Definition strip_suffix (c : Z) (s : str) : option str :=
  match rev s with
  | x :: s' => if x =? c then Some (rev s') else None
  | [] => None
  end.

(** [str::lines]: lines end at "\n" (or at the end of the text, when it is not
    right after one) and lose a "\r" before it. *)
Definition strip_cr (s : str) : str :=
  match strip_suffix 13 s with Some s' => s' | None => s end.

Fixpoint lines_from (acc : str) (s : str) : list str :=
  match s with
  | [] => match acc with [] => [] | _ => [rev acc] end
  | c :: s' =>
      if c =? 10 then strip_cr (rev acc) :: lines_from [] s'
      else lines_from (c :: acc) s'
  end.

Definition lines (s : str) : list str := lines_from [] s.

(** [str::split_ascii_whitespace]: the non-empty runs between ASCII blanks. *)
Fixpoint tokens_from (acc : str) (s : str) : list str :=
  match s with
  | [] => match acc with [] => [] | _ => [rev acc] end
  | c :: s' =>
      if is_ascii_whitespace c then
        match acc with [] => tokens_from [] s' | _ => rev acc :: tokens_from [] s' end
      else tokens_from (c :: acc) s'
  end.

Definition split_ascii_whitespace (s : str) : list str := tokens_from [] s.

(** [[&str]::join]. *)
Fixpoint join (sep : str) (l : list str) : str :=
  match l with
  | [] => []
  | [s] => s
  | s :: l' => s ++ sep ++ join sep l'
  end.

(** ** Numbers *)

(** [char::to_digit]. *)
Definition to_digit (radix c : Z) : option Z :=
  let d := if is_ascii_digit c then Some (c - 48)
           else if is_ascii_lower c then Some (c - 87)
           else if is_ascii_upper c then Some (c - 55)
           else None in
  match d with
  | Some d => if d <? radix then Some d else None
  | None => None
  end.

Definition digit_char (d : Z) : Z := if d <? 10 then 48 + d else 87 + d.

(** The digits of [s], most significant first, added to [acc]. *)
Fixpoint parse_digits (radix acc : Z) (s : str) : option Z :=
  match s with
  | [] => Some acc
  | c :: s' =>
      match to_digit radix c with
      | Some d => parse_digits radix (acc * radix + d) s'
      | None => None
      end
  end.

(** [str::parse] for an unsigned integer type: an optional [+], at least one
    digit, and a value within the type. *)
Definition parse_uint (max : Z) (s : str) : option Z :=
  let body := match s with
              | c :: ((_ :: _) as rest) => if c =? 43 then rest else s
              | _ => s
              end in
  match body with
  | [] => None
  | _ => match parse_digits 10 0 body with
         | Some n => if n <=? max then Some n else None
         | None => None
         end
  end.

(** [format!("{}")] and [format!("{:x}")] of an unsigned integer. *)
Fixpoint to_radix_fuel (fuel : nat) (radix n : Z) (acc : str) : str :=
  match fuel with
  | O => acc
  | S fuel' =>
      let acc' := digit_char (n mod radix) :: acc in
      if n / radix =? 0 then acc' else to_radix_fuel fuel' radix (n / radix) acc'
  end.

Definition to_radix (radix n : Z) : str :=
  to_radix_fuel (S (Z.to_nat (Z.log2 n))) radix n [].

Definition to_decimal (n : Z) : str := to_radix 10 n.

(** ** Lemmas *)

Lemma to_digit_range radix c d : to_digit radix c = Some d → 0 ≤ d < radix.
Proof.
  unfold to_digit, is_ascii_digit, is_ascii_lower, is_ascii_upper.
  repeat case_match; intros; simplify_eq; bprop; lia.
Qed.

Lemma digit_char_digit d radix :
  0 ≤ d < radix → radix ≤ 16 → to_digit radix (digit_char d) = Some d.
Proof.
  intros Hd Hr. unfold to_digit, digit_char, is_ascii_digit, is_ascii_lower, is_ascii_upper.
  destruct (Z.ltb_spec d 10).
  - replace ((48 <=? 48 + d) && (48 + d <=? 57)) with true by (symmetry; lia).
    replace (48 + d - 48) with d by lia. by replace (d <? radix) with true by (symmetry; lia).
  - replace ((48 <=? 87 + d) && (87 + d <=? 57)) with false by (symmetry; lia).
    replace ((97 <=? 87 + d) && (87 + d <=? 122)) with true by (symmetry; lia).
    replace (87 + d - 87) with d by lia. by replace (d <? radix) with true by (symmetry; lia).
Qed.

Lemma parse_digits_nonneg radix acc s n :
  0 ≤ radix → 0 ≤ acc → parse_digits radix acc s = Some n → 0 ≤ n.
Proof.
  intros Hr. revert acc. induction s as [|c s IH]; simpl; intros acc Hacc H; [by simplify_eq|].
  destruct (to_digit radix c) as [d|] eqn:E; [|done].
  apply to_digit_range in E. eapply IH; [|done]. nia.
Qed.

Lemma parse_uint_range max s n : parse_uint max s = Some n → 0 ≤ n ≤ max.
Proof.
  unfold parse_uint. intros H. repeat case_match; simplify_eq; bprop;
    (split; [eapply parse_digits_nonneg; [| |done]; lia|done]).
Qed.

Lemma parse_digits_app radix acc s1 s2 :
  parse_digits radix acc (s1 ++ s2) =
  match parse_digits radix acc s1 with
  | Some n => parse_digits radix n s2
  | None => None
  end.
Proof.
  revert acc. induction s1 as [|c s1 IH]; simpl; intros acc; [done|].
  by destruct (to_digit radix c).
Qed.

(** Printing and parsing a number in a radix. *)
Lemma to_radix_fuel_spec fuel radix n acc :
  2 ≤ radix ≤ 16 → 0 ≤ n < radix ^ Z.of_nat fuel → (0 < fuel)%nat →
  ∃ ds, to_radix_fuel fuel radix n acc = ds ++ acc ∧ ds ≠ [] ∧
    Forall (λ c, ∃ d, 0 ≤ d < radix ∧ c = digit_char d) ds ∧
    (∀ a, parse_digits radix a ds = Some (a * radix ^ zlen ds + n)) ∧
    (n ≠ 0 → radix ^ (zlen ds - 1) ≤ n) ∧ (n = 0 → ds = [48]).
Proof.
  intros Hr. revert n acc. induction fuel as [|fuel IH]; intros n acc Hn Hf; [lia|].
  cbn [to_radix_fuel]. pose proof (Z.mod_pos_bound n radix ltac:(lia)) as Hm.
  pose proof (Z.div_mod n radix ltac:(lia)) as Hdm.
  assert (0 ≤ n / radix) as Hq by (apply Z.div_pos; lia).
  destruct (Z.eqb_spec (n / radix) 0) as [Hz|Hz].
  - exists [digit_char (n mod radix)]. split; [done|]. split; [done|].
    split; [apply Forall_singleton; eauto|]. simpl. rewrite digit_char_digit by lia.
    change (zlen [digit_char (n mod radix)]) with 1. split.
    { intros a. f_equal. rewrite Z.pow_1_r. lia. }
    split; [intros; simpl; lia|]. intros ->. rewrite Z.mod_0_l by lia. done.
  - destruct fuel as [|fuel].
    { exfalso. apply Hz, Z.div_small. simpl in Hn. lia. }
    destruct (IH (n / radix) (digit_char (n mod radix) :: acc)) as (ds & Hds & Hne & Hall & Hp & Hlow & _).
    { split; [done|]. apply Z.div_lt_upper_bound; [lia|].
      rewrite (Nat2Z.inj_succ (S fuel)), Z.pow_succ_r in Hn by lia. lia. }
    { lia. }
    exists (ds ++ [digit_char (n mod radix)]). rewrite Hds, <- app_assoc. split; [done|].
    split; [by destruct ds|]. split; [apply Forall_app; split; [done|apply Forall_singleton; eauto]|].
    rewrite zlen_app. change (zlen [digit_char (n mod radix)]) with 1. split.
    { intros a. rewrite parse_digits_app, Hp. simpl. rewrite digit_char_digit by lia.
      f_equal. rewrite Z.pow_add_r by (try apply zlen_nonneg; lia). rewrite Z.pow_1_r. lia. }
    split; [|intros ->; rewrite Z.div_0_l in Hz by lia; done].
    intros _. specialize (Hlow Hz).
    assert (1 ≤ zlen ds).
    { destruct ds; [done|]. rewrite zlen_cons. pose proof (zlen_nonneg ds). lia. }
    replace (zlen ds + 1 - 1) with (Z.succ (zlen ds - 1)) by lia.
    rewrite Z.pow_succ_r by lia. nia.
Qed.

Lemma to_radix_spec radix n :
  2 ≤ radix ≤ 16 → 0 ≤ n →
  to_radix radix n ≠ [] ∧
  Forall (λ c, ∃ d, 0 ≤ d < radix ∧ c = digit_char d) (to_radix radix n) ∧
  (∀ a, parse_digits radix a (to_radix radix n) = Some (a * radix ^ zlen (to_radix radix n) + n)) ∧
  (n ≠ 0 → radix ^ (zlen (to_radix radix n) - 1) ≤ n) ∧
  (n = 0 → to_radix radix n = [48]).
Proof.
  intros Hr Hn. unfold to_radix.
  destruct (to_radix_fuel_spec (S (Z.to_nat (Z.log2 n))) radix n []) as (ds & -> & H).
  - done.
  - split; [done|]. rewrite Nat2Z.inj_succ, Z2Nat.id by apply Z.log2_nonneg.
    destruct (Z.eq_dec n 0) as [->|]; [simpl; lia|].
    eapply Z.lt_le_trans; [apply (Z.log2_spec n); lia|].
    apply Z.pow_le_mono_l. lia.
  - lia.
  - by rewrite app_nil_r.
Qed.

Lemma parse_to_radix radix n :
  2 ≤ radix ≤ 16 → 0 ≤ n → parse_digits radix 0 (to_radix radix n) = Some n.
Proof.
  intros Hr Hn. destruct (to_radix_spec radix n Hr Hn) as (_ & _ & H & _).
  by rewrite H, Z.mul_0_l.
Qed.

Lemma zlen_to_radix radix n k :
  2 ≤ radix ≤ 16 → 0 ≤ n < radix ^ k → 1 ≤ k → zlen (to_radix radix n) ≤ k.
Proof.
  intros Hr Hn Hk. destruct (to_radix_spec radix n Hr ltac:(lia)) as (Hne & _ & _ & Hlow & H0).
  destruct (Z.eq_dec n 0) as [->|Hnz]; [by rewrite H0|].
  specialize (Hlow Hnz). destruct (Z.le_gt_cases (zlen (to_radix radix n)) k); [done|].
  exfalso. assert (radix ^ k ≤ radix ^ (zlen (to_radix radix n) - 1)) by (apply Z.pow_le_mono_r; lia).
  lia.
Qed.

Lemma digit_char_ascii d : 0 ≤ d < 10 → is_ascii_digit (digit_char d) = true.
Proof. unfold digit_char, is_ascii_digit. destruct (Z.ltb_spec d 10); lia. Qed.

Lemma to_decimal_digits n : 0 ≤ n → forallb is_ascii_digit (to_decimal n) = true.
Proof.
  intros Hn. apply forallb_true_Forall. destruct (to_radix_spec 10 n ltac:(lia) Hn) as (_ & Hall & _).
  eapply Forall_impl; [exact Hall|]. intros c (d & Hd & ->). by apply digit_char_ascii.
Qed.

Lemma to_decimal_nonempty n : 0 ≤ n → to_decimal n ≠ [].
Proof. intros Hn. by destruct (to_radix_spec 10 n ltac:(lia) Hn). Qed.

(** A string of digits is not changed by the sign rule of [str::parse]. *)
Lemma parse_uint_digits max s :
  s ≠ [] → forallb is_ascii_digit s = true →
  parse_uint max s =
  match parse_digits 10 0 s with
  | Some n => if n <=? max then Some n else None
  | None => None
  end.
Proof.
  intros Hne Hd. unfold parse_uint. destruct s as [|c [|c' s]]; [done|done|].
  simpl in Hd. apply andb_true_iff in Hd as [Hc _].
  assert ((c =? 43) = false) as -> by (unfold is_ascii_digit in Hc; lia). done.
Qed.

Lemma parse_uint_to_decimal max n : 0 ≤ n ≤ max → parse_uint max (to_decimal n) = Some n.
Proof.
  intros Hn. rewrite parse_uint_digits by (apply to_decimal_nonempty || apply to_decimal_digits; lia).
  unfold to_decimal. rewrite parse_to_radix by lia. by replace (n <=? max) with true by lia.
Qed.

Lemma to_decimal_inj m n : 0 ≤ m → 0 ≤ n → to_decimal m = to_decimal n → m = n.
Proof.
  intros Hm Hn H. apply (f_equal (parse_digits 10 0)) in H. unfold to_decimal in H.
  rewrite !parse_to_radix in H by lia. congruence.
Qed.

(** *** ASCII text *)

Lemma utf8_encode_ascii s : forallb is_ascii s = true → utf8_encode s = s.
Proof.
  unfold utf8_encode. induction s as [|c s IH]; simpl; [done|]. intros H. bprop.
  unfold is_ascii in *. bprop. unfold utf8_encode_char at 1.
  replace (c <? 128) with true by lia. simpl. f_equal. by apply IH.
Qed.

Lemma from_utf8_ascii s : forallb is_ascii s = true → from_utf8 s = Some s.
Proof.
  induction s as [|c s IH]; simpl; [done|]. intros H. bprop.
  unfold is_ascii, between in *. bprop.
  replace ((0 <=? c) && (c <=? 127)) with true by lia. by rewrite IH.
Qed.

Lemma forallb_app {A} (f : A → bool) l1 l2 : forallb f (l1 ++ l2) = forallb f l1 && forallb f l2.
Proof. induction l1; simpl; [done|]. by rewrite IHl1, andb_assoc. Qed.

Lemma forallb_impl {A} (f g : A → bool) l :
  (∀ x, f x = true → g x = true) → forallb f l = true → forallb g l = true.
Proof. intros H. rewrite !forallb_true_Forall. intros Hl. by eapply Forall_impl. Qed.

Lemma digit_is_ascii c : is_ascii_digit c = true → is_ascii c = true.
Proof. unfold is_ascii_digit, is_ascii. lia. Qed.

(** *** Splitting *)

Lemma split_once_Some d s a b :
  split_once d s = Some (a, b) ↔ s = a ++ d :: b ∧ d ∉ a.
Proof.
  revert a b. induction s as [|c s IH]; intros a b; simpl.
  - split; [done|]. intros [H _]. by destruct a.
  - destruct (Z.eqb_spec c d) as [->|Hne].
    + split.
      * intros [= <- <-]. split; [done|set_solver].
      * intros [H Hd]. destruct a as [|x a]; simplify_eq/=; [done|]. set_solver.
    + destruct (split_once d s) as [[a' b']|] eqn:E.
      * split.
        -- intros [= <- <-]. destruct (proj1 (IH a' b') eq_refl) as [-> ?]. set_solver.
        -- intros [H Hd]. destruct a as [|x a]; simplify_eq/=.
           assert (Some (a', b') = Some (a, b)) by (apply IH; set_solver). congruence.
      * split; [done|]. intros [H Hd]. destruct a as [|x a]; simplify_eq/=.
        assert (None = Some (a, b)) by (apply IH; set_solver). done.
Qed.

Lemma split_once_None d s : split_once d s = None ↔ d ∉ s.
Proof.
  induction s as [|c s IH]; simpl; [set_solver|].
  destruct (Z.eqb_spec c d) as [->|]; [set_solver|].
  destruct (split_once d s) as [[]|]; [|set_solver].
  split; [done|]. intros Hn. exfalso.
  assert (d ∉ s) as Hs by set_solver. by apply IH in Hs.
Qed.

Lemma tokens_from_run acc t rest :
  Forall (λ c, is_ascii_whitespace c = false) t →
  tokens_from acc (t ++ rest) = tokens_from (rev t ++ acc) rest.
Proof.
  revert acc. induction t as [|c t IH]; intros acc Ht; simpl; [done|].
  apply Forall_cons in Ht as [Hc Ht]. rewrite Hc, IH by done. by rewrite <- app_assoc.
Qed.

(** A first token followed by blank-separated tokens. *)
Lemma split_ascii_whitespace_words t ts :
  t ≠ [] → Forall (λ c, is_ascii_whitespace c = false) t →
  Forall (λ w, w ≠ [] ∧ Forall (λ c, is_ascii_whitespace c = false) w) ts →
  split_ascii_whitespace (t ++ concat (map (cons 32) ts)) = t :: ts.
Proof.
  intros Hne Ht Hts. unfold split_ascii_whitespace. rewrite tokens_from_run by done.
  rewrite app_nil_r. rewrite <- (rev_involutive t) at 2.
  assert (rev t ≠ []) as Hr by (intros E; apply (f_equal (@rev Z)) in E; by rewrite rev_involutive in E).
  revert Hr. generalize (rev t). clear t Hne Ht.
  induction Hts as [|w ts [Hw Hws] Hts IH]; intros acc Hacc; simpl.
  - destruct acc; [done|by rewrite ?app_nil_r].
  - destruct acc as [|a acc]; [done|]. f_equal. rewrite tokens_from_run by done.
    rewrite app_nil_r, IH; [by rewrite rev_involutive|].
    intros E; apply (f_equal (@rev Z)) in E; by rewrite rev_involutive in E.
Qed.

Lemma lines_from_run acc x rest :
  10 ∉ x → lines_from acc (x ++ 10 :: rest) = strip_cr (rev acc ++ x) :: lines_from [] rest.
Proof.
  revert acc. induction x as [|c x IH]; intros acc Hx; simpl.
  - by rewrite app_nil_r.
  - destruct (Z.eqb_spec c 10) as [->|]; [set_solver|].
    rewrite IH by set_solver. simpl. by rewrite <- app_assoc.
Qed.

Lemma strip_cr_id x : 13 ∉ x → strip_cr x = x.
Proof.
  intros Hx. unfold strip_cr, strip_suffix. destruct (rev x) as [|c y] eqn:E; [done|].
  destruct (Z.eqb_spec c 13) as [->|]; [|done]. exfalso. apply Hx.
  apply list_elem_of_In, in_rev. rewrite E. by left.
Qed.

(** Trimming. *)
Lemma trim_start_id s : (∀ c s', s = c :: s' → is_whitespace c = false) → trim_start s = s.
Proof. destruct s as [|c s]; [done|]. intros H. simpl. by rewrite (H c s eq_refl). Qed.

Lemma trim_none s : Forall (λ c, is_whitespace c = false) s → trim s = s.
Proof.
  intros Hs. unfold trim, trim_end. rewrite (trim_start_id s).
  - rewrite trim_start_id; [apply rev_involutive|]. intros c s' E.
    rewrite Forall_forall in Hs. apply Hs. apply list_elem_of_In, in_rev. rewrite E. by left.
  - intros c s' ->. by apply Forall_cons in Hs as [].
Qed.

Lemma trim_start_nil s : trim_start s = [] ↔ Forall (λ c, is_whitespace c = true) s.
Proof.
  induction s as [|c s IH]; simpl; [split; [constructor|done]|].
  rewrite Forall_cons. destruct (is_whitespace c) eqn:E; [by rewrite IH; naive_solver|naive_solver].
Qed.

(** A line is blank when nothing is left after trimming. *)
Lemma trim_nonblank c s : is_whitespace c = false → trim (c :: s) ≠ [].
Proof.
  intros Hc. unfold trim, trim_end. simpl. rewrite Hc. intros E.
  apply (f_equal (@rev Z)) in E. rewrite rev_involutive in E. simpl in E.
  apply trim_start_nil in E. apply Forall_app in E as [_ E].
  rewrite Forall_singleton in E. by rewrite Hc in E.
Qed.

(** On ASCII text the byte length is the number of characters. *)
Lemma str_len_ascii s : forallb is_ascii s = true → str_len s = zlen s.
Proof.
  induction s as [|c s IH]; [done|]. cbn [forallb str_len foldr]. intros H. bprop.
  rewrite zlen_cons, <- IH by done. unfold is_ascii, utf8_width in *. bprop.
  by replace (c <? 128) with true by lia.
Qed.

Lemma str_len_app s t : str_len (s ++ t) = str_len s + str_len t.
Proof. unfold str_len. induction s as [|c s IH]; cbn; [done|]. rewrite IH. lia. Qed.

(** ** Decoding UTF-8 *)

Lemma encode_2 b0 b1 : 194 ≤ b0 ≤ 223 → 128 ≤ b1 ≤ 191 →
  utf8_encode_char ((b0 - 192) * 64 + (b1 - 128)) = [b0; b1].
Proof.
  intros. unfold utf8_encode_char. set (c := _ + _).
  destruct (Z.ltb_spec c 128); [lia|]. destruct (Z.ltb_spec c 2048); [|lia].
  replace (c / 64) with (b0 - 192) by (apply (Z.div_unique_pos _ _ _ (b1 - 128)); lia).
  replace (c mod 64) with (b1 - 128) by (apply (Z.mod_unique_pos _ _ (b0 - 192)); lia).
  f_equal; [lia|]. f_equal. lia.
Qed.

Lemma encode_3 b0 b1 b2 :
  224 ≤ b0 ≤ 239 → 128 ≤ b1 ≤ 191 → 128 ≤ b2 ≤ 191 → (b0 = 224 → 160 ≤ b1) →
  utf8_encode_char ((b0 - 224) * 4096 + (b1 - 128) * 64 + (b2 - 128)) = [b0; b1; b2].
Proof.
  intros. unfold utf8_encode_char. set (c := _ + _).
  destruct (Z.ltb_spec c 128); [lia|]. destruct (Z.ltb_spec c 2048); [lia|].
  destruct (Z.ltb_spec c 65536); [|lia].
  replace (c / 4096) with (b0 - 224)
    by (apply (Z.div_unique_pos _ _ _ ((b1 - 128) * 64 + (b2 - 128))); lia).
  assert (c / 64 = (b0 - 224) * 64 + (b1 - 128)) as ->
    by (symmetry; apply (Z.div_unique_pos _ _ _ (b2 - 128)); lia).
  replace (c mod 64) with (b2 - 128)
    by (apply (Z.mod_unique_pos _ _ ((b0 - 224) * 64 + (b1 - 128))); lia).
  replace (((b0 - 224) * 64 + (b1 - 128)) mod 64) with (b1 - 128)
    by (apply (Z.mod_unique_pos _ _ (b0 - 224)); lia).
  repeat (f_equal; [lia|]). f_equal. lia.
Qed.

Lemma encode_4 b0 b1 b2 b3 :
  240 ≤ b0 ≤ 244 → 128 ≤ b1 ≤ 191 → 128 ≤ b2 ≤ 191 → 128 ≤ b3 ≤ 191 → (b0 = 240 → 144 ≤ b1) →
  utf8_encode_char ((b0 - 240) * 262144 + (b1 - 128) * 4096 + (b2 - 128) * 64 + (b3 - 128))
  = [b0; b1; b2; b3].
Proof.
  intros. unfold utf8_encode_char. set (c := _ + _).
  destruct (Z.ltb_spec c 128); [lia|]. destruct (Z.ltb_spec c 2048); [lia|].
  destruct (Z.ltb_spec c 65536); [lia|].
  replace (c / 262144) with (b0 - 240)
    by (apply (Z.div_unique_pos _ _ _ ((b1 - 128) * 4096 + (b2 - 128) * 64 + (b3 - 128))); lia).
  assert (c / 4096 = (b0 - 240) * 64 + (b1 - 128)) as ->
    by (symmetry; apply (Z.div_unique_pos _ _ _ ((b2 - 128) * 64 + (b3 - 128))); lia).
  assert (c / 64 = ((b0 - 240) * 64 + (b1 - 128)) * 64 + (b2 - 128)) as ->
    by (symmetry; apply (Z.div_unique_pos _ _ _ (b3 - 128)); lia).
  replace (c mod 64) with (b3 - 128)
    by (apply (Z.mod_unique_pos _ _ (((b0 - 240) * 64 + (b1 - 128)) * 64 + (b2 - 128))); lia).
  replace ((((b0 - 240) * 64 + (b1 - 128)) * 64 + (b2 - 128)) mod 64) with (b2 - 128)
    by (apply (Z.mod_unique_pos _ _ ((b0 - 240) * 64 + (b1 - 128))); lia).
  replace (((b0 - 240) * 64 + (b1 - 128)) mod 64) with (b1 - 128)
    by (apply (Z.mod_unique_pos _ _ (b0 - 240)); lia).
  repeat (f_equal; [lia|]). f_equal. lia.
Qed.

Lemma between_true lo c hi : between lo c hi = true ↔ lo ≤ c ≤ hi.
Proof. unfold between. rewrite andb_true_iff, !Z.leb_le. done. Qed.

Lemma from_utf8_sound_fuel n bs s : (length bs ≤ n)%nat → from_utf8 bs = Some s → utf8_encode s = bs.
Proof.
  revert bs s. induction n as [|n IH]; intros bs s Hn Hs.
  { destruct bs; [|cbn in Hn; lia]. by injection Hs as <-. }
  destruct bs as [|b0 r0]; [by injection Hs as <-|]. cbn [from_utf8 length] in *.
  destruct (between 0 b0 127) eqn:E0.
  { apply between_true in E0. apply fmap_Some in Hs as (s' & Hs & ->). apply IH in Hs; [|lia].
    unfold utf8_encode in *. cbn. rewrite Hs. unfold utf8_encode_char.
    by destruct (Z.ltb_spec b0 128); [|lia]. }
  destruct (between 194 b0 223) eqn:E1.
  { apply between_true in E1. destruct r0 as [|b1 r1]; [done|]. destruct (between 128 b1 191) eqn:E2; [|done].
    apply between_true in E2. apply fmap_Some in Hs as (s' & Hs & ->). apply IH in Hs; [|cbn in *; lia].
    unfold utf8_encode in *. cbn [map concat]. by rewrite Hs, encode_2. }
  destruct (between 224 b0 239) eqn:E2.
  { apply between_true in E2. destruct r0 as [|b1 [|b2 r2]]; [done|done|].
    destruct (between _ b1 _ && _) eqn:E3; [|done]. apply andb_true_iff in E3 as [E3 E4].
    apply between_true in E3, E4. apply fmap_Some in Hs as (s' & Hs & ->). apply IH in Hs; [|cbn in *; lia].
    unfold utf8_encode in *. cbn [map concat]. rewrite Hs, encode_3; [done|lia| |lia|].
    - destruct (b0 =? 224), (b0 =? 237); lia.
    - intros ->. cbn in E3. lia. }
  destruct (between 240 b0 244) eqn:E3; [|done].
  apply between_true in E3. destruct r0 as [|b1 [|b2 [|b3 r3]]]; [done|done|done|].
  destruct (between _ b1 _ && _ && _) eqn:E4; [|done]. apply andb_true_iff in E4 as [[E4 E5]%andb_true_iff E6].
  apply between_true in E4, E5, E6. apply fmap_Some in Hs as (s' & Hs & ->). apply IH in Hs; [|cbn in *; lia].
  unfold utf8_encode in *. cbn [map concat]. rewrite Hs, encode_4; [done|lia| |lia|lia|].
  - destruct (b0 =? 240), (b0 =? 244); lia.
  - intros ->. cbn in E4. lia.
Qed.

(** Decoding reads every byte: it is undone by encoding. *)
Lemma from_utf8_sound bs s : from_utf8 bs = Some s → utf8_encode s = bs.
Proof. by apply (from_utf8_sound_fuel (length bs)). Qed.
