(* ===== verification/BTree.v ===== *)
(** * Ordered sets and maps

    [BTreeSet] and [BTreeMap] of the Rust standard library, for the code whose
    results depend on their iteration order: a set is the strictly increasing
    list of its elements, a map the list of its entries with strictly
    increasing keys. [OrdKey] is the [Ord] bound on keys; the instances are
    the key types of the program. *)

From Stdlib Require Import Sorting.Sorted.
From S2P Require Import Prelude.

(** ** Keys *)

Class OrdKey (K : Type) := {
  kcmp : K → K → comparison;
  kcmp_eq : ∀ a b, kcmp a b = Eq ↔ a = b;
  kcmp_antisym : ∀ a b, kcmp b a = CompOpp (kcmp a b);
  kcmp_trans : ∀ a b c, kcmp a b = Lt → kcmp b c = Lt → kcmp a c = Lt;
}.

Definition klt {K} `{OrdKey K} (a b : K) : Prop := kcmp a b = Lt.

#[global] Program Instance Z_ordkey : OrdKey Z := {| kcmp := Z.compare |}.
Next Obligation. apply Z.compare_eq_iff. Qed.
Next Obligation. intros. apply Z.compare_antisym. Qed.
Next Obligation. intros a b c. rewrite !Z.compare_lt_iff. lia. Qed.

(** Derived [Ord] of a pair, and of a tuple struct: lexicographic. *)
Definition lex_cmp {A B} `{OrdKey A} `{OrdKey B} (x y : A * B) : comparison :=
  match kcmp x.1 y.1 with
  | Eq => kcmp x.2 y.2
  | c => c
  end.

Section Keys.
Context {A B : Type} `{OA : OrdKey A} `{OB : OrdKey B}.

Lemma kcmp_refl (a : A) : kcmp a a = Eq.
Proof. by apply kcmp_eq. Qed.

Lemma kcmp_gt_lt (a b : A) : kcmp a b = Gt → kcmp b a = Lt.
Proof. intros H. by rewrite kcmp_antisym, H. Qed.

Lemma lex_cmp_eq (x y : A * B) : lex_cmp x y = Eq ↔ x = y.
Proof.
  destruct x as [a b], y as [a' b']. unfold lex_cmp; simpl.
  destruct (kcmp a a') eqn:E.
  - apply kcmp_eq in E as ->. rewrite kcmp_eq. naive_solver.
  - split; [done|]. intros [= -> ->]. by rewrite kcmp_refl in E.
  - split; [done|]. intros [= -> ->]. by rewrite kcmp_refl in E.
Qed.

Lemma lex_cmp_antisym (x y : A * B) : lex_cmp y x = CompOpp (lex_cmp x y).
Proof.
  unfold lex_cmp. rewrite (kcmp_antisym x.1 y.1).
  destruct (kcmp x.1 y.1); simpl; [apply kcmp_antisym|done|done].
Qed.

Lemma lex_cmp_trans (x y z : A * B) :
  lex_cmp x y = Lt → lex_cmp y z = Lt → lex_cmp x z = Lt.
Proof.
  unfold lex_cmp. destruct (kcmp x.1 y.1) eqn:E1; [| |done].
  - apply kcmp_eq in E1. rewrite E1. destruct (kcmp y.1 z.1); try done. apply kcmp_trans.
  - intros _. destruct (kcmp y.1 z.1) eqn:E2; [| |done]; intros _.
    + apply kcmp_eq in E2. by rewrite <- E2, E1.
    + by rewrite (kcmp_trans _ _ _ E1 E2).
Qed.

End Keys.

#[global] Instance prod_ordkey {A B} `{OrdKey A} `{OrdKey B} : OrdKey (A * B) :=
  {| kcmp := lex_cmp; kcmp_eq := lex_cmp_eq; kcmp_antisym := lex_cmp_antisym;
     kcmp_trans := lex_cmp_trans |}.

(** Strings are ordered by their UTF-8 bytes, which is the order of their
    scalar values. *)
Fixpoint list_cmp {A} `{OrdKey A} (x y : list A) : comparison :=
  match x, y with
  | [], [] => Eq
  | [], _ :: _ => Lt
  | _ :: _, [] => Gt
  | a :: x', b :: y' => match kcmp a b with Eq => list_cmp x' y' | c => c end
  end.

#[global] Program Instance list_ordkey {A} `{OrdKey A} : OrdKey (list A) :=
  {| kcmp := list_cmp |}.
Next Obligation.
  intros A HA x. induction x as [|a x IH]; intros [|b y]; simpl; try done.
  destruct (kcmp a b) eqn:E.
  - apply kcmp_eq in E as ->. rewrite IH. naive_solver.
  - split; [done|]. intros [= -> ->]. by rewrite kcmp_refl in E.
  - split; [done|]. intros [= -> ->]. by rewrite kcmp_refl in E.
Qed.
Next Obligation.
  intros A HA x. induction x as [|a x IH]; intros [|b y]; simpl; try done.
  rewrite (kcmp_antisym a b). destruct (kcmp a b); simpl; auto.
Qed.
Next Obligation.
  intros A HA x. induction x as [|a x IH]; intros [|b y] [|c z]; simpl; try done.
  destruct (kcmp a b) eqn:E1; [| |done].
  - apply kcmp_eq in E1 as ->. destruct (kcmp b c); try done. apply IH.
  - intros _. destruct (kcmp b c) eqn:E2; [| |done]; intros _.
    + apply kcmp_eq in E2 as ->. by rewrite E1.
    + by rewrite (kcmp_trans _ _ _ E1 E2).
Qed.

(** ** Operations *)

Section Operations.
Context {K : Type} `{OrdKey K}.

Definition keqb (a b : K) : bool :=
  match kcmp a b with Eq => true | _ => false end.

Definition bset_mem (k : K) (s : list K) : bool := existsb (keqb k) s.

Fixpoint bset_insert (k : K) (s : list K) : list K :=
  match s with
  | [] => [k]
  | x :: s' =>
      match kcmp k x with
      | Lt => k :: s
      | Eq => s
      | Gt => x :: bset_insert k s'
      end
  end.

Definition bset_remove (k : K) (s : list K) : list K :=
  List.filter (λ x, negb (keqb k x)) s.

(** [BTreeSet::extend] and [collect]. *)
Definition bset_extend (s l : list K) : list K :=
  fold_left (λ s k, bset_insert k s) l s.
Definition bset_of (l : list K) : list K := bset_extend [] l.

Context {V : Type}.

Fixpoint bmap_get (k : K) (m : list (K * V)) : option V :=
  match m with
  | [] => None
  | (x, v) :: m' => if keqb k x then Some v else bmap_get k m'
  end.

Fixpoint bmap_insert (k : K) (v : V) (m : list (K * V)) : list (K * V) :=
  match m with
  | [] => [(k, v)]
  | (x, w) :: m' =>
      match kcmp k x with
      | Lt => (k, v) :: m
      | Eq => (k, v) :: m'
      | Gt => (x, w) :: bmap_insert k v m'
      end
  end.

Definition bmap_of (l : list (K * V)) : list (K * V) :=
  fold_left (λ m kv, bmap_insert kv.1 kv.2 m) l [].

Definition bmap_keys (m : list (K * V)) : list K := map fst m.

End Operations.

(** ** Lemmas *)

Section Sets.
Context {K : Type} `{OrdKey K}.

Definition bsorted (s : list K) : Prop := StronglySorted klt s.

Lemma keqb_spec a b : reflect (a = b) (keqb a b).
Proof.
  unfold keqb. destruct (kcmp a b) eqn:E; constructor.
  - by apply kcmp_eq.
  - intros ->. by rewrite kcmp_refl in E.
  - intros ->. by rewrite kcmp_refl in E.
Qed.

Lemma bset_mem_true k s : bset_mem k s = true ↔ k ∈ s.
Proof.
  unfold bset_mem. rewrite existsb_exists. setoid_rewrite <- list_elem_of_In. split.
  - intros (x & Hx & E). by destruct (keqb_spec k x); subst.
  - intros Hk. exists k. split; [done|]. by destruct (keqb_spec k k).
Qed.

Lemma bset_mem_false k s : bset_mem k s = false ↔ k ∉ s.
Proof. rewrite <- bset_mem_true. by destruct (bset_mem k s). Qed.

Lemma bset_mem_ext k s1 s2 : (k ∈ s1 ↔ k ∈ s2) → bset_mem k s1 = bset_mem k s2.
Proof.
  intros H'. destruct (bset_mem k s2) eqn:E.
  - apply bset_mem_true. apply H'. by apply bset_mem_true.
  - apply bset_mem_false. rewrite H'. by apply bset_mem_false.
Qed.

Lemma elem_of_bset_insert x k s : x ∈ bset_insert k s ↔ x = k ∨ x ∈ s.
Proof.
  induction s as [|y s IH]; simpl; [set_solver|].
  destruct (kcmp k y) eqn:E; [apply kcmp_eq in E as ->; set_solver|set_solver|].
  rewrite !elem_of_cons, IH. tauto.
Qed.

Lemma elem_of_bset_remove x k s : x ∈ bset_remove k s ↔ x ∈ s ∧ x ≠ k.
Proof.
  unfold bset_remove. rewrite !list_elem_of_In, filter_In.
  destruct (keqb_spec k x); simpl; naive_solver.
Qed.

Lemma bset_insert_sorted k s : bsorted s → bsorted (bset_insert k s).
Proof.
  unfold bsorted. induction 1 as [|x s Hs IH Hx]; simpl; [by repeat constructor|].
  destruct (kcmp k x) eqn:E; [by constructor|..].
  - constructor; [by constructor|]. constructor; [done|].
    eapply Forall_impl; [exact Hx|]. intros y Hy. by eapply kcmp_trans.
  - constructor; [done|]. apply Forall_forall. intros y [->|Hy]%elem_of_bset_insert.
    + by apply kcmp_gt_lt.
    + rewrite Forall_forall in Hx. auto.
Qed.

Lemma bset_remove_sorted k s : bsorted s → bsorted (bset_remove k s).
Proof.
  unfold bsorted, bset_remove. induction 1 as [|x s Hs IH Hx]; simpl; [constructor|].
  destruct (negb _); [|done]. constructor; [done|].
  rewrite Forall_forall in Hx |- *. intros y Hy. apply Hx.
  by apply elem_of_bset_remove in Hy as [? ?].
Qed.

Lemma elem_of_bset_extend x s l : x ∈ bset_extend s l ↔ x ∈ s ∨ x ∈ l.
Proof.
  unfold bset_extend. revert s. induction l as [|k l IH]; intros s; simpl; [set_solver|].
  rewrite IH, elem_of_bset_insert. set_solver.
Qed.

Lemma bset_extend_sorted s l : bsorted s → bsorted (bset_extend s l).
Proof.
  unfold bset_extend. revert s. induction l as [|k l IH]; intros s Hs; simpl; [done|].
  by apply IH, bset_insert_sorted.
Qed.

Lemma elem_of_bset_of x l : x ∈ bset_of l ↔ x ∈ l.
Proof. unfold bset_of. rewrite elem_of_bset_extend. set_solver. Qed.

Lemma bset_of_sorted l : bsorted (bset_of l).
Proof. apply bset_extend_sorted. constructor. Qed.

Lemma klt_irrefl (x : K) : ¬ klt x x.
Proof. unfold klt. by rewrite kcmp_refl. Qed.

Lemma bsorted_NoDup s : bsorted s → NoDup s.
Proof.
  induction 1 as [|x s Hs IH Hx]; constructor; auto.
  intros Hin. rewrite Forall_forall in Hx. by apply (klt_irrefl x), Hx.
Qed.

(** A set is determined by its elements. *)
Lemma bset_ext s1 s2 :
  bsorted s1 → bsorted s2 → (∀ x, x ∈ s1 ↔ x ∈ s2) → s1 = s2.
Proof.
  intros Hs1. revert s2. induction Hs1 as [|x s1 Hs1 IH Hx]; intros s2 Hs2 Hext.
  - destruct s2 as [|y s2]; [done|]. exfalso. specialize (Hext y). set_solver.
  - destruct Hs2 as [|y s2 Hs2 Hy]; [exfalso; specialize (Hext x); set_solver|].
    rewrite Forall_forall in Hx, Hy.
    assert (x = y) as <-.
    { pose proof (proj1 (Hext x) ltac:(set_solver)) as [|Hx2]%elem_of_cons; [done|].
      pose proof (proj2 (Hext y) ltac:(set_solver)) as [|Hy1]%elem_of_cons; [done|].
      exfalso. apply (klt_irrefl x). eapply kcmp_trans; [by apply Hx|by apply Hy]. }
    f_equal. apply IH; [done|]. intros z. specialize (Hext z).
    rewrite !elem_of_cons in Hext. split; intros Hz.
    + destruct (proj1 Hext ltac:(auto)) as [->|]; [|done]. by destruct (klt_irrefl x); auto.
    + destruct (proj2 Hext ltac:(auto)) as [->|]; [|done]. by destruct (klt_irrefl x); auto.
Qed.

Lemma bset_of_id s : bsorted s → bset_of s = s.
Proof. intros. apply bset_ext; auto using bset_of_sorted, elem_of_bset_of. Qed.

End Sets.

Section Maps.
Context {K : Type} `{OrdKey K} {V : Type}.
Implicit Types m : list (K * V).

Definition bmap_sorted m : Prop := bsorted (bmap_keys m).

Lemma bmap_keys_insert k v m : bmap_keys (bmap_insert k v m) = bset_insert k (bmap_keys m).
Proof.
  induction m as [|[x w] m IH]; simpl; [done|].
  destruct (kcmp k x) eqn:E; simpl; [apply kcmp_eq in E; congruence|done|congruence].
Qed.

Lemma bmap_insert_sorted k v m : bmap_sorted m → bmap_sorted (bmap_insert k v m).
Proof. unfold bmap_sorted. rewrite bmap_keys_insert. apply bset_insert_sorted. Qed.

Lemma bmap_get_insert k v m k' :
  bmap_get k' (bmap_insert k v m) = if keqb k' k then Some v else bmap_get k' m.
Proof.
  induction m as [|[x w] m IH]; simpl; [done|].
  destruct (kcmp k x) eqn:E; simpl; [|done|].
  - apply kcmp_eq in E as ->. by destruct (keqb k' x).
  - rewrite IH. destruct (keqb_spec k' k) as [Hk|]; [|done].
    rewrite Hk. unfold keqb. by rewrite E.
Qed.

Lemma bmap_get_key k m : (∃ v, bmap_get k m = Some v) ↔ k ∈ bmap_keys m.
Proof.
  induction m as [|[x w] m IH]; simpl; [set_solver|].
  rewrite elem_of_cons, <- IH. destruct (keqb_spec k x); naive_solver.
Qed.

Lemma bmap_get_None k m : bmap_get k m = None ↔ k ∉ bmap_keys m.
Proof.
  rewrite <- bmap_get_key. destruct (bmap_get k m); naive_solver.
Qed.

Lemma bmap_get_elem k v m : bmap_get k m = Some v → (k, v) ∈ m.
Proof.
  induction m as [|[x w] m IH]; simpl; [done|].
  destruct (keqb_spec k x); intros; simplify_eq; set_solver.
Qed.

Lemma bmap_elem_get k v m : bmap_sorted m → (k, v) ∈ m → bmap_get k m = Some v.
Proof.
  unfold bmap_sorted, bsorted. induction m as [|[x w] m IH]; simpl; [set_solver|].
  intros Hs. apply StronglySorted_inv in Hs as [Hs Hx]. rewrite Forall_forall in Hx.
  intros [[= -> ->]|Hin]%elem_of_cons.
  - by destruct (keqb_spec x x).
  - destruct (keqb_spec k x) as [->|]; [|by apply IH].
    exfalso. apply (klt_irrefl x), Hx. apply list_elem_of_fmap. by exists (x, v).
Qed.

Lemma bmap_of_sorted (l : list (K * V)) : bmap_sorted (bmap_of l).
Proof.
  unfold bmap_of. assert (bmap_sorted (@nil (K * V))) as Hn by constructor.
  revert Hn. generalize (@nil (K * V)). induction l as [|[k v] l IH]; simpl; [done|].
  intros m Hm. by apply IH, bmap_insert_sorted.
Qed.

(** With distinct keys, collecting a list of entries loses none. *)
Lemma bmap_of_get (l : list (K * V)) k :
  NoDup (map fst l) → bmap_get k (bmap_of l) = bmap_get k l.
Proof.
  unfold bmap_of.
  assert (∀ (l m : list (K * V)), NoDup (map fst l) → bmap_get k (fold_left (λ m kv, bmap_insert kv.1 kv.2 m) l m) =
    match bmap_get k l with Some v => Some v | None => bmap_get k m end) as Hg.
  { clear l. induction l as [|[x v] l IH]; intros m Hnd; simpl; [done|].
    apply NoDup_cons in Hnd as [Hx Hnd]. rewrite IH, bmap_get_insert by done.
    destruct (keqb_spec k x) as [->|]; [|done].
    by rewrite (proj2 (bmap_get_None x l) Hx). }
  intros Hnd. rewrite Hg by done. by destruct (bmap_get k l).
Qed.

Lemma bmap_of_keys (l : list (K * V)) k : k ∈ bmap_keys (bmap_of l) ↔ k ∈ map fst l.
Proof.
  unfold bmap_of.
  assert (∀ (l m : list (K * V)), k ∈ bmap_keys (fold_left (λ m kv, bmap_insert kv.1 kv.2 m) l m) ↔
    k ∈ bmap_keys m ∨ k ∈ map fst l) as Hg.
  { clear l. induction l as [|[x v] l IH]; intros m; simpl; [set_solver|].
    rewrite IH, bmap_keys_insert, elem_of_bset_insert. set_solver. }
  rewrite Hg. set_solver.
Qed.

End Maps.

#[export] Hint Resolve bset_of_sorted bset_insert_sorted bset_remove_sorted
  bset_extend_sorted bmap_insert_sorted bmap_of_sorted : rust.

(** An entry of a collected map comes from the list. *)
Lemma bmap_of_elem {K V} `{OrdKey K} (l : list (K * V)) k v :
  bmap_get k (bmap_of l) = Some v → (k, v) ∈ l.
Proof.
  unfold bmap_of.
  assert (∀ (l m : list (K * V)), bmap_get k (fold_left (λ m kv, bmap_insert kv.1 kv.2 m) l m) = Some v →
    (k, v) ∈ l ∨ bmap_get k m = Some v) as Hg.
  { clear l. induction l as [|[x w] l IH]; intros m Hm; simpl in Hm; [by right|].
    apply IH in Hm as [Hm|Hm]; [left; set_solver|]. rewrite bmap_get_insert in Hm.
    destruct (keqb_spec k x) as [E|]; [|by right]. left. simplify_eq. set_solver. }
  intros [|]%Hg; [done|]. done.
Qed.

(** ** Removing and extending *)

Section Updates.
Context {K : Type} `{OrdKey K} {V : Type}.
Implicit Types m : list (K * V).

(** [BTreeMap::remove]. *)
Definition bmap_remove (k : K) m : list (K * V) := List.filter (λ kv, negb (keqb k kv.1)) m.

(** [insert] for each entry of a list. *)
Definition bmap_extend (l m : list (K * V)) : list (K * V) :=
  fold_left (λ m kv, bmap_insert kv.1 kv.2 m) l m.

Lemma bmap_get_remove k m k' :
  bmap_get k' (bmap_remove k m) = if keqb k' k then None else bmap_get k' m.
Proof.
  induction m as [|[x w] m IH]; simpl; [by destruct (keqb k' k)|].
  destruct (keqb_spec k x) as [->|]; simpl; rewrite IH.
  - by destruct (keqb k' x).
  - destruct (keqb_spec k' x) as [E|]; [|done]. rewrite E. by destruct (keqb_spec x k).
Qed.

Lemma bmap_keys_remove k m : bmap_keys (bmap_remove k m) = bset_remove k (bmap_keys m).
Proof. induction m as [|[x w] m IH]; simpl; [done|]. destruct (keqb k x); simpl; congruence. Qed.

Lemma bmap_remove_sorted k m : bmap_sorted m → bmap_sorted (bmap_remove k m).
Proof. unfold bmap_sorted. rewrite bmap_keys_remove. apply bset_remove_sorted. Qed.

Lemma bmap_extend_sorted l m : bmap_sorted m → bmap_sorted (bmap_extend l m).
Proof. revert m. induction l as [|[k v] l IH]; simpl; [done|]. intros m Hm. by apply IH, bmap_insert_sorted. Qed.

Lemma bmap_extend_get l m k :
  NoDup (map fst l) →
  bmap_get k (bmap_extend l m) = match bmap_get k l with Some v => Some v | None => bmap_get k m end.
Proof.
  revert m. induction l as [|[x v] l IH]; intros m Hnd; simpl; [done|].
  apply NoDup_cons in Hnd as [Hx Hnd]. unfold bmap_extend in *. cbn [fold_left fst snd].
  rewrite IH, bmap_get_insert by done. destruct (keqb_spec k x) as [->|]; [|done].
  by rewrite (proj2 (bmap_get_None x l) Hx).
Qed.

(** A map is determined by its lookups. *)
Lemma bmap_ext m1 m2 :
  bmap_sorted m1 → bmap_sorted m2 → (∀ k, bmap_get k m1 = bmap_get k m2) → m1 = m2.
Proof.
  intros Hs1 Hs2 Hget.
  assert (bmap_keys m1 = bmap_keys m2) as Hk.
  { apply bset_ext; [done..|]. intros k. by rewrite <- !bmap_get_key, Hget. }
  revert m2 Hs2 Hget Hk. induction m1 as [|[x v] m1 IH]; intros [|[y w] m2] Hs2 Hget Hk; try done.
  injection Hk as <- Hk. assert (v = w) as <-.
  { specialize (Hget x). simpl in Hget. destruct (keqb_spec x x); [congruence|done]. }
  f_equal. pose proof (bsorted_NoDup _ Hs1) as [Hx1 _]%NoDup_cons. pose proof (bsorted_NoDup _ Hs2) as [Hx2 _]%NoDup_cons.
  apply StronglySorted_inv in Hs1 as [Hs1 _]. apply StronglySorted_inv in Hs2 as [Hs2 _].
  apply IH; [done..| |done]. intros k. specialize (Hget k). simpl in Hget.
  destruct (keqb_spec k x) as [E|]; [|done]. rewrite E.
  by rewrite (proj2 (bmap_get_None x m1) Hx1), (proj2 (bmap_get_None x m2) Hx2).
Qed.

Lemma bmap_insert_remove k v m : bmap_sorted m → bmap_insert k v (bmap_remove k m) = bmap_insert k v m.
Proof.
  intros Hm. apply bmap_ext; auto using bmap_insert_sorted, bmap_remove_sorted.
  intros k'. rewrite !bmap_get_insert, bmap_get_remove. by destruct (keqb k' k).
Qed.

Lemma bmap_insert_get k v m : bmap_sorted m → bmap_get k m = Some v → bmap_insert k v m = m.
Proof.
  intros Hm Hk. apply bmap_ext; auto using bmap_insert_sorted.
  intros k'. rewrite bmap_get_insert. by destruct (keqb_spec k' k) as [->|].
Qed.

End Updates.

#[export] Hint Resolve bmap_remove_sorted bmap_extend_sorted : rust.
