(* ===== verification/RustVec.v ===== *)
(** * Vectors and slices of the Rust standard library

    Slicing by a range, [copy_from_slice] and [copy_within] on a range,
    [swap_remove] and little-endian integers, with the panics of the source: a
    range outside the vector, or slices of different lengths, is a [Panic]. *)

From S2P Require Import Prelude.

Section Slices.
Context {E A : Type}.

(** [&l[a..b]]. *)
Definition slice (l : list A) (a b : Z) : rres E (list A) :=
  if (0 <=? a) && (a <=? b) && (b <=? zlen l)
  then Ok (take (Z.to_nat (b - a)) (drop (Z.to_nat a) l)) else Panic.

(** The bytes of [src] over those of [l] from [a] on. *)
Definition splice (l : list A) (a : Z) (src : list A) : list A :=
  take (Z.to_nat a) l ++ src ++ drop (Z.to_nat a + length src) l.

(** [l[a..b].copy_from_slice(src)]. *)
Definition copy_from_slice (l : list A) (a b : Z) (src : list A) : rres E (list A) :=
  if (0 <=? a) && (a <=? b) && (b <=? zlen l) && (zlen src =? b - a)
  then Ok (splice l a src) else Panic.

(** [l.copy_within(a..b, target)]: the source range is read before anything is
    written. *)
Definition copy_within (l : list A) (a b target : Z) : rres E (list A) :=
  let? src := slice l a b in
  if (0 <=? target) && (target <=? zlen l - (b - a)) then Ok (splice l target src) else Panic.

(** [l[i]]. *)
Definition index (l : list A) (i : nat) : rres E A :=
  match l !! i with Some x => Ok x | None => Panic end.

(** [Vec::swap_remove]: the last element takes the place of the removed one. *)
Definition swap_remove (l : list A) (i : nat) : rres E (A * list A) :=
  match l !! i, last l with
  | Some x, Some y => Ok (x, take (pred (length l)) (<[i := y]> l))
  | _, _ => Panic
  end.

(** [iter().position(f)]. *)
Definition position (f : A → bool) (l : list A) : option nat :=
  fst <$> list_find (λ x, f x = true) l.

(** [chunks_exact(n)]: an incomplete last chunk is dropped. The fuel bounds
    the number of chunks; [chunks_exact(0)] panics, and no caller uses it. *)
Fixpoint chunks_fuel (fuel n : nat) (l : list A) : list (list A) :=
  match fuel with
  | O => []
  | S fuel => if decide (length l < n)%nat then [] else take n l :: chunks_fuel fuel n (drop n l)
  end.

Definition chunks_exact (n : nat) (l : list A) : list (list A) :=
  if decide (n = 0%nat) then [] else chunks_fuel (length l) n l.

End Slices.

(** Lookup at a machine-integer index. *)
Definition zget {A} (l : list A) (i : Z) : option A :=
  if 0 <=? i then l !! Z.to_nat i else None.

(** [to_le_bytes] of an unsigned integer of [n] bytes. *)
Fixpoint to_le_bytes (n : nat) (v : Z) : list Z :=
  match n with
  | O => []
  | S n => v mod 256 :: to_le_bytes n (v / 256)
  end.

(** The reading direction. *)
Fixpoint from_le_bytes (bs : list Z) : Z :=
  match bs with
  | [] => 0
  | b :: bs => b + 256 * from_le_bytes bs
  end.

(** [to_be_bytes]. *)
Definition to_be_bytes (n : nat) (v : Z) : list Z := rev (to_le_bytes n v).
Definition from_be_bytes (bs : list Z) : Z := from_le_bytes (rev bs).

(** ** Lemmas *)

Section Lemmas.
Context {A : Type}.
Implicit Types l src : list A.

Lemma zget_Some_range l i x : zget l i = Some x → 0 ≤ i < zlen l.
Proof.
  unfold zget, zlen. case_match eqn:E; [|done]. bprop.
  intros H%lookup_lt_Some. lia.
Qed.

Lemma zget_is_Some l i : 0 ≤ i < zlen l → ∃ x, zget l i = Some x.
Proof.
  unfold zget, zlen. intros H. rewrite (proj2 (Z.leb_le 0 i)) by lia.
  apply lookup_lt_is_Some. lia.
Qed.

Lemma zget_None l i : zget l i = None ↔ i < 0 ∨ zlen l ≤ i.
Proof.
  destruct (zget l i) eqn:E.
  - apply zget_Some_range in E. split; [done|lia].
  - split; [|done]. intros _. destruct (decide (0 ≤ i < zlen l)) as [H|]; [|lia].
    apply zget_is_Some in H as [x ?]. congruence.
Qed.

(** Two vectors of one length that agree at every index are equal. *)
Lemma zget_ext l1 l2 :
  zlen l1 = zlen l2 → (∀ i, 0 ≤ i < zlen l1 → zget l1 i = zget l2 i) → l1 = l2.
Proof.
  unfold zlen. intros Hl H. apply list_eq. intros i.
  destruct (decide (i < length l1)%nat) as [Hi|Hi].
  - specialize (H (Z.of_nat i)). unfold zget in H.
    rewrite (proj2 (Z.leb_le 0 (Z.of_nat i))), Nat2Z.id in H by lia. apply H. lia.
  - rewrite !lookup_ge_None_2 by lia. done.
Qed.

Lemma zget_app l1 l2 i :
  zget (l1 ++ l2) i = if i <? zlen l1 then zget l1 i else zget l2 (i - zlen l1).
Proof.
  unfold zget, zlen. destruct (Z.leb_spec 0 i), (Z.ltb_spec i (Z.of_nat (length l1))).
  - apply lookup_app_l. lia.
  - rewrite lookup_app_r, (proj2 (Z.leb_le 0 _)) by lia. f_equal. lia.
  - done.
  - rewrite (proj2 (Z.leb_gt 0 _)) by lia. done.
Qed.

Lemma zlen_splice l a src :
  0 ≤ a → a + zlen src ≤ zlen l → zlen (splice l a src) = zlen l.
Proof.
  unfold zlen, splice. intros. rewrite !length_app, length_take, length_drop. lia.
Qed.

Lemma zget_splice l a src i :
  0 ≤ a → a + zlen src ≤ zlen l →
  zget (splice l a src) i =
    if (a <=? i) && (i <? a + zlen src) then zget src (i - a) else zget l i.
Proof.
  unfold zget, zlen, splice. intros Ha Hl.
  destruct (Z.leb_spec 0 i) as [Hi|Hi]; cycle 1.
  { rewrite (proj2 (Z.leb_gt a i)) by lia. done. }
  destruct (Z.leb_spec a i) as [Hai|Hai]; cbn [andb].
  - rewrite lookup_app_r by (rewrite length_take; lia).
    rewrite length_take_le by lia.
    destruct (Z.ltb_spec i (a + Z.of_nat (length src))).
    + rewrite lookup_app_l by lia. rewrite (proj2 (Z.leb_le 0 (i - a))) by lia.
      f_equal. lia.
    + rewrite lookup_app_r, lookup_drop by lia. f_equal. lia.
  - rewrite lookup_app_l by (rewrite length_take; lia). apply lookup_take_lt. lia.
Qed.

Lemma slice_Ok {E} l a b :
  0 ≤ a → a ≤ b → b ≤ zlen l →
  ∃ s, slice (E := E) l a b = Ok s ∧ zlen s = b - a ∧
    ∀ i, 0 ≤ i < b - a → zget s i = zget l (a + i).
Proof.
  intros Ha Hab Hb. unfold slice.
  rewrite (proj2 (Z.leb_le 0 a)), (proj2 (Z.leb_le a b)), (proj2 (Z.leb_le b (zlen l))) by lia.
  eexists. split; [done|]. unfold zlen in *. split.
  - rewrite length_take, length_drop. lia.
  - intros i Hi. unfold zget.
    rewrite (proj2 (Z.leb_le 0 i)), (proj2 (Z.leb_le 0 (a + i))) by lia.
    rewrite lookup_take_lt, lookup_drop by lia. f_equal. lia.
Qed.

Lemma copy_from_slice_Ok {E} l a b src :
  0 ≤ a → a ≤ b → b ≤ zlen l → zlen src = b - a →
  copy_from_slice (E := E) l a b src = Ok (splice l a src).
Proof.
  intros. unfold copy_from_slice.
  rewrite (proj2 (Z.leb_le 0 a)), (proj2 (Z.leb_le a b)),
    (proj2 (Z.leb_le b (zlen l))), (proj2 (Z.eqb_eq _ _)) by lia. done.
Qed.

Lemma copy_within_Ok {E} l a b t :
  0 ≤ a → a ≤ b → b ≤ zlen l → 0 ≤ t → t + (b - a) ≤ zlen l →
  ∃ s, copy_within (E := E) l a b t = Ok (splice l t s) ∧ zlen s = b - a ∧
    ∀ i, 0 ≤ i < b - a → zget s i = zget l (a + i).
Proof.
  intros Ha Hab Hb Ht Htl. destruct (slice_Ok (E := E) l a b) as (s & Hs & Hls & Hg); [done..|].
  exists s. unfold copy_within. rewrite Hs. cbn [rbind].
  rewrite (proj2 (Z.leb_le 0 t)), (proj2 (Z.leb_le t _)) by lia. done.
Qed.

Lemma swap_remove_Ok {E} l i :
  (i < length l)%nat →
  ∃ x l', swap_remove (E := E) l i = Ok (x, l') ∧ l !! i = Some x ∧ l ≡ₚ x :: l'.
Proof.
  intros Hi. destruct l as [|z l0] using rev_ind; [simpl in Hi; lia|]. clear IHl0.
  rewrite length_app in Hi. simpl in Hi.
  destruct (lookup_lt_is_Some_2 (l0 ++ [z]) i) as [x Hx]; [rewrite length_app; simpl; lia|].
  unfold swap_remove. rewrite Hx, last_snoc. eexists _, _. split; [done|]. split; [done|].
  rewrite length_app. simpl. replace (pred (length l0 + 1)) with (length l0) by lia.
  destruct (decide (i < length l0)%nat) as [Hlt|Hge].
  - rewrite insert_app_l, take_app_length' by (rewrite ?length_insert; lia).
    rewrite lookup_app_l in Hx by done.
    rewrite (Permutation_app_comm l0 [z]). simpl.
    rewrite <- (take_drop_middle l0 i x) at 1 by done.
    rewrite insert_take_drop by done. by rewrite <- !Permutation_middle, Permutation_swap.
  - assert (i = length l0) as -> by lia.
    rewrite lookup_app_r, Nat.sub_diag in Hx by done. injection Hx as <-.
    rewrite insert_app_r_alt, take_app_length by lia. apply Permutation_app_comm.
Qed.

Lemma position_Some (f : A → bool) l i :
  position f l = Some i → ∃ x, l !! i = Some x ∧ f x = true.
Proof.
  unfold position. intros ([j x] & (? & ? & _)%list_find_Some & ->)%fmap_Some. eauto.
Qed.

Lemma position_None (f : A → bool) l : position f l = None ↔ Forall (λ x, f x = false) l.
Proof.
  unfold position. rewrite fmap_None, list_find_None.
  apply Forall_proper; [|done]. intros x. by rewrite not_true_iff_false.
Qed.

End Lemmas.

(** ** Chunks and enumerated loops *)

Section Chunks.
Context {A : Type}.
Implicit Types l : list A.

Lemma chunks_fuel_lookup fuel n l m i :
  (0 < n)%nat → length l = (m * n)%nat → (m ≤ fuel)%nat → (i < m)%nat →
  chunks_fuel fuel n l !! i = Some (take n (drop (i * n) l)).
Proof.
  intros Hn. revert l m i. induction fuel as [|fuel IH]; intros l m i Hl Hf Hi; [lia|].
  destruct m as [|m]; [lia|]. simpl in Hl. cbn [chunks_fuel]. rewrite decide_False by lia.
  destruct i as [|i]; [done|]. change (chunks_fuel fuel n (drop n l) !! i = Some (take n (drop (S i * n) l))).
  rewrite (IH (drop n l) m i), drop_drop by (rewrite ?length_drop; lia). done.
Qed.

Lemma chunks_fuel_length fuel n l m :
  (0 < n)%nat → length l = (m * n)%nat → (m ≤ fuel)%nat → length (chunks_fuel fuel n l) = m.
Proof.
  intros Hn. revert l m. induction fuel as [|fuel IH]; intros l m Hl Hf; simpl.
  - lia.
  - destruct m as [|m]; [rewrite decide_True by lia; done|]. simpl in Hl.
    rewrite decide_False by lia. simpl. rewrite (IH _ m); rewrite ?length_drop; lia.
Qed.

(** A vector of [m] chunks of [n] elements. *)
Lemma chunks_exact_spec n l m :
  (0 < n)%nat → length l = (m * n)%nat →
  length (chunks_exact n l) = m ∧
  ∀ i, (i < m)%nat → chunks_exact n l !! i = Some (take n (drop (i * n) l)).
Proof.
  intros Hn Hl. unfold chunks_exact. rewrite decide_False by lia.
  assert (m ≤ length l)%nat by nia. split; [by apply chunks_fuel_length|].
  intros i Hi. by apply (chunks_fuel_lookup _ _ _ m).
Qed.

Lemma chunks_exact_all n l m :
  (0 < n)%nat → length l = (m * n)%nat → Forall (λ c, length c = n) (chunks_exact n l).
Proof.
  intros Hn Hl. destruct (chunks_exact_spec n l m Hn Hl) as [Hlen Hlk].
  apply Forall_lookup. intros i c Hc. pose proof (lookup_lt_Some _ _ _ Hc) as Hi. rewrite Hlen in Hi.
  rewrite Hlk in Hc by done. injection Hc as <-. rewrite length_take, length_drop.
  assert (i * n + n ≤ m * n)%nat by nia. lia.
Qed.

Lemma length_concat_blocks n (ls : list (list A)) :
  Forall (λ b, length b = n) ls → length (concat ls) = (length ls * n)%nat.
Proof. induction 1 as [|b ls Hb _ IH]; simpl; [done|]. by rewrite length_app, Hb, IH. Qed.

(** Byte [c] of block [i] of a concatenation of blocks of one length. *)
Lemma zget_concat_blocks n (ls : list (list A)) i c :
  Forall (λ b, length b = n) ls → 0 ≤ i → 0 ≤ c < Z.of_nat n →
  zget (concat ls) (i * Z.of_nat n + c) = b ← ls !! Z.to_nat i; zget b c.
Proof.
  intros Hls. revert i. induction Hls as [|b ls Hb _ IH]; intros i Hi Hc.
  { simpl. unfold zget. by case_match. }
  simpl. rewrite zget_app. assert (zlen b = Z.of_nat n) as -> by (unfold zlen; lia).
  destruct (decide (i = 0)) as [->|].
  - rewrite (proj2 (Z.ltb_lt _ _)) by lia. done.
  - rewrite (proj2 (Z.ltb_ge _ _)) by nia.
    replace (i * Z.of_nat n + c - Z.of_nat n) with ((i - 1) * Z.of_nat n + c) by lia.
    rewrite IH by lia. replace (Z.to_nat i) with (S (Z.to_nat (i - 1))) by lia. done.
Qed.

Lemma zget_take_drop l k n i :
  0 ≤ i < Z.of_nat n → zget (take n (drop k l)) i = zget l (Z.of_nat k + i).
Proof.
  intros Hi. unfold zget. rewrite !(proj2 (Z.leb_le 0 _)) by lia.
  rewrite lookup_take_lt, lookup_drop by lia. f_equal. lia.
Qed.

End Chunks.

(** A loop with [enumerate] as a loop over the indices. *)
Lemma rfold_enumerate_from {E A St} (f : St → nat * A → rres E St) s (pre l : list A) :
  rfold f s (imap (λ i x, ((length pre + i)%nat, x)) l) =
  rfold (λ s row, match (pre ++ l) !! Z.to_nat row with
                  | Some x => f s (Z.to_nat row, x) | None => Panic end)
    s (seqZ (zlen pre) (zlen l)).
Proof.
  revert s pre. induction l as [|x l IH]; intros s pre; [done|].
  rewrite zlen_cons, seqZ_cons by (pose proof (zlen_nonneg l); lia).
  replace (Z.pred (1 + zlen l)) with (zlen l) by lia.
  rewrite imap_cons. cbn [rfold]. unfold zlen at 1 2. rewrite Nat2Z.id.
  rewrite list_lookup_middle, Nat.add_0_r by done.
  destruct (f s (length pre, x)) as [s'| |]; cbn [rbind]; [|done..].
  specialize (IH s' (pre ++ [x])). rewrite <- app_assoc in IH.
  rewrite zlen_app, zlen_cons, zlen_nil, Z.add_0_r in IH.
  replace (Z.succ (zlen pre)) with (zlen pre + 1) by lia. cbn [app] in IH. rewrite <- IH.
  f_equal. apply imap_ext. intros i y _. cbn. f_equal. rewrite length_app. simpl. lia.
Qed.

Lemma rfold_enumerate {E A St} (f : St → nat * A → rres E St) s (l : list A) :
  rfold f s (imap pair l) =
  rfold (λ s row, match l !! Z.to_nat row with Some x => f s (Z.to_nat row, x) | None => Panic end)
    s (seqZ 0 (zlen l)).
Proof. apply (rfold_enumerate_from f s []). Qed.

Lemma zlen_to_le_bytes n v : zlen (to_le_bytes n v) = Z.of_nat n.
Proof. revert v. induction n as [|n IH]; intros v; [done|]. cbn. rewrite zlen_cons, IH. lia. Qed.

Lemma length_to_le_bytes n v : length (to_le_bytes n v) = n.
Proof. pose proof (zlen_to_le_bytes n v) as H. unfold zlen in H. lia. Qed.

Lemma to_le_bytes_range n v : Forall (λ b, 0 ≤ b < 256) (to_le_bytes n v).
Proof. revert v. induction n as [|n IH]; intros v; simpl; [constructor|]. constructor; [by apply Z.mod_pos_bound|apply IH]. Qed.

Lemma from_to_le_bytes n v : 0 ≤ v < 256 ^ Z.of_nat n → from_le_bytes (to_le_bytes n v) = v.
Proof.
  revert v. induction n as [|n IH]; intros v Hv; simpl.
  - simpl in Hv. lia.
  - rewrite Nat2Z.inj_succ, Z.pow_succ_r in Hv by lia. pose proof (Z.div_mod v 256). rewrite IH; [lia|]. split; [apply Z.div_pos; lia|].
    apply Z.div_lt_upper_bound; lia.
Qed.

Lemma from_to_be_bytes n v : 0 ≤ v < 256 ^ Z.of_nat n → from_be_bytes (to_be_bytes n v) = v.
Proof. intros. unfold from_be_bytes, to_be_bytes. rewrite rev_involutive. by apply from_to_le_bytes. Qed.

Lemma length_to_be_bytes n v : length (to_be_bytes n v) = n.
Proof. unfold to_be_bytes. rewrite length_rev. apply length_to_le_bytes. Qed.
