(* ===== verification/RustIp.v ===== *)
(** * IP addresses of the Rust standard library

    [IpAddr::from_str], [Ipv6Addr::from_str] and their [Display], which the
    endpoint rules depend on: the parser of [core::net] with its limits (three
    decimal digits without a leading zero, four hexadecimal digits, one [::],
    an IPv4 tail in the last two groups) and the canonical form that is
    printed (longest run of zero groups compressed, IPv4-mapped addresses with
    a dotted tail). Printing then parsing gives the address back. *)

From S2P Require Import Prelude RustStr.

Inductive IpAddr :=
| V4 (octets : list Z)
| V6 (segments : list Z).

(** ** Parsing *)

(** The digit loop of [read_number]: [None] when there are too many digits. *)
Fixpoint read_digits (radix max_digits acc count : Z) (s : str) : option (Z * Z * str) :=
  match s with
  | [] => Some (acc, count, [])
  | c :: s' =>
      match to_digit radix c with
      | Some d =>
          if max_digits <? count + 1 then None
          else read_digits radix max_digits (acc * radix + d) (count + 1) s'
      | None => Some (acc, count, s)
      end
  end.

Definition head_is (c : Z) (s : str) : bool :=
  match s with x :: _ => x =? c | [] => false end.

Definition read_number (radix max_digits : Z) (allow_zero_prefix : bool) (max : Z)
    (s : str) : option (Z * str) :=
  match read_digits radix max_digits 0 0 s with
  | Some (n, count, rest) =>
      if count =? 0 then None
      else if negb allow_zero_prefix && head_is 48 s && (1 <? count) then None
      else if n <=? max then Some (n, rest) else None
  | None => None
  end.

Definition read_given_char (c : Z) (s : str) : option str :=
  match s with
  | x :: s' => if x =? c then Some s' else None
  | [] => None
  end.

(** [read_separator]: the separator precedes every element but the first. *)
Definition read_separator {A} (first : bool) (sep : Z) (inner : str → option (A * str))
    (s : str) : option (A * str) :=
  if first then inner s
  else match read_given_char sep s with Some s' => inner s' | None => None end.

Definition read_octet (first : bool) : str → option (Z * str) :=
  read_separator first 46 (read_number 10 3 false u8_max).

Definition read_ipv4_addr (s : str) : option (list Z * str) :=
  match read_octet true s with
  | Some (a, s1) =>
      match read_octet false s1 with
      | Some (b, s2) =>
          match read_octet false s2 with
          | Some (c, s3) =>
              match read_octet false s3 with
              | Some (d, s4) => Some ([a; b; c; d], s4)
              | None => None
              end
          | None => None
          end
      | None => None
      end
  | None => None
  end.

(** [u16::from_be_bytes] of the two halves. *)
Definition ipv4_groups (o : list Z) : list Z :=
  match o with
  | [a; b; c; d] => [a * 256 + b; c * 256 + d]
  | _ => []
  end.

(** [read_groups] with [k] slots left; [first] for the first slot. Returns the
    groups read, whether a trailing IPv4 address was read, and the rest. *)
Fixpoint read_groups (k : nat) (first : bool) (s : str) : list Z * bool * str :=
  match k with
  | O => ([], false, s)
  | S k' =>
      let v4 := match k' with
                | O => None
                | S _ => read_separator first 58 read_ipv4_addr s
                end in
      match v4 with
      | Some (o, rest) => (ipv4_groups o, true, rest)
      | None =>
          match read_separator first 58 (read_number 16 4 true u16_max) s with
          | Some (g, rest) =>
              let '(gs, b, rest') := read_groups k' false rest in (g :: gs, b, rest')
          | None => ([], false, s)
          end
      end
  end.

Definition read_ipv6_addr (s : str) : option (list Z * str) :=
  let '(head, head_ipv4, r) := read_groups 8 true s in
  if (length head =? 8)%nat then Some (head, r)
  else if head_ipv4 then None
  else
    match read_given_char 58 r with
    | Some r1 =>
        match read_given_char 58 r1 with
        | Some r2 =>
            let '(tail, _, r3) := read_groups (7 - length head)%nat true r2 in
            Some (head ++ repeat 0 (8 - length head - length tail) ++ tail, r3)
        | None => None
        end
    | None => None
    end.

(** [parse_with]: all of the input is consumed. *)
Definition parse_ipv6 (s : str) : option (list Z) :=
  match read_ipv6_addr s with Some (a, []) => Some a | _ => None end.

Definition parse_ip (s : str) : option IpAddr :=
  match read_ipv4_addr s with
  | Some (o, rest) => match rest with [] => Some (V4 o) | _ => None end
  | None =>
      match read_ipv6_addr s with
      | Some (g, rest) => match rest with [] => Some (V6 g) | _ => None end
      | None => None
      end
  end.

Definition is_ipv6 (ip : IpAddr) : bool :=
  match ip with V6 _ => true | V4 _ => false end.

(** ** Printing *)

Definition fmt_ipv4 (o : list Z) : str := join [46] (map to_decimal o).

Definition fmt_subslice (chunk : list Z) : str := join [58] (map (to_radix 16) chunk).

(** The loop that finds the first longest run of zero groups: [(start, len)]
    of the longest and of the current run, at index [i]. *)
Fixpoint zero_span (i : nat) (longest current : nat * nat) (segs : list Z) : nat * nat :=
  match segs with
  | [] => longest
  | g :: segs' =>
      if g =? 0 then
        let current' := (if (current.2 =? 0)%nat then i else current.1, S current.2) in
        zero_span (S i) (if (longest.2 <? current'.2)%nat then current' else longest) current' segs'
      else zero_span (S i) longest (0%nat, 0%nat) segs'
  end.

(** [to_ipv4_mapped]. *)
Definition to_ipv4_mapped (segs : list Z) : option (list Z) :=
  match segs with
  | [0; 0; 0; 0; 0; m; ab; cd] =>
      if m =? 65535 then Some [ab / 256; ab mod 256; cd / 256; cd mod 256] else None
  | _ => None
  end.

Definition fmt_ipv6 (segs : list Z) : str :=
  match to_ipv4_mapped segs with
  | Some o => lit "::ffff:" ++ fmt_ipv4 o
  | None =>
      let '(start, len) := zero_span 0 (0%nat, 0%nat) (0%nat, 0%nat) segs in
      if (1 <? len)%nat
      then fmt_subslice (take start segs) ++ [58; 58] ++ fmt_subslice (drop (start + len) segs)
      else fmt_subslice segs
  end.

Definition ip_to_string (ip : IpAddr) : str :=
  match ip with V4 o => fmt_ipv4 o | V6 g => fmt_ipv6 g end.

(** Addresses as the types have them. *)
Definition ip_wf (ip : IpAddr) : Prop :=
  match ip with
  | V4 o => length o = 4%nat ∧ Forall (λ x, 0 ≤ x ≤ u8_max) o
  | V6 g => length g = 8%nat ∧ Forall (λ x, 0 ≤ x ≤ u16_max) g
  end.

Example ip_examples :
  parse_ip (lit "2001:0db8::1") = Some (V6 [8193; 3512; 0; 0; 0; 0; 0; 1]) ∧
  ip_to_string (V6 [8193; 3512; 0; 0; 0; 0; 0; 1]) = lit "2001:db8::1" ∧
  parse_ip (lit "192.168.001.1") = None ∧
  parse_ip (lit "::ffff:1.2.3.4") = Some (V6 [0; 0; 0; 0; 0; 65535; 258; 772]) ∧
  ip_to_string (V6 [0; 0; 0; 0; 0; 65535; 258; 772]) = lit "::ffff:1.2.3.4" ∧
  parse_ip (lit "1::2::3") = None ∧ parse_ip (lit "::") = Some (V6 (repeat 0 8)) ∧
  ip_to_string (V6 (repeat 0 8)) = lit "::" ∧
  ip_to_string (V6 [1; 0; 0; 2; 0; 0; 0; 3]) = lit "1:0:0:2::3".
Proof. vm_compute. repeat split; reflexivity. Qed.

(** ** Numbers *)

(** No digit at the head. *)
Definition no_digit (radix : Z) (s : str) : Prop :=
  match s with [] => True | c :: _ => to_digit radix c = None end.

Lemma read_digits_run radix m acc count ds n rest :
  parse_digits radix acc ds = Some n → count + zlen ds ≤ m → no_digit radix rest →
  read_digits radix m acc count (ds ++ rest) = Some (n, count + zlen ds, rest).
Proof.
  revert acc count. induction ds as [|c ds IH]; simpl; intros acc count Hp Hm Hr.
  - simplify_eq. rewrite zlen_nil, Z.add_0_r. destruct rest as [|c rest]; [done|].
    simpl in *. by rewrite Hr.
  - rewrite zlen_cons in Hm. destruct (to_digit radix c) as [d|]; [|done].
    pose proof (zlen_nonneg ds). replace (m <? count + 1) with false by lia.
    rewrite IH by (done || lia). rewrite zlen_cons. do 2 f_equal. f_equal. lia.
Qed.

Lemma parse_digits_bound radix acc s n :
  1 ≤ radix → parse_digits radix acc s = Some n → n < (acc + 1) * radix ^ zlen s.
Proof.
  intros Hr. revert acc. induction s as [|c s IH]; simpl; intros acc H.
  - simplify_eq. rewrite zlen_nil. lia.
  - destruct (to_digit radix c) as [d|] eqn:E; [|done]. apply to_digit_range in E.
    apply IH in H. rewrite zlen_cons, Z.pow_add_r by (try apply zlen_nonneg; lia).
    rewrite Z.pow_1_r. pose proof (zlen_nonneg s).
    assert (0 < radix ^ zlen s) by (apply Z.pow_pos_nonneg; lia). nia.
Qed.

(** A number other than zero is printed without a leading zero. *)
Lemma to_radix_no_zero radix n :
  2 ≤ radix ≤ 16 → 0 ≤ n → head_is 48 (to_radix radix n) = true → n = 0.
Proof.
  intros Hr Hn Hh. destruct (to_radix_spec radix n Hr Hn) as (Hne & _ & Hp & Hlow & _).
  destruct (to_radix radix n) as [|c ds]; [done|]. simpl in Hh. apply Z.eqb_eq in Hh as ->.
  destruct (Z.eq_dec n 0) as [|Hnz]; [done|]. exfalso. specialize (Hlow Hnz). specialize (Hp 0).
  cbn [parse_digits] in Hp. change (to_digit radix 48) with (if 0 <? radix then Some 0 else None) in Hp.
  replace (0 <? radix) with true in Hp by lia.
  rewrite !Z.mul_0_l in Hp. apply parse_digits_bound in Hp; [|lia].
  rewrite zlen_cons in Hlow. replace (1 + zlen ds - 1) with (zlen ds) in Hlow by lia. lia.
Qed.

Lemma read_number_print radix m allow max n rest :
  2 ≤ radix ≤ 16 → 0 ≤ n ≤ max → n < radix ^ m → 1 ≤ m → no_digit radix rest →
  read_number radix m allow max (to_radix radix n ++ rest) = Some (n, rest).
Proof.
  intros Hr Hn Hm H1 Hrest. unfold read_number.
  pose proof (zlen_to_radix radix n m Hr ltac:(lia) H1) as Hl.
  rewrite (read_digits_run _ _ _ _ _ n) by (done || apply parse_to_radix; lia). rewrite Z.add_0_l.
  destruct (to_radix_spec radix n Hr ltac:(lia)) as (Hne & _ & _ & _ & H0).
  destruct (to_radix radix n) as [|c ds] eqn:E; [done|]. rewrite zlen_cons in *.
  pose proof (zlen_nonneg ds). replace (1 + zlen ds =? 0) with false by lia.
  replace (n <=? max) with true by lia.
  destruct (negb allow && head_is 48 ((c :: ds) ++ rest) && (1 <? 1 + zlen ds)) eqn:Ez; [|done].
  exfalso. bprop. assert (n = 0) as ->.
  { apply (to_radix_no_zero radix); [lia..|]. by rewrite E. }
  specialize (H0 eq_refl). injection H0 as -> ->. unfold zlen in *. simpl in *. lia.
Qed.

Lemma read_digits_shape radix m acc count s n k rest :
  read_digits radix m acc count s = Some (n, k, rest) →
  ∃ ds, s = ds ++ rest ∧ parse_digits radix acc ds = Some n ∧ k = count + zlen ds ∧
    no_digit radix rest.
Proof.
  revert acc count. induction s as [|c s IH]; simpl; intros acc count H.
  - simplify_eq. exists []. rewrite zlen_nil. split_and!; try done. lia.
  - destruct (to_digit radix c) as [d|] eqn:E.
    + case_match; [done|]. apply IH in H as (ds & -> & Hp & -> & Hr).
      exists (c :: ds). simpl. rewrite E, zlen_cons. split_and!; try done. lia.
    + simplify_eq. exists []. rewrite zlen_nil. simpl. split_and!; try done. lia.
Qed.

Lemma read_number_shape radix m allow max s n rest :
  0 ≤ radix → read_number radix m allow max s = Some (n, rest) →
  0 ≤ n ≤ max ∧ no_digit radix rest ∧
  ∃ ds, s = ds ++ rest ∧ ds ≠ [] ∧ parse_digits radix 0 ds = Some n.
Proof.
  intros Hr. unfold read_number. destruct (read_digits _ _ _ _ _) as [[[n' k] rest']|] eqn:E; [|done].
  apply read_digits_shape in E as (ds & -> & Hp & -> & Hrest).
  repeat case_match; try done. intros. simplify_eq. bprop.
  split; [split; [by eapply parse_digits_nonneg; [| |exact Hp]|done]|].
  split; [done|]. exists ds. split; [done|]. split; [|done]. by intros ->.
Qed.

Lemma parse_digits_chars radix acc s n :
  parse_digits radix acc s = Some n → Forall (λ c, is_Some (to_digit radix c)) s.
Proof.
  revert acc. induction s as [|c s IH]; simpl; intros acc H; [constructor|].
  destruct (to_digit radix c) eqn:E; [|done]. constructor; [by eexists|by eapply IH].
Qed.

Lemma read_number_none radix m allow max s :
  no_digit radix s → read_number radix m allow max s = None.
Proof.
  intros Hs. unfold read_number. destruct s as [|c s]; simpl in *; [done|]. by rewrite Hs.
Qed.

(** ** IPv4 *)

Lemma octet_small x : 0 ≤ x ≤ u8_max → x < 10 ^ 3.
Proof. unfold u8_max. lia. Qed.

Lemma read_octet_print first x rest :
  0 ≤ x ≤ u8_max → no_digit 10 rest →
  read_octet first ((if first then [] else [46]) ++ to_decimal x ++ rest) = Some (x, rest).
Proof.
  intros Hx Hr. unfold read_octet, read_separator. pose proof (octet_small x Hx).
  destruct first; simpl; apply read_number_print; (done || lia).
Qed.

Lemma fmt_ipv4_eq a b c d :
  fmt_ipv4 [a; b; c; d] =
  to_decimal a ++ 46 :: to_decimal b ++ 46 :: to_decimal c ++ 46 :: to_decimal d.
Proof. unfold fmt_ipv4. simpl. done. Qed.

Lemma read_ipv4_print o rest :
  length o = 4%nat → Forall (λ x, 0 ≤ x ≤ u8_max) o → no_digit 10 rest →
  read_ipv4_addr (fmt_ipv4 o ++ rest) = Some (o, rest).
Proof.
  intros Hl Ho Hr. destruct o as [|a [|b [|c [|d [|]]]]]; try done.
  rewrite !Forall_cons in Ho. destruct Ho as (Ha & Hb & Hc & Hd & _).
  rewrite fmt_ipv4_eq. unfold read_ipv4_addr. rewrite <- !app_assoc. cbn [app].
  pose proof (read_octet_print true a) as R. cbn [app] in R. rewrite R by done. clear R.
  pose proof (read_octet_print false) as R. cbn [app] in R.
  rewrite <- !app_assoc. cbn [app]. rewrite R by done.
  rewrite <- !app_assoc. cbn [app]. rewrite R by done. by rewrite R.
Qed.

(** What an accepted dotted quad looks like. *)
Lemma read_ipv4_shape s o rest :
  read_ipv4_addr s = Some (o, rest) →
  length o = 4%nat ∧ Forall (λ x, 0 ≤ x ≤ u8_max) o ∧ no_digit 10 rest ∧
  ∃ d1 d2 d3 d4, s = d1 ++ 46 :: d2 ++ 46 :: d3 ++ 46 :: d4 ++ rest ∧
    Forall (λ ds, ds ≠ [] ∧ Forall (λ c, is_Some (to_digit 10 c)) ds) [d1; d2; d3; d4].
Proof.
  unfold read_ipv4_addr, read_octet, read_separator, read_given_char. intros H.
  destruct (read_number 10 3 false u8_max s) as [[a s1]|] eqn:E1; [|done].
  destruct s1 as [|x1 s1]; [done|]. destruct (Z.eqb_spec x1 46) as [->|]; [|done].
  destruct (read_number 10 3 false u8_max s1) as [[b s2]|] eqn:E2; [|done].
  destruct s2 as [|x2 s2]; [done|]. destruct (Z.eqb_spec x2 46) as [->|]; [|done].
  destruct (read_number 10 3 false u8_max s2) as [[c s3]|] eqn:E3; [|done].
  destruct s3 as [|x3 s3]; [done|]. destruct (Z.eqb_spec x3 46) as [->|]; [|done].
  destruct (read_number 10 3 false u8_max s3) as [[d s4]|] eqn:E4; [|done]. simplify_eq.
  apply read_number_shape in E1 as (? & _ & d1 & -> & ? & ?%parse_digits_chars); [|lia].
  apply read_number_shape in E2 as (? & _ & d2 & -> & ? & ?%parse_digits_chars); [|lia].
  apply read_number_shape in E3 as (? & _ & d3 & -> & ? & ?%parse_digits_chars); [|lia].
  apply read_number_shape in E4 as (? & ? & d4 & -> & ? & ?%parse_digits_chars); [|lia].
  split; [done|]. split; [by rewrite !Forall_cons, Forall_nil|]. split; [done|].
  exists d1, d2, d3, d4. split; [done|]. by rewrite !Forall_cons, Forall_nil.
Qed.

(** ** IPv6 *)

Lemma to_digit_16_10 c : to_digit 16 c = None → to_digit 10 c = None.
Proof.
  unfold to_digit. destruct (if is_ascii_digit c then _ else _) as [d|]; [|done].
  destruct (Z.ltb_spec d 16), (Z.ltb_spec d 10); (done || lia).
Qed.

Lemma no_digit_16_10 s : no_digit 16 s → no_digit 10 s.
Proof. destruct s; simpl; [done|apply to_digit_16_10]. Qed.

Lemma digit_char_not c d radix :
  0 ≤ d < radix → radix ≤ 16 → to_digit radix c = None → digit_char d ≠ c.
Proof. intros Hd Hr Hc <-. by rewrite digit_char_digit in Hc. Qed.

(** A hexadecimal group is not the start of a dotted quad unless a dot follows. *)
Lemma read_ipv4_hex n rest :
  0 ≤ n → no_digit 16 rest → head_is 46 rest = false →
  read_ipv4_addr (to_radix 16 n ++ rest) = None.
Proof.
  intros Hn Hr Hdot. destruct (read_ipv4_addr _) as [[o r]|] eqn:E; [|done]. exfalso.
  apply read_ipv4_shape in E as (_ & _ & _ & d1 & d2 & d3 & d4 & E & Hd).
  apply Forall_cons in Hd as [[_ Hd1] _].
  destruct (to_radix_spec 16 n ltac:(lia) Hn) as (_ & Hx & _).
  apply app_eq_app in E as [l [[Hl E]|[Hl E]]].
  - destruct l as [|c l]; simpl in E; [by subst|]. injection E as <- _.
    rewrite Hl, Forall_app, Forall_cons in Hx. destruct Hx as (_ & (d & Hd & E46) & _).
    symmetry in E46. revert E46. by apply (digit_char_not _ _ 16).
  - destruct l as [|c l]; simpl in E; subst; [done|]. simpl in *.
    rewrite Forall_app, Forall_cons in Hd1. destruct Hd1 as (_ & [d Hd] & _).
    by rewrite (to_digit_16_10 c Hr) in Hd.
Qed.

Lemma read_ipv4_no_digit s : no_digit 10 s → read_ipv4_addr s = None.
Proof.
  intros H. unfold read_ipv4_addr, read_octet, read_separator. by rewrite read_number_none.
Qed.

(** The text of groups that each follow a colon. *)
Definition colon_groups (segs : list Z) : str := concat (map (λ g, 58 :: to_radix 16 g) segs).

Lemma fmt_subslice_cons g gs : fmt_subslice (g :: gs) = to_radix 16 g ++ colon_groups gs.
Proof.
  unfold fmt_subslice, colon_groups. revert g. induction gs as [|h gs IH]; intros g.
  - simpl. by rewrite app_nil_r.
  - change (to_radix 16 g ++ [58] ++ join [58] (map (to_radix 16) (h :: gs)) =
      to_radix 16 g ++ (58 :: to_radix 16 h) ++ concat (map (λ g, 58 :: to_radix 16 g) gs)).
    by rewrite IH.
Qed.

(** What may follow a complete list of groups. *)
Record stops (rest : str) : Prop := {
  stop_digit : no_digit 16 rest;
  stop_dot : head_is 46 rest = false;
  stop_colon : ∀ r, rest = 58 :: r → no_digit 16 r;
}.

Lemma colon_groups_head segs rest :
  stops rest → no_digit 16 (colon_groups segs ++ rest) ∧ head_is 46 (colon_groups segs ++ rest) = false.
Proof. intros []. by destruct segs. Qed.

Definition u16_list (segs : list Z) : Prop := Forall (λ x, 0 ≤ x ≤ u16_max) segs.

Lemma read_group_print g rest :
  0 ≤ g ≤ u16_max → no_digit 16 rest →
  read_number 16 4 true u16_max (to_radix 16 g ++ rest) = Some (g, rest).
Proof. intros Hg Hr. apply read_number_print; try done; unfold u16_max in *; lia. Qed.

Lemma read_groups_rest k segs rest :
  u16_list segs → (length segs ≤ k)%nat → stops rest →
  read_groups k false (colon_groups segs ++ rest) = (segs, false, rest).
Proof.
  intros Hs. revert k. induction Hs as [|g segs Hg Hs IH]; intros k Hk Hr.
  - destruct k as [|k]; [done|]. cbn -[read_ipv4_addr read_number]. unfold read_separator, read_given_char.
    destruct rest as [|c r]; [by destruct k|]. destruct (Z.eqb_spec c 58) as [->|]; [|by destruct k].
    pose proof (stop_colon _ Hr r eq_refl) as Hnd.
    rewrite (read_number_none 16), read_ipv4_no_digit by auto using no_digit_16_10. by destruct k.
  - destruct k as [|k]; [simpl in Hk; lia|]. destruct (colon_groups_head segs rest Hr) as [Hnd Hdot].
    assert (read_separator false 58 read_ipv4_addr (colon_groups (g :: segs) ++ rest) = None) as H4.
    { cbn -[read_ipv4_addr to_radix]. rewrite <- app_assoc. apply read_ipv4_hex; (done || lia). }
    assert (read_separator false 58 (read_number 16 4 true u16_max) (colon_groups (g :: segs) ++ rest)
            = Some (g, colon_groups segs ++ rest)) as H16.
    { cbn -[read_number to_radix]. rewrite <- app_assoc. by apply read_group_print. }
    cbn [read_groups]. rewrite H4, H16.
    rewrite IH by (done || simpl in Hk; lia). by destruct k.
Qed.

Lemma read_groups_print k segs rest :
  u16_list segs → (length segs ≤ k)%nat → stops rest →
  read_groups k true (fmt_subslice segs ++ rest) = (segs, false, rest).
Proof.
  intros Hs Hk Hr. destruct segs as [|g segs].
  - destruct k as [|k]; [done|]. simpl app. cbn [read_groups read_separator].
    pose proof (stop_digit _ Hr). rewrite (read_number_none 16), read_ipv4_no_digit
      by auto using no_digit_16_10. by destruct k.
  - destruct k as [|k]; [simpl in Hk; lia|]. apply Forall_cons in Hs as [Hg Hs].
    destruct (colon_groups_head segs rest Hr) as [Hnd Hdot].
    rewrite fmt_subslice_cons, <- app_assoc. cbn [read_groups read_separator].
    rewrite read_ipv4_hex, read_group_print by (done || lia).
    rewrite read_groups_rest by (done || simpl in Hk; lia). by destruct k.
Qed.

(** Runs of zero groups. *)
Definition zero_run (segs : list Z) (p : nat * nat) : Prop :=
  ∀ j, (p.1 ≤ j < p.1 + p.2)%nat → segs !! j = Some 0.

Lemma zero_span_run pre segs longest current :
  zero_run (pre ++ segs) longest → zero_run (pre ++ segs) current →
  (current.2 = 0 ∨ current.1 + current.2 = length pre)%nat →
  zero_run (pre ++ segs) (zero_span (length pre) longest current segs).
Proof.
  revert pre longest current. induction segs as [|g segs IH]; intros pre longest current Hl Hc He; [done|].
  cbn [zero_span].
  assert (∀ p q, zero_run (pre ++ g :: segs) p → zero_run (pre ++ g :: segs) q →
    (q.2 = 0 ∨ q.1 + q.2 = S (length pre))%nat →
    zero_run (pre ++ g :: segs) (zero_span (S (length pre)) p q segs)) as Hnext.
  { intros p q Hp Hq He'. specialize (IH (pre ++ [g]) p q).
    rewrite <- app_assoc, length_app, Nat.add_1_r in IH. simpl in IH. by apply IH. }
  destruct (Z.eqb_spec g 0) as [->|]; [|by apply Hnext; [|intros j Hj; simpl in Hj; lia|left]].
  set (current' := (if (current.2 =? 0)%nat then length pre else current.1, S current.2)).
  assert (zero_run (pre ++ 0 :: segs) current' ∧ (current'.1 + current'.2 = S (length pre))%nat) as [Hc' He'].
  { unfold current', zero_run; simpl. destruct (Nat.eqb_spec current.2 0) as [Hz|Hz].
    - rewrite Hz. split; [|lia]. intros j Hj. replace j with (length pre) by lia.
      by rewrite list_lookup_middle.
    - destruct He as [|He]; [done|]. split; [|lia]. intros j Hj.
      destruct (Nat.eq_dec j (length pre)) as [->|]; [by rewrite list_lookup_middle|].
      apply Hc. lia. }
  apply Hnext; [by case_match|done|by right].
Qed.

Lemma repeat_replicate {A} (x : A) n : repeat x n = replicate n x.
Proof. induction n; simpl; congruence. Qed.

Lemma zero_run_split segs start len :
  zero_run segs (start, len) → (1 < len)%nat →
  (start + len ≤ length segs)%nat ∧
  segs = take start segs ++ repeat 0 len ++ drop (start + len) segs.
Proof.
  intros H Hl. pose proof (H (start + len - 1)%nat ltac:(simpl; lia)) as Hlast.
  apply lookup_lt_Some in Hlast. split; [lia|].
  rewrite <- (take_drop start segs) at 1. f_equal.
  rewrite <- (take_drop len (drop start segs)), drop_drop. f_equal.
  apply list_eq. intros j. rewrite repeat_replicate.
  destruct (Nat.lt_ge_cases j len).
  - rewrite lookup_replicate_2 by done. rewrite lookup_take_lt, lookup_drop by done.
    apply H. simpl. lia.
  - rewrite lookup_take_ge by done. symmetry. apply lookup_replicate_None. lia.
Qed.

Lemma to_ipv4_mapped_Some segs o :
  u16_list segs → to_ipv4_mapped segs = Some o →
  length o = 4%nat ∧ Forall (λ x, 0 ≤ x ≤ u8_max) o ∧
  segs = [0; 0; 0; 0; 0; 65535] ++ ipv4_groups o.
Proof.
  intros Hs H. unfold to_ipv4_mapped in H.
  destruct segs as [|g0 segs]; [done|]. destruct g0; try done.
  destruct segs as [|g1 segs]; [done|]. destruct g1; try done.
  destruct segs as [|g2 segs]; [done|]. destruct g2; try done.
  destruct segs as [|g3 segs]; [done|]. destruct g3; try done.
  destruct segs as [|g4 segs]; [done|]. destruct g4; try done.
  destruct segs as [|m [|ab [|cd [|]]]]; try done.
  destruct (Z.eqb_spec m 65535) as [->|]; [|done]. simplify_eq.
  unfold u16_list in Hs. rewrite !Forall_cons in Hs. destruct Hs as (_ & _ & _ & _ & _ & _ & Hab & Hcd & _).
  unfold u16_max, u8_max in *. split; [done|]. split.
  - rewrite !Forall_cons, Forall_nil. split_and!; try done;
      (apply Z.div_pos; lia) || (apply Z.lt_succ_r, Z.div_lt_upper_bound; lia) || idtac.
    all: pose proof (Z.mod_pos_bound ab 256 ltac:(lia)); pose proof (Z.mod_pos_bound cd 256 ltac:(lia)); lia.
  - simpl. pose proof (Z.div_mod ab 256). pose proof (Z.div_mod cd 256). do 6 f_equal.
    f_equal; [lia|]. f_equal. lia.
Qed.

Lemma read_ipv6_mapped o :
  length o = 4%nat → Forall (λ x, 0 ≤ x ≤ u8_max) o →
  read_ipv6_addr (lit "::ffff:" ++ fmt_ipv4 o) = Some ([0; 0; 0; 0; 0; 65535] ++ ipv4_groups o, []).
Proof.
  intros Hl Ho. unfold read_ipv6_addr.
  change (lit "::ffff:" ++ fmt_ipv4 o) with (58 :: 58 :: 102 :: 102 :: 102 :: 102 :: 58 :: fmt_ipv4 o).
  assert (read_groups 8 true (58 :: 58 :: 102 :: 102 :: 102 :: 102 :: 58 :: fmt_ipv4 o) =
    ([], false, 58 :: 58 :: 102 :: 102 :: 102 :: 102 :: 58 :: fmt_ipv4 o)) as -> by done.
  cbn [length Nat.eqb read_given_char Z.eqb Pos.eqb Nat.sub].
  change (102 :: 102 :: 102 :: 102 :: 58 :: fmt_ipv4 o) with (to_radix 16 65535 ++ 58 :: fmt_ipv4 o).
  cbn [read_groups read_separator]. rewrite read_ipv4_hex, read_group_print by done.
  pose proof (read_ipv4_print o [] Hl Ho I) as R. rewrite app_nil_r in R.
  cbn [read_given_char Z.eqb Pos.eqb]. rewrite R.
  destruct o as [|a [|b [|c [|d [|]]]]]; done.
Qed.

Lemma stops_nil : stops [].
Proof. by split. Qed.

Lemma stops_double_colon s : stops (58 :: 58 :: s).
Proof. split; [done|done|]. by intros r [= <-]. Qed.

Lemma read_ipv6_print g :
  length g = 8%nat → u16_list g → read_ipv6_addr (fmt_ipv6 g) = Some (g, []).
Proof.
  intros Hl Hg. unfold fmt_ipv6. destruct (to_ipv4_mapped g) as [o|] eqn:Em.
  { destruct (to_ipv4_mapped_Some _ _ Hg Em) as (Ho & Ho8 & ->). by apply read_ipv6_mapped. }
  pose proof (zero_span_run [] g (0%nat, 0%nat) (0%nat, 0%nat)) as Hz.
  destruct (zero_span 0 (0%nat, 0%nat) (0%nat, 0%nat) g) as [start len] eqn:Es.
  simpl length in Hz. rewrite Es in Hz. simpl app in Hz.
  destruct (Nat.ltb_spec 1 len) as [Hlen|].
  - destruct (zero_run_split g start len) as [Hb Hsplit]; [|done|].
    { apply Hz; [intros j Hj; simpl in Hj; lia..|by left]. }
    unfold read_ipv6_addr. rewrite read_groups_print;
      [|by apply Forall_take|rewrite length_take; lia|apply stops_double_colon].
    rewrite length_take. replace (start `min` length g)%nat with start by lia.
    destruct (Nat.eqb_spec start 8); [lia|]. cbn [read_given_char Z.eqb Pos.eqb app].
    pose proof (read_groups_print (7 - start) (drop (start + len) g) []) as R.
    rewrite app_nil_r in R. rewrite R; [|by apply Forall_drop|rewrite length_drop; lia|apply stops_nil].
    rewrite length_drop. replace (8 - start - (length g - (start + len)))%nat with len by lia.
    by rewrite <- Hsplit.
  - pose proof (read_groups_print 8 g [] Hg ltac:(lia) stops_nil) as R. rewrite app_nil_r in R.
    unfold read_ipv6_addr. by rewrite R, Hl.
Qed.

(** The printed form of an IPv6 address does not start like a dotted quad. *)
Lemma read_ipv4_fmt_ipv6 g : length g = 8%nat → u16_list g → read_ipv4_addr (fmt_ipv6 g) = None.
Proof.
  intros Hl Hg. unfold fmt_ipv6. destruct (to_ipv4_mapped g) as [o|]; [done|].
  destruct (zero_span _ _ _ g) as [start len].
  assert (∀ segs rest, u16_list segs → stops rest → (segs = [] → no_digit 10 rest) →
    read_ipv4_addr (fmt_subslice segs ++ rest) = None) as H.
  { intros [|x segs] rest Hs Hr Hd; [by apply read_ipv4_no_digit, Hd|].
    apply Forall_cons in Hs as [Hx Hs]. rewrite fmt_subslice_cons, <- app_assoc.
    destruct (colon_groups_head segs rest Hr). apply read_ipv4_hex; (done || lia). }
  case_match.
  - apply H; [by apply Forall_take|apply stops_double_colon|done].
  - rewrite <- (app_nil_r (fmt_subslice g)). apply H; [done|apply stops_nil|]. by intros ->.
Qed.

(** Printing an address and parsing the text gives the address back. *)
Lemma parse_ip_print ip : ip_wf ip → parse_ip (ip_to_string ip) = Some ip.
Proof.
  unfold parse_ip. destruct ip as [o|g]; simpl; intros [Hl H].
  - pose proof (read_ipv4_print o [] Hl H I) as R. rewrite app_nil_r in R. by rewrite R.
  - rewrite read_ipv4_fmt_ipv6, read_ipv6_print by done. done.
Qed.

Lemma parse_ipv6_print g : length g = 8%nat → u16_list g → parse_ipv6 (fmt_ipv6 g) = Some g.
Proof. intros Hl Hg. unfold parse_ipv6. by rewrite read_ipv6_print. Qed.

(** ** Shape of parsed and printed addresses *)

Lemma ipv4_groups_wf o :
  length o = 4%nat → Forall (λ x, 0 ≤ x ≤ u8_max) o →
  length (ipv4_groups o) = 2%nat ∧ u16_list (ipv4_groups o).
Proof.
  intros Hl Ho. destruct o as [|a [|b [|c [|d [|]]]]]; try done. split; [done|].
  rewrite !Forall_cons in Ho. unfold u16_list, u8_max, u16_max in *. simpl.
  rewrite !Forall_cons, Forall_nil. lia.
Qed.

Lemma read_separator_Some {A} first sep (inner : str → option (A * str)) s r :
  read_separator first sep inner s = Some r → ∃ s', inner s' = Some r.
Proof.
  unfold read_separator. destruct first; [eauto|]. destruct (read_given_char sep s); [eauto|done].
Qed.

Lemma read_groups_wf k first s gs b rest :
  read_groups k first s = (gs, b, rest) → (length gs ≤ k)%nat ∧ u16_list gs.
Proof.
  revert first s gs b rest. induction k as [|k IH]; intros first s gs b rest; cbn [read_groups].
  { intros. simplify_eq. split; [done|constructor]. }
  destruct (match k with O => None | S _ => _ end) as [[o r]|] eqn:E4.
  - destruct k as [|k]; [done|]. apply read_separator_Some in E4 as [s' E4].
    apply read_ipv4_shape in E4 as (Hl & Ho & _). intros. simplify_eq.
    destruct (ipv4_groups_wf o Hl Ho). split; [lia|done].
  - destruct (read_separator first 58 (read_number 16 4 true u16_max) s) as [[g r]|] eqn:E.
    + apply read_separator_Some in E as [s' E]. apply read_number_shape in E as (Hg & _); [|lia].
      destruct (read_groups k false r) as [[gs' b'] r'] eqn:Er. apply IH in Er as [Hl Hu].
      intros. simplify_eq. split; [simpl; lia|by constructor].
    + intros. simplify_eq. split; [simpl; lia|constructor].
Qed.

Lemma read_ipv6_wf s g rest : read_ipv6_addr s = Some (g, rest) → length g = 8%nat ∧ u16_list g.
Proof.
  unfold read_ipv6_addr. destruct (read_groups 8 true s) as [[head b] r] eqn:E.
  apply read_groups_wf in E as [Hl Hu]. destruct (Nat.eqb_spec (length head) 8); [intros; by simplify_eq|].
  destruct b; [done|]. destruct (read_given_char 58 r) as [r1|]; [|done].
  destruct (read_given_char 58 r1) as [r2|]; [|done].
  destruct (read_groups (7 - length head) true r2) as [[tail b'] r3] eqn:Et.
  apply read_groups_wf in Et as [Htl Htu]. intros. simplify_eq. split.
  - rewrite !length_app, repeat_length. lia.
  - apply Forall_app. split; [done|]. apply Forall_app. split; [|done].
    rewrite repeat_replicate. apply Forall_replicate. done.
Qed.

Lemma parse_ip_wf s ip : parse_ip s = Some ip → ip_wf ip.
Proof.
  unfold parse_ip. destruct (read_ipv4_addr s) as [[o rest]|] eqn:E4.
  - apply read_ipv4_shape in E4 as (? & ? & _). destruct rest; [|done]. intros. by simplify_eq.
  - destruct (read_ipv6_addr s) as [[g rest]|] eqn:E6; [|done]. apply read_ipv6_wf in E6 as [? ?].
    destruct rest; [|done]. intros. by simplify_eq.
Qed.

(** Printed characters: lower-case hexadecimal digits, dots and colons. *)
Definition ip_char (c : Z) : bool :=
  is_ascii_digit c || ((97 <=? c) && (c <=? 102)) || (c =? 46) || (c =? 58).

Lemma digit_char_ip d : 0 ≤ d < 16 → ip_char (digit_char d) = true.
Proof.
  unfold ip_char, is_ascii_digit, digit_char. intros Hd. destruct (Z.ltb_spec d 10); lia.
Qed.

Lemma to_radix_ip_chars radix n :
  2 ≤ radix ≤ 16 → 0 ≤ n → Forall (λ c, ip_char c = true ∧ c ≠ 58 ∧ c ≠ 46) (to_radix radix n).
Proof.
  intros Hr Hn. destruct (to_radix_spec radix n Hr Hn) as (_ & Hc & _).
  eapply Forall_impl; [exact Hc|]. intros c (d & Hd & ->). split; [apply digit_char_ip; lia|].
  unfold digit_char. destruct (Z.ltb_spec d 10); lia.
Qed.

Lemma join_Forall (P : Z → Prop) sep l :
  Forall P sep → Forall (Forall P) l → Forall P (join sep l).
Proof.
  intros Hs. induction 1 as [|x l Hx Hl IH]; simpl; [constructor|].
  destruct l; [done|]. rewrite !Forall_app. done.
Qed.

Lemma fmt_ipv4_chars o :
  Forall (λ x, 0 ≤ x ≤ u8_max) o → Forall (λ c, ip_char c = true ∧ c ≠ 58) (fmt_ipv4 o).
Proof.
  intros Ho. unfold fmt_ipv4. apply join_Forall; [by rewrite Forall_singleton|].
  apply Forall_map. eapply Forall_impl; [exact Ho|]. intros x Hx. simpl in *.
  eapply Forall_impl; [apply to_radix_ip_chars; lia|]. naive_solver.
Qed.

Lemma fmt_subslice_chars g : u16_list g → Forall (λ c, ip_char c = true) (fmt_subslice g).
Proof.
  intros Hg. unfold fmt_subslice. apply join_Forall; [by rewrite Forall_singleton|].
  apply Forall_map. eapply Forall_impl; [exact Hg|]. intros x Hx. simpl in *.
  eapply Forall_impl; [apply to_radix_ip_chars; lia|]. naive_solver.
Qed.

Lemma fmt_ipv6_chars g :
  u16_list g → Forall (λ c, ip_char c = true) (fmt_ipv6 g).
Proof.
  intros Hg. unfold fmt_ipv6. destruct (to_ipv4_mapped g) as [o|] eqn:Em.
  - apply to_ipv4_mapped_Some in Em as (_ & Ho & _); [|done]. apply Forall_app.
    split; [by apply forallb_true_Forall|].
    eapply Forall_impl; [by apply fmt_ipv4_chars|]. naive_solver.
  - destruct (zero_span _ _ _ _) as [start len]. case_match; [|by apply fmt_subslice_chars].
    rewrite !Forall_app. split_and!; [by apply fmt_subslice_chars, Forall_take|
      by apply forallb_true_Forall|by apply fmt_subslice_chars, Forall_drop].
Qed.

Lemma fmt_ipv4_nonempty o : length o = 4%nat → fmt_ipv4 o ≠ [].
Proof.
  intros Hl. destruct o as [|a [|b [|c [|d [|]]]]]; try done. rewrite fmt_ipv4_eq.
  intros H. apply app_eq_nil in H as [_ H]. done.
Qed.

Lemma fmt_ipv6_colon g : length g = 8%nat → 58 ∈ fmt_ipv6 g.
Proof.
  intros Hl. unfold fmt_ipv6. destruct (to_ipv4_mapped g); [set_solver|].
  destruct (zero_span _ _ _ _) as [start len]. case_match; [set_solver|].
  destruct g as [|x [|y g]]; try done. rewrite fmt_subslice_cons. unfold colon_groups. simpl.
  set_solver.
Qed.

(** A text without colons is not an IPv6 address. *)
Lemma read_given_char_elem c s s' : read_given_char c s = Some s' → c ∈ s.
Proof. destruct s as [|x s]; simpl; [done|]. destruct (Z.eqb_spec x c); [subst; set_solver|done]. Qed.

Lemma read_number_rest_sub radix m allow max s n rest c :
  0 ≤ radix → read_number radix m allow max s = Some (n, rest) → c ∉ s → c ∉ rest.
Proof. intros Hr (_ & _ & ds & -> & _)%read_number_shape; set_solver. Qed.

Lemma read_ipv6_colon s r : read_ipv6_addr s = Some r → 58 ∈ s.
Proof.
  intros H. destruct (decide (58 ∈ s)) as [|Hn]; [done|]. exfalso.
  unfold read_ipv6_addr in H. cbn [read_groups] in H. unfold read_separator in H.
  destruct (read_ipv4_addr s) as [[o rest]|] eqn:E4.
  { apply read_ipv4_shape in E4 as (Hl & _). by destruct o as [|a [|b [|c [|d [|]]]]]. }
  destruct (read_number 16 4 true u16_max s) as [[g rest]|] eqn:E.
  - assert (read_given_char 58 rest = None) as Hr.
    { destruct (read_given_char 58 rest) eqn:Eg; [|done]. apply read_given_char_elem in Eg.
      by eapply read_number_rest_sub in E; [|lia|done]. }
    rewrite Hr in H. simpl in H. by rewrite Hr in H.
  - simpl in H. destruct (read_given_char 58 s) eqn:Eg; [|done].
    by apply read_given_char_elem in Eg.
Qed.

(** ** Lengths *)

Lemma zlen_join_1 c (l : list str) k :
  Forall (λ x, zlen x ≤ k) l → 0 ≤ k → zlen (join [c] l) ≤ (k + 1) * zlen l.
Proof.
  intros Hl Hk. induction Hl as [|x l Hx Hl IH]; simpl; [unfold zlen; simpl; lia|]. rewrite zlen_cons.
  pose proof (zlen_nonneg l). destruct l; [nia|]. rewrite zlen_app, (zlen_cons c). lia.
Qed.

Lemma zlen_map {A B} (f : A → B) l : zlen (map f l) = zlen l.
Proof. unfold zlen. by rewrite length_map. Qed.

Lemma fmt_subslice_zlen g : u16_list g → zlen (fmt_subslice g) ≤ 5 * zlen g.
Proof.
  intros Hg. unfold fmt_subslice.
  pose proof (zlen_join_1 58 (map (to_radix 16) g) 4) as H. rewrite zlen_map in H.
  apply H; [|lia]. apply Forall_map. eapply Forall_impl; [exact Hg|]. intros x Hx. simpl in *.
  apply zlen_to_radix; unfold u16_max in *; lia.
Qed.

Lemma fmt_ipv4_zlen o :
  length o = 4%nat → Forall (λ x, 0 ≤ x ≤ u8_max) o → zlen (fmt_ipv4 o) ≤ 16.
Proof.
  intros Hl Ho. unfold fmt_ipv4. pose proof (zlen_join_1 46 (map to_decimal o) 3) as H.
  rewrite zlen_map in H. replace (zlen o) with 4 in H by (unfold zlen; lia). apply H; [|lia].
  apply Forall_map. eapply Forall_impl; [exact Ho|]. intros x Hx. simpl in *.
  apply zlen_to_radix; unfold u8_max in *; lia.
Qed.

Lemma ip_to_string_zlen ip : ip_wf ip → zlen (ip_to_string ip) ≤ 82.
Proof.
  destruct ip as [o|g]; simpl; intros [Hl H].
  - pose proof (fmt_ipv4_zlen o Hl H). lia.
  - assert (zlen g = 8) as Hz by (unfold zlen; lia).
    unfold fmt_ipv6. destruct (to_ipv4_mapped g) as [o|] eqn:Em.
    + destruct (to_ipv4_mapped_Some g o H Em) as (Ho & Ho8 & _). rewrite zlen_app.
      pose proof (fmt_ipv4_zlen o Ho Ho8). change (zlen (lit "::ffff:")) with 7. lia.
    + destruct (zero_span _ _ _ _) as [start len]. pose proof (fmt_subslice_zlen g H). case_match; [|lia].
      rewrite !zlen_app. change (zlen [58; 58]) with 2.
      pose proof (fmt_subslice_zlen (take start g) ltac:(by apply Forall_take)) as Hza.
      pose proof (fmt_subslice_zlen (drop (start + len) g) ltac:(by apply Forall_drop)) as Hzb.
      unfold zlen in Hza, Hzb |- *. rewrite length_take in Hza. rewrite length_drop in Hzb. lia.
Qed.

(** ** ASCII case *)

Lemma to_digit_lower radix c : to_digit radix (ascii_lower c) = to_digit radix c.
Proof.
  unfold ascii_lower. destruct (is_ascii_upper c) eqn:E; [|done]. unfold to_digit.
  unfold is_ascii_upper in *. bprop.
  replace (is_ascii_digit (c + 32)) with false by (unfold is_ascii_digit; lia).
  replace (is_ascii_digit c) with false by (unfold is_ascii_digit; lia).
  replace (is_ascii_lower (c + 32)) with true by (unfold is_ascii_lower; lia).
  replace (is_ascii_lower c) with false by (unfold is_ascii_lower; lia).
  replace ((65 <=? c) && (c <=? 90)) with true by lia. by replace (c + 32 - 87) with (c - 55) by lia.
Qed.

Lemma ascii_lower_eqb c x : is_ascii_upper x = false → is_ascii_lower x = false →
  (ascii_lower c =? x) = (c =? x).
Proof. unfold ascii_lower, is_ascii_upper, is_ascii_lower. case_match; lia. Qed.

Abbreviation lower := to_ascii_lowercase.

Lemma read_digits_lower radix m acc count s :
  read_digits radix m acc count (lower s) =
  (λ '(n, k, r), (n, k, lower r)) <$> read_digits radix m acc count s.
Proof.
  revert acc count. induction s as [|c s IH]; intros acc count; simpl; [done|].
  rewrite to_digit_lower. destruct (to_digit radix c); [|done]. case_match; [done|apply IH].
Qed.

Lemma read_number_lower radix m allow max s :
  read_number radix m allow max (lower s) = prod_map id lower <$> read_number radix m allow max s.
Proof.
  unfold read_number. rewrite read_digits_lower.
  assert (head_is 48 (lower s) = head_is 48 s) as ->.
  { destruct s as [|c s]; [done|]. by apply ascii_lower_eqb. }
  destruct (read_digits _ _ _ _ s) as [[[n k] r]|]; simpl; [|done]. by repeat case_match.
Qed.

Lemma read_given_char_lower c s :
  is_ascii_upper c = false → is_ascii_lower c = false →
  read_given_char c (lower s) = lower <$> read_given_char c s.
Proof.
  intros. destruct s as [|x s]; simpl; [done|]. rewrite ascii_lower_eqb by done. by case_match.
Qed.

Lemma read_separator_lower {A} first sep (inner : str → option (A * str)) s :
  is_ascii_upper sep = false → is_ascii_lower sep = false →
  (∀ s, inner (lower s) = prod_map id lower <$> inner s) →
  read_separator first sep inner (lower s) = prod_map id lower <$> read_separator first sep inner s.
Proof.
  intros H1 H2 Hi. unfold read_separator. destruct first; [done|].
  rewrite read_given_char_lower by done. by destruct (read_given_char sep s); simpl.
Qed.

Lemma read_octet_lower first s : read_octet first (lower s) = prod_map id lower <$> read_octet first s.
Proof. apply read_separator_lower; [done..|apply read_number_lower]. Qed.

Lemma read_ipv4_lower s : read_ipv4_addr (lower s) = prod_map id lower <$> read_ipv4_addr s.
Proof.
  unfold read_ipv4_addr. rewrite read_octet_lower. destruct (read_octet true s) as [[a s1]|]; [|done].
  cbn -[read_octet]. rewrite read_octet_lower. destruct (read_octet false s1) as [[b s2]|]; [|done].
  cbn -[read_octet]. rewrite read_octet_lower. destruct (read_octet false s2) as [[c s3]|]; [|done].
  cbn -[read_octet]. rewrite read_octet_lower. by destruct (read_octet false s3) as [[d s4]|].
Qed.

Lemma read_groups_lower k first s :
  read_groups k first (lower s) =
  let '(gs, b, r) := read_groups k first s in (gs, b, lower r).
Proof.
  revert first s. induction k as [|k IH]; intros first s; cbn [read_groups]; [done|].
  rewrite !read_separator_lower by (done || apply read_ipv4_lower || apply read_number_lower).
  destruct k as [|k].
  - destruct (read_separator first 58 (read_number _ _ _ _) s) as [[g r]|]; [|done].
    cbn -[read_groups]. rewrite IH. by destruct (read_groups 0 false r) as [[gs b] r''].
  - destruct (read_separator first 58 read_ipv4_addr s) as [[o r]|]; [done|].
    destruct (read_separator first 58 (read_number _ _ _ _) s) as [[g r]|]; [|done].
    cbn -[read_groups]. rewrite IH. by destruct (read_groups (S k) false r) as [[gs b] r''].
Qed.

Lemma read_ipv6_lower s : read_ipv6_addr (lower s) = prod_map id lower <$> read_ipv6_addr s.
Proof.
  unfold read_ipv6_addr. rewrite read_groups_lower. destruct (read_groups 8 true s) as [[h b] r].
  case_match; [done|]. destruct b; [done|].
  rewrite read_given_char_lower by done. destruct (read_given_char 58 r) as [r1|]; [|done]. cbn -[read_groups].
  rewrite read_given_char_lower by done. destruct (read_given_char 58 r1) as [r2|]; [|done]. cbn -[read_groups].
  rewrite read_groups_lower. by destruct (read_groups _ true r2) as [[t b'] r3].
Qed.

Lemma lower_nil s : lower s = [] ↔ s = [].
Proof. by destruct s. Qed.

(** Parsing ignores the case of hexadecimal digits. *)
Lemma parse_ip_lower s : parse_ip (lower s) = parse_ip s.
Proof.
  unfold parse_ip. rewrite read_ipv4_lower, read_ipv6_lower.
  destruct (read_ipv4_addr s) as [[o [|]]|]; simpl; [done|done|].
  by destruct (read_ipv6_addr s) as [[g [|]]|].
Qed.
