(* ===== verification/TelnetProtocol.v ===== *)
(** * The Telnet codec (crates/telnet-runtime/src/protocol.rs)

    The codec is a byte-driven state machine: [decode] folds [decode_byte]
    over one read's bytes, keeping the parse state, the subnegotiation buffer
    and the option tables between reads. Bytes are [Z] in [0 .. 255]. *)

From S2P Require Import Prelude.

Module Telnet.

(** ** Data *)

Definition IAC : Z := 255.
Definition DONT : Z := 254.
Definition DO : Z := 253.
Definition WONT : Z := 252.
Definition WILL : Z := 251.
Definition SB : Z := 250.
Definition SE : Z := 240.

Definition OPT_BINARY : Z := 0.
Definition OPT_ECHO : Z := 1.
Definition OPT_SUPPRESS_GO_AHEAD : Z := 3.
Definition OPT_TERMINAL_TYPE : Z := 24.
Definition OPT_NAWS : Z := 31.

Definition TTYPE_IS : Z := 0.
Definition TTYPE_SEND : Z := 1.
Definition MAX_SUBNEGOTIATION_BYTES : Z := 4 * 1024.

(** [b"xterm-256color"]. *)
Definition DEFAULT_TERMINAL_TYPE : list Z :=
  [120; 116; 101; 114; 109; 45; 50; 53; 54; 99; 111; 108; 111; 114].

Inductive NegotiatedOption :=
| LocalNaws
| LocalTerminalType
| LocalBinary
| RemoteBinary
| RemoteEcho
| RemoteSuppressGoAhead.

Record DecodeResult := mkDecoded {
  data : list Z;
  responses : list Z;
  enabled : list NegotiatedOption;
}.

Inductive ProtocolError := SubnegotiationTooLarge.

Inductive ParseState :=
| Data
| Iac
| Negotiation (command : Z)
| SubnegotiationOption
| Subnegotiation
| SubnegotiationIac.

Record TelnetCodec := mkCodec {
  state : ParseState;
  subnegotiation_option : option Z;
  subnegotiation : list Z;
  local_enabled : list bool;
  remote_enabled : list bool;
  local_refused : list bool;
  remote_refused : list bool;
}.

#[global] Instance NegotiatedOption_eq_dec : EqDecision NegotiatedOption.
Proof. solve_decision. Defined.
#[global] Instance ParseState_eq_dec : EqDecision ParseState.
Proof. solve_decision. Defined.
#[global] Instance ProtocolError_eq_dec : EqDecision ProtocolError.
Proof. solve_decision. Defined.
#[global] Instance DecodeResult_eq_dec : EqDecision DecodeResult.
Proof. solve_decision. Defined.

Definition decoded_default : DecodeResult := mkDecoded [] [] [].

Definition TelnetCodec_default : TelnetCodec :=
  mkCodec Data None [] (replicate 256 false) (replicate 256 false)
    (replicate 256 false) (replicate 256 false).

(** ** Operations *)

(** A read and a write of a [[bool; 256]] table at [usize::from(option)]. *)
Definition flag (table : list bool) (option : Z) : bool :=
  nth (Z.to_nat option) table false.
Definition set_flag (table : list bool) (option : Z) (b : bool) : list bool :=
  <[Z.to_nat option := b]> table.

Definition set_state (c : TelnetCodec) (s : ParseState) : TelnetCodec :=
  mkCodec s (subnegotiation_option c) (subnegotiation c) (local_enabled c)
    (remote_enabled c) (local_refused c) (remote_refused c).
Definition set_sub (c : TelnetCodec) (o : option Z) (b : list Z) : TelnetCodec :=
  mkCodec (state c) o b (local_enabled c) (remote_enabled c) (local_refused c)
    (remote_refused c).
Definition set_local (c : TelnetCodec) (en re : list bool) : TelnetCodec :=
  mkCodec (state c) (subnegotiation_option c) (subnegotiation c) en
    (remote_enabled c) re (remote_refused c).
Definition set_remote (c : TelnetCodec) (en re : list bool) : TelnetCodec :=
  mkCodec (state c) (subnegotiation_option c) (subnegotiation c)
    (local_enabled c) en (local_refused c) re.

Definition push_data (d : DecodeResult) (b : Z) : DecodeResult :=
  mkDecoded (data d ++ [b]) (responses d) (enabled d).
Definition push_responses (d : DecodeResult) (bs : list Z) : DecodeResult :=
  mkDecoded (data d) (responses d ++ bs) (enabled d).
Definition push_enabled (d : DecodeResult) (o : NegotiatedOption) : DecodeResult :=
  mkDecoded (data d) (responses d) (enabled d ++ [o]).

Definition local_naws_enabled (c : TelnetCodec) : bool :=
  flag (local_enabled c) OPT_NAWS.

Definition allows_local (o : Z) : bool :=
  (o =? OPT_BINARY) || (o =? OPT_TERMINAL_TYPE) || (o =? OPT_NAWS).

Definition allows_remote (o : Z) : bool :=
  (o =? OPT_BINARY) || (o =? OPT_ECHO) || (o =? OPT_SUPPRESS_GO_AHEAD).

(** [None] is the [unreachable!] arm. *)
Definition local_option (o : Z) : option NegotiatedOption :=
  if o =? OPT_NAWS then Some LocalNaws
  else if o =? OPT_TERMINAL_TYPE then Some LocalTerminalType
  else if o =? OPT_BINARY then Some LocalBinary
  else None.

Definition remote_option (o : Z) : option NegotiatedOption :=
  if o =? OPT_BINARY then Some RemoteBinary
  else if o =? OPT_ECHO then Some RemoteEcho
  else if o =? OPT_SUPPRESS_GO_AHEAD then Some RemoteSuppressGoAhead
  else None.

Definition append_escaped (target bytes : list Z) : list Z :=
  fold_left (λ t b, if b =? IAC then t ++ [b; IAC] else t ++ [b]) bytes target.

Definition encode_user_input (bytes : list Z) : list Z :=
  append_escaped [] bytes.

(** [u16::to_be_bytes]. *)
Definition u16_to_be_bytes (n : Z) : list Z := [n / 256; n mod 256].

Definition encode_naws (rows cols : Z) : list Z :=
  append_escaped
    (append_escaped [IAC; SB; OPT_NAWS] (u16_to_be_bytes cols))
    (u16_to_be_bytes rows)
  ++ [IAC; SE].

(** [push_subnegotiation]: on overflow the codec is reset before the error is
    returned, so the new codec is part of both results. *)
Definition push_subnegotiation (c : TelnetCodec) (b : Z) :
    TelnetCodec * rres ProtocolError unit :=
  if MAX_SUBNEGOTIATION_BYTES <=? zlen (subnegotiation c) then
    (set_state (set_sub c None []) Data, Err SubnegotiationTooLarge)
  else
    (set_sub c (subnegotiation_option c) (subnegotiation c ++ [b]), Ok tt).

Definition handle_negotiation (c : TelnetCodec) (command o : Z) (d : DecodeResult) :
    rres ProtocolError (TelnetCodec * DecodeResult) :=
  if (command =? DO) && allows_local o then
    if negb (flag (local_enabled c) o) then
      let c' := set_local c (set_flag (local_enabled c) o true)
                            (set_flag (local_refused c) o false) in
      let d' := push_responses d [IAC; WILL; o] in
      match local_option o with
      | Some n => Ok (c', push_enabled d' n)
      | None => Panic
      end
    else Ok (c, d)
  else if command =? DO then
    if negb (flag (local_refused c) o) then
      Ok (set_local c (local_enabled c) (set_flag (local_refused c) o true),
          push_responses d [IAC; WONT; o])
    else Ok (c, d)
  else if command =? DONT then
    if flag (local_enabled c) o then
      Ok (set_local c (set_flag (local_enabled c) o false) (local_refused c),
          push_responses d [IAC; WONT; o])
    else Ok (c, d)
  else if (command =? WILL) && allows_remote o then
    if negb (flag (remote_enabled c) o) then
      let c' := set_remote c (set_flag (remote_enabled c) o true)
                             (set_flag (remote_refused c) o false) in
      let d' := push_responses d [IAC; DO; o] in
      match remote_option o with
      | Some n => Ok (c', push_enabled d' n)
      | None => Panic
      end
    else Ok (c, d)
  else if command =? WILL then
    if negb (flag (remote_refused c) o) then
      Ok (set_remote c (remote_enabled c) (set_flag (remote_refused c) o true),
          push_responses d [IAC; DONT; o])
    else Ok (c, d)
  else if (command =? WONT) && flag (remote_enabled c) o then
    Ok (set_remote c (set_flag (remote_enabled c) o false) (remote_refused c),
        push_responses d [IAC; DONT; o])
  else Ok (c, d).

Definition finish_subnegotiation (c : TelnetCodec) (d : DecodeResult) :
    TelnetCodec * DecodeResult :=
  let d' :=
    if bool_decide (subnegotiation_option c = Some OPT_TERMINAL_TYPE)
       && flag (local_enabled c) OPT_TERMINAL_TYPE
       && bool_decide (subnegotiation c = [TTYPE_SEND])
    then
      mkDecoded (data d)
        (append_escaped (responses d ++ [IAC; SB; OPT_TERMINAL_TYPE; TTYPE_IS])
           DEFAULT_TERMINAL_TYPE ++ [IAC; SE])
        (enabled d)
    else d in
  (set_sub c None [], d').

(** One iteration of the loop of [decode]. The codec is returned on every
    outcome: an error leaves it in the state [push_subnegotiation] set. *)
Definition decode_byte (c : TelnetCodec) (d : DecodeResult) (byte : Z) :
    TelnetCodec * rres ProtocolError DecodeResult :=
  match state c with
  | Data =>
      if byte =? IAC then (set_state c Iac, Ok d) else (c, Ok (push_data d byte))
  | Iac =>
      if byte =? IAC then (set_state c Data, Ok (push_data d IAC))
      else if (byte =? DO) || (byte =? DONT) || (byte =? WILL) || (byte =? WONT)
      then (set_state c (Negotiation byte), Ok d)
      else if byte =? SB then (set_state c SubnegotiationOption, Ok d)
      else (set_state c Data, Ok d)
  | Negotiation command =>
      match handle_negotiation c command byte d with
      | Ok (c', d') => (set_state c' Data, Ok d')
      | Err e => (c, Err e)
      | Panic => (c, Panic)
      end
  | SubnegotiationOption =>
      (set_state (set_sub c (Some byte) []) Subnegotiation, Ok d)
  | Subnegotiation =>
      if byte =? IAC then (set_state c SubnegotiationIac, Ok d)
      else
        match push_subnegotiation c byte with
        | (c', Ok _) => (c', Ok d)
        | (c', Err e) => (c', Err e)
        | (c', Panic) => (c', Panic)
        end
  | SubnegotiationIac =>
      if byte =? IAC then
        match push_subnegotiation c IAC with
        | (c', Ok _) => (set_state c' Subnegotiation, Ok d)
        | (c', Err e) => (c', Err e)
        | (c', Panic) => (c', Panic)
        end
      else if byte =? SE then
        let '(c', d') := finish_subnegotiation c d in
        (set_state c' Data, Ok d')
      else (set_state (set_sub c None []) Data, Ok d)
  end.

Fixpoint decode_loop (c : TelnetCodec) (d : DecodeResult) (bytes : list Z) :
    TelnetCodec * rres ProtocolError DecodeResult :=
  match bytes with
  | [] => (c, Ok d)
  | byte :: rest =>
      match decode_byte c d byte with
      | (c', Ok d') => decode_loop c' d' rest
      | (c', Err e) => (c', Err e)
      | (c', Panic) => (c', Panic)
      end
  end.

Definition decode (c : TelnetCodec) (bytes : list Z) :
    TelnetCodec * rres ProtocolError DecodeResult :=
  decode_loop c decoded_default bytes.

(** ** Reference definitions *)

(** Results of consecutive reads, put together. *)
Definition dapp (d1 d2 : DecodeResult) : DecodeResult :=
  mkDecoded (data d1 ++ data d2) (responses d1 ++ responses d2)
    (enabled d1 ++ enabled d2).

(** Consecutive calls of [decode], one for each read. *)
Fixpoint decode_chunks (c : TelnetCodec) (chunks : list (list Z)) :
    TelnetCodec * rres ProtocolError DecodeResult :=
  match chunks with
  | [] => (c, Ok decoded_default)
  | chunk :: rest =>
      match decode c chunk with
      | (c', Ok d) =>
          let '(c'', r) := decode_chunks c' rest in
          (c'', let? d' := r in Ok (dapp d d'))
      | (c', Err e) => (c', Err e)
      | (c', Panic) => (c', Panic)
      end
  end.

(** The replies a terminal may send, and their wire form. *)
Inductive Reply :=
| RWill (o : Z)
| RWont (o : Z)
| RDo (o : Z)
| RDont (o : Z)
| RTerminalType.

Definition render_reply (r : Reply) : list Z :=
  match r with
  | RWill o => [IAC; WILL; o]
  | RWont o => [IAC; WONT; o]
  | RDo o => [IAC; DO; o]
  | RDont o => [IAC; DONT; o]
  | RTerminalType =>
      [IAC; SB; OPT_TERMINAL_TYPE; TTYPE_IS] ++ DEFAULT_TERMINAL_TYPE ++ [IAC; SE]
  end.

Definition render_replies (rs : list Reply) : list Z :=
  concat (map render_reply rs).

(** The codec only agrees to options on its allowlists. *)
Definition reply_allowed (r : Reply) : Prop :=
  match r with
  | RWill o => allows_local o = true
  | RDo o => allows_remote o = true
  | _ => True
  end.

Definition byte (b : Z) : Prop := 0 ≤ b < 256.

(** The codec invariant. *)
Record wf (c : TelnetCodec) : Prop := {
  wf_le : length (local_enabled c) = 256%nat;
  wf_re : length (remote_enabled c) = 256%nat;
  wf_lr : length (local_refused c) = 256%nat;
  wf_rr : length (remote_refused c) = 256%nat;
  wf_bound : zlen (subnegotiation c) ≤ MAX_SUBNEGOTIATION_BYTES;
  wf_command : ∀ cmd, state c = Negotiation cmd →
    cmd = DO ∨ cmd = DONT ∨ cmd = WILL ∨ cmd = WONT;
  wf_idle : state c ≠ Subnegotiation → state c ≠ SubnegotiationIac →
    subnegotiation c = [] ∧ subnegotiation_option c = None;
  wf_le_allowed : ∀ o, 0 ≤ o → flag (local_enabled c) o = true → allows_local o = true;
  wf_re_allowed : ∀ o, 0 ≤ o → flag (remote_enabled c) o = true → allows_remote o = true;
  wf_lr_refused : ∀ o, 0 ≤ o → flag (local_refused c) o = true → allows_local o = false;
  wf_rr_refused : ∀ o, 0 ≤ o → flag (remote_refused c) o = true → allows_remote o = false;
}.

(** *** The protocol at the level of RFC 854

    A peer's stream is a list of events; [render_event] is their wire form and
    [spec_run] what a terminal with the codec's option policy answers, with the
    option state as four sets. *)

Inductive event :=
| EData (b : Z)
| ECommand (command o : Z)
| ESub (o : Z) (payload : list Z).

Definition render_event (e : event) : list Z :=
  match e with
  | EData b => append_escaped [] [b]
  | ECommand command o => [IAC; command; o]
  | ESub o payload => [IAC; SB; o] ++ append_escaped [] payload ++ [IAC; SE]
  end.

Definition event_ok (e : event) : Prop :=
  match e with
  | EData b => byte b
  | ECommand command o =>
      (command = DO ∨ command = DONT ∨ command = WILL ∨ command = WONT) ∧ byte o
  | ESub o payload => byte o ∧ Forall byte payload ∧
      zlen payload ≤ MAX_SUBNEGOTIATION_BYTES
  end.

Record OptSpec := mkOpt {
  we_do : gset Z;
  they_do : gset Z;
  we_refused : gset Z;
  they_refused : gset Z;
}.

Definition spec_command (s : OptSpec) (command o : Z) : OptSpec * list Reply :=
  let '(mkOpt wd td wr tr) := s in
  if bool_decide (command = DO) then
    if allows_local o then
      if bool_decide (o ∈ wd) then (s, [])
      else (mkOpt ({[o]} ∪ wd) td (wr ∖ {[o]}) tr, [RWill o])
    else if bool_decide (o ∈ wr) then (s, [])
    else (mkOpt wd td ({[o]} ∪ wr) tr, [RWont o])
  else if bool_decide (command = DONT) then
    if bool_decide (o ∈ wd) then (mkOpt (wd ∖ {[o]}) td wr tr, [RWont o]) else (s, [])
  else if bool_decide (command = WILL) then
    if allows_remote o then
      if bool_decide (o ∈ td) then (s, [])
      else (mkOpt wd ({[o]} ∪ td) wr (tr ∖ {[o]}), [RDo o])
    else if bool_decide (o ∈ tr) then (s, [])
    else (mkOpt wd td wr ({[o]} ∪ tr), [RDont o])
  else
    if bool_decide (o ∈ td) then (mkOpt wd (td ∖ {[o]}) wr tr, [RDont o]) else (s, []).

Definition spec_event (s : OptSpec) (e : event) : OptSpec * list Z * list Reply :=
  match e with
  | EData b => (s, [b], [])
  | ECommand command o => let '(s', rs) := spec_command s command o in (s', [], rs)
  | ESub o payload =>
      (s, [],
       if bool_decide (o = OPT_TERMINAL_TYPE) && bool_decide (OPT_TERMINAL_TYPE ∈ we_do s)
          && bool_decide (payload = [TTYPE_SEND])
       then [RTerminalType] else [])
  end.

Fixpoint spec_run (s : OptSpec) (evs : list event) : OptSpec * list Z * list Reply :=
  match evs with
  | [] => (s, [], [])
  | e :: evs =>
      let '(s1, dat1, rs1) := spec_event s e in
      let '(s2, dat2, rs2) := spec_run s1 evs in
      (s2, dat1 ++ dat2, rs1 ++ rs2)
  end.

(** A table that represents a set. *)
Definition represents (table : list bool) (X : gset Z) : Prop :=
  ∀ o, byte o → flag table o = bool_decide (o ∈ X).

(** The codec is between events and its tables are the sets. *)
Record abs (c : TelnetCodec) (s : OptSpec) : Prop := {
  abs_state : state c = Data;
  abs_wd : represents (local_enabled c) (we_do s);
  abs_td : represents (remote_enabled c) (they_do s);
  abs_wr : represents (local_refused c) (we_refused s);
  abs_tr : represents (remote_refused c) (they_refused s);
}.

(** ** Lemmas *)

Lemma flag_default o : flag (replicate 256 false) o = false.
Proof.
  unfold flag. destruct (nth_in_or_default (Z.to_nat o) (replicate 256 false) false)
    as [H| ->]; [|done].
  apply list_elem_of_In, elem_of_replicate in H. naive_solver.
Qed.

Lemma flag_set table o b o' :
  length table = 256%nat → 0 ≤ o < 256 → 0 ≤ o' →
  flag (set_flag table o b) o' = if o' =? o then b else flag table o'.
Proof.
  intros Hl Ho Ho'. unfold flag, set_flag. rewrite !nth_lookup.
  destruct (Z.eqb_spec o' o) as [->|Hne].
  - rewrite list_lookup_insert_eq; [done|lia].
  - rewrite list_lookup_insert_ne; [done|lia].
Qed.

Lemma length_set_flag table o b : length (set_flag table o b) = length table.
Proof. apply length_insert. Qed.

Lemma wf_default : wf TelnetCodec_default.
Proof.
  split; simpl; rewrite ?length_replicate; try done;
    intros o _; rewrite flag_default; done.
Qed.

(** The wf goals of a table update. *)
Ltac solve_table :=
  intros o' Ho'; rewrite ?flag_set by (auto; lia);
  repeat match goal with
  | |- context [?a =? ?b] => destruct (Z.eqb_spec a b)
  end; subst; intros; try congruence; eauto.

Lemma allowed_local_option o :
  allows_local o = true → ∃ n, local_option o = Some n.
Proof.
  unfold allows_local, local_option. intros H.
  destruct (o =? OPT_NAWS); [eauto|]. destruct (o =? OPT_TERMINAL_TYPE); [eauto|].
  destruct (o =? OPT_BINARY); [eauto|done].
Qed.

Lemma allowed_remote_option o :
  allows_remote o = true → ∃ n, remote_option o = Some n.
Proof.
  unfold allows_remote, remote_option. intros H.
  destruct (o =? OPT_BINARY); [eauto|]. destruct (o =? OPT_ECHO); [eauto|].
  destruct (o =? OPT_SUPPRESS_GO_AHEAD); [eauto|done].
Qed.

Lemma wf_set_state c s :
  wf c → (∀ cmd, s = Negotiation cmd →
            cmd = DO ∨ cmd = DONT ∨ cmd = WILL ∨ cmd = WONT) →
  (s ≠ Subnegotiation → s ≠ SubnegotiationIac →
   subnegotiation c = [] ∧ subnegotiation_option c = None) →
  wf (set_state c s).
Proof. intros [] ??. by split. Qed.

(** What [handle_negotiation] can do: nothing, or one reply with its table
    update. *)
Inductive negotiates (c : TelnetCodec) (command o : Z) :
    TelnetCodec → list Reply → list NegotiatedOption → Prop :=
| neg_silent : negotiates c command o c [] []
| neg_will n : command = DO → allows_local o = true →
    flag (local_enabled c) o = false → local_option o = Some n →
    negotiates c command o
      (set_local c (set_flag (local_enabled c) o true)
         (set_flag (local_refused c) o false)) [RWill o] [n]
| neg_wont_refuse : command = DO → allows_local o = false →
    flag (local_refused c) o = false →
    negotiates c command o
      (set_local c (local_enabled c) (set_flag (local_refused c) o true)) [RWont o] []
| neg_wont_disable : command = DONT → flag (local_enabled c) o = true →
    negotiates c command o
      (set_local c (set_flag (local_enabled c) o false) (local_refused c)) [RWont o] []
| neg_do n : command = WILL → allows_remote o = true →
    flag (remote_enabled c) o = false → remote_option o = Some n →
    negotiates c command o
      (set_remote c (set_flag (remote_enabled c) o true)
         (set_flag (remote_refused c) o false)) [RDo o] [n]
| neg_dont_refuse : command = WILL → allows_remote o = false →
    flag (remote_refused c) o = false →
    negotiates c command o
      (set_remote c (remote_enabled c) (set_flag (remote_refused c) o true)) [RDont o] []
| neg_dont_disable : command = WONT → flag (remote_enabled c) o = true →
    negotiates c command o
      (set_remote c (set_flag (remote_enabled c) o false) (remote_refused c)) [RDont o] [].

Lemma dapp_nil_r d : dapp d (mkDecoded [] [] []) = d.
Proof. destruct d. unfold dapp. simpl. by rewrite !app_nil_r. Qed.

Ltac negotiate rule :=
  eexists _, _, _; split; [eapply rule; eauto | cbn; rewrite ?app_nil_r; done].

Lemma handle_negotiation_spec c command o d :
  ∃ c' rs ns, negotiates c command o c' rs ns ∧
    handle_negotiation c command o d =
      Ok (c', dapp d (mkDecoded [] (render_replies rs) ns)).
Proof.
  assert (Hs : ∃ c' rs ns, negotiates c command o c' rs ns ∧
    Ok (c, d) = Ok (E := ProtocolError) (c', dapp d (mkDecoded [] (render_replies rs) ns))).
  { exists c, [], []. split; [constructor|]. by rewrite dapp_nil_r. }
  unfold handle_negotiation, push_responses, push_enabled, dapp, render_replies.
  destruct (Z.eqb_spec command DO) as [->|HDO]; simpl.
  { destruct (allows_local o) eqn:Ha.
    - destruct (allowed_local_option o Ha) as [n Hn]. rewrite Hn.
      destruct (flag (local_enabled c) o) eqn:Hf; simpl; [done|negotiate neg_will].
    - destruct (flag (local_refused c) o) eqn:Hf; simpl; [done|negotiate neg_wont_refuse]. }
  destruct (Z.eqb_spec command DONT) as [->|HDONT]; simpl.
  { destruct (flag (local_enabled c) o) eqn:Hf; [negotiate neg_wont_disable|done]. }
  destruct (Z.eqb_spec command WILL) as [->|HWILL]; simpl.
  { destruct (allows_remote o) eqn:Ha.
    - destruct (allowed_remote_option o Ha) as [n Hn]. rewrite Hn.
      destruct (flag (remote_enabled c) o) eqn:Hf; simpl; [done|negotiate neg_do].
    - destruct (flag (remote_refused c) o) eqn:Hf; simpl; [done|negotiate neg_dont_refuse]. }
  destruct (Z.eqb_spec command WONT) as [->|HWONT]; simpl; [|done].
  destruct (flag (remote_enabled c) o) eqn:Hf; [negotiate neg_dont_disable|done].
Qed.

(** The reply bytes still owed to the peer are bounded by the bytes it sent:
    [potential] counts four for each byte the parser is holding. *)
Definition potential (c : TelnetCodec) : Z :=
  match state c with
  | Data => 0
  | Iac => 4
  | Negotiation _ => 8
  | SubnegotiationOption => 8
  | Subnegotiation => 12 + 4 * Z.min 1 (zlen (subnegotiation c))
  | SubnegotiationIac => 16 + 4 * Z.min 1 (zlen (subnegotiation c))
  end.

(** What one byte does to a well-formed codec. *)
Record step_ok (c : TelnetCodec) (b : Z) (c' : TelnetCodec) (dat : list Z)
    (rs : list Reply) (ns : list NegotiatedOption) : Prop := {
  so_wf : wf c';
  so_allowed : Forall reply_allowed rs;
  so_data : dat = [] ∨ dat = [b];
  so_local : ∀ o, 0 ≤ o → flag (local_refused c) o = true →
    flag (local_refused c') o = true ∧ RWont o ∉ rs;
  so_remote : ∀ o, 0 ≤ o → flag (remote_refused c) o = true →
    flag (remote_refused c') o = true ∧ RDont o ∉ rs;
  so_potential : zlen (render_replies rs) + potential c' ≤ 4 + potential c;
}.

(** A step that only moves the parser. *)
Lemma step_ok_silent c b c' dat :
  wf c' → dat = [] ∨ dat = [b] →
  local_refused c' = local_refused c → remote_refused c' = remote_refused c →
  potential c' ≤ 4 + potential c →
  step_ok c b c' dat [] [].
Proof.
  intros Hwf Hdat Hl Hr Hp. split; auto.
  - intros o _. rewrite Hl. split; [done|set_solver].
  - intros o _. rewrite Hr. split; [done|set_solver].
Qed.

Lemma potential_nonneg c : 0 ≤ potential c.
Proof.
  unfold potential. pose proof (zlen_nonneg (subnegotiation c)).
  destruct (state c); lia.
Qed.

Lemma negotiates_wf c cmd o c' rs ns :
  wf c → byte o → state c = Negotiation cmd → negotiates c cmd o c' rs ns →
  wf (set_state c' Data).
Proof.
  intros Hwf [Ho1 Ho2] Hst Hn.
  assert (Hidle : subnegotiation c = [] ∧ subnegotiation_option c = None)
    by (apply (wf_idle c Hwf); rewrite Hst; done).
  destruct Hwf as [H1 H2 H3 H4 H5 H6 H7 H8 H9 H10 H11].
  inversion Hn; subst; split; simpl; rewrite ?length_set_flag; try done; solve_table.
Qed.

Lemma negotiates_allowed c cmd o c' rs ns :
  negotiates c cmd o c' rs ns → Forall reply_allowed rs.
Proof. inversion 1; subst; by repeat constructor. Qed.

Lemma negotiates_refused_local c cmd o c' rs ns o' :
  wf c → byte o → negotiates c cmd o c' rs ns → 0 ≤ o' →
  flag (local_refused c) o' = true →
  flag (local_refused c') o' = true ∧ RWont o' ∉ rs.
Proof.
  intros Hwf [Ho1 Ho2] Hn Ho' Hr. pose proof (wf_lr_refused c Hwf o' Ho' Hr) as Hna.
  pose proof (wf_lr c Hwf) as Hlen. pose proof (wf_le_allowed c Hwf o' Ho') as Hle.
  inversion Hn; subst; cbn [local_refused set_local set_remote];
    rewrite ?flag_set by (auto; lia);
    try (destruct (Z.eqb_spec o' o) as [->|]; [try congruence|]);
    (split; [done|]); rewrite ?list_elem_of_singleton; try set_solver; try congruence.
  rewrite Hle in Hna; congruence.
Qed.

Lemma negotiates_refused_remote c cmd o c' rs ns o' :
  wf c → byte o → negotiates c cmd o c' rs ns → 0 ≤ o' →
  flag (remote_refused c) o' = true →
  flag (remote_refused c') o' = true ∧ RDont o' ∉ rs.
Proof.
  intros Hwf [Ho1 Ho2] Hn Ho' Hr. pose proof (wf_rr_refused c Hwf o' Ho' Hr) as Hna.
  pose proof (wf_rr c Hwf) as Hlen. pose proof (wf_re_allowed c Hwf o' Ho') as Hle.
  inversion Hn; subst; cbn [remote_refused set_local set_remote];
    rewrite ?flag_set by (auto; lia);
    try (destruct (Z.eqb_spec o' o) as [->|]; [try congruence|]);
    (split; [done|]); rewrite ?list_elem_of_singleton; try set_solver; try congruence.
  rewrite Hle in Hna; congruence.
Qed.

Lemma negotiates_ok c cmd o c' rs ns :
  wf c → byte o → state c = Negotiation cmd → negotiates c cmd o c' rs ns →
  step_ok c o (set_state c' Data) [] rs ns.
Proof.
  intros Hwf Ho Hst Hn. split; eauto using negotiates_wf, negotiates_allowed.
  - intros o' ??. by apply (negotiates_refused_local c cmd o c' rs ns).
  - intros o' ??. by apply (negotiates_refused_remote c cmd o c' rs ns).
  - change (potential (set_state c' Data)) with 0. unfold potential. rewrite Hst.
    inversion Hn; subst; unfold zlen; simpl; lia.
Qed.

Lemma fold_append_escaped t bs :
  append_escaped t bs = t ++ append_escaped [] bs.
Proof.
  unfold append_escaped. revert t.
  induction bs as [|b bs IH]; intros t; simpl; [by rewrite app_nil_r|].
  rewrite IH. rewrite (IH (if b =? IAC then _ else _)).
  destruct (b =? IAC); by rewrite <- app_assoc.
Qed.

(** [finish_subnegotiation] clears the buffer and sends at most one reply. *)
Lemma finish_subnegotiation_spec c d :
  ∃ rs, (rs = [] ∨ rs = [RTerminalType] ∧ subnegotiation c = [TTYPE_SEND]) ∧
    finish_subnegotiation c d =
      (set_sub c None [], dapp d (mkDecoded [] (render_replies rs) [])).
Proof.
  unfold finish_subnegotiation.
  destruct (_ && _) eqn:E.
  - exists [RTerminalType]. bprop. split; [by right|]. f_equal. unfold dapp. f_equal.
    + simpl. by rewrite app_nil_r.
    + rewrite fold_append_escaped, <- !app_assoc. done.
    + simpl. by rewrite app_nil_r.
  - exists []. split; [by left|]. by rewrite dapp_nil_r.
Qed.

(** Closes the case of a byte that only moves the parser. *)
Ltac silent Hst :=
  left; eexists _, [], [], []; rewrite dapp_nil_r; split; [reflexivity|];
  apply step_ok_silent; auto;
  try (apply wf_set_state; auto; intros; done);
  try (by unfold potential; rewrite Hst; simpl; rewrite ?zlen_app; unfold zlen; simpl; lia).

Lemma dapp_push_data d x : push_data d x = dapp d (mkDecoded [x] (render_replies []) []).
Proof. unfold dapp, push_data. simpl. by rewrite !app_nil_r. Qed.

Lemma wf_clear c : wf c → wf (set_state (set_sub c None []) Data).
Proof. intros []. by split. Qed.

Lemma wf_push c b s :
  wf c → s = Subnegotiation → zlen (subnegotiation c) < MAX_SUBNEGOTIATION_BYTES →
  wf (set_state (set_sub c (subnegotiation_option c) (subnegotiation c ++ [b])) s).
Proof.
  intros [] -> ?. split; simpl; auto; try done.
  rewrite zlen_app. change (zlen [b]) with 1. lia.
Qed.

Lemma set_state_id c s : state c = s → set_state c s = c.
Proof. intros <-. by destruct c. Qed.

(** One byte on a well-formed codec: a step that appends to the result, or the
    bounded-buffer error. *)
Lemma decode_byte_spec c d b :
  wf c → byte b →
  (∃ c' dat rs ns, decode_byte c d b = (c', Ok (dapp d (mkDecoded dat (render_replies rs) ns)))
     ∧ step_ok c b c' dat rs ns)
  ∨ (∃ c', decode_byte c d b = (c', Err SubnegotiationTooLarge) ∧ wf c' ∧ state c' = Data).
Proof.
  intros Hwf Hb. unfold decode_byte, push_subnegotiation.
  pose proof (zlen_nonneg (subnegotiation c)) as Hz.
  pose proof (wf_idle c Hwf) as Hidle. pose proof (wf_clear c Hwf) as Hclear.
  destruct (state c) as [| |cmd| | |] eqn:Hst.
  - destruct (Z.eqb_spec b IAC); [silent Hst|].
    left. eexists _, [b], [], []. rewrite <- dapp_push_data. split; [done|].
    apply step_ok_silent; auto. lia.
  - destruct (Z.eqb_spec b IAC) as [->|]; [|destruct (_ || _) eqn:E].
    + left. eexists _, [IAC], [], []. rewrite <- dapp_push_data. split; [done|].
      apply step_ok_silent; auto; [by apply wf_set_state; auto|].
      unfold potential; rewrite Hst; simpl; lia.
    + silent Hst. apply wf_set_state; auto. intros cmd [= <-].
      rewrite !orb_true_iff, !Z.eqb_eq in E. tauto.
    + destruct (Z.eqb_spec b SB); silent Hst.
  - left. destruct (handle_negotiation_spec c cmd b d) as (c' & rs & ns & Hn & ->).
    eexists _, [], rs, ns. split; [done|]. by eapply negotiates_ok.
  - silent Hst. destruct Hwf. by split.
  - destruct (Z.eqb_spec b IAC); [silent Hst|].
    destruct (Z.leb_spec MAX_SUBNEGOTIATION_BYTES (zlen (subnegotiation c))); [by right; eauto|].
    rewrite <- (set_state_id (set_sub c _ _) Subnegotiation) by done.
    silent Hst. by apply wf_push.
  - destruct (Z.eqb_spec b IAC); [|destruct (Z.eqb_spec b SE); [|silent Hst]].
    + destruct (Z.leb_spec MAX_SUBNEGOTIATION_BYTES (zlen (subnegotiation c))); [by right; eauto|].
      silent Hst. by apply wf_push.
    + destruct (finish_subnegotiation_spec c d) as (rs & [->|[-> Hsub]] & ->); [silent Hst|].
      left. eexists _, [], _, []. split; [done|]. split; auto; try (by repeat constructor).
      * intros o ?. split; [done|set_solver].
      * intros o ?. split; [done|set_solver].
      * unfold potential. rewrite Hst, Hsub. unfold zlen. simpl. lia.
Qed.

(** The accumulated result never influences the parser. *)
Lemma handle_negotiation_acc c cmd o d :
  handle_negotiation c cmd o d =
  let? (c', d') := handle_negotiation c cmd o decoded_default in Ok (c', dapp d d').
Proof.
  unfold handle_negotiation, dapp, push_responses, push_enabled. destruct d.
  repeat case_match; simplify_eq/=; by rewrite ?app_nil_r.
Qed.

Lemma decode_byte_acc c d b :
  decode_byte c d b =
  let '(c', r) := decode_byte c decoded_default b in (c', let? d' := r in Ok (dapp d d')).
Proof.
  unfold decode_byte. destruct (state c).
  - case_match; simpl; by rewrite ?dapp_nil_r, ?dapp_push_data.
  - repeat case_match; simpl; by rewrite ?dapp_nil_r, ?dapp_push_data.
  - rewrite (handle_negotiation_acc _ _ _ d).
    by destruct (handle_negotiation _ _ _ _) as [[]| |].
  - simpl. by rewrite dapp_nil_r.
  - repeat case_match; simplify_eq/=; by rewrite ?dapp_nil_r.
  - destruct (b =? IAC); [repeat case_match; simplify_eq/=; by rewrite ?dapp_nil_r|].
    destruct (b =? SE); [|simpl; by rewrite dapp_nil_r].
    unfold finish_subnegotiation. destruct (_ && _); [|simpl; by rewrite dapp_nil_r].
    rewrite (fold_append_escaped (responses d ++ _)).
    unfold dapp; simpl. by rewrite !app_nil_r, <- !app_assoc.
Qed.

Lemma dapp_assoc d1 d2 d3 : dapp d1 (dapp d2 d3) = dapp (dapp d1 d2) d3.
Proof. unfold dapp; simpl. by rewrite !app_assoc. Qed.

Lemma decode_loop_acc c d bs :
  decode_loop c d bs =
  let '(c', r) := decode_loop c decoded_default bs in (c', let? d' := r in Ok (dapp d d')).
Proof.
  revert c d. induction bs as [|b bs IH]; intros c d; simpl.
  - by rewrite dapp_nil_r.
  - rewrite decode_byte_acc. destruct (decode_byte c decoded_default b) as [c' [d'| |]]; simpl; try done.
    rewrite IH, (IH c' d'). destruct (decode_loop c' decoded_default bs) as [c'' [d''| |]]; simpl; try done.
    by rewrite dapp_assoc.
Qed.

Lemma decode_cons c b bs :
  decode c (b :: bs) =
  match decode_byte c decoded_default b with
  | (c', Ok d) =>
      let '(c'', r) := decode c' bs in (c'', let? d' := r in Ok (dapp d d'))
  | (c', Err e) => (c', Err e)
  | (c', Panic) => (c', Panic)
  end.
Proof.
  unfold decode. simpl. destruct (decode_byte c decoded_default b) as [c' [d'| |]]; try done.
  by rewrite decode_loop_acc.
Qed.

Lemma dapp_nil_l d : dapp decoded_default d = d.
Proof. by destruct d. Qed.

Lemma decode_app c xs ys :
  decode c (xs ++ ys) =
  match decode c xs with
  | (c', Ok d) =>
      let '(c'', r) := decode c' ys in (c'', let? d' := r in Ok (dapp d d'))
  | (c', Err e) => (c', Err e)
  | (c', Panic) => (c', Panic)
  end.
Proof.
  revert c. induction xs as [|x xs IH]; intros c.
  - simpl. destruct (decode c ys) as [c'' [d| |]]; simpl; by rewrite ?dapp_nil_l.
  - rewrite <- app_comm_cons, !decode_cons.
    destruct (decode_byte c decoded_default x) as [c1 [d1| |]]; try done.
    rewrite IH. destruct (decode c1 xs) as [c2 [d2| |]]; simpl; try done.
    destruct (decode c2 ys) as [c3 [d3| |]]; simpl; by rewrite ?dapp_assoc.
Qed.

(** What a successful [decode] of well-formed input guarantees. *)
Record run_ok (c : TelnetCodec) (bytes : list Z) (c' : TelnetCodec)
    (d : DecodeResult) (rs : list Reply) : Prop := {
  ro_wf : wf c';
  ro_responses : responses d = render_replies rs;
  ro_allowed : Forall reply_allowed rs;
  ro_data : sublist (data d) bytes;
  ro_local : ∀ o, 0 ≤ o → flag (local_refused c) o = true →
    flag (local_refused c') o = true ∧ RWont o ∉ rs;
  ro_remote : ∀ o, 0 ≤ o → flag (remote_refused c) o = true →
    flag (remote_refused c') o = true ∧ RDont o ∉ rs;
  ro_potential : zlen (responses d) + potential c' ≤ 4 * zlen bytes + potential c;
}.

Lemma render_replies_app rs1 rs2 :
  render_replies (rs1 ++ rs2) = render_replies rs1 ++ render_replies rs2.
Proof. unfold render_replies. by rewrite map_app, concat_app. Qed.

Lemma run_ok_cons c b bs c1 c2 dat rs1 ns d rs2 :
  step_ok c b c1 dat rs1 ns → run_ok c1 bs c2 d rs2 →
  run_ok c (b :: bs) c2 (dapp (mkDecoded dat (render_replies rs1) ns) d) (rs1 ++ rs2).
Proof.
  intros [] []. split; simpl; auto.
  - rewrite render_replies_app. congruence.
  - by apply Forall_app.
  - destruct so_data0 as [->| ->]; simpl; by constructor.
  - intros o Ho Hr. destruct (so_local0 o Ho Hr) as [Hr1 ?].
    destruct (ro_local0 o Ho Hr1). set_solver.
  - intros o Ho Hr. destruct (so_remote0 o Ho Hr) as [Hr1 ?].
    destruct (ro_remote0 o Ho Hr1). set_solver.
  - rewrite zlen_app, zlen_cons. lia.
Qed.

Lemma decode_spec c bs :
  wf c → Forall byte bs →
  (∃ c' d rs, decode c bs = (c', Ok d) ∧ run_ok c bs c' d rs)
  ∨ (∃ c', decode c bs = (c', Err SubnegotiationTooLarge) ∧ wf c' ∧ state c' = Data).
Proof.
  revert c. induction bs as [|b bs IH]; intros c Hwf Hbs.
  - left. exists c, decoded_default, []. split; [done|]. split; simpl; auto.
    + intros; split; [done|set_solver].
    + intros; split; [done|set_solver].
    + rewrite !zlen_nil. lia.
  - apply Forall_cons in Hbs as [Hb Hbs]. rewrite decode_cons.
    destruct (decode_byte_spec c decoded_default b Hwf Hb)
      as [(c1 & dat & rs & ns & -> & Hs)|(c1 & -> & ? & ?)]; [|by right; eauto].
    rewrite dapp_nil_l.
    destruct (IH c1 (so_wf _ _ _ _ _ _ Hs) Hbs)
      as [(c2 & d & rs2 & -> & Hr)|(c2 & -> & ? & ?)]; [|by right; eauto].
    left. eexists _, _, _. split; [done|]. by eapply run_ok_cons.
Qed.

Lemma append_escaped_cons b bs :
  append_escaped [] (b :: bs) = append_escaped [] [b] ++ append_escaped [] bs.
Proof.
  unfold append_escaped at 1. simpl.
  fold (append_escaped (if b =? IAC then [b; IAC] else [b]) bs).
  rewrite fold_append_escaped. by unfold append_escaped at 2.
Qed.

Lemma append_escaped_app xs ys :
  append_escaped [] (xs ++ ys) = append_escaped [] xs ++ append_escaped [] ys.
Proof.
  induction xs as [|x xs IH]; [done|].
  rewrite <- app_comm_cons, append_escaped_cons, (append_escaped_cons x xs), IH.
  by rewrite app_assoc.
Qed.

Lemma decode_escaped_byte c b :
  state c = Data → decode c (append_escaped [] [b]) = (c, Ok (mkDecoded [b] [] [])).
Proof.
  intros Hst. unfold decode, append_escaped, decode_loop, decode_byte, push_data. simpl.
  destruct (Z.eqb_spec b IAC) as [->|Hne]; rewrite Hst; simpl.
  - change (set_state (set_state c Iac) Data) with (set_state c Data).
    by rewrite set_state_id.
  - apply Z.eqb_neq in Hne. by rewrite Hne.
Qed.

(** In a subnegotiation, escaped bytes are collected unescaped. *)
Lemma decode_sub_escaped c p :
  state c = Subnegotiation →
  zlen (subnegotiation c) + zlen p ≤ MAX_SUBNEGOTIATION_BYTES →
  decode c (append_escaped [] p) =
    (set_sub c (subnegotiation_option c) (subnegotiation c ++ p), Ok decoded_default).
Proof.
  revert c. induction p as [|b p IH]; intros c Hst Hlen.
  - rewrite app_nil_r. by destruct c.
  - rewrite append_escaped_cons, decode_app.
    rewrite zlen_cons in Hlen. pose proof (zlen_nonneg p).
    assert (decode c (append_escaped [] [b]) =
      (set_sub c (subnegotiation_option c) (subnegotiation c ++ [b]), Ok decoded_default)) as ->.
    { unfold decode, append_escaped, decode_loop, decode_byte, push_subnegotiation. simpl.
      destruct (Z.eqb_spec b IAC) as [->|Hne]; rewrite Hst; simpl.
      - destruct (Z.leb_spec MAX_SUBNEGOTIATION_BYTES (zlen (subnegotiation c))); [lia|].
        unfold set_state, set_sub. simpl. by rewrite Hst.
      - apply Z.eqb_neq in Hne. rewrite Hne.
        destruct (Z.leb_spec MAX_SUBNEGOTIATION_BYTES (zlen (subnegotiation c))); [lia|]. done. }
    rewrite IH; [|done|simpl; rewrite zlen_app; change (zlen [b]) with 1; lia].
    simpl. by rewrite <- app_assoc.
Qed.

(** Opening a subnegotiation and sending its payload, without the end mark. *)
Lemma decode_sub_open c o p :
  state c = Data → zlen p ≤ MAX_SUBNEGOTIATION_BYTES →
  decode c ([IAC; SB; o] ++ append_escaped [] p) =
    (set_state (set_sub c (Some o) p) Subnegotiation, Ok decoded_default).
Proof.
  intros Hst Hlen. rewrite decode_app.
  assert (decode c [IAC; SB; o] =
    (set_state (set_sub c (Some o) []) Subnegotiation, Ok decoded_default)) as ->.
  { unfold decode, decode_loop, decode_byte. by rewrite Hst. }
  by rewrite decode_sub_escaped.
Qed.

Lemma decode_sub_event c o p :
  state c = Data → zlen p ≤ MAX_SUBNEGOTIATION_BYTES →
  decode c (render_event (ESub o p)) =
    (set_sub c None [], Ok (finish_subnegotiation (set_sub c (Some o) p) decoded_default).2).
Proof.
  intros Hst Hlen. unfold render_event. rewrite app_assoc, decode_app, decode_sub_open by done.
  unfold decode, decode_loop, decode_byte. cbn -[finish_subnegotiation].
  unfold finish_subnegotiation. simpl. unfold set_state, set_sub. simpl. rewrite Hst.
  by destruct (_ && _).
Qed.

Lemma represents_add table X o :
  length table = 256%nat → byte o → represents table X →
  represents (set_flag table o true) ({[o]} ∪ X).
Proof.
  intros Hl [Ho1 Ho2] HX o' Ho'. rewrite flag_set by (unfold byte in *; auto; lia).
  rewrite HX by done. destruct (Z.eqb_spec o' o) as [->|]; symmetry.
  - apply bool_decide_eq_true. set_solver.
  - apply bool_decide_ext. set_solver.
Qed.

Lemma represents_remove table X o :
  length table = 256%nat → byte o → represents table X →
  represents (set_flag table o false) (X ∖ {[o]}).
Proof.
  intros Hl [Ho1 Ho2] HX o' Ho'. rewrite flag_set by (unfold byte in *; auto; lia).
  rewrite HX by done. destruct (Z.eqb_spec o' o) as [->|]; symmetry.
  - apply bool_decide_eq_false. set_solver.
  - apply bool_decide_ext. set_solver.
Qed.

#[local] Hint Resolve represents_add represents_remove : rust.

Lemma decode_command c cmd o :
  state c = Data → (cmd = DO ∨ cmd = DONT ∨ cmd = WILL ∨ cmd = WONT) →
  decode c [IAC; cmd; o] =
  match handle_negotiation (set_state c (Negotiation cmd)) cmd o decoded_default with
  | Ok (c', d') => (set_state c' Data, Ok d')
  | Err e => (set_state c (Negotiation cmd), Err e)
  | Panic => (set_state c (Negotiation cmd), Panic)
  end.
Proof.
  intros Hst Hcmd. unfold decode. cbn [decode_loop]. unfold decode_byte at 1. rewrite Hst. simpl.
  unfold decode_byte at 1; cbn [state set_state].
  destruct Hcmd as [->|[->|[->| ->]]]; simpl; unfold decode_byte; cbn [state set_state];
    by destruct (handle_negotiation _ _ _ _) as [[]| |].
Qed.

(** Closes the case of one command: the answer, then the four tables. *)
Ltac command_case :=
  eexists _, _; split; [done|]; split; [split; simpl; eauto with rust|split; done].

(** A command is negotiated as the option policy says. *)
Lemma decode_command_event c s cmd o :
  wf c → abs c s → event_ok (ECommand cmd o) →
  ∃ c' d, decode c [IAC; cmd; o] = (c', Ok d) ∧ abs c' (spec_command s cmd o).1 ∧
    data d = [] ∧ responses d = render_replies (spec_command s cmd o).2.
Proof.
  intros [] [Hst Hwd Htd Hwr Htr] [Hcmd Ho].
  destruct s as [wd td wr tr]; simpl in Hwd, Htd, Hwr, Htr.
  rewrite decode_command by done. unfold handle_negotiation, spec_command. cbn [set_state
    local_enabled remote_enabled local_refused remote_refused].
  rewrite Hwd, Htd, Hwr, Htr by done.
  destruct Hcmd as [->|[->|[->| ->]]]; cbn -[bool_decide].
  - destruct (allows_local o) eqn:Ha.
    + destruct (allowed_local_option o Ha) as [n ->].
      destruct (bool_decide (o ∈ wd)); simpl; command_case.
    + destruct (bool_decide (o ∈ wr)); simpl; command_case.
  - destruct (bool_decide (o ∈ wd)); simpl; command_case.
  - destruct (allows_remote o) eqn:Ha.
    + destruct (allowed_remote_option o Ha) as [n ->].
      destruct (bool_decide (o ∈ td)); simpl; command_case.
    + destruct (bool_decide (o ∈ tr)); simpl; command_case.
  - destruct (bool_decide (o ∈ td)); simpl; command_case.
Qed.

(** Closes a goal that says that given bytes are bytes. *)
Ltac solve_bytes :=
  rewrite ?Forall_cons, ?Forall_nil;
  unfold byte, IAC, DO, DONT, WILL, WONT, SB, SE, OPT_NAWS, OPT_TERMINAL_TYPE, TTYPE_SEND in *;
  lia.

Lemma cmd_byte cmd : (cmd = DO ∨ cmd = DONT ∨ cmd = WILL ∨ cmd = WONT) → byte cmd.
Proof. intros [->|[->|[->| ->]]]; solve_bytes. Qed.

Lemma append_escaped_bytes bs : Forall byte bs → Forall byte (append_escaped [] bs).
Proof.
  induction 1 as [|b bs Hb Hbs IH]; [constructor|].
  rewrite append_escaped_cons. apply Forall_app. split; [|done].
  unfold append_escaped. simpl. destruct (b =? IAC); solve_bytes.
Qed.

Lemma render_event_bytes e : event_ok e → Forall byte (render_event e).
Proof.
  destruct e as [b|cmd o|o p]; simpl.
  - intros. apply (append_escaped_bytes [b]). by rewrite Forall_cons, Forall_nil.
  - intros [Hc%cmd_byte ?]. solve_bytes.
  - intros (? & Hp%append_escaped_bytes & ?). rewrite !Forall_cons, Forall_app.
    repeat (split; [solve_bytes|]). split; [done|solve_bytes].
Qed.

(** One event of the peer is handled as the specification says. *)
Lemma decode_event_refines c s e :
  wf c → abs c s → event_ok e →
  ∃ c' d, decode c (render_event e) = (c', Ok d) ∧ abs c' (spec_event s e).1.1 ∧
    data d = (spec_event s e).1.2 ∧ responses d = render_replies (spec_event s e).2.
Proof.
  intros Hwf Habs He. pose proof (abs_state _ _ Habs) as Hst.
  destruct e as [b|cmd o|o p].
  - cbn [render_event]. rewrite decode_escaped_byte by done. eauto 6.
  - cbn [render_event]. destruct (decode_command_event c s cmd o Hwf Habs He) as (c' & d & H).
    exists c', d. simpl. destruct (spec_command s cmd o). simpl in *. tauto.
  - destruct He as (Ho & Hp & Hlen). rewrite decode_sub_event by done.
    eexists _, _. split; [done|]. destruct Habs as [_ Hwd ???].
    split; [by split|]. unfold finish_subnegotiation. cbn [local_enabled set_sub
      subnegotiation subnegotiation_option spec_event fst snd].
    rewrite (Hwd OPT_TERMINAL_TYPE) by (unfold byte, OPT_TERMINAL_TYPE; lia).
    rewrite (bool_decide_ext (Some o = Some OPT_TERMINAL_TYPE) (o = OPT_TERMINAL_TYPE)) by naive_solver.
    by destruct (_ && _).
Qed.

(** ** Properties *)


(** Decoding any bytes keeps the codec invariant (table sizes, the
    4096-byte bound on the subnegotiation buffer, only allowlisted options
    enabled, no allowlisted option refused) and never reaches an
    [unreachable!] arm; the only error is the bounded-buffer error, and it
    returns the parser to the data state. *)
Theorem decode_preserves_wf c bytes :
  wf c → Forall byte bytes →
  wf (decode c bytes).1 ∧
  ((∃ d, (decode c bytes).2 = Ok d) ∨
   (decode c bytes).2 = Err SubnegotiationTooLarge ∧ state (decode c bytes).1 = Data).
Proof.
  intros Hwf Hb. destruct (decode_spec c bytes Hwf Hb)
    as [(c' & d & rs & -> & Hr)|(c' & -> & ? & ?)]; simpl; [|by auto].
  split; [by eapply ro_wf|eauto].
Qed.

(** The bytes sent back are a sequence of well-formed replies that agree
    only to allowlisted options, and there are at most four of them for each
    byte received (plus a constant): a peer cannot make the client flood it. *)
Theorem decode_replies_bounded c bytes c' d :
  wf c → Forall byte bytes → decode c bytes = (c', Ok d) →
  (∃ rs, responses d = render_replies rs ∧ Forall reply_allowed rs) ∧
  zlen (responses d) ≤ 4 * zlen bytes + 20 ∧ sublist (data d) bytes.
Proof.
  intros Hwf Hb Hd. destruct (decode_spec c bytes Hwf Hb)
    as [(c1 & d1 & rs & E & [])|(c1 & E & ? & ?)]; rewrite Hd in E; simplify_eq.
  split; [by eauto|]. split; [|done].
  assert (potential c ≤ 20).
  { unfold potential. destruct (state c); lia. }
  pose proof (potential_nonneg c1). lia.
Qed.

(** An option the codec has refused is not refused again: no later input
    makes it answer [WONT] (or [DONT]) for that option, which is what breaks
    negotiation loops. *)
Theorem decode_refuses_once c bytes c' d o :
  wf c → Forall byte bytes → decode c bytes = (c', Ok d) → 0 ≤ o →
  ∃ rs, responses d = render_replies rs ∧
    (flag (local_refused c) o = true →
     flag (local_refused c') o = true ∧ RWont o ∉ rs) ∧
    (flag (remote_refused c) o = true →
     flag (remote_refused c') o = true ∧ RDont o ∉ rs).
Proof.
  intros Hwf Hb Hd Ho. destruct (decode_spec c bytes Hwf Hb)
    as [(c1 & d1 & rs & E & [])|(c1 & E & ? & ?)]; rewrite Hd in E; simplify_eq.
  exists rs. eauto.
Qed.

(** C16. The codec implements the RFC 854 option exchange: on the wire form of
    any sequence of peer events (data, option commands, subnegotiations within
    the bound) it delivers the data of the events and exactly the replies the
    set-based specification gives, in order, and its tables are the
    specification's sets afterwards. *)
Theorem decode_refines_spec c s evs :
  wf c → abs c s → Forall event_ok evs →
  ∃ c' d, decode c (concat (map render_event evs)) = (c', Ok d) ∧
    wf c' ∧ abs c' (spec_run s evs).1.1 ∧
    data d = (spec_run s evs).1.2 ∧ responses d = render_replies (spec_run s evs).2.
Proof.
  revert c s. induction evs as [|e evs IH]; intros c s Hwf Habs Hok.
  - exists c, decoded_default. done.
  - apply Forall_cons in Hok as [He Hok].
    destruct (decode_event_refines c s e Hwf Habs He) as (c1 & d1 & Hd1 & Habs1 & Hdat & Hresp).
    assert (wf c1) as Hwf1.
    { pose proof (decode_spec c (render_event e) Hwf (render_event_bytes e He)) as Hs.
      rewrite Hd1 in Hs. destruct Hs as [(? & ? & ? & [= <- <-] & [])|(? & ? & ?)]; done. }
    destruct (IH c1 _ Hwf1 Habs1 Hok) as (c2 & d2 & Hd2 & Hwf2 & Habs2 & Hdat2 & Hresp2).
    exists c2, (dapp d1 d2). simpl. rewrite decode_app, Hd1, Hd2.
    destruct (spec_event s e) as [[s1 dat1] rs1]; simpl in *.
    destruct (spec_run s1 evs) as [[s2 dat2] rs2]; simpl in *.
    rewrite render_replies_app. by rewrite Hdat, Hdat2, Hresp, Hresp2.
Qed.

(** What the user types arrives unchanged: decoding the escaped form of any
    bytes in the data state, whatever the codec's option tables, gives back the
    bytes with no reply and no state change. *)
Theorem user_input_roundtrip c bytes :
  state c = Data →
  decode c (encode_user_input bytes) = (c, Ok (mkDecoded bytes [] [])).
Proof.
  intros Hst. unfold encode_user_input. induction bytes as [|b bs IH]; [done|].
  rewrite append_escaped_cons, decode_app, decode_escaped_byte, IH by done. done.
Qed.

(** A window-size report is framed correctly for every size, also when a
    byte of it is 255: a receiver of [encode_naws rows cols] has collected
    exactly the four big-endian size bytes under option 31 when the end mark
    [SE] arrives, and [SE] returns it to the data state without data or
    replies. *)
Theorem naws_roundtrip c rows cols :
  state c = Data → 0 ≤ rows ≤ u16_max → 0 ≤ cols ≤ u16_max →
  ∃ frame, encode_naws rows cols = frame ++ [SE] ∧
    decode c frame =
      (set_state (set_sub c (Some OPT_NAWS)
         [cols / 256; cols mod 256; rows / 256; rows mod 256]) SubnegotiationIac,
       Ok decoded_default) ∧
    (cols / 256) * 256 + cols mod 256 = cols ∧ (rows / 256) * 256 + rows mod 256 = rows ∧
    decode c (encode_naws rows cols) = (set_sub c None [], Ok decoded_default).
Proof.
  intros Hst Hr Hc. 
  pose (p := [cols / 256; cols mod 256] ++ [rows / 256; rows mod 256]).
  assert (encode_naws rows cols = ([IAC; SB; OPT_NAWS] ++ append_escaped [] p) ++ [IAC; SE]) as He.
  { unfold encode_naws, u16_to_be_bytes, p. rewrite (fold_append_escaped (append_escaped _ _)).
    rewrite (fold_append_escaped [IAC; SB; OPT_NAWS]).
    rewrite append_escaped_app.
    by rewrite <- !app_assoc. }
  exists (([IAC; SB; OPT_NAWS] ++ append_escaped [] p) ++ [IAC]).
  split; [by rewrite He, <- !app_assoc|]. split; [|split; [|split]].
  - rewrite decode_app, decode_sub_open by done. done.
  - pose proof (Z.div_mod cols 256). lia.
  - pose proof (Z.div_mod rows 256). lia.
  - rewrite He. rewrite <- app_assoc. change (([IAC; SB; OPT_NAWS] ++ append_escaped [] p ++ [IAC; SE]))
      with (render_event (ESub OPT_NAWS p)).
    rewrite decode_sub_event by done. done.
Qed.

(** ** Witnesses *)

Lemma decode_preserves_wf_witness :
  wf (decode TelnetCodec_default [IAC; DO; OPT_NAWS; 104; IAC]).1 ∧
  state (decode TelnetCodec_default [IAC; DO; OPT_NAWS; 104; IAC]).1 = Iac.
Proof.
  split; [|reflexivity].
  apply (decode_preserves_wf TelnetCodec_default); [apply wf_default|].
  solve_bytes.
Defined.

Lemma decode_replies_bounded_witness :
  zlen (responses (mkDecoded [] [IAC; WILL; OPT_NAWS] [LocalNaws])) ≤ 4 * 3 + 20.
Proof.
  apply (decode_replies_bounded TelnetCodec_default [IAC; DO; OPT_NAWS]
    (decode TelnetCodec_default [IAC; DO; OPT_NAWS]).1); [apply wf_default| |reflexivity].
  solve_bytes.
Defined.

Lemma decode_refuses_once_witness :
  let c := (decode TelnetCodec_default [IAC; DO; 99]).1 in
  flag (local_refused c) 99 = true ∧
  flag (local_refused (decode c [IAC; DO; 99]).1) 99 = true.
Proof.
  intros c. split; [reflexivity|].
  assert (Hb : Forall byte [IAC; DO; 99])
    by solve_bytes.
  destruct (decode_refuses_once c [IAC; DO; 99] (decode c [IAC; DO; 99]).1 decoded_default 99)
    as (rs & _ & Hl & _); [|done|reflexivity|lia|].
  - by apply (decode_preserves_wf TelnetCodec_default); [apply wf_default|].
  - by apply Hl.
Defined.

Lemma abs_default : abs TelnetCodec_default (mkOpt ∅ ∅ ∅ ∅).
Proof.
  split; [done|..]; intros o _; simpl; rewrite flag_default; symmetry;
    apply bool_decide_eq_false; set_solver.
Qed.

Lemma decode_refines_spec_witness :
  ∃ c' d, decode TelnetCodec_default
      (concat (map render_event [ECommand DO OPT_TERMINAL_TYPE; EData 255;
                                 ESub OPT_TERMINAL_TYPE [TTYPE_SEND]])) = (c', Ok d) ∧
    data d = [255] ∧
    responses d = render_replies [RWill OPT_TERMINAL_TYPE; RTerminalType].
Proof.
  destruct (decode_refines_spec TelnetCodec_default (mkOpt ∅ ∅ ∅ ∅)
    [ECommand DO OPT_TERMINAL_TYPE; EData 255; ESub OPT_TERMINAL_TYPE [TTYPE_SEND]])
    as (c' & d & Hd & _ & _ & Hdat & Hresp).
  - apply wf_default.
  - apply abs_default.
  - rewrite !Forall_cons, Forall_nil. cbn [event_ok].
    unfold MAX_SUBNEGOTIATION_BYTES, zlen. simpl. repeat split; try solve_bytes.
  - exists c', d. split; [done|]. split; [rewrite Hdat; vm_compute; reflexivity|].
    rewrite Hresp. vm_compute. reflexivity.
Defined.

Lemma user_input_roundtrip_witness :
  decode TelnetCodec_default (encode_user_input [1; 255; 2]) =
    (TelnetCodec_default, Ok (mkDecoded [1; 255; 2] [] [])).
Proof. apply user_input_roundtrip. reflexivity. Defined.

Lemma naws_roundtrip_witness :
  encode_naws 24 255 = [IAC; SB; OPT_NAWS; 0; IAC; IAC; 0; 24; IAC; SE] ∧
  decode TelnetCodec_default (encode_naws 24 255) =
    (set_sub TelnetCodec_default None [], Ok decoded_default).
Proof.
  split; [reflexivity|].
  destruct (naws_roundtrip TelnetCodec_default 24 255) as (frame & _ & _ & _ & _ & H);
    [reflexivity|unfold u16_max; lia|unfold u16_max; lia|exact H].
Defined.

End Telnet.
