(* ===== verification/TelnetTransport.v ===== *)
(** * The Telnet connection (crates/telnet-runtime/src/transport.rs)

    [TelnetConnection] sits between the codec and a TCP stream. The stream and
    the resolver are outside the program: each asynchronous operation takes the
    outcome of every [await] it reaches as an argument (a script of read and
    write completions). An exhausted script means that the caller dropped the
    future at that [await], which is how the session actor cancels
    [next_event]; [socket] records what the peer received and what was read. *)

From S2P Require Import Prelude RustStr TelnetProtocol.
Import Telnet.

Module TelnetTransport.

(** ** Data *)

Definition DEFAULT_TELNET_PORT : Z := 23.
Definition DEFAULT_CONNECT_TIMEOUT : Z := 15.
Definition DEFAULT_IO_TIMEOUT : Z := 10.
Definition MAX_ADDRESS_BYTES : Z := 253.
Definition MAX_INPUT_BYTES : Z := 1024 * 1024.
Definition READ_BUFFER_BYTES : Z := 32 * 1024.

Record TelnetConnectConfig := mkConfig {
  cfg_address : list Z;
  cfg_port : Z;
  cfg_rows : Z;
  cfg_cols : Z;
  cleartext_risk_accepted : bool;
  connect_timeout : Z;
  cfg_io_timeout : Z;
}.

Definition direct (address : list Z) (rows cols : Z) : TelnetConnectConfig :=
  mkConfig address DEFAULT_TELNET_PORT rows cols false
    DEFAULT_CONNECT_TIMEOUT DEFAULT_IO_TIMEOUT.

Inductive TelnetEvent :=
| EvData (bytes : list Z)
| EvClosed.

Inductive TelnetRuntimeError :=
| CleartextRiskNotAccepted
| InvalidEndpoint
| InvalidTerminalSize
| InputTooLarge
| ResolveFailed
| ConnectTimeout
| ConnectFailed
| IoTimeout
| Io
| Protocol (e : ProtocolError)
| ConnectionClosed.

Record TelnetConnection := mkConn {
  codec : TelnetCodec;
  rows : Z;
  cols : Z;
  io_timeout : Z;
  pending_protocol_write : list Z;
  pending_protocol_offset : nat;
  pending_data : list (list Z);
  closed : bool;
}.

(** ** The stream, as seen from outside *)

Inductive segment :=
| SegProtocol (bytes : list Z)
| SegInput (bytes : list Z).

Record socket := mkSocket {
  sent : list segment;
  received : list (list Z);
}.

Definition send (s : socket) (g : segment) : socket :=
  mkSocket (sent s ++ [g]) (received s).
Definition receive (s : socket) (bytes : list Z) : socket :=
  mkSocket (sent s) (received s ++ [bytes]).

(** Completion of one [write], [read], [write_all] or [shutdown]. A [write]
    that completes with [n] has passed the first [n] bytes on. *)
Inductive write_outcome := WTimeout | WError | WCount (n : nat).
Inductive read_outcome := RError | RBytes (bytes : list Z).
Inductive write_all_outcome :=
| WaOk
| WaTimeout (n : nat)
| WaError (n : nat)
| WaDropped (n : nat).
Inductive shutdown_outcome := SdOk | SdTimeout | SdError | SdDropped.
Inductive lookup_outcome := LkTimeout | LkError | LkAddresses (n : nat).
Inductive tcp_outcome := TcpTimeout | TcpError | TcpNoDelayError | TcpConnected.

(** How a call ended: with the function's result, or dropped while waiting. *)
Inductive call (A : Type) :=
| Done (r : rres TelnetRuntimeError A)
| Dropped.
Arguments Done {A} r.
Arguments Dropped {A}.

(** ** Operations *)

Definition validate_config (config : TelnetConnectConfig) : rres TelnetRuntimeError unit :=
  let address := trim (cfg_address config) in
  if negb (cleartext_risk_accepted config) then Err CleartextRiskNotAccepted
  else if bool_decide (address = []) || (MAX_ADDRESS_BYTES <? str_len address)
       || existsb is_control address || (cfg_port config =? 0)
  then Err InvalidEndpoint
  else if (cfg_rows config =? 0) || (cfg_cols config =? 0) then Err InvalidTerminalSize
  else Ok tt.

Definition connect (config : TelnetConnectConfig) (lk : lookup_outcome)
    (tcp : tcp_outcome) : rres TelnetRuntimeError TelnetConnection :=
  let? _ := validate_config config in
  match lk with
  | LkTimeout => Err ConnectTimeout
  | LkError => Err ResolveFailed
  | LkAddresses O => Err ResolveFailed
  | LkAddresses (S _) =>
      match tcp with
      | TcpTimeout => Err ConnectTimeout
      | TcpError => Err ConnectFailed
      | TcpNoDelayError => Err ConnectFailed
      | TcpConnected =>
          Ok (mkConn TelnetCodec_default (cfg_rows config) (cfg_cols config)
                (cfg_io_timeout config) [] 0 [] false)
      end
  end.

Definition ensure_open (c : TelnetConnection) : rres TelnetRuntimeError unit :=
  if closed c then Err ConnectionClosed else Ok tt.

Definition set_write (c : TelnetConnection) (w : list Z) (o : nat) : TelnetConnection :=
  mkConn (codec c) (rows c) (cols c) (io_timeout c) w o (pending_data c) (closed c).
Definition set_codec (c : TelnetConnection) (k : TelnetCodec) : TelnetConnection :=
  mkConn k (rows c) (cols c) (io_timeout c) (pending_protocol_write c)
    (pending_protocol_offset c) (pending_data c) (closed c).
Definition set_data (c : TelnetConnection) (d : list (list Z)) : TelnetConnection :=
  mkConn (codec c) (rows c) (cols c) (io_timeout c) (pending_protocol_write c)
    (pending_protocol_offset c) d (closed c).
Definition set_size (c : TelnetConnection) (r k : Z) : TelnetConnection :=
  mkConn (codec c) r k (io_timeout c) (pending_protocol_write c)
    (pending_protocol_offset c) (pending_data c) (closed c).
Definition set_closed (c : TelnetConnection) : TelnetConnection :=
  mkConn (codec c) (rows c) (cols c) (io_timeout c) (pending_protocol_write c)
    (pending_protocol_offset c) (pending_data c) true.

(** The [while] loop over the write completions. *)
Fixpoint flush_protocol_write (ws : list write_outcome) (c : TelnetConnection)
    (s : socket) : TelnetConnection * socket * list write_outcome * call unit :=
  if (pending_protocol_offset c <? length (pending_protocol_write c))%nat then
    match ws with
    | [] => (c, s, [], Dropped)
    | WTimeout :: ws' => (c, s, ws', Done (Err IoTimeout))
    | WError :: ws' => (c, s, ws', Done (Err Io))
    | WCount n :: ws' =>
        let rest := drop (pending_protocol_offset c) (pending_protocol_write c) in
        match n with
        | O => (c, s, ws', Done (Err Io))
        | S _ =>
            flush_protocol_write ws'
              (set_write c (pending_protocol_write c) (pending_protocol_offset c + n))
              (send s (SegProtocol (take n rest)))
        end
    end
  else (set_write c [] 0, s, ws, Done (Ok tt)).

Definition write_all_within (seg : list Z → segment) (bytes : list Z)
    (o : write_all_outcome) (s : socket) : socket * call unit :=
  match o with
  | WaOk => (send s (seg bytes), Done (Ok tt))
  | WaTimeout n => (send s (seg (take n bytes)), Done (Err IoTimeout))
  | WaError n => (send s (seg (take n bytes)), Done (Err Io))
  | WaDropped n => (send s (seg (take n bytes)), Dropped)
  end.

Definition send_input (bytes : list Z) (ws : list write_outcome)
    (wa : write_all_outcome) (c : TelnetConnection) (s : socket) :
    TelnetConnection * socket * call unit :=
  match ensure_open c with
  | Ok _ =>
      if MAX_INPUT_BYTES <? zlen bytes then (c, s, Done (Err InputTooLarge))
      else
        match flush_protocol_write ws c s with
        | (c', s', _, Done (Ok _)) =>
            let '(s'', r) := write_all_within SegInput (encode_user_input bytes) wa s' in
            (c', s'', r)
        | (c', s', _, r) => (c', s', r)
        end
  | Err e => (c, s, Done (Err e))
  | Panic => (c, s, Done Panic)
  end.

Definition resize (r k : Z) (ws : list write_outcome) (wa : write_all_outcome)
    (c : TelnetConnection) (s : socket) : TelnetConnection * socket * call unit :=
  match ensure_open c with
  | Ok _ =>
      if (r =? 0) || (k =? 0) then (c, s, Done (Err InvalidTerminalSize))
      else
        match flush_protocol_write ws (set_size c r k) s with
        | (c', s', _, Done (Ok _)) =>
            if local_naws_enabled (codec c') then
              let '(s'', res) := write_all_within SegInput (encode_naws r k) wa s' in
              (c', s'', res)
            else (c', s', Done (Ok tt))
        | (c', s', _, res) => (c', s', res)
        end
  | Err e => (c, s, Done (Err e))
  | Panic => (c, s, Done Panic)
  end.

(** The middle of the loop body of [next_event]: one decoded read is persisted
    in the connection before the flush. *)
Definition after_read (c : TelnetConnection) (k : TelnetCodec) (d : DecodeResult) :
    TelnetConnection :=
  let c1 := set_codec c k in
  let w1 := if bool_decide (responses d = []) then pending_protocol_write c1
            else pending_protocol_write c1 ++ responses d in
  let w2 := if bool_decide (LocalNaws ∈ enabled d)
            then w1 ++ encode_naws (rows c1) (cols c1) else w1 in
  let c2 := set_write c1 w2 (pending_protocol_offset c1) in
  if bool_decide (data d = []) then c2
  else set_data c2 (pending_data c2 ++ [data d]).

(** The loop of [next_event]: one iteration for each read completion. *)
Fixpoint read_loop (rs : list read_outcome) (ws : list write_outcome)
    (c : TelnetConnection) (s : socket) :
    TelnetConnection * socket * call TelnetEvent :=
  match rs with
  | [] => (c, s, Dropped)
  | RError :: _ => (c, s, Done (Err Io))
  | RBytes bytes :: rs' =>
      match bytes with
      | [] => (set_closed c, s, Done (Ok EvClosed))
      | _ :: _ =>
          let s1 := receive s bytes in
          match decode (codec c) bytes with
          | (k, Ok d) =>
              match flush_protocol_write ws (after_read c k d) s1 with
              | (c4, s4, ws', Done (Ok _)) =>
                  match pending_data c4 with
                  | bs :: q => (set_data c4 q, s4, Done (Ok (EvData bs)))
                  | [] => read_loop rs' ws' c4 s4
                  end
              | (c4, s4, _, Done (Err e)) => (c4, s4, Done (Err e))
              | (c4, s4, _, Done Panic) => (c4, s4, Done Panic)
              | (c4, s4, _, Dropped) => (c4, s4, Dropped)
              end
          | (k, Err e) => (set_codec c k, s1, Done (Err (Protocol e)))
          | (k, Panic) => (set_codec c k, s1, Done Panic)
          end
      end
  end.

Definition next_event (rs : list read_outcome) (ws : list write_outcome)
    (c : TelnetConnection) (s : socket) :
    TelnetConnection * socket * call TelnetEvent :=
  match ensure_open c with
  | Ok _ =>
      match flush_protocol_write ws c s with
      | (c', s', ws', Done (Ok _)) =>
          match pending_data c' with
          | bs :: q => (set_data c' q, s', Done (Ok (EvData bs)))
          | [] => read_loop rs ws' c' s'
          end
      | (c', s', _, Done (Err e)) => (c', s', Done (Err e))
      | (c', s', _, Done Panic) => (c', s', Done Panic)
      | (c', s', _, Dropped) => (c', s', Dropped)
      end
  | Err e => (c, s, Done (Err e))
  | Panic => (c, s, Done Panic)
  end.

(** [disconnect] consumes the connection. *)
Definition disconnect (c : TelnetConnection) (o : shutdown_outcome) : call unit :=
  if closed c then Done (Ok tt)
  else
    match o with
    | SdOk => Done (Ok tt)
    | SdTimeout => Done (Err IoTimeout)
    | SdError => Done (Err Io)
    | SdDropped => Dropped
    end.

(** ** Reference definitions *)

(** The protocol bytes still to be written. *)
Definition unsent (c : TelnetConnection) : list Z :=
  drop (pending_protocol_offset c) (pending_protocol_write c).

Definition queued (c : TelnetConnection) : list Z := concat (pending_data c).

Definition protocol_bytes (l : list segment) : list Z :=
  concat (map (λ g, match g with SegProtocol b => b | SegInput _ => [] end) l).

Definition delivered (r : call TelnetEvent) : list Z :=
  match r with Done (Ok (EvData b)) => b | _ => [] end.

(** What a sequence of reads is worth at a given window size: the codec after
    them, the bytes owed to the peer and the terminal data. A read that breaks
    the subnegotiation bound contributes nothing itself. *)
Definition owed (r k : Z) (d : DecodeResult) : list Z :=
  responses d ++ (if bool_decide (LocalNaws ∈ enabled d) then encode_naws r k else []).

Fixpoint reads_worth (cd : TelnetCodec) (r k : Z) (chunks : list (list Z)) :
    TelnetCodec * list Z * list Z :=
  match chunks with
  | [] => (cd, [], [])
  | chunk :: rest =>
      match decode cd chunk with
      | (cd', Ok d) =>
          let '(cd'', o, dat) := reads_worth cd' r k rest in
          (cd'', owed r k d ++ o, data d ++ dat)
      | (cd', _) => reads_worth cd' r k rest
      end
  end.

(** A session: any sequence of calls on one connection, each with any
    completions, cancelled or not. The ghost totals follow what was received. *)
Inductive op :=
| ONext (rs : list read_outcome) (ws : list write_outcome)
| OInput (bytes : list Z) (ws : list write_outcome) (wa : write_all_outcome)
| OResize (r k : Z) (ws : list write_outcome) (wa : write_all_outcome).

Record session := mkSession {
  s_conn : TelnetConnection;
  s_socket : socket;
  total_owed : list Z;
  total_data : list Z;
  total_delivered : list Z;
}.

Definition run_op (x : session) (o : op) : session :=
  let c := s_conn x in
  let s := s_socket x in
  match o with
  | ONext rs ws =>
      let '(c', s', r) := next_event rs ws c s in
      let new := drop (length (received s)) (received s') in
      let '(_, ow, dat) := reads_worth (codec c) (rows c) (cols c) new in
      mkSession c' s' (total_owed x ++ ow) (total_data x ++ dat)
        (total_delivered x ++ delivered r)
  | OInput bytes ws wa =>
      let '(c', s', _) := send_input bytes ws wa c s in
      mkSession c' s' (total_owed x) (total_data x) (total_delivered x)
  | OResize r k ws wa =>
      let '(c', s', _) := resize r k ws wa c s in
      mkSession c' s' (total_owed x) (total_data x) (total_delivered x)
  end.

Definition run_session (c : TelnetConnection) (ops : list op) : session :=
  fold_left run_op ops (mkSession c (mkSocket [] []) [] [] []).

(** ** Lemmas *)

Definition inv (c : TelnetConnection) : Prop :=
  (pending_protocol_offset c ≤ length (pending_protocol_write c))%nat.

(** [c'] differs from [c] only in the protocol write buffer. *)
Definition same_but_write (c c' : TelnetConnection) : Prop :=
  c' = set_write c (pending_protocol_write c') (pending_protocol_offset c').

Record flushed (c : TelnetConnection) (s : socket) (c' : TelnetConnection)
    (s' : socket) (r : call unit) : Prop := {
  fl_same : same_but_write c c';
  fl_inv : inv c';
  fl_received : received s' = received s;
  fl_sent : ∃ segs, sent s' = sent s ++ map SegProtocol segs ∧
    unsent c = concat segs ++ unsent c';
  fl_done : r = Done (Ok tt) → unsent c' = [];
  fl_panic : r ≠ Done Panic;
}.

Lemma flushed_stuck c s r :
  (pending_protocol_offset c < length (pending_protocol_write c))%nat →
  r ≠ Done (Ok tt) → r ≠ Done Panic → flushed c s c s r.
Proof.
  intros Hlt Hr Hp. split; try done.
  - by destruct c.
  - unfold inv. lia.
  - exists []. by rewrite app_nil_r.
Qed.

Lemma flushed_step c s n r c' s' :
  flushed (set_write c (pending_protocol_write c) (pending_protocol_offset c + n))
    (send s (SegProtocol (take n (unsent c)))) c' s' r →
  flushed c s c' s' r.
Proof.
  intros [Hsame Hinv Hrec (segs & Hsent & Hun) Hdone Hp]. split; auto.
  exists (take n (unsent c) :: segs). simpl in *. rewrite Hsent. unfold send. simpl.
  split; [by rewrite <- app_assoc|].
  rewrite <- app_assoc, <- Hun. unfold unsent at 3. simpl.
  rewrite <- drop_drop. by rewrite take_drop.
Qed.

Lemma flush_spec ws c s c' s' ws' r :
  flush_protocol_write ws c s = (c', s', ws', r) → flushed c s c' s' r.
Proof.
  revert c s. induction ws as [|w ws IH]; intros c s H; cbn [flush_protocol_write] in H.
  all: destruct (Nat.ltb_spec (pending_protocol_offset c) (length (pending_protocol_write c)));
    [|simplify_eq; split; try done; [unfold inv; simpl; lia|exists []; simpl; rewrite app_nil_r;
      split; [done|]; unfold unsent; simpl; rewrite drop_ge by lia; done]].
  - simplify_eq. by apply flushed_stuck.
  - destruct w as [| |[|n]]; try (simplify_eq; by apply flushed_stuck).
    by apply (flushed_step c s (S n)), IH.
Qed.

(** What one [next_event] does with the bytes: everything read is accounted
    for, as bytes sent or still owed to the peer and as data delivered or
    queued. *)
Record conserved (c : TelnetConnection) (s : socket) (c' : TelnetConnection)
    (s' : socket) (res : call TelnetEvent) : Prop := {
  cs_inv : inv c';
  cs_rows : rows c' = rows c;
  cs_cols : cols c' = cols c;
  cs_sum : ∃ chunks segs, received s' = received s ++ chunks ∧
    sent s' = sent s ++ map SegProtocol segs ∧
    ∃ o dat, reads_worth (codec c) (rows c) (cols c) chunks = (codec c', o, dat) ∧
      unsent c ++ o = concat segs ++ unsent c' ∧
      queued c ++ dat = delivered res ++ queued c';
}.

(** No read happened, a flush may have. *)
Lemma conserved_flush c s c' s' r res :
  flushed c s c' s' r → delivered res = [] → conserved c s c' s' res.
Proof.
  intros [Hsame Hinv Hrec (segs & Hsent & Hun) _ _] Hres.
  rewrite Hsame. rewrite Hsame in Hinv, Hun. split; simpl; auto.
  exists [], segs. rewrite Hrec, app_nil_r. split; [done|]. split; [done|].
  exists [], []. rewrite Hres, !app_nil_r. done.
Qed.

Lemma conserved_deliver c s c' s' b q :
  flushed c s c' s' (Done (Ok tt)) → pending_data c' = b :: q →
  conserved c s (set_data c' q) s' (Done (Ok (EvData b))).
Proof.
  intros [Hsame Hinv Hrec (segs & Hsent & Hun) _ _] Hq.
  assert (pending_data c = b :: q) as Hq0 by (rewrite Hsame in Hq; done).
  rewrite Hsame. rewrite Hsame in Hinv, Hun. split; simpl; auto.
  exists [], segs. rewrite Hrec, app_nil_r. split; [done|]. split; [done|].
  exists [], []. rewrite !app_nil_r. split; [done|]. split; [done|].
  unfold queued. simpl. by rewrite Hq0.
Qed.

(** A read whose bytes decode, followed by the rest of the call. *)
Lemma conserved_read c s bytes k d c3 c' s' res :
  decode (codec c) bytes = (k, Ok d) → inv c →
  codec c3 = k → rows c3 = rows c → cols c3 = cols c →
  unsent c3 = unsent c ++ owed (rows c) (cols c) d →
  queued c3 = queued c ++ data d →
  conserved c3 (receive s bytes) c' s' res → conserved c s c' s' res.
Proof.
  intros Hd Hinv Hk Hr Hc Hu Hq [? Hr' Hc' (chunks & segs & Hrec & Hsent & o & dat & Hw & Ho & Hdat)].
  split; [done|congruence|congruence|].
  exists (bytes :: chunks), segs. simpl. rewrite Hd. rewrite Hrec, Hsent. simpl.
  split; [by rewrite <- app_assoc|]. split; [done|].
  rewrite <- Hk, <- Hr, <- Hc, Hw. eexists _, _. split; [done|].
  rewrite Hr, Hc, !app_assoc, <- Hu, <- Hq. done.
Qed.

Lemma unsent_append c w : inv c →
  unsent (set_write c (pending_protocol_write c ++ w) (pending_protocol_offset c)) = unsent c ++ w.
Proof. intros H. unfold unsent. simpl. by rewrite drop_app_le. Qed.

Lemma after_read_spec c k d :
  inv c →
  codec (after_read c k d) = k ∧ rows (after_read c k d) = rows c ∧
  cols (after_read c k d) = cols c ∧ inv (after_read c k d) ∧
  unsent (after_read c k d) = unsent c ++ owed (rows c) (cols c) d ∧
  queued (after_read c k d) = queued c ++ data d.
Proof.
  intros Hinv. unfold after_read, owed, inv, unsent, queued in *. cbn zeta.
  assert (∃ w2, (if bool_decide (LocalNaws ∈ enabled d)
      then (if bool_decide (responses d = []) then pending_protocol_write c
            else pending_protocol_write c ++ responses d) ++ encode_naws (rows c) (cols c)
      else if bool_decide (responses d = []) then pending_protocol_write c
           else pending_protocol_write c ++ responses d) = pending_protocol_write c ++ w2 ∧
      w2 = responses d ++ (if bool_decide (LocalNaws ∈ enabled d)
                           then encode_naws (rows c) (cols c) else [])) as (w2 & Hw & Hw2).
  { eexists. split; [|done]. destruct (bool_decide_reflect (responses d = [])) as [->|];
      destruct (bool_decide (LocalNaws ∈ enabled d)); by rewrite ?app_nil_r, <- ?app_assoc. }
  cbn [set_codec pending_protocol_write rows cols] in *. rewrite Hw, <- Hw2.
  destruct (bool_decide_reflect (data d = [])) as [->|]; simpl;
    rewrite ?length_app, ?concat_app; simpl; rewrite ?app_nil_r, drop_app_le by done;
    repeat split; try done; lia.
Qed.

Lemma conserved_fail c s bytes k e res :
  decode (codec c) bytes = (k, e) → (∀ d, e ≠ Ok d) → inv c → delivered res = [] →
  conserved c s (set_codec c k) (receive s bytes) res.
Proof.
  intros Hd He Hinv Hres. split; simpl; auto.
  exists [bytes], []. rewrite app_nil_r. split; [done|]. split; [done|].
  exists [], []. simpl. rewrite Hd, Hres, !app_nil_r. split; [|done].
  destruct e; [by edestruct He|done|done].
Qed.

Lemma conserved_idle c s c' res :
  inv c → codec c' = codec c → rows c' = rows c → cols c' = cols c →
  unsent c' = unsent c → queued c' = queued c → inv c' → delivered res = [] →
  conserved c s c' s res.
Proof.
  intros ? Hk Hr Hc Hu Hq ? Hres. split; auto. exists [], []. rewrite !app_nil_r.
  split; [done|]. split; [done|]. exists [], []. simpl.
  by rewrite Hk, Hu, Hq, Hres, !app_nil_r.
Qed.

Lemma conserved_after_flush c s c1 s1 r c' s' res :
  flushed c s c1 s1 r → conserved c1 s1 c' s' res → conserved c s c' s' res.
Proof.
  intros [Hsame Hinv Hrec (segs1 & Hsent1 & Hun1) _ _]
    [? Hr Hc (chunks & segs & Hrec' & Hsent & o & dat & Hw & Ho & Hdat)].
  assert (codec c1 = codec c ∧ rows c1 = rows c ∧ cols c1 = cols c ∧ queued c1 = queued c)
    as (Hk & Hr1 & Hc1 & Hq) by (rewrite Hsame; done).
  split; [done|congruence|congruence|].
  exists chunks, (segs1 ++ segs). rewrite Hrec', Hrec, Hsent, Hsent1, map_app, concat_app.
  split; [done|]. split; [by rewrite app_assoc|]. exists o, dat.
  rewrite <- Hk, <- Hr1, <- Hc1, <- Hq. split; [done|]. split; [|done].
  by rewrite Hun1, <- !app_assoc, Ho.
Qed.

Lemma read_loop_spec rs ws c s c' s' res :
  inv c → read_loop rs ws c s = (c', s', res) → conserved c s c' s' res.
Proof.
  revert ws c s. induction rs as [|[|[|b bytes]] rs IH]; intros ws c s Hinv H;
    cbn [read_loop] in H; try (simplify_eq; by apply conserved_idle).
  destruct (decode (codec c) (b :: bytes)) as [k [d|e|]] eqn:Hd;
    [|simplify_eq; by eapply conserved_fail..].
  destruct (after_read_spec c k d Hinv) as (Hk & Hr & Hc & Hi & Hu & Hq).
  destruct (flush_protocol_write ws (after_read c k d) (receive s (b :: bytes)))
    as [[[c4 s4] ws'] r4] eqn:Hf.
  pose proof (flush_spec _ _ _ _ _ _ _ Hf) as Hfl.
  eapply (conserved_read c s (b :: bytes) k d (after_read c k d)); eauto.
  destruct r4 as [[[]|e|]|]; [|simplify_eq; by eapply conserved_flush..].
  destruct (pending_data c4) as [|q qs] eqn:Hq4;
    [|simplify_eq; by eapply conserved_deliver].
  eapply conserved_after_flush; [done|]. by eapply IH; [apply Hfl|].
Qed.

Lemma next_event_spec rs ws c s c' s' res :
  inv c → next_event rs ws c s = (c', s', res) → conserved c s c' s' res.
Proof.
  intros Hinv H. unfold next_event, ensure_open in H.
  destruct (closed c); [simplify_eq; by apply conserved_idle|].
  destruct (flush_protocol_write ws c s) as [[[c1 s1] ws'] r] eqn:Hf.
  pose proof (flush_spec _ _ _ _ _ _ _ Hf) as Hfl.
  destruct r as [[[]|e|]|]; [|simplify_eq; by eapply conserved_flush..].
  destruct (pending_data c1) as [|q qs] eqn:Hq;
    [|simplify_eq; by eapply conserved_deliver].
  eapply conserved_after_flush; [done|]. by eapply read_loop_spec; [apply Hfl|].
Qed.

Lemma protocol_bytes_app l1 l2 :
  protocol_bytes (l1 ++ l2) = protocol_bytes l1 ++ protocol_bytes l2.
Proof. unfold protocol_bytes. by rewrite map_app, concat_app. Qed.

Lemma protocol_bytes_map segs : protocol_bytes (map SegProtocol segs) = concat segs.
Proof. unfold protocol_bytes. by rewrite map_map, map_id. Qed.

(** The operations that only write: protocol bytes first, then the frame. *)
Record wrote (c : TelnetConnection) (s : socket) (c' : TelnetConnection)
    (s' : socket) : Prop := {
  wr_inv : inv c';
  wr_codec : codec c' = codec c;
  wr_queued : queued c' = queued c;
  wr_received : received s' = received s;
  wr_sent : ∃ segs frames, sent s' = sent s ++ map SegProtocol segs ++ map SegInput frames ∧
    unsent c = concat segs ++ unsent c' ∧ (frames = [] ∨ unsent c' = []);
}.

Lemma wrote_nothing c s : inv c → wrote c s c s.
Proof. intros. split; auto. exists [], []. rewrite app_nil_r. auto. Qed.

Lemma wrote_flush c r k s c' s' res :
  flushed (set_size c r k) s c' s' res → wrote c s c' s'.
Proof.
  intros [Hsame Hinv Hrec (segs & Hsent & Hun) _ _]. split; auto;
    try (rewrite Hsame; done).
  exists segs, []. rewrite app_nil_r. auto.
Qed.

Lemma wrote_frame c r k s c1 s1 bytes wa s' res :
  flushed (set_size c r k) s c1 s1 (Done (Ok tt)) →
  write_all_within SegInput bytes wa s1 = (s', res) → wrote c s c1 s'.
Proof.
  intros [Hsame Hinv Hrec (segs & Hsent & Hun) Hdone _] Hw.
  assert (∃ b, s' = send s1 (SegInput b)) as [b ->].
  { destruct wa; simpl in Hw; simplify_eq; eauto. }
  split; auto; try (rewrite Hsame; done).
  exists segs, [b]. simpl. rewrite Hsent, <- app_assoc. auto.
Qed.

Lemma set_size_id c : set_size c (rows c) (cols c) = c.
Proof. by destruct c. Qed.

Lemma send_input_spec bytes ws wa c s c' s' r :
  inv c → send_input bytes ws wa c s = (c', s', r) → wrote c s c' s'.
Proof.
  intros Hinv H. unfold send_input, ensure_open in H.
  destruct (closed c); [simplify_eq; by apply wrote_nothing|].
  destruct (MAX_INPUT_BYTES <? zlen bytes); [simplify_eq; by apply wrote_nothing|].
  destruct (flush_protocol_write ws c s) as [[[c1 s1] ws'] r1] eqn:Hf.
  pose proof (flush_spec _ _ _ _ _ _ _ Hf) as Hfl. rewrite <- (set_size_id c) in Hfl.
  destruct r1 as [[[]|e|]|]; [|simplify_eq; by eapply wrote_flush..].
  destruct (write_all_within _ _ _ _) eqn:Hw. simplify_eq. by eapply wrote_frame.
Qed.

Lemma resize_spec rr k ws wa c s c' s' r :
  inv c → resize rr k ws wa c s = (c', s', r) → wrote c s c' s'.
Proof.
  intros Hinv H. unfold resize, ensure_open in H.
  destruct (closed c); [simplify_eq; by apply wrote_nothing|].
  destruct (_ || _); [simplify_eq; by apply wrote_nothing|].
  destruct (flush_protocol_write ws _ s) as [[[c1 s1] ws'] r1] eqn:Hf.
  pose proof (flush_spec _ _ _ _ _ _ _ Hf) as Hfl.
  destruct r1 as [[[]|e|]|]; [|simplify_eq; by eapply wrote_flush..].
  destruct (local_naws_enabled _); [|simplify_eq; by eapply wrote_flush].
  destruct (write_all_within _ _ _ _) eqn:Hw. simplify_eq. by eapply wrote_frame.
Qed.

Lemma reads_worth_app cd r k l1 l2 :
  reads_worth cd r k (l1 ++ l2) =
  let '(cd1, o1, d1) := reads_worth cd r k l1 in
  let '(cd2, o2, d2) := reads_worth cd1 r k l2 in
  (cd2, o1 ++ o2, d1 ++ d2).
Proof.
  revert cd. induction l1 as [|x l1 IH]; intros cd; simpl.
  - by destruct (reads_worth cd r k l2) as [[]].
  - destruct (decode cd x) as [cd' [d| |]]; rewrite ?IH; try done.
    destruct (reads_worth cd' r k l1) as [[cd1 o1] d1].
    destruct (reads_worth cd1 r k l2) as [[cd2 o2] d2]. by rewrite !app_assoc.
Qed.

(** The window size only matters for what is owed to the peer. *)
Lemma reads_worth_size cd r k r' k' l :
  (reads_worth cd r k l).1.1 = (reads_worth cd r' k' l).1.1 ∧
  (reads_worth cd r k l).2 = (reads_worth cd r' k' l).2.
Proof.
  revert cd. induction l as [|x l IH]; intros cd; simpl; [done|].
  destruct (decode cd x) as [cd' [d| |]]; auto. destruct (IH cd') as [H1 H2].
  destruct (reads_worth cd' r k l) as [[]], (reads_worth cd' r' k' l) as [[]].
  simpl in *. by rewrite H1, H2.
Qed.

Lemma reads_worth_more o0 s r k l cd o dat dt cd0 :
  reads_worth TelnetCodec_default 0 0 s = (cd0, o0, dt) →
  reads_worth cd0 r k l = (cd, o, dat) →
  ∃ o', reads_worth TelnetCodec_default 0 0 (s ++ l) = (cd, o', dt ++ dat).
Proof.
  intros H1 H2. rewrite reads_worth_app, H1.
  destruct (reads_worth_size cd0 r k 0 0 l) as [Hc Hd]. rewrite H2 in Hc, Hd. simpl in *.
  destruct (reads_worth cd0 0 0 l) as [[cd' o'] d']. simpl in *. subst. eauto.
Qed.

(** The session invariant: nothing owed is lost, duplicated or reordered. *)
Record session_ok (x : session) : Prop := {
  so_inv : inv (s_conn x);
  so_reads : ∃ o, reads_worth TelnetCodec_default 0 0 (received (s_socket x)) =
    (codec (s_conn x), o, total_data x);
  so_owed : protocol_bytes (sent (s_socket x)) ++ unsent (s_conn x) = total_owed x;
  so_data : total_delivered x ++ queued (s_conn x) = total_data x;
}.

Lemma wrote_protocol c s c' s' :
  wrote c s c' s' →
  protocol_bytes (sent s') ++ unsent c' = protocol_bytes (sent s) ++ unsent c.
Proof.
  intros [_ _ _ _ (segs & frames & -> & -> & _)].
  rewrite !protocol_bytes_app, protocol_bytes_map, <- !app_assoc. do 2 f_equal.
  unfold protocol_bytes. rewrite map_map. by induction frames.
Qed.

Lemma wrote_session_ok c s c' s' ow dt dl :
  session_ok (mkSession c s ow dt dl) → wrote c s c' s' →
  session_ok (mkSession c' s' ow dt dl).
Proof.
  intros [Hinv [o0 Hreads] How Hdt] Hw; simpl in *. split; simpl.
  - apply Hw.
  - rewrite (wr_received _ _ _ _ Hw), (wr_codec _ _ _ _ Hw). eauto.
  - by rewrite (wrote_protocol _ _ _ _ Hw).
  - by rewrite (wr_queued _ _ _ _ Hw).
Qed.

Lemma run_op_ok x o : session_ok x → session_ok (run_op x o).
Proof.
  destruct x as [c s ow dt dl]. intros Hok. pose proof Hok as [Hinv [o0 Hreads] How Hdt]; simpl in *.
  destruct o as [rs ws|bytes ws wa|r k ws wa]; simpl.
  - destruct (next_event rs ws c s) as [[c' s'] res] eqn:H.
    destruct (next_event_spec _ _ _ _ _ _ _ Hinv H)
      as [Hi _ _ (chunks & segs & Hrec & Hsent & o & dat & Hw & Ho & Hd)].
    rewrite Hrec, drop_app_length, Hw. split; simpl; auto.
    + rewrite Hrec. by eapply reads_worth_more.
    + by rewrite Hsent, protocol_bytes_app, protocol_bytes_map, <- app_assoc, <- Ho, app_assoc, How.
    + by rewrite <- app_assoc, <- Hd, app_assoc, Hdt.
  - destruct (send_input bytes ws wa c s) as [[c' s'] res] eqn:H.
    pose proof (send_input_spec _ _ _ _ _ _ _ _ Hinv H) as Hw.
    by apply wrote_session_ok with c s.
  - destruct (resize r k ws wa c s) as [[c' s'] res] eqn:H.
    pose proof (resize_spec _ _ _ _ _ _ _ _ _ Hinv H) as Hw.
    by apply wrote_session_ok with c s.
Qed.

(** ** Properties *)

(** C1. No byte of a session is lost, duplicated or reordered, however its
    calls are interleaved and wherever they are cancelled or fail: on a
    connection that [connect] returned, after any sequence of [next_event],
    [send_input] and [resize] calls with any completions, the terminal data
    delivered so far followed by the data queued is exactly the data decoded
    from what was received, and the protocol bytes written followed by the
    bytes still buffered are exactly the bytes owed to the peer. *)
Theorem session_conserves_bytes config lk tcp c ops :
  connect config lk tcp = Ok c →
  let x := run_session c ops in
  (∃ o, reads_worth TelnetCodec_default 0 0 (received (s_socket x)) =
     (codec (s_conn x), o, total_delivered x ++ queued (s_conn x))) ∧
  protocol_bytes (sent (s_socket x)) ++ unsent (s_conn x) = total_owed x.
Proof.
  intros Hc x.
  assert (session_ok x) as [_ [o Ho] Howed Hdata].
  { subst x. unfold run_session.
    assert (session_ok (mkSession c (mkSocket [] []) [] [] [])) as H0.
    { unfold connect in Hc. rinv Hc. destruct lk as [| |[|]]; [done..|].
      destruct tcp; try done. injection Hc as <-. split; simpl; eauto. unfold inv. simpl. lia. }
    revert H0. generalize (mkSession c (mkSocket [] []) [] [] []).
    induction ops as [|o ops IH]; simpl; [done|]. intros x Hx. by apply IH, run_op_ok. }
  split; [|done]. exists o. by rewrite Hdata.
Qed.

(** Flushing makes progress: if every write completes with at least one
    byte, as many completions as there are unsent bytes are enough for
    [flush_protocol_write] to return [Ok] with the buffer empty. *)
Theorem flush_completes ws c s :
  Forall (λ w, ∃ n, w = WCount (S n)) ws → (length (unsent c) ≤ length ws)%nat →
  ∃ s' ws', flush_protocol_write ws c s = (set_write c [] 0, s', ws', Done (Ok tt)).
Proof.
  revert c s. induction ws as [|w ws IH]; intros c s Hws Hlen; cbn [flush_protocol_write].
  all: destruct (Nat.ltb_spec (pending_protocol_offset c) (length (pending_protocol_write c)))
    as [Hlt|]; [|eauto]; unfold unsent in Hlen; rewrite length_drop in Hlen.
  - simpl in Hlen. lia.
  - apply Forall_cons in Hws as [[n ->] Hws]. simpl in Hlen.
    destruct (IH (set_write c (pending_protocol_write c) (pending_protocol_offset c + S n))
      (send s (SegProtocol (take (S n) (drop (pending_protocol_offset c) (pending_protocol_write c))))))
      as (s' & ws' & H); [done| |eauto].
    unfold unsent. rewrite length_drop. simpl. lia.
Qed.

(** User input is never written into the middle of a protocol reply: when
    [send_input] succeeds, every byte that was owed to the peer has been
    written before it, and what follows on the wire is the escaped input and
    nothing else. *)
Theorem send_input_after_replies bytes ws wa c s c' s' :
  send_input bytes ws wa c s = (c', s', Done (Ok tt)) →
  ∃ segs, sent s' = sent s ++ map SegProtocol segs ++ [SegInput (encode_user_input bytes)] ∧
    concat segs = unsent c ∧ unsent c' = [] ∧ zlen bytes ≤ MAX_INPUT_BYTES.
Proof.
  intros H. unfold send_input, ensure_open in H. destruct (closed c); [done|].
  destruct (Z.ltb_spec MAX_INPUT_BYTES (zlen bytes)) as [|Hlen]; [done|].
  destruct (flush_protocol_write ws c s) as [[[c1 s1] ws'] r1] eqn:Hf.
  destruct (flush_spec _ _ _ _ _ _ _ Hf) as [_ _ _ (segs & Hsent & Hun) Hdone _].
  destruct r1 as [[[]|e|]|]; try done.
  destruct wa; simpl in H; simplify_eq.
  exists segs. rewrite (Hdone eq_refl), app_nil_r in Hun. simpl.
  by rewrite Hsent, <- app_assoc, (Hdone eq_refl).
Qed.

(** ** Witnesses *)

Definition demo_config : TelnetConnectConfig :=
  mkConfig (lit "127.0.0.1") 23 24 80 true 15 10.

Lemma session_conserves_bytes_witness :
  ∃ c, connect demo_config (LkAddresses 1) TcpConnected = Ok c ∧
  let x := run_session c
    [ONext [RBytes [IAC; DO; OPT_NAWS; 104; 105]] [WCount 2];
     OInput [10] [WCount 5] WaOk;
     ONext [] [WCount 100]] in
  total_delivered x = [104; 105] ∧
  protocol_bytes (sent (s_socket x)) = [IAC; WILL; OPT_NAWS] ++ encode_naws 24 80 ∧
  protocol_bytes (sent (s_socket x)) ++ unsent (s_conn x) = total_owed x.
Proof.
  eexists. split; [reflexivity|]. split; [vm_compute; reflexivity|].
  split; [vm_compute; reflexivity|].
  apply (session_conserves_bytes demo_config (LkAddresses 1) TcpConnected). reflexivity.
Defined.

Definition demo_pending : TelnetConnection :=
  mkConn TelnetCodec_default 24 80 10 [IAC; WILL; OPT_NAWS] 1 [] false.

Lemma flush_completes_witness :
  ∃ s' ws', flush_protocol_write [WCount 1; WCount 1] demo_pending (mkSocket [] []) =
    (set_write demo_pending [] 0, s', ws', Done (Ok tt)).
Proof.
  apply flush_completes; [|simpl; lia]. repeat constructor; by eexists.
Defined.

Lemma send_input_after_replies_witness :
  ∃ segs, [SegProtocol [WILL; OPT_NAWS]; SegInput [IAC; IAC]] =
    [] ++ map SegProtocol segs ++ [SegInput (encode_user_input [IAC])] ∧
    concat segs = [WILL; OPT_NAWS].
Proof.
  destruct (send_input_after_replies [IAC] [WCount 9] WaOk demo_pending (mkSocket [] [])
    (set_write demo_pending [] 0)
    (mkSocket [SegProtocol [WILL; OPT_NAWS]; SegInput [IAC; IAC]] []))
    as (segs & H1 & H2 & _ & _); [vm_compute; reflexivity|].
  exists segs. split; [exact H1|exact H2].
Defined.

End TelnetTransport.
