(* ===== verification/ServerMetrics.v ===== *)
(** * The Linux metrics provider (crates/server-metrics/src/linux.rs)

    Parsers for the four sections of the metrics probe and the stateful
    provider that turns two samples into CPU usage and network rates. Inputs
    are byte lists; a [Duration] is its number of nanoseconds; counters are
    [u64], kept in range by the parsers and by checked arithmetic. *)

From Stdlib Require Import Sorting.Sorted.
From S2P Require Import Prelude RustStr BTree.

Module Metrics.

(** ** Data *)

Definition LINUX_PROVIDER_ID : string := "linux-procfs".
Definition LINUX_PROVIDER_VERSION : Z := 1.
Definition MAX_PROC_STAT_BYTES : Z := 4 * 1024.
Definition MAX_MEMINFO_BYTES : Z := 64 * 1024.
Definition MAX_NET_DEV_BYTES : Z := 64 * 1024.
Definition MAX_DF_BYTES : Z := 16 * 1024.
Definition MAX_PROC_STAT_LINES : Z := 2.
Definition MAX_MEMINFO_LINES : Z := 256.
Definition MAX_NET_DEV_LINES : Z := 128.
Definition MAX_DF_LINES : Z := 8.
Definition MAX_CPU_FIELDS : Z := 16.
Definition NETWORK_FIELD_COUNT : Z := 16.
Definition MAX_DF_FIELDS : Z := 32.
Definition MAX_INTERFACE_NAME_BYTES : Z := 64.
Definition MAX_FILESYSTEM_ID_BYTES : Z := 256.

Inductive LinuxMetricSource := ProcStat | ProcMeminfo | ProcNetDev | RootDisk.

Record LinuxRawSample := mkRaw {
  proc_stat : list Z;
  proc_meminfo : list Z;
  proc_net_dev : list Z;
  root_df : list Z;
}.

Inductive MetricUnavailableReason :=
| InitialBaseline
| CounterReset
| CounterSetChanged
| NoCounterProgress.

Inductive MetricValue (T : Type) :=
| Available (v : T)
| Unavailable (r : MetricUnavailableReason).
Arguments Available {T} v.
Arguments Unavailable {T} r.

Definition is_available {T} (v : MetricValue T) : bool :=
  match v with Available _ => true | Unavailable _ => false end.

Record CpuUsage := mkCpuUsage { basis_points : Z }.

Record MemoryUsage := mkMemory {
  mem_used_bytes : Z;
  mem_available_bytes : Z;
  mem_total_bytes : Z;
}.

Record NetworkRate := mkRate {
  receive_bytes_per_second : Z;
  transmit_bytes_per_second : Z;
}.

Record DiskUsage := mkDisk {
  filesystem_id : list Z;
  mount : list Z;
  disk_used_bytes : Z;
  disk_available_bytes : Z;
  disk_total_bytes : Z;
}.

Record LinuxMetricSample := mkSample {
  provider_id : string;
  provider_version : Z;
  sample_sampled_at : Z;
  cpu : MetricValue CpuUsage;
  memory : MemoryUsage;
  network : MetricValue NetworkRate;
  root_disk : DiskUsage;
}.

Inductive ParseError :=
| InputTooLarge (source : LinuxMetricSource) (max_bytes : Z)
| TooManyLines (source : LinuxMetricSource) (max_lines : Z)
| InvalidUtf8 (source : LinuxMetricSource)
| Malformed (source : LinuxMetricSource) (detail : string)
| DuplicateField (source : LinuxMetricSource) (field : string)
| MissingField (source : LinuxMetricSource) (field : string)
| InvalidNumber (source : LinuxMetricSource)
| ArithmeticOverflow
| NonMonotonicSampleTime.

(** [CpuCounters] holds an array of eight [u64]. *)
Record CpuCounters := mkCpu { fields : list Z }.

Record InterfaceCounters := mkIface { receive_bytes : Z; transmit_bytes : Z }.

Record Baseline := mkBaseline {
  sampled_at : Z;
  base_cpu : CpuCounters;
  base_network : list (list Z * InterfaceCounters);
}.

Record LinuxMetricsProvider := mkProvider { baseline : option Baseline }.

Definition new : LinuxMetricsProvider := mkProvider None.

#[global] Instance LinuxMetricSource_eq_dec : EqDecision LinuxMetricSource.
Proof. solve_decision. Defined.
#[global] Instance ParseError_eq_dec : EqDecision ParseError.
Proof. solve_decision. Defined.

(** ** Scalars and text *)

Definition malformed (source : LinuxMetricSource) (detail : string) : ParseError :=
  Malformed source detail.

Definition bounded_text (source : LinuxMetricSource) (input : list Z)
    (max_bytes max_lines : Z) : rres ParseError (list Z) :=
  if max_bytes <? zlen input then Err (InputTooLarge source max_bytes)
  else
    let? text := ok_or (from_utf8 input) (InvalidUtf8 source) in
    if max_lines <? zlen (lines text) then Err (TooManyLines source max_lines)
    else if existsb (λ b, is_ascii_control b && negb ((b =? 10) || (b =? 13) || (b =? 9)))
              (utf8_encode text)
    then Err (malformed source "output contains a control character")
    else Ok text.

Definition parse_u64 (source : LinuxMetricSource) (token : list Z) : rres ParseError Z :=
  if bool_decide (token = []) || negb (forallb is_ascii_digit (utf8_encode token))
  then Err (InvalidNumber source)
  else ok_or (parse_uint u64_max token) (InvalidNumber source).

Definition checked_sum (source : LinuxMetricSource) (values : list Z) : rres ParseError Z :=
  rfold (λ sum v, ok_or (checked_add u64_max sum v) (InvalidNumber source)) 0 values.

Definition kib_to_bytes (kib : Z) : rres ParseError Z :=
  ok_or (checked_mul u64_max kib 1024) ArithmeticOverflow.

(** [text.lines().filter(|line| !line.trim().is_empty())]. *)
Definition nonblank_lines (text : list Z) : list (list Z) :=
  List.filter (λ l, negb (bool_decide (trim l = []))) (lines text).

(** ** Parsers *)

Definition parse_proc_stat (input : list Z) : rres ParseError CpuCounters :=
  let? text := bounded_text ProcStat input MAX_PROC_STAT_BYTES MAX_PROC_STAT_LINES in
  match nonblank_lines text with
  | [] => Err (MissingField ProcStat "cpu")
  | _ :: _ :: _ => Err (malformed ProcStat "expected exactly one aggregate cpu line")
  | [line] =>
      match split_ascii_whitespace line with
      | [] => Err (malformed ProcStat "aggregate cpu line is missing")
      | first :: tokens =>
          if negb (bool_decide (first = lit "cpu"))
          then Err (malformed ProcStat "aggregate cpu line is missing")
          else
            let? values := rmap (parse_u64 ProcStat) tokens in
            if (zlen values <? 8) || (MAX_CPU_FIELDS <? zlen values)
            then Err (malformed ProcStat
                   "aggregate cpu field count is outside the provider contract")
            else
              let eight := take 8 values in
              if negb (zlen eight =? 8)
              then Err (malformed ProcStat "aggregate cpu fields are invalid")
              else
                let? _ := checked_sum ProcStat eight in
                Ok (mkCpu eight)
      end
  end.

(** One iteration of the loop of [parse_meminfo]; the state is
    [(total_kib, available_kib)]. *)
Definition meminfo_line (st : option Z * option Z) (line : list Z) :
    rres ParseError (option Z * option Z) :=
  let '(total_kib, available_kib) := st in
  match split_once 58 line with
  | None => Ok st
  | Some (key, value) =>
      let is_total := bool_decide (key = lit "MemTotal") in
      let is_available := bool_decide (key = lit "MemAvailable") in
      if negb (is_total || is_available) then Ok st
      else
        let destination := if is_total then total_kib else available_kib in
        match destination with
        | Some _ => Err (DuplicateField ProcMeminfo
                           (if is_total then "MemTotal" else "MemAvailable"))
        | None =>
            match split_ascii_whitespace value with
            | [] => Err (malformed ProcMeminfo "memory value is missing")
            | amount :: rest =>
                if negb (bool_decide (rest = [lit "kB"]))
                then Err (malformed ProcMeminfo "memory value must use the kB unit")
                else
                  let? n := parse_u64 ProcMeminfo amount in
                  Ok (if is_total then (Some n, available_kib) else (total_kib, Some n))
            end
        end
  end.

Definition parse_meminfo (input : list Z) : rres ParseError MemoryUsage :=
  let? text := bounded_text ProcMeminfo input MAX_MEMINFO_BYTES MAX_MEMINFO_LINES in
  let? st := rfold meminfo_line (None, None) (lines text) in
  let? total_kib := ok_or st.1 (MissingField ProcMeminfo "MemTotal") in
  let? available_kib := ok_or st.2 (MissingField ProcMeminfo "MemAvailable") in
  if (total_kib =? 0) || (total_kib <? available_kib)
  then Err (malformed ProcMeminfo "memory totals are inconsistent")
  else
    let? total_bytes := kib_to_bytes total_kib in
    let? available_bytes := kib_to_bytes available_kib in
    let? used_bytes := ok_or (checked_sub total_bytes available_bytes) ArithmeticOverflow in
    Ok (mkMemory used_bytes available_bytes total_bytes).

(** The state of the loop of [parse_net_dev]. *)
Record net_state := mkNet {
  interfaces : list (list Z * InterfaceCounters);
  header_lines : Z;
  data_lines : Z;
}.

Definition valid_interface_name (name : list Z) : bool :=
  negb (bool_decide (name = [])) && (str_len name <=? MAX_INTERFACE_NAME_BYTES)
  && forallb is_ascii_graphic (utf8_encode name).

Definition net_dev_line (st : net_state) (line : list Z) : rres ParseError net_state :=
  match split_once 58 line with
  | None =>
      if (0 <? data_lines st) || (header_lines st =? 2)
      then Err (malformed ProcNetDev "unexpected network header or data line")
      else Ok (mkNet (interfaces st) (header_lines st + 1) (data_lines st))
  | Some (raw_name, counters) =>
      if negb (header_lines st =? 2)
      then Err (malformed ProcNetDev "expected two network header lines")
      else
        let name := trim raw_name in
        if negb (valid_interface_name name)
        then Err (malformed ProcNetDev "network interface name is invalid")
        else
          let? values := rmap (parse_u64 ProcNetDev) (split_ascii_whitespace counters) in
          if negb (zlen values =? NETWORK_FIELD_COUNT)
          then Err (malformed ProcNetDev "network field count is invalid")
          else if bool_decide (name = lit "lo")
          then Ok (mkNet (interfaces st) (header_lines st) (data_lines st + 1))
          else
            match values !! 0%nat, values !! 8%nat with
            | Some rx, Some tx =>
                match bmap_get name (interfaces st) with
                | Some _ => Err (DuplicateField ProcNetDev "interface")
                | None =>
                    Ok (mkNet (bmap_insert name (mkIface rx tx) (interfaces st))
                          (header_lines st) (data_lines st + 1))
                end
            | _, _ => Panic
            end
  end.

Definition parse_net_dev (input : list Z) :
    rres ParseError (list (list Z * InterfaceCounters)) :=
  let? text := bounded_text ProcNetDev input MAX_NET_DEV_BYTES MAX_NET_DEV_LINES in
  let? st := rfold net_dev_line (mkNet [] 0 0) (nonblank_lines text) in
  if negb (header_lines st =? 2) || (data_lines st =? 0)
  then Err (malformed ProcNetDev "network headers or interface rows are missing")
  else Ok (interfaces st).

(** The row of [df]: the last five fields are fixed, what precedes them is the
    filesystem name. *)
Definition parse_df_row (row : list (list Z)) : rres ParseError DiskUsage :=
  if (zlen row <? 6) || (MAX_DF_FIELDS <? zlen row)
  then Err (malformed RootDisk
         "root filesystem field count is outside the provider contract")
  else
    match rev row with
    | mount_ :: capacity :: available :: used :: total :: name_rev =>
        let? available_kib := parse_u64 RootDisk available in
        let? reported_used_kib := parse_u64 RootDisk used in
        let? total_kib := parse_u64 RootDisk total in
        let fs := join (lit " ") (rev name_rev) in
        if negb (bool_decide (mount_ = lit "/"))
        then Err (malformed RootDisk "df row is not the controlled root mount")
        else if bool_decide (fs = []) || (MAX_FILESYSTEM_ID_BYTES <? str_len fs)
        then Err (malformed RootDisk "filesystem identifier is invalid")
        else
          let? capacity' := ok_or (strip_suffix 37 capacity)
                              (malformed RootDisk "capacity is invalid") in
          let? percent := parse_u64 RootDisk capacity' in
          if 100 <? percent
          then Err (malformed RootDisk "capacity is outside the supported range")
          else if (total_kib =? 0) || (total_kib <? available_kib)
                  || (total_kib <? reported_used_kib)
          then Err (malformed RootDisk "filesystem totals are inconsistent")
          else
            let? total_bytes := kib_to_bytes total_kib in
            let? available_bytes := kib_to_bytes available_kib in
            let? used_bytes :=
              ok_or (checked_sub total_bytes available_bytes) ArithmeticOverflow in
            Ok (mkDisk fs mount_ used_bytes available_bytes total_bytes)
    | _ => Panic
    end.

Definition parse_root_df (input : list Z) : rres ParseError DiskUsage :=
  let? text := bounded_text RootDisk input MAX_DF_BYTES MAX_DF_LINES in
  match nonblank_lines text with
  | [header; line] =>
      if negb (contains_str header (lit "1024-blocks"))
         || negb (contains_str header (lit "Available"))
         || negb (contains_str header (lit "Mounted"))
      then Err (malformed RootDisk "df header does not match the version 1 contract")
      else parse_df_row (split_ascii_whitespace line)
  | _ => Err (malformed RootDisk "expected one header and one root filesystem row")
  end.

(** ** Rates *)

Definition calculate_cpu (previous current : CpuCounters) :
    rres ParseError (MetricValue CpuUsage) :=
  if existsb (λ p, p.1 <? p.2) (combine (fields current) (fields previous))
  then Ok (Unavailable CounterReset)
  else
    let deltas := map (λ p, p.1 - p.2) (combine (fields current) (fields previous)) in
    let? total_delta := checked_sum ProcStat deltas in
    if total_delta =? 0 then Ok (Unavailable NoCounterProgress)
    else
      match deltas !! 3%nat, deltas !! 4%nat with
      | Some d3, Some d4 =>
          let? idle_delta := ok_or (checked_add u64_max d3 d4) ArithmeticOverflow in
          let? active_delta := ok_or (checked_sub total_delta idle_delta) ArithmeticOverflow in
          let? scaled := ok_or (checked_mul u128_max active_delta 10000) ArithmeticOverflow in
          let? bp := ok_or (try_from u16_max (scaled / total_delta)) ArithmeticOverflow in
          Ok (Available (mkCpuUsage bp))
      | _, _ => Panic
      end.

Definition rate_per_second (delta elapsed_nanos : Z) : rres ParseError Z :=
  if elapsed_nanos =? 0 then Err NonMonotonicSampleTime
  else
    let? scaled := ok_or (checked_mul u128_max delta 1000000000) ArithmeticOverflow in
    ok_or (try_from u64_max (scaled / elapsed_nanos)) ArithmeticOverflow.

(** The loop of [calculate_network]. [Ok (inl r)] is its early return of an
    unavailable value, [Ok (inr (rx, tx))] the deltas at its end. *)
Fixpoint network_deltas (previous : list (list Z * InterfaceCounters)) (rx tx : Z)
    (current : list (list Z * InterfaceCounters)) :
    rres ParseError (MetricUnavailableReason + (Z * Z)) :=
  match current with
  | [] => Ok (inr (rx, tx))
  | (name, cur) :: rest =>
      let? prev := ok_or (bmap_get name previous) ArithmeticOverflow in
      match checked_sub (receive_bytes cur) (receive_bytes prev) with
      | None => Ok (inl CounterReset)
      | Some drx =>
          match checked_sub (transmit_bytes cur) (transmit_bytes prev) with
          | None => Ok (inl CounterReset)
          | Some dtx =>
              let? rx' := ok_or (checked_add u64_max rx drx) ArithmeticOverflow in
              let? tx' := ok_or (checked_add u64_max tx dtx) ArithmeticOverflow in
              network_deltas previous rx' tx' rest
          end
      end
  end.

Definition calculate_network (previous current : list (list Z * InterfaceCounters))
    (elapsed : Z) : rres ParseError (MetricValue NetworkRate) :=
  if negb (bool_decide (bmap_keys previous = bmap_keys current))
  then Ok (Unavailable CounterSetChanged)
  else
    let? r := network_deltas previous 0 0 current in
    match r with
    | inl reason => Ok (Unavailable reason)
    | inr (rx, tx) =>
        let? rxr := rate_per_second rx elapsed in
        let? txr := rate_per_second tx elapsed in
        Ok (Available (mkRate rxr txr))
    end.

(** ** The provider *)

(** [sample] mutates the baseline only on its last step, so the new provider
    is the old one on every error. *)
Definition sample (p : LinuxMetricsProvider) (at_ : Z) (raw : LinuxRawSample) :
    LinuxMetricsProvider * rres ParseError LinuxMetricSample :=
  let r :=
    let? cpu_counters := parse_proc_stat (proc_stat raw) in
    let? mem := parse_meminfo (proc_meminfo raw) in
    let? network_counters := parse_net_dev (proc_net_dev raw) in
    let? disk := parse_root_df (root_df raw) in
    let? (c, n) :=
      match baseline p with
      | Some previous =>
          let? elapsed :=
            ok_or (match checked_sub at_ (sampled_at previous) with
                   | Some e => if e =? 0 then None else Some e
                   | None => None
                   end) NonMonotonicSampleTime in
          let? c := calculate_cpu (base_cpu previous) cpu_counters in
          let? n := calculate_network (base_network previous) network_counters elapsed in
          Ok (c, n)
      | None => Ok (Unavailable InitialBaseline, Unavailable InitialBaseline)
      end in
    Ok (mkBaseline at_ cpu_counters network_counters,
        mkSample LINUX_PROVIDER_ID LINUX_PROVIDER_VERSION at_ c mem n disk) in
  match r with
  | Ok (b, s) => (mkProvider (Some b), Ok s)
  | Err e => (p, Err e)
  | Panic => (p, Panic)
  end.

Definition sample_cpu_follow_up (p : LinuxMetricsProvider) (stat : list Z) :
    LinuxMetricsProvider * rres ParseError (MetricValue CpuUsage) :=
  match parse_proc_stat stat with
  | Ok current =>
      match baseline p with
      | None => (p, Ok (Unavailable InitialBaseline))
      | Some b =>
          match calculate_cpu (base_cpu b) current with
          | Ok c => (mkProvider (Some (mkBaseline (sampled_at b) current (base_network b))), Ok c)
          | Err e => (p, Err e)
          | Panic => (p, Panic)
          end
      end
  | Err e => (p, Err e)
  | Panic => (p, Panic)
  end.

Definition reset_baseline (p : LinuxMetricsProvider) : LinuxMetricsProvider :=
  mkProvider None.

(** ** Reference definitions *)

Definition zsum (l : list Z) : Z := foldr Z.add 0 l.

Definition field (c : CpuCounters) (i : nat) : Z := nth i (fields c) 0.

(** Counters as [parse_proc_stat] returns them. *)
Record cpu_wf (c : CpuCounters) : Prop := {
  cw_len : length (fields c) = 8%nat;
  cw_nonneg : Forall (λ x, 0 ≤ x) (fields c);
  cw_sum : zsum (fields c) ≤ u64_max;
}.

Definition cpu_total (c : CpuCounters) : Z := zsum (fields c).
(** The idle and iowait fields. *)
Definition cpu_idle (c : CpuCounters) : Z := field c 3 + field c 4.

Definition cpu_decreased (previous current : CpuCounters) : bool :=
  existsb (λ p, p.1 <? p.2) (combine (fields current) (fields previous)).

(** The line the kernel writes for the eight aggregate counters. *)
Definition render_proc_stat (c : CpuCounters) : list Z :=
  lit "cpu" ++ concat (map (cons 32) (map to_decimal (fields c))) ++ [10].

Definition iface_wf (e : list Z * InterfaceCounters) : Prop :=
  valid_interface_name e.1 = true ∧ e.1 ≠ lit "lo" ∧
  0 ≤ receive_bytes e.2 ≤ u64_max ∧ 0 ≤ transmit_bytes e.2 ≤ u64_max.

(** Interface tables as [parse_net_dev] returns them. *)
Definition net_wf (m : list (list Z * InterfaceCounters)) : Prop :=
  bmap_sorted m ∧ Forall iface_wf m ∧ zlen m ≤ MAX_NET_DEV_LINES.

Definition provider_wf (p : LinuxMetricsProvider) : Prop :=
  ∀ b, baseline p = Some b →
    cpu_wf (base_cpu b) ∧ net_wf (base_network b) ∧ 0 ≤ sampled_at b.

Definition memory_ok (used available total : Z) : Prop :=
  used + available = total ∧ 0 ≤ used ∧ 0 ≤ available ∧ 0 < total ≤ u64_max ∧
  total mod 1024 = 0.

(** The growth of a counter over the interfaces of [current]. *)
Definition net_delta (f : InterfaceCounters → Z)
    (previous current : list (list Z * InterfaceCounters)) : Z :=
  zsum (map (λ e, f e.2 - match bmap_get e.1 previous with Some p => f p | None => 0 end)
          current).

(** ** Lemmas *)

Lemma zsum_app l1 l2 : zsum (l1 ++ l2) = zsum l1 + zsum l2.
Proof. unfold zsum. induction l1; simpl; lia. Qed.

Lemma zsum_nonneg l : Forall (λ x, 0 ≤ x) l → 0 ≤ zsum l.
Proof. unfold zsum. induction 1; simpl; lia. Qed.

Lemma zsum_elem_bound l max :
  Forall (λ x, 0 ≤ x) l → zsum l ≤ max → Forall (λ x, 0 ≤ x ≤ max) l.
Proof.
  induction 1 as [|x l Hx Hl IH]; unfold zsum; simpl; intros Hs; constructor.
  - pose proof (zsum_nonneg l Hl). unfold zsum in *. lia.
  - apply IH. unfold zsum. lia.
Qed.

Lemma checked_sum_spec src vs :
  Forall (λ x, 0 ≤ x) vs →
  checked_sum src vs =
    if zsum vs <=? u64_max then Ok (zsum vs) else Err (InvalidNumber src).
Proof.
  unfold checked_sum. intros Hvs.
  assert (∀ acc, acc ≤ u64_max →
    rfold (λ sum v, ok_or (checked_add u64_max sum v) (InvalidNumber src)) acc vs =
    if acc + zsum vs <=? u64_max then Ok (acc + zsum vs) else Err (InvalidNumber src)) as H.
  { induction Hvs as [|v vs Hv Hvs IH]; intros acc Hacc; simpl.
    - rewrite Z.add_0_r. by replace (acc <=? u64_max) with true by lia.
    - pose proof (zsum_nonneg _ Hvs). unfold checked_add.
      destruct (Z.leb_spec (acc + v) u64_max); simpl.
      + rewrite IH by done. by replace (acc + v + zsum vs) with (acc + (v + zsum vs)) by lia.
      + replace (acc + (v + zsum vs) <=? u64_max) with false by lia. done. }
  apply H. unfold u64_max. lia.
Qed.

Lemma parse_u64_range src t n : parse_u64 src t = Ok n → 0 ≤ n ≤ u64_max.
Proof.
  unfold parse_u64. intros H. rinv H. subst. by eapply parse_uint_range.
Qed.

Lemma parse_u64_no_panic src t : parse_u64 src t ≠ Panic.
Proof. unfold parse_u64. case_match; [done|]. by destruct (parse_uint _ _). Qed.

Lemma parse_u64_to_decimal src n : 0 ≤ n ≤ u64_max → parse_u64 src (to_decimal n) = Ok n.
Proof.
  intros Hn. unfold parse_u64.
  rewrite utf8_encode_ascii by (eapply forallb_impl; [apply digit_is_ascii|apply to_decimal_digits; lia]).
  rewrite to_decimal_digits, parse_uint_to_decimal by lia.
  rewrite bool_decide_eq_false_2 by (apply to_decimal_nonempty; lia). done.
Qed.

Lemma rmap_u64_range src ts ns :
  rmap (parse_u64 src) ts = Ok ns → Forall (λ n, 0 ≤ n ≤ u64_max) ns.
Proof.
  rewrite rmap_Ok. induction 1; constructor; eauto using parse_u64_range.
Qed.

Lemma kib_to_bytes_spec k b :
  kib_to_bytes k = Ok b → b = k * 1024 ∧ b ≤ u64_max.
Proof.
  unfold kib_to_bytes. intros H. rinv H. apply checked_mul_Some in E as [-> ?]. by subst.
Qed.

Lemma parse_proc_stat_wf input c : parse_proc_stat input = Ok c → cpu_wf c.
Proof.
  unfold parse_proc_stat. intros H. rinv H.
  destruct (nonblank_lines x) as [|line [|]]; try done.
  destruct (split_ascii_whitespace line) as [|first tokens]; [done|].
  rinv H. subst. pose proof (rmap_u64_range _ _ _ E1) as Hr.
  assert (Forall (λ x, 0 ≤ x) (take 8 x0)) as Hnn.
  { apply Forall_take. eapply Forall_impl; [done|]. simpl. lia. }
  rewrite checked_sum_spec in E4 by done.
  destruct (Z.leb_spec (zsum (take 8 x0)) u64_max); [|done].
  bprop. split; simpl; [unfold zlen in *; lia|done|done].
Qed.

(** Sums of differences, when no counter decreased. *)
Lemma deltas_spec cur prev :
  length cur = length prev →
  existsb (λ p : Z * Z, p.1 <? p.2) (combine cur prev) = false →
  Forall (λ x, 0 ≤ x) (map (λ p, p.1 - p.2) (combine cur prev)) ∧
  zsum (map (λ p, p.1 - p.2) (combine cur prev)) = zsum cur - zsum prev.
Proof.
  revert prev. induction cur as [|a cur IH]; intros [|b prev] Hl H; simpl in *; try done.
  bprop. destruct (IH prev) as [H1 H2]; [lia|done|]. split; [constructor; simpl; [lia|done]|].
  unfold zsum in *. simpl. lia.
Qed.

Lemma calculate_cpu_spec previous current :
  cpu_wf previous → cpu_wf current →
  let total := cpu_total current - cpu_total previous in
  let idle := cpu_idle current - cpu_idle previous in
  calculate_cpu previous current =
    if cpu_decreased previous current then Ok (Unavailable CounterReset)
    else if total =? 0 then Ok (Unavailable NoCounterProgress)
    else Ok (Available (mkCpuUsage ((total - idle) * 10000 / total))).
Proof.
  intros [Hl1 Hn1 Hs1] [Hl2 Hn2 Hs2]. unfold cpu_total, cpu_idle, calculate_cpu, cpu_decreased.
  destruct (existsb _ _) eqn:Hdec; [done|].
  destruct (deltas_spec (fields current) (fields previous)) as [Hnn Hsum]; [lia|done|].
  rewrite checked_sum_spec, Hsum by done.
  pose proof (zsum_nonneg _ Hn1). pose proof (zsum_nonneg _ Hnn) as Hnn'. rewrite Hsum in Hnn'.
  replace (zsum (fields current) - zsum (fields previous) <=? u64_max) with true by lia.
  remember (zsum (fields current) - zsum (fields previous)) as T eqn:HT.
  simpl. destruct (Z.eqb_spec T 0) as [|Hz]; [done|].
  destruct (fields current) as [|c0 [|c1 [|c2 [|c3 [|c4 [|c5 [|c6 [|c7 [|]]]]]]]]] eqn:Ec; try done.
  destruct (fields previous) as [|p0 [|p1 [|p2 [|p3 [|p4 [|p5 [|p6 [|p7 [|]]]]]]]]] eqn:Ep; try done.
  unfold field. rewrite Ec, Ep. simpl in *.
  rewrite !Forall_cons in Hnn. destruct Hnn as (?&?&?&?&?&?&?&?&_).
  assert (0 < T) by lia. assert (c3 - p3 + (c4 - p4) ≤ T) by lia.
  unfold checked_add, checked_sub, checked_mul, try_from.
  replace (c3 - p3 + (c4 - p4) <=? u64_max) with true by lia. simpl.
  replace (c3 - p3 + (c4 - p4) <=? T) with true by lia. simpl.
  replace ((T - (c3 - p3 + (c4 - p4))) * 10000 <=? u128_max) with true
    by (unfold u64_max, u128_max in *; lia). simpl.
  replace (c3 + c4 - (p3 + p4)) with (c3 - p3 + (c4 - p4)) by lia.
  assert (0 ≤ (T - (c3 - p3 + (c4 - p4))) * 10000 / T ≤ 10000) as Hb.
  { split; [apply Z.div_pos; lia|]. apply Z.div_le_upper_bound; lia. }
  replace ((0 <=? (T - (c3 - p3 + (c4 - p4))) * 10000 / T) &&
    ((T - (c3 - p3 + (c4 - p4))) * 10000 / T <=? u16_max)) with true by (unfold u16_max; lia).
  done.
Qed.

Lemma busy_share previous current :
  cpu_wf previous → cpu_wf current → cpu_decreased previous current = false →
  cpu_total current - cpu_total previous ≠ 0 →
  0 ≤ (cpu_total current - cpu_total previous - (cpu_idle current - cpu_idle previous)) * 10000
      / (cpu_total current - cpu_total previous) ≤ 10000.
Proof.
  intros [Hl1 _ _] [Hl2 _ _] Hdec Hz. unfold cpu_decreased in Hdec.
  destruct (deltas_spec (fields current) (fields previous)) as [Hnn _]; [lia|done|].
  assert (0 ≤ cpu_idle current - cpu_idle previous ≤ cpu_total current - cpu_total previous) as Hb.
  { unfold cpu_idle, cpu_total, field, zsum.
    destruct (fields current) as [|c0 [|c1 [|c2 [|c3 [|c4 [|c5 [|c6 [|c7 [|]]]]]]]]]; try done.
    destruct (fields previous) as [|p0 [|p1 [|p2 [|p3 [|p4 [|p5 [|p6 [|p7 [|]]]]]]]]]; try done.
    simpl in *. rewrite !Forall_cons in Hnn. lia. }
  split; [apply Z.div_pos; lia|]. apply Z.div_le_upper_bound; lia.
Qed.

Lemma bounded_text_no_panic src i mb ml : bounded_text src i mb ml ≠ Panic.
Proof. unfold bounded_text. rnp. Qed.

Lemma kib_to_bytes_no_panic k : kib_to_bytes k ≠ Panic.
Proof. unfold kib_to_bytes. rnp. Qed.

Lemma rmap_u64_no_panic src ts : rmap (parse_u64 src) ts ≠ Panic.
Proof. apply rmap_no_panic. intros. apply parse_u64_no_panic. Qed.

#[local] Hint Resolve parse_u64_no_panic bounded_text_no_panic kib_to_bytes_no_panic
  rmap_u64_no_panic : rust.

Lemma parse_proc_stat_no_panic input : parse_proc_stat input ≠ Panic.
Proof.
  unfold parse_proc_stat. rnp.
  destruct (nonblank_lines _) as [|line [|]]; try done.
  destruct (split_ascii_whitespace line) as [|first tokens]; [done|]. rnp.
  rewrite checked_sum_spec; [by case_match|]. apply Forall_take.
  eapply Forall_impl; [by eapply rmap_u64_range|]. simpl. lia.
Qed.

Lemma meminfo_line_spec st line :
  meminfo_line st line ≠ Panic ∧
  (∀ st', meminfo_line st line = Ok st' →
    (∀ n, st.1 = Some n → 0 ≤ n) → (∀ n, st.2 = Some n → 0 ≤ n) →
    (∀ n, st'.1 = Some n → 0 ≤ n) ∧ (∀ n, st'.2 = Some n → 0 ≤ n)).
Proof.
  destruct st as [tk ak]. unfold meminfo_line.
  destruct (split_once 58 line) as [[key value]|]; [|naive_solver].
  destruct (negb _); [naive_solver|]. case_match; [naive_solver|].
  destruct (split_ascii_whitespace value) as [|amount rest]; [naive_solver|].
  destruct (negb _); [naive_solver|].
  pose proof (parse_u64_no_panic ProcMeminfo amount).
  destruct (parse_u64 ProcMeminfo amount) as [n| |] eqn:E; [|done|done].
  apply parse_u64_range in E. simpl. split; [by case_match|].
  intros st' [= <-] H1 H2. case_match; simpl in *; naive_solver lia.
Qed.

(** Used and available memory add up to the total. *)
Lemma usage_spec total available tb ab ub :
  0 ≤ available → (total =? 0) || (total <? available) = false →
  kib_to_bytes total = Ok tb → kib_to_bytes available = Ok ab →
  checked_sub tb ab = Some ub → memory_ok ub ab tb.
Proof.
  intros Ha Hc [-> ?]%kib_to_bytes_spec [-> ?]%kib_to_bytes_spec [-> ?]%checked_sub_Some. bprop.
  repeat split; try lia. apply Z.mod_mul. lia.
Qed.

Lemma parse_meminfo_ok input m :
  parse_meminfo input = Ok m →
  memory_ok (mem_used_bytes m) (mem_available_bytes m) (mem_total_bytes m).
Proof.
  unfold parse_meminfo. intros H. rinv H. subst. simpl.
  assert ((∀ n, x0.1 = Some n → 0 ≤ n) ∧ (∀ n, x0.2 = Some n → 0 ≤ n)) as [_ H2].
  { eapply (rfold_inv (λ st, (∀ n, st.1 = Some n → 0 ≤ n) ∧ (∀ n, st.2 = Some n → 0 ≤ n)));
      [|intros s1 l s2 _ [Ha Hb] Hs|exact E0].
    - simpl. naive_solver.
    - by eapply (proj2 (meminfo_line_spec s1 l)). }
  destruct x0 as [[t|] [a|]]; simpl in *; try done. simplify_eq.
  eapply usage_spec; eauto.
Qed.

Lemma parse_meminfo_no_panic input : parse_meminfo input ≠ Panic.
Proof.
  unfold parse_meminfo. rnp.
  apply (rfold_no_panic (λ _, True)); [done|done|]. intros. apply meminfo_line_spec.
Qed.

Lemma parse_df_row_ok row d :
  parse_df_row row = Ok d →
  memory_ok (disk_used_bytes d) (disk_available_bytes d) (disk_total_bytes d) ∧
  mount d = lit "/" ∧ filesystem_id d ≠ [] ∧ str_len (filesystem_id d) ≤ MAX_FILESYSTEM_ID_BYTES.
Proof.
  unfold parse_df_row. intros H. rinv H.
  destruct (rev row) as [|m [|c [|a [|u [|t ns]]]]]; try done. rinv H. subst. simpl. bprop.
  split; [|done].
  eapply (usage_spec x1 x); [|by apply orb_false_iff; split; apply Z.eqb_neq || apply Z.ltb_ge|done|done|done].
  eapply parse_u64_range. done.
Qed.

Lemma parse_df_row_no_panic row : parse_df_row row ≠ Panic.
Proof.
  unfold parse_df_row. destruct (_ || _) eqn:E; [done|]. bprop.
  assert (6 ≤ zlen (rev row)) as Hl by (unfold zlen in *; rewrite length_rev; lia).
  destruct (rev row) as [|m [|c [|a [|u [|t ns]]]]]; try (unfold zlen in Hl; simpl in Hl; lia). rnp.
Qed.

Lemma parse_root_df_ok input d :
  parse_root_df input = Ok d →
  memory_ok (disk_used_bytes d) (disk_available_bytes d) (disk_total_bytes d) ∧
  mount d = lit "/" ∧ filesystem_id d ≠ [] ∧ str_len (filesystem_id d) ≤ MAX_FILESYSTEM_ID_BYTES.
Proof.
  unfold parse_root_df. intros H. rinv H.
  destruct (nonblank_lines x) as [|h [|l [|]]]; try done. rinv H. by eapply parse_df_row_ok.
Qed.

Lemma parse_root_df_no_panic input : parse_root_df input ≠ Panic.
Proof.
  unfold parse_root_df. rnp. repeat case_match; try done. apply parse_df_row_no_panic.
Qed.

(** The invariant of the loop of [parse_net_dev] after [k] lines. *)
Definition net_inv (st : net_state) : Prop :=
  bmap_sorted (interfaces st) ∧ Forall iface_wf (interfaces st) ∧
  zlen (interfaces st) ≤ data_lines st ∧ 0 ≤ header_lines st.

Lemma bmap_insert_Forall {K V} `{OrdKey K} (P : K * V → Prop) k v (m : list (K * V)) :
  P (k, v) → Forall P m → Forall P (bmap_insert k v m).
Proof.
  intros Hk. induction 1 as [|[x w] m Hx Hm IH]; simpl; [by constructor|].
  destruct (kcmp k x); constructor; auto.
Qed.

Lemma bmap_insert_zlen {K V} `{OrdKey K} k v (m : list (K * V)) :
  zlen (bmap_insert k v m) ≤ 1 + zlen m.
Proof.
  induction m as [|[x w] m IH]; simpl; [done|].
  destruct (kcmp k x); autorewrite with rust; lia.
Qed.

Lemma net_dev_line_spec st line :
  net_inv st →
  net_dev_line st line ≠ Panic ∧
  ∀ st', net_dev_line st line = Ok st' →
    net_inv st' ∧
    header_lines st' + data_lines st' = header_lines st + data_lines st + 1.
Proof.
  intros (Hs & Hf & Hl & Hh). unfold net_dev_line.
  destruct (split_once 58 line) as [[raw counters]|] eqn:Esp.
  2: { case_match; [naive_solver|]. split; [done|]. intros st' [= <-]. repeat split; simpl; auto; lia. }
  destruct (negb (header_lines st =? 2)); [naive_solver|].
  destruct (valid_interface_name (trim raw)) eqn:Hv; [|naive_solver]. simpl.
  pose proof (rmap_u64_no_panic ProcNetDev (split_ascii_whitespace counters)).
  destruct (rmap _ _) as [vs| |] eqn:Evs; [|naive_solver|done]. simpl. apply rmap_u64_range in Evs.
  destruct (Z.eqb_spec (zlen vs) NETWORK_FIELD_COUNT) as [Hvs|]; [|naive_solver]. simpl.
  case_bool_decide as Hlo.
  { split; [done|]. intros st' [= <-]. repeat split; simpl; auto; lia. }
  unfold NETWORK_FIELD_COUNT, zlen in Hvs.
  destruct (lookup_lt_is_Some_2 vs 0) as [rx Hrx]; [lia|].
  destruct (lookup_lt_is_Some_2 vs 8) as [tx Htx]; [lia|]. rewrite Hrx, Htx.
  rewrite Forall_lookup in Evs. apply Evs in Hrx, Htx.
  destruct (bmap_get _ _) eqn:Eg; [naive_solver|]. split; [done|].
  intros st' [= <-]. unfold net_inv; simpl. repeat split; auto with rust; try lia.
  - apply bmap_insert_Forall; [|done]. unfold iface_wf; simpl; tauto.
  - pose proof (bmap_insert_zlen (trim raw) (mkIface rx tx) (interfaces st)). lia.
Qed.

Lemma net_inv_init : net_inv (mkNet [] 0 0).
Proof. split; [constructor|]. split; [constructor|]. done. Qed.

Lemma parse_net_dev_no_panic input : parse_net_dev input ≠ Panic.
Proof.
  unfold parse_net_dev. rnp. apply (rfold_no_panic net_inv); auto using net_inv_init.
  - intros s1 x s2 Hs1. by apply net_dev_line_spec.
  - intros s1 x Hs1. by apply net_dev_line_spec.
Qed.

(** The loop counts every line it accepts. *)
Lemma net_dev_lines_count st ls st' :
  net_inv st → rfold net_dev_line st ls = Ok st' →
  net_inv st' ∧ header_lines st' + data_lines st' = header_lines st + data_lines st + zlen ls.
Proof.
  revert st. induction ls as [|l ls IH]; simpl; intros st Hst H.
  - injection H as <-. rewrite zlen_nil. split; [done|lia].
  - rinv H. destruct (net_dev_line_spec st l) as [_ Hl]; [done|].
    destruct (Hl x) as [Hx Hc]; [done|]. destruct (IH x) as [? ?]; [done..|].
    rewrite zlen_cons. split; [done|lia].
Qed.

Lemma filter_zlen {A} (f : A → bool) l : zlen (List.filter f l) ≤ zlen l.
Proof.
  induction l as [|x l IH]; simpl; [done|]. case_match; autorewrite with rust; lia.
Qed.

Lemma parse_net_dev_wf input m : parse_net_dev input = Ok m → net_wf m.
Proof.
  unfold parse_net_dev, bounded_text. intros H. rinv H. rinv E. subst.
  destruct (net_dev_lines_count _ _ _ net_inv_init E0) as [(Hs & Hf & Hl & Hh) Hc].
  simpl in Hc. bprop. split; [done|]. split; [done|].
  pose proof (filter_zlen (λ l, negb (bool_decide (trim l = []))) (lines x)).
  unfold nonblank_lines in Hc. lia.
Qed.

(** ** Network rates *)

Definition net_decreased (previous current : list (list Z * InterfaceCounters)) : bool :=
  existsb (λ e, match bmap_get e.1 previous with
                | Some p => (receive_bytes e.2 <? receive_bytes p)
                            || (transmit_bytes e.2 <? transmit_bytes p)
                | None => false
                end) current.

Lemma network_deltas_grow previous current rx tx :
  Forall (λ e, is_Some (bmap_get e.1 previous)) current →
  net_decreased previous current = false → rx ≤ u64_max → tx ≤ u64_max →
  let rx' := rx + net_delta receive_bytes previous current in
  let tx' := tx + net_delta transmit_bytes previous current in
  rx ≤ rx' ∧ tx ≤ tx' ∧
  network_deltas previous rx tx current =
    if (rx' <=? u64_max) && (tx' <=? u64_max) then Ok (inr (rx', tx'))
    else Err ArithmeticOverflow.
Proof.
  unfold net_delta, zsum. intros Hin. revert rx tx.
  induction Hin as [|[name cur] current [prev Hp] Hin IH]; intros rx tx; simpl.
  - intros _ Hrx Htx. rewrite !Z.add_0_r.
    replace (rx <=? u64_max) with true by lia. replace (tx <=? u64_max) with true by lia.
    repeat split; (done || lia).
  - simpl in Hp. rewrite Hp. intros [Hd Hds]%orb_false_iff Hrx Htx. bprop. simpl.
    unfold checked_sub. replace (receive_bytes prev <=? receive_bytes cur) with true by lia.
    replace (transmit_bytes prev <=? transmit_bytes cur) with true by lia. simpl.
    rewrite !Z.add_assoc. unfold checked_add.
    pose proof (IH 0 0 Hds) as Hz. simpl in Hz.
    destruct Hz as (H0r & H0t & _); [unfold u64_max; lia..|].
    destruct (Z.leb_spec (rx + (receive_bytes cur - receive_bytes prev)) u64_max); simpl.
    2: { repeat split; try lia. case_match; [bprop; lia|done]. }
    destruct (Z.leb_spec (tx + (transmit_bytes cur - transmit_bytes prev)) u64_max); simpl.
    2: { repeat split; try lia. case_match; [bprop; lia|done]. }
    destruct (IH (rx + (receive_bytes cur - receive_bytes prev))
                 (tx + (transmit_bytes cur - transmit_bytes prev))) as (? & ? & ->); [done..|].
    repeat split; (done || lia).
Qed.

Lemma network_deltas_reset previous current rx tx :
  Forall (λ e, is_Some (bmap_get e.1 previous)) current →
  net_decreased previous current = true →
  network_deltas previous rx tx current = Ok (inl CounterReset) ∨
  network_deltas previous rx tx current = Err ArithmeticOverflow.
Proof.
  intros Hin. revert rx tx.
  induction Hin as [|[name cur] current [prev Hp] Hin IH]; intros rx tx; simpl; [done|].
  simpl in Hp. rewrite Hp. simpl. unfold checked_sub.
  destruct (Z.leb_spec (receive_bytes prev) (receive_bytes cur)); [|by left].
  destruct (Z.leb_spec (transmit_bytes prev) (transmit_bytes cur)); [|by left].
  replace (receive_bytes cur <? receive_bytes prev) with false by lia.
  replace (transmit_bytes cur <? transmit_bytes prev) with false by lia. simpl. intros Hd.
  unfold checked_add. case_match; simpl; [|by right]. case_match; simpl; [|by right]. by apply IH.
Qed.

Lemma rate_per_second_spec delta elapsed :
  0 ≤ delta ≤ u64_max → 0 < elapsed →
  rate_per_second delta elapsed =
    if delta * 1000000000 / elapsed <=? u64_max
    then Ok (delta * 1000000000 / elapsed) else Err ArithmeticOverflow.
Proof.
  intros Hd He. unfold rate_per_second. replace (elapsed =? 0) with false by lia.
  unfold checked_mul. replace (delta * 1000000000 <=? u128_max) with true
    by (unfold u64_max, u128_max in *; lia). simpl.
  unfold try_from. assert (0 ≤ delta * 1000000000 / elapsed) by (apply Z.div_pos; lia).
  replace (0 <=? delta * 1000000000 / elapsed) with true by lia. simpl. by case_match.
Qed.

Lemma same_keys_present {K V} `{OrdKey K} (previous current : list (K * V)) :
  bmap_keys previous = bmap_keys current →
  Forall (λ e, is_Some (bmap_get e.1 previous)) current.
Proof.
  intros Hk. apply Forall_forall. intros [k v] Hin. simpl.
  apply bmap_get_key. rewrite Hk. apply list_elem_of_fmap. by exists (k, v).
Qed.

Lemma calculate_network_no_panic previous current elapsed :
  calculate_network previous current elapsed ≠ Panic.
Proof.
  unfold calculate_network, rate_per_second. destruct (bool_decide _) eqn:Ek; [|done]. simpl.
  bprop. pose proof (same_keys_present _ _ Ek) as Hin.
  assert (∀ rx tx, network_deltas previous rx tx current ≠ Panic) as Hnp.
  { clear Ek. induction Hin as [|[name cur] l [prev Hp] Hin IH]; intros rx tx; simpl; [done|].
    simpl in Hp. rewrite Hp. simpl. repeat case_match; rnp. }
  rnp. destruct a as [|[rx tx]]; rnp.
Qed.

(** ** The rendered aggregate line *)

(** The bytes of the line: letters, digits, blanks and the line feed. *)
Definition stat_char (c : Z) : bool :=
  is_ascii_digit c || bool_decide (c ∈ lit "cpu") || (c =? 32).

Lemma to_decimal_word n :
  0 ≤ n → to_decimal n ≠ [] ∧ Forall (λ c, is_ascii_whitespace c = false) (to_decimal n).
Proof.
  intros Hn. split; [by apply to_decimal_nonempty|].
  eapply Forall_impl; [apply forallb_true_Forall, to_decimal_digits, Hn|].
  intros c. simpl. unfold is_ascii_digit, is_ascii_whitespace. lia.
Qed.

Lemma stat_line_chars ns :
  Forall (λ n, 0 ≤ n) ns →
  Forall (λ c, stat_char c = true) (lit "cpu" ++ concat (map (cons 32) (map to_decimal ns))).
Proof.
  intros Hns. apply Forall_app. split; [by apply forallb_true_Forall|].
  induction Hns as [|n ns Hn Hns IH]; simpl; [constructor|]. constructor; [done|].
  apply Forall_app. split; [|done].
  eapply Forall_impl; [apply forallb_true_Forall, to_decimal_digits, Hn|].
  intros c Hc. unfold stat_char. by rewrite Hc.
Qed.

Lemma stat_char_cases c :
  stat_char c = true → 48 ≤ c ≤ 57 ∨ c = 99 ∨ c = 112 ∨ c = 117 ∨ c = 32.
Proof.
  unfold stat_char, is_ascii_digit. intros [[H|H]%orb_true_iff|H]%orb_true_iff; bprop; [lia| |lia].
  unfold lit in H. simpl in H. set_solver.
Qed.

Lemma stat_line_zlen ns k :
  Forall (λ n, 0 ≤ n ≤ u64_max) ns → zlen ns ≤ k →
  zlen (concat (map (cons 32) (map to_decimal ns))) ≤ 21 * k.
Proof.
  intros Hns. revert k. induction Hns as [|n ns Hn Hns IH]; intros k Hk; simpl.
  - autorewrite with rust in *. lia.
  - rewrite zlen_cons, zlen_app. rewrite zlen_cons in Hk. specialize (IH (k - 1) ltac:(lia)).
    assert (zlen (to_decimal n) ≤ 20); [|lia]. apply zlen_to_radix; [lia| |lia].
    unfold u64_max in Hn. lia.
Qed.

Lemma parse_stat_line ns :
  Forall (λ n, 0 ≤ n ≤ u64_max) ns → zlen ns ≤ 8 →
  let line := lit "cpu" ++ concat (map (cons 32) (map to_decimal ns)) in
  bounded_text ProcStat (line ++ [10]) MAX_PROC_STAT_BYTES MAX_PROC_STAT_LINES = Ok (line ++ [10]) ∧
  nonblank_lines (line ++ [10]) = [line] ∧
  split_ascii_whitespace line = lit "cpu" :: map to_decimal ns.
Proof.
  intros Hns Hl line.
  assert (Forall (λ n, 0 ≤ n) ns) as Hnn by (eapply Forall_impl; [exact Hns|simpl; lia]).
  assert (Forall (λ c, stat_char c = true) line) as Hc by by apply stat_line_chars.
  assert (forallb is_ascii (line ++ [10]) = true) as Hascii.
  { rewrite forallb_app. apply andb_true_iff. split; [|done]. apply forallb_true_Forall.
    eapply Forall_impl; [exact Hc|]. intros c Hx%stat_char_cases. unfold is_ascii. lia. }
  assert (lines (line ++ [10]) = [line]) as Hlines.
  { unfold lines. rewrite lines_from_run, strip_cr_id; [done| |].
    - simpl. intros Hin. rewrite Forall_forall in Hc. apply Hc, stat_char_cases in Hin. lia.
    - intros Hin. rewrite Forall_forall in Hc. apply Hc, stat_char_cases in Hin. lia. }
  split; [|split].
  - unfold bounded_text. rewrite from_utf8_ascii by done.
    cbn [ok_or rbind]. rewrite Hlines, utf8_encode_ascii by done. rewrite (proj2 (Z.ltb_ge _ _)).
    2: { unfold line. rewrite !zlen_app. pose proof (stat_line_zlen ns 8 Hns Hl).
         change (zlen (lit "cpu")) with 3. change (zlen [10]) with 1. unfold MAX_PROC_STAT_BYTES. lia. }
    change (MAX_PROC_STAT_LINES <? zlen [line]) with false.
    rewrite (proj2 (existsb_false_Forall _ _)); [done|].
    apply Forall_app. split; [|by apply Forall_singleton].
    eapply Forall_impl; [exact Hc|]. intros c Hx%stat_char_cases. unfold is_ascii_control.
    simpl. lia.
  - unfold nonblank_lines. rewrite Hlines. simpl. rewrite bool_decide_eq_false_2; [done|].
    by apply trim_nonblank.
  - apply split_ascii_whitespace_words; [done|by apply existsb_false_Forall|].
    apply Forall_map. eapply Forall_impl; [exact Hnn|]. apply to_decimal_word.
Qed.

Lemma rmap_to_decimal src ns :
  Forall (λ n, 0 ≤ n ≤ u64_max) ns → rmap (parse_u64 src) (map to_decimal ns) = Ok ns.
Proof.
  intros H. apply rmap_Ok. induction H; simpl; constructor; auto using parse_u64_to_decimal.
Qed.

(** ** Sequences of operations *)

(** One [sample] succeeded or failed: what it leaves in the provider. *)
Lemma sample_cases p at_ raw :
  (∃ s b, sample p at_ raw = (mkProvider (Some b), Ok s) ∧
    parse_proc_stat (proc_stat raw) = Ok (base_cpu b) ∧
    parse_net_dev (proc_net_dev raw) = Ok (base_network b) ∧
    parse_meminfo (proc_meminfo raw) = Ok (memory s) ∧
    parse_root_df (root_df raw) = Ok (root_disk s) ∧
    sampled_at b = at_ ∧ sample_sampled_at s = at_ ∧
    match baseline p with
    | Some previous =>
        sampled_at previous < at_ ∧
        calculate_cpu (base_cpu previous) (base_cpu b) = Ok (cpu s) ∧
        calculate_network (base_network previous) (base_network b)
          (at_ - sampled_at previous) = Ok (network s)
    | None => cpu s = Unavailable InitialBaseline ∧ network s = Unavailable InitialBaseline
    end) ∨
  (∃ e, sample p at_ raw = (p, Err e)) ∨ sample p at_ raw = (p, Panic).
Proof.
  unfold sample.
  destruct (parse_proc_stat _) as [c| |]; simpl; [|eauto..].
  destruct (parse_meminfo _) as [m| |]; simpl; [|eauto..].
  destruct (parse_net_dev _) as [n| |]; simpl; [|eauto..].
  destruct (parse_root_df _) as [d| |]; simpl; [|eauto..].
  destruct (baseline p) as [prev|]; simpl; [|left; do 2 eexists; naive_solver].
  destruct (checked_sub at_ (sampled_at prev)) as [e|] eqn:Esub; simpl; [|eauto].
  apply checked_sub_Some in Esub as [-> ?].
  destruct (Z.eqb_spec (at_ - sampled_at prev) 0); simpl; [eauto|].
  destruct (calculate_cpu _ _) as [cv| |] eqn:Ec; simpl; [|eauto..].
  destruct (calculate_network _ _ _) as [nv| |] eqn:En; simpl; [|eauto..].
  left. do 2 eexists. split; [done|]. simpl. repeat split; (done || lia).
Qed.

Lemma calculate_cpu_no_err previous current :
  cpu_wf previous → cpu_wf current → ∃ v, calculate_cpu previous current = Ok v.
Proof.
  intros H1 H2. rewrite calculate_cpu_spec by done. repeat case_match; eauto.
Qed.

Lemma sample_no_panic p at_ raw : provider_wf p → (sample p at_ raw).2 ≠ Panic.
Proof.
  intros Hp. unfold sample.
  pose proof (parse_proc_stat_no_panic (proc_stat raw)).
  destruct (parse_proc_stat _) as [c| |] eqn:Epc; simpl; try done.
  pose proof (parse_meminfo_no_panic (proc_meminfo raw)).
  destruct (parse_meminfo _) as [m| |]; simpl; try done.
  pose proof (parse_net_dev_no_panic (proc_net_dev raw)).
  destruct (parse_net_dev _) as [n| |]; simpl; try done.
  pose proof (parse_root_df_no_panic (root_df raw)).
  destruct (parse_root_df _) as [d| |]; simpl; try done.
  destruct (baseline p) as [prev|] eqn:Eb; simpl; [|done].
  destruct (match checked_sub at_ (sampled_at prev) with Some _ => _ | None => _ end); simpl; [|done].
  destruct (calculate_cpu_no_err (base_cpu prev) c) as [v ->];
    [by apply Hp|by eapply parse_proc_stat_wf|]. simpl.
  pose proof (calculate_network_no_panic (base_network prev) n z).
  by destruct (calculate_network _ _ _).
Qed.

Lemma sample_wf p at_ raw : provider_wf p → 0 ≤ at_ → provider_wf (sample p at_ raw).1.
Proof.
  intros Hp Hat. destruct (sample_cases p at_ raw) as [(s & b & -> & Hc & Hn & _ & _ & Ha & _)|[[e ->]| ->]];
    simpl; [|done..].
  intros b' [= <-]. split; [by eapply parse_proc_stat_wf|].
  split; [by eapply parse_net_dev_wf|by subst].
Qed.

Lemma follow_up_cases p stat :
  provider_wf p →
  (∃ b c v, baseline p = Some b ∧ parse_proc_stat stat = Ok c ∧ calculate_cpu (base_cpu b) c = Ok v ∧
    sample_cpu_follow_up p stat =
      (mkProvider (Some (mkBaseline (sampled_at b) c (base_network b))), Ok v)) ∨
  (∃ r, sample_cpu_follow_up p stat = (p, r) ∧ r ≠ Panic).
Proof.
  intros Hp. unfold sample_cpu_follow_up. pose proof (parse_proc_stat_no_panic stat).
  destruct (parse_proc_stat stat) as [c| |] eqn:Ec; [|right; eexists; done|done].
  destruct (baseline p) as [b|] eqn:Eb; [|right; eexists; done].
  destruct (calculate_cpu_no_err (base_cpu b) c) as [v Hv];
    [by apply Hp|by eapply parse_proc_stat_wf|]. rewrite Hv. left. naive_solver.
Qed.

Lemma follow_up_wf p stat : provider_wf p → provider_wf (sample_cpu_follow_up p stat).1.
Proof.
  intros Hp. destruct (follow_up_cases p stat Hp) as [(b & c & v & Hb & Hc & _ & ->)|(r & -> & _)]; [|done].
  intros b' [= <-]. destruct (Hp _ Hb) as (_ & ? & ?). split; [by eapply parse_proc_stat_wf|done].
Qed.

(** The operations a caller may perform, and a run of them. *)
Inductive op :=
| OpSample (at_ : Z) (raw : LinuxRawSample)
| OpFollowUp (stat : list Z)
| OpReset.

Inductive op_result :=
| RSample (r : rres ParseError LinuxMetricSample)
| RFollowUp (r : rres ParseError (MetricValue CpuUsage))
| RReset.

Definition step (p : LinuxMetricsProvider) (o : op) : LinuxMetricsProvider * op_result :=
  match o with
  | OpSample t raw => let '(p', r) := sample p t raw in (p', RSample r)
  | OpFollowUp stat => let '(p', r) := sample_cpu_follow_up p stat in (p', RFollowUp r)
  | OpReset => (reset_baseline p, RReset)
  end.

Fixpoint run (p : LinuxMetricsProvider) (ops : list op) : LinuxMetricsProvider * list op_result :=
  match ops with
  | [] => (p, [])
  | o :: ops =>
      let '(p1, r) := step p o in
      let '(p2, rs) := run p1 ops in (p2, r :: rs)
  end.

(** Sample times are durations. *)
Definition op_ok (o : op) : Prop :=
  match o with OpSample t _ => 0 ≤ t | _ => True end.

Definition panicked (r : op_result) : bool :=
  match r with RSample Panic | RFollowUp Panic => true | _ => false end.

(** The times of the successful samples of a run, in order, since the last reset. *)
Fixpoint sample_times (rs : list op_result) (acc : list Z) : list Z :=
  match rs with
  | [] => acc
  | RSample (Ok s) :: rs => sample_times rs (acc ++ [sample_sampled_at s])
  | RReset :: rs => sample_times rs []
  | _ :: rs => sample_times rs acc
  end.

(** The times recorded so far are below the baseline's time, or empty when
    there is no baseline. *)
Definition times_inv (p : LinuxMetricsProvider) (ts : list Z) : Prop :=
  StronglySorted Z.lt ts ∧
  match baseline p with
  | Some b => Forall (λ t, t ≤ sampled_at b) ts
  | None => ts = []
  end.

Lemma step_times p o ts :
  provider_wf p → op_ok o → times_inv p ts →
  let '(p', r) := step p o in
  provider_wf p' ∧ panicked r = false ∧ times_inv p' (sample_times [r] ts).
Proof.
  intros Hp Ho Ht. destruct o as [t raw|stat|]; simpl in *.
  - pose proof (sample_wf p t raw Hp Ho) as Hw. pose proof (sample_no_panic p t raw Hp) as Hnp.
    destruct (sample_cases p t raw) as [(s & b & E & _ & _ & _ & _ & Hb & Hs & Hprev)|[[e E]|E]];
      rewrite E in *; simpl in *; [|done..].
    split; [done|]. split; [done|]. destruct Ht as [Hts Htb]. split; simpl.
    + apply StronglySorted_snoc; [done|]. destruct (baseline p) as [prev|]; [|by subst].
      eapply Forall_impl; [exact Htb|]. simpl. lia.
    + rewrite Hb, Hs. apply Forall_app. split; [|by apply Forall_singleton].
      destruct (baseline p) as [prev|]; [|by subst].
      eapply Forall_impl; [exact Htb|]. simpl. lia.
  - pose proof (follow_up_wf p stat Hp) as Hw.
    destruct (follow_up_cases p stat Hp) as [(b & c & v & Hb & _ & _ & E)|(r & E & Hr)];
      rewrite E in *; simpl in *.
    + split; [done|]. split; [done|]. unfold times_inv in *. by rewrite Hb in Ht.
    + split; [done|]. by destruct r.
  - split; [done|]. split; [done|]. split; [constructor|done].
Qed.

Lemma run_times ops p ts :
  provider_wf p → Forall op_ok ops → times_inv p ts →
  provider_wf (run p ops).1 ∧ Forall (λ r, panicked r = false) (run p ops).2 ∧
  times_inv (run p ops).1 (sample_times (run p ops).2 ts).
Proof.
  revert p ts. induction ops as [|o ops IH]; intros p ts Hp Ho Ht; simpl; [split; [done|split; [by apply Forall_nil|done]]|].
  apply Forall_cons in Ho as [Ho Hos]. pose proof (step_times p o ts Hp Ho Ht) as Hst.
  destruct (step p o) as [p1 r]. destruct Hst as (Hp1 & Hr & Ht1).
  destruct (IH p1 _ Hp1 Hos Ht1) as (H1 & H2 & H3).
  destruct (run p1 ops) as [p2 rs] eqn:Er. simpl in *. split; [done|]. split; [by constructor|].
  by destruct r as [[]| |].
Qed.

(** ** Properties *)

(** CPU usage between two parsed samples never fails: it is unavailable
    exactly when some counter decreased (a reset) or when the total did not
    move, and is otherwise the share of the elapsed ticks that were neither
    idle nor iowait, in basis points, which lies between 0 and 10000. *)
Theorem calculate_cpu_correct previous current :
  cpu_wf previous → cpu_wf current →
  let total := cpu_total current - cpu_total previous in
  let busy := total - (cpu_idle current - cpu_idle previous) in
  calculate_cpu previous current =
    (if cpu_decreased previous current then Ok (Unavailable CounterReset)
     else if total =? 0 then Ok (Unavailable NoCounterProgress)
     else Ok (Available (mkCpuUsage (busy * 10000 / total)))) ∧
  (∀ u, calculate_cpu previous current = Ok (Available u) → 0 ≤ basis_points u ≤ 10000).
Proof.
  intros Hp Hc. cbv zeta. split; [by apply calculate_cpu_spec|].
  rewrite calculate_cpu_spec by done. intros u.
  destruct (cpu_decreased previous current) eqn:Hd; [done|].
  destruct (Z.eqb_spec (cpu_total current - cpu_total previous) 0); [done|].
  intros [= <-]. simpl. by apply busy_share.
Qed.

Definition stat_a : CpuCounters := mkCpu [100; 10; 50; 800; 40; 0; 0; 0].
Definition stat_b : CpuCounters := mkCpu [160; 10; 70; 900; 60; 0; 0; 0].

Lemma stat_ab_wf : cpu_wf stat_a ∧ cpu_wf stat_b.
Proof.
  split; (split; [done| |done]); simpl; rewrite !Forall_cons, Forall_nil; lia.
Qed.

Lemma calculate_cpu_correct_witness :
  calculate_cpu stat_a stat_b = Ok (Available (mkCpuUsage 4000)) ∧
  0 ≤ basis_points (mkCpuUsage 4000) ≤ 10000.
Proof.
  split; [vm_compute; reflexivity|].
  apply (proj2 (calculate_cpu_correct stat_a stat_b (proj1 stat_ab_wf) (proj2 stat_ab_wf))).
  vm_compute. reflexivity.
Defined.

(** The aggregate line the kernel writes for eight counters parses back to
    those counters, whatever their values, so long as their sum fits in 64 bits. *)
Theorem proc_stat_roundtrip c :
  cpu_wf c → parse_proc_stat (render_proc_stat c) = Ok c.
Proof.
  intros [Hl Hn Hs]. destruct c as [ns]. simpl in *.
  assert (zlen ns = 8) as Hz by (unfold zlen; lia).
  assert (Forall (λ n, 0 ≤ n ≤ u64_max) ns) as Hr by by apply zsum_elem_bound.
  unfold parse_proc_stat, render_proc_stat. simpl fields. rewrite app_assoc.
  destruct (parse_stat_line ns) as (-> & E2 & E3); [done|lia|].
  cbn [rbind]. rewrite E2, E3, bool_decide_eq_true_2 by done. cbn [negb].
  rewrite rmap_to_decimal by done. cbn [rbind]. rewrite Hz. simpl orb.
  rewrite take_ge, Hz by lia. simpl negb. cbn iota. rewrite checked_sum_spec by done.
  by rewrite (proj2 (Z.leb_le _ _) Hs).
Qed.

Lemma proc_stat_roundtrip_witness :
  parse_proc_stat (lit "cpu 160 10 70 900 60 0 0 0" ++ [10]) = Ok stat_b.
Proof. exact (proc_stat_roundtrip stat_b (proj2 stat_ab_wf)). Defined.

(** Network rates between two parsed interface tables: a change of the
    interface set and a decreased counter are reported, never a negative or
    wrapped rate; otherwise each rate is the exact total growth over all
    interfaces divided by the elapsed time, rounded down, and the only failure
    is a sum or a rate beyond 64 bits. *)
Theorem calculate_network_correct previous current elapsed :
  0 < elapsed →
  let rx := net_delta receive_bytes previous current in
  let tx := net_delta transmit_bytes previous current in
  let r := calculate_network previous current elapsed in
  (bmap_keys previous ≠ bmap_keys current → r = Ok (Unavailable CounterSetChanged)) ∧
  (bmap_keys previous = bmap_keys current → net_decreased previous current = true →
     r = Ok (Unavailable CounterReset) ∨ r = Err ArithmeticOverflow) ∧
  (bmap_keys previous = bmap_keys current → net_decreased previous current = false →
     0 ≤ rx ∧ 0 ≤ tx ∧
     r = if (rx <=? u64_max) && (tx <=? u64_max)
            && (rx * 1000000000 / elapsed <=? u64_max)
            && (tx * 1000000000 / elapsed <=? u64_max)
         then Ok (Available (mkRate (rx * 1000000000 / elapsed) (tx * 1000000000 / elapsed)))
         else Err ArithmeticOverflow).
Proof.
  intros He rx tx r. subst rx tx r. unfold calculate_network. split_and!.
  - intros Hk. by rewrite bool_decide_eq_false_2.
  - intros Hk Hd. rewrite bool_decide_eq_true_2 by done. simpl.
    destruct (network_deltas_reset previous current 0 0) as [-> | ->];
      auto using same_keys_present.
  - intros Hk Hd. rewrite bool_decide_eq_true_2 by done. simpl.
    destruct (network_deltas_grow previous current 0 0) as (Hrx & Htx & ->);
      [by apply same_keys_present|done|done|done|].
    rewrite !Z.add_0_l in *. split; [done|]. split; [done|].
    destruct (_ && (_ <=? u64_max)) eqn:Ef; simpl; [|done]. bprop.
    rewrite !rate_per_second_spec by lia. repeat (case_match; simpl; try done).
Qed.

Definition net_a : list (list Z * InterfaceCounters) :=
  [(lit "eth0", mkIface 1000 2000); (lit "wlan0", mkIface 5 6)].
Definition net_b : list (list Z * InterfaceCounters) :=
  [(lit "eth0", mkIface 5000 2500); (lit "wlan0", mkIface 6 6)].

Lemma calculate_network_correct_witness :
  calculate_network net_a net_b 2000000000 = Ok (Available (mkRate 2000 250)).
Proof.
  apply (proj2 (proj2 (calculate_network_correct net_a net_b 2000000000 eq_refl)));
    vm_compute; reflexivity.
Defined.

(** C31. A run of samples, CPU follow-ups and resets from a fresh provider: no
    operation ever panics, the stored baseline always holds eight counters
    whose sum fits in 64 bits and a sorted table of at most 128 valid
    interfaces without the loopback, and the times of the successful samples
    since the last reset strictly increase. *)
Theorem provider_run_safe ops :
  Forall op_ok ops →
  provider_wf (run new ops).1 ∧
  Forall (λ r, panicked r = false) (run new ops).2 ∧
  StronglySorted Z.lt (sample_times (run new ops).2 []).
Proof.
  intros Ho. destruct (run_times ops new []) as (H1 & H2 & H3 & _); try done.
  split; [constructor|done].
Qed.

Definition raw_of (c : CpuCounters) (rx tx : Z) : LinuxRawSample := mkRaw
  (render_proc_stat c)
  (lit "MemTotal: 2048 kB" ++ [10] ++ lit "MemAvailable: 512 kB" ++ [10])
  (lit "Inter-| Receive | Transmit" ++ [10] ++ lit " face |bytes" ++ [10]
   ++ lit " lo: 9 0 0 0 0 0 0 0 9 0 0 0 0 0 0 0" ++ [10]
   ++ lit " eth0: " ++ to_decimal rx ++ lit " 0 0 0 0 0 0 0 " ++ to_decimal tx
   ++ lit " 0 0 0 0 0 0 0" ++ [10])
  (lit "Filesystem 1024-blocks Used Available Capacity Mounted on" ++ [10]
   ++ lit "/dev/sda1 4096 1024 2048 34% /" ++ [10]).

Lemma provider_run_safe_witness :
  sample_times (run new [OpSample 10 (raw_of stat_a 1000 50); OpSample 10 (raw_of stat_a 1000 50);
    OpFollowUp (render_proc_stat stat_b); OpSample 30 (raw_of stat_b 2000 70)]).2 [] = [10; 30] ∧
  StronglySorted Z.lt [10; 30].
Proof.
  split; [vm_compute; reflexivity|].
  apply (provider_run_safe [OpSample 10 (raw_of stat_a 1000 50); OpSample 10 (raw_of stat_a 1000 50);
    OpFollowUp (render_proc_stat stat_b); OpSample 30 (raw_of stat_b 2000 70)]).
  rewrite !Forall_cons, Forall_nil. simpl. lia.
Defined.

(** A sample is atomic: on an error the provider is unchanged; on success
    its memory and disk figures add up (used plus available is the total), its
    disk is the root mount, the baseline becomes this sample's, and with an
    earlier baseline the time advanced and the CPU and network values are the
    ones computed against that baseline. *)
Theorem sample_atomic p at_ raw :
  let '(p', r) := sample p at_ raw in
  match r with
  | Ok s =>
      memory_ok (mem_used_bytes (memory s)) (mem_available_bytes (memory s))
        (mem_total_bytes (memory s)) ∧
      memory_ok (disk_used_bytes (root_disk s)) (disk_available_bytes (root_disk s))
        (disk_total_bytes (root_disk s)) ∧
      mount (root_disk s) = lit "/" ∧
      ∃ b, p' = mkProvider (Some b) ∧ sampled_at b = at_ ∧
        parse_proc_stat (proc_stat raw) = Ok (base_cpu b) ∧
        parse_net_dev (proc_net_dev raw) = Ok (base_network b) ∧
        match baseline p with
        | Some previous =>
            sampled_at previous < at_ ∧
            calculate_cpu (base_cpu previous) (base_cpu b) = Ok (cpu s) ∧
            calculate_network (base_network previous) (base_network b)
              (at_ - sampled_at previous) = Ok (network s)
        | None => cpu s = Unavailable InitialBaseline ∧ network s = Unavailable InitialBaseline
        end
  | _ => p' = p
  end.
Proof.
  destruct (sample_cases p at_ raw) as [(s & b & -> & Hc & Hn & Hm & Hd & Hb & _ & Hprev)|[[e ->]| ->]];
    [|done..].
  split; [by eapply parse_meminfo_ok|]. apply parse_root_df_ok in Hd as (? & ? & _).
  split; [done|]. split; [done|]. by exists b.
Qed.

(** A CPU follow-up does not disturb network sampling: whatever it reads,
    the next full sample reports the same network rate (or the same error) as
    if the follow-up had not happened. *)
Theorem follow_up_keeps_network p stat at_ raw :
  provider_wf p →
  rok_map network (sample (sample_cpu_follow_up p stat).1 at_ raw).2 =
  rok_map network (sample p at_ raw).2.
Proof.
  intros Hp. destruct (follow_up_cases p stat Hp) as [(b & c & v & Hb & Hc & _ & ->)|(r & -> & _)]; [|done].
  unfold sample. simpl. rewrite Hb.
  destruct (parse_proc_stat (proc_stat raw)) as [cur| |] eqn:Ec; simpl; [|done..].
  destruct (parse_meminfo _) as [m| |]; simpl; [|done..].
  destruct (parse_net_dev _) as [n| |]; simpl; [|done..].
  destruct (parse_root_df _) as [d| |]; simpl; [|done..].
  destruct (ok_or _ _) as [el| |]; simpl; [|done..].
  destruct (calculate_cpu_no_err c cur) as [v1 ->]; [by eapply parse_proc_stat_wf..|].
  destruct (calculate_cpu_no_err (base_cpu b) cur) as [v2 ->];
    [by apply Hp|by eapply parse_proc_stat_wf|]. simpl.
  by destruct (calculate_network _ _ _).
Qed.

Lemma follow_up_keeps_network_witness :
  let p := (sample new 10 (raw_of stat_a 1000 50)).1 in
  rok_map network (sample (sample_cpu_follow_up p (render_proc_stat stat_b)).1
                     1000000010 (raw_of stat_b 2000 70)).2 =
  Ok (Available (mkRate 1000 20)).
Proof.
  cbv zeta. rewrite follow_up_keeps_network; [vm_compute; reflexivity|].
  apply sample_wf; [done|lia].
Defined.

End Metrics.
