(* ===== verification/SshEndpoint.v ===== *)
(** * SSH endpoints (crates/ssh-domain/src/lib.rs)

    The normal form of a host address, which is the identity under which host
    keys are trusted, and the [Endpoint] type built on it. The SHA-256 digest
    and the base64 alphabet of the fingerprint are library code and stay
    parameters. *)

From S2P Require Import Prelude RustStr RustIp.

Module SshEndpoint.

(** ** Data *)

Inductive EndpointError := Empty | Invalid | InvalidPort.

#[global] Instance EndpointError_eq_dec : EqDecision EndpointError.
Proof. solve_decision. Defined.

Record Endpoint := mkEndpoint { normalized_address : list Z; port : Z }.

#[global] Instance Endpoint_eq_dec : EqDecision Endpoint.
Proof. solve_decision. Defined.

(** ** Operations *)

(** The condition of the label loop, negated. *)
Definition valid_label (label : list Z) : bool :=
  negb (bool_decide (label = []))
  && (str_len label <=? 63)
  && forallb (λ b, is_ascii_alphanumeric b || (b =? 45)) (utf8_encode label)
  && match utf8_encode label with b :: _ => is_ascii_alphanumeric b | [] => false end
  && match rev (utf8_encode label) with b :: _ => is_ascii_alphanumeric b | [] => false end.

(** Four labels of digits: a dotted quad that is not an IPv4 address. *)
Definition ambiguous_quad (labels : list (list Z)) : bool :=
  (zlen labels =? 4) && forallb (λ l, forallb is_ascii_digit (utf8_encode l)) labels.

Definition normalize_host_address (input : list Z) : rres EndpointError (list Z) :=
  let input := trim input in
  if bool_decide (input = []) then Err Empty
  else
    let '(address, bracketed) :=
      match (match strip_prefix 91 input with
             | Some v => strip_suffix 93 v
             | None => None
             end) with
      | Some address => (address, true)
      | None => (input, false)
      end in
    match parse_ip address with
    | Some ip =>
        if bracketed && negb (is_ipv6 ip) then Err Invalid else Ok (ip_to_string ip)
    | None =>
        if bracketed || negb (forallb is_ascii address) then Err Invalid
        else
          let hostname :=
            to_ascii_lowercase
              (match strip_suffix 46 address with Some a => a | None => address end) in
          if bool_decide (hostname = []) || (253 <? str_len hostname) then Err Invalid
          else
            let labels := split_char 46 hostname in
            if ambiguous_quad labels then Err Invalid
            else if forallb valid_label labels then Ok hostname
            else Err Invalid
    end.

(** [Endpoint::parse]. *)
Definition parse (address : list Z) (port_ : Z) : rres EndpointError Endpoint :=
  if port_ =? 0 then Err InvalidPort
  else
    let? normalized := normalize_host_address address in
    Ok (mkEndpoint normalized port_).

Definition trust_key (e : Endpoint) : list Z :=
  match parse_ipv6 (normalized_address e) with
  | Some _ => lit "[" ++ normalized_address e ++ lit "]:" ++ to_decimal (port e)
  | None => normalized_address e ++ lit ":" ++ to_decimal (port e)
  end.

Section Fingerprint.
Variable sha256 : list Z → list Z.
Variable base64_no_pad : list Z → list Z.

Definition ssh_sha256_fingerprint (public_key_blob : list Z) : list Z :=
  lit "SHA256:" ++ base64_no_pad (sha256 public_key_blob).

End Fingerprint.

Example normalize_examples :
  normalize_host_address (lit " EXAMPLE.COM. ") = Ok (lit "example.com") ∧
  normalize_host_address (lit "192.168.001.1") = Err Invalid ∧
  normalize_host_address (lit "192.168.1.1") = Ok (lit "192.168.1.1") ∧
  normalize_host_address (lit "[2001:0db8::1]") = Ok (lit "2001:db8::1") ∧
  rok_map trust_key (parse (lit "[2001:db8::1]") 2222) = Ok (lit "[2001:db8::1]:2222") ∧
  normalize_host_address (lit "bad..host") = Err Invalid ∧
  normalize_host_address (lit "-bad.test") = Err Invalid ∧
  normalize_host_address (lit "bad-.test") = Err Invalid ∧
  normalize_host_address [20363; 23376] = Err Invalid ∧
  normalize_host_address [] = Err Empty ∧
  parse (lit "example.com") 0 = Err InvalidPort.
Proof. vm_compute. repeat split; reflexivity. Qed.

(** ** Host names *)

(** What the host-name branch accepts and returns. *)
Record hostname_ok (h : list Z) : Prop := {
  ho_nonempty : h ≠ [];
  ho_len : str_len h ≤ 253;
  ho_lower : to_ascii_lowercase h = h;
  ho_ascii : forallb is_ascii h = true;
  ho_quad : ambiguous_quad (split_char 46 h) = false;
  ho_labels : forallb valid_label (split_char 46 h) = true;
}.

Definition host_char (c : Z) : bool :=
  is_ascii_digit c || is_ascii_lower c || (c =? 45) || (c =? 46).

Lemma ascii_lower_idem c : ascii_lower (ascii_lower c) = ascii_lower c.
Proof. unfold ascii_lower, is_ascii_upper. repeat case_match; lia. Qed.

Lemma ascii_lower_ascii c : is_ascii (ascii_lower c) = is_ascii c.
Proof. unfold ascii_lower, is_ascii, is_ascii_upper. repeat case_match; lia. Qed.

Lemma to_ascii_lowercase_idem s : to_ascii_lowercase (to_ascii_lowercase s) = to_ascii_lowercase s.
Proof.
  unfold to_ascii_lowercase. rewrite map_map. apply map_ext. apply ascii_lower_idem.
Qed.

Lemma to_ascii_lowercase_ascii s : forallb is_ascii (to_ascii_lowercase s) = forallb is_ascii s.
Proof.
  unfold to_ascii_lowercase. induction s as [|c s IH]; simpl; [done|]. by rewrite ascii_lower_ascii, IH.
Qed.

Lemma strip_suffix_Some c s t : strip_suffix c s = Some t ↔ s = t ++ [c].
Proof.
  unfold strip_suffix. split.
  - destruct (rev s) as [|x r] eqn:E; [done|]. destruct (Z.eqb_spec x c) as [->|]; [|done].
    intros [= <-]. apply (f_equal (@rev Z)) in E. rewrite rev_involutive in E. by rewrite E.
  - intros ->. rewrite rev_app_distr. simpl. rewrite Z.eqb_refl. by rewrite rev_involutive.
Qed.

Lemma strip_suffix_forallb (f : Z → bool) c s t :
  strip_suffix c s = Some t → forallb f s = true → forallb f t = true.
Proof. intros ->%strip_suffix_Some. rewrite forallb_app, andb_true_iff. tauto. Qed.

(** Classification of normalized addresses. *)
Lemma normalize_class s o :
  normalize_host_address s = Ok o →
  (∃ ip, ip_wf ip ∧ o = ip_to_string ip) ∨ hostname_ok o.
Proof.
  unfold normalize_host_address. intros H. rinv H.
  destruct (match _ with Some a => (a, true) | None => _ end) as [address bracketed].
  destruct (parse_ip address) as [ip|] eqn:Ei.
  { rinv H. left. exists ip. split; [by eapply parse_ip_wf|done]. }
  rinv H. subst. right. bprop.
  split; auto using to_ascii_lowercase_idem.
  rewrite to_ascii_lowercase_ascii. destruct (strip_suffix 46 address) eqn:Es; [|done].
  by eapply strip_suffix_forallb.
Qed.

(** Splitting at a character. *)
Lemma split_char_nonempty d s : split_char d s ≠ [].
Proof. destruct s as [|c s]; simpl; [done|]. repeat case_match; done. Qed.

Lemma split_char_chars d s c : c ∈ s → c = d ∨ ∃ p, p ∈ split_char d s ∧ c ∈ p.
Proof.
  induction s as [|x s IH]; [set_solver|]. simpl.
  pose proof (split_char_nonempty d s). destruct (Z.eqb_spec x d).
  - intros [->|Hc]%elem_of_cons; [by left|]. destruct (IH Hc) as [|(p & ? & ?)]; [by left|].
    right. exists p. set_solver.
  - destruct (split_char d s) as [|q rest]; [done|].
    intros [->|Hc]%elem_of_cons; [right; exists (x :: q); set_solver|].
    destruct (IH Hc) as [|(p & [->|Hp]%elem_of_cons & ?)]; [by left|..].
    + right. exists (x :: q). set_solver.
    + right. exists p. set_solver.
Qed.

Lemma split_char_sub d s p c : p ∈ split_char d s → c ∈ p → c ∈ s.
Proof.
  revert p. induction s as [|x s IH]; simpl; intros p; [by intros ->%list_elem_of_singleton|].
  case_match; [intros [->|Hp]%elem_of_cons Hc; [by apply elem_of_nil in Hc|set_solver]|].
  pose proof (split_char_nonempty d s). destruct (split_char d s) as [|q rest]; [done|].
  intros [->|Hp]%elem_of_cons Hc; [|set_solver].
  apply elem_of_cons in Hc as [->|Hc]; [set_solver|]. apply elem_of_cons. right. apply (IH q); set_solver.
Qed.

Lemma split_char_app d a b : d ∉ a → split_char d (a ++ d :: b) = a :: split_char d b.
Proof.
  induction a as [|x a IH]; simpl; intros Ha; [by rewrite Z.eqb_refl|].
  destruct (Z.eqb_spec x d) as [->|]; [set_solver|]. rewrite IH by set_solver. done.
Qed.

Lemma split_char_none d s : d ∉ s → split_char d s = [s].
Proof.
  induction s as [|x s IH]; simpl; intros Hs; [done|].
  destruct (Z.eqb_spec x d) as [->|]; [set_solver|]. by rewrite IH by set_solver.
Qed.

Lemma split_char_trailing d a : ∃ p l, split_char d (a ++ [d]) = p :: l ++ [[]].
Proof.
  induction a as [|x a (p & l & IH)]; simpl; [rewrite Z.eqb_refl; by exists [], []|].
  rewrite IH. case_match; [by exists [], (p :: l)|by exists (x :: p), l].
Qed.

Lemma alnum_ascii c : is_ascii_alphanumeric c = true → is_ascii c = true.
Proof.
  unfold is_ascii_alphanumeric, is_ascii_digit, is_ascii_upper, is_ascii_lower, is_ascii. lia.
Qed.

Lemma hostname_chars h : hostname_ok h → Forall (λ c, host_char c = true) h.
Proof.
  intros [_ _ Hlow Hascii _ Hlab]. apply Forall_forall. intros c Hc.
  assert (ascii_lower c = c) as Hl.
  { clear -Hlow Hc. unfold to_ascii_lowercase in Hlow. revert Hc. induction h as [|x h IH]; [set_solver|].
    simpl in Hlow. injection Hlow as Hx Hh. intros [->|]%elem_of_cons; auto. }
  rewrite forallb_true_Forall, Forall_forall in Hascii.
  destruct (split_char_chars 46 h c Hc) as [->|(p & Hp & Hcp)]; [done|].
  rewrite forallb_true_Forall, Forall_forall in Hlab. specialize (Hlab p Hp).
  unfold valid_label in Hlab. bprop.
  rewrite utf8_encode_ascii in * by
    (apply forallb_true_Forall, Forall_forall; intros y Hy; apply Hascii; by eapply split_char_sub).
  match goal with H : forallb _ p = true |- _ => rewrite forallb_true_Forall, Forall_forall in H;
    specialize (H c Hcp) end.
  unfold host_char, is_ascii_alphanumeric, ascii_lower, is_ascii_upper, is_ascii_lower,
    is_ascii_digit in *. destruct ((65 <=? c) && (c <=? 90)) eqn:E; lia.
Qed.

(** A valid label has a first and a last character that are not hyphens. *)
Lemma hostname_no_trailing_dot h : hostname_ok h → strip_suffix 46 h = None.
Proof.
  intros Hh. destruct (strip_suffix 46 h) as [t|] eqn:E; [|done]. exfalso.
  apply strip_suffix_Some in E as ->. pose proof (ho_labels _ Hh) as Hl.
  destruct (split_char_trailing 46 t) as (p & l & E). rewrite E in Hl.
  simpl in Hl. rewrite forallb_app in Hl. simpl in Hl. rewrite !andb_false_r in Hl. done.
Qed.

Lemma to_digit_10_digit c : is_Some (to_digit 10 c) → is_ascii_digit c = true.
Proof.
  intros [d H]. unfold to_digit, is_ascii_digit, is_ascii_lower, is_ascii_upper in *.
  repeat case_match; simplify_eq; bprop; (done || lia).
Qed.

Lemma digits_plain ds :
  Forall (λ c, is_Some (to_digit 10 c)) ds → 46 ∉ ds ∧ forallb is_ascii_digit (utf8_encode ds) = true.
Proof.
  intros Hd. assert (forallb is_ascii_digit ds = true) as H.
  { apply forallb_true_Forall. eapply Forall_impl; [exact Hd|]. apply to_digit_10_digit. }
  split.
  - intros Hin. rewrite forallb_true_Forall, Forall_forall in H. by apply H in Hin.
  - rewrite utf8_encode_ascii; [done|]. eapply forallb_impl; [apply digit_is_ascii|done].
Qed.

(** A host name is never read as an address. *)
Lemma hostname_not_ip h : hostname_ok h → parse_ip h = None.
Proof.
  intros Hh. unfold parse_ip. destruct (read_ipv4_addr h) as [[o rest]|] eqn:E4.
  - destruct rest; [|done]. exfalso.
    apply read_ipv4_shape in E4 as (_ & _ & _ & d1 & d2 & d3 & d4 & -> & Hd).
    rewrite !Forall_cons in Hd. destruct Hd as ([_ H1] & [_ H2] & [_ H3] & [_ H4] & _).
    apply digits_plain in H1 as [? E1], H2 as [? E2], H3 as [? E3], H4 as [? E4].
    pose proof (ho_quad _ Hh) as Hq. rewrite app_nil_r in Hq.
    rewrite !split_char_app, split_char_none in Hq by done.
    unfold ambiguous_quad in Hq. simpl in Hq. by rewrite E1, E2, E3, E4 in Hq.
  - destruct (read_ipv6_addr h) as [r|] eqn:E6; [|done]. apply read_ipv6_colon in E6.
    pose proof (hostname_chars h Hh) as Hc. rewrite Forall_forall in Hc. by apply Hc in E6.
Qed.

Lemma host_char_not_space c : host_char c = true → is_whitespace c = false ∧ c ≠ 91.
Proof.
  unfold host_char, is_ascii_digit, is_ascii_lower, is_whitespace. lia.
Qed.

Lemma ip_char_not_space c : ip_char c = true → is_whitespace c = false ∧ c ≠ 91.
Proof. unfold ip_char, is_ascii_digit, is_whitespace. lia. Qed.

(** On text that is not bracketed and has no blanks the steps before the
    address is parsed do nothing. *)
Lemma normalize_plain s :
  s ≠ [] → Forall (λ c, is_whitespace c = false ∧ c ≠ 91) s →
  trim s = s ∧ strip_prefix 91 s = None.
Proof.
  intros Hne Hs. split; [apply trim_none; eapply Forall_impl; [exact Hs|naive_solver]|].
  destruct s as [|c s]; [done|]. apply Forall_cons in Hs as [[_ Hc] _]. simpl.
  by destruct (Z.eqb_spec c 91).
Qed.

Lemma normalize_hostname h : hostname_ok h → normalize_host_address h = Ok h.
Proof.
  intros Hh. pose proof (hostname_chars h Hh) as Hc. pose proof Hh as [Hne Hlen Hlow Hascii Hq Hlab].
  destruct (normalize_plain h) as [Ht Hb]; [done|eapply Forall_impl; [exact Hc|apply host_char_not_space]|].
  unfold normalize_host_address. rewrite Ht, Hb, bool_decide_eq_false_2 by done.
  rewrite hostname_not_ip, Hascii, hostname_no_trailing_dot, Hlow by done. simpl.
  rewrite bool_decide_eq_false_2, (proj2 (Z.ltb_ge _ _)), Hq, Hlab by done. done.
Qed.

Lemma ip_text ip :
  ip_wf ip → ip_to_string ip ≠ [] ∧ Forall (λ c, ip_char c = true) (ip_to_string ip).
Proof.
  destruct ip as [o|g]; simpl; intros [Hl H].
  - split; [by apply fmt_ipv4_nonempty|]. eapply Forall_impl; [by apply fmt_ipv4_chars|naive_solver].
  - split; [|by apply fmt_ipv6_chars]. intros E. pose proof (fmt_ipv6_colon g Hl). rewrite E in *. set_solver.
Qed.

Lemma normalize_ip ip : ip_wf ip → normalize_host_address (ip_to_string ip) = Ok (ip_to_string ip).
Proof.
  intros Hip. destruct (ip_text ip Hip) as [Hne Hc].
  destruct (normalize_plain (ip_to_string ip)) as [Ht Hb];
    [done|eapply Forall_impl; [exact Hc|apply ip_char_not_space]|].
  unfold normalize_host_address. rewrite Ht, Hb, bool_decide_eq_false_2 by done.
  by rewrite parse_ip_print.
Qed.

(** ** ASCII case *)

Lemma is_whitespace_lower c : is_whitespace (ascii_lower c) = is_whitespace c.
Proof. unfold ascii_lower, is_ascii_upper, is_whitespace. case_match; lia. Qed.

Lemma trim_start_lower s : trim_start (to_ascii_lowercase s) = to_ascii_lowercase (trim_start s).
Proof.
  induction s as [|c s IH]; simpl; [done|]. rewrite is_whitespace_lower. by case_match.
Qed.

Lemma rev_lower s : rev (to_ascii_lowercase s) = to_ascii_lowercase (rev s).
Proof. symmetry. apply map_rev. Qed.

Lemma trim_lower s : trim (to_ascii_lowercase s) = to_ascii_lowercase (trim s).
Proof. unfold trim, trim_end. by rewrite trim_start_lower, rev_lower, trim_start_lower, rev_lower. Qed.

Lemma strip_prefix_lower c s :
  is_ascii_upper c = false → is_ascii_lower c = false →
  strip_prefix c (to_ascii_lowercase s) = to_ascii_lowercase <$> strip_prefix c s.
Proof. apply read_given_char_lower. Qed.

Lemma strip_suffix_lower c s :
  is_ascii_upper c = false → is_ascii_lower c = false →
  strip_suffix c (to_ascii_lowercase s) = to_ascii_lowercase <$> strip_suffix c s.
Proof.
  intros H1 H2. unfold strip_suffix. rewrite rev_lower. destruct (rev s) as [|x r]; [done|].
  cbn -[rev]. rewrite ascii_lower_eqb by done. case_match; [|done]. cbn -[rev].
  by rewrite <- rev_lower.
Qed.

Lemma normalize_lower s : normalize_host_address (to_ascii_lowercase s) = normalize_host_address s.
Proof.
  unfold normalize_host_address. rewrite trim_lower.
  rewrite (bool_decide_ext _ _ (lower_nil (trim s))). case_bool_decide; [done|].
  rewrite strip_prefix_lower by done.
  assert (∀ a, (match strip_suffix 46 (to_ascii_lowercase a) with
      Some x => x | None => to_ascii_lowercase a end) =
    to_ascii_lowercase (match strip_suffix 46 a with Some x => x | None => a end)) as Hs.
  { intros a. rewrite strip_suffix_lower by done. by destruct (strip_suffix 46 a). }
  destruct (strip_prefix 91 (trim s)) as [v|]; cbn -[parse_ip strip_suffix trim].
  - rewrite strip_suffix_lower by done. destruct (strip_suffix 93 v) as [a|]; cbn -[parse_ip strip_suffix trim].
    + rewrite parse_ip_lower. by destruct (parse_ip a).
    + rewrite parse_ip_lower. destruct (parse_ip (trim s)); [done|].
      by rewrite Hs, to_ascii_lowercase_ascii, to_ascii_lowercase_idem.
  - rewrite parse_ip_lower. destruct (parse_ip (trim s)); [done|].
    by rewrite Hs, to_ascii_lowercase_ascii, to_ascii_lowercase_idem.
Qed.

(** ** Trust keys *)

(** The address of a parsed endpoint has a colon exactly when it is IPv6. *)
Lemma normalized_colon s o :
  normalize_host_address s = Ok o →
  Forall (λ c, c ≠ 93 ∧ c ≠ 91) o ∧ (parse_ipv6 o = None → 58 ∉ o) ∧ o ≠ [].
Proof.
  intros [(ip & Hip & ->)|Hh]%normalize_class.
  - destruct (ip_text ip Hip) as [Hne Hc]. split; [|split; [|done]].
    + eapply Forall_impl; [exact Hc|]. intros c. unfold ip_char, is_ascii_digit. simpl. lia.
    + destruct ip as [o|g]; simpl in *.
      * intros _ Hin. destruct Hip as [_ Ho]. apply fmt_ipv4_chars in Ho.
        rewrite Forall_forall in Ho. apply Ho in Hin. naive_solver.
      * destruct Hip. by rewrite parse_ipv6_print.
  - pose proof (hostname_chars o Hh) as Hc. split; [|split; [|apply Hh]].
    + eapply Forall_impl; [exact Hc|]. intros c.
      unfold host_char, is_ascii_digit, is_ascii_lower. simpl. lia.
    + intros _ Hin. rewrite Forall_forall in Hc. by apply Hc in Hin.
Qed.

(** Splitting a text at the first occurrence of a separator is unambiguous. *)
Lemma app_sep_inj d (a b s t : list Z) :
  d ∉ a → d ∉ b → a ++ d :: s = b ++ d :: t → a = b ∧ s = t.
Proof.
  intros Ha Hb E. pose proof (proj2 (split_once_Some d (a ++ d :: s) a s) (conj eq_refl Ha)) as H1.
  rewrite E in H1. rewrite (proj2 (split_once_Some d (b ++ d :: t) b t) (conj eq_refl Hb)) in H1.
  by simplify_eq.
Qed.

(** Characters that may occur in a normalized address. *)
Definition address_char (c : Z) : bool :=
  is_ascii_digit c || is_ascii_lower c || (c =? 45) || (c =? 46) || (c =? 58).

(** What the rest of the program relies on when it shows, stores or passes on
    a normalized address: no blanks, quotes, brackets, control characters or
    upper case, not empty, bounded, and no leading hyphen that a command line
    could take for an option. *)
Record address_safe (o : list Z) : Prop := {
  as_chars : forallb address_char o = true;
  as_len : 1 ≤ str_len o ≤ 253;
  as_first : head o ≠ Some 45;
}.

Lemma address_char_ascii c : address_char c = true → is_ascii c = true.
Proof. unfold address_char, is_ascii_digit, is_ascii_lower, is_ascii. lia. Qed.

Lemma hostname_first h : hostname_ok h → head h ≠ Some 45.
Proof.
  intros Hh E. destruct h as [|c h]; simplify_eq/=. pose proof (ho_labels _ Hh) as Hl.
  simpl in Hl. pose proof (split_char_nonempty 46 h).
  destruct (split_char 46 h) as [|q rest]; [done|]. simpl in Hl. bprop.
  match goal with H : valid_label _ = true |- _ => unfold valid_label in H end.
  bprop. done.
Qed.

Lemma normalize_safe s o : normalize_host_address s = Ok o → address_safe o.
Proof.
  intros H. assert (forallb address_char o = true ∧ o ≠ [] ∧ zlen o ≤ 253 ∧ head o ≠ Some 45) as (Hc & Hne & Hl & Hf).
  { apply normalize_class in H as [(ip & Hip & ->)|Hh].
    - destruct (ip_text ip Hip) as [Hne Hc]. pose proof (ip_to_string_zlen ip Hip).
      split; [|split; [done|split; [lia|]]].
      + apply forallb_true_Forall. eapply Forall_impl; [exact Hc|].
        intros c. unfold ip_char, address_char, is_ascii_digit, is_ascii_lower. lia.
      + intros E. destruct (ip_to_string ip) as [|c r]; simplify_eq/=. by apply Forall_cons in Hc as [].
    - pose proof (hostname_chars o Hh) as Hc. pose proof (ho_len _ Hh) as Hl.
      rewrite str_len_ascii in Hl by apply Hh. split; [|split; [apply Hh|split; [done|by apply hostname_first]]].
      apply forallb_true_Forall. eapply Forall_impl; [exact Hc|].
      intros c. unfold host_char, address_char, is_ascii_digit, is_ascii_lower. simpl. lia. }
  split; [done| |done]. rewrite str_len_ascii by (eapply forallb_impl; [apply address_char_ascii|done]).
  split; [|done]. destruct o; [done|]. rewrite zlen_cons. pose proof (zlen_nonneg o). lia.
Qed.

(** ** Properties *)

(** Every accepted address is normalized to a safe text: one to 253
    bytes of lower-case letters, digits, dots, colons and hyphens, not
    starting with a hyphen. *)
Theorem normalize_output_safe s o : normalize_host_address s = Ok o → address_safe o.
Proof. apply normalize_safe. Qed.

Lemma normalize_output_safe_witness : address_safe (lit "example.com").
Proof. apply (normalize_output_safe (lit " EXAMPLE.COM. ")). vm_compute. reflexivity. Defined.

(** Normalization is a projection: a normalized address is accepted again
    and is its own normal form, for DNS names, IPv4 and IPv6 alike. *)
Theorem normalize_idempotent s o :
  normalize_host_address s = Ok o → normalize_host_address o = Ok o.
Proof.
  intros [(ip & Hip & ->)|Hh]%normalize_class; [by apply normalize_ip|by apply normalize_hostname].
Qed.

Lemma normalize_idempotent_witness :
  normalize_host_address (lit "2001:db8::1") = Ok (lit "2001:db8::1").
Proof. apply (normalize_idempotent (lit "[2001:0DB8:0::1]")). vm_compute. reflexivity. Defined.

(** The identity of a host does not depend on the ASCII case in which its
    address is written: spellings that differ only in case have the same
    normal form, or fail with the same error. *)
Theorem normalize_ignores_case s t :
  eq_ignore_ascii_case s t = true → normalize_host_address s = normalize_host_address t.
Proof.
  unfold eq_ignore_ascii_case. intros H. bprop. by rewrite <- (normalize_lower s), H, normalize_lower.
Qed.

Lemma normalize_ignores_case_witness :
  normalize_host_address (lit "FE80::A") = normalize_host_address (lit "fe80::a") ∧
  normalize_host_address (lit "fe80::a") = Ok (lit "fe80::a").
Proof.
  split; [apply normalize_ignores_case; vm_compute; reflexivity|vm_compute; reflexivity].
Defined.

(** C30. Two endpoints with the same trust key are the same endpoint: the key
    under which a host key is stored never conflates different addresses or
    ports, IPv6 literals included. *)
Theorem trust_key_injective a1 p1 a2 p2 e1 e2 :
  parse a1 p1 = Ok e1 → parse a2 p2 = Ok e2 → 0 ≤ p1 → 0 ≤ p2 →
  trust_key e1 = trust_key e2 → e1 = e2.
Proof.
  unfold parse. intros H1 H2 Hp1 Hp2 HK. rinv H1. rinv H2. subst.
  destruct (normalized_colon _ _ E0) as (Hc1 & Hn1 & Hne1).
  destruct (normalized_colon _ _ E2) as (Hc2 & Hn2 & Hne2).
  rewrite Forall_forall in Hc1, Hc2. unfold trust_key in HK. simpl in HK.
  destruct (parse_ipv6 x) eqn:Ep1, (parse_ipv6 x0) eqn:Ep2; simpl in HK.
  - injection HK as HK. apply (app_sep_inj 93) in HK as [-> HK]; [|naive_solver..].
    injection HK as ->%to_decimal_inj; done.
  - destruct x0 as [|c x0]; [done|]. injection HK as <- _. exfalso.
    destruct (Hc2 91) as [_ ?]; [set_solver|done].
  - destruct x as [|c x]; [done|]. injection HK as -> _. exfalso.
    destruct (Hc1 91) as [_ ?]; [set_solver|done].
  - apply (app_sep_inj 58) in HK as [-> ->%to_decimal_inj]; auto.
Qed.

Lemma trust_key_injective_witness :
  parse (lit "[2001:0db8::1]") 22 = Ok (mkEndpoint (lit "2001:db8::1") 22) ∧
  mkEndpoint (lit "2001:db8::1") 22 = mkEndpoint (lit "2001:db8::1") 22.
Proof.
  split; [vm_compute; reflexivity|].
  apply (trust_key_injective (lit "[2001:0db8::1]") 22 (lit "2001:DB8:0::1") 22);
    vm_compute; (reflexivity || discriminate).
Defined.

End SshEndpoint.
