(* ===== verification/OpensshConfig.v ===== *)
(** * Preview of an OpenSSH client configuration
      (crates/ssh-domain/src/openssh_config.rs)

    The bounded, side-effect-free parser that turns the text of an
    [ssh_config] file into host candidates. Text is a list of scalar values,
    line numbers are one-based, and messages keep the source's wording. *)

From S2P Require Import Prelude RustStr RustIp SshEndpoint.

Module OpenSsh.
Import SshEndpoint.

(** ** Data *)

Definition MAX_CONFIG_BYTES : Z := 1024 * 1024.
Definition MAX_CONFIG_LINES : Z := 8192.
Definition MAX_LINE_BYTES : Z := 4096.
Definition MAX_CANDIDATES : Z := 512.
Definition MAX_IDENTITY_FILE_HINTS : Z := 64.
Definition MAX_JUMP_HOPS : Z := 5.

Inductive OpenSshDiagnosticSeverity := Warning | Error.

Inductive OpenSshDiagnosticCode :=
| InputTooLarge | TooManyLines | LineTooLong | TooManyCandidates | TooManyIdentityFiles
| InvalidSyntax | InvalidHostAlias | InvalidHostName | InvalidUser | InvalidPort
| InvalidIdentityFile | InvalidProxyJump | UnsupportedProxyCommand | UnsupportedDirective
| UnsupportedHostPattern | IncludeUnsupported | MatchUnsupported | DangerousExpansion
| DangerousToken | NoLiteralHostCandidates.

#[global] Instance code_eq_dec : EqDecision OpenSshDiagnosticCode.
Proof. solve_decision. Defined.

Record OpenSshDiagnostic := mkDiag {
  code : OpenSshDiagnosticCode;
  severity : OpenSshDiagnosticSeverity;
  line : option Z;
  directive : option (list Z);
  message : string;
  blocking : bool;
}.

Record OpenSshEndpointPreview := mkPreview { address : list Z; pport : Z }.

Record OpenSshJumpHopPreview := mkHop {
  hop_endpoint : OpenSshEndpointPreview;
  hop_user : option (list Z);
}.

Inductive OpenSshRoutePreview :=
| Direct
| JumpChain (hops : list OpenSshJumpHopPreview)
| HttpConnect (proxy : OpenSshEndpointPreview)
| Socks5 (proxy : OpenSshEndpointPreview).

Record OpenSshHostCandidate := mkCandidate {
  alias : list Z;
  endpoint : option OpenSshEndpointPreview;
  user : option (list Z);
  identity_file_hints : list (list Z);
  route : OpenSshRoutePreview;
  cand_diagnostics : list OpenSshDiagnostic;
  importable : bool;
}.

Record OpenSshConfigPreview := mkConfigPreview {
  candidates : list OpenSshHostCandidate;
  diagnostics : list OpenSshDiagnostic;
}.

Record HostPattern := mkPattern { pattern : list Z; negated : bool }.

Inductive BlockSelector :=
| Global
| Host (patterns : list HostPattern) (ambiguous : bool)
| Match.

Inductive DirectiveSlot :=
| SlotAlways | SlotHostName | SlotUser | SlotPort | SlotIdentityFile | SlotRoute.

#[global] Instance slot_eq_dec : EqDecision DirectiveSlot.
Proof. solve_decision. Defined.

Inductive RouteSource :=
| ProxyJump (value : list Z)
| ProxyCommand (values : list (list Z)).

Inductive ParsedDirective :=
| HostName (value : list Z) (l : Z)
| User (value : list Z) (l : Z)
| Port (value : list Z) (l : Z)
| IdentityFile (value : list Z) (l : Z)
| Route (value : RouteSource) (l : Z)
| Blocking (d : OpenSshDiagnostic) (slot : DirectiveSlot)
| Ignored.

Record ConfigBlock := mkBlock {
  selector : BlockSelector;
  directives : list ParsedDirective;
  block_diagnostics : list OpenSshDiagnostic;
}.

Definition global_block : ConfigBlock := mkBlock Global [] [].

Record ParsedLine := mkLine { keyword : list Z; values : list (list Z) }.

Definition diagnostic (c : OpenSshDiagnosticCode) (l : option Z) (d : option (list Z))
    (msg : string) (b : bool) : OpenSshDiagnostic :=
  mkDiag c (if b then Error else Warning) l d msg b.

(** ** Lexical checks *)

(** [bytes.windows(2).any(..)] with a dollar and a name character. *)
Fixpoint dollar_name (bs : list Z) : bool :=
  match bs with
  | b0 :: ((b1 :: _) as rest) =>
      ((b0 =? 36) && ((b1 =? 95) || is_ascii_alphanumeric b1)) || dollar_name rest
  | _ => false
  end.

Definition contains_dangerous_expansion (value : list Z) : bool :=
  if contains_char value 96 || contains_str value (lit "$(") || contains_str value (lit "${")
  then true else dollar_name (utf8_encode value).

(** [str::contains] with an array of characters. *)
Definition contains_any (value chars : list Z) : bool :=
  existsb (λ c, contains_char chars c) value.

Definition contains_shell_token (value : list Z) : bool :=
  contains_dangerous_expansion value
  || contains_any value (lit "`;|><")
  || contains_str value (lit "&&").

Definition is_valid_alias (value : list Z) : bool :=
  negb (bool_decide (value = [])) && (str_len value <=? 253) && forallb is_ascii value
  && forallb (λ b, is_ascii_alphanumeric b || (b =? 46) || (b =? 95) || (b =? 45))
       (utf8_encode value).

Definition is_valid_user (value : list Z) : bool :=
  negb (bool_decide (value = [])) && (str_len value <=? 255) && forallb is_ascii value
  && forallb (λ b, is_ascii_alphanumeric b || (b =? 46) || (b =? 95) || (b =? 45)
                   || (b =? 43) || (b =? 64)) (utf8_encode value).

Definition is_valid_identity_hint (value : list Z) : bool :=
  negb (bool_decide (value = [])) && (str_len value <=? MAX_LINE_BYTES)
  && negb (existsb is_control value)
  && negb (contains_dangerous_expansion value)
  && negb (contains_any value (lit "`;|")).

Definition ignored_directives : list (list Z) := map lit
  ["addkeystoagent"; "addressfamily"; "bindaddress"; "canonicalizefallbacklocal";
   "compression"; "connectionattempts"; "connecttimeout"; "controlmaster"; "controlpath";
   "controlpersist"; "dynamicforward"; "escapechar"; "exitonforwardfailure";
   "forkafterauthentication"; "forwardagent"; "forwardx11"; "forwardx11trusted";
   "gatewayports"; "ipqos"; "localforward"; "loglevel"; "requesttty"; "remoteforward";
   "sendenv"; "serveralivecountmax"; "serveraliveinterval"; "sessiontype"; "setenv";
   "streamlocalbindmask"; "streamlocalbindunlink"; "tcpkeepalive"; "tunnel";
   "tunneldevice"; "visualhostkey"]%string.

Definition is_ignored_directive (k : list Z) : bool :=
  existsb (λ d, bool_decide (k = d)) ignored_directives.

(** ** Tokens and lines *)

(** The loop of [tokenize]: the completed tokens, the current token, whether
    it was started, and the open quote. *)
Fixpoint tokenize_from (tokens : list (list Z)) (token : list Z) (started : bool)
    (quote : option Z) (s : list Z) : rres string (list (list Z)) :=
  let finish :=
    match quote with
    | Some _ => Err "Unterminated quoted value"%string
    | None => Ok (if started then tokens ++ [token] else tokens)
    end in
  match s with
  | [] => finish
  | c :: s' =>
      match quote with
      | Some q =>
          if c =? q then tokenize_from tokens token started None s'
          else if c =? 92 then
            match s' with
            | [] => Err "Trailing escape in quoted value"%string
            | e :: s'' => tokenize_from tokens (token ++ [e]) true quote s''
            end
          else tokenize_from tokens (token ++ [c]) true quote s'
      | None =>
          if (c =? 39) || (c =? 34) then tokenize_from tokens token true (Some c) s'
          else if c =? 35 then finish
          else if is_whitespace c then
            if started then tokenize_from (tokens ++ [token]) [] false None s'
            else tokenize_from tokens token false None s'
          else if c =? 92 then
            match s' with
            | [] => Err "Trailing escape in value"%string
            | e :: s'' =>
                if is_whitespace e || (e =? 35) || (e =? 92) || (e =? 39) || (e =? 34)
                then tokenize_from tokens (token ++ [e]) true None s''
                else tokenize_from tokens (token ++ [92; e]) true None s''
            end
          else tokenize_from tokens (token ++ [c]) true None s'
      end
  end.

Definition tokenize (l : list Z) : rres string (list (list Z)) :=
  tokenize_from [] [] false None l.

Definition parse_line (l : list Z) : rres string (option ParsedLine) :=
  let? tokens := tokenize l in
  match tokens with
  | [] => Ok None
  | first :: rest =>
      match split_once 61 first with
      | Some (k, v) =>
          if bool_decide (k = []) then Err "Directive name is empty"%string
          else Ok (Some (mkLine k (if bool_decide (v = []) then rest else v :: rest)))
      | None =>
          let rest' := match rest with
                       | t :: more => if bool_decide (t = lit "=") then more else rest
                       | [] => rest
                       end in
          Ok (Some (mkLine first rest'))
      end
  end.

(** ** Patterns *)

(** One row of the table of [glob_matches] for a star: a running disjunction. *)
Fixpoint star_scan (acc : bool) (prev : list bool) : list bool :=
  match prev with
  | [] => []
  | p :: prev' => (p || acc) :: star_scan (p || acc) prev'
  end.

Definition star_row (prev : list bool) : list bool :=
  match prev with
  | [] => []
  | p :: prev' => p :: star_scan p prev'
  end.

(** And for any other byte: shifted by one position. *)
Fixpoint char_scan (b : Z) (prev : list bool) (value : list Z) : list bool :=
  match prev, value with
  | p :: prev', v :: value' =>
      (p && ((b =? 63) || (ascii_lower b =? ascii_lower v))) :: char_scan b prev' value'
  | _, _ => []
  end.

Definition glob_row (value : list Z) (prev : list bool) (b : Z) : list bool :=
  if b =? 42 then star_row prev else false :: char_scan b prev value.

Definition glob_matches (pat value : list Z) : bool :=
  let value := utf8_encode value in
  let init := true :: repeat false (length value) in
  nth (length value) (fold_left (glob_row value) (utf8_encode pat) init) false.

(** The loop over the patterns of a [Host] block. *)
Fixpoint host_matches (positive : bool) (patterns : list HostPattern) (a : list Z) : bool :=
  match patterns with
  | [] => positive
  | p :: rest =>
      if glob_matches (pattern p) a then
        if negated p then false else host_matches true rest a
      else host_matches positive rest a
  end.

Definition matches (sel : BlockSelector) (a : list Z) : bool :=
  match sel with
  | Global | Match => true
  | Host patterns ambiguous => if ambiguous then true else host_matches false patterns a
  end.

(** The state of the loop of [parse_host_selector]. *)
Record selector_state := mkSel {
  sel_patterns : list HostPattern;
  sel_discovered : list (list Z);
  sel_diagnostics : list OpenSshDiagnostic;
  sel_ambiguous : bool;
}.

Definition host_value (l : Z) (st : selector_state) (value : list Z) : selector_state :=
  let '(neg, pat) := match strip_prefix 33 value with
                     | Some p => (true, p)
                     | None => (false, value)
                     end in
  if bool_decide (pat = []) || contains_dangerous_expansion pat then
    mkSel (sel_patterns st) (sel_discovered st)
      (sel_diagnostics st ++ [diagnostic InvalidHostAlias (Some l) (Some (lit "Host"))
         "Host pattern is empty or contains unsafe expansion syntax" true]) true
  else if contains_char pat 91 || contains_char pat 93 then
    mkSel (sel_patterns st) (sel_discovered st)
      (sel_diagnostics st ++ [diagnostic UnsupportedHostPattern (Some l) (Some (lit "Host"))
         "Bracket Host patterns are not evaluated by the safe import preview" true]) true
  else
    let patterns := sel_patterns st ++ [mkPattern (to_ascii_lowercase pat) neg] in
    if negb neg && negb (contains_any pat (lit "*?")) then
      if is_valid_alias pat
      then mkSel patterns (sel_discovered st ++ [pat]) (sel_diagnostics st) (sel_ambiguous st)
      else mkSel patterns (sel_discovered st)
             (sel_diagnostics st ++ [diagnostic InvalidHostAlias (Some l) (Some (lit "Host"))
                "Literal Host alias is not a safe ASCII alias" true]) (sel_ambiguous st)
    else mkSel patterns (sel_discovered st) (sel_diagnostics st) (sel_ambiguous st).

Definition parse_host_selector (vals : list (list Z)) (l : Z) :
    BlockSelector * list (list Z) * list OpenSshDiagnostic :=
  match vals with
  | [] => (Host [] true, [],
           [diagnostic InvalidSyntax (Some l) (Some (lit "Host"))
              "Host requires at least one pattern" true])
  | _ =>
      let st := fold_left (host_value l) vals (mkSel [] [] [] false) in
      (Host (sel_patterns st) (sel_ambiguous st), sel_discovered st, sel_diagnostics st)
  end.

(** ** Directives *)

Definition slot_for_keyword (k : list Z) : DirectiveSlot :=
  if bool_decide (k = lit "hostname") then SlotHostName
  else if bool_decide (k = lit "user") then SlotUser
  else if bool_decide (k = lit "port") then SlotPort
  else if bool_decide (k = lit "identityfile") then SlotIdentityFile
  else if bool_decide (k = lit "proxyjump") || bool_decide (k = lit "proxycommand") then SlotRoute
  else SlotAlways.

Definition single_value (parsed : ParsedLine) (l : Z) (slot : DirectiveSlot)
    (make : list Z → ParsedDirective) : ParsedDirective :=
  match values parsed with
  | [v] => make v
  | _ => Blocking (diagnostic InvalidSyntax (Some l) (Some (keyword parsed))
           "Directive requires exactly one value" true) slot
  end.

Definition parse_directive (parsed : ParsedLine) (l : Z) : ParsedDirective :=
  let k := to_ascii_lowercase (keyword parsed) in
  if existsb contains_dangerous_expansion (values parsed) then
    Blocking (diagnostic DangerousExpansion (Some l) (Some (keyword parsed))
      "Command substitution or environment expansion is not imported" true)
      (slot_for_keyword k)
  else if bool_decide (k = lit "hostname") then
    single_value parsed l SlotHostName (λ v, HostName v l)
  else if bool_decide (k = lit "user") then
    single_value parsed l SlotUser (λ v, User v l)
  else if bool_decide (k = lit "port") then
    single_value parsed l SlotPort (λ v, Port v l)
  else if bool_decide (k = lit "identityfile") then
    single_value parsed l SlotIdentityFile (λ v, IdentityFile v l)
  else if bool_decide (k = lit "proxyjump") then
    single_value parsed l SlotRoute (λ v, Route (ProxyJump v) l)
  else if bool_decide (k = lit "proxycommand") then
    Route (ProxyCommand (values parsed)) l
  else if bool_decide (k = lit "include") then
    Blocking (diagnostic IncludeUnsupported (Some l) (Some (keyword parsed))
      "Include is not resolved by the pure-text import preview" true) SlotAlways
  else if is_ignored_directive k then Ignored
  else
    Blocking (diagnostic UnsupportedDirective (Some l) (Some (keyword parsed))
      "Directive is outside the safely importable non-secret subset" true) SlotAlways.

(** ** Endpoints and routes *)

Definition parse_literal_port (value : list Z) : rres string Z :=
  ok_or (match parse_uint u16_max value with
         | Some p => if p =? 0 then None else Some p
         | None => None
         end) "Port must be between 1 and 65535"%string.

Definition parse_host_port (value : list Z) (require_port : bool) : rres string (list Z * Z) :=
  let? (addr, p) :=
    match strip_prefix 91 value with
    | Some after_open =>
        let? (addr, remainder) :=
          ok_or (split_once 93 after_open) "Bracketed endpoint is missing a closing bracket"%string in
        if bool_decide (remainder = []) && negb require_port then Ok (addr, 22)
        else
          let? p := ok_or (strip_prefix 58 remainder)
                      "Bracketed endpoint has invalid trailing syntax"%string in
          let? n := parse_literal_port p in
          Ok (addr, n)
    | None =>
        match rsplit_once 58 value with
        | Some (addr, p) =>
            if contains_char addr 58 then Err "IPv6 endpoints must use brackets"%string
            else let? n := parse_literal_port p in Ok (addr, n)
        | None =>
            if require_port then Err "Endpoint requires an explicit port"%string
            else Ok (value, 22)
        end
    end in
  if bool_decide (addr = []) then Err "Endpoint address is empty"%string
  else Ok (addr, p).

(** [Endpoint::parse] followed by the copy of its two fields. *)
Definition preview_endpoint (addr : list Z) (p : Z) : rres EndpointError OpenSshEndpointPreview :=
  let? e := parse addr p in
  Ok (mkPreview (normalized_address e) (port e)).

Definition parse_jump_hop (value : list Z) : rres string OpenSshJumpHopPreview :=
  if contains_dangerous_expansion value || contains_any value (lit "*?!,") then
    Err "ProxyJump hop must be literal and cannot contain patterns or expansions"%string
  else
    let? (u, ep) :=
      match rsplit_once 64 value with
      | Some (u, ep) =>
          if negb (is_valid_user u) || contains_char u 64
          then Err "ProxyJump user is not a safe literal username"%string
          else Ok (Some u, ep)
      | None => Ok (None, value)
      end in
    let? (addr, p) := parse_host_port ep false in
    let? e := rmap_err (λ _, "ProxyJump endpoint is not a supported literal endpoint"%string)
                (preview_endpoint addr p) in
    Ok (mkHop e u).

Definition parse_proxy_jump (value : list Z) : rres string (list OpenSshJumpHopPreview) :=
  if eq_ignore_ascii_case value (lit "none")
  then Err "ProxyJump none is not a literal jump hop"%string
  else
    let parts := split_char 44 value in
    if bool_decide (parts = []) || (MAX_JUMP_HOPS <? zlen parts)
       || existsb (λ p, bool_decide (p = [])) parts
    then Err "ProxyJump must contain between one and five literal hops"%string
    else rmap parse_jump_hop parts.

Definition parse_proxy_command (vals : list (list Z)) :
    rres (OpenSshDiagnosticCode * string) OpenSshRoutePreview :=
  if match vals with [v] => eq_ignore_ascii_case v (lit "none") | _ => false end then Ok Direct
  else if existsb contains_shell_token vals then
    Err (DangerousToken, "ProxyCommand contains shell or command-substitution syntax"%string)
  else
    let unsupported :=
      Err (UnsupportedProxyCommand,
           "Only the strict /usr/bin/nc proxy form is safely importable"%string) in
    match vals with
    | [v0; v1; v2; v3; v4; v5; v6] =>
        if negb (bool_decide (v0 = lit "/usr/bin/nc")) || negb (bool_decide (v1 = lit "-X"))
           || negb (bool_decide (v3 = lit "-x")) || negb (bool_decide (v5 = lit "%h"))
           || negb (bool_decide (v6 = lit "%p"))
        then unsupported
        else
          let? (addr, p) :=
            rmap_err (λ _, (UnsupportedProxyCommand,
                            "ProxyCommand proxy endpoint must be a literal HOST:PORT"%string))
              (parse_host_port v4 true) in
          let? proxy :=
            rmap_err (λ _, (UnsupportedProxyCommand,
                            "ProxyCommand proxy endpoint is invalid"%string))
              (preview_endpoint addr p) in
          if eq_ignore_ascii_case v2 (lit "connect") then Ok (HttpConnect proxy)
          else if bool_decide (v2 = lit "5") then Ok (Socks5 proxy)
          else Err (UnsupportedProxyCommand, "nc proxy mode must be connect or 5"%string)
    | _ => unsupported
    end.

(** The functions below take [&mut diagnostics]; the model returns the
    diagnostics they push. *)

Definition parse_route (r : option (RouteSource * Z)) :
    OpenSshRoutePreview * list OpenSshDiagnostic :=
  match r with
  | None => (Direct, [])
  | Some (ProxyJump value, l) =>
      match parse_proxy_jump value with
      | Ok hops => (JumpChain hops, [])
      | Err msg => (Direct, [diagnostic InvalidProxyJump (Some l) (Some (lit "ProxyJump")) msg true])
      | Panic => (Direct, [])
      end
  | Some (ProxyCommand vals, l) =>
      match parse_proxy_command vals with
      | Ok r => (r, [])
      | Err (c, msg) => (Direct, [diagnostic c (Some l) (Some (lit "ProxyCommand")) msg true])
      | Panic => (Direct, [])
      end
  end.

(** The token loop of [parse_hostname]; [None] at a token other than [%%]
    and [%h]. *)
Fixpoint expand_hostname (a s : list Z) : option (list Z) :=
  match s with
  | [] => Some []
  | c :: s' =>
      if c =? 37 then
        match s' with
        | e :: s'' =>
            if e =? 37 then cons 37 <$> expand_hostname a s''
            else if e =? 104 then app a <$> expand_hostname a s''
            else None
        | [] => None
        end
      else cons c <$> expand_hostname a s'
  end.

Definition parse_hostname (a : list Z) (value : option (list Z * Z)) :
    option (list Z) * list OpenSshDiagnostic :=
  match value with
  | None => (Some a, [])
  | Some (v, l) =>
      match expand_hostname a v with
      | Some out => (Some out, [])
      | None => (None, [diagnostic InvalidHostName (Some l) (Some (lit "HostName"))
                          "HostName only permits the %% and %h tokens" true])
      end
  end.

Definition parse_port (value : option (list Z * Z)) : option Z * list OpenSshDiagnostic :=
  match value with
  | None => (Some 22, [])
  | Some (v, l) =>
      let bad := (None, [diagnostic InvalidPort (Some l) (Some (lit "Port"))
                           "Port must be an integer between 1 and 65535" true]) in
      match parse_uint u16_max v with
      | Some p => if p =? 0 then bad else (Some p, [])
      | None => bad
      end
  end.

Definition parse_user (value : option (list Z * Z)) : option (list Z) * list OpenSshDiagnostic :=
  match value with
  | None => (None, [])
  | Some (v, l) =>
      if is_valid_user v then (Some v, [])
      else (None, [diagnostic InvalidUser (Some l) (Some (lit "User"))
                     "User must be a bounded literal ASCII username" true])
  end.

(** ** Candidates *)

(** The local variables of [build_candidate]. *)
Record build_state := mkBuild {
  b_diagnostics : list OpenSshDiagnostic;
  b_hostname : option (list Z * Z);
  b_user : option (list Z * Z);
  b_port : option (list Z * Z);
  b_route : option (RouteSource * Z);
  b_hints : list (list Z);
  hostname_seen : bool;
  user_seen : bool;
  port_seen : bool;
  route_seen : bool;
}.

Definition push_diagnostic (st : build_state) (d : OpenSshDiagnostic) : build_state :=
  mkBuild (b_diagnostics st ++ [d]) (b_hostname st) (b_user st) (b_port st) (b_route st)
    (b_hints st) (hostname_seen st) (user_seen st) (port_seen st) (route_seen st).

Definition set_hints (st : build_state) (h : list (list Z)) : build_state :=
  mkBuild (b_diagnostics st) (b_hostname st) (b_user st) (b_port st) (b_route st)
    h (hostname_seen st) (user_seen st) (port_seen st) (route_seen st).

Definition set_hostname (st : build_state) (v : option (list Z * Z)) : build_state :=
  mkBuild (b_diagnostics st) v (b_user st) (b_port st) (b_route st)
    (b_hints st) true (user_seen st) (port_seen st) (route_seen st).

Definition set_user (st : build_state) (v : option (list Z * Z)) : build_state :=
  mkBuild (b_diagnostics st) (b_hostname st) v (b_port st) (b_route st)
    (b_hints st) (hostname_seen st) true (port_seen st) (route_seen st).

Definition set_port (st : build_state) (v : option (list Z * Z)) : build_state :=
  mkBuild (b_diagnostics st) (b_hostname st) (b_user st) v (b_route st)
    (b_hints st) (hostname_seen st) (user_seen st) true (route_seen st).

Definition set_route (st : build_state) (v : option (RouteSource * Z)) : build_state :=
  mkBuild (b_diagnostics st) (b_hostname st) (b_user st) (b_port st) v
    (b_hints st) (hostname_seen st) (user_seen st) (port_seen st) true.

Definition apply_identity_file (st : build_state) (value : list Z) (l : Z) : build_state :=
  if eq_ignore_ascii_case value (lit "none") then set_hints st []
  else if zlen (b_hints st) =? MAX_IDENTITY_FILE_HINTS then
    if existsb (λ d, bool_decide (code d = TooManyIdentityFiles)) (b_diagnostics st) then st
    else push_diagnostic st (diagnostic TooManyIdentityFiles (Some l) (Some (lit "IdentityFile"))
           "IdentityFile hint limit exceeded" true)
  else if is_valid_identity_hint value then set_hints st (b_hints st ++ [value])
  else push_diagnostic st (diagnostic InvalidIdentityFile (Some l) (Some (lit "IdentityFile"))
         "IdentityFile hint is empty, oversized, or contains unsafe syntax" true).

Definition apply_directive (st : build_state) (d : ParsedDirective) : build_state :=
  match d with
  | HostName v l => if hostname_seen st then st else set_hostname st (Some (v, l))
  | User v l => if user_seen st then st else set_user st (Some (v, l))
  | Port v l => if port_seen st then st else set_port st (Some (v, l))
  | IdentityFile v l => apply_identity_file st v l
  | Route v l => if route_seen st then st else set_route st (Some (v, l))
  | Blocking diag slot =>
      match slot with
      | SlotAlways | SlotIdentityFile => push_diagnostic st diag
      | SlotHostName =>
          if hostname_seen st then st
          else push_diagnostic (set_hostname st (b_hostname st)) diag
      | SlotUser =>
          if user_seen st then st else push_diagnostic (set_user st (b_user st)) diag
      | SlotPort =>
          if port_seen st then st else push_diagnostic (set_port st (b_port st)) diag
      | SlotRoute =>
          if route_seen st then st else push_diagnostic (set_route st (b_route st)) diag
      end
  | Ignored => st
  end.

Definition apply_block (a : list Z) (st : build_state) (b : ConfigBlock) : build_state :=
  if negb (matches (selector b) a) then st
  else
    let st' := mkBuild (b_diagnostics st ++ block_diagnostics b) (b_hostname st) (b_user st)
                 (b_port st) (b_route st) (b_hints st) (hostname_seen st) (user_seen st)
                 (port_seen st) (route_seen st) in
    fold_left apply_directive (directives b) st'.

Definition build_candidate (a : list Z) (blocks : list ConfigBlock)
    (document_diagnostics : list OpenSshDiagnostic) : OpenSshHostCandidate :=
  let st := fold_left (apply_block a) blocks
              (mkBuild document_diagnostics None None None None [] false false false false) in
  let '(parsed_port, d1) := parse_port (b_port st) in
  let '(addr, d2) := parse_hostname a (b_hostname st) in
  let '(ep, d3) :=
    match addr, parsed_port with
    | Some addr, Some p =>
        match preview_endpoint addr p with
        | Ok e => (Some e, [])
        | _ => (None, [diagnostic InvalidHostName (snd <$> b_hostname st) (Some (lit "HostName"))
                         "HostName is not a supported IPv4, IPv6, or ASCII DNS address" true])
        end
    | _, _ => (None, [])
    end in
  let '(u, d4) := parse_user (b_user st) in
  let '(r, d5) := parse_route (b_route st) in
  let diags := b_diagnostics st ++ d1 ++ d2 ++ d3 ++ d4 ++ d5 in
  let imp := match ep with Some _ => true | None => false end
             && forallb (λ d, negb (blocking d)) diags in
  mkCandidate a ep u (b_hints st) r diags imp.

(** ** The document *)

(** The local variables of the line loop. *)
Record doc_state := mkDoc {
  blocks : list ConfigBlock;
  current : ConfigBlock;
  aliases : list (list Z);
  seen_aliases : list (list Z);
  document_diagnostics : list OpenSshDiagnostic;
  candidate_limit_reported : bool;
}.

Definition initial_doc : doc_state := mkDoc [] global_block [] [] [] false.

Definition push_document (st : doc_state) (d : OpenSshDiagnostic) : doc_state :=
  mkDoc (blocks st) (current st) (aliases st) (seen_aliases st)
    (document_diagnostics st ++ [d]) (candidate_limit_reported st).

(** The alias loop of a [Host] line. *)
Definition add_alias (l : Z) (st : doc_state) (a : list Z) : doc_state :=
  let key := to_ascii_lowercase a in
  if bool_decide (key ∈ seen_aliases st) then st
  else if zlen (aliases st) =? MAX_CANDIDATES then
    if candidate_limit_reported st then st
    else
      let st' := push_document st (diagnostic TooManyCandidates (Some l) (Some (lit "Host"))
                   "OpenSSH config exceeds the literal Host candidate limit" true) in
      mkDoc (blocks st') (current st') (aliases st') (seen_aliases st')
        (document_diagnostics st') true
  else
    mkDoc (blocks st) (current st) (aliases st ++ [a]) (key :: seen_aliases st)
      (document_diagnostics st) (candidate_limit_reported st).

(** One line that is within the limits. *)
Definition doc_line (l : Z) (raw : list Z) (st : doc_state) : doc_state :=
  match parse_line raw with
  | Ok None => st
  | Err msg =>
      mkDoc (blocks st)
        (mkBlock (selector (current st)) (directives (current st))
           (block_diagnostics (current st) ++
            [diagnostic InvalidSyntax (Some l) None msg true]))
        (aliases st) (seen_aliases st) (document_diagnostics st) (candidate_limit_reported st)
  | Ok (Some parsed) =>
      if eq_ignore_ascii_case (keyword parsed) (lit "host") then
        let '(sel, discovered, diags) := parse_host_selector (values parsed) l in
        let st' := mkDoc (blocks st ++ [current st]) (mkBlock sel [] diags) (aliases st)
                     (seen_aliases st) (document_diagnostics st) (candidate_limit_reported st) in
        fold_left (add_alias l) discovered st'
      else if eq_ignore_ascii_case (keyword parsed) (lit "match") then
        let c := if existsb (λ v, eq_ignore_ascii_case v (lit "exec")) (values parsed)
                 then DangerousToken else MatchUnsupported in
        mkDoc (blocks st ++ [current st])
          (mkBlock Match [] [diagnostic c (Some l) (Some (lit "Match"))
             "Match blocks are not evaluated by the safe import preview" true])
          (aliases st) (seen_aliases st) (document_diagnostics st) (candidate_limit_reported st)
      else
        mkDoc (blocks st)
          (mkBlock (selector (current st))
             (directives (current st) ++ [parse_directive parsed l])
             (block_diagnostics (current st)))
          (aliases st) (seen_aliases st) (document_diagnostics st) (candidate_limit_reported st)
  | Panic => st
  end.

(** The loop, from line index [index]; it stops at the line limit. *)
Fixpoint doc_lines (index : Z) (ls : list (list Z)) (st : doc_state) : doc_state :=
  match ls with
  | [] => st
  | raw :: rest =>
      if MAX_CONFIG_LINES <=? index then
        push_document st (diagnostic TooManyLines (Some (index + 1)) None
          "OpenSSH config exceeds the preview line limit" true)
      else if MAX_LINE_BYTES <? str_len raw then
        doc_lines (index + 1) rest
          (push_document st (diagnostic LineTooLong (Some (index + 1)) None
             "OpenSSH config line exceeds the preview line-length limit" true))
      else doc_lines (index + 1) rest (doc_line (index + 1) raw st)
  end.

(** The state after the loop, with the last block pushed. *)
Definition read_document (input : list Z) : doc_state :=
  let st := doc_lines 0 (lines input) initial_doc in
  mkDoc (blocks st ++ [current st]) (current st) (aliases st) (seen_aliases st)
    (document_diagnostics st ++
     (if bool_decide (aliases st = [])
      then [diagnostic NoLiteralHostCandidates None (Some (lit "Host"))
              "No literal Host aliases were found" false] else []))
    (candidate_limit_reported st).

Definition parse_openssh_config_preview (input : list Z) : OpenSshConfigPreview :=
  if MAX_CONFIG_BYTES <? str_len input then
    mkConfigPreview [] [diagnostic InputTooLarge None None
      "OpenSSH config exceeds the preview byte limit" true]
  else
    let st := read_document input in
    mkConfigPreview
      (map (λ a, build_candidate a (blocks st) (document_diagnostics st)) (aliases st))
      (document_diagnostics st).

(** A small document: defaults after the host, a jump chain, and an [Include]
    in a block that only one of the hosts matches. *)
Definition sample_config : list Z :=
  lit "Host Web db" ++ [10] ++ lit "  HostName %h.Example.COM" ++ [10]
  ++ lit "  Port 2222" ++ [10] ++ lit "Host db" ++ [10] ++ lit "  Include other" ++ [10]
  ++ lit "Host *" ++ [10] ++ lit "  Port 22" ++ [10] ++ lit "  User admin # note" ++ [10]
  ++ lit "  ProxyJump bob@[::1]:2200,gate" ++ [10].

Example sample_preview :
  map (λ c, (alias c, endpoint c, user c, route c, importable c))
    (candidates (parse_openssh_config_preview sample_config)) =
  let r := JumpChain [mkHop (mkPreview (lit "::1") 2200) (Some (lit "bob"));
                      mkHop (mkPreview (lit "gate") 22) None] in
  [(lit "Web", Some (mkPreview (lit "web.example.com") 2222), Some (lit "admin"), r, true);
   (lit "db", Some (mkPreview (lit "db.example.com") 2222), Some (lit "admin"), r, false)].
Proof. vm_compute. reflexivity. Qed.

(** ** Glob patterns *)

(** The reference semantics of host patterns, on bytes. *)
Inductive glob : list Z → list Z → Prop :=
| glob_nil : glob [] []
| glob_star_done p v : glob p v → glob (42 :: p) v
| glob_star_more p c v : glob (42 :: p) v → glob (42 :: p) (c :: v)
| glob_any p c v : glob p v → glob (63 :: p) (c :: v)
| glob_byte b p c v :
    b ≠ 42 → ascii_lower b = ascii_lower c → glob p v → glob (b :: p) (c :: v).

Lemma glob_star p v : glob (42 :: p) v ↔ ∃ v1 v2, v = v1 ++ v2 ∧ glob p v2.
Proof.
  split.
  - intros H. remember (42 :: p) as q eqn:Eq. revert Eq.
    induction H as [|p' v' H|p' c v' H IH|p' c v' H|b p' c v' Hb E H]; intros Eq; simplify_eq.
    + by exists [], v'.
    + destruct IH as (v1 & v2 & -> & ?); [done|]. by exists (c :: v1), v2.
  - intros (v1 & v2 & -> & H). induction v1 as [|c v1 IH]; simpl; by constructor.
Qed.

Definition byte_matches (b c : Z) : bool := (b =? 63) || (ascii_lower b =? ascii_lower c).

Lemma glob_other b p v :
  b ≠ 42 → glob (b :: p) v ↔ ∃ c v', v = c :: v' ∧ byte_matches b c = true ∧ glob p v'.
Proof.
  intros Hb. unfold byte_matches. split.
  - inversion 1; subst; try done.
    + by exists c, v0.
    + exists c, v0. split; [done|]. split; [|done]. apply orb_true_iff. right. by apply Z.eqb_eq.
  - intros (c & v' & -> & [->%Z.eqb_eq|H%Z.eqb_eq]%orb_true_iff & Hg); [by constructor|by apply glob_byte].
Qed.

Lemma glob_app p q v : glob (p ++ q) v ↔ ∃ v1 v2, v = v1 ++ v2 ∧ glob p v1 ∧ glob q v2.
Proof.
  revert v. induction p as [|b p IH]; intros v; simpl.
  - split; [intros; exists [], v; by repeat constructor|]. intros (v1 & v2 & -> & H & ?). by inversion H.
  - destruct (Z.eq_dec b 42) as [->|Hb].
    + rewrite glob_star. split.
      * intros (v1 & v2 & -> & (w1 & w2 & -> & ? & ?)%IH). exists (v1 ++ w1), w2.
        rewrite <- app_assoc. split; [done|]. split; [|done]. apply glob_star. by exists v1, w1.
      * intros (v1 & v2 & -> & (w1 & w2 & -> & ?)%glob_star & ?). exists w1, (w2 ++ v2).
        rewrite <- app_assoc. split; [done|]. apply IH. by exists w2, v2.
    + rewrite glob_other by done. split.
      * intros (c & v' & -> & ? & (w1 & w2 & -> & ? & ?)%IH). exists (c :: w1), w2.
        split; [done|]. split; [|done]. apply glob_other; [done|]. by exists c, w1.
      * intros (v1 & v2 & -> & H & ?). apply glob_other in H as (c & w & -> & ? & ?); [|done].
        exists c, (w ++ v2). split; [done|]. split; [done|]. apply IH. by exists w, v2.
Qed.

(** Row [p] of the table: entry [i] says whether [p] matches the first [i] bytes. *)
Definition row_spec (p value : list Z) (row : list bool) : Prop :=
  length row = S (length value) ∧
  ∀ i, (i ≤ length value)%nat → (nth i row false = true ↔ glob p (take i value)).

Lemma star_scan_spec acc prev i :
  (i < length prev)%nat →
  (nth i (star_scan acc prev) false = true ↔
   acc = true ∨ ∃ j, (j ≤ i)%nat ∧ nth j prev false = true).
Proof.
  revert acc i. induction prev as [|p prev IH]; intros acc i Hi; simpl in *; [lia|].
  destruct i as [|i].
  - rewrite orb_true_iff. split; [intros [->| ->]; [right; by exists 0%nat|by left]|].
    intros [->|(j & Hj & H)]; [by right|]. assert (j = 0)%nat as -> by lia. by left.
  - rewrite IH by lia. rewrite orb_true_iff. split.
    + intros [[->| ->]|(j & Hj & H)]; [right; exists 0%nat; split; [lia|done]|by left|].
      right. exists (S j). split; [lia|done].
    + intros [->|(j & Hj & H)]; [by left; right|]. destruct j as [|j]; [by left; left|].
      right. exists j. split; [lia|done].
Qed.

Lemma star_scan_length acc prev : length (star_scan acc prev) = length prev.
Proof. revert acc. induction prev; intros; simpl; auto. Qed.

Lemma star_row_spec prev i :
  (i < length prev)%nat →
  (nth i (star_row prev) false = true ↔ ∃ j, (j ≤ i)%nat ∧ nth j prev false = true).
Proof.
  destruct prev as [|p prev]; simpl; intros Hi; [lia|]. destruct i as [|i].
  - split; [intros ->; by exists 0%nat|]. intros (j & Hj & H). by assert (j = 0)%nat as -> by lia.
  - rewrite star_scan_spec by lia. split.
    + intros [->|(j & Hj & H)]; [exists 0%nat; split; [lia|done]|exists (S j); split; [lia|done]].
    + intros ([|j] & Hj & H); [by left|]. right. exists j. split; [lia|done].
Qed.

Lemma char_scan_length b prev value :
  (length value < length prev)%nat → length (char_scan b prev value) = length value.
Proof.
  revert value. induction prev as [|p prev IH]; intros [|v value] H; simpl in *; try lia. rewrite IH; lia.
Qed.

Lemma char_scan_spec b prev value i c :
  value !! i = Some c → (length value < length prev)%nat →
  nth i (char_scan b prev value) false = nth i prev false && byte_matches b c.
Proof.
  revert value i. induction prev as [|p prev IH]; intros [|v value] [|i] Hc Hl; simpl in *; try lia; try done.
  - by simplify_eq.
  - apply IH; [done|lia].
Qed.

Lemma take_snoc_inv (value : list Z) i v1 c :
  (i ≤ length value)%nat → take i value = v1 ++ [c] →
  ∃ k, i = S k ∧ v1 = take k value ∧ value !! k = Some c.
Proof.
  intros Hi E. destruct i as [|k]; [by destruct v1|]. exists k. split; [done|].
  destruct (lookup_lt_is_Some_2 value k) as [x Hx]; [lia|].
  rewrite (take_S_r _ _ _ Hx) in E. by apply app_inj_tail in E as [<- <-].
Qed.

Lemma glob_row_spec p value prev b :
  row_spec p value prev → row_spec (p ++ [b]) value (glob_row value prev b).
Proof.
  intros [Hl Hp]. unfold glob_row. destruct (Z.eqb_spec b 42) as [->|Hb].
  - split. { destruct prev; simpl in *; rewrite ?star_scan_length; lia. }
    intros i Hi. rewrite star_row_spec by lia. rewrite glob_app. split.
    + intros (j & Hj & H). apply Hp in H; [|lia]. exists (take j value), (take (i - j) (drop j value)).
      split; [by rewrite take_take_drop; f_equal; lia|]. split; [done|].
      apply glob_star. eexists _, []. rewrite app_nil_r. by repeat constructor.
    + intros (v1 & v2 & E & H & _). exists (length v1).
      assert (length v1 ≤ i)%nat as Hv.
      { apply (f_equal length) in E. rewrite length_app, length_take in E. lia. }
      split; [done|]. apply Hp; [lia|].
      replace (take (length v1) value) with v1; [done|].
      transitivity (take (length v1) (v1 ++ v2)); [by rewrite take_app_length|].
      rewrite <- E, take_take. f_equal. lia.
  - split. { simpl. rewrite char_scan_length; lia. }
    intros [|i] Hi; simpl.
    + rewrite glob_app. split; [done|]. intros (v1 & v2 & E & H & H2).
      rewrite take_0 in E. symmetry in E. apply app_eq_nil in E as [-> ->].
      by apply glob_other in H2 as (c & v' & ? & _).
    + destruct (lookup_lt_is_Some_2 value i) as [c Hc]; [lia|].
      rewrite (char_scan_spec _ _ _ _ c), andb_true_iff, Hp by (done || lia). rewrite glob_app. split.
      * intros [H1 H2]. exists (take i value), [c]. split; [by apply take_S_r|]. split; [done|].
        apply glob_other; [done|]. exists c, []. by repeat constructor.
      * intros (v1 & v2 & E & H1 & H2). apply glob_other in H2 as (c' & v' & -> & Hm & H2); [|done].
        inversion H2; subst. apply take_snoc_inv in E as (k & [= <-] & -> & Hk); [|lia].
        by simplify_eq.
Qed.

Lemma glob_rows_spec q p value prev :
  row_spec p value prev → row_spec (p ++ q) value (fold_left (glob_row value) q prev).
Proof.
  revert p prev. induction q as [|b q IH]; intros p prev H; simpl; [by rewrite app_nil_r|].
  replace (p ++ b :: q) with ((p ++ [b]) ++ q) by by rewrite <- app_assoc.
  by apply IH, glob_row_spec.
Qed.

Lemma glob_init value : row_spec [] value (true :: repeat false (length value)).
Proof.
  split; [simpl; by rewrite repeat_length|]. intros [|i] Hi; simpl.
  - split; [constructor|done].
  - rewrite nth_repeat. split; [done|]. intros H.
    destruct value as [|c value]; [simpl in Hi; lia|]. inversion H.
Qed.

Lemma glob_matches_iff pat value :
  glob_matches pat value = true ↔ glob (utf8_encode pat) (utf8_encode value).
Proof.
  unfold glob_matches. destruct (glob_rows_spec (utf8_encode pat) [] (utf8_encode value) _ (glob_init _)) as [_ H].
  rewrite H by lia. by rewrite firstn_all.
Qed.

(** The dynamic-programming matcher of host patterns decides exactly the
    declarative relation: a star matches any run of bytes, a question mark any
    single byte, every other byte itself up to ASCII case. *)
Theorem glob_matches_correct pat value :
  glob_matches pat value = true ↔ glob (utf8_encode pat) (utf8_encode value).
Proof. apply glob_matches_iff. Qed.

(** ** Quoting *)

(** A word in double quotes with quotes and backslashes escaped. *)
Definition escape_char (c : Z) : list Z := if (c =? 34) || (c =? 92) then [92; c] else [c].
Definition quote_word (w : list Z) : list Z := [34] ++ concat (map escape_char w) ++ [34].
Definition quote_words (ws : list (list Z)) : list Z := join [32] (map quote_word ws).

Lemma tokenize_escaped toks tok w rest :
  tokenize_from toks tok true (Some 34) (concat (map escape_char w) ++ 34 :: rest) =
  tokenize_from toks (tok ++ w) true None rest.
Proof.
  revert tok. induction w as [|c w IH]; intros tok; [by rewrite app_nil_r|].
  replace (tok ++ c :: w) with ((tok ++ [c]) ++ w) by by rewrite <- app_assoc.
  cbn [map concat]. unfold escape_char at 1.
  destruct (Z.eqb_spec c 34) as [->|H34]; [apply IH|].
  destruct (Z.eqb_spec c 92) as [->|H92]; [apply IH|]. cbn [orb app tokenize_from].
  rewrite (proj2 (Z.eqb_neq c 34)), (proj2 (Z.eqb_neq c 92)) by done. apply IH.
Qed.

Lemma tokenize_quoted toks w rest :
  tokenize_from toks [] false None (quote_word w ++ rest) = tokenize_from toks w true None rest.
Proof.
  unfold quote_word. rewrite <- !app_assoc.
  change (tokenize_from toks [] true (Some 34) (concat (map escape_char w) ++ 34 :: rest) =
    tokenize_from toks w true None rest).
  apply tokenize_escaped.
Qed.

Lemma tokenize_quote_words toks ws :
  tokenize_from toks [] false None (quote_words ws) = Ok (toks ++ ws).
Proof.
  unfold quote_words. revert toks. induction ws as [|w ws IH]; intros toks; simpl map.
  - simpl. by rewrite app_nil_r.
  - destruct ws as [|w' ws].
    + simpl join. rewrite <- (app_nil_r (quote_word w)), tokenize_quoted. done.
    + change (join [32] (quote_word w :: map quote_word (w' :: ws)))
        with (quote_word w ++ 32 :: join [32] (map quote_word (w' :: ws))).
      rewrite tokenize_quoted.
      change (tokenize_from (toks ++ [w]) [] false None (join [32] (map quote_word (w' :: ws))) =
        Ok (toks ++ w :: w' :: ws)).
      rewrite IH. by rewrite <- app_assoc.
Qed.

(** Quoting is lossless: any list of words, whatever characters they
    contain (quotes, backslashes, hashes, blanks, nothing at all), written in
    double quotes with escapes and separated by blanks, is read back by the
    tokenizer as the same words. *)
Theorem tokenize_roundtrip ws : tokenize (quote_words ws) = Ok ws.
Proof. apply tokenize_quote_words. Qed.

(** ** Which directives take effect *)

Section FirstValue.
Context {St D X : Type}.
Variables (step : St → D → St) (inv : St → Prop).
Variables (view : St → option X) (touch : D → option X).
Hypothesis step_inv : ∀ st d, inv st → inv (step st d).
Hypothesis step_view : ∀ st d, inv st →
  view (step st d) = match view st with Some x => Some x | None => touch d end.

(** A slot filled by the first directive that touches it. *)
Lemma fold_first ds st :
  inv st → view (fold_left step ds st) =
  match view st with Some x => Some x | None => head (omap touch ds) end.
Proof.
  revert st. induction ds as [|d ds IH]; intros st Hst; simpl.
  - by destruct (view st).
  - rewrite IH, step_view by auto. destruct (view st); [done|]. by destruct (touch d).
Qed.

Lemma fold_inv_left ds st : inv st → inv (fold_left step ds st).
Proof. revert st. induction ds; simpl; auto. Qed.

End FirstValue.

Definition touch_hostname (d : ParsedDirective) : option (option (list Z * Z)) :=
  match d with
  | HostName v l => Some (Some (v, l))
  | Blocking _ SlotHostName => Some None
  | _ => None
  end.

Definition touch_user (d : ParsedDirective) : option (option (list Z * Z)) :=
  match d with
  | User v l => Some (Some (v, l))
  | Blocking _ SlotUser => Some None
  | _ => None
  end.

Definition touch_port (d : ParsedDirective) : option (option (list Z * Z)) :=
  match d with
  | Port v l => Some (Some (v, l))
  | Blocking _ SlotPort => Some None
  | _ => None
  end.

Definition touch_route (d : ParsedDirective) : option (option (RouteSource * Z)) :=
  match d with
  | Route v l => Some (Some (v, l))
  | Blocking _ SlotRoute => Some None
  | _ => None
  end.

(** The value of a slot: that of the first directive, in file order, that
    concerns it in the blocks that match. *)
Definition first_value {X} (touch : ParsedDirective → option (option X))
    (ds : list ParsedDirective) : option X :=
  match head (omap touch ds) with Some x => x | None => None end.

Definition matching_blocks (a : list Z) (bs : list ConfigBlock) : list ConfigBlock :=
  List.filter (λ b, matches (selector b) a) bs.

Definition matching_directives (a : list Z) (bs : list ConfigBlock) : list ParsedDirective :=
  concat (map directives (matching_blocks a bs)).

(** A slot that was not seen is empty. *)
Record build_inv (st : build_state) : Prop := {
  bi_hostname : hostname_seen st = false → b_hostname st = None;
  bi_user : user_seen st = false → b_user st = None;
  bi_port : port_seen st = false → b_port st = None;
  bi_route : route_seen st = false → b_route st = None;
  bi_hints : Forall (λ h, is_valid_identity_hint h = true) (b_hints st);
  bi_hint_count : zlen (b_hints st) ≤ MAX_IDENTITY_FILE_HINTS;
}.

Lemma apply_directive_inv st d : build_inv st → build_inv (apply_directive st d).
Proof.
  intros Hi. pose proof Hi as [H1 H2 H3 H4 H5 H6].
  destruct d as [v l|v l|v l|v l|v l|dg sl|]; simpl; try done;
    try (case_match; [done|by split]).
  - unfold apply_identity_file. case_match; [split; simpl; [done..|constructor|done]|].
    destruct (Z.eqb_spec (zlen (b_hints st)) MAX_IDENTITY_FILE_HINTS).
    + case_match; [done|by split].
    + destruct (is_valid_identity_hint v) eqn:Ev; [|by split]. split; simpl; try done.
      * apply Forall_app. split; [done|by apply Forall_singleton].
      * rewrite zlen_app. change (zlen [v]) with 1. lia.
  - destruct sl; try (by split); case_match; (done || by split).
Qed.

Definition hostname_view (st : build_state) : option (option (list Z * Z)) :=
  if hostname_seen st then Some (b_hostname st) else None.
Definition user_view (st : build_state) : option (option (list Z * Z)) :=
  if user_seen st then Some (b_user st) else None.
Definition port_view (st : build_state) : option (option (list Z * Z)) :=
  if port_seen st then Some (b_port st) else None.
Definition route_view (st : build_state) : option (option (RouteSource * Z)) :=
  if route_seen st then Some (b_route st) else None.

Ltac solve_view :=
  intros [H1 H2 H3 H4 _ _]; destruct_and?;
  match goal with |- context [apply_directive ?st ?d] =>
    destruct d as [v l|v l|v l|v l|v l|dg sl|]; simpl; unfold apply_identity_file;
    try destruct sl; repeat (case_match; simpl in *; try done);
    try (by rewrite H1 by done); try (by rewrite H2 by done);
    try (by rewrite H3 by done); try (by rewrite H4 by done); try congruence
  end.

Lemma hostname_step st d : build_inv st →
  hostname_view (apply_directive st d) =
  match hostname_view st with Some x => Some x | None => touch_hostname d end.
Proof. unfold hostname_view. solve_view. Qed.

Lemma user_step st d : build_inv st →
  user_view (apply_directive st d) =
  match user_view st with Some x => Some x | None => touch_user d end.
Proof. unfold user_view. solve_view. Qed.

Lemma port_step st d : build_inv st →
  port_view (apply_directive st d) =
  match port_view st with Some x => Some x | None => touch_port d end.
Proof. unfold port_view. solve_view. Qed.

Lemma route_step st d : build_inv st →
  route_view (apply_directive st d) =
  match route_view st with Some x => Some x | None => touch_route d end.
Proof. unfold route_view. solve_view. Qed.

(** The directives of the blocks that do not match have no effect on the
    slots, and the diagnostics of the ones that match are all kept. *)
Lemma apply_blocks_inv a bs st : build_inv st → build_inv (fold_left (apply_block a) bs st).
Proof.
  apply fold_inv_left. clear. intros st b [H1 H2 H3 H4 H5 H6]. unfold apply_block. case_match; [by split|].
  apply (fold_inv_left _ _ apply_directive_inv). by split.
Qed.

Lemma apply_blocks_view {X} (view : build_state → option (option X)) touch a bs st :
  (∀ st d, build_inv st → view (apply_directive st d) =
     match view st with Some x => Some x | None => touch d end) →
  (∀ st ds, view (mkBuild ds (b_hostname st) (b_user st) (b_port st) (b_route st) (b_hints st)
     (hostname_seen st) (user_seen st) (port_seen st) (route_seen st)) = view st) →
  build_inv st →
  view (fold_left (apply_block a) bs st) =
  match view st with Some x => Some x | None => head (omap touch (matching_directives a bs)) end.
Proof.
  intros Hstep Hdiag. revert st. induction bs as [|b bs IH]; intros st Hst; simpl.
  { by destruct (view st). }
  rewrite IH by by apply (apply_blocks_inv a [b]).
  unfold apply_block, matching_directives, matching_blocks. simpl.
  destruct (matches (selector b) a); simpl; [|done].
  rewrite (fold_first _ build_inv view touch apply_directive_inv Hstep), Hdiag
    by (destruct Hst; by split).
  destruct (view st); [done|]. rewrite omap_app. by destruct (omap touch (directives b)).
Qed.

Definition empty_build (dd : list OpenSshDiagnostic) : build_state :=
  mkBuild dd None None None None [] false false false false.

Lemma empty_build_inv dd : build_inv (empty_build dd).
Proof. split; simpl; done. Qed.

Lemma build_slots a bs dd :
  let st := fold_left (apply_block a) bs (empty_build dd) in
  let ds := matching_directives a bs in
  b_hostname st = first_value touch_hostname ds ∧ b_user st = first_value touch_user ds ∧
  b_port st = first_value touch_port ds ∧ b_route st = first_value touch_route ds.
Proof.
  intros st ds. pose proof (apply_blocks_inv a bs _ (empty_build_inv dd)) as [H1 H2 H3 H4 _ _].
  fold st in H1, H2, H3, H4.
  pose proof (apply_blocks_view hostname_view touch_hostname a bs _ hostname_step ltac:(done) (empty_build_inv dd)) as V1.
  pose proof (apply_blocks_view user_view touch_user a bs _ user_step ltac:(done) (empty_build_inv dd)) as V2.
  pose proof (apply_blocks_view port_view touch_port a bs _ port_step ltac:(done) (empty_build_inv dd)) as V3.
  pose proof (apply_blocks_view route_view touch_route a bs _ route_step ltac:(done) (empty_build_inv dd)) as V4.
  fold st ds in V1, V2, V3, V4. simpl in V1, V2, V3, V4.
  unfold first_value. rewrite <- V1, <- V2, <- V3, <- V4.
  unfold hostname_view, user_view, port_view, route_view. split_and!;
    [destruct (hostname_seen st)|destruct (user_seen st)|destruct (port_seen st)|destruct (route_seen st)];
    auto.
Qed.

(** The first value wins: the endpoint, user and route of a candidate come
    from the first directive of each kind, in file order, over the blocks
    whose patterns match the alias; without one, the host name is the alias
    itself, the port 22 and the route direct. *)
Theorem first_value_wins a bs dd :
  let ds := matching_directives a bs in
  let c := build_candidate a bs dd in
  alias c = a ∧
  endpoint c =
    match (parse_hostname a (first_value touch_hostname ds)).1,
          (parse_port (first_value touch_port ds)).1 with
    | Some addr, Some p => rok (preview_endpoint addr p)
    | _, _ => None
    end ∧
  user c = (parse_user (first_value touch_user ds)).1 ∧
  route c = (parse_route (first_value touch_route ds)).1.
Proof.
  intros ds c. destruct (build_slots a bs dd) as (H1 & H2 & H3 & H4).
  unfold c, build_candidate. fold (empty_build dd). unfold ds. rewrite H1, H2, H3, H4.
  destruct (parse_port _) as [p d1], (parse_hostname _ _) as [h d2], (parse_user _) as [u d4],
    (parse_route _) as [r d5]. simpl.
  destruct h as [h|], p as [p|]; simpl; try done. by destruct (preview_endpoint h p).
Qed.

(** ** What makes a candidate importable *)

Lemma apply_directive_keeps st d x : x ∈ b_diagnostics st → x ∈ b_diagnostics (apply_directive st d).
Proof.
  intros Hx. destruct d as [v l|v l|v l|v l|v l|dg sl|]; simpl; unfold apply_identity_file;
    try destruct sl; repeat case_match; simpl; set_solver.
Qed.

Lemma apply_directives_keep ds st x :
  x ∈ b_diagnostics st → x ∈ b_diagnostics (fold_left apply_directive ds st).
Proof. revert st. induction ds; simpl; auto using apply_directive_keeps. Qed.

(** Diagnostics that no other directive can hide. *)
Definition unconditional (sl : DirectiveSlot) : bool :=
  match sl with SlotAlways | SlotIdentityFile => true | _ => false end.

Lemma apply_directives_push ds st dg sl :
  Blocking dg sl ∈ ds → unconditional sl = true →
  dg ∈ b_diagnostics (fold_left apply_directive ds st).
Proof.
  intros Hin Hu. revert st. induction ds as [|d ds IH]; intros st; [set_solver|]. simpl.
  apply elem_of_cons in Hin as [<-|Hin]; [|by apply IH].
  apply apply_directives_keep. destruct sl; try done; simpl; set_solver.
Qed.

Lemma apply_block_keeps a st b x : x ∈ b_diagnostics st → x ∈ b_diagnostics (apply_block a st b).
Proof.
  intros Hx. unfold apply_block. case_match; [done|]. apply apply_directives_keep. simpl. set_solver.
Qed.

Lemma apply_blocks_keep a bs st x :
  x ∈ b_diagnostics st → x ∈ b_diagnostics (fold_left (apply_block a) bs st).
Proof. revert st. induction bs; simpl; auto using apply_block_keeps. Qed.

Lemma apply_blocks_collect a bs st b :
  b ∈ bs → matches (selector b) a = true →
  (∀ x, x ∈ block_diagnostics b → x ∈ b_diagnostics (fold_left (apply_block a) bs st)) ∧
  (∀ dg sl, Blocking dg sl ∈ directives b → unconditional sl = true →
     dg ∈ b_diagnostics (fold_left (apply_block a) bs st)).
Proof.
  intros Hin Hm. revert st. induction bs as [|b' bs IH]; intros st; [set_solver|]. simpl.
  apply elem_of_cons in Hin as [<-|Hin]; [|by apply IH]. split.
  - intros x Hx. apply apply_blocks_keep. unfold apply_block. rewrite Hm. simpl.
    apply apply_directives_keep. simpl. set_solver.
  - intros dg sl Hd Hu. apply apply_blocks_keep. unfold apply_block. rewrite Hm. simpl.
    by eapply apply_directives_push.
Qed.

Lemma importable_spec a bs dd :
  let c := build_candidate a bs dd in
  importable c = true ↔ is_Some (endpoint c) ∧ Forall (λ d, blocking d = false) (cand_diagnostics c).
Proof.
  unfold build_candidate.
  destruct (parse_port _) as [p d1], (parse_hostname _ _) as [h d2], (parse_user _) as [u d4],
    (parse_route _) as [r d5]. simpl.
  destruct (match h with Some _ => _ | None => _ end) as [ep d3]. simpl.
  rewrite andb_true_iff, forallb_true_Forall.
  assert (∀ l, Forall (λ d, negb (blocking d) = true) l ↔ Forall (λ d, blocking d = false) l) as ->.
  { intros l. apply Forall_iff. intros d. apply negb_true_iff. }
  destruct ep; naive_solver.
Qed.

Lemma build_diagnostics a bs dd x :
  x ∈ b_diagnostics (fold_left (apply_block a) bs (empty_build dd)) →
  x ∈ cand_diagnostics (build_candidate a bs dd).
Proof.
  intros Hx. unfold build_candidate. fold (empty_build dd).
  destruct (parse_port _) as [p d1], (parse_hostname _ _) as [h d2], (parse_user _) as [u d4],
    (parse_route _) as [r d5]. simpl.
  destruct (match h with Some _ => _ | None => _ end) as [ep d3]. simpl. set_solver.
Qed.

(** ** Safety of candidates *)

Record endpoint_safe (e : OpenSshEndpointPreview) : Prop := {
  es_address : address_safe (address e);
  es_normal : normalize_host_address (address e) = Ok (address e);
  es_port : 1 ≤ pport e ≤ u16_max;
}.

Definition user_safe (u : option (list Z)) : Prop :=
  ∀ v, u = Some v → is_valid_user v = true.

Definition hop_safe (h : OpenSshJumpHopPreview) : Prop :=
  endpoint_safe (hop_endpoint h) ∧ user_safe (hop_user h).

Definition route_safe (r : OpenSshRoutePreview) : Prop :=
  match r with
  | Direct => True
  | JumpChain hops => 1 ≤ zlen hops ≤ MAX_JUMP_HOPS ∧ Forall hop_safe hops
  | HttpConnect p | Socks5 p => endpoint_safe p
  end.

Lemma normalize_fixpoint s o : normalize_host_address s = Ok o → normalize_host_address o = Ok o.
Proof.
  intros [(ip & Hip & ->)|Hh]%normalize_class; [by apply normalize_ip|by apply normalize_hostname].
Qed.

Lemma preview_endpoint_safe addr p e :
  preview_endpoint addr p = Ok e → 1 ≤ p ≤ u16_max → endpoint_safe e.
Proof.
  unfold preview_endpoint, parse. intros H Hp. rinv H. rinv E. subst.
  split; simpl; [by eapply normalize_safe|by eapply normalize_fixpoint|done].
Qed.

Lemma parse_literal_port_range v p : parse_literal_port v = Ok p → 1 ≤ p ≤ u16_max.
Proof.
  unfold parse_literal_port. destruct (parse_uint u16_max v) as [n|] eqn:E; [|done].
  apply parse_uint_range in E. destruct (Z.eqb_spec n 0); [done|]. simpl. intros [= <-]. lia.
Qed.

Lemma parse_host_port_range v req addr p : parse_host_port v req = Ok (addr, p) → 1 ≤ p ≤ u16_max.
Proof.
  unfold parse_host_port. intros H. rinv H. destruct x as [a q]. rinv H. simplify_eq.
  assert (1 ≤ 22 ≤ u16_max) as H22 by done.
  destruct (strip_prefix 91 v) as [after|].
  - rinv E. destruct x as [a' rem]. case_match; [by simplify_eq|]. rinv E. simplify_eq.
    by eapply parse_literal_port_range.
  - destruct (rsplit_once 58 v) as [[a' q']|].
    + case_match; [done|]. rinv E. simplify_eq. by eapply parse_literal_port_range.
    + case_match; by simplify_eq.
Qed.

Lemma rmap_err_Ok {E F A} (f : E → F) (x : rres E A) a : rmap_err f x = Ok a ↔ x = Ok a.
Proof. destruct x; simpl; naive_solver. Qed.

Lemma parse_jump_hop_safe v h : parse_jump_hop v = Ok h → hop_safe h.
Proof.
  unfold parse_jump_hop. intros H. rinv H. destruct x as [u ep]. rinv H. destruct x as [addr p].
  rinv H. subst. apply rmap_err_Ok in E2. split; simpl.
  - eapply preview_endpoint_safe; [done|]. by eapply parse_host_port_range.
  - destruct (rsplit_once 64 v) as [[u' ep']|]; rinv E0; simplify_eq; intros w Hw; simplify_eq.
    bprop. done.
Qed.

Lemma parse_proxy_jump_safe v hops :
  parse_proxy_jump v = Ok hops → 1 ≤ zlen hops ≤ MAX_JUMP_HOPS ∧ Forall hop_safe hops.
Proof.
  unfold parse_proxy_jump. intros H. rinv H. apply rmap_Ok in H. bprop.
  pose proof (Forall2_length _ _ _ H) as Hl. split.
  - unfold zlen in *. destruct (split_char 44 v); simpl in *; [done|]. lia.
  - clear -H. induction H; constructor; eauto using parse_jump_hop_safe.
Qed.

Lemma parse_proxy_command_safe vals r : parse_proxy_command vals = Ok r → route_safe r.
Proof.
  unfold parse_proxy_command. intros H. destruct (match vals with [_] => _ | _ => _ end); [by simplify_eq|].
  rinv H. destruct vals as [|v0 [|v1 [|v2 [|v3 [|v4 [|v5 [|v6 [|]]]]]]]]; try done. rinv H.
  destruct x as [addr p]. rinv H. apply rmap_err_Ok in E1, E2.
  assert (endpoint_safe x) by (eapply preview_endpoint_safe; [done|by eapply parse_host_port_range]).
  repeat case_match; by simplify_eq.
Qed.

Lemma parse_route_safe r : route_safe (parse_route r).1.
Proof.
  destruct r as [[[v|vals] l]|]; simpl; [..|done].
  - destruct (parse_proxy_jump v) eqn:E; simpl; [by eapply parse_proxy_jump_safe|done|done].
  - destruct (parse_proxy_command vals) as [r|[]|] eqn:E; simpl; [by eapply parse_proxy_command_safe|done|done].
Qed.

Lemma parse_user_safe v : user_safe (parse_user v).1.
Proof.
  destruct v as [[v l]|]; simpl; [|by intros u]. destruct (is_valid_user v) eqn:E; simpl; intros u Hu; by simplify_eq.
Qed.

Lemma parse_port_range v p : (parse_port v).1 = Some p → 1 ≤ p ≤ u16_max.
Proof.
  destruct v as [[v l]|]; simpl; [|by intros [= <-]].
  destruct (parse_uint u16_max v) as [n|] eqn:E; simpl; [|done]. apply parse_uint_range in E.
  destruct (Z.eqb_spec n 0); simpl; [done|]. intros [= <-]. lia.
Qed.

(** What holds of every candidate, importable or not. *)
Record candidate_safe (c : OpenSshHostCandidate) : Prop := {
  cs_endpoint : ∀ e, endpoint c = Some e → endpoint_safe e;
  cs_user : user_safe (user c);
  cs_hints : Forall (λ h, is_valid_identity_hint h = true) (identity_file_hints c);
  cs_hint_count : zlen (identity_file_hints c) ≤ MAX_IDENTITY_FILE_HINTS;
  cs_route : route_safe (route c);
  cs_importable : importable c = true ↔
    is_Some (endpoint c) ∧ Forall (λ d, blocking d = false) (cand_diagnostics c);
}.

Lemma build_candidate_safe a bs dd : candidate_safe (build_candidate a bs dd).
Proof.
  pose proof (importable_spec a bs dd) as Hi.
  pose proof (apply_blocks_inv a bs _ (empty_build_inv dd)) as [_ _ _ _ H5 H6].
  unfold build_candidate in *. fold (empty_build dd) in *.
  pose proof (parse_port_range (b_port (fold_left (apply_block a) bs (empty_build dd)))) as Hp.
  pose proof (parse_user_safe (b_user (fold_left (apply_block a) bs (empty_build dd)))) as Hu.
  pose proof (parse_route_safe (b_route (fold_left (apply_block a) bs (empty_build dd)))) as Hr.
  destruct (parse_port _) as [p d1], (parse_hostname _ _) as [h d2], (parse_user _) as [u d4],
    (parse_route _) as [r d5].
  destruct (match h with Some _ => _ | None => _ end) as [ep d3] eqn:Eep.
  split; simpl in *; try done. intros e ->.
  destruct h as [h|], p as [p|]; simplify_eq.
  destruct (preview_endpoint h p) eqn:E; simplify_eq. by eapply preview_endpoint_safe; auto.
Qed.

(** ** The document invariant *)

Record block_wf (b : ConfigBlock) : Prop := {
  bw_diag : Forall (λ d, blocking d = true) (block_diagnostics b);
  bw_selector : match selector b with
                | Global | Host _ false => True
                | Match | Host _ true => block_diagnostics b ≠ []
                end;
  bw_directives : ∀ d sl, Blocking d sl ∈ directives b → blocking d = true;
}.

Record doc_inv (st : doc_state) : Prop := {
  di_blocks : Forall block_wf (blocks st);
  di_current : block_wf (current st);
  di_aliases : Forall (λ a, is_valid_alias a = true) (aliases st);
  di_distinct : NoDup (map to_ascii_lowercase (aliases st));
  di_seen : ∀ k, k ∈ seen_aliases st ↔ k ∈ map to_ascii_lowercase (aliases st);
  di_count : zlen (aliases st) ≤ MAX_CANDIDATES;
}.

Lemma add_alias_inv l st a : doc_inv st → is_valid_alias a = true → doc_inv (add_alias l st a).
Proof.
  intros Hst Ha. pose proof Hst as [H1 H2 H3 H4 H5 H6]. unfold add_alias. case_bool_decide as Hs; [done|].
  destruct (Z.eqb_spec (zlen (aliases st)) MAX_CANDIDATES); [case_match; [done|by split]|].
  rewrite H5 in Hs. split; simpl; try done.
  - apply Forall_app. split; [done|by apply Forall_singleton].
  - rewrite map_app. apply NoDup_app. split; [done|]. split; [|apply NoDup_singleton].
    intros k Hk ->%list_elem_of_singleton. done.
  - intros k. rewrite map_app, elem_of_cons, elem_of_app, H5. simpl. set_solver.
  - rewrite zlen_app. change (zlen [a]) with 1. lia.
Qed.

Lemma host_value_inv l st v :
  Forall (λ a, is_valid_alias a = true) (sel_discovered st) →
  Forall (λ d, blocking d = true) (sel_diagnostics st) →
  (sel_ambiguous st = true → sel_diagnostics st ≠ []) →
  let st' := host_value l st v in
  Forall (λ a, is_valid_alias a = true) (sel_discovered st') ∧
  Forall (λ d, blocking d = true) (sel_diagnostics st') ∧
  (sel_ambiguous st' = true → sel_diagnostics st' ≠ []).
Proof.
  intros H1 H2 H3. unfold host_value. destruct (match strip_prefix 33 v with Some _ => _ | None => _ end) as [neg pat].
  assert (∀ l (d : OpenSshDiagnostic), l ++ [d] ≠ []) as Happ by (by intros []).
  assert (∀ d, blocking d = true → Forall (λ d, blocking d = true) (sel_diagnostics st ++ [d])) as Hf.
  { intros d Hd. apply Forall_app. split; [done|by apply Forall_singleton]. }
  case_match; [simpl; auto|]. case_match; [simpl; auto|]. case_match; [|simpl; auto].
  destruct (is_valid_alias pat) eqn:Ea; simpl; auto. split; [|auto].
  apply Forall_app. split; [done|by apply Forall_singleton].
Qed.

Lemma parse_host_selector_inv vals l sel disc diags :
  parse_host_selector vals l = (sel, disc, diags) →
  block_wf (mkBlock sel [] diags) ∧ Forall (λ a, is_valid_alias a = true) disc.
Proof.
  unfold parse_host_selector. destruct vals as [|v vals].
  { intros [= <- <- <-]. split; [split; simpl; [by apply Forall_singleton|done|set_solver]|done]. }
  assert (∀ vs st, Forall (λ a, is_valid_alias a = true) (sel_discovered st) →
    Forall (λ d, blocking d = true) (sel_diagnostics st) →
    (sel_ambiguous st = true → sel_diagnostics st ≠ []) →
    let st' := fold_left (host_value l) vs st in
    Forall (λ a, is_valid_alias a = true) (sel_discovered st') ∧
    Forall (λ d, blocking d = true) (sel_diagnostics st') ∧
    (sel_ambiguous st' = true → sel_diagnostics st' ≠ [])) as Hfold.
  { induction vs as [|w vs IH]; intros st H1 H2 H3; simpl; [done|].
    destruct (host_value_inv l st w H1 H2 H3) as (? & ? & ?). by apply IH. }
  destruct (Hfold (v :: vals) (mkSel [] [] [] false)) as (Hd & Hg & Ha); [by simpl..|].
  intros [= <- <- <-]. split; [|done]. split; simpl; [done| |set_solver].
  destruct (sel_ambiguous _); [by apply Ha|done].
Qed.

Lemma parse_directive_blocking p l d sl : parse_directive p l = Blocking d sl → blocking d = true.
Proof.
  unfold parse_directive, single_value. intros H.
  repeat case_match; simplify_eq; done.
Qed.

Lemma doc_line_inv l raw st : doc_inv st → doc_inv (doc_line l raw st).
Proof.
  intros Hst. pose proof Hst as [H1 H2 H3 H4 H5 H6]. unfold doc_line.
  destruct (parse_line raw) as [[parsed|]|msg|]; [|done| |done].
  - destruct (eq_ignore_ascii_case _ (lit "host")).
    { destruct (parse_host_selector _ _) as [[sel disc] diags] eqn:Es.
      apply parse_host_selector_inv in Es as [Hb Hd].
      assert (∀ ds st', Forall (λ a, is_valid_alias a = true) ds → doc_inv st' →
        doc_inv (fold_left (add_alias l) ds st')) as Hf.
      { clear. induction ds as [|d ds IH]; intros st' Hd Hi; simpl; [done|].
        apply Forall_cons in Hd as [? ?]. apply IH; [done|]. by apply add_alias_inv. }
      apply Hf; [done|]. split; simpl; try done. apply Forall_app. split; [done|by apply Forall_singleton]. }
    destruct (eq_ignore_ascii_case _ (lit "match")).
    { split; simpl; try done; [apply Forall_app; split; [done|by apply Forall_singleton]|].
      split; simpl; [by apply Forall_singleton|done|set_solver]. }
    split; simpl; try done. destruct H2 as [Hb1 Hb2 Hb3]. split; simpl; [done|done|].
    intros d sl [Hin|Hin%list_elem_of_singleton]%elem_of_app; [by eapply Hb3|].
    symmetry in Hin. by eapply parse_directive_blocking.
  - split; simpl; try done. destruct H2 as [Hb1 Hb2 Hb3]. split; simpl; [|by repeat case_match; destruct (block_diagnostics (current st))|done].
    apply Forall_app. split; [done|by apply Forall_singleton].
Qed.

Lemma doc_lines_inv index ls st : doc_inv st → doc_inv (doc_lines index ls st).
Proof.
  revert index st. induction ls as [|raw ls IH]; intros index st Hst; simpl; [done|].
  assert (∀ d, doc_inv (push_document st d)) as Hp by (intros d; destruct Hst; by split).
  case_match; [done|]. case_match; [by apply IH|by apply IH, doc_line_inv].
Qed.

Lemma read_document_inv input : doc_inv (read_document input).
Proof.
  assert (doc_inv (doc_lines 0 (lines input) initial_doc)) as [H1 H2 H3 H4 H5 H6].
  { apply doc_lines_inv. split; simpl; try done; [|constructor].
    split; simpl; [done|done|set_solver]. }
  split; simpl; try done. apply Forall_app. split; [done|by apply Forall_singleton].
Qed.

Lemma candidate_build input c :
  c ∈ candidates (parse_openssh_config_preview input) →
  ∃ a, a ∈ aliases (read_document input) ∧
    c = build_candidate a (blocks (read_document input)) (document_diagnostics (read_document input)).
Proof.
  unfold parse_openssh_config_preview. case_match; simpl; [set_solver|].
  intros (a & -> & Ha)%list_elem_of_fmap. by exists a.
Qed.

Lemma build_candidate_alias a bs dd : alias (build_candidate a bs dd) = a.
Proof.
  unfold build_candidate.
  destruct (parse_port _) as [p d1], (parse_hostname _ _) as [h d2], (parse_user _) as [u d4],
    (parse_route _) as [r d5]. by destruct (match h with Some _ => _ | None => _ end).
Qed.

Lemma importable_no_blocking a bs dd x :
  importable (build_candidate a bs dd) = true →
  x ∈ b_diagnostics (fold_left (apply_block a) bs (empty_build dd)) → blocking x = false.
Proof.
  intros [_ Hi]%importable_spec Hx. rewrite Forall_forall in Hi. by apply Hi, build_diagnostics.
Qed.

(** Document diagnostics are only ever added. *)
Lemma add_alias_keeps l st a x :
  x ∈ document_diagnostics st → x ∈ document_diagnostics (add_alias l st a).
Proof. unfold add_alias. repeat case_match; simpl; set_solver. Qed.

Lemma doc_line_keeps l raw st x :
  x ∈ document_diagnostics st → x ∈ document_diagnostics (doc_line l raw st).
Proof.
  intros Hx. unfold doc_line. destruct (parse_line raw) as [[parsed|]|msg|]; simpl; try done.
  case_match; [|by case_match]. destruct (parse_host_selector _ _) as [[sel disc] diags].
  set (st' := mkDoc _ _ _ _ _ _). assert (x ∈ document_diagnostics st') as Hx' by done.
  clearbody st'. clear -Hx'. revert st' Hx'. induction disc; simpl; auto using add_alias_keeps.
Qed.

Lemma doc_lines_keep index ls st x :
  x ∈ document_diagnostics st → x ∈ document_diagnostics (doc_lines index ls st).
Proof.
  revert index st. induction ls as [|raw ls IH]; intros index st Hx; simpl; [done|].
  case_match; [simpl; set_solver|]. case_match; apply IH; [simpl; set_solver|by apply doc_line_keeps].
Qed.

(** A line beyond a limit leaves a blocking diagnostic of the document. *)
Lemma doc_lines_limit index ls st i raw :
  ls !! i = Some raw →
  MAX_CONFIG_LINES ≤ index + Z.of_nat i ∨ MAX_LINE_BYTES < str_len raw →
  ∃ x, x ∈ document_diagnostics (doc_lines index ls st) ∧ blocking x = true.
Proof.
  revert index st i. induction ls as [|r ls IH]; intros index st i Hi Hlim; simpl; [done|].
  destruct (Z.leb_spec MAX_CONFIG_LINES index).
  { eexists. split; [simpl; apply elem_of_app; right; by apply list_elem_of_singleton|done]. }
  destruct i as [|i]; simplify_eq/=.
  - destruct Hlim as [|Hlim]; [lia|]. rewrite (proj2 (Z.ltb_lt _ _) Hlim).
    eexists. split; [apply doc_lines_keep; simpl; apply elem_of_app; right;
      by apply list_elem_of_singleton|done].
  - case_match; eapply IH; try done; (destruct Hlim; [left; lia|by right]).
Qed.

(** Whatever the text, every candidate of the preview is safe: its
    endpoint is a normalized address with a port in 1..65535, its user a
    literal user name, at most 64 identity hints free of control characters
    and shell syntax, a route of at most five safe hops or a safe proxy; and
    it is importable exactly when it has an endpoint and none of its
    diagnostics blocks. *)
Theorem preview_candidates_safe input c :
  c ∈ candidates (parse_openssh_config_preview input) →
  is_valid_alias (alias c) = true ∧ candidate_safe c.
Proof.
  intros (a & Ha & ->)%candidate_build. rewrite build_candidate_alias.
  split; [|apply build_candidate_safe].
  pose proof (di_aliases _ (read_document_inv input)) as H. rewrite Forall_forall in H. by apply H.
Qed.

Definition web_candidate : OpenSshHostCandidate :=
  build_candidate (lit "Web") (blocks (read_document sample_config))
    (document_diagnostics (read_document sample_config)).

Lemma web_candidate_in : web_candidate ∈ candidates (parse_openssh_config_preview sample_config).
Proof. vm_compute. left. Qed.

Lemma preview_candidates_safe_witness : candidate_safe web_candidate.
Proof. apply (preview_candidates_safe sample_config). apply web_candidate_in. Defined.

(** The candidates of a preview are at most 512 and their aliases are
    pairwise different even when ASCII case is ignored. *)
Theorem preview_candidates_distinct input :
  let cs := candidates (parse_openssh_config_preview input) in
  zlen cs ≤ MAX_CANDIDATES ∧ NoDup (map (λ c, to_ascii_lowercase (alias c)) cs).
Proof.
  unfold parse_openssh_config_preview. case_match; simpl; [split; [done|constructor]|].
  pose proof (read_document_inv input) as [_ _ _ H4 _ H6]. split.
  - unfold zlen. rewrite length_map. exact H6.
  - rewrite map_map. replace (map _ (aliases _)) with (map to_ascii_lowercase (aliases (read_document input)));
      [done|]. apply map_ext. intros a. by rewrite build_candidate_alias.
Qed.



(** The limits fail closed too: when a line is longer than 4096 bytes, or
    there are more than 8192 lines, no candidate of the document can be
    imported. *)
Theorem limits_fail_closed input i raw c :
  lines input !! i = Some raw →
  MAX_CONFIG_LINES ≤ Z.of_nat i ∨ MAX_LINE_BYTES < str_len raw →
  c ∈ candidates (parse_openssh_config_preview input) → importable c = false.
Proof.
  intros Hi Hlim (a & Ha & ->)%candidate_build.
  destruct (doc_lines_limit 0 (lines input) initial_doc i raw Hi) as (x & Hx & Hb); [by rewrite Z.add_0_l|].
  destruct (importable _) eqn:E; [|done]. exfalso.
  assert (blocking x = false); [|congruence]. eapply importable_no_blocking; [exact E|].
  apply apply_blocks_keep. simpl. set_solver.
Qed.

Definition long_line_config : list Z :=
  lit "Host a" ++ [10] ++ repeat 120 4097.

Lemma limits_fail_closed_witness :
  let c := build_candidate (lit "a") (blocks (read_document long_line_config))
             (document_diagnostics (read_document long_line_config)) in
  importable c = false.
Proof.
  apply (limits_fail_closed long_line_config 1 (repeat 120 4097));
    [vm_compute; reflexivity|right; vm_compute; reflexivity|vm_compute; left].
Defined.
End OpenSsh.
