(* ===== verification/SyncSchema.v ===== *)
(** * The portable profile bundle (crates/ssh-profile-sync/src/schema.rs)

    The data of an exchanged bundle and its validation. A [PortableObjectId]
    is the number of its UUID (the nil UUID is 0), text is a list of scalar
    values, a [BTreeSet] is a sorted list and a [BTreeMap] a sorted
    association list. [serde_json::Value] is library code: [JsonValue] states
    what the crate uses of it. *)

From stdpp Require Import sorting.
From Stdlib Require Import Sorting.Sorted.
From S2P Require Import Prelude RustStr RustIp BTree SshEndpoint.

Module Sync.

(** ** Library values *)

(** What the crate uses of [serde_json]: equality of values, the keys of an
    object value, and the length of the encoded preferences ([None] when
    serialization fails). *)
Class JsonValue (J : Type) := {
  json_eq_dec : EqDecision J;
  as_object_keys : J → option (list (list Z));
  encoded_len : list Z → Z → list (list Z * J) → option Z;
}.
#[global] Existing Instance json_eq_dec.

(** ** Errors *)

Inductive SyncCodecError :=
| InvalidBundle (what : string)
| BoundExceeded (what : string)
| DuplicateObjectId
| DanglingObjectReference
| InvalidSyncKey
| InvalidNonce
| BindingMismatch
| AuthenticationFailed
| InvalidRecoveryPassword
| KeyDerivation
| UnsupportedKdfProfile
| Random
| Serialization.

Abbreviation result := (rres SyncCodecError).

(** ** Data *)

Definition MAX_OBJECTS_PER_KIND : Z := 10000.
Definition MAX_SMALL_TEXT_BYTES : Z := 1024.
Definition MAX_LARGE_TEXT_BYTES : Z := 64 * 1024.
Definition MAX_COLLECTION_ITEMS : Z := 1024.

Inductive BundleSchema := SV1 | SV2 | SV3 | SV4 | SV5 | SV6.
Inductive PortableDataCategory := Hosts | Credentials | DesktopProfiles.

Inductive PortableObjectKind :=
| Host | DesktopProfile | Identity | Credential | Route | AuthenticationPlan
| AlgorithmPolicy | HeartbeatPolicy | MonitoringPolicy | LoginAutomation | Secret.

#[global] Instance schema_eq_dec : EqDecision BundleSchema.
Proof. solve_decision. Defined.
#[global] Instance category_eq_dec : EqDecision PortableDataCategory.
Proof. solve_decision. Defined.
#[global] Instance kind_eq_dec : EqDecision PortableObjectKind.
Proof. solve_decision. Defined.

Definition for_kind (k : PortableObjectKind) : PortableDataCategory :=
  match k with
  | Host | Route | AuthenticationPlan | AlgorithmPolicy | HeartbeatPolicy
  | MonitoringPolicy | LoginAutomation => Hosts
  | Identity | Credential | Secret => Credentials
  | DesktopProfile => DesktopProfiles
  end.

(** The derived orders: by declaration. *)
Definition category_rank (c : PortableDataCategory) : Z :=
  match c with Hosts => 0 | Credentials => 1 | DesktopProfiles => 2 end.

Definition kind_rank (k : PortableObjectKind) : Z :=
  match k with
  | Host => 0 | DesktopProfile => 1 | Identity => 2 | Credential => 3 | Route => 4
  | AuthenticationPlan => 5 | AlgorithmPolicy => 6 | HeartbeatPolicy => 7
  | MonitoringPolicy => 8 | LoginAutomation => 9 | Secret => 10
  end.

Lemma kind_rank_inj a b : kind_rank a = kind_rank b → a = b.
Proof. by destruct a, b. Qed.

#[global] Program Instance kind_ordkey : OrdKey PortableObjectKind :=
  {| kcmp a b := Z.compare (kind_rank a) (kind_rank b) |}.
Next Obligation. intros a b. rewrite Z.compare_eq_iff. split; [apply kind_rank_inj|congruence]. Qed.
Next Obligation. intros. apply Z.compare_antisym. Qed.
Next Obligation. intros a b c. rewrite !Z.compare_lt_iff. lia. Qed.

Abbreviation PortableObjectId := Z.

(** [PortableObjectId::from_uuid]. *)
Definition from_uuid (uuid : Z) : result PortableObjectId :=
  if uuid =? 0 then Err (InvalidBundle "portable object ID must not be nil") else Ok uuid.

Record PortableItemUpdateTime := mkTime {
  ut_kind : PortableObjectKind;
  ut_id : PortableObjectId;
  update_time_unix_ms : Z;
}.

Record PortableTombstone := mkTombstone {
  tomb_kind : PortableObjectKind;
  tomb_id : PortableObjectId;
}.

Record PortableHost := mkHost {
  host_id : PortableObjectId;
  host_label : list Z;
  host_address : list Z;
  host_port : Z;
  host_username : option (list Z);
  favorite : bool;
  tags : list (list Z);
  host_identity_id : option PortableObjectId;
  route_id : PortableObjectId;
  authentication_plan_id : PortableObjectId;
  algorithm_policy_id : PortableObjectId;
  heartbeat_policy_id : PortableObjectId;
  monitoring_policy_id : PortableObjectId;
  login_automation_id : option PortableObjectId;
}.

Inductive PortableVncResolutionMode := VncServer | VncFixed | VncAdaptive.
Inductive PortableRdpResolutionMode := RdpFixed | RdpAdaptive.
Inductive PortableRdpTransportMode := TransportAuto | TcpOnly | UdpRequired.
Inductive PortableRdpGraphicsMode := GraphicsAuto | RemoteFx | Avc420 | Bitmap.
Inductive PortableVncProtocolVersion := VncAuto | Rfb33 | Rfb37 | Rfb38.
Inductive PortableDesktopProtocol := Rdp | Vnc.

#[global] Instance vnc_res_eq_dec : EqDecision PortableVncResolutionMode.
Proof. solve_decision. Defined.
#[global] Instance rdp_res_eq_dec : EqDecision PortableRdpResolutionMode.
Proof. solve_decision. Defined.
#[global] Instance rdp_transport_eq_dec : EqDecision PortableRdpTransportMode.
Proof. solve_decision. Defined.
#[global] Instance rdp_graphics_eq_dec : EqDecision PortableRdpGraphicsMode.
Proof. solve_decision. Defined.
#[global] Instance vnc_version_eq_dec : EqDecision PortableVncProtocolVersion.
Proof. solve_decision. Defined.
#[global] Instance protocol_eq_dec : EqDecision PortableDesktopProtocol.
Proof. solve_decision. Defined.

Record PortableDesktopProfile := mkDesktop {
  desktop_id : PortableObjectId;
  desktop_label : list Z;
  protocol : PortableDesktopProtocol;
  desktop_address : list Z;
  desktop_port : Z;
  desktop_username : list Z;
  domain : list Z;
  desktop_host_id : option PortableObjectId;
  gateway_host_id : option PortableObjectId;
  desktop_credential_id : option PortableObjectId;
  width : Z;
  height : Z;
  clipboard_enabled : bool;
  audio_playback_enabled : bool;
  vnc_protocol_version : PortableVncProtocolVersion;
  vnc_resolution_mode : PortableVncResolutionMode;
  rdp_transport_mode : PortableRdpTransportMode;
  rdp_graphics_mode : PortableRdpGraphicsMode;
  rdp_resolution_mode : PortableRdpResolutionMode;
}.

Record PortableIdentity := mkIdentity {
  identity_id : PortableObjectId;
  identity_label : list Z;
  identity_username : option (list Z);
  identity_credential_ids : list PortableObjectId;
}.

Inductive PublicKeyAlgorithm :=
| Ed25519 | RsaSha256 | RsaSha512 | EcdsaP256 | EcdsaP384 | EcdsaP521.

Inductive PortableCredentialMaterial :=
| PasswordMaterial (password_secret_id : PortableObjectId)
| PrivateKeyMaterial (algorithm : PublicKeyAlgorithm) (public_key_fingerprint : list Z)
    (private_key_secret_id : PortableObjectId) (passphrase_secret_id : option PortableObjectId)
| CertificateMaterial (algorithm : PublicKeyAlgorithm) (public_key_fingerprint : list Z)
    (certificate_secret_id : PortableObjectId) (private_key_secret_id : option PortableObjectId)
    (passphrase_secret_id : option PortableObjectId)
| KeyboardInteractive (max_rounds : Z).

Record PortableCredential := mkCredential {
  credential_id : PortableObjectId;
  credential_identity_id : PortableObjectId;
  credential_label : list Z;
  material : PortableCredentialMaterial;
}.

Inductive RouteIngress :=
| IngressDirect
| IngressHttpConnect (host : list Z) (port : Z) (username : option (list Z))
    (credential_id : option PortableObjectId)
| IngressSocks5 (host : list Z) (port : Z) (username : option (list Z))
    (credential_id : option PortableObjectId) (resolve_dns_remotely : bool).

Record PortableRoute := mkRoute {
  proute_id : PortableObjectId;
  ingress : RouteIngress;
  jump_hops : list PortableObjectId;
}.

Record PortableAuthenticationPlan := mkPlan {
  plan_id : PortableObjectId;
  plan_credential_ids : list PortableObjectId;
}.

Inductive PortableAlgorithmCategory := KeyExchange | HostKey | Cipher | Mac.

Record PortableAlgorithmCompatibilityException := mkException {
  exc_category : PortableAlgorithmCategory;
  exception_id : list Z;
  reason : option (list Z);
}.

Record PortableAlgorithmPolicy := mkAlgorithm {
  algorithm_id : PortableObjectId;
  policy_id : list Z;
  compatibility_exceptions : list PortableAlgorithmCompatibilityException;
}.

Inductive PortableShellHeartbeatLineEnding := EndingNone | Cr | Lf | Crlf.

Inductive HeartbeatMode :=
| Disabled
| TransportKeepalive (interval_seconds reply_timeout_seconds max_missed_replies : Z)
| ShellHeartbeat (interval_seconds idle_seconds : Z) (payload : list Z)
    (line_ending : PortableShellHeartbeatLineEnding).

Record PortableHeartbeatPolicy := mkHeartbeat {
  heartbeat_id : PortableObjectId;
  mode : HeartbeatMode;
}.

Inductive MonitoringResource := Cpu | Memory | RootDisk | AggregateNonLoopbackNetwork.

Record PortableMonitoringPolicy := mkMonitoring {
  monitoring_id : PortableObjectId;
  enabled : bool;
  interval_seconds : Z;
  timeout_seconds : Z;
  interval_millis : option Z;
  timeout_millis : option Z;
  resources : list MonitoringResource;
}.

Inductive LoginAutomationStep :=
| Expect (pattern : list Z) (timeout : Z)
| SendText (text : list Z) (append_enter : bool) (timeout : Z)
| SendSecret (secret_id : PortableObjectId) (secret_label : list Z) (append_enter : bool)
    (timeout : Z).

Record PortableLoginAutomation := mkAutomation {
  automation_id : PortableObjectId;
  steps : list LoginAutomationStep;
}.

Inductive PortableSecretKind :=
| SkPassword | SkPrivateKey | SkPassphrase | SkCertificate | SkLoginAutomation.

#[global] Instance secret_kind_eq_dec : EqDecision PortableSecretKind.
Proof. solve_decision. Defined.

Record PortableSecret := mkSecret {
  secret_id : PortableObjectId;
  secret_kind : PortableSecretKind;
  selected_by_user : bool;
  payload : list Z;
}.

Inductive MachineBoundKind := SshAgent | Fido | HardwareKey.
Inductive MachineBoundSkipReason := MachineBound.

Record SkippedMachineBoundObject := mkSkipped {
  skipped_id : PortableObjectId;
  skipped_kind : MachineBoundKind;
  skip_reason : MachineBoundSkipReason;
}.

Record PortableObjects := mkObjects {
  hosts : list PortableHost;
  desktop_profiles : list PortableDesktopProfile;
  identities : list PortableIdentity;
  credentials : list PortableCredential;
  routes : list PortableRoute;
  authentication_plans : list PortableAuthenticationPlan;
  algorithm_policies : list PortableAlgorithmPolicy;
  heartbeat_policies : list PortableHeartbeatPolicy;
  monitoring_policies : list PortableMonitoringPolicy;
  login_automations : list PortableLoginAutomation;
}.

Record PortablePreferencesV1 {J : Type} := mkPreferences {
  product : list Z;
  version : Z;
  groups : list (list Z * J);
}.
Arguments PortablePreferencesV1 J : clear implicits.
Arguments mkPreferences {J} _ _ _.

Record PortableBundleV1 {J : Type} := mkBundle {
  schema : BundleSchema;
  selected_categories : option (list PortableDataCategory);
  revision : Z;
  objects : PortableObjects;
  preferences : option (PortablePreferencesV1 J);
  secrets : list PortableSecret;
  skipped_machine_bound : list SkippedMachineBoundObject;
  tombstones : list PortableTombstone;
  update_times : list PortableItemUpdateTime;
  preference_update_times : list (list Z * Z);
}.
Arguments PortableBundleV1 J : clear implicits.
Arguments mkBundle {J} _ _ _ _ _ _ _ _ _ _.

#[global] Instance key_algorithm_eq_dec : EqDecision PublicKeyAlgorithm.
Proof. solve_decision. Defined.
#[global] Instance host_eq_dec : EqDecision PortableHost.
Proof. solve_decision. Defined.
#[global] Instance desktop_eq_dec : EqDecision PortableDesktopProfile.
Proof. solve_decision. Defined.
#[global] Instance identity_eq_dec : EqDecision PortableIdentity.
Proof. solve_decision. Defined.
#[global] Instance material_eq_dec : EqDecision PortableCredentialMaterial.
Proof. solve_decision. Defined.
#[global] Instance credential_eq_dec : EqDecision PortableCredential.
Proof. solve_decision. Defined.
#[global] Instance ingress_eq_dec : EqDecision RouteIngress.
Proof. solve_decision. Defined.
#[global] Instance route_eq_dec : EqDecision PortableRoute.
Proof. solve_decision. Defined.
#[global] Instance plan_eq_dec : EqDecision PortableAuthenticationPlan.
Proof. solve_decision. Defined.
#[global] Instance alg_category_eq_dec : EqDecision PortableAlgorithmCategory.
Proof. solve_decision. Defined.
#[global] Instance exception_eq_dec : EqDecision PortableAlgorithmCompatibilityException.
Proof. solve_decision. Defined.
#[global] Instance algorithm_eq_dec : EqDecision PortableAlgorithmPolicy.
Proof. solve_decision. Defined.
#[global] Instance ending_eq_dec : EqDecision PortableShellHeartbeatLineEnding.
Proof. solve_decision. Defined.
#[global] Instance mode_eq_dec : EqDecision HeartbeatMode.
Proof. solve_decision. Defined.
#[global] Instance heartbeat_eq_dec : EqDecision PortableHeartbeatPolicy.
Proof. solve_decision. Defined.
#[global] Instance resource_eq_dec : EqDecision MonitoringResource.
Proof. solve_decision. Defined.
#[global] Instance monitoring_eq_dec : EqDecision PortableMonitoringPolicy.
Proof. solve_decision. Defined.
#[global] Instance step_eq_dec : EqDecision LoginAutomationStep.
Proof. solve_decision. Defined.
#[global] Instance automation_eq_dec : EqDecision PortableLoginAutomation.
Proof. solve_decision. Defined.
#[global] Instance secret_eq_dec : EqDecision PortableSecret.
Proof. solve_decision. Defined.
#[global] Instance tombstone_eq_dec : EqDecision PortableTombstone.
Proof. solve_decision. Defined.

(** ** Field checks *)

Definition validate_count (count : Z) (name : string) : result unit :=
  if MAX_OBJECTS_PER_KIND <? count then Err (BoundExceeded name) else Ok tt.

Definition validate_collection (count : Z) (name : string) : result unit :=
  if MAX_COLLECTION_ITEMS <? count then Err (BoundExceeded name) else Ok tt.

(** A [HashSet] of the elements has as many elements when they are distinct. *)
Definition validate_unique_ids (ids : list PortableObjectId) (name : string) : result unit :=
  let? _ := validate_collection (zlen ids) name in
  if negb (zlen (bset_of ids) =? zlen ids)
  then Err (InvalidBundle "ordered object references must not contain duplicates")
  else Ok tt.

Definition validate_text (value : list Z) (max_bytes : Z) (name : string) : result unit :=
  if bool_decide (value = []) then Err (InvalidBundle name)
  else if max_bytes <? str_len value then Err (BoundExceeded name)
  else if existsb is_control value
  then Err (InvalidBundle "text fields must not contain control characters")
  else Ok tt.

Definition validate_optional_text (value : option (list Z)) (name : string) : result unit :=
  match value with
  | Some v => validate_text v MAX_SMALL_TEXT_BYTES name
  | None => Ok tt
  end.

Definition validate_desktop_text (value : list Z) (name : string) : result unit :=
  if 256 <? str_len value then Err (BoundExceeded name)
  else if existsb is_control value
  then Err (InvalidBundle "desktop text fields must not contain control characters")
  else Ok tt.

Definition validate_desktop_label (value : list Z) : result unit :=
  if bool_decide (trim value = []) then Err (InvalidBundle "desktop label")
  else validate_desktop_text value "desktop label".

(** The label condition of [validate_desktop_endpoint]. *)
Definition bad_desktop_label (label : list Z) : bool :=
  bool_decide (label = [])
  || (63 <? str_len label)
  || negb (forallb (λ b, is_ascii_alphanumeric b || (b =? 45)) (utf8_encode label))
  || negb (match utf8_encode label with b :: _ => is_ascii_alphanumeric b | [] => false end)
  || negb (match rev (utf8_encode label) with b :: _ => is_ascii_alphanumeric b | [] => false end).

Definition validate_desktop_endpoint (input : list Z) (port_ : Z) : result unit :=
  if port_ =? 0 then Err (InvalidBundle "desktop port must be positive")
  else
    let input := trim input in
    if bool_decide (input = []) then Err (InvalidBundle "desktop endpoint")
    else
      let '(address, bracketed) :=
        match (match strip_prefix 91 input with
               | Some v => strip_suffix 93 v
               | None => None
               end) with
        | Some address => (address, true)
        | None => (input, false)
        end in
      match parse_ip address with
      | Some ip =>
          if bracketed && negb (is_ipv6 ip) then Err (InvalidBundle "desktop endpoint") else Ok tt
      | None =>
          if bracketed || negb (forallb is_ascii address)
          then Err (InvalidBundle "desktop endpoint")
          else
            let hostname :=
              to_ascii_lowercase
                (match strip_suffix 46 address with Some a => a | None => address end) in
            if bool_decide (hostname = []) || (253 <? str_len hostname)
            then Err (InvalidBundle "desktop endpoint")
            else
              let labels := split_char 46 hostname in
              if (zlen labels =? 4)
                 && forallb (λ l, forallb is_ascii_digit (utf8_encode l)) labels
              then Err (InvalidBundle "desktop endpoint")
              else if existsb bad_desktop_label labels
              then Err (InvalidBundle "desktop endpoint")
              else Ok tt
      end.

Definition validate_seconds (value : Z) (name : string) : result unit :=
  if negb ((1 <=? value) && (value <=? 86400)) then Err (InvalidBundle name) else Ok tt.

(** [u32::div_ceil]. *)
Definition div_ceil (a b : Z) : Z := (a + b - 1) / b.

(** ** Objects *)

(** The bodies of the loops of [PortableObjects::validate]. *)

Definition validate_host (h : PortableHost) : result unit :=
  let? _ := validate_text (host_label h) MAX_SMALL_TEXT_BYTES "host label" in
  let? _ := validate_text (host_address h) MAX_SMALL_TEXT_BYTES "host address" in
  if host_port h =? 0 then Err (InvalidBundle "host port must be positive")
  else
    let? _ := validate_optional_text (host_username h) "username" in
    let? _ := validate_collection (zlen (tags h)) "host tags" in
    rforall (λ t, validate_text t MAX_SMALL_TEXT_BYTES "host tag") (tags h).

Definition validate_desktop (d : PortableDesktopProfile) : result unit :=
  let? _ := validate_desktop_label (desktop_label d) in
  let? _ := validate_desktop_endpoint (desktop_address d) (desktop_port d) in
  let? _ := validate_desktop_text (desktop_username d) "desktop username" in
  let? _ := validate_desktop_text (domain d) "desktop domain" in
  if bool_decide (protocol d = Vnc) && audio_playback_enabled d
  then Err (InvalidBundle "VNC desktop profiles cannot enable audio playback")
  else if bool_decide (protocol d = Rdp)
          && (negb (bool_decide (vnc_protocol_version d = VncAuto))
              || negb (bool_decide (vnc_resolution_mode d = VncServer)))
  then Err (InvalidBundle "RDP cannot select VNC options")
  else if bool_decide (protocol d = Vnc)
          && (negb (bool_decide (rdp_transport_mode d = TransportAuto))
              || negb (bool_decide (rdp_graphics_mode d = GraphicsAuto))
              || negb (bool_decide (rdp_resolution_mode d = RdpFixed)))
  then Err (InvalidBundle "VNC cannot select RDP transport, graphics or resolution modes")
  else if (width d =? 0) || (height d =? 0) || (8192 <? width d) || (8192 <? height d)
          || (16777216 <? width d * height d)
  then Err (InvalidBundle "invalid desktop dimensions")
  else Ok tt.

Definition validate_identity (i : PortableIdentity) : result unit :=
  let? _ := validate_text (identity_label i) MAX_SMALL_TEXT_BYTES "identity label" in
  let? _ := validate_optional_text (identity_username i) "identity username" in
  validate_unique_ids (identity_credential_ids i) "identity credentials".

Definition validate_credential (c : PortableCredential) : result unit :=
  let? _ := validate_text (credential_label c) MAX_SMALL_TEXT_BYTES "credential label" in
  match material c with
  | PasswordMaterial _ => Ok tt
  | PrivateKeyMaterial _ fp _ _ | CertificateMaterial _ fp _ _ _ =>
      validate_text fp MAX_SMALL_TEXT_BYTES "public key fingerprint"
  | KeyboardInteractive max_rounds =>
      if negb ((1 <=? max_rounds) && (max_rounds <=? 32))
      then Err (InvalidBundle "keyboard-interactive max rounds must be between 1 and 32")
      else Ok tt
  end.

Definition validate_route (r : PortableRoute) : result unit :=
  let? _ := validate_collection (zlen (jump_hops r)) "jump hops" in
  if 5 <? zlen (jump_hops r) then Err (BoundExceeded "jump hops")
  else
    match ingress r with
    | IngressDirect => Ok tt
    | IngressHttpConnect host port username _ | IngressSocks5 host port username _ _ =>
        let? _ := validate_text host MAX_SMALL_TEXT_BYTES "proxy host" in
        if port =? 0 then Err (InvalidBundle "proxy port must be positive")
        else validate_optional_text username "proxy username"
    end.

Definition validate_plan (p : PortableAuthenticationPlan) : result unit :=
  validate_unique_ids (plan_credential_ids p) "authentication plan".

Definition validate_algorithm (p : PortableAlgorithmPolicy) : result unit :=
  let? _ := validate_text (policy_id p) MAX_SMALL_TEXT_BYTES "algorithm policy ID" in
  let? _ := validate_collection (zlen (compatibility_exceptions p))
              "algorithm compatibility exceptions" in
  rforall (λ e,
    let? _ := validate_text (exception_id e) MAX_SMALL_TEXT_BYTES
                "algorithm compatibility exception ID" in
    validate_optional_text (reason e) "algorithm exception reason")
    (compatibility_exceptions p).

Definition validate_heartbeat (p : PortableHeartbeatPolicy) : result unit :=
  match mode p with
  | Disabled => Ok tt
  | TransportKeepalive interval reply max_missed =>
      let? _ := validate_seconds interval "keepalive interval" in
      let? _ := validate_seconds reply "keepalive timeout" in
      if max_missed =? 0 then Err (InvalidBundle "max missed replies must be positive") else Ok tt
  | ShellHeartbeat interval idle payload _ =>
      let? _ := validate_seconds interval "shell heartbeat interval" in
      let? _ := validate_seconds idle "shell heartbeat idle threshold" in
      validate_text payload MAX_LARGE_TEXT_BYTES "shell heartbeat payload"
  end.

Definition validate_monitoring (p : PortableMonitoringPolicy) : result unit :=
  let? _ := validate_seconds (interval_seconds p) "monitoring interval" in
  let? _ := validate_seconds (timeout_seconds p) "monitoring timeout" in
  let? _ :=
    match interval_millis p, timeout_millis p with
    | None, None => Ok tt
    | Some interval, Some timeout =>
        if (1500 <=? interval) && (interval <=? 300000)
           && (500 <=? timeout) && (timeout <=? 30000)
           && (div_ceil interval 1000 =? interval_seconds p)
           && (div_ceil timeout 1000 =? timeout_seconds p)
        then Ok tt else Err (InvalidBundle "invalid monitoring duration")
    | _, _ => Err (InvalidBundle "invalid monitoring duration")
    end in
  validate_collection (zlen (resources p)) "monitoring resources".

Definition validate_step (s : LoginAutomationStep) : result unit :=
  match s with
  | Expect pattern timeout =>
      let? _ := validate_text pattern MAX_LARGE_TEXT_BYTES "expect pattern" in
      validate_seconds timeout "expect timeout"
  | SendText text _ timeout =>
      let? _ := validate_text text MAX_LARGE_TEXT_BYTES "send text" in
      validate_seconds timeout "send text timeout"
  | SendSecret _ label _ timeout =>
      let? _ := validate_text label MAX_SMALL_TEXT_BYTES "send secret label" in
      validate_seconds timeout "send secret timeout"
  end.

Definition validate_automation (a : PortableLoginAutomation) : result unit :=
  let? _ := validate_collection (zlen (steps a)) "login automation steps" in
  rforall validate_step (steps a).

(** [PortableObjects::validate]. *)
Definition validate_objects (o : PortableObjects) : result unit :=
  let? _ := rforall (λ cn, validate_count cn.1 cn.2)
    [(zlen (hosts o), "hosts"); (zlen (desktop_profiles o), "desktop profiles");
     (zlen (identities o), "identities"); (zlen (credentials o), "credentials");
     (zlen (routes o), "routes"); (zlen (authentication_plans o), "authentication plans");
     (zlen (algorithm_policies o), "algorithm policies");
     (zlen (heartbeat_policies o), "heartbeat policies");
     (zlen (monitoring_policies o), "monitoring policies");
     (zlen (login_automations o), "login automations")]%string in
  let? _ := rforall validate_host (hosts o) in
  let? _ := rforall validate_desktop (desktop_profiles o) in
  let? _ := rforall validate_identity (identities o) in
  let? _ := rforall validate_credential (credentials o) in
  let? _ := rforall validate_route (routes o) in
  let? _ := rforall validate_plan (authentication_plans o) in
  let? _ := rforall validate_algorithm (algorithm_policies o) in
  let? _ := rforall validate_heartbeat (heartbeat_policies o) in
  let? _ := rforall validate_monitoring (monitoring_policies o) in
  rforall validate_automation (login_automations o).

Definition objects_all_nodes (o : PortableObjects) : list (PortableObjectKind * PortableObjectId) :=
  map (λ x, (Host, host_id x)) (hosts o)
  ++ map (λ x, (DesktopProfile, desktop_id x)) (desktop_profiles o)
  ++ map (λ x, (Identity, identity_id x)) (identities o)
  ++ map (λ x, (Credential, credential_id x)) (credentials o)
  ++ map (λ x, (Route, proute_id x)) (routes o)
  ++ map (λ x, (AuthenticationPlan, plan_id x)) (authentication_plans o)
  ++ map (λ x, (AlgorithmPolicy, algorithm_id x)) (algorithm_policies o)
  ++ map (λ x, (HeartbeatPolicy, heartbeat_id x)) (heartbeat_policies o)
  ++ map (λ x, (MonitoringPolicy, monitoring_id x)) (monitoring_policies o)
  ++ map (λ x, (LoginAutomation, automation_id x)) (login_automations o).

Definition objects_all_ids (o : PortableObjects) : list PortableObjectId :=
  map host_id (hosts o) ++ map desktop_id (desktop_profiles o)
  ++ map identity_id (identities o) ++ map credential_id (credentials o)
  ++ map proute_id (routes o) ++ map plan_id (authentication_plans o)
  ++ map algorithm_id (algorithm_policies o) ++ map heartbeat_id (heartbeat_policies o)
  ++ map monitoring_id (monitoring_policies o) ++ map automation_id (login_automations o).

(** [slice::sort_by_key]: a stable sort. *)
Fixpoint insert_by {A K} `{OrdKey K} (key : A → K) (x : A) (l : list A) : list A :=
  match l with
  | [] => [x]
  | y :: l' =>
      match kcmp (key x) (key y) with
      | Gt => y :: insert_by key x l'
      | _ => x :: l
      end
  end.

Definition sort_by_key {A K} `{OrdKey K} (key : A → K) (l : list A) : list A :=
  foldr (insert_by key) [] l.

Definition sort_by_id (o : PortableObjects) : PortableObjects := mkObjects
  (sort_by_key host_id (hosts o)) (sort_by_key desktop_id (desktop_profiles o))
  (sort_by_key identity_id (identities o)) (sort_by_key credential_id (credentials o))
  (sort_by_key proute_id (routes o)) (sort_by_key plan_id (authentication_plans o))
  (sort_by_key algorithm_id (algorithm_policies o)) (sort_by_key heartbeat_id (heartbeat_policies o))
  (sort_by_key monitoring_id (monitoring_policies o))
  (sort_by_key automation_id (login_automations o)).

(** ** References *)

(** Lookup in a [HashMap] collected from a list: the last entry wins. *)
Definition hash_get {V} (k : Z) (l : list (Z * V)) : option V := bmap_get k (rev l).

(** The secrets a credential needs, each with its kind. *)
Definition credential_refs (m : PortableCredentialMaterial) :
    list (PortableObjectId * PortableSecretKind) :=
  let opt (o : option Z) k := match o with Some id => [(id, k)] | None => [] end in
  match m with
  | PasswordMaterial id => [(id, SkPassword)]
  | PrivateKeyMaterial _ _ id pass => [(id, SkPrivateKey)] ++ opt pass SkPassphrase
  | CertificateMaterial _ _ id key pass =>
      [(id, SkCertificate)] ++ opt key SkPrivateKey ++ opt pass SkPassphrase
  | KeyboardInteractive _ => []
  end.

Definition is_password (m : PortableCredentialMaterial) : bool :=
  match m with PasswordMaterial _ => true | _ => false end.

Definition ingress_credential (i : RouteIngress) : option PortableObjectId :=
  match i with
  | IngressDirect => None
  | IngressHttpConnect _ _ _ c | IngressSocks5 _ _ _ c _ => c
  end.

Definition mem (x : Z) (l : list Z) : bool := bset_mem x l.
Definition opt_mem (o : option Z) (l : list Z) : bool :=
  match o with Some x => mem x l | None => true end.

Section Bundle.
Context {J : Type} `{JV : JsonValue J}.
Implicit Types b : PortableBundleV1 J.

Definition check (c : bool) : result unit :=
  if c then Ok tt else Err DanglingObjectReference.

Definition validate_references b : result unit :=
  let o := objects b in
  let host_ids := map host_id (hosts o) in
  let identity_ids := map identity_id (identities o) in
  let credential_ids := map credential_id (credentials o) in
  let credentials_by_id := map (λ c, (credential_id c, c)) (credentials o) in
  let identity_credentials := map (λ i, (identity_id i, identity_credential_ids i)) (identities o) in
  let secret_kinds := map (λ s, (secret_id s, secret_kind s)) (secrets b) in
  let? _ := rforall (λ h, check
      (mem (route_id h) (map proute_id (routes o))
       && mem (authentication_plan_id h) (map plan_id (authentication_plans o))
       && mem (algorithm_policy_id h) (map algorithm_id (algorithm_policies o))
       && mem (heartbeat_policy_id h) (map heartbeat_id (heartbeat_policies o))
       && mem (monitoring_policy_id h) (map monitoring_id (monitoring_policies o))
       && opt_mem (host_identity_id h) identity_ids
       && opt_mem (login_automation_id h) (map automation_id (login_automations o)))) (hosts o) in
  let? _ := rforall (λ d,
      let? _ := check (opt_mem (desktop_host_id d) host_ids && opt_mem (gateway_host_id d) host_ids) in
      match desktop_credential_id d with
      | None => Ok tt
      | Some cid =>
          match hash_get cid credentials_by_id with
          | None => Err DanglingObjectReference
          | Some c =>
              check (is_password (material c)
                     && match hash_get (credential_identity_id c) identity_credentials with
                        | Some ids => mem cid ids
                        | None => false
                        end)
          end
      end) (desktop_profiles o) in
  let? _ := rforall (λ i, check (forallb (λ id, mem id credential_ids) (identity_credential_ids i)))
              (identities o) in
  let? _ := rforall (λ c,
      let? _ := check (mem (credential_identity_id c) identity_ids) in
      check (forallb (λ r, bool_decide (hash_get r.1 secret_kinds = Some r.2))
               (credential_refs (material c)))) (credentials o) in
  let? _ := rforall (λ r,
      let? _ := rforall (λ hop, check (mem hop host_ids)) (jump_hops r) in
      check (match ingress_credential (ingress r) with
             | None => true
             | Some id => match hash_get id credentials_by_id with
                          | Some c => is_password (material c)
                          | None => false
                          end
             end)) (routes o) in
  let? _ := rforall (λ p, check (forallb (λ id, mem id credential_ids) (plan_credential_ids p)))
              (authentication_plans o) in
  rforall (λ a, rforall (λ s,
      match s with
      | SendSecret sid _ _ _ => check (bool_decide (hash_get sid secret_kinds = Some SkLoginAutomation))
      | _ => Ok tt
      end) (steps a)) (login_automations o).

(** ** Preferences *)

Definition GROUPS : list (list Z * list (list Z)) := map (λ g, (lit g.1, map lit g.2))
  [("application", ["themePreference"; "locale"; "uiZoom"; "terminalStartupBehavior";
      "newTerminalBehavior"; "singlePaneTabCloseBehavior"]);
   ("appearance", ["terminalThemeMode"; "terminalFontFamily"; "terminalFontSize";
      "terminalFontWeight"; "terminalBoldFontWeight"; "terminalLineHeight";
      "terminalLetterSpacing"; "terminalCursorStyle"; "terminalCursorBlink";
      "customTerminalPalette"; "customTerminalPaletteName"]);
   ("interaction", ["interaction"; "pasteWarning"]);
   ("highlights", ["enabled"; "rules"]);
   ("shortcuts", ["version"; "bindings"]);
   ("files", ["browser"; "rememberLastDirectory"]);
   ("desktop", ["windowCloseBehavior"; "trayShowStatus"; "trayRecentLimit"; "trayShowHostNames";
      "notificationBackgroundOnly"; "notificationFailureOnly"; "notifyTransferCompleted";
      "notifyTransferFailed"; "notifyDisconnected"]);
   ("commandNotifications", ["notificationsEnabled"; "notificationThresholdSeconds"])]%string.

Definition str_mem (k : list Z) (l : list (list Z)) : bool := bset_mem k l.

Definition validate_group (gs : list (list Z * J)) (g : list Z * list (list Z)) : result unit :=
  match bmap_get g.1 gs ≫= as_object_keys with
  | None => Err (InvalidBundle "missing preferences group")
  | Some ks =>
      let appearance := bool_decide (g.1 = lit "appearance") in
      let optional_app_theme := appearance && str_mem (lit "appTheme") ks in
      if negb (zlen ks =? zlen g.2 + (if optional_app_theme then 1 else 0))
         || existsb (λ k, negb (str_mem k g.2)
                          && negb (appearance && bool_decide (k = lit "appTheme"))) ks
      then Err (InvalidBundle "invalid preferences group shape")
      else Ok tt
  end.

(** [PortablePreferencesV1::validate]. *)
Definition validate_preferences (p : PortablePreferencesV1 J) : result unit :=
  if negb (bool_decide (product p = lit "NoriShell")) || negb (version p =? 1)
     || negb (zlen (groups p) =? zlen GROUPS)
  then Err (InvalidBundle "invalid preferences transfer header")
  else
    let? encoded := ok_or (encoded_len (product p) (version p) (groups p)) Serialization in
    if 256 * 1024 <? encoded then Err (BoundExceeded "preferences")
    else rforall (validate_group (groups p)) GROUPS.

(** ** The bundle *)

Definition requires_desktop_mode_schema b : bool :=
  existsb (λ d,
    negb (bool_decide (rdp_transport_mode d = TransportAuto))
    || negb (bool_decide (rdp_graphics_mode d = GraphicsAuto))
    || negb (bool_decide (rdp_resolution_mode d = RdpFixed))
    || negb (bool_decide (vnc_resolution_mode d = VncServer)))
    (desktop_profiles (objects b)).

Definition all_ids b : list PortableObjectId :=
  objects_all_ids (objects b) ++ map secret_id (secrets b)
  ++ map skipped_id (skipped_machine_bound b) ++ map tomb_id (tombstones b).

(** Objects, secrets and tombstones with their kinds. *)
Definition present_nodes b : list (PortableObjectKind * PortableObjectId) :=
  objects_all_nodes (objects b) ++ map (λ s, (Secret, secret_id s)) (secrets b)
  ++ map (λ t, (tomb_kind t, tomb_id t)) (tombstones b).

Definition is_one_of (s : BundleSchema) (l : list BundleSchema) : bool := bool_decide (s ∈ l).

(** [selected.windows(2).any(|pair| pair[0] >= pair[1])]. *)
Fixpoint unordered_categories (l : list PortableDataCategory) : bool :=
  match l with
  | a :: ((c :: _) as rest) => (category_rank c <=? category_rank a) || unordered_categories rest
  | _ => false
  end.

Definition validate_selected b : result unit :=
  match selected_categories b with
  | None => Ok tt
  | Some selected =>
      if negb (bool_decide (schema b = SV6)) || bool_decide (selected = [])
         || (3 <? zlen selected) || unordered_categories selected
      then Err (InvalidBundle "invalid selected categories")
      else if existsb (λ n, negb (bool_decide (for_kind n.1 ∈ selected))) (present_nodes b)
      then Err (InvalidBundle "exchange contains an unselected category")
      else if negb (bool_decide (Credentials ∈ selected))
              && negb (bool_decide (zlen (skipped_machine_bound b) = 0))
      then Err (InvalidBundle "exchange contains an unselected category")
      else Ok tt
  end.

(** The loop over update times, with the set of nodes already timed. *)
Fixpoint validate_times (present : list (PortableObjectKind * PortableObjectId))
    (timed : list (PortableObjectKind * PortableObjectId))
    (ts : list PortableItemUpdateTime) : result unit :=
  match ts with
  | [] => Ok tt
  | t :: ts' =>
      let n := (ut_kind t, ut_id t) in
      if (update_time_unix_ms t <=? 0) || negb (bset_mem n present) || bset_mem n timed
      then Err (InvalidBundle "invalid item update time")
      else validate_times present (n :: timed) ts'
  end.

(** The loop over all ids, with the set already seen. *)
Fixpoint validate_ids (seen : list PortableObjectId) (ids : list PortableObjectId) : result unit :=
  match ids with
  | [] => Ok tt
  | id :: ids' =>
      if id =? 0 then Err (InvalidBundle "portable object ID must not be nil")
      else if mem id seen then Err DuplicateObjectId
      else validate_ids (id :: seen) ids'
  end.

(** The checks on the schema version. *)
Definition validate_schema b : result unit :=
  if bool_decide (schema b = SV1) && negb (bool_decide (zlen (tombstones b) = 0))
  then Err (InvalidBundle "bundle v1 cannot contain tombstones")
  else if negb (bool_decide (schema b = SV6)) && requires_desktop_mode_schema b
  then Err (InvalidBundle "desktop display modes require bundle v6")
  else if negb (is_one_of (schema b) [SV3; SV4; SV5; SV6])
          && negb (bool_decide (zlen (desktop_profiles (objects b)) = 0))
  then Err (InvalidBundle "desktop profiles require bundle v3")
  else if negb (is_one_of (schema b) [SV3; SV4; SV5; SV6])
          && existsb (λ t, bool_decide (tomb_kind t = DesktopProfile)) (tombstones b)
  then Err (InvalidBundle "desktop profile tombstones require bundle v3")
  else
    match schema b, preferences b with
    | (SV4 | SV5 | SV6), Some p => validate_preferences p
    | (SV4 | SV5), None => Err (InvalidBundle "bundle v4/v5 requires preferences")
    | _, Some _ => Err (InvalidBundle "preferences require bundle v4")
    | _, None => Ok tt
    end.

Definition validate_update_times b : result unit :=
  if negb (is_one_of (schema b) [SV5; SV6])
     && (negb (bool_decide (zlen (update_times b) = 0))
         || negb (bool_decide (zlen (preference_update_times b) = 0)))
  then Err (InvalidBundle "update times require bundle v5")
  else if 12 * MAX_OBJECTS_PER_KIND <? zlen (update_times b)
  then Err (BoundExceeded "update times")
  else
    let? _ := validate_times (present_nodes b) [] (update_times b) in
    rforall (λ gt,
      if (gt.2 <=? 0)
         || negb (match preferences b with
                  | Some p => str_mem gt.1 (bmap_keys (groups p))
                  | None => false
                  end)
      then Err (InvalidBundle "invalid preference update time")
      else Ok tt) (preference_update_times b).

(** [PortableBundleV1::validate]. *)
Definition validate b : result unit :=
  let? _ := validate_selected b in
  if revision b =? 0 then Err (InvalidBundle "revision must be positive")
  else
    let? _ := validate_count (zlen (secrets b)) "secrets" in
    let? _ := validate_count (zlen (skipped_machine_bound b)) "skipped objects" in
    let? _ := validate_count (zlen (tombstones b)) "tombstones" in
    let? _ := validate_schema b in
    let? _ := validate_objects (objects b) in
    let? _ := validate_update_times b in
    let? _ := validate_ids [] (all_ids b) in
    let? _ := rforall (λ s, if negb (selected_by_user s)
                then Err (InvalidBundle "secret payload was not explicitly selected by the user")
                else Ok tt) (secrets b) in
    validate_references b.

Definition validate_current_business_exchange b : result unit :=
  let? _ := validate b in
  if negb (bool_decide (schema b = SV6))
     || match preferences b with Some _ => true | None => false end
     || negb (bool_decide (zlen (preference_update_times b) = 0))
  then Err (InvalidBundle "current exchange must contain only business data")
  else Ok tt.

Definition canonicalized b : result (PortableBundleV1 J) :=
  let? _ := validate b in
  Ok (mkBundle (schema b) (selected_categories b) (revision b) (sort_by_id (objects b))
        (preferences b) (sort_by_key secret_id (secrets b))
        (sort_by_key skipped_id (skipped_machine_bound b))
        (sort_by_key (λ t, (tomb_kind t, tomb_id t)) (tombstones b))
        (sort_by_key (λ t, (ut_kind t, ut_id t)) (update_times b))
        (preference_update_times b)).

End Bundle.

(** ** Validation does not panic *)

Lemma validate_count_no_panic n s : validate_count n s ≠ Panic.
Proof. unfold validate_count. rnp. Qed.
Lemma validate_collection_no_panic n s : validate_collection n s ≠ Panic.
Proof. unfold validate_collection. rnp. Qed.
Lemma validate_text_no_panic v n s : validate_text v n s ≠ Panic.
Proof. unfold validate_text. rnp. Qed.
Lemma validate_seconds_no_panic n s : validate_seconds n s ≠ Panic.
Proof. unfold validate_seconds. rnp. Qed.
Lemma validate_desktop_text_no_panic v s : validate_desktop_text v s ≠ Panic.
Proof. unfold validate_desktop_text. rnp. Qed.
Lemma check_no_panic c : check c ≠ Panic.
Proof. unfold check. rnp. Qed.
#[local] Hint Resolve validate_count_no_panic validate_collection_no_panic validate_text_no_panic
  validate_seconds_no_panic validate_desktop_text_no_panic check_no_panic rforall_no_panic : rust.

Lemma validate_optional_text_no_panic v s : validate_optional_text v s ≠ Panic.
Proof. destruct v; simpl; rnp. Qed.
Lemma validate_unique_ids_no_panic v s : validate_unique_ids v s ≠ Panic.
Proof. unfold validate_unique_ids. rnp. Qed.
Lemma validate_desktop_endpoint_no_panic a p : validate_desktop_endpoint a p ≠ Panic.
Proof.
  unfold validate_desktop_endpoint. rnp.
  destruct (match _ with Some a => (a, true) | None => _ end) as [address bracketed].
  case_match; rnp.
Qed.
#[local] Hint Resolve validate_optional_text_no_panic validate_unique_ids_no_panic
  validate_desktop_endpoint_no_panic : rust.

Lemma validate_host_no_panic h : validate_host h ≠ Panic.
Proof. unfold validate_host. rnp. Qed.
Lemma validate_desktop_no_panic d : validate_desktop d ≠ Panic.
Proof. unfold validate_desktop, validate_desktop_label. rnp. Qed.
Lemma validate_identity_no_panic i : validate_identity i ≠ Panic.
Proof. unfold validate_identity. rnp. Qed.
Lemma validate_credential_no_panic c : validate_credential c ≠ Panic.
Proof. unfold validate_credential. rnp. destruct (material c); rnp. Qed.
Lemma validate_route_no_panic r : validate_route r ≠ Panic.
Proof. unfold validate_route. rnp. destruct (ingress r); rnp. Qed.
Lemma validate_algorithm_no_panic p : validate_algorithm p ≠ Panic.
Proof. unfold validate_algorithm. rnp. apply rforall_no_panic. intros. rnp. Qed.
Lemma validate_heartbeat_no_panic p : validate_heartbeat p ≠ Panic.
Proof. unfold validate_heartbeat. destruct (mode p); rnp. Qed.
Lemma validate_monitoring_no_panic p : validate_monitoring p ≠ Panic.
Proof. unfold validate_monitoring. rnp. destruct (interval_millis p), (timeout_millis p); rnp. Qed.
Lemma validate_automation_no_panic a : validate_automation a ≠ Panic.
Proof.
  unfold validate_automation. rnp. apply rforall_no_panic. intros []; simpl; rnp.
Qed.
#[local] Hint Resolve validate_host_no_panic validate_desktop_no_panic validate_identity_no_panic
  validate_credential_no_panic validate_route_no_panic validate_algorithm_no_panic
  validate_heartbeat_no_panic validate_monitoring_no_panic validate_automation_no_panic : rust.

Lemma validate_objects_no_panic o : validate_objects o ≠ Panic.
Proof. unfold validate_objects, validate_plan. rnp. Qed.

Section BundleLemmas.
Context {J : Type} `{JV : JsonValue J}.
Implicit Types b : PortableBundleV1 J.

Lemma validate_group_no_panic (gs : list (list Z * J)) g : validate_group gs g ≠ Panic.
Proof. unfold validate_group. case_match; rnp. Qed.

Lemma validate_preferences_no_panic (p : PortablePreferencesV1 J) : validate_preferences p ≠ Panic.
Proof. unfold validate_preferences. rnp. apply rforall_no_panic, validate_group_no_panic. Qed.

Lemma validate_times_no_panic present timed ts : validate_times present timed ts ≠ Panic.
Proof. revert timed. induction ts; intros; simpl; rnp. Qed.

Lemma validate_ids_no_panic seen ids : validate_ids seen ids ≠ Panic.
Proof. revert seen. induction ids; intros; simpl; rnp. Qed.

Lemma validate_references_no_panic b : validate_references b ≠ Panic.
Proof.
  unfold validate_references. rnp; apply rforall_no_panic; intros.
  - rnp. destruct (desktop_credential_id _); [|done]. case_match; rnp.
  - rnp.
  - rnp.
  - apply rforall_no_panic. intros []; rnp.
Qed.

Lemma validate_no_panic b : validate b ≠ Panic.
Proof.
  unfold validate. rnp.
  - unfold validate_selected. case_match; rnp.
  - unfold validate_schema. rnp. repeat case_match; try done; apply validate_preferences_no_panic.
  - apply validate_objects_no_panic.
  - unfold validate_update_times. rnp; [apply validate_times_no_panic|].
    apply rforall_no_panic. intros. rnp.
  - apply validate_ids_no_panic.
  - apply rforall_no_panic. intros. rnp.
  - apply validate_references_no_panic.
Qed.

(** ** What a valid bundle guarantees *)

Definition opt_in (o : option Z) (l : list Z) : Prop := ∀ x, o = Some x → x ∈ l.

(** A credential that holds a password and is listed by its identity. *)
Definition password_of_identity b (cid : Z) : Prop :=
  ∃ c i sid, c ∈ credentials (objects b) ∧ credential_id c = cid ∧ material c = PasswordMaterial sid ∧
    i ∈ identities (objects b) ∧ identity_id i = credential_identity_id c ∧
    cid ∈ identity_credential_ids i.

Definition has_secret b (sid : Z) (k : PortableSecretKind) : Prop :=
  ∃ s, s ∈ secrets b ∧ secret_id s = sid ∧ secret_kind s = k.

Record bundle_wf b : Prop := {
  wf_ids : NoDup (all_ids b);
  wf_nil : 0 ∉ all_ids b;
  wf_selected : Forall (λ s, selected_by_user s = true) (secrets b);
  wf_hosts : ∀ h, h ∈ hosts (objects b) →
    route_id h ∈ map proute_id (routes (objects b)) ∧
    authentication_plan_id h ∈ map plan_id (authentication_plans (objects b)) ∧
    algorithm_policy_id h ∈ map algorithm_id (algorithm_policies (objects b)) ∧
    heartbeat_policy_id h ∈ map heartbeat_id (heartbeat_policies (objects b)) ∧
    monitoring_policy_id h ∈ map monitoring_id (monitoring_policies (objects b)) ∧
    opt_in (host_identity_id h) (map identity_id (identities (objects b))) ∧
    opt_in (login_automation_id h) (map automation_id (login_automations (objects b)));
  wf_desktops : ∀ d, d ∈ desktop_profiles (objects b) →
    opt_in (desktop_host_id d) (map host_id (hosts (objects b))) ∧
    opt_in (gateway_host_id d) (map host_id (hosts (objects b))) ∧
    (∀ cid, desktop_credential_id d = Some cid → password_of_identity b cid);
  wf_credentials : ∀ c, c ∈ credentials (objects b) →
    credential_identity_id c ∈ map identity_id (identities (objects b)) ∧
    (∀ sid k, (sid, k) ∈ credential_refs (material c) → has_secret b sid k);
  wf_identities : ∀ i cid, i ∈ identities (objects b) → cid ∈ identity_credential_ids i →
    cid ∈ map credential_id (credentials (objects b));
  wf_plans : ∀ p cid, p ∈ authentication_plans (objects b) → cid ∈ plan_credential_ids p →
    cid ∈ map credential_id (credentials (objects b));
  wf_routes : ∀ r, r ∈ routes (objects b) →
    (∀ hop, hop ∈ jump_hops r → hop ∈ map host_id (hosts (objects b))) ∧
    zlen (jump_hops r) ≤ 5 ∧
    (∀ cid, ingress_credential (ingress r) = Some cid →
       ∃ c sid, c ∈ credentials (objects b) ∧ credential_id c = cid ∧ material c = PasswordMaterial sid);
  wf_automations : ∀ a sid l e t, a ∈ login_automations (objects b) →
    SendSecret sid l e t ∈ steps a → has_secret b sid SkLoginAutomation;
  wf_times : NoDup (map (λ t, (ut_kind t, ut_id t)) (update_times b)) ∧
    (∀ t, t ∈ update_times b → 0 < update_time_unix_ms t ∧ (ut_kind t, ut_id t) ∈ present_nodes b);
}.

Lemma check_Ok c u : check c = Ok u ↔ c = true.
Proof. unfold check. destruct u, c; naive_solver. Qed.

Lemma mem_true x l : mem x l = true ↔ x ∈ l.
Proof. apply bset_mem_true. Qed.

Lemma opt_mem_true o l : opt_mem o l = true ↔ opt_in o l.
Proof. unfold opt_mem, opt_in. destruct o; [rewrite mem_true|]; naive_solver. Qed.

Lemma hash_get_elem {V} k (l : list (Z * V)) v : hash_get k l = Some v → (k, v) ∈ l.
Proof. intros H%bmap_get_elem. by apply list_elem_of_In, in_rev, list_elem_of_In. Qed.

Lemma validate_ids_spec ids seen u :
  validate_ids seen ids = Ok u ↔ NoDup ids ∧ 0 ∉ ids ∧ (∀ x, x ∈ ids → x ∉ seen).
Proof.
  destruct u. revert seen. induction ids as [|x ids IH]; intros seen; simpl.
  - split; [|done]. intros _. split; [constructor|set_solver].
  - destruct (Z.eqb_spec x 0) as [->|Hx]; [split; [done|]; intros (_ & H & _); set_solver|].
    destruct (mem x seen) eqn:E.
    + apply mem_true in E. split; [done|]. intros (_ & _ & H). specialize (H x). set_solver.
    + rewrite IH, NoDup_cons. assert (x ∉ seen) by (rewrite <- mem_true; by rewrite E).
      split; intros (H1 & H2 & H3); split_and!; set_solver.
Qed.

Lemma validate_times_spec ts present timed u :
  validate_times present timed ts = Ok u →
  NoDup (map (λ t, (ut_kind t, ut_id t)) ts) ∧
  (∀ t, t ∈ ts → 0 < update_time_unix_ms t ∧ (ut_kind t, ut_id t) ∈ present ∧
     (ut_kind t, ut_id t) ∉ timed).
Proof.
  revert timed. induction ts as [|t ts IH]; intros timed; simpl.
  - intros _. split; [constructor|set_solver].
  - destruct (_ || _) eqn:E; [done|]. bprop. intros [Hnd Hall]%IH.
    assert ((ut_kind t, ut_id t) ∈ present) by by apply bset_mem_true.
    assert ((ut_kind t, ut_id t) ∉ timed) by by apply bset_mem_false.
    split.
    + constructor; [|done]. intros (t' & Ht' & Hin)%list_elem_of_fmap.
      destruct (Hall t' Hin) as (_ & _ & Hn). rewrite <- Ht' in Hn. set_solver.
    + intros t' [->|Hin]%elem_of_cons; [done|]. destruct (Hall t' Hin) as (? & ? & ?). set_solver.
Qed.

Lemma validate_references_Ok b u : validate_references b = Ok u →
  (∀ h, h ∈ hosts (objects b) →
    route_id h ∈ map proute_id (routes (objects b)) ∧
    authentication_plan_id h ∈ map plan_id (authentication_plans (objects b)) ∧
    algorithm_policy_id h ∈ map algorithm_id (algorithm_policies (objects b)) ∧
    heartbeat_policy_id h ∈ map heartbeat_id (heartbeat_policies (objects b)) ∧
    monitoring_policy_id h ∈ map monitoring_id (monitoring_policies (objects b)) ∧
    opt_in (host_identity_id h) (map identity_id (identities (objects b))) ∧
    opt_in (login_automation_id h) (map automation_id (login_automations (objects b)))) ∧
  (∀ d, d ∈ desktop_profiles (objects b) →
    opt_in (desktop_host_id d) (map host_id (hosts (objects b))) ∧
    opt_in (gateway_host_id d) (map host_id (hosts (objects b))) ∧
    (∀ cid, desktop_credential_id d = Some cid → password_of_identity b cid)) ∧
  (∀ c, c ∈ credentials (objects b) →
    credential_identity_id c ∈ map identity_id (identities (objects b)) ∧
    (∀ sid k, (sid, k) ∈ credential_refs (material c) → has_secret b sid k)) ∧
  (∀ i cid, i ∈ identities (objects b) → cid ∈ identity_credential_ids i →
    cid ∈ map credential_id (credentials (objects b))) ∧
  (∀ p cid, p ∈ authentication_plans (objects b) → cid ∈ plan_credential_ids p →
    cid ∈ map credential_id (credentials (objects b))) ∧
  (∀ r, r ∈ routes (objects b) →
    (∀ hop, hop ∈ jump_hops r → hop ∈ map host_id (hosts (objects b))) ∧
    (∀ cid, ingress_credential (ingress r) = Some cid →
       ∃ c sid, c ∈ credentials (objects b) ∧ credential_id c = cid ∧ material c = PasswordMaterial sid)) ∧
  (∀ a sid l e t, a ∈ login_automations (objects b) →
    SendSecret sid l e t ∈ steps a → has_secret b sid SkLoginAutomation).
Proof.
  unfold validate_references. intros H. rinv H.
  apply rforall_Ok in E, E0, E1, E2, E3, E4, H. rewrite Forall_forall in E.
  rewrite Forall_forall in E0. rewrite Forall_forall in E1. rewrite Forall_forall in E2.
  rewrite Forall_forall in E3. rewrite Forall_forall in E4. rewrite Forall_forall in H.
  assert (∀ sid k, hash_get sid (map (λ s, (secret_id s, secret_kind s)) (secrets b)) = Some k →
    has_secret b sid k) as Hsec.
  { intros sid k (s & [= -> ->] & Hs)%hash_get_elem%list_elem_of_fmap. by exists s. }
  split_and!.
  - intros h Hh. specialize (E h Hh). simpl in E. apply check_Ok in E. bprop.
    rewrite <- !opt_mem_true, <- !mem_true. done.
  - intros d Hd. specialize (E0 d Hd). simpl in E0. rinv E0. apply check_Ok in E5.
    bprop. rewrite <- !opt_mem_true. split; [done|]. split; [done|]. intros cid Hcid. rewrite Hcid in E0.
    destruct (hash_get cid _) as [c|] eqn:Ec; [|done]. apply check_Ok in E0. bprop.
    destruct (hash_get (credential_identity_id c) _) as [ids|] eqn:Ei; [|done].
    apply hash_get_elem, list_elem_of_fmap in Ec as (c' & [= -> ->] & Hc).
    apply hash_get_elem, list_elem_of_fmap in Ei as (i & [= Hi ->] & Hin).
    destruct (material c') eqn:Em; try done. exists c', i, password_secret_id.
    by rewrite <- mem_true.
  - intros c Hc. specialize (E2 c Hc). simpl in E2. rinv E2. apply check_Ok in E5, E2.
    split; [by apply mem_true|]. intros sid k Hin. apply Hsec.
    rewrite forallb_true_Forall, Forall_forall in E2. specialize (E2 _ Hin). by bprop.
  - intros i cid Hi Hc. specialize (E1 i Hi). simpl in E1. apply check_Ok in E1.
    rewrite forallb_true_Forall, Forall_forall in E1. by apply mem_true, E1.
  - intros p cid Hp Hc. specialize (E4 p Hp). simpl in E4. apply check_Ok in E4.
    rewrite forallb_true_Forall, Forall_forall in E4. by apply mem_true, E4.
  - intros r Hr. specialize (E3 r Hr). simpl in E3. rinv E3. split.
    + intros hop Hhop. rewrite rforall_Ok, Forall_forall in E5. apply mem_true, (check_Ok _ tt), E5, Hhop.
    + intros cid Hcid. rewrite Hcid in E3. apply check_Ok in E3.
      destruct (hash_get cid _) as [c|] eqn:Ec; [|done].
      apply hash_get_elem, list_elem_of_fmap in Ec as (c' & [= -> ->] & Hc).
      destruct (material c') eqn:Em; try done. by exists c', password_secret_id.
  - intros a sid l e t Ha Hs. specialize (H a Ha). simpl in H.
    rewrite rforall_Ok, Forall_forall in H. specialize (H _ Hs). simpl in H.
    apply check_Ok in H. bprop. by apply Hsec.
Qed.

Lemma validate_wf b u : validate b = Ok u → bundle_wf b.
Proof.
  unfold validate. intros H. rinv H. apply validate_references_Ok in H as (H1 & H2 & H3 & H4 & H5 & H6 & H7).
  apply validate_ids_spec in E7 as (Hn & H0 & _).
  unfold validate_update_times in E6. rinv E6.
  match goal with H : validate_times _ _ _ = Ok _ |- _ => apply validate_times_spec in H as [Ht1 Ht2] end.
  rewrite rforall_Ok in E8.
  split; try done.
  - eapply Forall_impl; [exact E8|]. intros s. simpl. by destruct (selected_by_user s).
  - intros r Hr. destruct (H6 r Hr) as [Hhops Hcred]. split; [done|]. split; [|done].
    unfold validate_objects in E5. rinv E5.
    match goal with H : rforall validate_route _ = Ok _ |- _ =>
      rewrite rforall_Ok, Forall_forall in H; specialize (H r Hr) end.
    match goal with H : validate_route r = Ok _ |- _ => unfold validate_route in H; rinv H end. by bprop.
  - split; [done|]. intros t Ht. by destruct (Ht2 t Ht) as (? & ? & _).
Qed.

End BundleLemmas.

(** ** Canonical form *)

Section Sorting.
Context {A K : Type} `{OrdKey K} (key : A → K).

Definition key_lt (x y : A) : Prop := klt (key x) (key y).

Lemma insert_by_perm x l : insert_by key x l ≡ₚ x :: l.
Proof.
  induction l as [|y l IH]; simpl; [done|]. case_match; [done..|]. rewrite IH. apply Permutation_swap.
Qed.

Lemma sort_by_key_perm l : sort_by_key key l ≡ₚ l.
Proof. induction l as [|x l IH]; simpl; [done|]. by rewrite insert_by_perm, IH. Qed.

Lemma insert_by_sorted x l :
  StronglySorted key_lt l → key x ∉ map key l → StronglySorted key_lt (insert_by key x l).
Proof.
  induction 1 as [|y l Hl IH Hy]; simpl; intros Hx; [by repeat constructor|].
  apply not_elem_of_cons in Hx as [Hne Hx]. destruct (kcmp (key x) (key y)) eqn:E.
  - by apply kcmp_eq in E.
  - constructor; [by constructor|]. constructor; [done|]. eapply Forall_impl; [exact Hy|].
    intros z Hz. by eapply kcmp_trans.
  - constructor; [by apply IH|]. rewrite insert_by_perm. constructor; [by apply kcmp_gt_lt|done].
Qed.

Lemma sort_by_key_sorted l : NoDup (map key l) → StronglySorted key_lt (sort_by_key key l).
Proof.
  induction l as [|x l IH]; simpl; [constructor|]. intros [Hx Hl]%NoDup_cons.
  apply insert_by_sorted; [by apply IH|]. by rewrite (fmap_Permutation key _ _ (sort_by_key_perm l)).
Qed.

#[local] Instance key_lt_antisym : AntiSymm (=) key_lt.
Proof.
  intros x y H1 H2. exfalso. apply (klt_irrefl (key x)). by eapply kcmp_trans.
Qed.

(** Sorting by distinct keys does not depend on the order of the input. *)
Lemma sort_by_key_perm_eq l1 l2 :
  NoDup (map key l1) → l1 ≡ₚ l2 → sort_by_key key l1 = sort_by_key key l2.
Proof.
  intros Hn Hp. assert (NoDup (map key l2)) by (by rewrite <- (fmap_Permutation key _ _ Hp)).
  eapply (StronglySorted_unique key_lt); auto using sort_by_key_sorted.
  by rewrite !sort_by_key_perm.
Qed.

End Sorting.

Section Canonical.
Context {J : Type} `{JV : JsonValue J}.
Implicit Types b : PortableBundleV1 J.

(** The same bundle with its collections in any order. *)
Record same_contents b1 b2 : Prop := {
  sc_schema : schema b1 = schema b2;
  sc_selected : selected_categories b1 = selected_categories b2;
  sc_revision : revision b1 = revision b2;
  sc_preferences : preferences b1 = preferences b2;
  sc_preference_times : preference_update_times b1 = preference_update_times b2;
  sc_hosts : hosts (objects b1) ≡ₚ hosts (objects b2);
  sc_desktops : desktop_profiles (objects b1) ≡ₚ desktop_profiles (objects b2);
  sc_identities : identities (objects b1) ≡ₚ identities (objects b2);
  sc_credentials : credentials (objects b1) ≡ₚ credentials (objects b2);
  sc_routes : routes (objects b1) ≡ₚ routes (objects b2);
  sc_plans : authentication_plans (objects b1) ≡ₚ authentication_plans (objects b2);
  sc_algorithms : algorithm_policies (objects b1) ≡ₚ algorithm_policies (objects b2);
  sc_heartbeats : heartbeat_policies (objects b1) ≡ₚ heartbeat_policies (objects b2);
  sc_monitorings : monitoring_policies (objects b1) ≡ₚ monitoring_policies (objects b2);
  sc_automations : login_automations (objects b1) ≡ₚ login_automations (objects b2);
  sc_secrets : secrets b1 ≡ₚ secrets b2;
  sc_skipped : skipped_machine_bound b1 ≡ₚ skipped_machine_bound b2;
  sc_tombstones : tombstones b1 ≡ₚ tombstones b2;
  sc_times : update_times b1 ≡ₚ update_times b2;
}.

(** Ids are distinct within each collection. *)
Lemma ids_distinct b : bundle_wf b →
  NoDup (map host_id (hosts (objects b))) ∧ NoDup (map desktop_id (desktop_profiles (objects b))) ∧
  NoDup (map identity_id (identities (objects b))) ∧ NoDup (map credential_id (credentials (objects b))) ∧
  NoDup (map proute_id (routes (objects b))) ∧ NoDup (map plan_id (authentication_plans (objects b))) ∧
  NoDup (map algorithm_id (algorithm_policies (objects b))) ∧
  NoDup (map heartbeat_id (heartbeat_policies (objects b))) ∧
  NoDup (map monitoring_id (monitoring_policies (objects b))) ∧
  NoDup (map automation_id (login_automations (objects b))) ∧
  NoDup (map secret_id (secrets b)) ∧ NoDup (map skipped_id (skipped_machine_bound b)) ∧
  NoDup (map tomb_id (tombstones b)).
Proof.
  intros Hb. pose proof (wf_ids _ Hb) as H. unfold all_ids, objects_all_ids in H.
  rewrite !NoDup_app in H. naive_solver.
Qed.

Lemma NoDup_map_pair {A B C} (f : A → B) (g : A → C) l :
  NoDup (map g l) → NoDup (map (λ x, (f x, g x)) l).
Proof.
  induction l as [|x l IH]; simpl; [constructor|]. intros [Hx Hl]%NoDup_cons.
  constructor; [|by apply IH]. intros (y & [= _ Hy] & Hin)%list_elem_of_fmap.
  apply Hx, list_elem_of_fmap. by exists y.
Qed.

End Canonical.

(** ** Properties *)

Section Properties.
Context {J : Type} `{JV : JsonValue J}.
Implicit Types b : PortableBundleV1 J.


(** The canonical form, which is what gets encrypted and digested, does
    not depend on the order in which a bundle lists its contents. *)
Theorem canonical_order_independent b1 b2 c1 c2 :
  same_contents b1 b2 → canonicalized b1 = Ok c1 → canonicalized b2 = Ok c2 → c1 = c2.
Proof.
  unfold canonicalized. intros Hs H1 H2. rinv H1. rinv H2. subst.
  apply validate_wf in E. destruct (ids_distinct b1 E) as (?&?&?&?&?&?&?&?&?&?&?&?&?).
  pose proof (wf_times _ E) as [Ht _]. destruct Hs.
  assert (sort_by_id (objects b1) = sort_by_id (objects b2)) as ->.
  { unfold sort_by_id. f_equal; by apply sort_by_key_perm_eq. }
  f_equal; try done; apply sort_by_key_perm_eq; try done. by apply NoDup_map_pair.
Qed.

End Properties.

(** A bundle with one host and everything it refers to. *)
#[global] Instance json_unit : JsonValue unit :=
  {| json_eq_dec := unit_eq_dec; as_object_keys _ := None; encoded_len _ _ _ := Some 0 |}.

Definition sample_host (label : string) (id : Z) : PortableHost :=
  mkHost id (lit label) (lit "web.example.com") 22 (Some (lit "admin")) false [] (Some 20) 40 50 60 70 80 None.

Definition sample_bundle (rev : Z) (hs : list PortableHost) (times : list PortableItemUpdateTime) :
    PortableBundleV1 unit :=
  mkBundle SV6 None rev
    (mkObjects hs []
       [mkIdentity 20 (lit "me") None [30]] [mkCredential 30 20 (lit "pw") (PasswordMaterial 90)]
       [mkRoute 40 IngressDirect []] [mkPlan 50 [30]] [mkAlgorithm 60 (lit "default") []]
       [mkHeartbeat 70 Disabled] [mkMonitoring 80 true 5 5 None None [Cpu]] [])
    None [mkSecret 90 SkPassword true [115]] [] [] times [].


Lemma canonical_order_independent_witness :
  canonicalized (sample_bundle 1 [sample_host "a" 10; sample_host "b" 5] []) =
  canonicalized (sample_bundle 1 [sample_host "b" 5; sample_host "a" 10] []).
Proof.
  set (b1 := sample_bundle 1 [sample_host "a" 10; sample_host "b" 5] []).
  set (b2 := sample_bundle 1 [sample_host "b" 5; sample_host "a" 10] []).
  destruct (canonicalized b1) as [c1| |] eqn:E1; [|vm_compute in E1; discriminate..].
  destruct (canonicalized b2) as [c2| |] eqn:E2; [|vm_compute in E2; discriminate..].
  f_equal. apply (canonical_order_independent b1 b2); try assumption.
  split; try reflexivity. apply Permutation_swap.
Defined.

(** The endpoint check of desktop profiles, which the bundle crate keeps
    as its own copy, accepts exactly the addresses and ports the SSH endpoint
    parser accepts. *)
Theorem desktop_endpoint_mirrors_ssh address port_ :
  validate_desktop_endpoint address port_ = Ok tt ↔ ∃ e, SshEndpoint.parse address port_ = Ok e.
Proof.
  unfold validate_desktop_endpoint, SshEndpoint.parse, SshEndpoint.normalize_host_address.
  destruct (port_ =? 0); [naive_solver|].
  case_bool_decide; [simpl; naive_solver|].
  destruct (match _ with Some a => (a, true) | None => _ end) as [addr bracketed].
  destruct (parse_ip addr) as [ip|]; [case_match; simpl; naive_solver|].
  destruct (bracketed || _); [simpl; naive_solver|].
  destruct (_ || (253 <? _)); [simpl; naive_solver|].
  unfold SshEndpoint.ambiguous_quad. destruct (_ && _); [simpl; naive_solver|].
  set (h := to_ascii_lowercase _). clearbody h.
  assert (existsb bad_desktop_label (split_char 46 h) =
    negb (forallb SshEndpoint.valid_label (split_char 46 h))) as ->.
  { induction (split_char 46 h) as [|l ls IH]; simpl; [done|]. rewrite IH, negb_andb. f_equal.
    unfold bad_desktop_label, SshEndpoint.valid_label. rewrite !negb_andb, negb_involutive.
    by rewrite Z.ltb_antisym. }
  destruct (forallb _ _); simpl; naive_solver.
Qed.

End Sync.
