(* ===== verification/SyncMerge.v ===== *)
(** * Three-way merge of bundles (crates/ssh-profile-sync/src/merge.rs)

    The merge of a local and a remote bundle against their common base:
    detection of conflicting objects, their resolution by policy over the
    dependency graph, the merge of each kind of object, of tombstones, of
    preferences and of update times, and the checks on the result. The wall
    clock is an argument. Panics ([unreachable!], [expect], indexing) are the
    [Panic] result. *)

From stdpp Require Import sorting.
From Stdlib Require Import Sorting.Sorted.
From S2P Require Import Prelude RustStr BTree SyncSchema.

Module SyncMerge.
Import Sync.

(** ** Data *)

Inductive BundleConflictResolution := KeepLocal | UseRemote | Newest.

#[global] Instance resolution_eq_dec : EqDecision BundleConflictResolution.
Proof. solve_decision. Defined.

Inductive BundleMergeOutcome (J : Type) :=
| Merged (b : PortableBundleV1 J)
| Conflicts (count : Z).
Arguments Merged {J} b.
Arguments Conflicts {J} count.

Definition MAX_FUTURE_CLOCK_SKEW_MS : Z := 5 * 60 * 1000.

Abbreviation ObjectNode := (PortableObjectKind * PortableObjectId)%type.
Abbreviation ResolvedSides := (list (ObjectNode * BundleConflictResolution)).

Inductive Edit (T : Type) := NoOpinion | Value (v : T) | Omit | Delete.
Arguments NoOpinion {T}.
Arguments Value {T} v.
Arguments Omit {T}.
Arguments Delete {T}.

Record Applied (T : Type) := mkApplied { value : option T; tombstone : bool }.
Arguments mkApplied {T} _ _.
Arguments value {T} _.
Arguments tombstone {T} _.

(** ** One object *)

Section Object.
Context {T : Type} `{EqDecision T}.

Definition edit_for (base_present : bool) (v : option T) (deleted : bool) : Edit T :=
  match v, deleted, base_present with
  | Some v, false, _ => Value v
  | None, true, _ => Delete
  | None, false, true => Omit
  | _, _, _ => NoOpinion
  end.

Definition apply_edit (base : option T) (e : Edit T) : Applied T :=
  match e with
  | NoOpinion => mkApplied base false
  | Value v => mkApplied (Some v) false
  | Omit => mkApplied None false
  | Delete => mkApplied None true
  end.

Definition changed (base : option T) (base_deleted : bool) (e : Edit T) (r : Applied T) : bool :=
  match e with
  | NoOpinion => false
  | _ => negb (bool_decide (value r = base)) || negb (Bool.eqb (tombstone r) base_deleted)
  end.

(** What the loops of [merge_values] and [conflict_ids] compute for an id. *)
Record view := mkView {
  v_base : option T;
  v_base_deleted : bool;
  local_result : Applied T;
  remote_result : Applied T;
  local_changed : bool;
  remote_changed : bool;
}.

Definition view_of (base local remote : option T) (bd ld rd : bool) : view :=
  let present := match base with Some _ => true | None => false end in
  let le := edit_for present local ld in
  let re := edit_for present remote rd in
  let lr := apply_edit base le in
  let rr := apply_edit base re in
  mkView base bd lr rr (changed base bd le lr) (changed base bd re rr).

Definition is_conflict (v : view) : bool :=
  local_changed v && remote_changed v
  && (negb (bool_decide (value (local_result v) = value (remote_result v)))
      || negb (Bool.eqb (tombstone (local_result v)) (tombstone (remote_result v)))).

(** The selection of [merge_values] for one id. *)
Definition select (side : option BundleConflictResolution) (v : view) :
    result (Applied T) :=
  match side with
  | Some KeepLocal => Ok (local_result v)
  | Some UseRemote => Ok (remote_result v)
  | Some Newest => Panic
  | None =>
      match local_changed v, remote_changed v with
      | false, false => Ok (mkApplied (v_base v) (v_base_deleted v))
      | true, false => Ok (local_result v)
      | false, true => Ok (remote_result v)
      | true, true =>
          if bool_decide (value (local_result v) = value (remote_result v))
          then Ok (mkApplied (value (local_result v))
                     (tombstone (local_result v) || tombstone (remote_result v)))
          else Panic
      end
  end.

End Object.
Arguments view T : clear implicits.

(** ** One kind of object *)

Section Kind.
Context {T : Type} `{EqDecision T} (id : T → PortableObjectId).

Definition value_map (vs : list T) : list (Z * T) := bmap_of (map (λ v, (id v, v)) vs).

Definition ids_of_kind (k : PortableObjectKind) (tombs : list ObjectNode) : list Z :=
  map snd (List.filter (λ n, bool_decide (n.1 = k)) tombs).

Definition value_ids (k : PortableObjectKind) (base local remote : list T)
    (bt lt rt : list ObjectNode) : list Z :=
  bset_of (bmap_keys (value_map base) ++ bmap_keys (value_map local)
           ++ bmap_keys (value_map remote)
           ++ ids_of_kind k bt ++ ids_of_kind k lt ++ ids_of_kind k rt).

Definition node_view (k : PortableObjectKind) (base local remote : list T)
    (bt lt rt : list ObjectNode) (i : Z) : view T :=
  view_of (bmap_get i (value_map base)) (bmap_get i (value_map local))
    (bmap_get i (value_map remote))
    (bset_mem (k, i) bt) (bset_mem (k, i) lt) (bset_mem (k, i) rt).

Definition conflict_ids (k : PortableObjectKind) (base local remote : list T)
    (bt lt rt : list ObjectNode) : list ObjectNode :=
  bset_of (map (λ i, (k, i))
    (List.filter (λ i, is_conflict (node_view k base local remote bt lt rt i))
       (value_ids k base local remote bt lt rt))).

(** The body of the loop of [merge_values]. *)
Definition merge_value (k : PortableObjectKind) (base local remote : list T)
    (bt lt rt : list ObjectNode) (sides : ResolvedSides)
    (acc : list T * list Z) (i : Z) : result (list T * list Z) :=
  let? selected := select (bmap_get (k, i) sides) (node_view k base local remote bt lt rt i) in
  Ok (match value selected with
      | Some v => (acc.1 ++ [v], acc.2)
      | None => if tombstone selected then (acc.1, acc.2 ++ [i]) else acc
      end).

Definition merge_values (k : PortableObjectKind) (base local remote : list T)
    (bt lt rt : list ObjectNode) (sides : ResolvedSides) : result (list T * list Z) :=
  rfold (merge_value k base local remote bt lt rt sides) ([], [])
    (value_ids k base local remote bt lt rt).

(** The macro [merge_kind!]: the values and the updated output tombstones. *)
Definition merge_kind (k : PortableObjectKind) (base local remote : list T)
    (bt lt rt : list ObjectNode) (sides : ResolvedSides) (out : list ObjectNode) :
    result (list T * list ObjectNode) :=
  let? (values, deleted) := merge_values k base local remote bt lt rt sides in
  let out := bset_extend out (map (λ i, (k, i)) deleted) in
  Ok (values, fold_left (λ o v, bset_remove (k, id v) o) values out).

End Kind.

(** ** The dependency graph *)

Abbreviation graph := (list (ObjectNode * list ObjectNode)).

(** [graph.entry(left).or_default().insert(right)]. *)
Definition graph_insert (g : graph) (left right : ObjectNode) : graph :=
  bmap_insert left (bset_insert right (default [] (bmap_get left g))) g.

Definition add_edge (g : graph) (left right : ObjectNode) : graph :=
  graph_insert (graph_insert g left right) right left.

Definition opt_edge (left : ObjectNode) (k : PortableObjectKind) (o : option Z) :
    list (ObjectNode * ObjectNode) :=
  match o with Some i => [(left, (k, i))] | None => [] end.

Definition host_edges (h : PortableHost) : list (ObjectNode * ObjectNode) :=
  let n := (Host, host_id h) in
  [(n, (Route, route_id h)); (n, (AuthenticationPlan, authentication_plan_id h));
   (n, (AlgorithmPolicy, algorithm_policy_id h)); (n, (HeartbeatPolicy, heartbeat_policy_id h));
   (n, (MonitoringPolicy, monitoring_policy_id h))]
  ++ opt_edge n Identity (host_identity_id h)
  ++ opt_edge n LoginAutomation (login_automation_id h).

Definition desktop_edges (d : PortableDesktopProfile) : list (ObjectNode * ObjectNode) :=
  let n := (DesktopProfile, desktop_id d) in
  opt_edge n Host (desktop_host_id d) ++ opt_edge n Host (gateway_host_id d)
  ++ opt_edge n Credential (desktop_credential_id d).

(** The secret ids of a credential, in the order of the source. *)
Definition material_secrets (m : PortableCredentialMaterial) : list Z :=
  map fst (credential_refs m).

Definition credential_edges (c : PortableCredential) : list (ObjectNode * ObjectNode) :=
  let n := (Credential, credential_id c) in
  (n, (Identity, credential_identity_id c))
  :: map (λ s, (n, (Secret, s))) (material_secrets (material c)).

Definition route_edges (r : PortableRoute) : list (ObjectNode * ObjectNode) :=
  let n := (Route, proute_id r) in
  map (λ h, (n, (Host, h))) (jump_hops r)
  ++ opt_edge n Credential (ingress_credential (ingress r)).

Definition step_secret (s : LoginAutomationStep) : list Z :=
  match s with SendSecret sid _ _ _ => [sid] | _ => [] end.

Definition automation_edges (a : PortableLoginAutomation) : list (ObjectNode * ObjectNode) :=
  map (λ s, ((LoginAutomation, automation_id a), (Secret, s))) (concat (map step_secret (steps a))).

Section Merge.
Context {J : Type} `{JV : JsonValue J}.
Abbreviation bundle := (PortableBundleV1 J).

(** The edges [add_bundle_edges] adds, in order. *)
Definition bundle_edges (b : bundle) : list (ObjectNode * ObjectNode) :=
  let o := objects b in
  concat (map host_edges (hosts o)) ++ concat (map desktop_edges (desktop_profiles o))
  ++ concat (map (λ i, map (λ c, ((Identity, identity_id i), (Credential, c)))
                         (identity_credential_ids i)) (identities o))
  ++ concat (map (λ p, map (λ c, ((AuthenticationPlan, plan_id p), (Credential, c)))
                         (plan_credential_ids p)) (authentication_plans o))
  ++ concat (map credential_edges (credentials o)) ++ concat (map route_edges (routes o))
  ++ concat (map automation_edges (login_automations o)).

Definition add_bundle_edges (b : bundle) (g : graph) : graph :=
  fold_left (λ g e, add_edge g e.1 e.2) (bundle_edges b) g.

(** The breadth-first loop. Every step takes a node off the queue, and a node
    is queued only when it enters the closure, so the fuel chosen below lasts. *)
Fixpoint closure_loop (fuel : nat) (g : graph) (closure queue : list ObjectNode) :
    list ObjectNode :=
  match fuel, queue with
  | S fuel', node :: queue' =>
      let '(closure', added) :=
        fold_left (λ st n, if bset_mem n st.1 then st else (bset_insert n st.1, st.2 ++ [n]))
          (default [] (bmap_get node g)) (closure, []) in
      closure_loop fuel' g closure' (queue' ++ added)
  | _, _ => closure
  end.

Definition expand_conflict_closure (bundles : list bundle) (conflicts : list ObjectNode) :
    list ObjectNode :=
  let g := fold_left (λ g b, add_bundle_edges b g) bundles [] in
  closure_loop (length conflicts + length (concat (map snd g))) g conflicts conflicts.

(** ** Conflicts *)

Definition tombstone_set (b : bundle) : list ObjectNode :=
  bset_of (map (λ t, (tomb_kind t, tomb_id t)) (tombstones b)).

Definition collect_conflict_nodes (base local remote : bundle) (bt lt rt : list ObjectNode) :
    list ObjectNode :=
  let collect {T} `{EqDecision T} k (field : PortableObjects → list T) id (acc : list ObjectNode) :=
    bset_extend acc (conflict_ids id k (field (objects base)) (field (objects local))
                       (field (objects remote)) bt lt rt) in
  let acc := [] in
  let acc := collect Host hosts host_id acc in
  let acc := collect DesktopProfile desktop_profiles desktop_id acc in
  let acc := collect Identity identities identity_id acc in
  let acc := collect Credential credentials credential_id acc in
  let acc := collect Route routes proute_id acc in
  let acc := collect AuthenticationPlan authentication_plans plan_id acc in
  let acc := collect AlgorithmPolicy algorithm_policies algorithm_id acc in
  let acc := collect HeartbeatPolicy heartbeat_policies heartbeat_id acc in
  let acc := collect MonitoringPolicy monitoring_policies monitoring_id acc in
  let acc := collect LoginAutomation login_automations automation_id acc in
  bset_extend acc (conflict_ids secret_id Secret (secrets base) (secrets local) (secrets remote)
                     bt lt rt).

Definition newest_side (local remote : option Z) (now_unix_ms : Z) :
    option BundleConflictResolution :=
  match local, remote with
  | Some local, Some remote =>
      let limit := i64_saturating_add now_unix_ms MAX_FUTURE_CLOCK_SKEW_MS in
      if (local <=? 0) || (remote <=? 0) || (limit <? local) || (limit <? remote) then None
      else match local ?= remote with
           | Gt => Some KeepLocal
           | Lt => Some UseRemote
           | Eq => None
           end
  | _, _ => None
  end.

Definition item_time (b : bundle) (n : ObjectNode) : option Z :=
  match List.find (λ t, bool_decide ((ut_kind t, ut_id t) = n)) (update_times b) with
  | Some t => Some (update_time_unix_ms t)
  | None => None
  end.

(** One member of a component: the side its policy chooses. *)
Definition member_side (local remote : bundle)
    (conflict_resolution deletion_resolution : option BundleConflictResolution)
    (now : Z) (n : ObjectNode) : option BundleConflictResolution :=
  let newest := newest_side (item_time local n) (item_time remote n) now in
  let deletes (b : bundle) := existsb (λ t, bool_decide ((tomb_kind t, tomb_id t) = n)) (tombstones b) in
  let chosen_is_deletion :=
    match newest with
    | Some KeepLocal => deletes local
    | Some UseRemote => deletes remote
    | _ => false
    end in
  let policy := if chosen_is_deletion then deletion_resolution else conflict_resolution in
  match policy with
  | Some Newest => newest
  | Some KeepLocal | Some UseRemote => policy
  | None => None
  end.

(** The loop over a component: the chosen side and whether it is consistent. *)
Definition component_step (local remote : bundle)
    (cr dr : option BundleConflictResolution) (now : Z)
    (st : option BundleConflictResolution * bool) (n : ObjectNode) :
    option BundleConflictResolution * bool :=
  let side := member_side local remote cr dr now n in
  let disagrees :=
    match side with
    | None => true
    | Some _ => match st.1 with
                | Some previous => negb (bool_decide (Some previous = side))
                | None => false
                end
    end in
  (match side with Some s => Some s | None => st.1 end,
   if disagrees then false else st.2).

(** The [while] loop over the remaining conflicts. *)
Fixpoint resolve_loop (fuel : nat) (bundles : list bundle) (conflicts : list ObjectNode)
    (local remote : bundle) (cr dr : option BundleConflictResolution) (now : Z)
    (remaining : list ObjectNode) (sides : ResolvedSides) (unresolved : Z) :
    result (ResolvedSides * Z) :=
  match remaining with
  | [] => Ok (sides, unresolved)
  | node :: _ =>
      match fuel with
      | O => Panic
      | S fuel' =>
          let closure := expand_conflict_closure bundles [node] in
          let component := List.filter (λ n, bset_mem n conflicts) closure in
          let remaining' := fold_left (λ r n, bset_remove n r) component remaining in
          let '(chosen, consistent) :=
            fold_left (component_step local remote cr dr now) component (None, true) in
          if consistent then
            match chosen with
            | None => Panic
            | Some side =>
                resolve_loop fuel' bundles conflicts local remote cr dr now remaining'
                  (fold_left (λ s n, bmap_insert n side s) component sides) unresolved
            end
          else
            resolve_loop fuel' bundles conflicts local remote cr dr now remaining' sides
              (unresolved + zlen component)
      end
  end.

Definition explicit_side (r : option BundleConflictResolution) : option BundleConflictResolution :=
  match r with
  | Some KeepLocal => Some KeepLocal
  | Some UseRemote => Some UseRemote
  | _ => None
  end.

Definition resolve_conflicts (bundles : list bundle) (conflicts : list ObjectNode)
    (local remote : bundle) (cr dr : option BundleConflictResolution) (now : Z) :
    result (ResolvedSides * Z) :=
  match conflicts with
  | [] => Ok ([], 0)
  | _ =>
      match cr, dr with
      | None, None => Ok ([], zlen conflicts)
      | _, _ =>
          match explicit_side cr with
          | Some side =>
              if bool_decide (cr = dr) then
                let selected :=
                  if forallb (λ b, is_one_of (schema b) [SV5; SV6]) bundles then conflicts
                  else expand_conflict_closure bundles conflicts in
                Ok (fold_left (λ s n, bmap_insert n side s) selected [], 0)
              else resolve_loop (length conflicts) bundles conflicts local remote cr dr now
                     conflicts [] 0
          | None => resolve_loop (length conflicts) bundles conflicts local remote cr dr now
                      conflicts [] 0
          end
      end
  end.

(** ** Preferences *)

(** The side chosen for a group, and whether it counts as a conflict. *)
Definition choose_group (base_value : option J) (local_value remote_value : J)
    (resolution newest : option BundleConflictResolution) : J * Z :=
  if bool_decide (local_value = remote_value) || bool_decide (base_value = Some remote_value)
  then (local_value, 0)
  else if bool_decide (base_value = Some local_value) then (remote_value, 0)
  else
    match resolution with
    | Some UseRemote => (remote_value, 0)
    | Some Newest =>
        match newest with
        | Some UseRemote => (remote_value, 0)
        | Some KeepLocal => (local_value, 0)
        | _ => (local_value, 1)
        end
    | Some KeepLocal => (local_value, 0)
    | None => (local_value, 1)
    end.

Definition merge_preferences (base local remote : bundle)
    (resolution : option BundleConflictResolution) (now : Z) :
    result (option (PortablePreferencesV1 J) * Z) :=
  match preferences local, preferences remote with
  | Some lp, Some rp =>
      let? (gs, conflicts) :=
        rfold (λ acc gv,
          match bmap_get gv.1 (groups rp) with
          | None => Panic
          | Some rv =>
              let bv := preferences base ≫= (λ p, bmap_get gv.1 (groups p)) in
              let newest := newest_side (bmap_get gv.1 (preference_update_times local))
                              (bmap_get gv.1 (preference_update_times remote)) now in
              let '(v, c) := choose_group bv gv.2 rv resolution newest in
              Ok (bmap_insert gv.1 v acc.1, acc.2 + c)
          end) (groups lp, 0) (groups lp) in
      Ok (Some (mkPreferences (product lp) (version lp) gs), conflicts)
  | Some lp, None => Ok (Some lp, 0)
  | None, o => Ok (o, 0)
  end.

(** ** Update times *)

(** [entry(node).and_modify(max).or_insert(time)]. *)
Definition record_time (times : list (ObjectNode * Z)) (n : ObjectNode) (t : Z) :
    list (ObjectNode * Z) :=
  match bmap_get n times with
  | Some old => bmap_insert n (Z.max old t) times
  | None => bmap_insert n t times
  end.

(** The inner loop over the three bundles for one output value. *)
Definition record_times (carries : bundle → bool) (n : ObjectNode) (bundles : list bundle)
    (times : list (ObjectNode * Z)) : list (ObjectNode * Z) :=
  fold_left (λ ts b,
    if carries b then
      match item_time b n with Some t => record_time ts n t | None => ts end
    else ts) bundles times.

Definition copy_kind {T} `{EqDecision T} (k : PortableObjectKind) (id : T → Z)
    (field : bundle → list T) (values : list T) (bundles : list bundle)
    (times : list (ObjectNode * Z)) : list (ObjectNode * Z) :=
  fold_left (λ ts v,
    record_times (λ b, existsb (λ c, bool_decide (c = v)) (field b)) (k, id v) bundles ts)
    values times.

Definition merge_update_times (o : PortableObjects) (ss : list PortableSecret)
    (tombs : list PortableTombstone) (base local remote : bundle) : list PortableItemUpdateTime :=
  let bs := [base; local; remote] in
  let ts := copy_kind Host host_id (λ b, hosts (objects b)) (hosts o) bs [] in
  let ts := copy_kind DesktopProfile desktop_id (λ b, desktop_profiles (objects b))
              (desktop_profiles o) bs ts in
  let ts := copy_kind Identity identity_id (λ b, identities (objects b)) (identities o) bs ts in
  let ts := copy_kind Credential credential_id (λ b, credentials (objects b)) (credentials o) bs ts in
  let ts := copy_kind Route proute_id (λ b, routes (objects b)) (routes o) bs ts in
  let ts := copy_kind AuthenticationPlan plan_id (λ b, authentication_plans (objects b))
              (authentication_plans o) bs ts in
  let ts := copy_kind AlgorithmPolicy algorithm_id (λ b, algorithm_policies (objects b))
              (algorithm_policies o) bs ts in
  let ts := copy_kind HeartbeatPolicy heartbeat_id (λ b, heartbeat_policies (objects b))
              (heartbeat_policies o) bs ts in
  let ts := copy_kind MonitoringPolicy monitoring_id (λ b, monitoring_policies (objects b))
              (monitoring_policies o) bs ts in
  let ts := copy_kind LoginAutomation automation_id (λ b, login_automations (objects b))
              (login_automations o) bs ts in
  let ts := copy_kind Secret secret_id secrets ss bs ts in
  let ts := fold_left (λ ts t,
      record_times (λ b, bool_decide (t ∈ tombstones b)) (tomb_kind t, tomb_id t) bs ts) tombs ts in
  map (λ nt, mkTime nt.1.1 nt.1.2 nt.2) ts.

Definition merge_preference_times (p : option (PortablePreferencesV1 J)) (base local remote : bundle) :
    list (list Z * Z) :=
  match p with
  | None => []
  | Some p =>
      fold_left (λ ts gv,
        fold_left (λ ts (b : bundle),
          if bool_decide ((preferences b ≫= λ q, bmap_get gv.1 (groups q)) = Some gv.2) then
            match bmap_get gv.1 (preference_update_times b) with
            | Some t =>
                match bmap_get gv.1 ts with
                | Some old => bmap_insert gv.1 (Z.max old t) ts
                | None => bmap_insert gv.1 t ts
                end
            | None => ts
            end
          else ts) [base; local; remote] ts) (groups p) []
  end.

(** ** Reverse reachability *)

Definition validate_reverse_reachability (b : bundle) : result unit :=
  let o := objects b in
  let host_children := concat (map (λ h,
      [(Route, route_id h); (AuthenticationPlan, authentication_plan_id h);
       (AlgorithmPolicy, algorithm_policy_id h); (HeartbeatPolicy, heartbeat_policy_id h);
       (MonitoringPolicy, monitoring_policy_id h)]
      ++ match login_automation_id h with Some i => [(LoginAutomation, i)] | None => [] end)
    (hosts o)) in
  let? _ := rforall (λ ki, check (forallb (λ i, bset_mem (ki.1, i) host_children) ki.2))
    [(Route, map proute_id (routes o)); (AuthenticationPlan, map plan_id (authentication_plans o));
     (AlgorithmPolicy, map algorithm_id (algorithm_policies o));
     (HeartbeatPolicy, map heartbeat_id (heartbeat_policies o));
     (MonitoringPolicy, map monitoring_id (monitoring_policies o));
     (LoginAutomation, map automation_id (login_automations o))] in
  let opt (x : option Z) := match x with Some i => [i] | None => [] end in
  let referenced_credentials :=
    concat (map identity_credential_ids (identities o))
    ++ concat (map plan_credential_ids (authentication_plans o))
    ++ concat (map (λ r, opt (ingress_credential (ingress r))) (routes o))
    ++ concat (map (λ d, opt (desktop_credential_id d)) (desktop_profiles o)) in
  let? _ := check (forallb (λ c, mem (credential_id c) referenced_credentials) (credentials o)) in
  let referenced_secrets :=
    concat (map (λ c, material_secrets (material c)) (credentials o))
    ++ concat (map (λ a, concat (map step_secret (steps a))) (login_automations o)) in
  check (forallb (λ s, mem (secret_id s) referenced_secrets) (secrets b)).

(** ** The merge *)

Definition normalized_scope (b : bundle) : list PortableDataCategory :=
  default [Hosts; Credentials; DesktopProfiles] (selected_categories b).

(** The merge of all kinds: objects, secrets and output tombstones. *)
Definition merge_all (base local remote : bundle) (bt lt rt : list ObjectNode)
    (sides : ResolvedSides) : result (PortableObjects * list PortableSecret * list ObjectNode) :=
  let kind {T} `{EqDecision T} k (field : PortableObjects → list T) id out :=
    merge_kind id k (field (objects base)) (field (objects local)) (field (objects remote))
      bt lt rt sides out in
  let? (vs1, out) := kind Host hosts host_id bt in
  let? (vs2, out) := kind DesktopProfile desktop_profiles desktop_id out in
  let? (vs3, out) := kind Identity identities identity_id out in
  let? (vs4, out) := kind Credential credentials credential_id out in
  let? (vs5, out) := kind Route routes proute_id out in
  let? (vs6, out) := kind AuthenticationPlan authentication_plans plan_id out in
  let? (vs7, out) := kind AlgorithmPolicy algorithm_policies algorithm_id out in
  let? (vs8, out) := kind HeartbeatPolicy heartbeat_policies heartbeat_id out in
  let? (vs9, out) := kind MonitoringPolicy monitoring_policies monitoring_id out in
  let? (vs10, out) := kind LoginAutomation login_automations automation_id out in
  let? (ss, out) := merge_kind secret_id Secret (secrets base) (secrets local) (secrets remote)
                      bt lt rt sides out in
  Ok (mkObjects vs1 vs2 vs3 vs4 vs5 vs6 vs7 vs8 vs9 vs10, ss, out).

(** The bundle built from the merged parts. *)
Definition merged_bundle (base local remote : bundle) (revision : Z) (all_v6 : bool)
    (scope : list PortableDataCategory) (prefs : option (PortablePreferencesV1 J))
    (o : PortableObjects) (ss : list PortableSecret) (out : list ObjectNode) : bundle :=
  let tombs := map (λ n, mkTombstone n.1 n.2) out in
  mkBundle
    (if all_v6 then SV6 else match prefs with Some _ => SV5 | None => SV3 end)
    (if all_v6 && negb (zlen scope =? 3) then Some scope else None)
    revision o prefs ss (skipped_machine_bound local) tombs
    (merge_update_times o ss tombs base local remote)
    (merge_preference_times prefs base local remote).

Definition merge_bundles_three_way_with_policies (base local remote : bundle) (revision : Z)
    (cr dr : option BundleConflictResolution) (now_unix_ms : Z) :
    result (BundleMergeOutcome J) :=
  let? _ := validate base in
  let? _ := validate local in
  let? _ := validate remote in
  let is_v6 (b : bundle) := bool_decide (schema b = SV6) in
  let all_v6 := forallb is_v6 [base; local; remote] in
  if negb all_v6 && existsb is_v6 [base; local; remote]
  then Err (InvalidBundle "mixed bundle v6 merge requires projection")
  else
    let scope := normalized_scope base in
    if all_v6 && (negb (bool_decide (normalized_scope local = scope))
                  || negb (bool_decide (normalized_scope remote = scope)))
    then Err (InvalidBundle "bundle category scopes differ")
    else
      let bt := tombstone_set base in
      let lt := tombstone_set local in
      let rt := tombstone_set remote in
      let conflict_nodes := collect_conflict_nodes base local remote bt lt rt in
      let? (sides, object_conflicts) :=
        resolve_conflicts [base; local; remote] conflict_nodes local remote cr dr now_unix_ms in
      let? (prefs, preference_conflicts) :=
        if all_v6 then Ok (None, 0) else merge_preferences base local remote cr now_unix_ms in
      if (0 <? object_conflicts) || (0 <? preference_conflicts)
      then Ok (Conflicts (Z.min u32_max (object_conflicts + preference_conflicts)))
      else
        let? (parts, out) := merge_all base local remote bt lt rt sides in
        let merged := merged_bundle base local remote revision all_v6 scope prefs
                        parts.1 parts.2 out in
        if (match cr with Some _ => true | None => false end
            || match dr with Some _ => true | None => false end)
           && (negb (is_ok (validate merged)) || negb (is_ok (validate_reverse_reachability merged)))
        then Ok (Conflicts 1)
        else
          let? _ := validate merged in
          let? _ := validate_reverse_reachability merged in
          Ok (Merged merged).

Definition merge_bundles_three_way_with_resolution (base local remote : bundle) (revision : Z)
    (resolution : option BundleConflictResolution) (now : Z) : result (BundleMergeOutcome J) :=
  merge_bundles_three_way_with_policies base local remote revision resolution resolution now.

Definition merge_bundles_three_way (base local remote : bundle) (revision : Z) (now : Z) :
    result (BundleMergeOutcome J) :=
  merge_bundles_three_way_with_resolution base local remote revision None now.

End Merge.

End SyncMerge.
