(* ===== verification/SyncResolve.v ===== *)
(** * Conflict resolution over the dependency graph
      (crates/ssh-profile-sync/src/merge.rs)

    Correctness of [expand_conflict_closure], the breadth-first closure of a
    set of nodes in the graph of references, and of [resolve_conflicts], the
    loop that decides connected conflicts together. *)

From stdpp Require Import sorting.
From Stdlib Require Import Sorting.Sorted.
From S2P Require Import Prelude RustStr BTree SyncSchema SyncMerge.

Module SyncResolve.
Import Sync SyncMerge.

Implicit Types (g : graph) (n x y : ObjectNode).

(** ** Adjacency *)

Definition adj g x y : Prop := y ∈ default [] (bmap_get x g).

(** An edge joins two nodes in both directions. *)
Definition joins (e : ObjectNode * ObjectNode) x y : Prop := e = (x, y) ∨ e = (y, x).

Lemma graph_insert_adj g l r x y : adj (graph_insert g l r) x y ↔ (x = l ∧ y = r) ∨ adj g x y.
Proof.
  unfold adj, graph_insert. rewrite bmap_get_insert.
  destruct (keqb_spec x l) as [E|]; [|naive_solver]. rewrite E. simpl.
  rewrite elem_of_bset_insert. naive_solver.
Qed.

Lemma add_edge_adj g e x y : adj (add_edge g e.1 e.2) x y ↔ joins e x y ∨ adj g x y.
Proof.
  unfold add_edge, joins. rewrite !graph_insert_adj. destruct e; simpl. naive_solver.
Qed.

Lemma add_edges_adj es g x y :
  adj (fold_left (λ g e, add_edge g e.1 e.2) es g) x y ↔ (∃ e, e ∈ es ∧ joins e x y) ∨ adj g x y.
Proof.
  revert g. induction es as [|e es IH]; intros g; simpl; [set_solver|].
  rewrite IH, add_edge_adj. set_solver.
Qed.

Section Graph.
Context {J : Type} `{JV : JsonValue J}.
Abbreviation bundle := (PortableBundleV1 J).

(** Two objects are linked when some bundle has a reference between them. *)
Definition linked (bundles : list bundle) x y : Prop :=
  ∃ b e, b ∈ bundles ∧ e ∈ bundle_edges b ∧ joins e x y.

Definition bundles_graph (bundles : list bundle) : graph :=
  fold_left (λ g b, add_bundle_edges b g) bundles [].

Lemma bundles_graph_adj bundles x y : adj (bundles_graph bundles) x y ↔ linked bundles x y.
Proof.
  unfold bundles_graph, linked.
  assert (∀ g, adj (fold_left (λ g b, add_bundle_edges b g) bundles g) x y ↔
    (∃ b e, b ∈ bundles ∧ e ∈ bundle_edges b ∧ joins e x y) ∨ adj g x y) as H.
  { induction bundles as [|b bs IH]; intros g; simpl; [set_solver|].
    rewrite IH. unfold add_bundle_edges. rewrite add_edges_adj. set_solver. }
  rewrite H. unfold adj. simpl. set_solver.
Qed.

Lemma linked_sym bundles x y : linked bundles x y → linked bundles y x.
Proof. intros (b & e & Hb & He & [->| ->]); exists b; eexists; unfold joins; eauto. Qed.

(** ** The closure *)

(** The neighbours of one node enter the closure and the queue. *)
Definition visit (st : list ObjectNode * list ObjectNode) (n : ObjectNode) :
    list ObjectNode * list ObjectNode :=
  if bset_mem n st.1 then st else (bset_insert n st.1, st.2 ++ [n]).

(** How many entries of [u] are not in the closure yet. *)
Definition outside (u closure : list ObjectNode) : nat :=
  length (List.filter (λ n, negb (bset_mem n closure)) u).

Lemma outside_insert u closure n :
  n ∈ u → n ∉ closure → (S (outside u (bset_insert n closure)) ≤ outside u closure)%nat.
Proof.
  unfold outside. intros Hin Hn. induction u as [|x u IH]; [set_solver|]. simpl.
  assert (∀ l, length (List.filter (λ m, negb (bset_mem m (bset_insert n closure))) l) ≤
               length (List.filter (λ m, negb (bset_mem m closure)) l))%nat as Hle.
  { induction l as [|m l IHl]; simpl; [done|].
    destruct (bset_mem m closure) eqn:E; simpl.
    - rewrite (proj2 (bset_mem_true m (bset_insert n closure))); [done|].
      apply elem_of_bset_insert. right. by apply bset_mem_true.
    - destruct (negb (bset_mem m (bset_insert n closure))); simpl; lia. }
  destruct (decide (x = n)) as [->|Hne].
  - rewrite (proj2 (bset_mem_false n closure) Hn). simpl.
    rewrite (proj2 (bset_mem_true n (bset_insert n closure))) by (apply elem_of_bset_insert; by left).
    simpl. specialize (Hle u). lia.
  - rewrite (bset_mem_ext x (bset_insert n closure) closure).
    + destruct (negb (bset_mem x closure)); simpl; [|apply IH; set_solver].
      assert (n ∈ u) as Hu by set_solver. specialize (IH Hu). lia.
    + rewrite elem_of_bset_insert. naive_solver.
Qed.

Lemma visit_all_spec ns u closure added closure' added' :
  fold_left visit ns (closure, added) = (closure', added') → ns ⊆ u → bsorted closure →
  bsorted closure' ∧ (∀ x, x ∈ closure' ↔ x ∈ closure ∨ x ∈ ns) ∧
  ∃ fresh, added' = added ++ fresh ∧ (∀ x, x ∈ closure' ↔ x ∈ closure ∨ x ∈ fresh) ∧
    (∀ x, x ∈ fresh → x ∈ ns) ∧ (length fresh + outside u closure' ≤ outside u closure)%nat.
Proof.
  revert closure added. induction ns as [|n ns IH]; intros closure added H Hu Hs; simpl in H.
  - simplify_eq. split; [done|]. split; [set_solver|]. exists []. rewrite app_nil_r.
    split_and!; [done|set_solver|set_solver|simpl; lia].
  - unfold visit at 2 in H. simpl in H. destruct (bset_mem n closure) eqn:E.
    + apply bset_mem_true in E. destruct (IH _ _ H) as (H1 & H2 & fr & H3 & H4 & H5 & H6);
        [set_solver|done|]. split; [done|]. split; [set_solver|]. exists fr. split_and!; set_solver.
    + apply bset_mem_false in E.
      destruct (IH _ _ H) as (H1 & H2 & fr & H3 & H4 & H5 & H6); [set_solver|auto with rust|].
      split; [done|]. setoid_rewrite elem_of_bset_insert in H2. setoid_rewrite elem_of_bset_insert in H4.
      split; [set_solver|]. exists (n :: fr).
      split_and!; [by rewrite H3, <- app_assoc|set_solver|set_solver|].
      pose proof (outside_insert u closure n ltac:(set_solver) E). simpl. lia.
Qed.

(** Reachability in a graph. *)
Definition reaches g (from : list ObjectNode) y : Prop := ∃ x, x ∈ from ∧ rtc (adj g) x y.

Lemma adj_in_graph g x y : adj g x y → y ∈ concat (map snd g).
Proof.
  unfold adj. destruct (bmap_get x g) as [ns|] eqn:E; simpl; [|set_solver].
  apply bmap_get_elem in E. intros Hy. apply list_elem_of_In, in_concat.
  exists ns. split; [|by apply list_elem_of_In]. apply in_map_iff. exists (x, ns).
  split; [done|]. by apply list_elem_of_In.
Qed.

Record closure_inv g (start closure queue : list ObjectNode) : Prop := {
  ci_sorted : bsorted closure;
  ci_start : ∀ x, x ∈ start → x ∈ closure;
  ci_queue : ∀ x, x ∈ queue → x ∈ closure;
  ci_sound : ∀ x, x ∈ closure → reaches g start x;
  ci_done : ∀ x y, x ∈ closure → x ∉ queue → adj g x y → y ∈ closure;
}.

Lemma closure_loop_spec fuel g start closure queue :
  closure_inv g start closure queue →
  (length queue + outside (concat (map snd g)) closure ≤ fuel)%nat →
  closure_inv g start (closure_loop fuel g closure queue) [].
Proof.
  revert closure queue. induction fuel as [|fuel IH]; intros closure queue Hi Hf; simpl.
  - destruct queue; [done|simpl in Hf; lia].
  - destruct queue as [|node queue]; [done|].
    destruct (fold_left _ _ (closure, [])) as [closure' added] eqn:E.
    change (fold_left visit (default [] (bmap_get node g)) (closure, []) = (closure', added)) in E.
    apply (visit_all_spec _ (concat (map snd g))) in E as (H1 & H2 & fr & -> & H4 & H5 & H6);
      [|intros y Hy; by eapply adj_in_graph|apply Hi].
    apply IH; [|rewrite app_nil_l, length_app; simpl in Hf; lia].
    destruct Hi as [I1 I2 I3 I4 I5]. split; [done|set_solver| |..].
    + intros x [Hx|Hx]%elem_of_app; [apply H4; left; apply I3; set_solver|apply H4; by right].
    + intros x [Hx|Hx]%H2; [by apply I4|]. destruct (I4 node) as (s & Hs & Hr); [apply I3; set_solver|].
      exists s. split; [done|]. by eapply rtc_r.
    + intros x y Hx Hq Ha. apply not_elem_of_app in Hq as [Hq Hfr]. apply H4 in Hx as [Hx|]; [|done].
      destruct (decide (x = node)) as [->|Hne]; [apply H2; by right|].
      apply H4. left. eapply (I5 x); set_solver.
Qed.

Lemma expand_closure_sorted bundles start :
  bsorted start → closure_inv (bundles_graph bundles) start (expand_conflict_closure bundles start) [].
Proof.
  intros Hs. unfold expand_conflict_closure. fold (bundles_graph bundles).
  apply closure_loop_spec.
  - split; [done|done|done| |set_solver]. intros x Hx. by exists x.
  - unfold outside. pose proof (List.filter_length_le (λ n, negb (bset_mem n start)) (concat (map snd (bundles_graph bundles)))). lia.
Qed.

(** The closure is the set of nodes linked to the start, in any number of steps. *)
Lemma expand_closure_spec bundles start y :
  bsorted start →
  y ∈ expand_conflict_closure bundles start ↔ ∃ x, x ∈ start ∧ rtc (linked bundles) x y.
Proof.
  intros Hs. destruct (expand_closure_sorted bundles start Hs) as [I1 I2 _ I4 I5].
  assert (∀ x y, rtc (adj (bundles_graph bundles)) x y ↔ rtc (linked bundles) x y) as Hr.
  { intros a b. split; induction 1; [done| |done|]; (eapply rtc_l; [by apply bundles_graph_adj|done]). }
  split.
  - intros (x & Hx & H)%I4. exists x. by rewrite <- Hr.
  - intros (x & Hx & H). rewrite <- Hr in H. apply I2 in Hx. revert Hx.
    induction H as [|a b c Hab Hbc IH]; intros Ha; [done|]. apply IH. by eapply I5; [| |exact Hab]; [|set_solver].
Qed.

Lemma rtc_linked_sym bundles x y : rtc (linked bundles) x y → rtc (linked bundles) y x.
Proof.
  induction 1 as [|a b c Hab Hbc IH]; [done|]. eapply rtc_r; [exact IH|]. by apply linked_sym.
Qed.

(** ** Deciding a component *)

Lemma newest_side_explicit l r now s : newest_side l r now = Some s → s ≠ Newest.
Proof. unfold newest_side. repeat case_match; intros [= <-]; done. Qed.

Lemma member_side_explicit local remote cr dr now n s :
  member_side (J := J) local remote cr dr now n = Some s → s ≠ Newest.
Proof.
  unfold member_side. set (policy := if _ : bool then dr else cr). destruct policy as [[]|];
    [by intros [= <-]|by intros [= <-]|apply newest_side_explicit|done].
Qed.

Section Component.
Context (local remote : bundle) (cr dr : option BundleConflictResolution) (now : Z).

Lemma component_false comp c : (fold_left (component_step local remote cr dr now) comp (c, false)).2 = false.
Proof.
  revert c. induction comp as [|n comp IH]; intros c; [done|]. simpl. unfold component_step at 2. simpl.
  destruct (match member_side _ _ _ _ _ _ with Some _ => _ | None => true end); apply IH.
Qed.

Lemma component_spec comp c0 ok c :
  fold_left (component_step local remote cr dr now) comp (c0, ok) = (c, true) →
  ok = true ∧ (∀ n, n ∈ comp → member_side local remote cr dr now n = c) ∧
  (is_Some c0 → c = c0) ∧ (comp ≠ [] → is_Some c).
Proof.
  revert c0 ok. induction comp as [|n comp IH]; intros c0 ok; simpl.
  { intros. simplify_eq. split_and!; [done|set_solver|done|done]. }
  unfold component_step at 2. simpl. destruct (member_side local remote cr dr now n) as [s|] eqn:Es.
  - destruct c0 as [p|]; simpl.
    + case_bool_decide as Hp; simpl.
      * intros (-> & H1 & H2 & _)%IH. simplify_eq. specialize (H2 ltac:(eauto)). subst.
        split_and!; [done|set_solver|done|eauto].
      * intros H. pose proof (component_false comp (Some s)) as Hf. rewrite H in Hf. done.
    + intros (-> & H1 & H2 & _)%IH. specialize (H2 ltac:(eauto)). subst.
      split_and!; [done|set_solver|by intros []|eauto].
  - intros H. pose proof (component_false comp c0) as Hf. rewrite H in Hf. done.
Qed.

End Component.

Lemma remove_all_elem (comp rem : list ObjectNode) x :
  x ∈ fold_left (λ r n, bset_remove n r) comp rem ↔ x ∈ rem ∧ x ∉ comp.
Proof.
  revert rem. induction comp as [|n comp IH]; intros rem; simpl; [set_solver|].
  rewrite IH, elem_of_bset_remove. set_solver.
Qed.

Lemma remove_all_length (comp rem : list ObjectNode) :
  (length (fold_left (λ r n, bset_remove n r) comp rem) ≤ length rem)%nat.
Proof.
  revert rem. induction comp as [|n comp IH]; intros rem; simpl; [done|].
  etrans; [apply IH|]. apply List.filter_length_le.
Qed.

Lemma remove_all_shrinks (comp rem : list ObjectNode) node :
  node ∈ comp → node ∈ rem →
  (length (fold_left (λ r n, bset_remove n r) comp rem) < length rem)%nat.
Proof.
  assert (∀ (rem : list ObjectNode) n, n ∈ rem → (length (bset_remove n rem) < length rem)%nat) as Hone.
  { clear. unfold bset_remove. induction rem as [|x rem IH]; intros n Hn; [set_solver|]. simpl.
    pose proof (List.filter_length_le (λ x, negb (keqb n x)) rem).
    destruct (keqb_spec n x) as [->|Hne]; simpl; [lia|].
    apply elem_of_cons in Hn as [|Hn]; [done|]. specialize (IH n Hn). lia. }
  revert rem. induction comp as [|n comp IH]; intros rem Hin Hrem; [set_solver|]. simpl.
  destruct (decide (node = n)) as [->|Hne].
  - eapply Nat.le_lt_trans; [apply remove_all_length|]. by apply Hone.
  - eapply Nat.lt_le_trans; [apply IH; [set_solver|]|apply List.filter_length_le].
    by apply elem_of_bset_remove.
Qed.

Lemma assign_all_get (comp : list ObjectNode) side (sides : ResolvedSides) n :
  bmap_get n (fold_left (λ s m, bmap_insert m side s) comp sides) =
  if bset_mem n comp then Some side else bmap_get n sides.
Proof.
  revert sides. induction comp as [|m comp IH]; intros sides; simpl; [done|].
  rewrite IH, bmap_get_insert. destruct (keqb n m); simpl; [by destruct (bset_mem n comp)|done].
Qed.

(** ** The resolution *)

Record resolved_ok (bundles : list bundle) (conflicts : list ObjectNode) (sides : ResolvedSides)
    (unresolved : Z) : Prop := {
  ro_explicit : ∀ n s, bmap_get n sides = Some s → s ≠ Newest;
  ro_complete : unresolved = 0 → ∀ n, n ∈ conflicts → is_Some (bmap_get n sides);
  ro_together : ∀ n1 n2, n1 ∈ conflicts → n2 ∈ conflicts → rtc (linked bundles) n1 n2 →
    bmap_get n1 sides = bmap_get n2 sides;
  ro_nonneg : 0 ≤ unresolved;
}.

(** The invariant of the loop: what is decided is closed under links. *)
Record loop_inv (bundles : list bundle) (conflicts remaining : list ObjectNode)
    (sides : ResolvedSides) (unresolved : Z) : Prop := {
  li_sub : ∀ n, n ∈ remaining → n ∈ conflicts;
  li_closed : ∀ n n', n ∈ conflicts → n ∉ remaining → n' ∈ conflicts →
    rtc (linked bundles) n n' → n' ∉ remaining;
  li_explicit : ∀ n s, bmap_get n sides = Some s → s ≠ Newest;
  li_complete : unresolved = 0 → ∀ n, n ∈ conflicts → n ∉ remaining → is_Some (bmap_get n sides);
  li_together : ∀ n1 n2, n1 ∈ conflicts → n2 ∈ conflicts → rtc (linked bundles) n1 n2 →
    bmap_get n1 sides = bmap_get n2 sides;
  li_nonneg : 0 ≤ unresolved;
}.

(** The component of a node: the conflicts linked to it. *)
Lemma component_elem bundles conflicts node n :
  n ∈ List.filter (λ m, bset_mem m conflicts) (expand_conflict_closure (J := J) bundles [node]) ↔
  n ∈ conflicts ∧ rtc (linked bundles) node n.
Proof.
  rewrite list_elem_of_In, filter_In, <- list_elem_of_In, bset_mem_true.
  rewrite expand_closure_spec by (repeat constructor). set_solver.
Qed.

Lemma loop_inv_step bundles conflicts node remaining comp sides sides' u u' :
  loop_inv bundles conflicts remaining sides u → node ∈ remaining →
  (∀ n, n ∈ comp ↔ n ∈ conflicts ∧ rtc (linked bundles) node n) →
  (∃ side, side ≠ Newest ∧ u' = u ∧ sides' = fold_left (λ s m, bmap_insert m side s) comp sides) ∨
    (sides' = sides ∧ u' = u + zlen comp) →
  loop_inv bundles conflicts (fold_left (λ r n, bset_remove n r) comp remaining) sides' u'.
Proof.
  intros [L1 L2 L3 L4 L5 L6] Hnode Hcomp Hside.
  assert (node ∈ comp) as Hnc by (apply Hcomp; split; [by apply L1|done]).
  assert (∀ n n', n ∈ comp → n' ∈ conflicts → rtc (linked bundles) n n' → n' ∈ comp) as Hclosed.
  { intros n n' [Hn Hr]%Hcomp Hn' Hr'. apply Hcomp. split; [done|]. by etrans. }
  assert (0 < zlen comp) as Hlen by (destruct comp; [set_solver|rewrite zlen_cons; pose proof (zlen_nonneg comp); lia]).
  split.
  - intros n [Hn _]%remove_all_elem. auto.
  - intros n n' Hn Hrem Hn' Hr. rewrite remove_all_elem in *. intros [Hn'r Hn'c].
    destruct (decide (n ∈ comp)) as [Hc|Hc]; [by eapply Hn'c, Hclosed|].
    eapply (L2 n n'); try done. naive_solver.
  - intros n s. destruct Hside as [(side & Hs & -> & ->)|[-> ->]]; [|apply L3].
    rewrite assign_all_get. case_match; [naive_solver|apply L3].
  - intros Hu n Hn Hrem. rewrite remove_all_elem in Hrem.
    destruct Hside as [(side & Hs & -> & ->)|[-> ->]]; [|lia].
    rewrite assign_all_get. destruct (bset_mem n comp) eqn:E; [by eexists|].
    apply L4; [done|done|]. apply bset_mem_false in E. naive_solver.
  - intros n1 n2 H1 H2 Hr. destruct Hside as [(side & Hs & -> & ->)|[-> ->]]; [|by apply L5].
    rewrite !assign_all_get. rewrite (L5 n1 n2) by done.
    assert (bset_mem n1 comp = bset_mem n2 comp) as ->; [|done].
    destruct (bset_mem n2 comp) eqn:E.
    + apply bset_mem_true. apply bset_mem_true in E. eapply Hclosed; [exact E|done|by apply rtc_linked_sym].
    + apply bset_mem_false. apply bset_mem_false in E. intros Hn1. by eapply E, Hclosed.
  - destruct Hside as [(side & _ & -> & _)|[_ ->]]; lia.
Qed.

Lemma resolve_loop_spec fuel bundles conflicts local remote cr dr now remaining sides u :
  loop_inv bundles conflicts remaining sides u → (length remaining ≤ fuel)%nat →
  ∃ sides' u', resolve_loop fuel bundles conflicts local remote cr dr now remaining sides u =
    Ok (sides', u') ∧ loop_inv bundles conflicts [] sides' u'.
Proof.
  revert remaining sides u. induction fuel as [|fuel IH]; intros remaining sides u Hi Hf.
  { destruct remaining; [|simpl in Hf; lia]. by exists sides, u. }
  destruct remaining as [|node rest]; [by exists sides, u|]. cbn [resolve_loop].
  set (comp := List.filter _ _).
  assert (∀ n, n ∈ comp ↔ n ∈ conflicts ∧ rtc (linked bundles) node n) as Hcomp by (intros; apply component_elem).
  assert (node ∈ comp) as Hnc by (apply Hcomp; split; [apply (li_sub _ _ _ _ _ Hi); set_solver|done]).
  assert (length (fold_left (λ r n, bset_remove n r) comp (node :: rest)) ≤ fuel)%nat as Hf'.
  { pose proof (remove_all_shrinks comp (node :: rest) node Hnc ltac:(set_solver)). simpl in *. lia. }
  clearbody comp.
  destruct (fold_left (component_step _ _ _ _ _) comp (None, true)) as [chosen consistent] eqn:Ef.
  destruct consistent.
  - apply component_spec in Ef as (_ & Hm & _ & Hsome).
    destruct Hsome as [side ->]; [by intros ->; set_solver|].
    apply IH; [|done]. eapply (loop_inv_step _ _ node); [done|set_solver|done|].
    left. exists side. split; [|done]. by eapply member_side_explicit, Hm.
  - apply IH; [|done]. eapply (loop_inv_step _ _ node); [done|set_solver|done|]. by right.
Qed.

Lemma loop_inv_init bundles conflicts : loop_inv bundles conflicts conflicts [] 0.
Proof. split; try done; naive_solver. Qed.

Lemma resolve_conflicts_ok bundles conflicts local remote cr dr now :
  bsorted conflicts →
  ∃ sides u, resolve_conflicts bundles conflicts local remote cr dr now = Ok (sides, u) ∧
    resolved_ok bundles conflicts sides u.
Proof.
  intros Hs. unfold resolve_conflicts.
  destruct conflicts as [|c conflicts]; [by exists [], 0; split; [done|split; set_solver]|].
  set (cs := c :: conflicts) in *.
  assert (∃ sides u, resolve_loop (length cs) bundles cs local remote cr dr now cs [] 0 = Ok (sides, u) ∧
    resolved_ok bundles cs sides u) as Hloop.
  { destruct (resolve_loop_spec (length cs) bundles cs local remote cr dr now cs [] 0) as (s & u & H & []);
      [apply loop_inv_init|done|]. exists s, u. split; [done|]. split; try done.
    intros Hu n Hn. by apply li_complete0; [..|set_solver]. }
  assert (∀ side, side ≠ Newest → ∃ sides u,
    Ok (E := SyncCodecError) (fold_left (λ s n, bmap_insert n side s)
      (if forallb (λ b, is_one_of (schema b) [SV5; SV6]) bundles then cs
       else expand_conflict_closure bundles cs) [], 0) = Ok (sides, u) ∧
    resolved_ok bundles cs sides u) as Hexp.
  { intros side Hside. eexists _, _. split; [done|].
    assert (∀ n, n ∈ cs → n ∈ (if forallb (λ b, is_one_of (schema b) [SV5; SV6]) bundles then cs
       else expand_conflict_closure bundles cs)) as Hin.
    { intros n Hn. case_match; [done|]. apply expand_closure_spec; [done|]. by exists n. }
    split; [| | |done].
    - intros n s. rewrite assign_all_get. destruct (bset_mem n _); [by intros [= <-]|done].
    - intros _ n Hn. rewrite assign_all_get, (proj2 (bset_mem_true _ _) (Hin n Hn)). by eexists.
    - intros n1 n2 H1 H2 _. rewrite !assign_all_get.
      by rewrite (proj2 (bset_mem_true _ _) (Hin n1 H1)), (proj2 (bset_mem_true _ _) (Hin n2 H2)). }
  assert (∃ sides u, Ok (E := SyncCodecError) ([], zlen cs) = Ok (sides, u) ∧ resolved_ok bundles cs sides u) as Hnone.
  { exists [], (zlen cs). split; [done|]. split; done. }
  destruct cr as [[]|]; simpl; [case_bool_decide; [by apply Hexp|done]..|done|].
  by destruct dr.
Qed.

(** ** Properties *)

(** The closure of a set of conflicts, computed breadth-first with the
    fuel the definition gives, is exactly the set of objects linked to one of
    them by references in either direction, in any number of steps. *)
Theorem closure_is_reachability bundles start y :
  bsorted start →
  y ∈ expand_conflict_closure bundles start ↔ ∃ x, x ∈ start ∧ rtc (linked bundles) x y.
Proof. apply expand_closure_spec. Qed.

End Graph.

(** Exchanging the two sides. *)
Definition swap_side (r : BundleConflictResolution) : BundleConflictResolution :=
  match r with KeepLocal => UseRemote | UseRemote => KeepLocal | Newest => Newest end.

Lemma newest_side_swap l r now : newest_side r l now = swap_side <$> newest_side l r now.
Proof.
  unfold newest_side. destruct l as [a|], r as [b|]; try done.
  set (limit := i64_saturating_add now MAX_FUTURE_CLOCK_SKEW_MS). clearbody limit.
  destruct (a <=? 0), (b <=? 0), (limit <? a), (limit <? b); simpl; try done.
  rewrite (Z.compare_antisym a b). by destruct (a ?= b).
Qed.

(** The newest side is chosen only from two known positive times of which
    neither lies more than five minutes ahead of the clock; it is the side
    with the strictly later time, and both devices, seeing the times from
    opposite sides, choose the same bundle. *)
Theorem newest_side_sound l r now :
  newest_side r l now = swap_side <$> newest_side l r now ∧
  (∀ s, newest_side l r now = Some s → ∃ a b, l = Some a ∧ r = Some b ∧ 0 < a ∧ 0 < b ∧
     Z.max a b ≤ i64_saturating_add now MAX_FUTURE_CLOCK_SKEW_MS ∧
     ((s = KeepLocal ∧ b < a) ∨ (s = UseRemote ∧ a < b))).
Proof.
  split; [apply newest_side_swap|]. unfold newest_side. destruct l as [a|], r as [b|]; try done.
  set (limit := i64_saturating_add now MAX_FUTURE_CLOCK_SKEW_MS).
  destruct (Z.leb_spec a 0), (Z.leb_spec b 0), (Z.ltb_spec limit a), (Z.ltb_spec limit b);
    simpl; try done.
  destruct (Z.compare_spec a b); intros s Hs; simplify_eq; exists a, b; split_and!; auto with lia.
Qed.

Lemma newest_side_sound_witness :
  newest_side (Some 7) (Some 5) 10 = Some KeepLocal ∧
  newest_side (Some 5) (Some 7) 10 = swap_side <$> newest_side (Some 7) (Some 5) 10.
Proof. split; [vm_compute; reflexivity|apply newest_side_sound]. Defined.

Definition two_hosts : PortableBundleV1 unit :=
  sample_bundle 1 [sample_host "a" 10; sample_host "b" 11] [].

Lemma closure_is_reachability_witness :
  (Secret, 90) ∈ expand_conflict_closure [two_hosts] [(Host, 10)] ∧
  ∃ x, x ∈ [(Host, 10)] ∧ rtc (linked [two_hosts]) x (Secret, 90).
Proof.
  assert ((Secret, 90) ∈ expand_conflict_closure [two_hosts] [(Host, 10)]) as H.
  { apply bset_mem_true. vm_compute. reflexivity. }
  split; [exact H|]. apply (closure_is_reachability [two_hosts] [(Host, 10)]); [|exact H].
  repeat constructor.
Defined.

End SyncResolve.
