(* ===== verification/SyncThreeWay.v ===== *)
(** * Correctness of the three-way merge (crates/ssh-profile-sync/src/merge.rs)

    What the merge of two bundles against their base does to each object and
    each tombstone, that it never panics, and that it treats its two sides
    alike. *)

From stdpp Require Import sorting.
From Stdlib Require Import Sorting.Sorted.
From S2P Require Import Prelude RustStr BTree SyncSchema SyncMerge SyncResolve.

Module ThreeWay.
Import Sync SyncMerge SyncResolve.

(** ** One object *)

(** The three-way rule for the value of an object: an unchanged side yields
    to the other; two changed sides agree. *)
Record three_way {T} (b l r m : option T) : Prop := {
  tw_local : l = b → m = r;
  tw_remote : r = b → m = l;
  tw_both : l ≠ b → r ≠ b → m = l ∧ l = r;
}.

Section Object.
Context {T : Type} `{EqDecision T}.
Implicit Types (b l r : option T).

(** The value a side stands for. *)
Lemma local_result_value b l r bd ld rd :
  (ld = true → l = None) → value (local_result (view_of b l r bd ld rd)) = l.
Proof. intros H. destruct b, l, ld; simpl; try done; by specialize (H eq_refl). Qed.

Lemma view_swap b l r bd ld rd :
  view_of b r l bd rd ld =
  let v := view_of b l r bd ld rd in
  mkView (v_base v) (v_base_deleted v) (remote_result v) (local_result v)
    (remote_changed v) (local_changed v).
Proof. done. Qed.

Lemma remote_result_value b l r bd ld rd :
  (rd = true → r = None) → value (remote_result (view_of b l r bd ld rd)) = r.
Proof. intros H. destruct b, r, rd; simpl; try done; by specialize (H eq_refl). Qed.

Lemma local_unchanged b l r bd ld rd :
  (ld = true → l = None) → local_changed (view_of b l r bd ld rd) = false → l = b.
Proof.
  intros H. destruct b, l, ld; simpl; try done; try (by specialize (H eq_refl));
    intros; bprop; congruence.
Qed.

Lemma remote_unchanged b l r bd ld rd :
  (rd = true → r = None) → remote_changed (view_of b l r bd ld rd) = false → r = b.
Proof.
  intros H. destruct b, r, rd; simpl; try done; try (by specialize (H eq_refl));
    intros; bprop; congruence.
Qed.

Lemma is_conflict_swap b l r bd ld rd :
  is_conflict (view_of b r l bd rd ld) = is_conflict (view_of b l r bd ld rd).
Proof.
  unfold is_conflict. rewrite view_swap. cbv zeta.
  cbn [local_changed remote_changed local_result remote_result].
  rewrite (andb_comm (remote_changed _)). f_equal. f_equal.
  - f_equal. apply bool_decide_ext. naive_solver.
  - f_equal. by destruct (tombstone (remote_result _)), (tombstone (local_result _)).
Qed.

(** Without conflict the selection always succeeds and follows the rule. *)
Lemma select_three_way b l r bd ld rd :
  (ld = true → l = None) → (rd = true → r = None) →
  let v := view_of b l r bd ld rd in
  is_conflict v = false → ∃ a, select None v = Ok a ∧ three_way b l r (value a).
Proof.
  intros Hl Hr v Hc. unfold select.
  pose proof (local_result_value b l r bd ld rd Hl) as Vl.
  pose proof (remote_result_value b l r bd ld rd Hr) as Vr.
  pose proof (local_unchanged b l r bd ld rd Hl) as Ul.
  pose proof (remote_unchanged b l r bd ld rd Hr) as Ur.
  fold v in Vl, Vr, Ul, Ur. assert (v_base v = b) as Vb by done. clearbody v. unfold is_conflict in Hc.
  destruct (local_changed v) eqn:El, (remote_changed v) eqn:Er; simpl in Hc.
  - bprop. rewrite (bool_decide_eq_true_2 _) by done. eexists. split; [done|]. cbn [value]. rewrite Vl.
    match goal with H : value _ = value _ |- _ => rewrite Vl, Vr in H end. split; naive_solver.
  - eexists. split; [done|]. rewrite Vl. specialize (Ur eq_refl). split; naive_solver.
  - eexists. split; [done|]. rewrite Vr. specialize (Ul eq_refl). split; naive_solver.
  - eexists. split; [done|]. cbn [value]. specialize (Ul eq_refl). specialize (Ur eq_refl).
    rewrite Vb. split; naive_solver.
Qed.

(** A decided side never panics. *)
Lemma select_side side (v : view T) :
  side ≠ Some Newest → (side = None → is_conflict v = false) → select side v ≠ Panic.
Proof.
  intros Hn Hc. destruct side as [[]|]; simpl; try done. specialize (Hc eq_refl).
  unfold is_conflict in Hc. destruct (local_changed v), (remote_changed v); simpl in *; try done.
  bprop. by rewrite bool_decide_eq_true_2.
Qed.

(** The selected value is one of the three. *)
Lemma select_from side b l r bd ld rd a x :
  select side (view_of b l r bd ld rd) = Ok a → value a = Some x →
  b = Some x ∨ l = Some x ∨ r = Some x.
Proof.
  assert (∀ y, value (local_result (view_of b l r bd ld rd)) = Some y → b = Some y ∨ l = Some y) as H1.
  { intros y. destruct b, l, ld; simpl; naive_solver. }
  assert (∀ y, value (remote_result (view_of b l r bd ld rd)) = Some y → b = Some y ∨ r = Some y) as H2.
  { intros y. destruct b, r, rd; simpl; naive_solver. }
  unfold select. destruct side as [[]|]; [naive_solver..|].
  repeat case_match; intros; simplify_eq/=; naive_solver.
Qed.

(** Whether an object is deleted: the tombstone of the selection. *)
Lemma select_deleted b l r bd ld rd a :
  is_conflict (view_of b l r bd ld rd) = false →
  (ld = true → l = None) → (rd = true → r = None) → (bd = true → b = None) →
  select None (view_of b l r bd ld rd) = Ok a →
  (rd = true → l = b → value a = None ∧ tombstone a = true) ∧
  (ld = true → r = b → value a = None ∧ tombstone a = true).
Proof.
  intros Hc Hl Hr Hb. unfold is_conflict, select, view_of in *.
  destruct b as [b|], l as [l|], r as [r|], bd, ld, rd; simpl in *;
    try (by specialize (Hl eq_refl)); try (by specialize (Hr eq_refl)); try (by specialize (Hb eq_refl));
    repeat case_bool_decide; simpl in *; intros; simplify_eq/=; try done; naive_solver.
Qed.

End Object.

(** ** One kind *)

Section Kind.
Context {T : Type} `{EqDecision T} (id : T → PortableObjectId) (k : PortableObjectKind).
Context (base local remote : list T) (bt lt rt : list ObjectNode) (sides : ResolvedSides).

Abbreviation get vs i := (bmap_get i (value_map id vs)).
Abbreviation ids := (value_ids id k base local remote bt lt rt).
Abbreviation nview := (node_view id k base local remote bt lt rt).

Lemma value_map_get (vs : list T) i v : get vs i = Some v → id v = i ∧ v ∈ vs.
Proof. intros (w & [= -> ->] & Hw)%bmap_of_elem%list_elem_of_fmap. done. Qed.

Lemma value_map_distinct (vs : list T) v :
  NoDup (map id vs) → v ∈ vs → get vs (id v) = Some v.
Proof.
  intros Hn Hv. unfold value_map. rewrite bmap_of_get; [|by rewrite map_map].
  induction vs as [|w vs IH]; [set_solver|]. simpl in *. apply NoDup_cons in Hn as [Hw Hn].
  apply elem_of_cons in Hv as [->|Hv]; [by destruct (keqb_spec (id w) (id w))|].
  destruct (keqb_spec (id v) (id w)) as [E|]; [|by apply IH].
  exfalso. apply Hw. rewrite <- E. apply list_elem_of_fmap. by exists v.
Qed.

(** The selection for an id, when it does not panic. *)
Definition selection (i : Z) : Applied T :=
  default (mkApplied None false) (rok (select (bmap_get (k, i) sides) (nview i))).

Lemma merge_values_fold l acc :
  rfold (merge_value id k base local remote bt lt rt sides) acc l ≠ Panic →
  rfold (merge_value id k base local remote bt lt rt sides) acc l =
  Ok (acc.1 ++ omap (λ i, value (selection i)) l,
      acc.2 ++ List.filter (λ i, match value (selection i) with
                                 | Some _ => false | None => tombstone (selection i) end) l).
Proof.
  revert acc. induction l as [|i l IH]; intros [vs ds] H; simpl in *; [by rewrite !app_nil_r|].
  unfold merge_value at 1 in H. unfold merge_value at 1.
  assert (selection i = default (mkApplied None false) (rok (select (bmap_get (k, i) sides) (nview i))))
    as Hsel by done. rewrite Hsel.
  destruct (select _ _) as [a|e|] eqn:E; simpl in *; [| |done].
  - destruct (value a) as [v|]; simpl in *; [rewrite IH by done; simpl; by rewrite <- app_assoc|].
    destruct (tombstone a); simpl in *; rewrite IH by done; simpl; by rewrite <- ?app_assoc.
  - exfalso. clear -E. unfold select in E. repeat case_match; done.
Qed.

Lemma select_panic_free l acc :
  (∀ i, i ∈ l → select (bmap_get (k, i) sides) (nview i) ≠ Panic) →
  rfold (merge_value id k base local remote bt lt rt sides) acc l ≠ Panic.
Proof.
  revert acc. induction l as [|i l IH]; intros acc H; simpl; [done|].
  apply rbind_no_panic; [|intros; apply IH; set_solver].
  unfold merge_value. apply rbind_no_panic; [apply H; set_solver|done].
Qed.

(** An id that occurs nowhere stays absent. *)
Lemma absent_view i :
  i ∉ ids → get base i = None ∧ get local i = None ∧ get remote i = None ∧
  bset_mem (k, i) bt = false ∧ bset_mem (k, i) lt = false ∧ bset_mem (k, i) rt = false.
Proof.
  unfold value_ids. rewrite elem_of_bset_of, !not_elem_of_app, !bmap_get_None, !bset_mem_false.
  assert (∀ ts, i ∉ ids_of_kind k ts → (k, i) ∉ ts) as H.
  { intros ts Hi Hin. apply Hi. unfold ids_of_kind. apply list_elem_of_fmap. exists (k, i). split; [done|].
    apply list_elem_of_In, filter_In. split; [by apply list_elem_of_In|]. by apply bool_decide_eq_true_2. }
  naive_solver.
Qed.

Lemma selection_absent i : i ∉ ids → value (selection i) = None ∧
  (tombstone (selection i) = false).
Proof.
  intros (E1 & E2 & E3 & E4 & E5 & E6)%absent_view. unfold selection, node_view.
  rewrite E1, E2, E3, E4, E5, E6. by destruct (bmap_get (k, i) sides) as [[]|].
Qed.

Lemma selection_id i v : value (selection i) = Some v → id v = i.
Proof.
  unfold selection. destruct (select _ _) as [a| |] eqn:E; simpl; [|done..].
  intros Hv. destruct (select_from _ _ _ _ _ _ _ _ _ E Hv) as [H|[H|H]]; by apply value_map_get in H as [].
Qed.

Lemma omap_ids_distinct l :
  NoDup l → NoDup (map id (omap (λ i, value (selection i)) l)) ∧
  (∀ v, v ∈ omap (λ i, value (selection i)) l → id v ∈ l).
Proof.
  induction 1 as [|i l Hi Hl [IH1 IH2]]; simpl; [split; [constructor|set_solver]|].
  destruct (value (selection i)) as [v|] eqn:E; [|set_solver].
  apply selection_id in E. simpl. split; [|set_solver]. constructor; [|done].
  intros (w & Hw & Hin)%list_elem_of_fmap. apply IH2 in Hin. congruence.
Qed.

(** What a kind's merge returns, id by id. *)
Lemma merge_values_spec vs ds :
  merge_values id k base local remote bt lt rt sides = Ok (vs, ds) →
  NoDup (map id vs) ∧ (∀ i, get vs i = value (selection i)) ∧
  (∀ i, i ∈ ds ↔ value (selection i) = None ∧ tombstone (selection i) = true).
Proof.
  unfold merge_values. intros H. rewrite merge_values_fold in H by (by rewrite H). simpl in H. simplify_eq.
  destruct (omap_ids_distinct ids) as [Hn Hids]; [apply bsorted_NoDup, bset_of_sorted|].
  split; [done|]. split.
  - intros i. destruct (value (selection i)) as [v|] eqn:E.
    + pose proof (selection_id i v E) as <-. apply value_map_distinct; [done|].
      apply list_elem_of_omap. exists (id v). split; [|done].
      destruct (decide (id v ∈ ids)); [done|]. by destruct (selection_absent (id v)) as [E' _]; [done|congruence].
    + destruct (get _ i) as [w|] eqn:Ew; [|done]. exfalso.
      apply value_map_get in Ew as [Hw (j & Hj & Ej)%list_elem_of_omap].
      pose proof (selection_id j w Ej). congruence.
  - intros i. rewrite list_elem_of_In, filter_In, <- list_elem_of_In. split.
    + intros [_ H]. by destruct (value (selection i)).
    + intros [E1 E2]. rewrite E1, E2. split; [|done].
      destruct (decide (i ∈ ids)); [done|]. destruct (selection_absent i); [done|congruence].
Qed.

(** Tombstones: of this kind they are exactly the deleted ids and the ones
    already there, less the ids that have a value; other kinds are untouched. *)
Lemma merge_kind_spec out vs out' :
  merge_kind id k base local remote bt lt rt sides out = Ok (vs, out') →
  NoDup (map id vs) ∧ (∀ i, get vs i = value (selection i)) ∧
  (∀ k' i, k' ≠ k → (k', i) ∈ out' ↔ (k', i) ∈ out) ∧
  (∀ i, (k, i) ∈ out' ↔ value (selection i) = None ∧ ((k, i) ∈ out ∨ tombstone (selection i) = true)) ∧
  (bsorted out → bsorted out').
Proof.
  unfold merge_kind. intros H. rinv H. destruct x as [vs' ds]. injection H as <- <-.
  apply merge_values_spec in E as (Hn & Hg & Hd).
  assert (∀ l o n, n ∈ fold_left (λ o v, bset_remove (k, id v) o) l o ↔
    n ∈ o ∧ n ∉ map (λ v, (k, id v)) l) as Hrem.
  { clear. induction l as [|v l IH]; intros o n; simpl; [set_solver|].
    rewrite IH, elem_of_bset_remove. set_solver. }
  assert (∀ l o, bsorted o → bsorted (fold_left (λ o v, bset_remove (k, id v) o) l o)) as Hsort.
  { clear. induction l as [|v l IH]; intros o Ho; simpl; [done|]. apply IH. by apply bset_remove_sorted. }
  split; [done|]. split; [done|]. split; [|split].
  - intros k' i Hk. rewrite Hrem, elem_of_bset_extend. split; [intros [[?|Hin] _]; [done|]; set_solver|].
    intros Hin. split; [by left|]. intros (v & [= ? ?] & _)%list_elem_of_fmap. done.
  - intros i. rewrite Hrem, elem_of_bset_extend.
    assert ((k, i) ∈ map (λ i, (k, i)) ds ↔ i ∈ ds) as ->.
    { rewrite list_elem_of_fmap. split; [intros (j & [= ->] & ?); done|]. intros. by exists i. }
    assert ((k, i) ∈ map (λ v, (k, id v)) vs' ↔ is_Some (value (selection i))) as ->.
    { rewrite list_elem_of_fmap. split.
      - intros (v & [= ->] & Hv). rewrite <- Hg, (value_map_distinct vs' v) by done. by eexists.
      - intros [v Hv]. exists v. rewrite <- Hg in Hv. apply value_map_get in Hv as [<- ?]. done. }
    rewrite Hd. destruct (value (selection i)); [|naive_solver].
    split; [intros [_ H]; exfalso; apply H; by eexists|intros [? _]; done].
  - intros Ho. apply Hsort. by apply bset_extend_sorted.
Qed.

(** A kind's merge does not panic when its conflicts have been decided. *)
Lemma merge_kind_no_panic out :
  (∀ n s, bmap_get n sides = Some s → s ≠ Newest) →
  (∀ i, i ∈ ids → is_conflict (nview i) = true → is_Some (bmap_get (k, i) sides)) →
  merge_kind id k base local remote bt lt rt sides out ≠ Panic.
Proof.
  intros Hn Hc. unfold merge_kind. apply rbind_no_panic; [|by intros []].
  unfold merge_values. apply select_panic_free. intros i Hi. apply select_side.
  - intros E. by eapply Hn in E.
  - intros E. destruct (is_conflict _) eqn:Ec; [|done]. apply Hc in Ec as [s Es]; [|done]. congruence.
Qed.

Lemma conflict_ids_elem n :
  n ∈ conflict_ids id k base local remote bt lt rt ↔
  n.1 = k ∧ n.2 ∈ ids ∧ is_conflict (nview n.2) = true.
Proof.
  unfold conflict_ids. rewrite elem_of_bset_of, list_elem_of_fmap.
  setoid_rewrite list_elem_of_In. setoid_rewrite filter_In. setoid_rewrite <- list_elem_of_In.
  destruct n as [k' i]. simpl. naive_solver.
Qed.

(** A conflict occurs only at an id some bundle mentions. *)
Lemma conflict_in_ids i : is_conflict (nview i) = true → i ∈ ids.
Proof.
  intros Hc. destruct (decide (i ∈ ids)) as [|Hn]; [done|].
  apply absent_view in Hn as (E1 & E2 & E3 & E4 & E5 & E6). unfold node_view in Hc.
  by rewrite E1, E2, E3, E4, E5, E6 in Hc.
Qed.

End Kind.

(** ** All kinds *)

(** An object of any kind. *)
Inductive PortableObject :=
| OHost (x : PortableHost)
| ODesktop (x : PortableDesktopProfile)
| OIdentity (x : PortableIdentity)
| OCredential (x : PortableCredential)
| ORoute (x : PortableRoute)
| OPlan (x : PortableAuthenticationPlan)
| OAlgorithm (x : PortableAlgorithmPolicy)
| OHeartbeat (x : PortableHeartbeatPolicy)
| OMonitoring (x : PortableMonitoringPolicy)
| OAutomation (x : PortableLoginAutomation)
| OSecret (x : PortableSecret).

#[global] Instance object_eq_dec : EqDecision PortableObject.
Proof. solve_decision. Defined.

Section Bundles.
Context {J : Type} `{JV : JsonValue J}.
Abbreviation bundle := (PortableBundleV1 J).
Implicit Types b base local remote m : bundle.

Definition object_at b (n : ObjectNode) : option PortableObject :=
  let o := objects b in
  let at_ {T} (id : T → Z) (vs : list T) (c : T → PortableObject) :=
    c <$> bmap_get n.2 (value_map id vs) in
  match n.1 with
  | Host => at_ host_id (hosts o) OHost
  | DesktopProfile => at_ desktop_id (desktop_profiles o) ODesktop
  | Identity => at_ identity_id (identities o) OIdentity
  | Credential => at_ credential_id (credentials o) OCredential
  | Route => at_ proute_id (routes o) ORoute
  | AuthenticationPlan => at_ plan_id (authentication_plans o) OPlan
  | AlgorithmPolicy => at_ algorithm_id (algorithm_policies o) OAlgorithm
  | HeartbeatPolicy => at_ heartbeat_id (heartbeat_policies o) OHeartbeat
  | MonitoringPolicy => at_ monitoring_id (monitoring_policies o) OMonitoring
  | LoginAutomation => at_ automation_id (login_automations o) OAutomation
  | Secret => at_ secret_id (secrets b) OSecret
  end.

(** A bundle's tombstones as nodes. *)
Definition deleted_at b (n : ObjectNode) : Prop := n ∈ tombstone_set b.

Definition node_conflict base local remote (n : ObjectNode) : bool :=
  let bt := tombstone_set base in
  let lt := tombstone_set local in
  let rt := tombstone_set remote in
  let at_ {T} `{EqDecision T} (id : T → Z) (f : bundle → list T) :=
    is_conflict (node_view id n.1 (f base) (f local) (f remote) bt lt rt n.2) in
  match n.1 with
  | Host => at_ host_id (λ b, hosts (objects b))
  | DesktopProfile => at_ desktop_id (λ b, desktop_profiles (objects b))
  | Identity => at_ identity_id (λ b, identities (objects b))
  | Credential => at_ credential_id (λ b, credentials (objects b))
  | Route => at_ proute_id (λ b, routes (objects b))
  | AuthenticationPlan => at_ plan_id (λ b, authentication_plans (objects b))
  | AlgorithmPolicy => at_ algorithm_id (λ b, algorithm_policies (objects b))
  | HeartbeatPolicy => at_ heartbeat_id (λ b, heartbeat_policies (objects b))
  | MonitoringPolicy => at_ monitoring_id (λ b, monitoring_policies (objects b))
  | LoginAutomation => at_ automation_id (λ b, login_automations (objects b))
  | Secret => at_ secret_id secrets
  end.

Definition conflicts_of base local remote : list ObjectNode :=
  collect_conflict_nodes base local remote (tombstone_set base) (tombstone_set local)
    (tombstone_set remote).

Lemma kind_conflicts {T} `{EqDecision T} (id : T → Z) k vb vl vr bt lt rt (n : ObjectNode) :
  n ∈ conflict_ids id k vb vl vr bt lt rt ↔
  n.1 = k ∧ is_conflict (node_view id k vb vl vr bt lt rt n.2) = true.
Proof.
  rewrite conflict_ids_elem. split; [naive_solver|]. intros [H1 H2]. split; [done|].
  split; [|done]. by eapply conflict_in_ids.
Qed.

Lemma conflicts_of_elem base local remote n :
  n ∈ conflicts_of base local remote ↔ node_conflict base local remote n = true.
Proof.
  unfold conflicts_of, collect_conflict_nodes. rewrite !elem_of_bset_extend, !kind_conflicts.
  destruct n as [[] i]; unfold node_conflict; simpl; set_solver.
Qed.

Lemma conflicts_of_sorted base local remote : bsorted (conflicts_of base local remote).
Proof. unfold conflicts_of, collect_conflict_nodes. repeat apply bset_extend_sorted. constructor. Qed.

(** What the merge establishes for one kind. *)
Definition kind_merged {T} `{EqDecision T} (id : T → Z) (k : PortableObjectKind)
    (vb vl vr vs : list T) (bt lt rt : list ObjectNode) (sides : ResolvedSides)
    (out : list ObjectNode) : Prop :=
  (∀ i, bmap_get i (value_map id vs) = value (selection id k vb vl vr bt lt rt sides i)) ∧
  (∀ i, (k, i) ∈ out ↔ value (selection id k vb vl vr bt lt rt sides i) = None ∧
     ((k, i) ∈ bt ∨ tombstone (selection id k vb vl vr bt lt rt sides i) = true)).

(** The tombstones of a kind depend only on that kind's merge. *)
Ltac trace_tombstones :=
  repeat match goal with
  | H : ∀ k' i, k' ≠ _ → (k', i) ∈ ?o' ↔ (k', i) ∈ _ |- context [_ ∈ ?o'] =>
      rewrite H by discriminate
  end.

Lemma merge_all_spec base local remote bt lt rt sides o ss out :
  merge_all base local remote bt lt rt sides = Ok (o, ss, out) → bsorted bt →
  kind_merged host_id Host (hosts (objects base)) (hosts (objects local)) (hosts (objects remote)) (hosts o) bt lt rt sides out ∧
  kind_merged desktop_id DesktopProfile (desktop_profiles (objects base)) (desktop_profiles (objects local)) (desktop_profiles (objects remote)) (desktop_profiles o) bt lt rt sides out ∧
  kind_merged identity_id Identity (identities (objects base)) (identities (objects local)) (identities (objects remote)) (identities o) bt lt rt sides out ∧
  kind_merged credential_id Credential (credentials (objects base)) (credentials (objects local)) (credentials (objects remote)) (credentials o) bt lt rt sides out ∧
  kind_merged proute_id Route (routes (objects base)) (routes (objects local)) (routes (objects remote)) (routes o) bt lt rt sides out ∧
  kind_merged plan_id AuthenticationPlan (authentication_plans (objects base)) (authentication_plans (objects local)) (authentication_plans (objects remote)) (authentication_plans o) bt lt rt sides out ∧
  kind_merged algorithm_id AlgorithmPolicy (algorithm_policies (objects base)) (algorithm_policies (objects local)) (algorithm_policies (objects remote)) (algorithm_policies o) bt lt rt sides out ∧
  kind_merged heartbeat_id HeartbeatPolicy (heartbeat_policies (objects base)) (heartbeat_policies (objects local)) (heartbeat_policies (objects remote)) (heartbeat_policies o) bt lt rt sides out ∧
  kind_merged monitoring_id MonitoringPolicy (monitoring_policies (objects base)) (monitoring_policies (objects local)) (monitoring_policies (objects remote)) (monitoring_policies o) bt lt rt sides out ∧
  kind_merged automation_id LoginAutomation (login_automations (objects base)) (login_automations (objects local)) (login_automations (objects remote)) (login_automations o) bt lt rt sides out ∧
  kind_merged secret_id Secret (secrets base) (secrets local) (secrets remote) ss bt lt rt sides out ∧
  bsorted out.
Proof.
  unfold merge_all. intros H Hbt.
  repeat match type of H with
  | rbind (merge_kind _ _ _ _ _ _ _ _ _ _) _ = _ =>
      let E := fresh "E" in
      destruct (merge_kind _ _ _ _ _ _ _ _ _ _) as [[? ?]| |] eqn:E in H;
      cbn [rbind] in H; [apply merge_kind_spec in E as (_ & ? & ? & ? & ?)|discriminate H|discriminate H]
  end.
  injection H as <- <- <-. unfold kind_merged. simpl.
  repeat (split; [split; [done|intros i; trace_tombstones;
    match goal with H : ∀ i, (?k, i) ∈ ?o ↔ _ |- (?k, i) ∈ ?o ↔ _ => rewrite H; trace_tombstones; done end]|]).
  auto 20.
Qed.


(** ** Outcomes of the merge *)

(** How a merged bundle came about. *)
Record merged_from base local remote (cr dr : option BundleConflictResolution) (now : Z) m
    (sides : ResolvedSides) : Prop := {
  mf_base : bundle_wf base;
  mf_local : bundle_wf local;
  mf_remote : bundle_wf remote;
  mf_sides : resolve_conflicts [base; local; remote] (conflicts_of base local remote) local remote cr dr now
             = Ok (sides, 0);
  mf_parts : merge_all base local remote (tombstone_set base) (tombstone_set local)
               (tombstone_set remote) sides = Ok (objects m, secrets m, tombstone_set m);
  mf_valid : validate m = Ok tt;
  mf_times : update_times m =
    merge_update_times (objects m) (secrets m) (tombstones m) base local remote;
  mf_reachable : validate_reverse_reachability m = Ok tt;
}.

Lemma tombstone_set_sorted b : bsorted (tombstone_set b).
Proof. apply bset_of_sorted. Qed.

Lemma tombstones_of_nodes (out : list ObjectNode) :
  map (λ t, (tomb_kind t, tomb_id t)) (map (λ n, mkTombstone n.1 n.2) out) = out.
Proof. rewrite map_map. rewrite <- (map_id out) at 2. apply map_ext. by intros []. Qed.

Lemma resolve_nonneg base local remote cr dr now sides u :
  resolve_conflicts [base; local; remote] (conflicts_of base local remote) local remote cr dr now
    = Ok (sides, u) →
  resolved_ok [base; local; remote] (conflicts_of base local remote) sides u.
Proof.
  intros H. destruct (resolve_conflicts_ok [base; local; remote] _ local remote cr dr now
    (conflicts_of_sorted base local remote)) as (s & u' & E & Ho).
  rewrite H in E. by simplify_eq.
Qed.

Lemma merge_outcome base local remote rev cr dr now m :
  merge_bundles_three_way_with_policies base local remote rev cr dr now = Ok (Merged m) →
  ∃ sides, merged_from base local remote cr dr now m sides.
Proof.
  unfold merge_bundles_three_way_with_policies. fold (conflicts_of base local remote). intros H.
  rinv H. destruct x2 as [sides oc]. rinv H. destruct x2 as [prefs pc].
  destruct ((0 <? oc) || (0 <? pc)) eqn:Ec; [done|].
  destruct (merge_all _ _ _ _ _ _ _) as [[[o ss] out]| |] eqn:E6; [|done..].
  cbn [rbind fst snd] in H. set (mb := merged_bundle _ _ _ _ _ _ _ _ _ _) in H.
  match type of H with (if ?c then _ else _) = _ => destruct c; [done|] end.
  destruct (validate mb) as [[]| |] eqn:Ev; [|done..]. cbn [rbind] in H.
  destruct (validate_reverse_reachability mb) as [[]| |] eqn:Er; [|done..]. injection H as <-.
  destruct x, x0, x1.
  pose proof (ro_nonneg _ _ _ _ (resolve_nonneg _ _ _ _ _ _ _ _ E4)). bprop.
  assert (oc = 0) as -> by lia.
  exists sides. split; eauto using validate_wf.
  pose proof (merge_all_spec _ _ _ _ _ _ _ _ _ _ E6 (tombstone_set_sorted base)) as Hs.
  assert (tombstone_set mb = out) as ->; [|done].
  unfold tombstone_set, mb, merged_bundle. cbn [tombstones]. rewrite tombstones_of_nodes.
  apply bset_of_id. by destruct_and!.
Qed.

(** Tombstones and objects of a valid bundle are disjoint. *)
Lemma deleted_absent b n : bundle_wf b → deleted_at b n → object_at b n = None.
Proof.
  intros Hb Hd. assert (n.2 ∈ map tomb_id (tombstones b)) as Ht.
  { unfold deleted_at, tombstone_set in Hd. rewrite elem_of_bset_of, list_elem_of_fmap in Hd.
    destruct Hd as (t & -> & Ht). apply list_elem_of_fmap. by exists t. }
  pose proof (wf_ids _ Hb) as Hn. unfold all_ids, objects_all_ids in Hn. rewrite !NoDup_app in Hn.
  assert (∀ {T} (id : T → Z) (vs : list T) (c : T → PortableObject),
    (∀ i, i ∈ map id vs → i ∉ map tomb_id (tombstones b)) →
    c <$> bmap_get n.2 (value_map id vs) = None) as Hk.
  { intros T id vs c Hdis. destruct (bmap_get n.2 (value_map id vs)) as [v|] eqn:E; [|done].
    apply value_map_get in E as [Hi Hv]. destruct (Hdis n.2); [|done]. apply list_elem_of_fmap. by exists v. }
  destruct n as [k i]. simpl in *. unfold object_at. simpl.
  destruct k; apply Hk; intros j Hj; destruct_and!; set_solver.
Qed.

Lemma three_way_fmap {A B} (c : A → B) (b l r x : option A) :
  Inj (=) (=) c → three_way b l r x → three_way (c <$> b) (c <$> l) (c <$> r) (c <$> x).
Proof.
  intros Hc [H1 H2 H3]. assert (∀ p q : option A, c <$> p = c <$> q → p = q) as Hi.
  { intros [] [] E; simplify_eq/=; naive_solver. }
  split.
  - intros E. by rewrite (H1 (Hi _ _ E)).
  - intros E. by rewrite (H2 (Hi _ _ E)).
  - intros E1 E2. destruct H3 as [Ha Hb]; [congruence..|]. split; congruence.
Qed.

(** The facts about one kind that the theorems need. *)
Lemma kind_rule {T} `{EqDecision T} (id : T → Z) k vb vl vr vs bt lt rt out i :
  kind_merged id k vb vl vr vs bt lt rt [] out →
  is_conflict (node_view id k vb vl vr bt lt rt i) = false →
  ((k, i) ∈ bt → bmap_get i (value_map id vb) = None) →
  ((k, i) ∈ lt → bmap_get i (value_map id vl) = None) →
  ((k, i) ∈ rt → bmap_get i (value_map id vr) = None) →
  three_way (bmap_get i (value_map id vb)) (bmap_get i (value_map id vl))
    (bmap_get i (value_map id vr)) (bmap_get i (value_map id vs)) ∧
  ((k, i) ∈ rt → bmap_get i (value_map id vl) = bmap_get i (value_map id vb) → (k, i) ∈ out) ∧
  ((k, i) ∈ lt → bmap_get i (value_map id vr) = bmap_get i (value_map id vb) → (k, i) ∈ out) ∧
  ((k, i) ∈ bt → bmap_get i (value_map id vs) = None → (k, i) ∈ out).
Proof.
  intros [Hg Ho] Hc Hb Hl Hr. rewrite !Ho, Hg. clear Ho Hg.
  rewrite <- bset_mem_true in Hb. rewrite <- bset_mem_true in Hl. rewrite <- bset_mem_true in Hr.
  rewrite <- !bset_mem_true.
  unfold selection. cbn [bmap_get]. unfold node_view in *.
  destruct (select_three_way _ _ _ _ _ _ Hl Hr Hc) as (a & Ea & Ht).
  destruct (select_deleted _ _ _ _ _ _ _ Hc Hl Hr Hb Ea) as [Hd1 Hd2]. rewrite Ea. simpl.
  split; [done|]. naive_solver.
Qed.

(** With no policy a merged bundle has no conflict and no decided side. *)
Lemma unresolved_none base local remote now sides :
  resolve_conflicts [base; local; remote] (conflicts_of base local remote) local remote None None now
    = Ok (sides, 0) →
  sides = [] ∧ ∀ n, node_conflict base local remote n = false.
Proof.
  unfold resolve_conflicts. destruct (conflicts_of base local remote) as [|c cs] eqn:E.
  - intros [= <-]. split; [done|]. intros n. destruct (node_conflict _ _ _ n) eqn:En; [|done].
    apply conflicts_of_elem in En. rewrite E in En. set_solver.
  - intros H. injection H as _ H. rewrite zlen_cons in H. pose proof (zlen_nonneg cs). lia.
Qed.

Lemma node_rule base local remote now m n :
  (∃ sides, merged_from base local remote None None now m sides) →
  three_way (object_at base n) (object_at local n) (object_at remote n) (object_at m n) ∧
  (deleted_at remote n → object_at local n = object_at base n → deleted_at m n) ∧
  (deleted_at local n → object_at remote n = object_at base n → deleted_at m n) ∧
  (deleted_at base n → object_at m n = None → deleted_at m n).
Proof.
  intros [sides [Wb Wl Wr Hs Hp _ _ _]]. apply unresolved_none in Hs as [-> Hc]. specialize (Hc n).
  pose proof (deleted_absent base n Wb) as Db. pose proof (deleted_absent local n Wl) as Dl.
  pose proof (deleted_absent remote n Wr) as Dr.
  apply merge_all_spec in Hp; [|apply tombstone_set_sorted].
  destruct Hp as (K1 & K2 & K3 & K4 & K5 & K6 & K7 & K8 & K9 & K10 & K11 & _).
  assert (∀ {T} `{EqDecision T} (id : T → Z) k vb vl vr vs (c : T → PortableObject), Inj (=) (=) c →
    n.1 = k →
    kind_merged id k vb vl vr vs (tombstone_set base) (tombstone_set local) (tombstone_set remote) []
      (tombstone_set m) →
    is_conflict (node_view id k vb vl vr (tombstone_set base) (tombstone_set local)
      (tombstone_set remote) n.2) = false →
    (deleted_at base n → c <$> bmap_get n.2 (value_map id vb) = None) →
    (deleted_at local n → c <$> bmap_get n.2 (value_map id vl) = None) →
    (deleted_at remote n → c <$> bmap_get n.2 (value_map id vr) = None) →
    three_way (c <$> bmap_get n.2 (value_map id vb)) (c <$> bmap_get n.2 (value_map id vl))
      (c <$> bmap_get n.2 (value_map id vr)) (c <$> bmap_get n.2 (value_map id vs)) ∧
    (deleted_at remote n → c <$> bmap_get n.2 (value_map id vl) = c <$> bmap_get n.2 (value_map id vb) →
      deleted_at m n) ∧
    (deleted_at local n → c <$> bmap_get n.2 (value_map id vr) = c <$> bmap_get n.2 (value_map id vb) →
      deleted_at m n) ∧
    (deleted_at base n → c <$> bmap_get n.2 (value_map id vs) = None → deleted_at m n)) as Hkind.
  { intros T ? id k vb vl vr vs c Hinj Hk Hm Hnc Hb Hl Hr. destruct n as [k' i]. simpl in *. subst k'.
    unfold deleted_at in *.
    assert (∀ p : option T, c <$> p = None → p = None) as Hn by (by intros []).
    assert (∀ p q : option T, c <$> p = c <$> q → p = q) as Hi.
    { intros [] [] E; simplify_eq/=; f_equal; by apply Hinj. }
    destruct (kind_rule id k vb vl vr vs _ _ _ _ i Hm Hnc) as (H1 & H2 & H3 & H4); [naive_solver..|].
    split; [by apply three_way_fmap|]. naive_solver. }
  destruct n as [k i]. unfold object_at in *. unfold node_conflict in Hc. simpl in *.
  destruct k; eapply Hkind; try done; by intros ?? [=].
Qed.

End Bundles.

End ThreeWay.
