(* ===== verification/SyncGuarantees.v ===== *)
(** * What the bundle merge guarantees (crates/ssh-profile-sync/src/merge.rs)

    The properties of [merge_bundles_three_way_with_policies] as a whole: it
    never panics, it follows the three-way rule object by object, it keeps
    deletions, it treats its two sides alike, its result is well formed and
    its update times are those of the inputs. *)

From stdpp Require Import sorting.
From Stdlib Require Import Sorting.Sorted.
From S2P Require Import Prelude RustStr BTree SyncSchema SyncMerge SyncResolve SyncThreeWay.

Module Guarantees.
Import Sync SyncMerge SyncResolve ThreeWay.

Section Bundles.
Context {J : Type} `{JV : JsonValue J}.
Abbreviation bundle := (PortableBundleV1 J).
Implicit Types b base local remote m : bundle.

(** ** Panics *)

(** Valid preferences have exactly the known groups. *)
Lemma preference_groups (p : PortablePreferencesV1 J) u :
  validate_preferences p = Ok u → ∀ k, k ∈ bmap_keys (groups p) ↔ k ∈ map fst GROUPS.
Proof.
  unfold validate_preferences. intros H. rinv H. bprop. rewrite rforall_Ok, Forall_forall in H.
  assert (incl (map fst GROUPS) (bmap_keys (groups p))) as Hincl.
  { intros k. rewrite <- !list_elem_of_In. intros (g & -> & Hg)%list_elem_of_fmap.
    specialize (H g Hg). unfold validate_group in H. apply bmap_get_key.
    destruct (bmap_get g.1 (groups p)); [by eexists|done]. }
  assert (NoDup (map fst GROUPS)) as Hnd by (by apply (bool_decide_unpack _); vm_compute).
  intros k. rewrite !list_elem_of_In. split; [|apply Hincl].
  revert k. apply NoDup_length_incl; [by apply NoDup_ListNoDup| |done].
  unfold bmap_keys. rewrite !length_map. unfold zlen in *. lia.
Qed.

Lemma valid_preferences b u p :
  validate b = Ok u → preferences b = Some p → ∃ v, validate_preferences p = Ok v.
Proof.
  unfold validate. intros H Hp. rinv H. unfold validate_schema in *.
  match goal with H : (if _ then _ else _) = Ok _, Hp : preferences b = _ |- _ =>
    rinv H; rewrite Hp in H; destruct (schema b); eauto; done end.
Qed.

Lemma merge_preferences_no_panic base local remote cr now u v :
  validate local = Ok u → validate remote = Ok v →
  merge_preferences base local remote cr now ≠ Panic.
Proof.
  intros Hl Hr. unfold merge_preferences.
  destruct (preferences local) as [lp|] eqn:El, (preferences remote) as [rp|] eqn:Er; [|done..].
  destruct (valid_preferences _ _ _ Hl El) as [? Hlp], (valid_preferences _ _ _ Hr Er) as [? Hrp].
  pose proof (preference_groups _ _ Hlp) as Kl. pose proof (preference_groups _ _ Hrp) as Kr.
  apply rbind_no_panic; [|by intros []].
  assert (∀ gv, gv ∈ groups lp → is_Some (bmap_get gv.1 (groups rp))) as Hget.
  { intros gv Hgv. apply bmap_get_key, Kr, Kl, list_elem_of_fmap. by exists gv. }
  generalize (groups lp, 0). revert Hget. generalize (groups lp).
  induction l as [|gv gs IH]; intros Hget acc; cbn [rfold]; [done|].
  apply rbind_no_panic; [|intros; apply IH; set_solver].
  destruct (Hget gv) as [rv ->]; [set_solver|]. by destruct (choose_group _ _ _ _ _).
Qed.

Lemma merge_all_no_panic base local remote sides :
  (∀ n s, bmap_get n sides = Some s → s ≠ Newest) →
  (∀ n, n ∈ conflicts_of base local remote → is_Some (bmap_get n sides)) →
  merge_all base local remote (tombstone_set base) (tombstone_set local) (tombstone_set remote) sides
    ≠ Panic.
Proof.
  intros He Hc. unfold merge_all.
  repeat (apply rbind_no_panic; [apply merge_kind_no_panic;
    [done|intros i _ Hi; apply Hc, conflicts_of_elem; exact Hi]|intros [] _]). done.
Qed.

Lemma reachability_no_panic b : validate_reverse_reachability b ≠ Panic.
Proof.
  unfold validate_reverse_reachability. apply rbind_no_panic; [|intros; rnp; apply check_no_panic].
  apply rforall_no_panic. intros. apply check_no_panic.
Qed.

(** The merge never panics, whatever bundles it is given and whatever the
    policies: the [unreachable!] of an undecided conflict, the [expect] of a
    consistent component and the indexing of the preference groups are never
    reached. *)
Theorem merge_never_panics base local remote rev cr dr now :
  merge_bundles_three_way_with_policies base local remote rev cr dr now ≠ Panic.
Proof.
  unfold merge_bundles_three_way_with_policies. fold (conflicts_of base local remote).
  apply rbind_no_panic; [apply validate_no_panic|intros ? Eb].
  apply rbind_no_panic; [apply validate_no_panic|intros ? El].
  apply rbind_no_panic; [apply validate_no_panic|intros ? Er].
  case_match; [done|]. case_match; [done|].
  destruct (resolve_conflicts_ok [base; local; remote] _ local remote cr dr now
    (conflicts_of_sorted base local remote)) as (sides & u & -> & [R1 R2 _ R4]). cbn [rbind].
  apply rbind_no_panic; [case_match; [done|by eapply merge_preferences_no_panic]|intros [prefs pc] _].
  destruct ((0 <? u) || (0 <? pc)) eqn:Ec; [done|]. bprop.
  apply rbind_no_panic; [apply merge_all_no_panic; [done|apply R2; lia]|intros [[o ss] out] _].
  case_match; [done|]. apply rbind_no_panic; [apply validate_no_panic|intros].
  apply rbind_no_panic; [apply reachability_no_panic|done].
Qed.

(** ** Conflicts *)

(** A side edits an object when its value differs from the base, or when it
    newly records the object as deleted. *)
Definition edits base b (n : ObjectNode) : Prop :=
  object_at b n ≠ object_at base n ∨ (deleted_at b n ∧ ¬ deleted_at base n).

Lemma is_conflict_spec {T} `{EqDecision T} (b l r : option T) bd ld rd :
  (bd = true → b = None) → (ld = true → l = None) → (rd = true → r = None) →
  is_conflict (view_of b l r bd ld rd) = true ↔
  (l ≠ b ∨ (ld = true ∧ bd ≠ true)) ∧ (r ≠ b ∨ (rd = true ∧ bd ≠ true)) ∧
  (l ≠ r ∨ ¬ (ld = true ↔ rd = true)).
Proof.
  intros Hb Hl Hr. unfold is_conflict, view_of.
  destruct b as [b|], l as [l|], r as [r|], bd, ld, rd; simpl in *;
    try (by specialize (Hl eq_refl)); try (by specialize (Hr eq_refl)); try (by specialize (Hb eq_refl));
    repeat case_bool_decide; simpl in *; simplify_eq/=; naive_solver congruence.
Qed.

Lemma fmap_inj_ne {A B} (c : A → B) (p q : option A) :
  Inj (=) (=) c → c <$> p ≠ c <$> q ↔ p ≠ q.
Proof.
  intros Hc. destruct p, q; simpl; split; intros H E; apply H; simplify_eq; try done; f_equal;
    by apply Hc.
Qed.

Lemma node_conflict_spec base local remote n :
  bundle_wf base → bundle_wf local → bundle_wf remote →
  node_conflict base local remote n = true ↔
  edits base local n ∧ edits base remote n ∧
  (object_at local n ≠ object_at remote n ∨ ¬ (deleted_at local n ↔ deleted_at remote n)).
Proof.
  intros Wb Wl Wr. unfold edits.
  pose proof (deleted_absent base n Wb) as Db. pose proof (deleted_absent local n Wl) as Dl.
  pose proof (deleted_absent remote n Wr) as Dr. unfold deleted_at in *.
  rewrite <- !bset_mem_true. rewrite <- bset_mem_true in Db. rewrite <- bset_mem_true in Dl.
  rewrite <- bset_mem_true in Dr.
  destruct n as [k i]. unfold node_conflict, object_at in *. simpl in *.
  destruct k; rewrite !fmap_None in *; rewrite !fmap_inj_ne by (by intros ?? [=]);
    by apply is_conflict_spec.
Qed.

(** ** Exchanging the sides *)

Abbreviation swap_opt := (fmap (M := option) swap_side).

(** The same decisions seen from the other side. *)
Definition swap_sides (sides : ResolvedSides) : ResolvedSides :=
  map (λ ns, (ns.1, swap_side ns.2)) sides.

Lemma swap_sides_get sides n : bmap_get n (swap_sides sides) = swap_opt (bmap_get n sides).
Proof. induction sides as [|[x s] sides IH]; simpl; [done|]. by destruct (keqb n x). Qed.

Lemma swap_sides_insert sides n s :
  swap_sides (bmap_insert n s sides) = bmap_insert n (swap_side s) (swap_sides sides).
Proof.
  unfold swap_sides. induction sides as [|[x w] sides IH]; [done|].
  cbn [bmap_insert map fst snd]. destruct (kcmp n x); cbn [map fst snd]; congruence.
Qed.

Lemma swap_sides_assign comp side sides :
  swap_sides (fold_left (λ s n, bmap_insert n side s) comp sides) =
  fold_left (λ s n, bmap_insert n (swap_side side) s) comp (swap_sides sides).
Proof.
  revert sides. induction comp as [|n comp IH]; intros sides; simpl; [done|].
  by rewrite IH, swap_sides_insert.
Qed.

Lemma member_side_swap local remote cr dr now n :
  member_side remote local (swap_opt cr) (swap_opt dr) now n =
  swap_opt (member_side local remote cr dr now n).
Proof.
  unfold member_side. rewrite (newest_side_swap (item_time local n)).
  destruct (newest_side (item_time local n) _ now) as [[]|] eqn:E; simpl;
    [| |by apply newest_side_explicit in E|].
  - destruct (existsb _ (tombstones local)); [by destruct dr as [[]|]|by destruct cr as [[]|]].
  - destruct (existsb _ (tombstones remote)); [by destruct dr as [[]|]|by destruct cr as [[]|]].
  - by destruct cr as [[]|].
Qed.

Lemma component_swap local remote cr dr now comp st :
  fold_left (component_step remote local (swap_opt cr) (swap_opt dr) now) comp (swap_opt st.1, st.2) =
  let r := fold_left (component_step local remote cr dr now) comp st in (swap_opt r.1, r.2).
Proof.
  revert st. induction comp as [|n comp IH]; intros st; simpl; [done|]. rewrite <- IH. f_equal.
  unfold component_step. rewrite member_side_swap. simpl.
  destruct (member_side _ _ _ _ _ n) as [s|], st.1 as [p|]; simpl; try done.
  rewrite (bool_decide_ext (Some (swap_side p) = Some (swap_side s)) (Some p = Some s)); [done|].
  destruct s, p; naive_solver.
Qed.

Lemma linked_swap base local remote x y :
  linked [base; remote; local] x y ↔ linked [base; local; remote] x y.
Proof.
  unfold linked. split; intros (b & e & Hb & He); exists b, e; (split; [|done]);
    rewrite !elem_of_cons in *; tauto.
Qed.

Lemma closure_swap base local remote start :
  bsorted start →
  expand_conflict_closure [base; remote; local] start = expand_conflict_closure [base; local; remote] start.
Proof.
  intros Hs. apply bset_ext; [by apply expand_closure_sorted..|]. intros x.
  rewrite !expand_closure_spec by done. split; intros (y & Hy & Hr); exists y; (split; [done|]);
    (eapply rtc_subrel; [|exact Hr]); intros; by apply linked_swap.
Qed.

Lemma resolve_loop_swap fuel base local remote conflicts cr dr now remaining sides u :
  resolve_loop fuel [base; remote; local] conflicts remote local (swap_opt cr) (swap_opt dr) now
    remaining (swap_sides sides) u =
  (let? (s, u) := resolve_loop fuel [base; local; remote] conflicts local remote cr dr now
    remaining sides u in Ok (swap_sides s, u)).
Proof.
  revert remaining sides u. induction fuel as [|fuel IH]; intros remaining sides u;
    destruct remaining as [|node rest]; cbn [resolve_loop rbind]; [done..|].
  rewrite closure_swap by (repeat constructor).
  set (comp := List.filter _ _). clearbody comp.
  pose proof (component_swap local remote cr dr now comp (None, true)) as Hc.
  cbv zeta in Hc. cbn [fst snd fmap option_fmap option_map] in Hc. rewrite Hc. clear Hc.
  destruct (fold_left _ comp (None, true)) as [[side|] []]; simpl; [|apply IH|done|apply IH].
  rewrite <- swap_sides_assign. apply IH.
Qed.

Lemma resolve_conflicts_swap base local remote conflicts cr dr now :
  bsorted conflicts →
  resolve_conflicts [base; remote; local] conflicts remote local (swap_opt cr) (swap_opt dr) now =
  (let? (s, u) := resolve_conflicts [base; local; remote] conflicts local remote cr dr now in
   Ok (swap_sides s, u)).
Proof.
  intros Hs. unfold resolve_conflicts. destruct conflicts as [|c cs] eqn:Ec; [done|]. rewrite <- Ec in *.
  pose proof (resolve_loop_swap (length conflicts) base local remote conflicts cr dr now conflicts [] 0)
    as Hloop.
  pose proof (closure_swap base local remote conflicts Hs) as Hcl. clear Ec.
  assert (forallb (λ b, is_one_of (schema b) [SV5; SV6]) [base; remote; local] =
    forallb (λ b, is_one_of (schema b) [SV5; SV6]) [base; local; remote]) as Hf.
  { simpl. rewrite !andb_true_r. f_equal. apply andb_comm. }
  destruct cr as [[]|], dr as [[]|]; simpl explicit_side; try exact Hloop;
    repeat case_bool_decide; simplify_eq/=; try exact Hloop; try done;
    rewrite ?Hcl, ?swap_sides_assign; rewrite ?andb_true_r in *; rewrite ?Hf; done.
Qed.

Section KindSwap.
Context {T : Type} `{EqDecision T} (id : T → PortableObjectId) (k : PortableObjectKind).
Context (vb vl vr : list T) (bt lt rt : list ObjectNode) (sides : ResolvedSides).

Lemma select_swap side (b l r : option T) bd ld rd :
  select (swap_opt side) (view_of b r l bd rd ld) = select side (view_of b l r bd ld rd).
Proof.
  destruct side as [[]|]; [done..|]. unfold select. cbn [fmap option_fmap option_map].
  rewrite view_swap. cbv zeta. cbn [local_changed remote_changed local_result remote_result v_base v_base_deleted].
  set (v := view_of b l r bd ld rd). clearbody v.
  destruct (local_changed v), (remote_changed v); [|done..].
  destruct (decide (value (local_result v) = value (remote_result v))) as [E|E].
  - rewrite !bool_decide_eq_true_2 by done. by rewrite E, orb_comm.
  - by rewrite !bool_decide_eq_false_2 by done.
Qed.

Lemma value_ids_swap : value_ids id k vb vr vl bt rt lt = value_ids id k vb vl vr bt lt rt.
Proof.
  unfold value_ids. apply bset_ext; [apply bset_of_sorted..|]. intros i.
  rewrite !elem_of_bset_of, !elem_of_app. tauto.
Qed.

Lemma merge_kind_swap out :
  merge_kind id k vb vr vl bt rt lt (swap_sides sides) out = merge_kind id k vb vl vr bt lt rt sides out.
Proof.
  unfold merge_kind, merge_values. rewrite value_ids_swap.
  rewrite (rfold_ext _ (merge_value id k vb vl vr bt lt rt sides)); [done|].
  intros acc i. unfold merge_value, node_view. by rewrite swap_sides_get, select_swap.
Qed.

End KindSwap.

Lemma merge_all_swap base local remote bt lt rt sides :
  merge_all base remote local bt rt lt (swap_sides sides) = merge_all base local remote bt lt rt sides.
Proof.
  unfold merge_all.
  repeat (rewrite merge_kind_swap;
    destruct (merge_kind _ _ _ _ _ _ _ _ _ _) as [[]| |]; cbn [rbind]; [|done..]).
  done.
Qed.

Lemma conflicts_of_swap base local remote :
  conflicts_of base remote local = conflicts_of base local remote.
Proof.
  apply bset_ext; [apply conflicts_of_sorted..|]. intros n. rewrite !conflicts_of_elem.
  assert (node_conflict base remote local n = node_conflict base local remote n) as ->; [|done].
  unfold node_conflict. destruct n as [[] i]; simpl; apply is_conflict_swap.
Qed.

(** ** Decided conflicts *)

Lemma kind_decided {T} `{EqDecision T} (id : T → Z) k vb vl vr vs bt lt rt sides out i s :
  kind_merged id k vb vl vr vs bt lt rt sides out → bmap_get (k, i) sides = Some s → s ≠ Newest →
  ((k, i) ∈ lt → bmap_get i (value_map id vl) = None) →
  ((k, i) ∈ rt → bmap_get i (value_map id vr) = None) →
  bmap_get i (value_map id vs) =
  match s with KeepLocal => bmap_get i (value_map id vl) | _ => bmap_get i (value_map id vr) end.
Proof.
  intros [Hg _] Hs Hn Hl Hr. rewrite Hg. unfold selection. rewrite Hs. unfold node_view.
  rewrite <- bset_mem_true in Hl. rewrite <- bset_mem_true in Hr.
  destruct s; [|  |done].
  - exact (local_result_value (bmap_get i (value_map id vb)) _ (bmap_get i (value_map id vr))
             (bset_mem (k, i) bt) _ (bset_mem (k, i) rt) Hl).
  - exact (remote_result_value (bmap_get i (value_map id vb)) (bmap_get i (value_map id vl)) _
             (bset_mem (k, i) bt) (bset_mem (k, i) lt) _ Hr).
Qed.

(** A decided object is the one of the side it was decided for. *)
Lemma decided_side base local remote cr dr now m sides n s :
  merged_from base local remote cr dr now m sides → bmap_get n sides = Some s → s ≠ Newest →
  object_at m n = object_at (match s with KeepLocal => local | _ => remote end) n.
Proof.
  intros [Wb Wl Wr Hs Hp _ _ _] Hn Hne.
  pose proof (deleted_absent local n Wl) as Dl. pose proof (deleted_absent remote n Wr) as Dr.
  apply merge_all_spec in Hp; [|apply tombstone_set_sorted].
  destruct Hp as (K1 & K2 & K3 & K4 & K5 & K6 & K7 & K8 & K9 & K10 & K11 & _).
  destruct n as [k i]. unfold object_at, deleted_at in *. simpl in *.
  destruct k; rewrite !fmap_None in *;
    match goal with K : kind_merged _ ?k _ _ _ _ _ _ _ _ _, H : bmap_get (?k, _) _ = _ |- _ =>
      rewrite (kind_decided _ _ _ _ _ _ _ _ _ _ _ _ _ K H Hne Dl Dr) end; by destruct s.
Qed.

(** ** Update times *)

(** A node has the same value and the same tombstone in two bundles. *)
Definition same_state b m (n : ObjectNode) : Prop :=
  object_at b n = object_at m n ∧ (deleted_at b n ↔ deleted_at m n).

(** One node whose time is collected, and the bundles that carry it. *)
Abbreviation job := (ObjectNode * (bundle → bool))%type.

Definition value_jobs {T} `{EqDecision T} (k : PortableObjectKind) (id : T → Z)
    (field : bundle → list T) (vs : list T) : list job :=
  map (λ v, ((k, id v), λ b, existsb (λ c, bool_decide (c = v)) (field b))) vs.

Definition all_jobs (o : PortableObjects) (ss : list PortableSecret) (tombs : list PortableTombstone) :
    list job :=
  value_jobs Host host_id (λ b, hosts (objects b)) (hosts o)
  ++ value_jobs DesktopProfile desktop_id (λ b, desktop_profiles (objects b)) (desktop_profiles o)
  ++ value_jobs Identity identity_id (λ b, identities (objects b)) (identities o)
  ++ value_jobs Credential credential_id (λ b, credentials (objects b)) (credentials o)
  ++ value_jobs Route proute_id (λ b, routes (objects b)) (routes o)
  ++ value_jobs AuthenticationPlan plan_id (λ b, authentication_plans (objects b)) (authentication_plans o)
  ++ value_jobs AlgorithmPolicy algorithm_id (λ b, algorithm_policies (objects b)) (algorithm_policies o)
  ++ value_jobs HeartbeatPolicy heartbeat_id (λ b, heartbeat_policies (objects b)) (heartbeat_policies o)
  ++ value_jobs MonitoringPolicy monitoring_id (λ b, monitoring_policies (objects b)) (monitoring_policies o)
  ++ value_jobs LoginAutomation automation_id (λ b, login_automations (objects b)) (login_automations o)
  ++ value_jobs Secret secret_id secrets ss
  ++ map (λ t, ((tomb_kind t, tomb_id t), λ b, bool_decide (t ∈ tombstones b))) tombs.

Definition run_jobs (bs : list bundle) (ts : list (ObjectNode * Z)) (js : list job) :
    list (ObjectNode * Z) :=
  fold_left (λ ts j, record_times j.2 j.1 bs ts) js ts.

Lemma fold_left_over_map {A B C} (f : C → B → C) (g : A → B) l acc :
  fold_left f (map g l) acc = fold_left (λ a x, f a (g x)) l acc.
Proof. revert acc. induction l as [|x l IH]; intros acc; simpl; auto. Qed.

Lemma merge_update_times_jobs o ss tombs base local remote :
  merge_update_times o ss tombs base local remote =
  map (λ nt, mkTime nt.1.1 nt.1.2 nt.2) (run_jobs [base; local; remote] [] (all_jobs o ss tombs)).
Proof.
  unfold run_jobs, all_jobs, value_jobs. rewrite !fold_left_app, !fold_left_over_map. done.
Qed.

Lemma record_times_spec carries n bs ts :
  bmap_sorted ts →
  bmap_sorted (record_times carries n bs ts) ∧
  (∀ x t, bmap_get x (record_times carries n bs ts) = Some t →
     bmap_get x ts = Some t ∨ (x = n ∧ ∃ b, b ∈ bs ∧ carries b = true ∧ item_time b n = Some t)) ∧
  (∀ x t, bmap_get x ts = Some t → ∃ t', bmap_get x (record_times carries n bs ts) = Some t' ∧ t ≤ t') ∧
  (∀ b t, b ∈ bs → carries b = true → item_time b n = Some t →
     ∃ t', bmap_get n (record_times carries n bs ts) = Some t' ∧ t ≤ t').
Proof.
  revert ts. unfold record_times. induction bs as [|b bs IH]; intros ts Hs; simpl.
  { split_and!; [done|auto|intros; eexists; split; [done|lia]|set_solver]. }
  destruct (carries b) eqn:Ec; [destruct (item_time b n) as [t0|] eqn:Et|].
  - assert (∃ t1, record_time ts n t0 = bmap_insert n t1 ts ∧ t0 ≤ t1 ∧
      (t1 = t0 ∨ bmap_get n ts = Some t1) ∧ (∀ t, bmap_get n ts = Some t → t ≤ t1)) as (t1 & -> & H1 & H2 & H3).
    { unfold record_time. destruct (bmap_get n ts) as [old|].
      - exists (Z.max old t0). split; [done|]. split; [lia|]. split; [|intros; simplify_eq; lia].
        destruct (Z.max_spec old t0) as [[? ->]|[? ->]]; auto.
      - exists t0. split; [done|]. split; [lia|]. split; [by left|done]. }
    destruct (IH (bmap_insert n t1 ts)) as (I1 & I2 & I3 & I4); [by apply bmap_insert_sorted|].
    setoid_rewrite bmap_get_insert in I2. setoid_rewrite bmap_get_insert in I3.
    assert (keqb n n = true) as Hn by (by destruct (keqb_spec n n)).
    split_and!; [done|..].
    + intros x t [Hx|(-> & b' & ? & ?)]%I2; [|right; split; [done|]; exists b'; set_solver].
      destruct (keqb_spec x n) as [->|]; [|auto]. simplify_eq. destruct H2 as [->|]; [|auto].
      right. split; [done|]. exists b. set_solver.
    + intros x t Hx. destruct (keqb_spec x n) as [->|Hne].
      * destruct (I3 n t1) as (t' & ? & ?); [by rewrite Hn|]. exists t'. specialize (H3 t Hx). split; [done|lia].
      * apply I3. by destruct (keqb_spec x n).
    + intros b' t [->|Hb]%elem_of_cons Hc Hi; [|by eapply I4]. simplify_eq.
      destruct (I3 n t1) as (t' & ? & ?); [by rewrite Hn|]. exists t'. split; [done|lia].
  - destruct (IH ts Hs) as (I1 & I2 & I3 & I4). split_and!; [done| |done|].
    + intros x t [?|(? & b' & ? & ?)]%I2; [auto|]. right. split; [done|]. exists b'. set_solver.
    + intros b' t [->|Hb]%elem_of_cons Hc Hi; [congruence|by eapply I4].
  - destruct (IH ts Hs) as (I1 & I2 & I3 & I4). split_and!; [done| |done|].
    + intros x t [?|(? & b' & ? & ?)]%I2; [auto|]. right. split; [done|]. exists b'. set_solver.
    + intros b' t [->|Hb]%elem_of_cons Hc Hi; [congruence|by eapply I4].
Qed.

Lemma run_jobs_spec js bs ts :
  bmap_sorted ts →
  bmap_sorted (run_jobs bs ts js) ∧
  (∀ x t, bmap_get x (run_jobs bs ts js) = Some t →
     bmap_get x ts = Some t ∨
     ∃ j b, j ∈ js ∧ j.1 = x ∧ b ∈ bs ∧ j.2 b = true ∧ item_time b x = Some t) ∧
  (∀ x t, bmap_get x ts = Some t → ∃ t', bmap_get x (run_jobs bs ts js) = Some t' ∧ t ≤ t') ∧
  (∀ j b t, j ∈ js → b ∈ bs → j.2 b = true → item_time b j.1 = Some t →
     ∃ t', bmap_get j.1 (run_jobs bs ts js) = Some t' ∧ t ≤ t').
Proof.
  revert ts. unfold run_jobs. induction js as [|j js IH]; intros ts Hs; simpl.
  { split_and!; [done|auto|intros; eexists; split; [done|lia]|set_solver]. }
  destruct (record_times_spec j.2 j.1 bs ts Hs) as (R1 & R2 & R3 & R4).
  destruct (IH _ R1) as (I1 & I2 & I3 & I4). split_and!; [done|..].
  - intros x t [[?|(-> & b & ? & ? & ?)]%R2|(j' & b & ? & ?)]%I2; [auto|right..].
    + exists j, b. set_solver.
    + exists j', b. set_solver.
  - intros x t (t1 & H1 & ?)%R3. apply I3 in H1 as (t2 & ? & ?). exists t2. split; [done|lia].
  - intros j' b t [->|Hj]%elem_of_cons Hb Hc Hi; [|by eapply I4].
    destruct (R4 b t Hb Hc Hi) as (t1 & H1 & ?). apply I3 in H1 as (t2 & ? & ?). exists t2. split; [done|lia].
Qed.

(** The bundles a job collects from are those with the same state. *)
Lemma value_job {T} `{EqDecision T} k (id : T → Z) (field : bundle → list T) (c : T → PortableObject) b m v :
  Inj (=) (=) c → (∀ b i, object_at b (k, i) = c <$> bmap_get i (value_map id (field b))) →
  (∀ b, bundle_wf b → NoDup (map id (field b))) → bundle_wf b → bundle_wf m → v ∈ field m →
  existsb (λ x, bool_decide (x = v)) (field b) = true ↔ same_state b m (k, id v).
Proof.
  intros Hc Hat Hnd Wb Wm Hv. unfold same_state.
  pose proof (deleted_absent b (k, id v) Wb) as Db. pose proof (deleted_absent m (k, id v) Wm) as Dm.
  rewrite !Hat in *. rewrite (value_map_distinct id (field m) v) in * by auto.
  rewrite existsb_exists. setoid_rewrite <- list_elem_of_In. split.
  - intros (x & Hx & ->%bool_decide_eq_true). rewrite (value_map_distinct id (field b) v) in * by auto.
    split; [done|]. simpl in *. naive_solver.
  - intros [E _]. destruct (bmap_get (id v) _) as [w|] eqn:Ew; [|done]. simplify_eq/=.
    apply value_map_get in Ew as [_ Hw]. eexists. split; [exact Hw|]. by apply bool_decide_eq_true_2.
Qed.

Lemma elem_of_tombstone_set b t : (tomb_kind t, tomb_id t) ∈ tombstone_set b ↔ t ∈ tombstones b.
Proof.
  unfold tombstone_set. rewrite elem_of_bset_of, list_elem_of_fmap. destruct t as [k i]. split.
  - intros ([k' i'] & [= -> ->] & ?). done.
  - intros. by exists (mkTombstone k i).
Qed.

Lemma job_state b m j :
  bundle_wf b → bundle_wf m → j ∈ all_jobs (objects m) (secrets m) (tombstones m) →
  j.2 b = true ↔ same_state b m j.1.
Proof.
  intros Wb Wm. unfold all_jobs, value_jobs. rewrite !elem_of_app, !list_elem_of_fmap.
  intros Hj. repeat destruct Hj as [Hj|Hj]; destruct Hj as (v & -> & Hv); cbn [fst snd];
    try (match goal with |- existsb _ ?l = _ ↔ same_state _ _ (_, ?id v) =>
      let f := eval pattern b in l in match f with ?field b => eapply (value_job _ id field) end end;
      [|by intros|intros x Wx; by destruct (ids_distinct x Wx) as (?&?&?&?&?&?&?&?&?&?&?&?&?)|done..];
      by intros ?? [=]).
  rewrite bool_decide_eq_true, <- elem_of_tombstone_set. unfold same_state.
  apply elem_of_tombstone_set in Hv. fold (deleted_at m (tomb_kind v, tomb_id v)) in Hv.
  fold (deleted_at b (tomb_kind v, tomb_id v)). rewrite (deleted_absent m) by done.
  split; [|naive_solver]. intros Hb. by rewrite deleted_absent.
Qed.

(** ** Reachability of the parts *)

(** Every dependent object of a bundle has an owner in it. *)
Record no_orphans b : Prop := {
  no_routes : ∀ r, r ∈ routes (objects b) → ∃ h, h ∈ hosts (objects b) ∧ route_id h = proute_id r;
  no_plans : ∀ p, p ∈ authentication_plans (objects b) →
    ∃ h, h ∈ hosts (objects b) ∧ authentication_plan_id h = plan_id p;
  no_algorithms : ∀ p, p ∈ algorithm_policies (objects b) →
    ∃ h, h ∈ hosts (objects b) ∧ algorithm_policy_id h = algorithm_id p;
  no_heartbeats : ∀ p, p ∈ heartbeat_policies (objects b) →
    ∃ h, h ∈ hosts (objects b) ∧ heartbeat_policy_id h = heartbeat_id p;
  no_monitorings : ∀ p, p ∈ monitoring_policies (objects b) →
    ∃ h, h ∈ hosts (objects b) ∧ monitoring_policy_id h = monitoring_id p;
  no_automations : ∀ a, a ∈ login_automations (objects b) →
    ∃ h, h ∈ hosts (objects b) ∧ login_automation_id h = Some (automation_id a);
  no_credentials : ∀ c, c ∈ credentials (objects b) →
    (∃ i, i ∈ identities (objects b) ∧ credential_id c ∈ identity_credential_ids i) ∨
    (∃ p, p ∈ authentication_plans (objects b) ∧ credential_id c ∈ plan_credential_ids p) ∨
    (∃ r, r ∈ routes (objects b) ∧ ingress_credential (ingress r) = Some (credential_id c)) ∨
    (∃ d, d ∈ desktop_profiles (objects b) ∧ desktop_credential_id d = Some (credential_id c));
  no_secrets : ∀ s, s ∈ secrets b →
    (∃ c, c ∈ credentials (objects b) ∧ secret_id s ∈ material_secrets (material c)) ∨
    (∃ a l e t, a ∈ login_automations (objects b) ∧ SendSecret (secret_id s) l e t ∈ steps a);
}.

Lemma elem_of_concat_map {A B} (f : A → list B) (l : list A) x :
  x ∈ concat (map f l) ↔ ∃ y, y ∈ l ∧ x ∈ f y.
Proof.
  rewrite list_elem_of_In, in_concat. setoid_rewrite in_map_iff. setoid_rewrite list_elem_of_In. naive_solver.
Qed.

Lemma reachability_spec b u : validate_reverse_reachability b = Ok u → no_orphans b.
Proof.
  unfold validate_reverse_reachability. intros H. rinv H.
  match goal with H : rforall _ _ = Ok _ |- _ => apply rforall_Ok in H end.
  repeat match goal with H : Forall _ (_ :: _) |- _ => apply Forall_cons in H as [? ?] end.
  repeat match goal with H : check _ = Ok _ |- _ =>
    apply check_Ok in H; rewrite forallb_true_Forall, Forall_forall in H end.
  cbn [fst snd] in *.
  repeat match goal with
  | H : ∀ x, x ∈ map ?f ?l → bset_mem _ _ = true |- _ =>
      assert (∀ y, y ∈ l → (_, f y) ∈ _)
        by (intros y Hy; apply bset_mem_true, H; apply list_elem_of_fmap; by exists y); clear H
  end.
  repeat match goal with H : ∀ x, x ∈ _ → mem _ _ = true |- _ => setoid_rewrite mem_true in H end.
  repeat match goal with H : context [_ ∈ _ ++ _] |- _ => setoid_rewrite elem_of_app in H end.
  repeat match goal with H : context [_ ∈ concat _] |- _ => setoid_rewrite elem_of_concat_map in H end.
  assert (∀ (o : option Z) (i : Z), i ∈ match o with Some j => [j] | None => [] end → o = Some i) as Hopt.
  { intros [] i; set_solver. }
  split.
  1-6: intros y Hy; match goal with H : ∀ z, z ∈ _ → ∃ w, w ∈ hosts _ ∧ _ |- _ =>
         destruct (H y Hy) as (h & Hh & Hin) end; exists h; (split; [exact Hh|]);
       destruct (login_automation_id h); simpl in Hin; set_solver.
  - intros c Hc. destruct (E0 c Hc) as [?|[?|[(r & ? & ?)|(d & ? & ?)]]]; eauto 10.
  - intros s' Hs. destruct (H s' Hs) as [?|(a & Ha & [] & Hst & Hsid)]; [by left|set_solver..|].
    right. apply list_elem_of_singleton in Hsid as ->. eauto 8.
Qed.

(** ** Properties *)

(** C15. Three-way merge: when two bundles merge without a policy, every object
    of the result follows from its three versions alone. Where one side is
    unchanged from the base the result is the other side's version, deletions
    and additions included; where both sides changed, they changed alike. *)
Theorem merge_three_way base local remote rev now m n :
  merge_bundles_three_way base local remote rev now = Ok (Merged m) →
  three_way (object_at base n) (object_at local n) (object_at remote n) (object_at m n).
Proof. intros H%merge_outcome. by apply (node_rule _ _ _ _ _ n) in H as [? _]. Qed.

(** A merge never resurrects a deleted object: an object deleted on one
    side and unchanged on the other is absent from the result and stays
    recorded as deleted, and a deletion recorded in the base stays recorded
    unless a side created the object again. *)
Theorem merge_keeps_deletions base local remote rev now m n :
  merge_bundles_three_way base local remote rev now = Ok (Merged m) →
  (deleted_at remote n → object_at local n = object_at base n →
     object_at m n = None ∧ deleted_at m n) ∧
  (deleted_at local n → object_at remote n = object_at base n →
     object_at m n = None ∧ deleted_at m n) ∧
  (deleted_at base n → object_at local n = None → object_at remote n = None →
     object_at m n = None ∧ deleted_at m n).
Proof.
  intros H%merge_outcome. pose proof H as [sides [Wb Wl Wr _ _ _ _ _]].
  apply (node_rule _ _ _ _ _ n) in H as ([T1 T2 _] & D1 & D2 & D3).
  pose proof (deleted_absent base n Wb). pose proof (deleted_absent local n Wl).
  pose proof (deleted_absent remote n Wr). split_and!.
  - intros Hd E. rewrite T1 by done. auto.
  - intros Hd E. rewrite T2 by done. auto.
  - intros Hd E1 E2. assert (object_at m n = None) by (rewrite T1, E2; [done|]; by rewrite E1, H).
    auto.
Qed.

(** C28. Conflict detection is exact: for valid bundles, an object is reported
    as conflicting exactly when both sides edited it and left it in different
    states. *)
Theorem conflicts_exact base local remote n :
  validate base = Ok tt → validate local = Ok tt → validate remote = Ok tt →
  n ∈ collect_conflict_nodes base local remote (tombstone_set base) (tombstone_set local)
        (tombstone_set remote) ↔
  edits base local n ∧ edits base remote n ∧ ¬ same_state local remote n.
Proof.
  intros Wb%validate_wf Wl%validate_wf Wr%validate_wf.
  fold (conflicts_of base local remote). rewrite conflicts_of_elem, node_conflict_spec by done.
  unfold same_state. do 2 f_equiv. split; [tauto|]. intros H.
  destruct (decide (object_at local n = object_at remote n)); [right|by left]. tauto.
Qed.


(** Conflicts that depend on one another are settled from one side: in a
    merged bundle two linked conflicting objects are both the local versions
    or both the remote ones. *)
Theorem merge_settles_together base local remote rev cr dr now m n1 n2 :
  merge_bundles_three_way_with_policies base local remote rev cr dr now = Ok (Merged m) →
  n1 ∈ collect_conflict_nodes base local remote (tombstone_set base) (tombstone_set local)
         (tombstone_set remote) →
  n2 ∈ collect_conflict_nodes base local remote (tombstone_set base) (tombstone_set local)
         (tombstone_set remote) →
  rtc (linked [base; local; remote]) n1 n2 →
  ∃ side, side ∈ [local; remote] ∧ object_at m n1 = object_at side n1 ∧ object_at m n2 = object_at side n2.
Proof.
  fold (conflicts_of base local remote). intros [sides H]%merge_outcome H1 H2 Hr.
  pose proof (resolve_nonneg _ _ _ _ _ _ _ _ (mf_sides _ _ _ _ _ _ _ _ H)) as [Re Rc Rt _].
  destruct (Rc eq_refl n1 H1) as [s E1]. assert (bmap_get n2 sides = Some s) as E2.
  { by rewrite <- (Rt n1 n2). }
  exists (match s with KeepLocal => local | _ => remote end). split; [destruct s; set_solver|].
  split; eapply decided_side; eauto.
Qed.

(** A merged bundle is well formed, and every route, plan, policy,
    automation, credential and secret in it is used by an object of it. *)
Theorem merged_well_formed base local remote rev cr dr now m :
  merge_bundles_three_way_with_policies base local remote rev cr dr now = Ok (Merged m) →
  bundle_wf m ∧ no_orphans m.
Proof.
  intros [sides H]%merge_outcome. split; [eapply validate_wf|eapply reachability_spec]; apply H.
Qed.

(** The update time of an object or deletion in a merged bundle is the
    latest time recorded for it by an input bundle that has it in the same
    state; a time recorded for another version is never carried over. *)
Theorem merged_times_sound base local remote rev cr dr now m t :
  merge_bundles_three_way_with_policies base local remote rev cr dr now = Ok (Merged m) →
  t ∈ update_times m →
  let n := (ut_kind t, ut_id t) in
  (∃ b, b ∈ [base; local; remote] ∧ same_state b m n ∧ item_time b n = Some (update_time_unix_ms t)) ∧
  (∀ b t', b ∈ [base; local; remote] → same_state b m n → item_time b n = Some t' →
     t' ≤ update_time_unix_ms t).
Proof.
  intros [sides H]%merge_outcome Ht. pose proof (validate_wf _ _ (mf_valid _ _ _ _ _ _ _ _ H)) as Wm.
  rewrite (mf_times _ _ _ _ _ _ _ _ H), merge_update_times_jobs in Ht.
  apply list_elem_of_fmap in Ht as ([[k i] v] & -> & Hin). cbn [ut_kind ut_id update_time_unix_ms fst snd].
  assert (∀ b, b ∈ [base; local; remote] → bundle_wf b) as Wf.
  { intros b [->|[->|[->|[]%elem_of_nil]%elem_of_cons]%elem_of_cons]%elem_of_cons; apply H. }
  destruct (run_jobs_spec (all_jobs (objects m) (secrets m) (tombstones m)) [base; local; remote] [])
    as (Js & J1 & _ & J2); [constructor|].
  apply bmap_elem_get in Hin; [|done]. pose proof Hin as Hv.
  apply J1 in Hin as [?|(j & b & Hj & Hn & Hb & Hc & Hi)]; [done|].
  apply (job_state b m j) in Hc; [|by auto..]. rewrite Hn in Hc. split; [eauto|]. intros b' t' Hb' Hs Hi'.
  destruct (J2 j b' t') as (t2 & Hg & ?); [done|done|apply (job_state b' m j); [by auto|done|done|by rewrite Hn]|by rewrite Hn|].
  rewrite Hn in Hg. by simplify_eq.
Qed.

End Bundles.

(** ** Witnesses *)

Definition hosts_at (rev : Z) (label1 label2 : string) (t1 t2 : Z) : PortableBundleV1 unit :=
  sample_bundle rev [sample_host label1 10; sample_host label2 11]
    [mkTime Host 10 t1; mkTime Host 11 t2].

Definition with_tombstones (b : PortableBundleV1 unit) (ts : list PortableTombstone) :
    PortableBundleV1 unit :=
  mkBundle (schema b) (selected_categories b) (revision b) (objects b) (preferences b) (secrets b)
    (skipped_machine_bound b) ts (update_times b) (preference_update_times b).

Definition merged_of (r : result (BundleMergeOutcome unit)) : PortableBundleV1 unit :=
  match r with Ok (Merged m) => m | _ => hosts_at 1 "" "" 0 0 end.

Abbreviation web := (hosts_at 1 "web" "db" 3 3).
Abbreviation web_local := (hosts_at 2 "web-local" "db-local" 7 7).
Abbreviation web_remote := (hosts_at 3 "web-remote" "db-remote" 9 9).
Abbreviation without_db :=
  (with_tombstones (sample_bundle 2 [sample_host "web" 10] []) [mkTombstone Host 11]).

Lemma merge_three_way_witness :
  let m := merged_of (merge_bundles_three_way web web web_remote 4 10) in
  three_way (object_at web (Host, 10)) (object_at web (Host, 10)) (object_at web_remote (Host, 10))
    (object_at m (Host, 10)).
Proof. apply (merge_three_way web web web_remote 4 10). vm_compute. reflexivity. Defined.

Lemma merge_keeps_deletions_witness :
  let m := merged_of (merge_bundles_three_way web web without_db 4 10) in
  object_at m (Host, 11) = None ∧ deleted_at m (Host, 11).
Proof.
  set (m := merged_of _).
  destruct (merge_keeps_deletions web web without_db 4 10 m (Host, 11)) as [H _]; [|apply H].
  - vm_compute. reflexivity.
  - apply bset_mem_true. vm_compute. reflexivity.
  - vm_compute. reflexivity.
Defined.

Lemma conflicts_exact_witness :
  edits web web_local (Host, 10) ∧ edits web web_remote (Host, 10) ∧
  ¬ same_state web_local web_remote (Host, 10).
Proof.
  apply (conflicts_exact web web_local web_remote (Host, 10)).
  - vm_compute. reflexivity.
  - vm_compute. reflexivity.
  - vm_compute. reflexivity.
  - apply bset_mem_true. vm_compute. reflexivity.
Defined.


Lemma merge_settles_together_witness :
  let m := merged_of (merge_bundles_three_way_with_policies web web_local web_remote 4
                        (Some Newest) (Some Newest) 10) in
  ∃ side, side ∈ [web_local; web_remote] ∧ object_at m (Host, 10) = object_at side (Host, 10) ∧
    object_at m (Host, 11) = object_at side (Host, 11).
Proof.
  apply (merge_settles_together web web_local web_remote 4 (Some Newest) (Some Newest) 10).
  - vm_compute. reflexivity.
  - apply bset_mem_true. vm_compute. reflexivity.
  - apply bset_mem_true. vm_compute. reflexivity.
  - apply (rtc_l _ _ (Route, 40)); [|apply rtc_once].
    + exists web, ((Host, 10), (Route, 40)). split; [left|]. split; [|by left].
      apply bset_mem_true. vm_compute. reflexivity.
    + exists web, ((Host, 11), (Route, 40)). split; [left|]. split; [|by right].
      apply bset_mem_true. vm_compute. reflexivity.
Defined.

Lemma merged_well_formed_witness :
  let m := merged_of (merge_bundles_three_way_with_policies web web_local web_remote 4
                        (Some UseRemote) (Some UseRemote) 10) in
  bundle_wf m ∧ no_orphans m.
Proof.
  apply (merged_well_formed web web_local web_remote 4 (Some UseRemote) (Some UseRemote) 10).
  vm_compute. reflexivity.
Defined.

Lemma merged_times_sound_witness :
  let m := merged_of (merge_bundles_three_way_with_policies web web_local web_remote 4
                        (Some Newest) (Some Newest) 10) in
  ∃ b, b ∈ [web; web_local; web_remote] ∧ same_state b m (Host, 10) ∧ item_time b (Host, 10) = Some 9.
Proof.
  apply (merged_times_sound web web_local web_remote 4 (Some Newest) (Some Newest) 10 _ (mkTime Host 10 9)).
  - vm_compute. reflexivity.
  - vm_compute. left.
Defined.

(** ** Two legacy bundles against a newer base *)

(** Values known only by the keys of their object. *)
#[local] Instance json_keys : JsonValue (list (list Z)) :=
  {| json_eq_dec := _; as_object_keys ks := Some ks; encoded_len _ _ _ := Some 0 |}.

Definition as_schema (s : BundleSchema) (p : option (PortablePreferencesV1 (list (list Z))))
    (b : PortableBundleV1 unit) : PortableBundleV1 (list (list Z)) :=
  mkBundle s (selected_categories b) (revision b) (objects b) p (secrets b) (skipped_machine_bound b)
    (tombstones b) (update_times b) [].

Definition known_preferences : PortablePreferencesV1 (list (list Z)) :=
  mkPreferences (lit "NoriShell") 1 (bmap_of GROUPS).

(** When neither side has preferences, those of the base are dropped. *)
Example legacy_pair_drops_preferences :
  let base := as_schema SV5 (Some known_preferences) (sample_bundle 1 [sample_host "web" 10] []) in
  let old := as_schema SV3 None (sample_bundle 2 [sample_host "web" 10] []) in
  ∃ m, merge_bundles_three_way base old old 3 10 = Ok (Merged m) ∧ preferences m = None.
Proof. eexists. vm_compute. split; reflexivity. Qed.

(** When the base also has update times, the merge is refused: the result is
    given schema v3 together with the base's times. *)
Example legacy_pair_refused :
  let base := as_schema SV5 (Some known_preferences)
                (sample_bundle 1 [sample_host "web" 10] [mkTime Host 10 5]) in
  let old := as_schema SV3 None (sample_bundle 2 [sample_host "web" 10] []) in
  merge_bundles_three_way base old old 3 10 = Err (InvalidBundle "update times require bundle v5").
Proof. vm_compute. reflexivity. Qed.

End Guarantees.
