(* ===== verification/DesktopProtocol.v ===== *)
(** * Desktop frames, dirty regions and input

    crates/desktop-protocol/src/lib.rs: the rectangles and dirty regions shared
    by the RDP and VNC engines, the RGBA frame with its patches, the cursor
    bitmap, and the checks on input commands. Pixel data is the vector of
    bytes the code keeps; a pixel's bytes are at
    [(y * width + x) * 4 .. + 4]. The two loops of [DirtyRegion::add] that are
    not over a collection carry fuel, and the recursion too; that the fuel is
    enough is part of the theorems. *)

From S2P Require Import Prelude RustStr RustVec.

Module Desktop.

Definition MAX_PIXELS : Z := 16777216.
Definition MAX_DIMENSION : Z := 8192.
Definition MAX_TEXT_BYTES : Z := 65536.
Definition MAX_CURSOR_DIMENSION : Z := 384.
Definition MAX_DIRTY_RECTS : Z := 16.

Inductive EngineError : Type :=
| InvalidConfiguration | AuthenticationRejected | CertificateRejected
| UnsupportedAuthentication | UnsupportedOperation | Protocol | RdpUdpUnavailable
| RdpGraphicsUnavailable | RdpResolutionUnavailable | RdpResolutionModeDisabled
| RdpResolutionNotApplied | VncResolutionUnavailable | VncResolutionRejected
| VncResolutionNotApplied | VncResolutionModeDisabled | ResourceLimit
| ConnectionLost | Timeout | Cancelled | StaleInput.

#[global] Instance EngineError_eq_dec : EqDecision EngineError.
Proof. solve_decision. Defined.

(** ** Rectangles *)

Record DesktopRect := mkRect { r_x : Z; r_y : Z; r_width : Z; r_height : Z }.

#[global] Instance DesktopRect_eq_dec : EqDecision DesktopRect.
Proof. solve_decision. Defined.

Definition rect_fits (r : DesktopRect) (width height : Z) : bool :=
  negb (r_width r =? 0) && negb (r_height r =? 0) &&
  (r_x r + r_width r <=? width) && (r_y r + r_height r <=? height).

(** The casts back to [u16] drop the high bits. *)
Definition union (a b : DesktopRect) : DesktopRect :=
  let x := Z.min (r_x a) (r_x b) in
  let y := Z.min (r_y a) (r_y b) in
  let right := Z.max (r_x a + r_width a) (r_x b + r_width b) in
  let bottom := Z.max (r_y a + r_height a) (r_y b + r_height b) in
  mkRect x y ((right - x) mod 65536) ((bottom - y) mod 65536).

Definition area (r : DesktopRect) : Z := r_width r * r_height r.

Definition contains (a b : DesktopRect) : bool :=
  (r_x a <=? r_x b) && (r_y a <=? r_y b) &&
  (r_x b + r_width b <=? r_x a + r_width a) &&
  (r_y b + r_height b <=? r_y a + r_height a).

Definition touches (a b : DesktopRect) : bool :=
  (r_x a <=? r_x b + r_width b) && (r_x b <=? r_x a + r_width a) &&
  (r_y a <=? r_y b + r_height b) && (r_y b <=? r_y a + r_height a).

(** ** Dirty regions *)

Inductive Diverged : Type := OutOfFuel.

(** The state of a [DirtyRegion] is its vector of rectangles. *)
Record DirtyRegion := mkRegion { rects : list DesktopRect }.

Definition region_default : DirtyRegion := mkRegion [].

(** The [loop] of [add]: [None] when an existing rectangle already contains
    the pending one, and the pending rectangle otherwise. *)
Fixpoint merge_touching (fuel : nat) (rs : list DesktopRect) (next : DesktopRect)
  : rres Diverged (list DesktopRect * option DesktopRect) :=
  match fuel with
  | O => Err OutOfFuel
  | S fuel =>
      if existsb (λ existing, contains existing next) rs then Ok (rs, None)
      else match position (λ existing, touches existing next) rs with
           | Some i =>
               let? (removed, rs') := swap_remove rs i in
               merge_touching fuel rs' (union next removed)
           | None => Ok (rs, Some next)
           end
  end.

Definition growth (a b : DesktopRect) : Z :=
  Z.max 0 (area (union a b) - (area a + area b)).

(** The nested search for the pair whose union adds the least area. *)
Definition best_pair (rs : list DesktopRect) : rres Diverged (nat * nat * Z) :=
  let n := length rs in
  rfold (λ best i,
    rfold (λ best j,
      let? a := index rs i in
      let? b := index rs j in
      Ok (if growth a b <? best.2 then (i, j, growth a b) else best))
      best (seq (i + 1) (n - (i + 1))))
    (0%nat, 1%nat, u64_max) (seq 0 n).

(** The [while] loop of [add], over the recursive call. *)
Fixpoint shrink (add : list DesktopRect → DesktopRect → rres Diverged (list DesktopRect))
    (fuel : nat) (rs : list DesktopRect) : rres Diverged (list DesktopRect) :=
  match fuel with
  | O => Err OutOfFuel
  | S fuel =>
      if MAX_DIRTY_RECTS <? zlen rs then
        let? best := best_pair rs in
        let? (second, rs1) := swap_remove rs best.1.2 in
        let? (first, rs2) := swap_remove rs1 best.1.1 in
        let? rs3 := add rs2 (union first second) in
        shrink add fuel rs3
      else Ok rs
  end.

Fixpoint add_fuel (fuel : nat) (rs : list DesktopRect) (rect : DesktopRect)
  : rres Diverged (list DesktopRect) :=
  match fuel with
  | O => Err OutOfFuel
  | S fuel =>
      if (r_width rect =? 0) || (r_height rect =? 0) then Ok rs
      else
        let? (rs', next) := merge_touching (S (length rs)) rs rect in
        match next with
        | None => Ok rs'
        | Some next => shrink (add_fuel fuel) (S (S (length rs'))) (rs' ++ [next])
        end
  end.

Definition add (d : DirtyRegion) (rect : DesktopRect) : rres Diverged DirtyRegion :=
  rok_map mkRegion (add_fuel (S (length (rects d))) (rects d) rect).

Definition extend (d other : DirtyRegion) : rres Diverged DirtyRegion :=
  rfold add d (rects other).

Definition region_area (d : DirtyRegion) : Z := foldr (λ r n, area r + n) 0 (rects d).

Definition region_is_empty (d : DirtyRegion) : bool :=
  match rects d with [] => true | _ => false end.

Definition region_fits (d : DirtyRegion) (width height : Z) : bool :=
  forallb (λ r, rect_fits r width height) (rects d).

(** ** Frames *)

Definition frame_len (width height : Z) : rres EngineError Z :=
  let pixels := width * height in
  if (width =? 0) || (height =? 0) || (MAX_DIMENSION <? width) ||
     (MAX_DIMENSION <? height) || (MAX_PIXELS <? pixels)
  then Err ResourceLimit else Ok (pixels * 4).

Record DesktopFrame := mkFrame { f_width : Z; f_height : Z; rgba : list Z }.

Record FramePatch := mkPatch {
  p_width : Z;
  p_height : Z;
  p_rects : list (DesktopRect * list Z) }.

Definition frame_new (width height : Z) : rres EngineError DesktopFrame :=
  let? len := frame_len width height in
  Ok (mkFrame width height (replicate (Z.to_nat len) 0)).

Definition check_rect (f : DesktopFrame) (x y width height : Z) : rres EngineError unit :=
  if (width =? 0) || (height =? 0) || (f_width f <? x + width) || (f_height f <? y + height)
  then Err Protocol
  else
    let? len := frame_len (f_width f) (f_height f) in
    if negb (zlen (rgba f) =? len) then Err Protocol else Ok tt.

(** The offset of a row of a rectangle in a buffer [stride] pixels wide. *)
Definition row_start (stride x y row : Z) : Z := ((y + row) * stride + x) * 4.

Definition read_rect (buf : list Z) (stride_width : Z) (r : DesktopRect) : rres EngineError (list Z) :=
  let row_bytes := r_width r * 4 in
  rfold (λ out row,
    let start := row_start stride_width (r_x r) (r_y r) row in
    let? bytes := slice buf start (start + row_bytes) in
    Ok (out ++ bytes)) [] (seqZ 0 (r_height r)).

Definition extract_patch (f : DesktopFrame) (region : DirtyRegion) : rres EngineError FramePatch :=
  let? rs := rmap (λ r,
    let? _ := check_rect f (r_x r) (r_y r) (r_width r) (r_height r) in
    let? bytes := read_rect (rgba f) (f_width f) r in
    Ok (r, bytes)) (rects region) in
  Ok (mkPatch (f_width f) (f_height f) rs).

Definition write_rect (f : DesktopFrame) (x y width height : Z) (bytes : list Z)
  : rres EngineError DesktopFrame :=
  let? _ := check_rect f x y width height in
  let row_bytes := width * 4 in
  if negb (zlen bytes =? row_bytes * height) then Err Protocol
  else
    let? buf := rfold (λ buf row,
      let target := row_start (f_width f) x y row in
      let? src := slice bytes (row * row_bytes) ((row + 1) * row_bytes) in
      copy_from_slice buf target (target + row_bytes) src)
      (rgba f) (seqZ 0 height) in
    Ok (mkFrame (f_width f) (f_height f) buf).

(** The frame is updated rectangle by rectangle; the caller drops it when a
    rectangle is refused. *)
Definition apply_patch (f : DesktopFrame) (patch : FramePatch) : rres EngineError DesktopFrame :=
  if negb (p_width patch =? f_width f) || negb (p_height patch =? f_height f) then Err Protocol
  else
    rfold (λ f '(r, bytes), write_rect f (r_x r) (r_y r) (r_width r) (r_height r) bytes)
      f (p_rects patch).

Definition copy_rect (f : DesktopFrame) (source_x source_y x y width height : Z)
  : rres EngineError DesktopFrame :=
  let? _ := check_rect f source_x source_y width height in
  let? _ := check_rect f x y width height in
  let rows := if source_y <? y then reverse (seqZ 0 height) else seqZ 0 height in
  let? buf := rfold (λ buf row,
    let source := row_start (f_width f) source_x source_y row in
    let target := row_start (f_width f) x y row in
    copy_within buf source (source + width * 4) target) (rgba f) rows in
  Ok (mkFrame (f_width f) (f_height f) buf).

(** ** Cursors *)

Record CursorBitmap := mkBitmap {
  c_width : Z; c_height : Z; hotspot_x : Z; hotspot_y : Z; c_rgba : list Z }.

Inductive DesktopCursor : Type :=
| CursorDefault
| CursorHidden
| Bitmap (b : CursorBitmap).

Definition cursor_bitmap_new (width height hx hy : Z) (bytes : list Z) : rres EngineError CursorBitmap :=
  if (width =? 0) || (height =? 0) || (MAX_CURSOR_DIMENSION <? width) ||
     (MAX_CURSOR_DIMENSION <? height) || negb (zlen bytes =? width * height * 4)
  then Err Protocol
  else Ok (mkBitmap width height (Z.min hx (width - 1)) (Z.min hy (height - 1)) bytes).

(** ** Input *)

Inductive DesktopInput : Type :=
| Key (scan_code keysym : Z) (down : bool)
| Pointer (x y buttons : Z)
| Wheel (x y delta_x delta_y : Z)
| Text (text : str)
| Clipboard (text : str)
| Resize (width height scale_percent : Z)
| ReleaseAll.

Definition input_validate (i : DesktopInput) : rres EngineError unit :=
  match i with
  | Text text | Clipboard text =>
      if (MAX_TEXT_BYTES <? str_len text) || contains_char text 0
      then Err ResourceLimit else Ok tt
  | Key scan_code keysym _ =>
      if (511 <? scan_code) || (keysym =? 0) then Err InvalidConfiguration else Ok tt
  | Pointer _ _ buttons => if 7 <? buttons then Err InvalidConfiguration else Ok tt
  | Resize width height scale_percent =>
      if negb ((100 <=? scale_percent) && (scale_percent <=? 500))
      then Err InvalidConfiguration
      else rok_map (λ _, tt) (frame_len width height)
  | _ => Ok tt
  end.

(** A command without the channel that carries its completion. *)
Record EngineCommand := mkCommand {
  input : DesktopInput;
  cmd_focus_epoch : option Z }.

(** The values the two watch channels hold. *)
Record EngineControl := mkControl { stop : bool; focus_epoch : Z }.

Definition accepts (c : EngineControl) (cmd : EngineCommand) : bool :=
  negb (stop c) &&
  match cmd_focus_epoch cmd with
  | Some epoch => epoch =? focus_epoch c
  | None => match input cmd with Resize _ _ _ => true | _ => false end
  end.

Inductive AudioPlaybackState : Type := AudioWaiting | AudioReady | AudioUnavailable | AudioUnsupported.
Inductive RdpTransportActual : Type := Tcp | Udp.
Inductive RdpGraphicsActual : Type := GfxBitmap | RemoteFx | RemoteFxProgressive | Avc420.

#[global] Instance RdpGraphicsActual_eq_dec : EqDecision RdpGraphicsActual.
Proof. solve_decision. Defined.

Inductive EngineEvent : Type :=
| Ready
| RdpTransport (actual : RdpTransportActual)
| RdpGraphics (actual : RdpGraphicsActual)
| Frame (f : DesktopFrame)
| FramePatchEvent (p : FramePatch)
| Cursor (c : DesktopCursor)
| ClipboardEvent (text : str)
| AudioState (s : AudioPlaybackState).

(** ** The pixels of a rectangle and of a region *)

Definition inside (r : DesktopRect) (px py : Z) : Prop :=
  r_x r ≤ px < r_x r + r_width r ∧ r_y r ≤ py < r_y r + r_height r.

#[global] Instance inside_dec r px py : Decision (inside r px py).
Proof. unfold inside. apply _. Defined.

Definition covers (rs : list DesktopRect) (px py : Z) : Prop :=
  ∃ r, r ∈ rs ∧ inside r px py.

(** A rectangle with a positive area inside a frame of [w] by [h]. *)
Definition rect_in (w h : Z) (r : DesktopRect) : Prop :=
  0 ≤ r_x r ∧ 0 < r_width r ∧ r_x r + r_width r ≤ w ∧
  0 ≤ r_y r ∧ 0 < r_height r ∧ r_y r + r_height r ≤ h.

(** No two rectangles overlap or are adjacent. *)
Fixpoint separate (rs : list DesktopRect) : Prop :=
  match rs with
  | [] => True
  | r :: rs => Forall (λ r', touches r r' = false) rs ∧ separate rs
  end.

(** The invariant of a dirty region of a frame of [w] by [h]. *)
Definition region_wf (w h : Z) (rs : list DesktopRect) : Prop :=
  Forall (rect_in w h) rs ∧ separate rs.

Ltac rect_unfold := unfold inside, rect_in, contains, touches, rect_fits, area, union in *;
  cbn [r_x r_y r_width r_height] in *.

Lemma touches_sym a b : touches a b = touches b a.
Proof.
  unfold touches. rewrite <- !andb_assoc. rewrite (andb_comm (r_x a <=? _)).
  by destruct (_ <=? _), (_ <=? _), (_ <=? _), (_ <=? _).
Qed.

#[global] Instance separate_proper : Proper ((≡ₚ) ==> iff) separate.
Proof.
  induction 1 as [|x l l' Hl IH|x y l|l1 l2 l3 _ IH1 _ IH2]; simpl; [done| | |by rewrite IH1].
  - by rewrite IH, Hl.
  - rewrite !Forall_cons, (touches_sym x y). tauto.
Qed.

#[global] Instance region_wf_proper w h : Proper ((≡ₚ) ==> iff) (region_wf w h).
Proof. intros l l' Hl. unfold region_wf. by rewrite Hl. Qed.

Lemma covers_perm rs rs' px py : rs ≡ₚ rs' → covers rs px py → covers rs' px py.
Proof. intros Hp (r & Hr & Hi). exists r. by rewrite <- Hp. Qed.

Lemma covers_cons r rs px py : covers (r :: rs) px py ↔ inside r px py ∨ covers rs px py.
Proof. unfold covers. set_solver. Qed.

Lemma covers_app rs1 rs2 px py :
  covers (rs1 ++ rs2) px py ↔ covers rs1 px py ∨ covers rs2 px py.
Proof. unfold covers. set_solver. Qed.

Lemma union_in w h a b :
  w ≤ u16_max → h ≤ u16_max → rect_in w h a → rect_in w h b → rect_in w h (union a b).
Proof. unfold u16_max. rect_unfold. intros. rewrite !Z.mod_small by lia. lia. Qed.

Lemma union_inside w h a b px py :
  w ≤ u16_max → h ≤ u16_max → rect_in w h a → rect_in w h b →
  inside a px py ∨ inside b px py → inside (union a b) px py.
Proof. unfold u16_max. rect_unfold. intros. rewrite !Z.mod_small by lia. lia. Qed.

Lemma contains_inside a b px py : contains a b = true → inside b px py → inside a px py.
Proof. rect_unfold. intros. bprop. lia. Qed.

Lemma rect_in_fits w h r : rect_in w h r → rect_fits r w h = true.
Proof.
  rect_unfold. intros. rewrite !andb_true_iff, !negb_true_iff, !Z.eqb_neq, !Z.leb_le. lia.
Qed.

Lemma rect_fits_in w h r :
  0 ≤ r_x r → 0 ≤ r_y r → 0 ≤ r_width r → 0 ≤ r_height r →
  rect_fits r w h = true ↔ rect_in w h r.
Proof.
  rect_unfold. intros. rewrite !andb_true_iff, !negb_true_iff, !Z.eqb_neq, !Z.leb_le. lia.
Qed.

(** ** Adding a rectangle *)

(** What a step of [add] guarantees when rectangles [old] become [new]. *)
Definition refines_region (w h : Z) (old new : list DesktopRect) : Prop :=
  region_wf w h new ∧ ∀ px py, covers old px py → covers new px py.

Lemma merge_touching_ok w h fuel rs next :
  w ≤ u16_max → h ≤ u16_max → (length rs < fuel)%nat →
  region_wf w h rs → rect_in w h next →
  ∃ rs' o, merge_touching fuel rs next = Ok (rs', o) ∧
    (length rs' ≤ length rs)%nat ∧
    refines_region w h (next :: rs) (rs' ++ option_list o).
Proof.
  intros Hw Hh. revert rs next. induction fuel as [|fuel IH]; intros rs next Hf Hwf Hn; [lia|].
  simpl. destruct (existsb _ rs) eqn:Hc.
  { exists rs, None. split; [done|]. split; [done|]. simpl. rewrite app_nil_r. split; [done|].
    intros px py [Hi|]%covers_cons; [|done].
    apply existsb_exists in Hc as (r & Hr%list_elem_of_In & Hc).
    exists r. split; [done|]. by eapply contains_inside. }
  destruct (position _ rs) as [i|] eqn:Hp.
  - apply position_Some in Hp as (r & Hr & Ht).
    destruct (swap_remove_Ok (E := Diverged) rs i) as (x & rs' & -> & Hx & Hperm);
      [by eapply lookup_lt_Some|]. simplify_eq. cbn [rbind].
    pose proof (Permutation_length Hperm) as Hlen. simpl in Hlen.
    rewrite Hperm in Hwf. destruct Hwf as [[Hrin Hin]%Forall_cons [_ Hsep]].
    destruct (IH rs' (union next r)) as (rs'' & o & -> & Hl & Hwf' & Hcov);
      [lia|done|by apply union_in|].
    exists rs'', o. split; [done|]. split; [lia|]. split; [done|].
    intros px py Hpx. apply Hcov. apply covers_cons. rewrite covers_cons in Hpx.
    destruct Hpx as [Hi|Hi]; [left; by eapply (union_inside w h); eauto|].
    apply (covers_perm _ _ _ _ Hperm), covers_cons in Hi as [Hi|]; [|by right].
    left. by eapply (union_inside w h); eauto.
  - apply position_None in Hp. exists rs, (Some next). split; [done|]. split; [done|].
    split; [|intros px py; simpl; rewrite covers_app, covers_cons; unfold covers; set_solver].
    rewrite (Permutation_app_comm rs). destruct Hwf as [Hin Hsep]. simpl.
    split; [by constructor|]. split; [|done].
    eapply Forall_impl; [exact Hp|]. intros r Hr. by rewrite touches_sym.
Qed.

(** The search stays inside the vector and returns an ordered pair. *)
Lemma best_pair_ok rs :
  (2 ≤ length rs)%nat →
  ∃ best, best_pair rs = Ok best ∧ (best.1.1 < best.1.2 < length rs)%nat.
Proof.
  intros Hn. unfold best_pair.
  set (P := λ b : nat * nat * Z, (b.1.1 < b.1.2 < length rs)%nat).
  assert (Hrow : ∀ i js best, (i < length rs)%nat → P best →
    (∀ j, j ∈ js → (i < j < length rs)%nat) →
    ∃ b, rfold (λ best j, let? a := index rs i in let? b := index rs j in
      Ok (if growth a b <? best.2 then (i, j, growth a b) else best)) best js
      = @Ok Diverged _ b ∧ P b).
  { intros i js. induction js as [|j js IH]; intros best Hi Hb Hjs; cbn [rfold]; [eauto|].
    destruct (lookup_lt_is_Some_2 rs i) as [a Ha]; [done|].
    pose proof (Hjs j ltac:(set_solver)) as Hj.
    destruct (lookup_lt_is_Some_2 rs j) as [b Hb']; [lia|].
    unfold index at 1 2. rewrite Ha, Hb'. cbn [rbind]. apply IH; [done| |set_solver].
    case_match; [|done]. unfold P. simpl. lia. }
  assert (Hout : ∀ is_ best, P best → (∀ i, i ∈ is_ → (i < length rs)%nat) →
    ∃ b, rfold (λ best i, rfold (λ best j, let? a := index rs i in let? b := index rs j in
      Ok (if growth a b <? best.2 then (i, j, growth a b) else best)) best
      (seq (i + 1) (length rs - (i + 1)))) best is_ = @Ok Diverged _ b ∧ P b).
  { intros is_. induction is_ as [|i is_ IH]; intros best Hb His; cbn [rfold]; [eauto|].
    destruct (Hrow i (seq (i + 1) (length rs - (i + 1))) best) as (b & -> & Hb'); [set_solver|done| |].
    - intros j Hj%elem_of_seq. lia.
    - cbn [rbind]. apply IH; [done|set_solver]. }
  apply Hout; [unfold P; simpl; lia|]. intros i Hi%elem_of_seq. lia.
Qed.

Lemma length_option_list {A} (o : option A) : (length (option_list o) ≤ 1)%nat.
Proof. destruct o; simpl; lia. Qed.

Lemma refines_region_trans w h rs1 rs2 rs3 :
  refines_region w h rs1 rs2 → refines_region w h rs2 rs3 → refines_region w h rs1 rs3.
Proof. intros [_ H1] [? H2]. split; auto. Qed.

Lemma refines_region_cons w h r rs1 rs2 rs3 :
  (∀ px py, covers rs1 px py → covers (r :: rs2) px py) →
  refines_region w h (r :: rs2) rs3 → refines_region w h rs1 rs3.
Proof. intros H1 [? H2]. split; auto. Qed.

(** Two removals by [swap_remove], the later index first. *)
Lemma remove_pair (rs : list DesktopRect) (i j : nat) :
  (i < j < length rs)%nat →
  ∃ (a b : DesktopRect) rs1 rs2, swap_remove (E := Diverged) rs j = Ok (b, rs1) ∧
    swap_remove (E := Diverged) rs1 i = Ok (a, rs2) ∧ rs ≡ₚ a :: b :: rs2.
Proof.
  intros [Hij Hj]. destruct (swap_remove_Ok (E := Diverged) rs j) as (b & rs1 & H1 & _ & Hp1); [done|].
  pose proof (Permutation_length Hp1) as Hl. simpl in Hl.
  destruct (swap_remove_Ok (E := Diverged) rs1 i) as (a & rs2 & H2 & _ & Hp2); [lia|].
  exists a, b, rs1, rs2. split; [done|]. split; [done|].
  rewrite Hp1, Hp2. apply Permutation_swap.
Qed.

Section Shrink.
Context (w h : Z) (Hw : w ≤ u16_max) (Hh : h ≤ u16_max).
Context (addf : list DesktopRect → DesktopRect → rres Diverged (list DesktopRect)) (n : nat).
Context (Hadd : ∀ (rs : list DesktopRect) (r : DesktopRect), (length rs < n)%nat → region_wf w h rs → rect_in w h r →
  ∃ out, addf rs r = Ok out ∧ refines_region w h (r :: rs) out ∧ (length out ≤ S (length rs))%nat).

Lemma shrink_ok fuel rs :
  (length rs < fuel)%nat → (length rs ≤ S n)%nat → region_wf w h rs →
  ∃ out, shrink addf fuel rs = Ok out ∧ refines_region w h rs out ∧
    (length out ≤ length rs)%nat ∧ zlen out ≤ MAX_DIRTY_RECTS.
Proof.
  revert rs. induction fuel as [|fuel IH]; intros rs Hf Hn Hwf; [lia|]. simpl.
  destruct (Z.ltb_spec MAX_DIRTY_RECTS (zlen rs)) as [Hlt|Hle]; cycle 1.
  { exists rs. repeat split; auto; apply Hwf. }
  assert (16 < length rs)%nat by (unfold MAX_DIRTY_RECTS, zlen in Hlt; lia).
  destruct (best_pair_ok rs) as ([[i j] g] & -> & Hij); [lia|]. cbn [rbind fst snd] in *.
  destruct (remove_pair rs i j Hij) as (a & b & rs1 & rs2 & -> & Hr2 & Hp).
  cbn [rbind]. rewrite Hr2. cbn [rbind].
  pose proof (Permutation_length Hp) as Hl. simpl in Hl.
  rewrite Hp in Hwf. destruct Hwf as [[Ha [Hb Hin]%Forall_cons]%Forall_cons [_ [_ Hsep]]].
  destruct (Hadd rs2 (union a b)) as (rs3 & -> & Href & Hl3); [lia|done|by apply union_in|].
  cbn [rbind]. destruct (IH rs3) as (out & -> & Hout & Hlo & H16); [lia|lia|apply Href|].
  exists out. split; [done|]. split; [|split; [lia|done]].
  eapply refines_region_trans; [|exact Hout].
  eapply refines_region_cons; [|exact Href].
  intros px py Hc. apply (covers_perm _ _ _ _ Hp) in Hc.
  rewrite !covers_cons in Hc. rewrite covers_cons.
  destruct Hc as [Hi|[Hi|]]; [left; by eapply (union_inside w h); eauto..|by right].
Qed.

End Shrink.

Lemma add_fuel_ok w h fuel rs r :
  w ≤ u16_max → h ≤ u16_max → (length rs < fuel)%nat → region_wf w h rs → rect_in w h r →
  ∃ out, add_fuel fuel rs r = Ok out ∧ refines_region w h (r :: rs) out ∧
    (length out ≤ S (length rs))%nat ∧ (zlen rs ≤ MAX_DIRTY_RECTS → zlen out ≤ MAX_DIRTY_RECTS).
Proof.
  intros Hw Hh. revert rs r. induction fuel as [|fuel IH]; intros rs r Hf Hwf Hr; [lia|].
  cbn [add_fuel]. assert ((r_width r =? 0) || (r_height r =? 0) = false) as ->.
  { destruct Hr as (? & ? & ? & ? & ? & ?). apply orb_false_iff. rewrite !Z.eqb_neq. lia. }
  destruct (merge_touching_ok w h (S (length rs)) rs r)
    as (rs' & o & -> & Hl & Href); [done|done|lia|done|done|]. cbn [rbind].
  destruct o as [next|]; simpl in Href; cycle 1.
  { rewrite app_nil_r in Href. exists rs'. split; [done|]. split; [done|]. split; [lia|].
    unfold zlen. lia. }
  destruct (shrink_ok w h Hw Hh (add_fuel fuel) fuel) with (fuel := S (S (length rs')))
    (rs := rs' ++ [next]) as (out & -> & Hout & Hlo & H16).
  - intros rs0 r0 H0 Hwf0 Hr0. destruct (IH rs0 r0) as (out & ? & ? & ? & ?); eauto.
  - rewrite length_app. simpl. lia.
  - rewrite length_app. simpl. lia.
  - apply Href.
  - rewrite length_app in Hlo. simpl in Hlo. exists out. split; [done|].
    split; [by eapply refines_region_trans|]. split; [lia|done].
Qed.

(** The invariant of a dirty region of a frame. *)
Definition region_ok (w h : Z) (d : DirtyRegion) : Prop :=
  region_wf w h (rects d) ∧ zlen (rects d) ≤ MAX_DIRTY_RECTS.

Lemma region_default_ok w h : region_ok w h region_default.
Proof. repeat split; [constructor|done]. Qed.

(** A rectangle the engines may report: inside the frame, or empty. *)
Definition reportable (w h : Z) (r : DesktopRect) : Prop :=
  rect_in w h r ∨ r_width r = 0 ∨ r_height r = 0.

Lemma covers_empty r px py : r_width r = 0 ∨ r_height r = 0 → ¬ inside r px py.
Proof. rect_unfold. lia. Qed.

Lemma add_ok w h d r :
  w ≤ u16_max → h ≤ u16_max → region_ok w h d → reportable w h r →
  ∃ d', add d r = Ok d' ∧ region_ok w h d' ∧
    ∀ px py, covers (r :: rects d) px py → covers (rects d') px py.
Proof.
  intros Hw Hh [Hwf H16] Hr. unfold add.
  destruct (decide (r_width r = 0 ∨ r_height r = 0)) as [Hz|Hnz].
  - exists d. simpl. assert ((r_width r =? 0) || (r_height r =? 0) = true) as ->.
    { apply orb_true_iff. by rewrite !Z.eqb_eq. }
    destruct d as [rs]. split; [done|]. split; [done|].
    intros px py [Hi|]%covers_cons; [|done]. by apply covers_empty in Hi.
  - destruct Hr as [Hr|]; [|tauto].
    destruct (add_fuel_ok w h (S (length (rects d))) (rects d) r)
      as (out & -> & [Hwf' Hcov] & _ & Hle); [done|done|lia|done|done|].
    exists (mkRegion out). split; [done|]. split; [split; [done|by apply Hle]|done].
Qed.

Lemma extend_ok w h d other :
  w ≤ u16_max → h ≤ u16_max → region_ok w h d → Forall (reportable w h) (rects other) →
  ∃ d', extend d other = Ok d' ∧ region_ok w h d' ∧
    ∀ px py, covers (rects d) px py ∨ covers (rects other) px py → covers (rects d') px py.
Proof.
  intros Hw Hh Hd. unfold extend. destruct other as [rs]. cbn [rects].
  revert d Hd. induction rs as [|r rs IH]; intros d Hd Hrs; cbn [rfold].
  - exists d. split; [done|]. split; [done|]. unfold covers. set_solver.
  - apply Forall_cons in Hrs as [Hr Hrs].
    destruct (add_ok w h d r) as (d1 & -> & Hd1 & Hc1); [done..|]. cbn [rbind].
    destruct (IH d1) as (d2 & -> & Hd2 & Hc2); [done..|].
    exists d2. split; [done|]. split; [done|].
    intros px py Hc. apply Hc2. rewrite covers_cons in Hc.
    destruct Hc as [|[|]]; [left; apply Hc1, covers_cons; tauto..|by right].
Qed.

(** ** The area of a region *)

Definition rect_pixels (r : DesktopRect) : gset (Z * Z) :=
  list_to_set (px ← seqZ (r_x r) (r_width r); (λ py, (px, py)) <$> seqZ (r_y r) (r_height r)).

Definition region_pixels (rs : list DesktopRect) : gset (Z * Z) := ⋃ (rect_pixels <$> rs).

Lemma elem_of_rect_pixels r px py : (px, py) ∈ rect_pixels r ↔ inside r px py.
Proof.
  unfold rect_pixels, inside. rewrite elem_of_list_to_set, list_elem_of_bind. split.
  - intros (x & (y & [= <- <-] & Hy%elem_of_seqZ)%list_elem_of_fmap & Hx%elem_of_seqZ). lia.
  - intros [Hx Hy]. exists px. rewrite elem_of_seqZ. split; [|lia].
    apply list_elem_of_fmap. exists py. by rewrite elem_of_seqZ.
Qed.

Lemma elem_of_region_pixels rs px py : (px, py) ∈ region_pixels rs ↔ covers rs px py.
Proof.
  unfold region_pixels, covers. rewrite elem_of_union_list. setoid_rewrite list_elem_of_fmap.
  split.
  - intros (X & (r & -> & Hr) & Hp). exists r. by rewrite <- elem_of_rect_pixels.
  - intros (r & Hr & Hi). exists (rect_pixels r). rewrite elem_of_rect_pixels. eauto.
Qed.

Lemma length_bind_const {A B} (f : A → list B) (l : list A) n :
  (∀ x, length (f x) = n) → length (l ≫= f) = (length l * n)%nat.
Proof. intros Hf. induction l as [|x l IH]; [done|]. csimpl. by rewrite length_app, Hf, IH. Qed.

Lemma size_rect_pixels r :
  0 ≤ r_width r → 0 ≤ r_height r → Z.of_nat (size (rect_pixels r)) = area r.
Proof.
  intros Hw Hh. unfold rect_pixels. rewrite size_list_to_set.
  - unfold area. rewrite (length_bind_const _ _ (Z.to_nat (r_height r))).
    + rewrite length_seqZ. lia.
    + intros px. by rewrite length_fmap, length_seqZ.
  - apply NoDup_bind; [|intros; apply NoDup_fmap_2; [intros ?? [=]; done|apply NoDup_seqZ]|apply NoDup_seqZ].
    intros x1 x2 y Hx1 Hx2. rewrite !list_elem_of_fmap. naive_solver.
Qed.

Lemma touches_disjoint a b px py : touches a b = false → inside a px py → ¬ inside b px py.
Proof.
  intros Ht Ha Hb. rect_unfold. rewrite !andb_false_iff, !Z.leb_gt in Ht. lia.
Qed.

Lemma region_area_size w h rs :
  region_wf w h rs → Z.of_nat (size (region_pixels rs)) = region_area (mkRegion rs).
Proof.
  intros [Hin Hsep]. unfold region_area. simpl.
  induction rs as [|r rs IH]; cbn [foldr]; [done|].
  apply Forall_cons in Hin as [Hr Hin]. destruct Hsep as [Hd Hsep].
  change (region_pixels (r :: rs)) with (rect_pixels r ∪ region_pixels rs).
  rewrite size_union.
  - rewrite Nat2Z.inj_add, IH, size_rect_pixels by (done || apply Hr || (unfold rect_in in Hr; lia)). done.
  - intros [px py] Hp Hq. rewrite elem_of_rect_pixels in Hp.
    apply elem_of_region_pixels in Hq as (r' & Hr' & Hq).
    rewrite Forall_forall in Hd. by apply (touches_disjoint r r' px py (Hd r' Hr')).
Qed.

Lemma region_area_bound w h rs :
  0 ≤ w → 0 ≤ h → region_wf w h rs → region_area (mkRegion rs) ≤ w * h.
Proof.
  intros Hw Hh Hwf. rewrite <- (region_area_size w h) by done.
  assert (Hs : (size (region_pixels rs) ≤ size (rect_pixels (mkRect 0 0 w h)))%nat).
  { apply subseteq_size. intros [px py] (r & Hr & Hp)%elem_of_region_pixels.
    apply elem_of_rect_pixels. destruct Hwf as [Hin _]. rewrite Forall_forall in Hin.
    apply Hin in Hr. rect_unfold. lia. }
  pose proof (size_rect_pixels (mkRect 0 0 w h) Hw Hh) as Ha. unfold area in Ha. simpl in Ha. lia.
Qed.

(** ** The pixels of a frame *)

(** Where byte [c] of pixel [(px, py)] is in a buffer [stride] pixels wide. *)
Definition offset (stride px py c : Z) : Z := (py * stride + px) * 4 + c.

Definition byte_at (f : DesktopFrame) (px py c : Z) : option Z :=
  zget (rgba f) (offset (f_width f) px py c).

Definition in_frame (w h px py c : Z) : Prop := 0 ≤ px < w ∧ 0 ≤ py < h ∧ 0 ≤ c < 4.

(** The invariant of a frame: a size within the limits, and one RGBA pixel
    for each position. *)
Definition frame_ok (f : DesktopFrame) : Prop :=
  0 ≤ f_width f ∧ 0 ≤ f_height f ∧ frame_len (f_width f) (f_height f) = Ok (zlen (rgba f)).

Lemma frame_len_Ok w h n :
  0 ≤ w → 0 ≤ h → frame_len w h = Ok n →
  n = w * h * 4 ∧ 0 < w ≤ MAX_DIMENSION ∧ 0 < h ≤ MAX_DIMENSION ∧ w * h ≤ MAX_PIXELS.
Proof.
  intros Hw Hh. unfold frame_len. intros H. rinv H. bprop. lia.
Qed.

Lemma frame_ok_dims f :
  frame_ok f → zlen (rgba f) = f_width f * f_height f * 4 ∧
    0 < f_width f ≤ u16_max ∧ 0 < f_height f ≤ u16_max.
Proof.
  intros (Hw & Hh & H). apply frame_len_Ok in H; [|done..].
  unfold MAX_DIMENSION, u16_max in *. lia.
Qed.

Lemma frame_new_ok w h f : 0 ≤ w → 0 ≤ h → frame_new w h = Ok f → frame_ok f ∧ f_width f = w ∧ f_height f = h.
Proof.
  intros Hw Hh H. unfold frame_new in H. destruct (frame_len w h) as [n| |] eqn:El; try done.
  injection H as <-. unfold frame_ok. cbn [f_width f_height rgba]. rewrite El. repeat split; auto.
  apply frame_len_Ok in El as (-> & ? & ? & _); [|done..].
  unfold zlen. rewrite length_replicate, Z2Nat.id by nia. done.
Qed.

Lemma check_rect_Ok f x y w h :
  frame_ok f → 0 ≤ x → 0 ≤ y → 0 ≤ w → 0 ≤ h →
  (check_rect f x y w h = Ok tt ↔ rect_in (f_width f) (f_height f) (mkRect x y w h)) ∧
  (check_rect f x y w h = Err Protocol ↔ ¬ rect_in (f_width f) (f_height f) (mkRect x y w h)).
Proof.
  intros (Hfw & Hfh & Hlen) Hx Hy Hw Hh. unfold check_rect. rewrite Hlen. cbn [rbind].
  rewrite Z.eqb_refl. cbn [negb]. rect_unfold.
  destruct (_ || _) eqn:E.
  - rewrite !orb_true_iff, !Z.eqb_eq, !Z.ltb_lt in E. split; split; try done; lia.
  - bprop. split; split; try done; lia.
Qed.

(** A row of a rectangle holds exactly the bytes of its pixels. *)
Lemma row_hit W x y row w px py c :
  0 ≤ px < W → 0 ≤ c < 4 → 0 ≤ x → x + w ≤ W →
  row_start W x y row ≤ offset W px py c < row_start W x y row + w * 4 ↔
  py = y + row ∧ x ≤ px < x + w.
Proof.
  unfold row_start, offset. intros. split; [|nia]. intros Hr.
  assert (py = y + row) as -> by nia. lia.
Qed.

Lemma offset_inj W px py c px' py' c' :
  0 ≤ px < W → 0 ≤ px' < W → 0 ≤ c < 4 → 0 ≤ c' < 4 →
  offset W px py c = offset W px' py' c' → px = px' ∧ py = py' ∧ c = c'.
Proof.
  unfold offset. intros ???? H. assert (py * W + px = py' * W + px') by lia.
  assert (py = py') as -> by nia. lia.
Qed.

(** Every byte of a buffer is a byte of a pixel. *)
Lemma offset_surj W H i :
  0 < W → 0 ≤ i < W * H * 4 → ∃ px py c, i = offset W px py c ∧ in_frame W H px py c.
Proof.
  intros HW Hi. exists ((i / 4) mod W), (i / 4 / W), (i mod 4). unfold offset, in_frame.
  pose proof (Z.div_mod i 4). pose proof (Z.mod_pos_bound i 4).
  pose proof (Z.div_mod (i / 4) W). pose proof (Z.mod_pos_bound (i / 4) W).
  assert (0 ≤ i / 4 < W * H) by lia. split; [lia|]. split; [lia|]. split; [|lia].
  split; [apply Z.div_pos; lia|]. apply Z.div_lt_upper_bound; lia.
Qed.

Section Rows.
Context (W H x y w h : Z) (Hin : rect_in W H (mkRect x y w h)).
Context (step : list Z → Z → rres EngineError (list Z)) (buf0 : list Z) (expect : Z → Z → option Z).
Context (Hbuf : zlen buf0 = W * H * 4).

(** What a loop has written once it has done [rows]. *)
Definition rows_done (rows : list Z) (buf : list Z) : Prop :=
  zlen buf = zlen buf0 ∧
  ∀ px py c, in_frame W H px py c →
    zget buf (offset W px py c) =
      if decide (inside (mkRect x y w h) px py ∧ py - y ∈ rows)
      then expect (py - y) ((px - x) * 4 + c) else zget buf0 (offset W px py c).

Lemma row_in_buffer row :
  0 ≤ row < h → 0 ≤ row_start W x y row ∧ row_start W x y row + w * 4 ≤ W * H * 4.
Proof. unfold row_start. rect_unfold. intros. split; nia. Qed.

Lemma rows_done_step rows row buf src :
  0 ≤ row < h → rows_done rows buf → zlen src = w * 4 →
  (∀ k, 0 ≤ k < w * 4 → zget src k = expect row k) →
  rows_done (rows ++ [row]) (splice buf (row_start W x y row) src).
Proof.
  intros Hrow [Hl Hd] Hs Hk. destruct (row_in_buffer row Hrow) as [H1 H2].
  split; [rewrite zlen_splice; lia|]. intros px py c Hv.
  rewrite zget_splice by lia. pose proof Hv as (Hpx & Hpy & Hc).
  assert (Hhit := row_hit W x y row w px py c Hpx Hc). rect_unfold.
  destruct ((_ <=? _) && (_ <? _)) eqn:E.
  - bprop. rewrite Hs in *. destruct Hhit as [[-> Hx] _]; [lia..|].
    rewrite decide_True by (rewrite elem_of_app, list_elem_of_singleton; split; [lia|right; lia]).
    rewrite Hk by lia. unfold offset, row_start. f_equal; lia.
  - rewrite Hd by done. apply decide_ext. rewrite elem_of_app, list_elem_of_singleton.
    split; [tauto|]. intros [Hi [|Heq]]; [done|]. exfalso.
    rewrite andb_false_iff, Z.leb_gt, Z.ltb_ge, Hs in E. lia.
Qed.

Lemma rows_loop rows :
  (∀ done row todo buf, rows = done ++ row :: todo → rows_done done buf →
    ∃ src, step buf row = Ok (splice buf (row_start W x y row) src) ∧ zlen src = w * 4 ∧
      ∀ k, 0 ≤ k < w * 4 → zget src k = expect row k) →
  (∀ row, row ∈ rows → 0 ≤ row < h) →
  ∃ buf, rfold step buf0 rows = Ok buf ∧ rows_done rows buf.
Proof.
  intros Hstep Hrows.
  assert (Hgen : ∀ todo done buf, rows = done ++ todo → rows_done done buf →
    ∃ buf', rfold step buf todo = Ok buf' ∧ rows_done rows buf').
  { induction todo as [|row todo IH]; intros done buf Hr Hd; cbn [rfold].
    - rewrite app_nil_r in Hr. subst. eauto.
    - destruct (Hstep done row todo buf) as (src & -> & Hs & Hk); [done..|]. cbn [rbind].
      apply (IH (done ++ [row])); [by rewrite Hr, <- app_assoc|].
      apply rows_done_step; auto. apply Hrows. set_solver. }
  apply (Hgen rows []); [done|]. split; [done|].
  intros px py c _. rewrite decide_False; [done|]. set_solver.
Qed.

End Rows.

(** [g] shows the size and the pixels of [f], except that pixels in [r] are
    given by [new]. *)
Definition rect_replaced (f g : DesktopFrame) (r : DesktopRect) (new : Z → Z → Z → option Z) : Prop :=
  f_width g = f_width f ∧ f_height g = f_height f ∧ frame_ok g ∧
  ∀ px py c, in_frame (f_width f) (f_height f) px py c →
    byte_at g px py c = if decide (inside r px py) then new px py c else byte_at f px py c.

Lemma elem_of_rows r W H px py :
  rect_in W H r → inside r px py → py - r_y r ∈ seqZ 0 (r_height r).
Proof. rewrite elem_of_seqZ. rect_unfold. lia. Qed.

Lemma rows_done_replaced f r expect rows buf :
  frame_ok f → rect_in (f_width f) (f_height f) r →
  (∀ row, row ∈ rows ↔ 0 ≤ row < r_height r) →
  rows_done (f_width f) (f_height f) (r_x r) (r_y r) (r_width r) (r_height r) (rgba f) expect rows buf →
  rect_replaced f (mkFrame (f_width f) (f_height f) buf) r
    (λ px py c, expect (py - r_y r) ((px - r_x r) * 4 + c)).
Proof.
  intros Hf Hr Hrows [Hl Hd]. split; [done|]. split; [done|]. split.
  { destruct Hf as (? & ? & ?). by rewrite <- Hl in *. }
  intros px py c Hv. unfold byte_at. cbn [rgba f_width]. rewrite Hd by done.
  apply decide_ext. rewrite Hrows. destruct r. rect_unfold. lia.
Qed.

Lemma check_rect_in f r :
  frame_ok f → rect_in (f_width f) (f_height f) r →
  check_rect f (r_x r) (r_y r) (r_width r) (r_height r) = Ok tt.
Proof. intros Hf Hr. apply check_rect_Ok; [done|..|by destruct r]; unfold rect_in in Hr; lia. Qed.

Lemma write_rect_ok f r bytes :
  frame_ok f → rect_in (f_width f) (f_height f) r → zlen bytes = r_width r * 4 * r_height r →
  ∃ g, write_rect f (r_x r) (r_y r) (r_width r) (r_height r) bytes = Ok g ∧
    rect_replaced f g r (λ px py c, zget bytes (offset (r_width r) (px - r_x r) (py - r_y r) c)).
Proof.
  intros Hf Hr Hb. destruct (frame_ok_dims f Hf) as (Hlen & HW & HH).
  unfold write_rect. rewrite (check_rect_in f r Hf Hr). cbn [rbind]. cbv zeta. rewrite Hb, Z.eqb_refl. cbn [negb].
  destruct (rows_loop (f_width f) (f_height f) (r_x r) (r_y r) (r_width r) (r_height r)
    ltac:(by destruct r)
    (λ buf row, let? src := slice bytes (row * (r_width r * 4)) ((row + 1) * (r_width r * 4)) in
      copy_from_slice buf (row_start (f_width f) (r_x r) (r_y r) row)
        (row_start (f_width f) (r_x r) (r_y r) row + r_width r * 4) src)
    (rgba f) (λ row k, zget bytes (row * (r_width r * 4) + k)) Hlen (seqZ 0 (r_height r)))
    as (buf & -> & Hbuf).
  - intros done row todo buf Hsplit [Hl _].
    assert (Hrow : 0 ≤ row < r_height r).
    { assert (row ∈ seqZ 0 (r_height r)) as ?%elem_of_seqZ by (rewrite Hsplit; set_solver). lia. }
    destruct (row_in_buffer (f_width f) (f_height f) (r_x r) (r_y r) (r_width r) (r_height r)
      ltac:(by destruct r) row Hrow).
    unfold rect_in in Hr.
    destruct (slice_Ok (E := EngineError) bytes (row * (r_width r * 4)) ((row + 1) * (r_width r * 4)))
      as (src & Hs & Hls & Hg); [nia..|].
    exists src. rewrite Hs. cbn [rbind].
    rewrite copy_from_slice_Ok by lia. split; [done|]. split; [lia|]. intros k Hk. apply Hg. lia.
  - intros row ?%elem_of_seqZ. lia.
  - cbn [rbind]. eexists. split; [done|].
    eapply rows_done_replaced in Hbuf; [|done|done|intros row; rewrite elem_of_seqZ; lia].
    destruct Hbuf as (? & ? & ? & Hpx). repeat split; try done; try apply H1.
    intros px py c Hv. rewrite Hpx by done. case_decide; [|done]. f_equal. unfold offset. lia.
Qed.

Lemma read_rect_ok buf W H r :
  zlen buf = W * H * 4 → rect_in W H r →
  ∃ bytes, read_rect buf W r = Ok bytes ∧ zlen bytes = r_width r * 4 * r_height r ∧
    ∀ px py c, inside r px py → 0 ≤ c < 4 →
      zget bytes (offset (r_width r) (px - r_x r) (py - r_y r) c) = zget buf (offset W px py c).
Proof.
  intros Hb Hr. unfold read_rect.
  set (F := λ out row, _).
  assert (Hn : ∀ n : nat, Z.of_nat n ≤ r_height r →
    ∃ bytes, rfold F [] (seqZ 0 (Z.of_nat n)) = Ok bytes ∧ zlen bytes = r_width r * 4 * Z.of_nat n ∧
      ∀ px row c, r_x r ≤ px < r_x r + r_width r → 0 ≤ row < Z.of_nat n → 0 ≤ c < 4 →
        zget bytes (offset (r_width r) (px - r_x r) row c) = zget buf (offset W px (r_y r + row) c)).
  { induction n as [|n IH]; intros Hle.
    - exists []. cbn. split; [done|]. split; [unfold zlen; simpl; lia|]. lia.
    - destruct IH as (bytes & Hf & Hl & Hg); [lia|].
      rewrite Nat2Z.inj_succ, <- Z.add_1_r, seqZ_app, rfold_app, Hf by lia. cbn [rbind].
      rewrite Z.add_0_l. change (seqZ (Z.of_nat n) 1) with [0 + Z.of_nat n]. rewrite Z.add_0_l.
      destruct (row_in_buffer W H (r_x r) (r_y r) (r_width r) (r_height r) ltac:(by destruct r) (Z.of_nat n));
        [lia|].
      unfold rect_in in Hr.
      destruct (slice_Ok (E := EngineError) buf (row_start W (r_x r) (r_y r) (Z.of_nat n))
        (row_start W (r_x r) (r_y r) (Z.of_nat n) + r_width r * 4)) as (s & Hs & Hls & Hgs); [lia..|].
      cbn [rfold]. unfold F at 1. cbv zeta. rewrite Hs. cbn [rbind]. eexists. split; [done|].
      split; [rewrite zlen_app; lia|]. intros px row c Hpx Hrow Hc.
      rewrite zget_app. destruct (Z.ltb_spec (offset (r_width r) (px - r_x r) row c) (zlen bytes)) as [Hlt|Hge].
      + apply Hg; [done| |done]. unfold offset in Hlt. split; [lia|]. nia.
      + unfold offset in Hge. assert (row = Z.of_nat n) as -> by nia.
        rewrite Hgs by (unfold offset; lia). f_equal. unfold offset, row_start. lia. }
  destruct (Hn (Z.to_nat (r_height r))) as (bytes & Hf & Hl & Hg); [unfold rect_in in Hr; lia|].
  rewrite Z2Nat.id in * by (unfold rect_in in Hr; lia).
  exists bytes. split; [done|]. split; [done|].
  intros px py c Hi Hc. unfold inside in Hi. rewrite Hg by lia. f_equal. unfold offset. lia.
Qed.

(** The rows before a row in an ascending sequence are smaller. *)
Lemma seqZ_before h a row b r' : seqZ 0 h = a ++ row :: b → r' ∈ a → 0 ≤ r' < row ∧ row < h.
Proof.
  intros Hs (i & Hi)%list_elem_of_lookup.
  assert (Hr : seqZ 0 h !! i = Some r') by (rewrite Hs; by apply lookup_app_l_Some).
  assert (Hrow : seqZ 0 h !! length a = Some row) by (rewrite Hs; by apply list_lookup_middle).
  apply lookup_lt_Some in Hi. apply lookup_seqZ in Hr, Hrow. lia.
Qed.

(** The order of the rows in [copy_rect] reads every source row before a row
    that overlaps it is written. *)
Lemma copy_rows_order sy y h a row b r' :
  (if sy <? y then reverse (seqZ 0 h) else seqZ 0 h) = a ++ row :: b → r' ∈ a → y + r' ≠ sy + row.
Proof.
  destruct (Z.ltb_spec sy y) as [Hlt|Hge].
  - intros Hs Hr. assert (Hs' : seqZ 0 h = reverse b ++ row :: reverse a).
    { rewrite <- (reverse_involutive (seqZ 0 h)), Hs, reverse_app, reverse_cons, <- app_assoc. done. }
    rewrite <- elem_of_reverse in Hr. apply list_elem_of_split in Hr as (l1 & l2 & Hr).
    rewrite Hr, app_comm_cons, app_assoc in Hs'.
    apply (seqZ_before _ _ _ _ row) in Hs' as [? ?]; [lia|]. set_solver.
  - intros Hs Hr. apply (seqZ_before _ _ _ _ _ Hs) in Hr. lia.
Qed.

Lemma elem_of_copy_rows sy y h row :
  row ∈ (if sy <? y then reverse (seqZ 0 h) else seqZ 0 h) ↔ 0 ≤ row < h.
Proof. case_match; rewrite ?elem_of_reverse, elem_of_seqZ; lia. Qed.

Lemma copy_rect_ok f sx sy r :
  frame_ok f → rect_in (f_width f) (f_height f) r →
  rect_in (f_width f) (f_height f) (mkRect sx sy (r_width r) (r_height r)) →
  ∃ g, copy_rect f sx sy (r_x r) (r_y r) (r_width r) (r_height r) = Ok g ∧
    rect_replaced f g r (λ px py c, byte_at f (px - r_x r + sx) (py - r_y r + sy) c).
Proof.
  intros Hf Hr Hs. destruct (frame_ok_dims f Hf) as (Hlen & HW & HH).
  pose proof (check_rect_in f _ Hf Hs) as Hcs. simpl in Hcs.
  unfold copy_rect. rewrite Hcs, (check_rect_in f r Hf Hr). cbn [rbind]. cbv zeta.
  destruct (rows_loop (f_width f) (f_height f) (r_x r) (r_y r) (r_width r) (r_height r)
    ltac:(by destruct r)
    (λ buf row, copy_within buf (row_start (f_width f) sx sy row)
      (row_start (f_width f) sx sy row + r_width r * 4) (row_start (f_width f) (r_x r) (r_y r) row))
    (rgba f) (λ row k, zget (rgba f) (row_start (f_width f) sx sy row + k)) Hlen
    (if sy <? r_y r then reverse (seqZ 0 (r_height r)) else seqZ 0 (r_height r))) as (buf & -> & Hbuf).
  - intros a row b buf Hsplit [Hl Hd].
    assert (Hrow : 0 ≤ row < r_height r).
    { apply (elem_of_copy_rows sy (r_y r)). rewrite Hsplit. set_solver. }
    destruct (row_in_buffer _ _ _ _ _ _ Hs row Hrow).
    destruct (row_in_buffer (f_width f) (f_height f) (r_x r) (r_y r) (r_width r) (r_height r)
      ltac:(by destruct r) row Hrow).
    destruct (copy_within_Ok (E := EngineError) buf (row_start (f_width f) sx sy row)
      (row_start (f_width f) sx sy row + r_width r * 4) (row_start (f_width f) (r_x r) (r_y r) row))
      as (src & -> & Hls & Hg); [unfold rect_in in Hr; lia..|].
    exists src. split; [done|]. split; [lia|]. intros k Hk. rewrite Hg by lia.
    rect_unfold. replace (row_start (f_width f) sx sy row + k)
      with (offset (f_width f) (sx + k / 4) (sy + row) (k mod 4))
      by (unfold offset, row_start; pose proof (Z.div_mod k 4); lia).
    pose proof (Z.mod_pos_bound k 4). pose proof (Z.div_mod k 4).
    rewrite Hd by (unfold in_frame; lia). rewrite decide_False; [done|].
    intros [_ Hbad]. apply (copy_rows_order _ _ _ _ _ _ _ Hsplit) in Hbad. lia.
  - intros row ?%elem_of_copy_rows. lia.
  - cbn [rbind]. eexists. split; [done|].
    eapply rows_done_replaced in Hbuf; [|done|done|apply elem_of_copy_rows].
    destruct Hbuf as (? & ? & Hok & Hpx). repeat split; try done; try apply Hok.
    intros px py c Hv. rewrite Hpx by done. case_decide; [|done].
    unfold byte_at. f_equal. unfold offset, row_start. lia.
Qed.

(** ** Patches *)

(** The two frames have one size, and [g] shows [f] at the pixels in [P] and
    [old] elsewhere. *)
Definition overlaid (old f g : DesktopFrame) (P : Z → Z → Prop) : Prop :=
  f_width g = f_width f ∧ f_height g = f_height f ∧ frame_ok g ∧
  ∀ px py c, in_frame (f_width f) (f_height f) px py c →
    (P px py → byte_at g px py c = byte_at f px py c) ∧
    (¬ P px py → byte_at g px py c = byte_at old px py c).

Lemma extract_patch_ok f d :
  frame_ok f → Forall (rect_in (f_width f) (f_height f)) (rects d) →
  ∃ rs, extract_patch f d = Ok (mkPatch (f_width f) (f_height f) rs) ∧
    Forall2 (λ r e, e.1 = r ∧ read_rect (rgba f) (f_width f) r = Ok e.2) (rects d) rs.
Proof.
  intros Hf Hin. unfold extract_patch.
  assert (∃ rs, rmap (λ r, let? _ := check_rect f (r_x r) (r_y r) (r_width r) (r_height r) in
      let? bytes := read_rect (rgba f) (f_width f) r in Ok (r, bytes)) (rects d) = Ok rs ∧
    Forall2 (λ r e, e.1 = r ∧ read_rect (rgba f) (f_width f) r = Ok e.2) (rects d) rs) as (rs & -> & Hrs).
  { induction Hin as [|r rs Hr Hin IH]; cbn [rmap]; [by exists []|].
    destruct IH as (es & -> & Hes). rewrite (check_rect_in f r Hf Hr). cbn [rbind].
    destruct (read_rect_ok (rgba f) (f_width f) (f_height f) r) as (bytes & Hb & _);
      [by apply frame_ok_dims|done|].
    rewrite Hb. cbn [rbind]. eexists. split; [done|]. by constructor. }
  cbn [rbind]. eauto.
Qed.

(** One extracted rectangle, applied. *)
Lemma write_extracted f old r bytes :
  frame_ok f → frame_ok old → f_width old = f_width f → f_height old = f_height f →
  rect_in (f_width f) (f_height f) r → read_rect (rgba f) (f_width f) r = Ok bytes →
  ∃ g, write_rect old (r_x r) (r_y r) (r_width r) (r_height r) bytes = Ok g ∧
    overlaid old f g (inside r).
Proof.
  intros Hf Ho Hw Hh Hr Hb.
  destruct (read_rect_ok (rgba f) (f_width f) (f_height f) r) as (bytes' & Hb' & Hl & Hg);
    [by apply frame_ok_dims|done|]. rewrite Hb in Hb'. injection Hb' as <-.
  destruct (write_rect_ok old r bytes) as (g & -> & Hgw & Hgh & Hok & Hpx); [done|by rewrite Hw, Hh|done|].
  exists g. split; [done|]. rewrite Hw, Hh in *. split; [done|]. split; [done|]. split; [done|].
  intros px py c Hv. rewrite Hpx by done. split; intros Hi.
  - rewrite decide_True by done. apply Hg; [done|]. apply Hv.
  - by rewrite decide_False.
Qed.

Lemma apply_extracted f es rs old :
  frame_ok f → frame_ok old → f_width old = f_width f → f_height old = f_height f →
  Forall (rect_in (f_width f) (f_height f)) rs →
  Forall2 (λ r e, e.1 = r ∧ read_rect (rgba f) (f_width f) r = Ok e.2) rs es →
  ∃ g, rfold (λ f '(r, bytes), write_rect f (r_x r) (r_y r) (r_width r) (r_height r) bytes)
      old es = Ok g ∧ overlaid old f g (covers rs).
Proof.
  intros Hf Ho Hw Hh Hin Hes. revert old Ho Hw Hh.
  induction Hes as [|r [r' bytes] rs es [<- Hb] Hes IH]; intros old Ho Hw Hh; cbn [rfold].
  - exists old. split; [done|]. split; [done|]. split; [done|]. split; [done|].
    intros px py c _. split; [intros (r & Hr & _); set_solver|done].
  - apply Forall_cons in Hin as [Hr Hin].
    destruct (write_extracted f old r' bytes) as (g1 & -> & Hgw & Hgh & Hg & Hpx1); [done..|].
    cbn [rbind]. destruct (IH Hin g1) as (g & -> & Hw2 & Hh2 & Hg2 & Hpx2); [done..|].
    exists g. split; [done|]. split; [done|]. split; [done|]. split; [done|].
    intros px py c Hv. destruct (Hpx1 px py c Hv) as [H1 H1'], (Hpx2 px py c Hv) as [H2 H2'].
    destruct (decide (inside r' px py)) as [Hi|Hi].
    + split; [intros _|intros Hn; destruct Hn; apply covers_cons; auto].
      destruct (decide ((px, py) ∈ region_pixels rs)) as [Hc|Hc];
        rewrite elem_of_region_pixels in Hc; [by apply H2|]. by rewrite H2', H1.
    + rewrite covers_cons. split; [intros [|]; [done|by apply H2]|].
      intros Hn. rewrite H2' by tauto. by apply H1'.
Qed.

Lemma patch_overlays f old d :
  frame_ok f → frame_ok old → f_width old = f_width f → f_height old = f_height f →
  Forall (rect_in (f_width f) (f_height f)) (rects d) →
  ∃ p g, extract_patch f d = Ok p ∧ map fst (p_rects p) = rects d ∧
    apply_patch old p = Ok g ∧ overlaid old f g (covers (rects d)).
Proof.
  intros Hf Ho Hw Hh Hin. destruct (extract_patch_ok f d Hf Hin) as (rs & He & Hrs).
  destruct (apply_extracted f rs (rects d) old) as (g & Hg & Hov); [done..|].
  exists (mkPatch (f_width f) (f_height f) rs), g. split; [done|]. cbn [p_rects]. split.
  { clear -Hrs. induction Hrs as [|r e rs es [<- _] _ IH]; simpl; [done|]. by rewrite IH. }
  split; [|done]. unfold apply_patch. cbn [p_width p_height p_rects].
  by rewrite Hw, Hh, !Z.eqb_refl.
Qed.

(** Frames of one size that agree at every pixel are equal. *)
Lemma frame_ext f g :
  frame_ok f → frame_ok g → f_width g = f_width f → f_height g = f_height f →
  (∀ px py c, in_frame (f_width f) (f_height f) px py c → byte_at g px py c = byte_at f px py c) →
  g = f.
Proof.
  intros Hf Hg Hw Hh Hpx. destruct f as [fw fh fb], g as [gw gh gb]. simpl in *. subst gw gh. f_equal.
  destruct (frame_ok_dims _ Hf) as (Hlf & HW & _), (frame_ok_dims _ Hg) as (Hlg & _ & _). simpl in *.
  apply zget_ext; [lia|]. intros i Hi. rewrite Hlg in Hi.
  destruct (offset_surj fw fh i) as (px & py & c & -> & Hv); [lia..|]. by apply Hpx.
Qed.

(** ** Every operation on any arguments *)

Definition u16 (v : Z) : Prop := 0 ≤ v ≤ u16_max.
Definition u16_rect (r : DesktopRect) : Prop :=
  u16 (r_x r) ∧ u16 (r_y r) ∧ u16 (r_width r) ∧ u16 (r_height r).

(** The result of an operation on frame [f]: a frame of the same size with
    all its pixels, or one of the two errors the session maps. *)
Definition frame_result (f : DesktopFrame) (x : rres EngineError DesktopFrame) : Prop :=
  match x with
  | Ok g => frame_ok g ∧ f_width g = f_width f ∧ f_height g = f_height f
  | Err e => e = Protocol ∨ e = ResourceLimit
  | Panic => False
  end.

Lemma check_rect_cases f r :
  u16 (f_width f) → u16 (f_height f) → u16_rect r →
  check_rect f (r_x r) (r_y r) (r_width r) (r_height r) = Ok tt ∧
    frame_ok f ∧ rect_in (f_width f) (f_height f) r ∨
  (check_rect f (r_x r) (r_y r) (r_width r) (r_height r) = Err Protocol ∨
   check_rect f (r_x r) (r_y r) (r_width r) (r_height r) = Err ResourceLimit).
Proof.
  intros [Hw _] [Hh _] ([? _] & [? _] & [? _] & [? _]). unfold check_rect.
  destruct (_ || _) eqn:E; [auto|]. bprop.
  destruct (frame_len (f_width f) (f_height f)) as [n| |] eqn:El; cbn [rbind].
  - destruct (Z.eqb_spec (zlen (rgba f)) n) as [Hn|]; cbn [negb]; [|auto].
    left. split; [done|]. split; [by repeat split; [..|rewrite Hn]|]. rect_unfold. lia.
  - unfold frame_len in El. case_match; naive_solver.
  - unfold frame_len in El. by case_match.
Qed.

Lemma write_rect_result f r bytes :
  u16 (f_width f) → u16 (f_height f) → u16_rect r →
  frame_result f (write_rect f (r_x r) (r_y r) (r_width r) (r_height r) bytes).
Proof.
  intros Hw Hh Hr. destruct (check_rect_cases f r Hw Hh Hr) as [(Hc & Hf & Hin)|[Hc|Hc]];
    [|unfold write_rect; rewrite Hc; simpl; auto..].
  destruct (Z.eq_dec (zlen bytes) (r_width r * 4 * r_height r)) as [Hb|Hb].
  - destruct (write_rect_ok f r bytes) as (g & -> & ? & ? & ? & _); [done..|]. done.
  - unfold write_rect. rewrite Hc. cbn [rbind]. cbv zeta.
    rewrite (proj2 (Z.eqb_neq _ _) Hb). simpl. auto.
Qed.

Lemma copy_rect_result f sx sy r :
  u16 (f_width f) → u16 (f_height f) → u16_rect r → u16 sx → u16 sy →
  frame_result f (copy_rect f sx sy (r_x r) (r_y r) (r_width r) (r_height r)).
Proof.
  intros Hw Hh Hr Hsx Hsy.
  assert (Hs : u16_rect (mkRect sx sy (r_width r) (r_height r))) by (unfold u16_rect in *; simpl; tauto).
  destruct (check_rect_cases f _ Hw Hh Hs) as [(Hcs & Hf & Hins)|[Hc|Hc]]; simpl in *;
    [|unfold copy_rect; rewrite Hc; simpl; auto..].
  destruct (check_rect_cases f r Hw Hh Hr) as [(Hc & _ & Hin)|[Hc|Hc]];
    [|unfold copy_rect; rewrite Hcs; cbn [rbind]; rewrite Hc; simpl; auto..].
  by destruct (copy_rect_ok f sx sy r) as (g & -> & ? & ? & ? & _).
Qed.

Lemma apply_patch_result f p :
  frame_ok f → Forall (λ e, u16_rect e.1) (p_rects p) → frame_result f (apply_patch f p).
Proof.
  intros Hf Hp. unfold apply_patch. destruct (_ || _); [simpl; auto|].
  destruct p as [pw ph es]. cbn [p_rects] in *.
  assert (Hgen : ∀ g, frame_ok g → f_width g = f_width f → f_height g = f_height f →
    frame_result f (rfold (λ f '(r, bytes), write_rect f (r_x r) (r_y r) (r_width r) (r_height r) bytes) g es));
    [|by apply Hgen].
  induction Hp as [|[r bytes] es Hr _ IH]; intros g Hg Hw Hh; cbn [rfold]; [done|].
  destruct (frame_ok_dims g Hg) as (_ & ? & ?).
  assert (Hres : frame_result g (write_rect g (r_x r) (r_y r) (r_width r) (r_height r) bytes))
    by (apply write_rect_result; [unfold u16; lia..|done]).
  destruct (write_rect g _ _ _ _ bytes) as [g'|e|]; cbn [rbind]; [|done..].
  destruct Hres as (? & ? & ?). apply IH; congruence.
Qed.

(** ** Properties *)

(** C29. Adding a rectangle to a dirty region always finishes, never
    indexes outside the list, and keeps the region's invariant: at most 16
    rectangles, inside the frame, no two overlapping or adjacent. Nothing
    that was dirty is lost and the new rectangle is covered. The reported
    area is the number of covered pixels. *)
Theorem region_add_sound w h d r :
  0 ≤ w ≤ u16_max → 0 ≤ h ≤ u16_max → region_ok w h d → reportable w h r →
  ∃ d', add d r = Ok d' ∧ region_ok w h d' ∧
    (∀ px py, inside r px py ∨ covers (rects d) px py → covers (rects d') px py) ∧
    region_area d' = Z.of_nat (size (region_pixels (rects d'))) ∧ region_area d' ≤ w * h.
Proof.
  intros Hw Hh Hd Hr. destruct (add_ok w h d r) as (d' & ? & Hd' & Hc); [lia|lia|done..|].
  exists d'. split; [done|]. split; [done|]. destruct d' as [rs].
  split; [intros px py Hp; apply Hc; by rewrite covers_cons|].
  rewrite (region_area_size w h) by apply Hd'. split; [done|].
  apply region_area_bound; [lia..|apply Hd'].
Qed.

Lemma region_add_sound_witness :
  let d := mkRegion [mkRect 0 0 2 2; mkRect 5 5 1 1] in
  add d (mkRect 2 1 3 4) = Ok (mkRegion [mkRect 0 0 6 6]) ∧
  region_area (mkRegion [mkRect 0 0 6 6]) ≤ 8 * 8.
Proof.
  intros d. destruct (region_add_sound 8 8 d (mkRect 2 1 3 4)) as (d' & Hadd & _ & _ & _ & Ha).
  - unfold u16_max. lia.
  - unfold u16_max. lia.
  - split; [|done]. split.
    + repeat (apply Forall_cons; split; [unfold rect_in; simpl; lia|]). by apply Forall_nil.
    + repeat split; [|by apply Forall_nil]. by repeat (apply Forall_cons; split; [done|]).
  - left. unfold rect_in. simpl. lia.
  - assert (Hd : add d (mkRect 2 1 3 4) = Ok (mkRegion [mkRect 0 0 6 6])) by (vm_compute; done).
    split; [done|]. rewrite Hadd in Hd. injection Hd as <-. exact Ha.
Defined.

(** A viewer that holds the engine's frame as it was before some
    changes, all of them inside the dirty region, holds the engine's frame
    exactly after it applies the patch extracted for that region. *)
Theorem patch_synchronizes f old d :
  frame_ok f → frame_ok old → f_width old = f_width f → f_height old = f_height f →
  Forall (rect_in (f_width f) (f_height f)) (rects d) →
  (∀ px py c, in_frame (f_width f) (f_height f) px py c → ¬ covers (rects d) px py →
    byte_at old px py c = byte_at f px py c) →
  ∃ p, extract_patch f d = Ok p ∧ apply_patch old p = Ok f.
Proof.
  intros Hf Ho Hw Hh Hin Hsame.
  destruct (patch_overlays f old d) as (p & g & Hp & _ & Hg & Hgw & Hgh & Hgok & Hpx); [done..|].
  exists p. split; [done|]. rewrite Hg. f_equal. apply frame_ext; [done..|].
  intros px py c Hv. destruct (Hpx px py c Hv) as [H1 H2].
  destruct (decide ((px, py) ∈ region_pixels (rects d))) as [Hc|Hc];
    rewrite elem_of_region_pixels in Hc; [by apply H1|]. rewrite H2 by done. by apply Hsame.
Qed.

Lemma patch_synchronizes_witness :
  let f := mkFrame 2 1 [1; 2; 3; 4; 5; 6; 7; 8] in
  let old := mkFrame 2 1 [1; 2; 3; 4; 0; 0; 0; 0] in
  ∃ p, extract_patch f (mkRegion [mkRect 1 0 1 1]) = Ok p ∧ apply_patch old p = Ok f.
Proof.
  intros f old. apply patch_synchronizes; try done.
  - apply Forall_cons. split; [|by apply Forall_nil]. unfold rect_in. simpl. lia.
  - intros px py c (Hx & Hy & Hc) Hn. simpl in Hx, Hy.
    assert (px = 0) as ->.
    { destruct (decide (px = 1)) as [->|]; [|lia]. destruct Hn. exists (mkRect 1 0 1 1).
      split; [set_solver|]. unfold inside. simpl. lia. }
    assert (py = 0) as -> by lia.
    assert (c = 0 ∨ c = 1 ∨ c = 2 ∨ c = 3) as [-> | [-> | [-> | ->]]] by lia; done.
Defined.

(** Copying a rectangle inside the frame moves exactly the pixels the
    source showed before the copy, also when source and target overlap in
    any direction, and leaves every other pixel. *)
Theorem copy_rect_moves f sx sy r :
  frame_ok f → rect_in (f_width f) (f_height f) r →
  rect_in (f_width f) (f_height f) (mkRect sx sy (r_width r) (r_height r)) →
  ∃ g, copy_rect f sx sy (r_x r) (r_y r) (r_width r) (r_height r) = Ok g ∧ frame_ok g ∧
    ∀ px py c, in_frame (f_width f) (f_height f) px py c →
      byte_at g px py c =
        if decide (inside r px py) then byte_at f (px - r_x r + sx) (py - r_y r + sy) c
        else byte_at f px py c.
Proof.
  intros Hf Hr Hs. destruct (copy_rect_ok f sx sy r) as (g & Hg & _ & _ & Hok & Hpx); eauto.
Qed.

Lemma copy_rect_moves_witness :
  let f := mkFrame 3 1 [1; 1; 1; 1; 2; 2; 2; 2; 3; 3; 3; 3] in
  ∃ g, copy_rect f 0 0 1 0 2 1 = Ok g ∧ byte_at g 2 0 0 = Some 2.
Proof.
  intros f. destruct (copy_rect_moves f 0 0 (mkRect 1 0 2 1)) as (g & Hg & _ & Hpx).
  - done.
  - unfold rect_in. simpl. lia.
  - unfold rect_in. simpl. lia.
  - exists g. split; [exact Hg|]. rewrite Hpx by (unfold in_frame; simpl; lia). done.
Defined.



(** A rectangle that reaches past column 65535 is cut by the casts of [union]:
    pixel 40 of the first rectangle is dirty before and not after. *)
Example union_truncates :
  let a := mkRect 0 0 65535 1 in
  let b := mkRect 65535 0 10 1 in
  add (mkRegion [a]) b = Ok (mkRegion [mkRect 0 0 9 1]).
Proof. vm_compute. done. Qed.

End Desktop.
