(* ===== verification/VncClient.v ===== *)
(** * The VNC engine

    crates/vnc-client/src/lib.rs: the decode surface with its publisher, the
    translation of server events and cursors, and the input state that keeps
    track of what the peer may hold pressed. The RFB client and the JPEG
    decoder are other crates: a server event is a value, the decoder a
    parameter, and the outcome of a write an argument. [EventSink] calls are
    returned as a list. Instants are milliseconds. *)

From S2P Require Import Prelude RustStr BTree RustVec DesktopProtocol.

Module Vnc.
Import Desktop.

Definition MAX_WHEEL_STEPS : Z := 120.
Definition MAX_JPEG_BYTES : Z := 33554432.
Definition PUBLISH_INTERVAL : Z := 16.

Inductive VncError : Type :=
| VAuthenticationRejected | VUnsupportedAuthentication | VUnsupportedOperation | VProtocol
| VResourceLimit | VConnectionLost | VTimeout | VCancelled | VClosed | VWrongPixelFormat
| VInvalidImageData.

Definition map_error (e : VncError) : EngineError :=
  match e with
  | VAuthenticationRejected => AuthenticationRejected
  | VUnsupportedAuthentication => UnsupportedAuthentication
  | VUnsupportedOperation => UnsupportedOperation
  | VResourceLimit => ResourceLimit
  | VConnectionLost | VClosed => ConnectionLost
  | VTimeout => Timeout
  | VCancelled => Cancelled
  | VProtocol | VWrongPixelFormat | VInvalidImageData => Protocol
  end.

Definition resize_result (applied : bool) (status : Z) : rres EngineError unit :=
  match applied, status =? 0 with
  | true, true => Ok tt
  | false, true => Err VncResolutionNotApplied
  | _, false => Err VncResolutionRejected
  end.

Definition map_resize_write_error (e : VncError) : EngineError :=
  match e with
  | VUnsupportedOperation => VncResolutionUnavailable
  | VTimeout => VncResolutionNotApplied
  | other => map_error other
  end.

(** The events of the RFB client. [SetPixelFormat] and any other event of the
    non-exhaustive type are [Unsupported]. *)
Inductive VncEvent : Type :=
| SetResolution (width height : Z)
| RawImage (r : DesktopRect) (bytes : list Z)
| Copy (destination source : DesktopRect)
| JpegImage (r : DesktopRect) (bytes : list Z)
| FramebufferUpdateComplete
| SetCursor (r : DesktopRect) (bytes : list Z)
| VText (text : str)
| Bell
| ResizeResult (applied : bool) (status : Z)
| Unsupported.

(** ** The publisher *)

Record FramePublisher := mkPublisher {
  frame : option DesktopFrame;
  in_progress : DirtyRegion;
  committed : DirtyRegion;
  requires_full : bool;
  ready : bool;
  last_publish : option Z }.

Definition publisher_default : FramePublisher :=
  mkPublisher None region_default region_default false false None.

(** The region operations, used where the code has no error value. *)
Definition region_op {A} (x : rres Diverged A) : rres EngineError A :=
  match x with Ok a => Ok a | _ => Panic end.

Definition set_resolution (p : FramePublisher) (width height : Z) : rres EngineError FramePublisher :=
  if match frame p with
     | Some f => (f_width f =? width) && (f_height f =? height)
     | None => false
     end
  then Ok p
  else
    let? f := frame_new width height in
    Ok (mkPublisher (Some f) region_default region_default true false (last_publish p)).

Definition frame_mut (p : FramePublisher) : rres EngineError DesktopFrame :=
  ok_or (frame p) Protocol.

Definition set_frame (p : FramePublisher) (f : DesktopFrame) : FramePublisher :=
  mkPublisher (Some f) (in_progress p) (committed p) (requires_full p) (ready p) (last_publish p).

Definition mark (p : FramePublisher) (r : DesktopRect) : rres EngineError FramePublisher :=
  let? d := region_op (add (in_progress p) (mkRect (r_x r) (r_y r) (r_width r) (r_height r))) in
  Ok (mkPublisher (frame p) d (committed p) (requires_full p) (ready p) (last_publish p)).

Definition has_pending (p : FramePublisher) : bool :=
  ready p && bool_decide (is_Some (frame p)).

Definition flush_ready (p : FramePublisher) : bool :=
  has_pending p && region_is_empty (in_progress p).

(** [deadline] with the clock that [Instant::now] reads. *)
Definition deadline (p : FramePublisher) (now : Z) : Z :=
  match last_publish p with
  | Some last => last + PUBLISH_INTERVAL
  | None => now
  end.

Definition publish (p : FramePublisher) (now : Z) : rres EngineError (FramePublisher * list EngineEvent) :=
  if negb (has_pending p) then Ok (p, [])
  else
    let? f := ok_or (frame p) Protocol in
    let total := f_width f * f_height f in
    let? event :=
      if requires_full p || (total * 6 <=? region_area (committed p) * 10)
      then Ok (Frame f)
      else rok_map FramePatchEvent (extract_patch f (committed p)) in
    Ok (mkPublisher (frame p) (in_progress p) region_default false false (Some now), [event]).

Definition complete (p : FramePublisher) (now : Z) : rres EngineError (FramePublisher * list EngineEvent) :=
  let? c := region_op (extend (committed p) (in_progress p)) in
  let p' := mkPublisher (frame p) region_default c (requires_full p)
    (bool_decide (is_Some (frame p)) && (requires_full p || negb (region_is_empty c)))
    (last_publish p) in
  if match last_publish p with
     | None => true
     | Some last => last + PUBLISH_INTERVAL <=? now
     end
  then publish p' now else Ok (p', []).

(** ** Cursors *)

(** One pixel of the cursor: its bytes, and whether the mask shows it. *)
Definition cursor_pixel (mask_bits : list Z) (x : nat) (source : list Z) : rres EngineError (list Z * bool) :=
  let? m := index mask_bits (x / 8) in
  Ok (if negb (Z.land m (Z.shiftr 128 (Z.of_nat (x mod 8))) =? 0)
      then (take 3 source ++ [255], true) else ([0; 0; 0; 0], false)).

(** A loop over an iterator with [enumerate]. *)
Definition enumerate {A} (l : list A) : list (nat * A) := imap pair l.

Definition cursor_row (mask : list Z) (mask_row : Z) (e : nat * list Z) : rres EngineError (list Z * bool) :=
  let '(y, source_row) := e in
  let? mask_bits := slice mask (Z.of_nat y * mask_row) ((Z.of_nat y + 1) * mask_row) in
  let? pixels := rmap (λ '(x, source), cursor_pixel mask_bits x source)
    (enumerate (chunks_exact 4 source_row)) in
  Ok (concat (map fst pixels), existsb snd pixels).

Definition cursor_from_rfb (r : DesktopRect) (bytes : list Z) : rres EngineError DesktopCursor :=
  if (r_width r =? 0) || (r_height r =? 0) then Ok CursorHidden
  else if (MAX_CURSOR_DIMENSION <? r_width r) || (MAX_CURSOR_DIMENSION <? r_height r)
  then Ok CursorDefault
  else
    let pixel_len := r_width r * r_height r * 4 in
    let mask_row := (r_width r + 7) / 8 in
    if negb (zlen bytes =? pixel_len + mask_row * r_height r) then Ok CursorDefault
    else
      let pixels := take (Z.to_nat pixel_len) bytes in
      let mask := drop (Z.to_nat pixel_len) bytes in
      let? rows := rmap (cursor_row mask mask_row)
        (enumerate (chunks_exact (Z.to_nat (r_width r * 4)) pixels)) in
      if negb (existsb snd rows) then Ok CursorHidden
      else match cursor_bitmap_new (r_width r) (r_height r) (r_x r) (r_y r) (concat (map fst rows)) with
           | Ok b => Ok (Bitmap b)
           | Err _ => Ok CursorDefault
           | Panic => Panic
           end.

(** ** Server events *)

(** [bytes.chunks_exact_mut(4)] with the fourth byte set. *)
Fixpoint opaque (bytes : list Z) : list Z :=
  match bytes with
  | r :: g :: b :: _ :: rest => r :: g :: b :: 255 :: opaque rest
  | rest => rest
  end.

Inductive JpegPixelFormat : Type := L8 | L16 | RGB24 | CMYK32.

(** What the engine uses of the JPEG decoder: the header of an image, and its
    pixels when they need at most the given buffer. *)
Class JpegDecoder := {
  jpeg_info : list Z → option (Z * Z * JpegPixelFormat);
  jpeg_decode : Z → list Z → option (list Z) }.

(** One source pixel, of one or three channels, as opaque RGBA. *)
Definition jpeg_pixel (channels : nat) (source : list Z) : list Z :=
  (if decide (channels = 3%nat) then source else replicate 3 (hd 0 source)) ++ [255].

Definition write_jpeg `{JpegDecoder} (f : DesktopFrame) (r : DesktopRect) (bytes : list Z)
  : rres EngineError DesktopFrame :=
  if MAX_JPEG_BYTES <? zlen bytes then Err ResourceLimit
  else if negb (rect_fits (mkRect (r_x r) (r_y r) (r_width r) (r_height r)) (f_width f) (f_height f))
  then Err Protocol
  else
    let? (w, h, format) := ok_or (jpeg_info bytes) Protocol in
    if negb (w =? r_width r) || negb (h =? r_height r) then Err Protocol
    else
      let? channels := match format with
                       | RGB24 => Ok 3
                       | L8 => Ok 1
                       | L16 | CMYK32 => Err UnsupportedOperation
                       end in
      let? limit := frame_len (r_width r) (r_height r) in
      let? pixels := ok_or (jpeg_decode limit bytes) Protocol in
      if negb (zlen pixels =? r_width r * r_height r * channels) then Err Protocol
      else
        let stride := f_width f * 4 in
        let? buf := rfold (λ buf '(row, source),
          let start := (r_y r + Z.of_nat row) * stride + r_x r * 4 in
          let? target := slice buf start (start + r_width r * 4) in
          Ok (splice buf start (concat (zip_with
            (λ _ source, jpeg_pixel (Z.to_nat channels) source)
            (chunks_exact 4 target) (chunks_exact (Z.to_nat channels) source)))))
          (rgba f) (enumerate (chunks_exact (Z.to_nat (r_width r * channels)) pixels)) in
        Ok (mkFrame (f_width f) (f_height f) buf).

Definition handle_server_event `{JpegDecoder} (event : VncEvent) (p : FramePublisher) (now : Z)
  : rres EngineError (FramePublisher * list EngineEvent) :=
  match event with
  | SetResolution width height =>
      let? p := set_resolution p width height in Ok (p, [])
  | RawImage r bytes =>
      let? len := frame_len (r_width r) (r_height r) in
      if negb (zlen bytes =? len) then Err Protocol
      else
        let? f := frame_mut p in
        let? f := write_rect f (r_x r) (r_y r) (r_width r) (r_height r) (opaque bytes) in
        let? p := mark (set_frame p f) r in Ok (p, [])
  | Copy destination source =>
      let? f := frame_mut p in
      let? f := copy_rect f (r_x source) (r_y source) (r_x destination) (r_y destination)
        (r_width destination) (r_height destination) in
      let? p := mark (set_frame p f) destination in Ok (p, [])
  | JpegImage r bytes =>
      let? f := frame_mut p in
      let? f := write_jpeg f r bytes in
      let? p := mark (set_frame p f) r in Ok (p, [])
  | FramebufferUpdateComplete => complete p now
  | SetCursor r bytes => let? c := cursor_from_rfb r bytes in Ok (p, [Cursor c])
  | VText text => Ok (p, [ClipboardEvent text])
  | Bell | ResizeResult _ _ => Ok (p, [])
  | Unsupported => Err UnsupportedOperation
  end.

(** ** Input *)

Inductive X11Event : Type :=
| KeyEvent (keycode : Z) (key_down : bool)
| PointerEvent (position_x position_y bottons : Z)
| CopyText (text : str).

Record PointerState := mkPointer { pt_x : Z; pt_y : Z; pt_buttons : Z }.

(** [pressed] is a [BTreeSet<u32>]. *)
Record InputState := mkInput { pressed : list Z; pointer : PointerState }.

Definition input_default : InputState := mkInput [] (mkPointer 0 0 0).

Record PlannedInput := mkPlanned { events : list X11Event; priority : bool }.

(** [i16::unsigned_abs] is the absolute value. *)
Definition append_wheel (evs : list X11Event) (x y delta negative_button positive_button : Z)
  : rres EngineError (list X11Event) :=
  let steps := Z.abs delta in
  if MAX_WHEEL_STEPS <? steps then Err ResourceLimit
  else
    let button := if delta <? 0 then negative_button else positive_button in
    Ok (evs ++ concat (replicate (Z.to_nat steps) [PointerEvent x y button; PointerEvent x y 0])).

Definition unicode_keysym (c : Z) : Z := if c <=? 255 then c else Z.lor 16777216 c.

Definition release_events (s : InputState) : list X11Event :=
  map (λ k, KeyEvent k false) (pressed s) ++
  (if negb (pt_buttons (pointer s) =? 0)
   then [PointerEvent (pt_x (pointer s)) (pt_y (pointer s)) 0] else []).

Definition clear (s : InputState) : InputState :=
  mkInput [] (mkPointer (pt_x (pointer s)) (pt_y (pointer s)) 0).

(** [plan] changes the state before it may fail, so it returns the state in
    both cases. *)
Definition plan (s : InputState) (i : DesktopInput) (clipboard_enabled : bool)
  : InputState * rres EngineError PlannedInput :=
  match i with
  | Key _ keysym down =>
      (if down then mkInput (bset_insert keysym (pressed s)) (pointer s) else s,
       Ok (mkPlanned [KeyEvent keysym down] false))
  | Pointer x y buttons =>
      (mkInput (pressed s) (mkPointer x y (Z.lor (pt_buttons (pointer s)) buttons)),
       Ok (mkPlanned [PointerEvent x y buttons] false))
  | Wheel x y delta_x delta_y =>
      (mkInput (pressed s) (mkPointer x y (pt_buttons (pointer s))),
       let? evs := append_wheel [] x y delta_x 32 64 in
       let? evs := append_wheel evs x y delta_y 8 16 in
       Ok (mkPlanned evs false))
  | Text text =>
      (s, Ok (mkPlanned (concat (map (λ c,
        [KeyEvent (unicode_keysym c) true; KeyEvent (unicode_keysym c) false]) text)) false))
  | Clipboard text =>
      (s, if negb clipboard_enabled || negb (forallb (λ c, c <=? 255) text)
          then Err UnsupportedOperation
          else Ok (mkPlanned [CopyText text] false))
  | Resize _ _ _ => (s, Err UnsupportedOperation)
  | ReleaseAll => (s, Ok (mkPlanned (release_events s) true))
  end.

Definition settle_success (s : InputState) (i : DesktopInput) : InputState :=
  match i with
  | Key _ keysym false => mkInput (bset_remove keysym (pressed s)) (pointer s)
  | Pointer x y buttons => mkInput (pressed s) (mkPointer x y buttons)
  | ReleaseAll => clear s
  | _ => s
  end.

(** The control channels as one check reads them: the values, and whether the
    focus epoch has changed since it was last seen. *)
Record ControlView := mkView { view : EngineControl; changed : bool }.

Definition rejection_for (c : ControlView) : EngineError :=
  if stop (view c) then Cancelled else StaleInput.

(** How the [select!] over a write ends. *)
Inductive Outcome : Type :=
| Written (r : option VncError)
| Stopped
| FocusChanged.

(** What the writer of the RFB client did with the requests it was given: a
    request's events reach the peer all together or not at all. *)
Record Delivery := mkDelivery { input_reached : bool; release_reached : bool }.

Definition sent (reached : bool) (evs : list X11Event) : list X11Event :=
  if reached then evs else [].

(** [release_all]: the state is cleared whether or not the write succeeds. *)
Definition release_all (s : InputState) (reached : bool) : InputState * list X11Event :=
  (clear s, sent reached (release_events s)).

(** The whole handler: the two checks of the control channels, the outcome of
    the write, and what reached the peer. Returns the new input state, the
    events the peer received, and the result sent to the caller. *)
Definition handle_command (s : InputState) (cmd : EngineCommand) (first second : ControlView)
    (clipboard_enabled : bool) (outcome : Outcome) (d : Delivery)
  : InputState * list X11Event * rres EngineError unit :=
  if negb (accepts (view first) cmd) || changed first then (s, [], Err (rejection_for first))
  else match input_validate (input cmd) with
  | Err e => (s, [], Err e)
  | Panic => (s, [], Panic)
  | Ok _ =>
      match plan s (input cmd) clipboard_enabled with
      | (s1, Err e) => (s1, [], Err e)
      | (s1, Panic) => (s1, [], Panic)
      | (s1, Ok planned) =>
          if negb (accepts (view second) cmd) || changed second
          then (s1, [], Err (rejection_for second))
          else match outcome with
          | Written None => (settle_success s1 (input cmd), events planned, Ok tt)
          | Written (Some e) => (s1, sent (input_reached d) (events planned), Err (map_error e))
          | Stopped =>
              let '(s2, evs) := release_all s1 (release_reached d) in
              (s2, sent (input_reached d) (events planned) ++ evs, Err Cancelled)
          | FocusChanged =>
              let '(s2, evs) := release_all s1 (release_reached d) in
              (s2, sent (input_reached d) (events planned) ++ evs, Err StaleInput)
          end
      end
  end.

(** ** What the operations write *)

(** [g] differs from [f] at most inside [r]. *)
Definition changed_only (f g : DesktopFrame) (r : DesktopRect) : Prop :=
  f_width g = f_width f ∧ f_height g = f_height f ∧ frame_ok g ∧
  ∀ px py c, in_frame (f_width f) (f_height f) px py c → ¬ inside r px py →
    byte_at g px py c = byte_at f px py c.

Lemma replaced_changed_only f g r new : rect_replaced f g r new → changed_only f g r.
Proof.
  intros (? & ? & ? & Hpx). repeat split; try done; try apply H1.
  intros px py c Hv Hi. rewrite Hpx by done. by rewrite decide_False.
Qed.

Lemma write_rect_inv f g r bytes :
  frame_ok f → u16_rect r →
  write_rect f (r_x r) (r_y r) (r_width r) (r_height r) bytes = Ok g →
  rect_in (f_width f) (f_height f) r ∧ changed_only f g r.
Proof.
  intros Hf Hr H. destruct (frame_ok_dims f Hf) as (_ & ? & ?).
  destruct (check_rect_cases f r) as [(Hc & _ & Hin)|[Hc|Hc]]; try done; try (unfold u16; lia);
    unfold write_rect in H; rewrite Hc in H; cbn [rbind] in H; try done.
  split; [done|]. cbv zeta in H. destruct (Z.eqb_spec (zlen bytes) (r_width r * 4 * r_height r)); [|done].
  destruct (write_rect_ok f r bytes) as (g' & Hg & Hrep); [done..|].
  unfold write_rect in Hg. rewrite Hc in Hg. cbn [rbind] in Hg. cbv zeta in Hg.
  destruct (Z.eqb_spec (zlen bytes) (r_width r * 4 * r_height r)); [|done].
  rewrite H in Hg. injection Hg as <-. by eapply replaced_changed_only.
Qed.

Lemma copy_rect_inv f g sx sy r :
  frame_ok f → u16_rect r → u16 sx → u16 sy →
  copy_rect f sx sy (r_x r) (r_y r) (r_width r) (r_height r) = Ok g →
  rect_in (f_width f) (f_height f) r ∧ changed_only f g r.
Proof.
  intros Hf Hr Hsx Hsy H. destruct (frame_ok_dims f Hf) as (_ & ? & ?).
  destruct (check_rect_cases f (mkRect sx sy (r_width r) (r_height r))) as [(Hcs & _ & Hins)|Hcs];
    [unfold u16; lia..|unfold u16_rect in *; simpl; tauto| |].
  2: { simpl in Hcs. unfold copy_rect in H. destruct Hcs as [Hcs|Hcs]; by rewrite Hcs in H. }
  destruct (check_rect_cases f r) as [(Hc & _ & Hin)|Hc]; [unfold u16; lia..|done| |].
  2: { simpl in Hcs. unfold copy_rect in H. rewrite Hcs in H. cbn [rbind] in H.
       destruct Hc as [Hc|Hc]; by rewrite Hc in H. }
  destruct (copy_rect_ok f sx sy r) as (g' & Hg & Hrep); [done..|].
  rewrite H in Hg. injection Hg as <-. split; [done|]. by eapply replaced_changed_only.
Qed.

Lemma zip_with_snd {A B C} (g : B → C) (l1 : list A) (l2 : list B) :
  length l1 = length l2 → zip_with (λ _ y, g y) l1 l2 = map g l2.
Proof.
  revert l2. induction l1 as [|x l1 IH]; intros [|y l2] Hl; simplify_eq/=; [done|]. by rewrite IH.
Qed.

(** A row of a decoded image as RGBA. *)
Definition jpeg_row (channels width : nat) (pixels : list Z) (row : Z) : list Z :=
  concat (map (jpeg_pixel channels)
    (chunks_exact channels (take (width * channels) (drop (Z.to_nat row * (width * channels)) pixels)))).

Lemma jpeg_row_spec ch w pixels h row :
  (ch = 1 ∨ ch = 3)%nat → length pixels = (w * h * ch)%nat → 0 ≤ row < Z.of_nat h →
  length (jpeg_row ch w pixels row) = (w * 4)%nat ∧
  ∀ q c, 0 ≤ q < Z.of_nat w → 0 ≤ c < 4 →
    zget (jpeg_row ch w pixels row) (q * 4 + c) =
      if c =? 3 then Some 255
      else zget pixels ((row * Z.of_nat w + q) * Z.of_nat ch + (if decide (ch = 3%nat) then c else 0)).
Proof.
  intros Hch Hp Hrow. unfold jpeg_row. set (src := take _ _).
  assert (Hsrc : length src = (w * ch)%nat).
  { unfold src. rewrite length_take, length_drop, Hp. nia. }
  destruct (chunks_exact_spec ch src w) as [Hlen Hlk]; [lia|done|].
  assert (Hall : Forall (λ b, length b = 4%nat) (map (jpeg_pixel ch) (chunks_exact ch src))).
  { apply Forall_map. eapply Forall_impl; [apply (chunks_exact_all ch src w); [lia|done]|].
    intros b Hb. simpl in Hb. unfold jpeg_pixel. rewrite length_app. case_decide; simpl; lia. }
  split; [by rewrite (length_concat_blocks 4), length_map, Hlen|].
  intros q c Hq Hc. rewrite (zget_concat_blocks 4) by (done || lia).
  change (map (jpeg_pixel ch)) with (fmap (M := list) (jpeg_pixel ch)).
  rewrite list_lookup_fmap, Hlk by lia. simpl.
  set (px := take ch _). assert (Hpx : length px = ch).
  { unfold px. rewrite length_take, length_drop, Hsrc. nia. }
  assert (Hget : ∀ k, 0 ≤ k < Z.of_nat ch →
    zget px k = zget pixels ((row * Z.of_nat w + q) * Z.of_nat ch + k)).
  { intros k Hk. unfold px, src. rewrite zget_take_drop by lia. rewrite zget_take_drop by nia. f_equal. nia. }
  unfold jpeg_pixel. rewrite zget_app. case_decide as H3.
  - unfold zlen. rewrite Hpx. destruct (Z.ltb_spec c (Z.of_nat ch)), (Z.eqb_spec c 3); try lia.
    + apply Hget. lia.
    + by replace (c - Z.of_nat ch) with 0 by lia.
  - assert (ch = 1%nat) as -> by lia. unfold zlen. rewrite length_replicate.
    destruct (Z.ltb_spec c (Z.of_nat 3)), (Z.eqb_spec c 3); try lia; [|subst c; done].
    rewrite <- Hget by lia. destruct px as [|v px']; [done|]. unfold zget.
    rewrite (proj2 (Z.leb_le 0 c)) by lia. rewrite lookup_replicate_2 by lia. done.
Qed.

Section Engine.
Context `{JpegDecoder}.

(** The byte a decoded image gives a pixel of its rectangle. *)
Definition jpeg_byte (r : DesktopRect) (channels : Z) (pixels : list Z) (px py c : Z) : option Z :=
  if c =? 3 then Some 255
  else zget pixels (((py - r_y r) * r_width r + (px - r_x r)) * channels +
                    (if decide (channels = 3) then c else 0)).

(** The row loop of [write_jpeg]. *)
Lemma jpeg_loop f r ch pixels :
  frame_ok f → rect_in (f_width f) (f_height f) r → ch = 1 ∨ ch = 3 →
  zlen pixels = r_width r * r_height r * ch →
  ∃ buf, rfold (λ buf '(row, source),
      let start := (r_y r + Z.of_nat row) * (f_width f * 4) + r_x r * 4 in
      let? target := slice buf start (start + r_width r * 4) in
      Ok (splice buf start (concat (zip_with
        (λ _ source, jpeg_pixel (Z.to_nat ch) source)
        (chunks_exact 4 target) (chunks_exact (Z.to_nat ch) source)))))
      (rgba f) (enumerate (chunks_exact (Z.to_nat (r_width r * ch)) pixels)) = @Ok EngineError _ buf ∧
    rect_replaced f (mkFrame (f_width f) (f_height f) buf) r (jpeg_byte r ch pixels).
Proof.
  intros Hf Hr Hch Hp. destruct (frame_ok_dims f Hf) as (Hlen & HW & HH).
  pose proof Hr as Hr'. unfold rect_in in Hr'.
  set (w := Z.to_nat (r_width r)). set (n := Z.to_nat ch).
  assert (Hn : Z.to_nat (r_width r * ch) = (w * n)%nat) by (unfold w, n; rewrite Z2Nat.inj_mul by lia; done).
  assert (Hpl : length pixels = (Z.to_nat (r_height r) * (w * n))%nat) by (unfold zlen in Hp; unfold w, n; nia).
  destruct (chunks_exact_spec (w * n) pixels (Z.to_nat (r_height r))) as [Hcl Hck]; [nia|done|].
  unfold enumerate. rewrite rfold_enumerate, Hn. unfold zlen at 1. rewrite Hcl, Z2Nat.id by lia.
  match goal with |- context [rfold ?F _ _] =>
    destruct (rows_loop (f_width f) (f_height f) (r_x r) (r_y r) (r_width r) (r_height r)
      ltac:(by destruct r) F (rgba f) (λ row k, zget (jpeg_row n w pixels row) k) Hlen
      (seqZ 0 (r_height r))) as (buf & Hb & Hdone)
  end.
  - intros a row b buf Hs [Hl _].
    assert (Hrow : 0 ≤ row < r_height r).
    { assert (row ∈ seqZ 0 (r_height r)) as ?%elem_of_seqZ by (rewrite Hs; set_solver). lia. }
    destruct (jpeg_row_spec n w pixels (Z.to_nat (r_height r)) row) as [Hjl _]; [lia|lia|lia|].
    destruct (row_in_buffer (f_width f) (f_height f) (r_x r) (r_y r) (r_width r) (r_height r)
      ltac:(by destruct r) row Hrow).
    exists (jpeg_row n w pixels row).
    rewrite Hck by lia. cbv beta iota zeta. rewrite Z2Nat.id by lia.
    replace ((r_y r + row) * (f_width f * 4) + r_x r * 4) with (row_start (f_width f) (r_x r) (r_y r) row)
      by (unfold row_start; lia).
    destruct (slice_Ok (E := EngineError) buf (row_start (f_width f) (r_x r) (r_y r) row)
      (row_start (f_width f) (r_x r) (r_y r) row + r_width r * 4)) as (t & -> & Htl & _); [lia..|].
    cbn [rbind]. rewrite zip_with_snd.
    + split; [done|]. split; [unfold zlen; rewrite Hjl; unfold w; lia|done].
    + destruct (chunks_exact_spec 4 t w) as [-> _]; [lia|unfold zlen in Htl; unfold w; lia|].
      destruct (chunks_exact_spec n (take (w * n) (drop (Z.to_nat row * (w * n)) pixels)) w) as [-> _];
        [lia| |done]. rewrite length_take, length_drop, Hpl. nia.
  - intros row ?%elem_of_seqZ. lia.
  - exists buf. split; [exact Hb|].
    eapply rows_done_replaced in Hdone; [|done|done|intros row; rewrite elem_of_seqZ; lia].
    destruct Hdone as (? & ? & Hok & Hpx). repeat split; try done; try apply Hok.
    intros px py c Hv. rewrite Hpx by done. case_decide as Hi; [|done].
    destruct Hv as (_ & _ & Hc). unfold inside in Hi.
    destruct (jpeg_row_spec n w pixels (Z.to_nat (r_height r)) (py - r_y r)) as [_ Hj]; [lia..|].
    rewrite Hj by (unfold w; lia).
    unfold jpeg_byte, n, w. rewrite !Z2Nat.id by lia. destruct (c =? 3); [done|].
    f_equal. destruct (decide (ch = 3)), (decide (Z.to_nat ch = 3%nat)); lia.
Qed.

Lemma write_jpeg_cases f r bytes :
  frame_ok f → u16_rect r →
  (∃ e, write_jpeg f r bytes = Err e) ∨
  (∃ g fmt ch pixels, write_jpeg f r bytes = Ok g ∧ rect_in (f_width f) (f_height f) r ∧
    jpeg_info bytes = Some (r_width r, r_height r, fmt) ∧
    jpeg_decode (r_width r * r_height r * 4) bytes = Some pixels ∧
    rect_replaced f g r (jpeg_byte r ch pixels)).
Proof.
  intros Hf ([? _] & [? _] & [? _] & [? _]). unfold write_jpeg.
  destruct (_ <? _); [eauto|].
  destruct (rect_fits _ _ _) eqn:Hfit; [|simpl; eauto].
  assert (Hin : rect_in (f_width f) (f_height f) r) by (apply rect_fits_in; [done..|by destruct r]).
  cbn [negb]. destruct (jpeg_info bytes) as [[[w h] fmt]|] eqn:Hi; [|simpl; eauto].
  cbn [ok_or rbind]. destruct (negb _ || negb _) eqn:Hwh; [eauto|]. bprop. subst w h.
  destruct (match fmt with RGB24 => Ok 3 | L8 => Ok 1 | _ => Err UnsupportedOperation end)
    as [ch|e|] eqn:Hch; cbn [rbind]; [|eauto|by destruct fmt].
  destruct (frame_len (r_width r) (r_height r)) as [lim|e|] eqn:Hl; cbn [rbind];
    [|eauto|by unfold frame_len in Hl; case_match].
  apply frame_len_Ok in Hl as (-> & _); [|done..].
  destruct (jpeg_decode _ bytes) as [pixels|] eqn:Hd; [|simpl; eauto]. cbn [ok_or rbind].
  destruct (Z.eqb_spec (zlen pixels) (r_width r * r_height r * ch)); [|simpl; eauto]. cbn [negb].
  destruct (jpeg_loop f r ch pixels) as (buf & Hloop & Hrep);
    [done|done|destruct fmt; naive_solver|done|]. cbv zeta in Hloop |- *. rewrite Hloop.
  right. cbn [rbind]. eauto 10.
Qed.

(** ** The publisher and its sink *)

(** A cursor the sessions can show. *)
Definition cursor_ok (c : DesktopCursor) : Prop :=
  match c with
  | Bitmap b =>
      0 < c_width b ≤ MAX_CURSOR_DIMENSION ∧ 0 < c_height b ≤ MAX_CURSOR_DIMENSION ∧
      0 ≤ hotspot_x b < c_width b ∧ 0 ≤ hotspot_y b < c_height b ∧
      zlen (c_rgba b) = c_width b * c_height b * 4
  | _ => True
  end.

(** What the engine needs of the session that receives its events: the frame
    it shows, and that the session is still running. A full frame replaces
    the shown one, a patch that applies is applied, other events leave it. *)
Class FrameSink (S : Type) := {
  shown : S → option DesktopFrame;
  alive : S → Prop;
  deliver : S → EngineEvent → S;
  deliver_frame s f : alive s → frame_ok f →
    alive (deliver s (Frame f)) ∧ shown (deliver s (Frame f)) = Some f;
  deliver_patch s g g' p : alive s → shown s = Some g →
    Forall (λ e, u16_rect e.1) (p_rects p) → apply_patch g p = Ok g' →
    alive (deliver s (FramePatchEvent p)) ∧ shown (deliver s (FramePatchEvent p)) = Some g';
  deliver_other s e : alive s →
    (∀ f, e ≠ Frame f) → (∀ p, e ≠ FramePatchEvent p) → (∀ c, e = Cursor c → cursor_ok c) →
    alive (deliver s e) ∧ shown (deliver s e) = shown s }.

(** The publisher's invariant. *)
Definition pub_ok (p : FramePublisher) : Prop :=
  match frame p with
  | None => in_progress p = region_default ∧ committed p = region_default ∧
            requires_full p = false ∧ ready p = false
  | Some f =>
      frame_ok f ∧ region_ok (f_width f) (f_height f) (in_progress p) ∧
      region_ok (f_width f) (f_height f) (committed p) ∧
      (ready p = false → requires_full p = false → rects (committed p) = [])
  end.

(** A shown frame that is not about to be replaced agrees with the surface
    outside the rectangles still to be published. *)
Definition mirrors (p : FramePublisher) (v : option DesktopFrame) : Prop :=
  ∀ f, frame p = Some f → requires_full p = false →
  ∃ g, v = Some g ∧ frame_ok g ∧ f_width g = f_width f ∧ f_height g = f_height f ∧
    ∀ px py c, in_frame (f_width f) (f_height f) px py c →
      ¬ covers (rects (committed p)) px py → ¬ covers (rects (in_progress p)) px py →
      byte_at g px py c = byte_at f px py c.

Definition event_typed (e : VncEvent) : Prop :=
  match e with
  | SetResolution width height => u16 width ∧ u16 height
  | RawImage r _ | JpegImage r _ | SetCursor r _ => u16_rect r
  | Copy d s => u16_rect d ∧ u16_rect s
  | _ => True
  end.

Lemma mark_ok p v f g r :
  pub_ok p → mirrors p v → frame p = Some f → rect_in (f_width f) (f_height f) r →
  changed_only f g r →
  ∃ p', mark (set_frame p g) r = Ok p' ∧ pub_ok p' ∧ mirrors p' v.
Proof.
  intros Hp Hm Hf Hr (Hgw & Hgh & Hg & Hpx). unfold pub_ok in Hp. rewrite Hf in Hp.
  destruct Hp as (Hfok & Hin & Hco & Hnr). destruct (frame_ok_dims f Hfok) as (_ & ? & ?).
  unfold mark. cbn [set_frame in_progress].
  destruct (add_ok (f_width f) (f_height f) (in_progress p) r) as (d & Hadd & Hd & Hcov);
    [lia|lia|done|by left|].
  destruct r as [rx ry rw rh]. simpl. rewrite Hadd. cbn [region_op rbind].
  eexists. split; [done|]. split.
  - unfold pub_ok. cbn [frame set_frame in_progress committed ready requires_full].
    by rewrite Hgw, Hgh.
  - intros f' Hf' Hnf. cbn [frame set_frame in_progress committed requires_full] in *.
    injection Hf' as <-. destruct (Hm f Hf Hnf) as (v' & -> & Hv' & Hw' & Hh' & Hpx').
    exists v'. split; [done|]. split; [done|]. rewrite Hgw, Hgh. split; [done|]. split; [done|].
    intros px py c Hv Hn1 Hn2.
    rewrite Hpx' by (done || intros Hc; apply Hn2, Hcov, covers_cons; auto).
    rewrite Hpx; [done..|]. intros Hi. apply Hn2, Hcov, covers_cons. auto.
Qed.

Lemma set_resolution_ok p v w h :
  pub_ok p → mirrors p v → u16 w → u16 h →
  (∃ e, set_resolution p w h = Err e) ∨
  (∃ p', set_resolution p w h = Ok p' ∧ pub_ok p' ∧ mirrors p' v).
Proof.
  intros Hp Hm [Hw _] [Hh _]. unfold set_resolution. case_match; [right; eauto|].
  destruct (frame_new w h) as [f|e|] eqn:Hn; cbn [rbind]; [|eauto|].
  - right. eexists. split; [done|]. apply frame_new_ok in Hn as (Hf & <- & <-); [|done..].
    split; [|by intros ? _ [=]]. unfold pub_ok. simpl. split; [done|].
    split; [apply region_default_ok|]. split; [apply region_default_ok|done].
  - unfold frame_new, frame_len in Hn. by destruct (_ || _).
Qed.

(** Publishing a pending update: the events are accepted and show exactly the
    surface, provided no later update is being received. *)
Lemma publish_ok {S} `{FrameSink S} p s now f :
  pub_ok p → alive s → mirrors p (shown s) → frame p = Some f → ready p = true →
  rects (in_progress p) = [] →
  ∃ evs, publish p now =
      Ok (mkPublisher (Some f) (in_progress p) region_default false false (Some now), evs) ∧
    alive (fold_left deliver evs s) ∧ shown (fold_left deliver evs s) = Some f.
Proof.
  intros Hp Ha Hm Hf Hr Hin. unfold pub_ok in Hp. rewrite Hf in Hp.
  destruct Hp as (Hfok & Hip & Hco & _). unfold publish, has_pending.
  rewrite Hr, Hf. cbn [andb bool_decide decide_rel]. rewrite bool_decide_eq_true_2 by done.
  cbn [negb ok_or rbind]. destruct (requires_full p) eqn:Hfull; cbn [orb rbind].
  { eexists. split; [done|]. simpl. by apply deliver_frame. }
  destruct (_ <=? _); cbn [rbind].
  { eexists. split; [done|]. simpl. by apply deliver_frame. }
  destruct (Hm f Hf Hfull) as (g & Hg & Hgok & Hgw & Hgh & Hpx).
  destruct Hco as [[Hrin Hsep] H16].
  destruct (patch_overlays f g (committed p)) as (pt & g' & Hex & Hfst & Hap & Hov); [done..|].
  rewrite Hex. cbn [rok_map rbind]. eexists. split; [done|]. simpl.
  assert (g' = f) as ->.
  { destruct Hov as (Hw' & Hh' & Hok' & Hb). apply frame_ext; [done..|]. intros px py c Hv.
    destruct (Hb px py c Hv) as [H1 H2].
    destruct (decide ((px, py) ∈ region_pixels (rects (committed p)))) as [Hc|Hc];
      rewrite elem_of_region_pixels in Hc; [by apply H1|]. rewrite H2 by done.
    apply Hpx; [done..|]. rewrite Hin. intros (? & ? & _). set_solver. }
  destruct (frame_ok_dims f Hfok) as (_ & ? & ?).
  apply (deliver_patch s g); [done..| |done].
  apply (Forall_map fst (λ r, u16_rect r)). rewrite Hfst.
  eapply Forall_impl; [exact Hrin|]. intros r Hr'. unfold rect_in, u16_rect, u16 in *. lia.
Qed.

(** ** Cursors *)

(** Whether the mask of a [w]-pixel wide cursor shows pixel [(qx, qy)]. *)
Definition mask_bit (w : Z) (mask : list Z) (qx qy : Z) : bool :=
  match zget mask (qy * ((w + 7) / 8) + qx / 8) with
  | Some m => negb (Z.land m (Z.shiftr 128 (qx mod 8)) =? 0)
  | None => false
  end.

(** Byte [c] of pixel [(qx, qy)] of a cursor: the source's colour, opaque, where
    the mask shows it, and zero elsewhere. *)
Definition cursor_byte (w : Z) (pixels mask : list Z) (qx qy c : Z) : option Z :=
  if mask_bit w mask qx qy
  then if c =? 3 then Some 255 else zget pixels ((qy * w + qx) * 4 + c)
  else Some 0.

Lemma rmap_total {E A B} (f : A → rres E B) (g : A → B) l :
  (∀ x, x ∈ l → f x = Ok (g x)) → rmap f l = Ok (map g l).
Proof.
  intros Hf. induction l as [|x l IH]; simpl; [done|].
  rewrite Hf, IH by set_solver. done.
Qed.

Lemma elem_of_enumerate {A} (l : list A) i x : (i, x) ∈ enumerate l → l !! i = Some x.
Proof.
  unfold enumerate. intros (j & y & [= <- <-] & Hj)%elem_of_lookup_imap. done.
Qed.

(** The value of one row, for a mask row and a pixel row of the right size. *)
Definition row_value (mask_bits source_row : list Z) : list (list Z * bool) :=
  map (λ '(x, source),
    if negb (Z.land (default 0 (mask_bits !! (x / 8)%nat)) (Z.shiftr 128 (Z.of_nat (x mod 8))) =? 0)
    then (take 3 source ++ [255], true) else ([0; 0; 0; 0], false))
    (enumerate (chunks_exact 4 source_row)).

Lemma cursor_row_ok w mask y row :
  0 < w → length row = (Z.to_nat w * 4)%nat → 0 ≤ y → (y + 1) * ((w + 7) / 8) ≤ zlen mask →
  let bits := take (Z.to_nat ((w + 7) / 8)) (drop (Z.to_nat (y * ((w + 7) / 8))) mask) in
  cursor_row mask ((w + 7) / 8) (Z.to_nat y, row) =
    Ok (concat (map fst (row_value bits row)), existsb snd (row_value bits row)).
Proof.
  intros Hw Hrow Hy Hm bits. unfold cursor_row. rewrite Z2Nat.id by lia.
  assert (Hd : 0 < (w + 7) / 8) by (apply Z.div_str_pos; lia).
  unfold slice. rewrite !(proj2 (Z.leb_le _ _)) by nia. cbn [andb rbind].
  replace ((y + 1) * ((w + 7) / 8) - y * ((w + 7) / 8)) with ((w + 7) / 8) by lia. fold bits.
  assert (Hbl : length bits = Z.to_nat ((w + 7) / 8)).
  { unfold bits, zlen in *. rewrite length_take, length_drop. nia. }
  rewrite (rmap_total _ (λ '(x, source),
    if negb (Z.land (default 0 (bits !! (x / 8)%nat)) (Z.shiftr 128 (Z.of_nat (x mod 8))) =? 0)
    then (take 3 source ++ [255], true) else ([0; 0; 0; 0], false))); [done|].
  intros [x source] Hx%elem_of_enumerate%lookup_lt_Some.
  destruct (chunks_exact_spec 4 row (Z.to_nat w)) as [Hcl _]; [lia|done|]. rewrite Hcl in Hx.
  assert (Hb : (x / 8 < length bits)%nat).
  { rewrite Hbl. apply Nat.Div0.div_lt_upper_bound.
    pose proof (Z.div_mod (w + 7) 8). pose proof (Z.mod_pos_bound (w + 7) 8). lia. }
  apply lookup_lt_is_Some in Hb as [m Hmx]. unfold cursor_pixel, index. by rewrite Hmx.
Qed.

Lemma row_value_blocks bits row w :
  length row = (w * 4)%nat →
  Forall (λ b, length b = 4%nat) (map fst (row_value bits row)) ∧
  length (row_value bits row) = w.
Proof.
  intros Hrow. destruct (chunks_exact_spec 4 row w) as [Hcl _]; [lia|done|].
  unfold row_value, enumerate. rewrite length_map, length_imap, Hcl. split; [|done].
  rewrite map_map. apply Forall_map, Forall_forall. intros [x source] Hx%elem_of_enumerate.
  pose proof (chunks_exact_all 4 row w ltac:(lia) Hrow) as Hall. rewrite Forall_lookup in Hall.
  apply Hall in Hx. simpl in Hx. simpl. case_match; simpl; [|done]. rewrite length_app, length_take, Hx. done.
Qed.

Lemma row_value_byte w mask row y q c :
  0 < w → length row = (Z.to_nat w * 4)%nat → 0 ≤ y → (y + 1) * ((w + 7) / 8) ≤ zlen mask →
  0 ≤ q < w → 0 ≤ c < 4 →
  let bits := take (Z.to_nat ((w + 7) / 8)) (drop (Z.to_nat (y * ((w + 7) / 8))) mask) in
  zget (concat (map fst (row_value bits row))) (q * 4 + c) =
    if mask_bit w mask q y then if c =? 3 then Some 255 else zget row (q * 4 + c) else Some 0.
Proof.
  intros Hw Hrow Hy Hm Hq Hc bits.
  destruct (row_value_blocks bits row (Z.to_nat w) Hrow) as [Hall _].
  rewrite (zget_concat_blocks 4) by (done || lia).
  destruct (chunks_exact_spec 4 row (Z.to_nat w)) as [Hcl Hlk]; [lia|done|].
  unfold row_value, enumerate. rewrite map_map.
  change (@map (nat * list Z) (list Z)) with (fmap (M := list) (A := nat * list Z) (B := list Z)).
  rewrite list_lookup_fmap, list_lookup_imap, Hlk by lia.
  cbn -[Nat.div Nat.modulo Z.land Z.shiftr zget take].
  assert (Hd : 0 < (w + 7) / 8) by (apply Z.div_str_pos; lia).
  assert (Hq8 : 0 ≤ q / 8 < (w + 7) / 8).
  { split; [apply Z.div_pos; lia|]. apply Z.div_lt_upper_bound; [lia|].
    pose proof (Z.div_mod (w + 7) 8). pose proof (Z.mod_pos_bound (w + 7) 8). lia. }
  assert (Hbits : bits !! (Z.to_nat q / 8)%nat = zget mask (y * ((w + 7) / 8) + q / 8)).
  { unfold bits. rewrite <- (Z2Nat.id (y * ((w + 7) / 8))) by nia.
    rewrite <- (zget_take_drop mask _ (Z.to_nat ((w + 7) / 8))) by lia.
    rewrite Z2Nat.id by nia. unfold zget. rewrite (proj2 (Z.leb_le _ _)) by lia. f_equal.
    rewrite Z2Nat.inj_div by lia. done. }
  unfold mask_bit. rewrite Hbits.
  replace (Z.of_nat (Z.to_nat q mod 8)) with (q mod 8) by (rewrite Nat2Z.inj_mod, Z2Nat.id by lia; done).
  destruct (zget_is_Some mask (y * ((w + 7) / 8) + q / 8)) as [m ->]; [nia|].
  cbn [default from_option id]. destruct (negb _).
  - cbn [fst]. rewrite zget_app. assert (Hl3 : length (take 4 (drop (Z.to_nat q * 4) row)) = 4%nat)
      by (rewrite length_take, length_drop; lia).
    unfold zlen. rewrite length_take, Hl3. simpl Nat.min.
    destruct (Z.ltb_spec c (Z.of_nat 3)), (Z.eqb_spec c 3); try lia; [|by replace (c - Z.of_nat 3) with 0 by lia].
    rewrite take_take. simpl. rewrite zget_take_drop by lia. f_equal. lia.
  - assert (c = 0 ∨ c = 1 ∨ c = 2 ∨ c = 3) as [-> | [-> | [-> | ->]]] by lia; done.
Qed.

Lemma cursor_from_rfb_ok r bytes :
  u16_rect r →
  ∃ c, cursor_from_rfb r bytes = Ok c ∧ cursor_ok c ∧
    match c with
    | Bitmap b =>
        c_width b = r_width r ∧ c_height b = r_height r ∧
        ∀ qx qy k, in_frame (r_width r) (r_height r) qx qy k →
          zget (c_rgba b) (offset (r_width r) qx qy k) =
            cursor_byte (r_width r) (take (Z.to_nat (r_width r * r_height r * 4)) bytes)
              (drop (Z.to_nat (r_width r * r_height r * 4)) bytes) qx qy k
    | _ => True
    end.
Proof.
  intros ([? _] & [? _] & [? _] & [? _]). unfold cursor_from_rfb.
  destruct ((r_width r =? 0) || (r_height r =? 0)) eqn:E0; [by exists CursorHidden|].
  destruct ((_ <? r_width r) || (_ <? r_height r)) eqn:E1; [by exists CursorDefault|]. cbv zeta.
  destruct (negb (zlen bytes =? _)) eqn:E2; [by exists CursorDefault|]. bprop.
  set (w := r_width r) in *. set (h := r_height r) in *.
  set (pixels := take _ _). set (mask := drop _ _).
  assert (Hd : 0 < (w + 7) / 8) by (apply Z.div_str_pos; lia).
  assert (Hpl : length pixels = (Z.to_nat h * Z.to_nat (w * 4))%nat).
  { unfold pixels. rewrite length_take. unfold zlen in *. nia. }
  assert (Hml : zlen mask = h * ((w + 7) / 8)).
  { unfold mask, zlen in *. rewrite length_drop. nia. }
  destruct (chunks_exact_spec (Z.to_nat (w * 4)) pixels (Z.to_nat h)) as [Hcl Hck]; [lia|done|].
  pose proof (chunks_exact_all (Z.to_nat (w * 4)) pixels (Z.to_nat h) ltac:(lia) Hpl) as Hall.
  set (bits y := take (Z.to_nat ((w + 7) / 8)) (drop (Z.to_nat (Z.of_nat y * ((w + 7) / 8))) mask)).
  rewrite (rmap_total _ (λ '(y, row), (concat (map fst (row_value (bits y) row)),
    existsb snd (row_value (bits y) row)))); cycle 1.
  { intros [y row] Hy%elem_of_enumerate. pose proof (lookup_lt_Some _ _ _ Hy) as Hlt. rewrite Hcl in Hlt.
    rewrite Forall_lookup in Hall. apply Hall in Hy. rewrite <- (Nat2Z.id y) at 1.
    unfold bits. apply cursor_row_ok; [lia|lia|lia|]. rewrite Hml. nia. }
  cbn [rbind]. destruct (negb (existsb snd _)); [by exists CursorHidden|].
  set (out := concat _).
  assert (Hblocks : Forall (λ b, length b = Z.to_nat (w * 4))
    (map fst (map (λ '(y, row), (concat (map fst (row_value (bits y) row)),
      existsb snd (row_value (bits y) row))) (enumerate (chunks_exact (Z.to_nat (w * 4)) pixels))))).
  { rewrite map_map. apply Forall_map, Forall_forall. intros [y row] Hy%elem_of_enumerate. simpl.
    rewrite Forall_lookup in Hall. apply Hall in Hy.
    destruct (row_value_blocks (bits y) row (Z.to_nat w)) as [Hb4 Hbl]; [lia|].
    rewrite (length_concat_blocks 4), length_map, Hbl by done. lia. }
  assert (Hol : zlen out = w * h * 4).
  { unfold out, zlen. rewrite (length_concat_blocks _ _ Hblocks), !length_map. unfold enumerate.
    rewrite length_imap, Hcl. nia. }
  unfold cursor_bitmap_new. rewrite Hol.
  replace ((w =? 0) || (h =? 0) || (MAX_CURSOR_DIMENSION <? w) || (MAX_CURSOR_DIMENSION <? h)
    || negb (w * h * 4 =? w * h * 4)) with false
    by (rewrite Z.eqb_refl; symmetry; rewrite !orb_false_iff, !Z.eqb_neq, !Z.ltb_ge; tauto).
  eexists. split; [done|]. simpl. split; [rewrite Hol; lia|]. split; [done|]. split; [done|].
  intros qx qy k (Hqx & Hqy & Hk). unfold offset, out.
  replace ((qy * w + qx) * 4 + k) with (qy * Z.of_nat (Z.to_nat (w * 4)) + (qx * 4 + k)) by lia.
  rewrite (zget_concat_blocks (Z.to_nat (w * 4))) by (done || lia). rewrite map_map.
  change (@map (nat * list Z) (list Z)) with (fmap (M := list) (A := nat * list Z) (B := list Z)).
  unfold enumerate. rewrite list_lookup_fmap, list_lookup_imap, Hck by lia. simpl.
  unfold bits. rewrite Z2Nat.id by lia.
  rewrite (row_value_byte w mask); [|lia|rewrite length_take, length_drop, Hpl; nia|lia|rewrite Hml; nia|lia|lia].
  unfold cursor_byte. destruct (mask_bit w mask qx qy); [|done]. destruct (k =? 3); [done|].
  rewrite zget_take_drop by lia. f_equal. nia.
Qed.

(** ** The engine and its session *)

(** What drives the publisher: an event of the server, or the flush timer. *)
Inductive Action : Type :=
| Server (e : VncEvent) (now : Z)
| Timer (now : Z).

Definition action_typed (a : Action) : Prop :=
  match a with Server e _ => event_typed e | Timer _ => True end.

Section Session.
Context {S : Type} `{FrameSink S}.

(** One turn of the [select!] of [run_connected]: the timer arm is enabled
    when [flush_ready] holds and fires at [deadline]. *)
Definition engine_step (st : FramePublisher * S) (a : Action) : rres EngineError (FramePublisher * S) :=
  let '(p, s) := st in
  match a with
  | Server e now =>
      let? (p', evs) := handle_server_event e p now in
      Ok (p', fold_left deliver evs s)
  | Timer now =>
      if flush_ready p && (deadline p now <=? now) then
        let? (p', evs) := publish p now in
        Ok (p', fold_left deliver evs s)
      else Ok (p, s)
  end.

Definition engine_run (s : S) (acts : list Action) : rres EngineError (FramePublisher * S) :=
  rfold engine_step (publisher_default, s) acts.

Definition engine_inv (st : FramePublisher * S) : Prop :=
  pub_ok st.1 ∧ alive st.2 ∧ mirrors st.1 (shown st.2).

(** The result of a step: a state with the invariant, or an error of the
    session; never a panic. *)
Definition step_ok (r : rres EngineError (FramePublisher * S)) : Prop :=
  match r with Ok st => engine_inv st | Err _ => True | Panic => False end.

(** The state after a publication. *)
Lemma published_inv f ip s now :
  frame_ok f → rects ip = [] → alive s → shown s = Some f →
  engine_inv (mkPublisher (Some f) ip region_default false false (Some now), s).
Proof.
  intros Hf Hip Ha Hs. destruct ip as [rs]. simpl in Hip. subst rs.
  split; [|split; [done|]].
  - unfold pub_ok. simpl. repeat split; try done; try apply Hf; constructor.
  - intros f' [= <-] _. exists f. repeat split; try done; apply Hf.
Qed.

(** The timer of a pending update, once due, shows the surface. *)
Lemma timer_outcome p s f t :
  engine_inv (p, s) → frame p = Some f → ready p = true → rects (in_progress p) = [] →
  deadline p t ≤ t →
  ∃ p' s', engine_step (p, s) (Timer t) = Ok (p', s') ∧ alive s' ∧ shown s' = Some f.
Proof.
  intros (Hp & Ha & Hm) Hf Hr Hin Hd. cbn [engine_step fst snd] in *.
  unfold flush_ready, has_pending, region_is_empty. rewrite Hr, Hf, Hin.
  rewrite bool_decide_eq_true_2, (proj2 (Z.leb_le _ _)) by done. cbn [andb].
  destruct (publish_ok p s t f) as (evs & -> & ? & ?); [done..|]. cbn [rbind]. eauto.
Qed.

Lemma timer_ok p s now : engine_inv (p, s) → step_ok (engine_step (p, s) (Timer now)).
Proof.
  intros (Hp & Ha & Hm). cbn [engine_step fst snd] in *.
  destruct (flush_ready p && _) eqn:Ef; [|by repeat split].
  bprop. unfold flush_ready, has_pending in *. bprop. destruct H4 as [f Hf].
  assert (Hin : rects (in_progress p) = []) by (unfold region_is_empty in *; by destruct (rects _)).
  destruct (publish_ok p s now f) as (evs & -> & Ha' & Hs'); [done..|]. cbn [rbind step_ok].
  apply published_inv; try done. unfold pub_ok in Hp. rewrite Hf in Hp. apply Hp.
Qed.

(** A state with nothing left to publish shows the surface. *)
Lemma quiet_shown p s f :
  engine_inv (p, s) → frame p = Some f → ready p = false → requires_full p = false →
  rects (in_progress p) = [] → shown s = Some f.
Proof.
  intros (Hp & Ha & Hm) Hf Hr Hrf Hip. unfold pub_ok in Hp. simpl in *. rewrite Hf in Hp.
  destruct Hp as (Hfok & _ & _ & Hc). destruct (Hm f Hf Hrf) as (g & -> & Hg & Hgw & Hgh & Hpx).
  f_equal. apply frame_ext; [done..|]. intros px py c Hv.
  apply Hpx; [done|..]; rewrite ?Hc, ?Hip by done; intros (? & ? & _); set_solver.
Qed.

(** Completing an update with a surface: it is shown at once, or waits for the
    interval to end. *)
Lemma complete_outcome p s now f :
  engine_inv (p, s) → frame p = Some f →
  ∃ p' s', engine_step (p, s) (Server FramebufferUpdateComplete now) = Ok (p', s') ∧
    engine_inv (p', s') ∧ frame p' = Some f ∧ in_progress p' = region_default ∧
    (shown s' = Some f ∨
     ready p' = true ∧ ∃ last, last_publish p' = Some last ∧ last_publish p = Some last ∧
       now < last + PUBLISH_INTERVAL).
Proof.
  intros (Hp & Ha & Hm) Hf. cbn [engine_step handle_server_event fst snd] in *. unfold complete.
  pose proof Hp as Hp'. unfold pub_ok in Hp'. rewrite Hf in Hp' |- *. destruct Hp' as (Hfok & Hip & Hc & Hnr).
  destruct (frame_ok_dims f Hfok) as (_ & ? & ?).
  destruct (extend_ok (f_width f) (f_height f) (committed p) (in_progress p)) as (c & -> & Hcok & Hcov);
    [lia|lia|done| |].
  { destruct Hip as [[Hin _] _]. eapply Forall_impl; [exact Hin|]. by left. }
  cbn [region_op rbind]. rewrite bool_decide_eq_true_2 by done. cbn [andb].
  set (p' := mkPublisher (Some f) region_default c (requires_full p)
    (requires_full p || negb (region_is_empty c)) (last_publish p)).
  assert (Hinv : engine_inv (p', s)).
  { split; [|split; [done|]].
    - unfold pub_ok. simpl. split; [done|]. split; [apply region_default_ok|]. split; [done|].
      intros Hr Hrf. rewrite Hrf in Hr. simpl in Hr. unfold region_is_empty in Hr. by destruct (rects c).
    - intros f' [= <-] Hrf. simpl in Hrf. cbn [snd]. destruct (Hm f Hf Hrf) as (g & -> & Hg & Hgw & Hgh & Hpx).
      exists g. repeat split; try done; try apply Hg. intros px py k Hv Hn _.
      simpl in Hn. apply Hpx; [done|intros ?; apply Hn, Hcov; auto..]. }
  destruct (ready p') eqn:Hrd; cycle 1.
  { exists p', s. assert (Hq : requires_full p' = false).
    { simpl in Hrd |- *. by apply orb_false_iff in Hrd as [-> _]. }
    split; [|by repeat split; [apply Hinv..|left; eapply quiet_shown]].
    destruct (match last_publish p with Some _ => _ | None => _ end); [|done].
    unfold publish, has_pending. rewrite Hrd. done. }
  destruct (match last_publish p with Some _ => _ | None => _ end) eqn:Hnow.
  - pose proof Hinv as (? & ? & ?).
    destruct (publish_ok p' s now f) as (evs & -> & Ha' & Hs'); [done..|]. cbn [rbind].
    eexists _, _. split; [done|]. split; [by apply published_inv|]. auto.
  - exists p', s. split; [done|]. split; [done|]. split; [done|]. split; [done|]. right.
    split; [done|]. destruct (last_publish p) as [last|] eqn:Hl; [|done]. bprop. exists last. by cbn.
Qed.

Lemma complete_ok p s now :
  engine_inv (p, s) → step_ok (engine_step (p, s) (Server FramebufferUpdateComplete now)).
Proof.
  intros Hi. destruct (frame p) as [f|] eqn:Hf.
  { by destruct (complete_outcome p s now f Hi Hf) as (p' & s' & -> & ? & _). }
  destruct Hi as (Hp & Ha & Hm). cbn [engine_step handle_server_event fst snd] in *. unfold complete.
  unfold pub_ok in Hp. rewrite Hf in Hp |- *. destruct Hp as (Hip & Hc & Hrf & Hrd).
  rewrite Hip, Hc. cbn.
  assert (engine_inv (mkPublisher None region_default region_default (requires_full p) false (last_publish p), s)).
  { split; [|split; [done|intros f' [=]]]. unfold pub_ok. simpl. by rewrite Hrf. }
  destruct (match last_publish p with Some _ => _ | None => _ end); [|done].
  unfold publish. cbn. done.
Qed.

Lemma draw_ok p s f g r :
  engine_inv (p, s) → frame p = Some f → rect_in (f_width f) (f_height f) r → changed_only f g r →
  step_ok (let? (p', evs) := (let? p1 := mark (set_frame p g) r in Ok (p1, [])) in
           Ok (p', fold_left deliver evs s)).
Proof.
  intros (Hp & Ha & Hm) Hf Hr Hg. destruct (mark_ok p (shown s) f g r) as (p' & -> & ? & ?); [done..|].
  cbn. done.
Qed.

Lemma other_ok p s e :
  engine_inv (p, s) → (∀ f, e ≠ Frame f) → (∀ pt, e ≠ FramePatchEvent pt) →
  (∀ c, e = Cursor c → cursor_ok c) → engine_inv (p, deliver s e).
Proof.
  intros (Hp & Ha & Hm) H1 H2 H3. destruct (deliver_other s e Ha H1 H2 H3) as [Ha' Hs'].
  split; [done|]. split; [done|]. simpl in *. by rewrite Hs'.
Qed.

Lemma engine_step_ok st a : engine_inv st → action_typed a → step_ok (engine_step st a).
Proof.
  destruct st as [p s]. intros Hi Ht. destruct a as [e now|now]; [|by apply timer_ok].
  pose proof Hi as (Hp & Ha & Hm). cbn [fst snd] in *.
  destruct e; cbn [engine_step handle_server_event action_typed event_typed] in *.
  - destruct Ht. destruct (set_resolution_ok p (shown s) width height) as [[e ->]|(p' & -> & ? & ?)]; done.
  - destruct (frame_len _ _) as [n|e|] eqn:Hl; cbn [rbind]; [|done|by unfold frame_len in Hl; case_match].
    destruct (negb _); [done|]. unfold frame_mut. destruct (frame p) as [f|] eqn:Hf; [|done]. cbn [ok_or rbind].
    unfold pub_ok in Hp. rewrite Hf in Hp. destruct Hp as [Hfok _]. destruct (frame_ok_dims f Hfok) as (_ & ? & ?).
    pose proof (write_rect_result f r (opaque bytes) ltac:(unfold u16; lia) ltac:(unfold u16; lia) Ht) as Hres.
    destruct (write_rect f _ _ _ _ _) as [g|e|] eqn:Hw; cbn [rbind]; [|done..].
    apply write_rect_inv in Hw as [Hin Hch]; [|done..]. by eapply draw_ok.
  - unfold frame_mut. destruct (frame p) as [f|] eqn:Hf; [|done]. cbn [ok_or rbind].
    unfold pub_ok in Hp. rewrite Hf in Hp. destruct Hp as [Hfok _]. destruct (frame_ok_dims f Hfok) as (_ & ? & ?).
    destruct Ht as [Hd (Hsx & Hsy & _)].
    pose proof (copy_rect_result f (r_x source) (r_y source) destination
      ltac:(unfold u16; lia) ltac:(unfold u16; lia) Hd Hsx Hsy) as Hres.
    destruct (copy_rect f _ _ _ _ _ _) as [g|e|] eqn:Hw; cbn [rbind]; [|done..].
    apply copy_rect_inv in Hw as [Hin Hch]; [|done..]. by eapply draw_ok.
  - unfold frame_mut. destruct (frame p) as [f|] eqn:Hf; [|done]. cbn [ok_or rbind].
    unfold pub_ok in Hp. rewrite Hf in Hp. destruct Hp as [Hfok _].
    destruct (write_jpeg_cases f r bytes Hfok Ht) as [[e ->]|(g & ? & ? & ? & -> & Hin & _ & _ & Hrep)]; [done|].
    cbn [rbind]. eapply draw_ok; [done..|]. by eapply replaced_changed_only.
  - by apply complete_ok.
  - destruct (cursor_from_rfb_ok r bytes Ht) as (c & -> & Hc & _). cbn.
    apply other_ok; [done..|]. by intros c' [= <-].
  - cbn. by apply other_ok.
  - done.
  - done.
  - done.
Qed.

Lemma engine_run_ok s acts :
  alive s → Forall action_typed acts → step_ok (engine_run s acts).
Proof.
  intros Ha Hacts. unfold engine_run.
  assert (Hinv : engine_inv (publisher_default, s)) by (repeat split; try done).
  revert Hinv. generalize (publisher_default, s). induction Hacts as [|a acts Hat _ IH]; intros st Hi; [done|].
  cbn [rfold]. pose proof (engine_step_ok st a Hi Hat) as Hs.
  destruct (engine_step st a) as [st'|e|]; cbn [rbind]; [by apply IH|done|done].
Qed.

End Session.
End Engine.

(** ** What the peer holds pressed *)

(** The keys and buttons the server believes are down. *)
Record Peer := mkPeer { held : gset Z; buttons : Z }.

Definition peer_released : Peer := mkPeer ∅ 0.

Definition peer_event (pr : Peer) (e : X11Event) : Peer :=
  match e with
  | KeyEvent k true => mkPeer ({[k]} ∪ held pr) (buttons pr)
  | KeyEvent k false => mkPeer (held pr ∖ {[k]}) (buttons pr)
  | PointerEvent _ _ b => mkPeer (held pr) b
  | CopyText _ => pr
  end.

Definition peer_events (pr : Peer) (evs : list X11Event) : Peer := fold_left peer_event evs pr.

(** The engine knows everything the peer may hold. *)
Definition tracked (s : InputState) (pr : Peer) : Prop :=
  (∀ k, k ∈ held pr → k ∈ pressed s) ∧ Z.ldiff (buttons pr) (pt_buttons (pointer s)) = 0.

(** What [run_connected] does with input: a command, or the release when the
    focus epoch changes or the session stops. *)
Inductive InputAction : Type :=
| Command (cmd : EngineCommand) (first second : ControlView) (o : Outcome) (d : Delivery)
| Release (reached : bool).

Definition input_step (clipboard_enabled : bool) (st : InputState * Peer) (a : InputAction)
  : InputState * Peer :=
  let '(s, pr) := st in
  match a with
  | Command cmd first second o d =>
      let '(s', evs, _) := handle_command s cmd first second clipboard_enabled o d in
      (s', peer_events pr evs)
  | Release reached =>
      let '(s', evs) := release_all s reached in (s', peer_events pr evs)
  end.

(** The releases of this run were written before their timeout. *)
Definition releases_reach (a : InputAction) : Prop :=
  match a with
  | Command _ _ _ (Stopped | FocusChanged) d => release_reached d = true
  | Command _ _ _ (Written _) _ => True
  | Release reached => reached = true
  end.

Lemma peer_events_app pr l1 l2 : peer_events pr (l1 ++ l2) = peer_events (peer_events pr l1) l2.
Proof. apply fold_left_app. Qed.

Lemma ldiff_0_iff a b : Z.ldiff a b = 0 ↔ ∀ n, 0 ≤ n → Z.testbit a n = true → Z.testbit b n = true.
Proof.
  split.
  - intros H n Hn Ha. assert (Hb : Z.testbit (Z.ldiff a b) n = false) by (rewrite H; apply Z.testbit_0_l).
    rewrite Z.ldiff_spec, Ha in Hb. by destruct (Z.testbit b n).
  - intros H. apply Z.bits_inj'. intros n Hn. rewrite Z.ldiff_spec, Z.testbit_0_l.
    destruct (Z.testbit a n) eqn:Ha; [|done]. by rewrite (H n Hn Ha).
Qed.

Lemma ldiff_0_lor a b c : Z.ldiff a b = 0 ∨ a = c → Z.ldiff a (Z.lor b c) = 0.
Proof.
  rewrite !ldiff_0_iff. intros Hac n Hn Ha. rewrite Z.lor_spec.
  destruct Hac as [Hab| ->]; [rewrite (Hab n Hn Ha)|rewrite Ha, orb_true_r]; done.
Qed.

(** A batch of releases empties the peer. *)
Lemma release_keys ks pr :
  peer_events pr (map (λ k, KeyEvent k false) ks) = mkPeer (held pr ∖ list_to_set ks) (buttons pr).
Proof.
  revert pr. induction ks as [|k ks IH]; intros [h b]; simpl.
  - by rewrite difference_empty_L.
  - unfold peer_events in *. simpl. rewrite IH. simpl. f_equal. set_solver.
Qed.

Lemma release_events_empty s pr : tracked s pr → peer_events pr (release_events s) = peer_released.
Proof.
  intros [Hk Hb]. unfold release_events. rewrite peer_events_app, release_keys.
  assert (held pr ∖ list_to_set (pressed s) = ∅) as -> by set_solver.
  destruct (Z.eqb_spec (pt_buttons (pointer s)) 0) as [Hz|Hz]; simpl; [|done].
  rewrite Hz, Z.ldiff_0_r in Hb. unfold peer_released, peer_events. simpl. by rewrite Hb.
Qed.

Lemma tracked_clear s : tracked (clear s) peer_released.
Proof. split; [set_solver|]. done. Qed.

(** A wheel batch leaves the keys, and either no button or those that were. *)
Lemma append_wheel_peer evs x y delta nb pb evs' pr :
  append_wheel evs x y delta nb pb = Ok evs' →
  held (peer_events pr evs') = held (peer_events pr evs) ∧
  (buttons (peer_events pr evs') = buttons (peer_events pr evs) ∨ buttons (peer_events pr evs') = 0).
Proof.
  unfold append_wheel. case_match; [done|]. intros [= <-]. rewrite peer_events_app.
  set (pr' := peer_events pr evs). generalize (if delta <? 0 then nb else pb). intros b.
  generalize (Z.to_nat (Z.abs delta)). intros n. generalize pr'. clear.
  induction n as [|n IH]; intros pr; simpl; [auto|]. unfold peer_events in *. simpl.
  destruct (IH (mkPeer (held pr) 0)) as [-> [-> | ->]]; auto.
Qed.

Lemma type_text_peer text pr :
  let pr' := peer_events pr (concat (map (λ c,
    [KeyEvent (unicode_keysym c) true; KeyEvent (unicode_keysym c) false]) text)) in
  held pr' ⊆ held pr ∧ buttons pr' = buttons pr.
Proof.
  revert pr. induction text as [|c text IH]; intros pr; simpl; [done|].
  unfold peer_events in *. simpl. destruct (IH (peer_event (peer_event pr (KeyEvent (unicode_keysym c) true))
    (KeyEvent (unicode_keysym c) false))) as [Hh Hb]. simpl in *. split; [|done].
  etransitivity; [exact Hh|]. set_solver.
Qed.

Lemma plan_grows s i ce pr : tracked s pr → tracked (plan s i ce).1 pr.
Proof.
  intros [Hk Hb]. destruct i; try done; simpl.
  - destruct down; [|done]. split; [|done]. intros k. simpl. rewrite elem_of_bset_insert. auto.
  - split; [done|]. simpl. apply ldiff_0_lor. auto.
Qed.

(** Planning covers the peer before the events and after them. *)
Lemma plan_tracked s i ce s1 planned pr :
  tracked s pr → plan s i ce = (s1, Ok planned) →
  tracked s1 pr ∧ tracked s1 (peer_events pr (events planned)).
Proof.
  intros [Hk Hb] Hp. destruct i; simpl in Hp.
  - injection Hp as <- <-. destruct down; simpl; repeat split; simpl; try done;
      intros k; rewrite ?elem_of_bset_insert; set_solver.
  - injection Hp as <- <-. repeat split; simpl; try done; apply ldiff_0_lor; auto.
  - injection Hp as <- Hp. rinv Hp. subst planned. cbn [events].
    destruct (append_wheel_peer _ _ _ _ _ _ _ pr E) as [Hh1 Hb1].
    destruct (append_wheel_peer _ _ _ _ _ _ _ pr E0) as [Hh2 Hb2]. unfold tracked. simpl.
    rewrite Hh2, Hh1. repeat split; try done.
    destruct Hb2 as [-> | ->]; [|done]. by destruct Hb1 as [-> | ->].
  - injection Hp as <- <-. cbn [events]. destruct (type_text_peer text pr) as [Hh Hb'].
    repeat split; try done; [set_solver|]. by rewrite Hb'.
  - injection Hp as <- Hp. rinv Hp. by subst planned.
  - done.
  - injection Hp as <- <-. cbn [events]. rewrite release_events_empty by done.
    by repeat split.
Qed.

Lemma settle_tracked s i ce s1 planned pr :
  tracked s pr → plan s i ce = (s1, Ok planned) →
  tracked (settle_success s1 i) (peer_events pr (events planned)).
Proof.
  intros Ht Hp. destruct (plan_tracked _ _ _ _ _ _ Ht Hp) as [_ Hafter].
  destruct i; simpl in Hp; try exact Hafter.
  - injection Hp as <- <-. destruct down; [exact Hafter|]. destruct Ht as [Hk Hb].
    split; [|done]. simpl. intros k'. rewrite elem_of_bset_remove. set_solver.
  - injection Hp as <- <-. destruct Ht as [Hk _]. split; [done|]. simpl. apply Z.ldiff_diag.
  - injection Hp as <- <-. cbn [events settle_success]. rewrite release_events_empty by done.
    apply tracked_clear.
Qed.

Lemma release_tracked s pr reached :
  tracked s pr → reached = true →
  peer_events pr (sent reached (release_events s)) = peer_released.
Proof. intros Ht ->. by apply release_events_empty. Qed.

Lemma input_step_tracked ce s pr a :
  tracked s pr → releases_reach a →
  let st := input_step ce (s, pr) a in tracked st.1 st.2.
Proof.
  intros Ht Hr. destruct a as [cmd c1 c2 o d|reached]; cbn [input_step].
  2: { unfold release_all. cbn [fst snd]. rewrite (release_tracked s pr reached Ht Hr). apply tracked_clear. }
  unfold handle_command. destruct (negb _ || _); [done|].
  destruct (input_validate (input cmd)); [|done|done].
  destruct (plan s (input cmd) ce) as [s1 [planned|e|]] eqn:Hp; cycle 1.
  1, 2: (apply (plan_grows _ (input cmd) ce) in Ht; by rewrite Hp in Ht).
  destruct (plan_tracked _ _ _ _ _ _ Ht Hp) as [Hbefore Hafter].
  assert (Hsent : tracked s1 (peer_events pr (sent (input_reached d) (events planned))))
    by (by destruct (input_reached d)).
  destruct (negb _ || _); [done|]. destruct o as [[e|]| |]; cbv zeta; cbn [fst snd].
  - exact Hsent.
  - by apply (settle_tracked s (input cmd) ce s1 planned).
  - unfold release_all. cbn [fst snd]. rewrite peer_events_app, (release_tracked s1) by done. apply tracked_clear.
  - unfold release_all. cbn [fst snd]. rewrite peer_events_app, (release_tracked s1) by done. apply tracked_clear.
Qed.

Lemma input_run_tracked ce acts st :
  tracked st.1 st.2 → Forall releases_reach acts →
  let st' := fold_left (input_step ce) acts st in tracked st'.1 st'.2.
Proof.
  intros Ht Ha. revert st Ht. induction Ha as [|a acts Hr _ IH]; intros [s pr] Ht; simpl; [done|].
  apply IH. by apply input_step_tracked.
Qed.

(** C21. Nothing stays pressed at the server. Over any sequence of input
    commands, with any acceptance, rejection, failure or interruption of each
    write, the engine keeps track of every key and button the server may
    hold; so the release on a focus change or a stop leaves the server with
    nothing held. *)
Theorem input_never_stuck ce acts :
  Forall releases_reach acts →
  let st := fold_left (input_step ce) acts (input_default, peer_released) in
  tracked st.1 st.2 ∧ (input_step ce st (Release true)).2 = peer_released.
Proof.
  intros Ha st. assert (Ht : tracked st.1 st.2).
  { apply input_run_tracked; [|done]. split; [set_solver|done]. }
  split; [done|]. destruct st as [s pr]. cbn. by apply release_events_empty.
Qed.

Definition open_control : ControlView := mkView (mkControl false 7) false.

Lemma input_never_stuck_witness :
  let acts := [Command (mkCommand (Key 30 97 true) (Some 7)) open_control open_control (Written None)
                 (mkDelivery true true);
               Command (mkCommand (Pointer 3 4 1) (Some 7)) open_control open_control (Written (Some VTimeout))
                 (mkDelivery true true)] in
  let st := fold_left (input_step true) acts (input_default, peer_released) in
  buttons st.2 = 1 ∧ (input_step true st (Release true)).2 = peer_released.
Proof.
  intros acts st. split; [done|].
  apply (input_never_stuck true acts). repeat (apply Forall_cons; split; [done|]). by apply Forall_nil.
Defined.

(** A command reaches the server only when both checks of the control
    channels accept it: the session is not stopping, the command carries the
    focus epoch of that moment, and no focus change is pending. A command
    refused by the first check does not change the input state. *)
Theorem stale_input_never_sent s cmd c1 c2 ce o d s' evs r :
  handle_command s cmd c1 c2 ce o d = (s', evs, r) →
  (evs ≠ [] ∨ r = Ok tt →
    stop (view c1) = false ∧ stop (view c2) = false ∧ changed c1 = false ∧ changed c2 = false ∧
    (cmd_focus_epoch cmd = Some (focus_epoch (view c1)) ∧
     cmd_focus_epoch cmd = Some (focus_epoch (view c2)) ∨ cmd_focus_epoch cmd = None)) ∧
  (accepts (view c1) cmd = false → s' = s ∧ r = Err (rejection_for c1)).
Proof.
  unfold handle_command. intros H. split.
  - intros Hs. destruct (negb (accepts (view c1) cmd) || changed c1) eqn:E1; [naive_solver|]. bprop.
    destruct (input_validate (input cmd)); [|naive_solver..].
    destruct (plan s (input cmd) ce) as [s1 [planned|e|]]; [|naive_solver..].
    destruct (negb (accepts (view c2) cmd) || changed c2) eqn:E2; [naive_solver|]. bprop.
    unfold accepts in *. bprop. repeat split; try done.
    destruct (cmd_focus_epoch cmd) as [ep|]; [left|by right]. bprop. by split; f_equal.
  - intros Ha. rewrite Ha in H. simpl in H. by injection H as <- <- <-.
Qed.

Lemma stale_input_never_sent_witness :
  let r := handle_command input_default (mkCommand (Key 30 97 true) (Some 6)) open_control open_control
    true (Written None) (mkDelivery true true) in
  r = (input_default, [], Err StaleInput) ∧ r.1.1 = input_default.
Proof.
  intros r. split; [done|].
  destruct (stale_input_never_sent input_default (mkCommand (Key 30 97 true) (Some 6)) open_control
    open_control true (Written None) (mkDelivery true true) input_default [] (Err StaleInput))
    as [_ H]; [done|]. exact (proj1 (H eq_refl)).
Defined.

End Vnc.
