(* ===== verification/DesktopSession.v ===== *)
(** * The desktop session and its views

    The display path of src-tauri/src/desktop_service: the projection a session
    keeps of the remote screen ([Session::event] in mod.rs), the delivery of
    frames to a web view ([frame_plan], [encode_frame_response] and
    [take_frame_update] in commands.rs), and the view that decodes and paints
    them (src/components/desktop/input.ts and NvxDesktopCanvas.vue). Locks and
    wake-ups are left out: each operation runs under the projection's lock. A
    sequence number is a u64 and wraps. *)

From S2P Require Import Prelude RustStr RustVec DesktopProtocol VncClient.

Module Session.
Import Desktop.

(** ** The projection *)

Inductive DesktopSessionState : Type :=
| Connecting | NeedsInteraction | Running | Disconnecting | Closed | Failed.

Inductive DesktopAudioState : Type :=
| ADisabled | AWaiting | AReady | AUnavailable | AUnsupported | AClosed.

(** The fields of the session summary that engine events read or change. *)
Record Summary := mkSummary {
  revision : Z;
  state : DesktopSessionState;
  phase : str;
  failure : option str;
  s_width : Z;
  s_height : Z;
  frame_sequence : Z;
  audio_state : DesktopAudioState;
  rdp_transport_actual : option RdpTransportActual;
  rdp_graphics_actual : option RdpGraphicsActual;
  clipboard_enabled : bool }.

Record Projection := mkProjection {
  summary : Summary;
  frame : option DesktopFrame;
  frame_base_sequence : Z;
  frame_dirty : DirtyRegion;
  frame_requires_full : bool;
  cursor_sequence : Z;
  cursor : DesktopCursor;
  clipboard : option str }.

(** A session: its projection and the values of its watch channels. *)
Record Session := mkSession {
  projection : Projection;
  stopping : bool;
  epoch : Z;
  changes : Z }.

Definition wrap64 (n : Z) : Z := n mod (u64_max + 1).

(** [WireSequence::new(revision.get() + 1)]. *)
Definition bump (s : Summary) : Summary :=
  mkSummary (wrap64 (revision s + 1)) (state s) (phase s) (failure s) (s_width s) (s_height s)
    (frame_sequence s) (audio_state s) (rdp_transport_actual s) (rdp_graphics_actual s)
    (clipboard_enabled s).

Definition set_summary (p : Projection) (s : Summary) : Projection :=
  mkProjection s (frame p) (frame_base_sequence p) (frame_dirty p) (frame_requires_full p)
    (cursor_sequence p) (cursor p) (clipboard p).

Definition set_projection (s : Session) (p : Projection) : Session :=
  mkSession p (stopping s) (epoch s) (changes s).

Definition release_display (p : Projection) : Projection :=
  mkProjection (summary p) None (frame_base_sequence p) region_default true
    (cursor_sequence p) CursorDefault (clipboard p).

Definition notify_change (s : Session) : Session :=
  mkSession (projection s) (stopping s) (epoch s) (wrap64 (changes s + 1)).

Definition request_stop (s : Session) : Session :=
  notify_change (mkSession (release_display (projection s)) true
    (Z.min u64_max (epoch s + 1)) (changes s)).

Definition fail_and_stop (s : Session) (why : str) : Session :=
  let p := projection s in
  let m := summary p in
  request_stop (set_projection s (set_summary p
    (mkSummary (revision m) (state m) (phase m) (Some why) (s_width m) (s_height m)
      (frame_sequence m) (audio_state m) (rdp_transport_actual m) (rdp_graphics_actual m)
      (clipboard_enabled m)))).

(** The summary after a published frame of the given size. *)
Definition next_frame (m : Summary) (width height : Z) : Summary :=
  mkSummary (revision m) (state m) (phase m) (failure m) width height
    (wrap64 (frame_sequence m + 1)) (audio_state m) (rdp_transport_actual m)
    (rdp_graphics_actual m) (clipboard_enabled m).

(** [Session::event]. The only step without a value in the source is the loop
    of [DirtyRegion::add]. *)
Definition event (s : Session) (e : EngineEvent) : rres Diverged Session :=
  if stopping s then Ok s
  else
    let p := projection s in
    let m := summary p in
    match e with
    | RdpTransport actual =>
        Ok (set_projection s (set_summary p (bump
          (mkSummary (revision m) (state m) (phase m) (failure m) (s_width m) (s_height m)
            (frame_sequence m) (audio_state m) (Some actual) (rdp_graphics_actual m)
            (clipboard_enabled m)))))
    | RdpGraphics actual =>
        if decide (rdp_graphics_actual m = Some actual) then Ok s
        else Ok (set_projection s (set_summary p (bump
          (mkSummary (revision m) (state m) (phase m) (failure m) (s_width m) (s_height m)
            (frame_sequence m) (audio_state m) (rdp_transport_actual m) (Some actual)
            (clipboard_enabled m)))))
    | AudioState a =>
        let mapped := match a with
                      | AudioWaiting => AWaiting
                      | AudioReady => AReady
                      | AudioUnavailable => AUnavailable
                      | AudioUnsupported => AUnsupported
                      end in
        Ok (set_projection s (set_summary p (bump
          (mkSummary (revision m) (state m) (phase m) (failure m) (s_width m) (s_height m)
            (frame_sequence m) mapped (rdp_transport_actual m) (rdp_graphics_actual m)
            (clipboard_enabled m)))))
    | Ready =>
        Ok (set_projection s (set_summary p (bump
          (mkSummary (revision m) Running (lit "running") (failure m) (s_width m) (s_height m)
            (frame_sequence m) (audio_state m) (rdp_transport_actual m) (rdp_graphics_actual m)
            (clipboard_enabled m)))))
    | Frame f =>
        if negb (bool_decide (rok (frame_len (f_width f) (f_height f)) = Some (zlen (rgba f))))
        then Ok (fail_and_stop s (lit "resourceLimit"))
        else Ok (notify_change (set_projection s
          (mkProjection (next_frame m (f_width f) (f_height f)) (Some f) (frame_base_sequence p)
            region_default true (cursor_sequence p) (cursor p) (clipboard p))))
    | FramePatchEvent patch =>
        match p_rects patch with
        | [] => Ok s
        | _ =>
            match (let? f := ok_or (frame p) Protocol in apply_patch f patch) with
            | Ok f =>
                let? dirty :=
                  if negb (frame_requires_full p)
                  then rfold (λ d '(r, _), add d r) (frame_dirty p) (p_rects patch)
                  else Ok (frame_dirty p) in
                Ok (notify_change (set_projection s
                  (mkProjection (next_frame m (s_width m) (s_height m)) (Some f)
                    (frame_base_sequence p) dirty (frame_requires_full p)
                    (cursor_sequence p) (cursor p) (clipboard p))))
            | Err _ => Ok (fail_and_stop s (lit "protocolError"))
            | Panic => Panic
            end
        end
    | Cursor c =>
        Ok (notify_change (set_projection s
          (mkProjection m (frame p) (frame_base_sequence p) (frame_dirty p) (frame_requires_full p)
            (Z.max 1 (wrap64 (cursor_sequence p + 1))) c (clipboard p))))
    | ClipboardEvent text =>
        if clipboard_enabled m && (str_len text <=? MAX_TEXT_BYTES)
        then Ok (set_projection s
          (mkProjection m (frame p) (frame_base_sequence p) (frame_dirty p) (frame_requires_full p)
            (cursor_sequence p) (cursor p) (Some text)))
        else Ok s
    end.

(** ** Delivery *)

Definition frame_plan (width height after base : Z) (dirty : DirtyRegion) (requires_full : bool)
  : Z * list DesktopRect :=
  let patch :=
    negb requires_full && (after =? base) && negb (after =? 0) && negb (region_is_empty dirty) &&
    (zlen (rects dirty) <=? MAX_DIRTY_RECTS) && region_fits dirty width height &&
    (region_area dirty * 2 <? width * height) in
  if patch then (after, rects dirty) else (0, [mkRect 0 0 width height]).

Definition FRAME_WIRE_VERSION : Z := 2.
Definition FRAME_FLAG_FRAME : Z := 1.
Definition FRAME_FLAG_CURSOR : Z := 2.

Definition u32_le (v : Z) : list Z := to_le_bytes 4 v.
Definition u64_le (v : Z) : list Z := to_le_bytes 8 v.

Definition encode_rect (r : DesktopRect) : list Z :=
  u32_le (r_x r) ++ u32_le (r_y r) ++ u32_le (r_width r) ++ u32_le (r_height r).

Definition encode_cursor (c : DesktopCursor) : list Z :=
  let '(kind, w, h, hx, hy) := match c with
    | CursorDefault => (0, 0, 0, 0, 0)
    | CursorHidden => (1, 0, 0, 0, 0)
    | Bitmap b => (2, c_width b, c_height b, hotspot_x b, hotspot_y b)
    end in
  u32_le kind ++ u32_le w ++ u32_le h ++ u32_le hx ++ u32_le hy.

Definition encode_frame_response (frame_seq cursor_seq : Z)
    (fr : option (DesktopFrame * Z * list DesktopRect)) (cur : option DesktopCursor)
  : rres EngineError (list Z) :=
  let flags := Z.lor (if fr then FRAME_FLAG_FRAME else 0) (if cur then FRAME_FLAG_CURSOR else 0) in
  let header := u32_le FRAME_WIRE_VERSION ++ u32_le flags ++ u64_le frame_seq ++ u64_le cursor_seq in
  let frame_header := match fr with
    | Some (f, base, rs) =>
        u64_le base ++ u32_le (f_width f) ++ u32_le (f_height f) ++ u32_le (zlen rs) ++
        concat (map encode_rect rs)
    | None => []
    end in
  let cursor_header := match cur with Some c => encode_cursor c | None => [] end in
  let? pixels := match fr with
    | Some (f, _, rs) => rmap (λ r, read_rect (rgba f) (f_width f) r) rs
    | None => Ok []
    end in
  let cursor_pixels := match cur with Some (Bitmap b) => c_rgba b | _ => [] end in
  Ok (header ++ frame_header ++ cursor_header ++ concat pixels ++ cursor_pixels).

(** The sequences a request carries. *)
Record FrameRequest := mkRequest { after_sequence : Z; after_cursor_sequence : Z }.

Definition take_frame_update (p : Projection) (request : FrameRequest)
  : rres EngineError (Projection * option (list Z)) :=
  let frame_seq := frame_sequence (summary p) in
  let after := after_sequence request in
  let send_frame := (after <? frame_seq) && bool_decide (is_Some (frame p)) in
  let send_cursor := after_cursor_sequence request <? cursor_sequence p in
  if negb send_frame && negb send_cursor then Ok (p, None)
  else
    let plan := match frame p, send_frame with
      | Some f, true =>
          Some (f, frame_plan (f_width f) (f_height f) after (frame_base_sequence p)
            (frame_dirty p) (frame_requires_full p))
      | _, _ => None
      end in
    let? bytes := encode_frame_response frame_seq (cursor_sequence p)
      (match plan with Some (f, (base, rs)) => Some (f, base, rs) | None => None end)
      (if send_cursor then Some (cursor p) else None) in
    Ok (match plan with
        | Some _ =>
            mkProjection (summary p) (frame p) frame_seq region_default false
              (cursor_sequence p) (cursor p) (clipboard p)
        | None => p
        end, Some bytes).

(** ** The view *)

Inductive ViewError : Type := InvalidFrame.

(** A decoded frame block: the rectangles with their pixels. *)
Record DecodedPatch := mkDecoded {
  d_base : Z; d_width : Z; d_height : Z; d_rects : list (DesktopRect * list Z) }.

Record DecodedFrame := mkDecodedFrame {
  d_frame_sequence : Z;
  d_cursor_sequence : Z;
  d_frame : option DecodedPatch;
  d_cursor : option DesktopCursor }.

(** [view.getUint32(offset, true)] and [getBigUint64]; a read past the end
    throws. *)
Definition get_uint (n : nat) (buf : list Z) (off : Z) : rres ViewError Z :=
  let? bytes := slice buf off (off + Z.of_nat n) in Ok (from_le_bytes bytes).

Definition get_uint32 := get_uint 4.
Definition get_uint64 := get_uint 8.

(** The loop over the rectangle headers: the rectangles, the next offset and
    the bytes of payload they announce. *)
Definition decode_rects (buf : list Z) (width height count off : Z)
  : rres ViewError (list DesktopRect * Z * Z) :=
  rfold (λ '(rs, off, payload) (_ : Z),
    let? x := get_uint32 buf off in
    let? y := get_uint32 buf (off + 4) in
    let? w := get_uint32 buf (off + 8) in
    let? h := get_uint32 buf (off + 12) in
    if (w =? 0) || (h =? 0) || (width <? x + w) || (height <? y + h) then Err InvalidFrame
    else Ok (rs ++ [mkRect x y w h], off + 16, payload + w * h * 4))
    ([], off, 0) (seqZ 0 count).

Definition decode_frame_header (buf : list Z) (frame_seq off : Z)
  : rres ViewError (Z * Z * Z * list DesktopRect * Z * Z) :=
  if zlen buf <? off + 20 then Err InvalidFrame
  else
    let? base := get_uint64 buf off in
    let? width := get_uint32 buf (off + 8) in
    let? height := get_uint32 buf (off + 12) in
    let? count := get_uint32 buf (off + 16) in
    let off := off + 20 in
    if (width =? 0) || (height =? 0) || (8192 <? width) || (8192 <? height) ||
       (16777216 <? width * height) || (count <? 1) || (16 <? count) || (frame_seq <=? base)
    then Err InvalidFrame
    else if zlen buf <? off + count * 16 then Err InvalidFrame
    else
      let? (rs, off, payload) := decode_rects buf width height count off in
      if (base =? 0) && negb (bool_decide (rs = [mkRect 0 0 width height])) then Err InvalidFrame
      else Ok (base, width, height, rs, off, payload).

Definition decode_cursor_header (buf : list Z) (off : Z)
  : rres ViewError (Z * Z * Z * Z * Z * Z) :=
  if zlen buf <? off + 20 then Err InvalidFrame
  else
    let? kind := get_uint32 buf off in
    let? width := get_uint32 buf (off + 4) in
    let? height := get_uint32 buf (off + 8) in
    let? hx := get_uint32 buf (off + 12) in
    let? hy := get_uint32 buf (off + 16) in
    if 2 <? kind then Err InvalidFrame
    else if kind =? 2 then
      if (width =? 0) || (height =? 0) || (384 <? width) || (384 <? height) ||
         (width <=? hx) || (height <=? hy) then Err InvalidFrame
      else Ok (kind, width, height, hx, hy, width * height * 4)
    else if negb (width =? 0) || negb (height =? 0) || negb (hx =? 0) || negb (hy =? 0)
    then Err InvalidFrame
    else Ok (kind, width, height, hx, hy, 0).

(** The pixels of each rectangle, one after the other. *)
Definition decode_pixels (buf : list Z) (rs : list DesktopRect) (off : Z)
  : rres ViewError (list (DesktopRect * list Z) * Z) :=
  rfold (λ '(out, off) r,
    let len := r_width r * r_height r * 4 in
    let? bytes := slice buf off (off + len) in
    Ok (out ++ [(r, bytes)], off + len)) ([], off) rs.

(** The blocks behind the 24 bytes of the header. *)
Definition decode_body (buf : list Z) (after flags frame_seq cursor_seq : Z)
  : rres ViewError (option DecodedFrame) :=
  let? (fh, off) :=
    if negb (Z.land flags 1 =? 0) then
      let? h := decode_frame_header buf frame_seq 24 in Ok (Some h, h.1.2)
    else Ok (None, 24) in
  let? (ch, off) :=
    if negb (Z.land flags 2 =? 0) then
      let? h := decode_cursor_header buf off in Ok (Some h, off + 20)
    else Ok (None, off) in
  let payload := (match fh with Some h => h.2 | None => 0 end) +
                 (match ch with Some h => h.2 | None => 0 end) in
  if negb (zlen buf =? off + payload) then Err InvalidFrame
  else
    let? (fr, off) := match fh with
      | Some (base, width, height, rs, _, _) =>
          let? (out, off) := decode_pixels buf rs off in
          Ok (if after <? frame_seq then Some (mkDecoded base width height out) else None, off)
      | None => Ok (None, off)
      end in
    let? cur := match ch with
      | Some (kind, width, height, hx, hy, _) =>
          if kind =? 2 then
            let? bytes := slice buf off (off + width * height * 4) in
            Ok (Some (Bitmap (mkBitmap width height hx hy bytes)))
          else Ok (Some (if kind =? 1 then CursorHidden else CursorDefault))
      | None => Ok None
      end in
    Ok (Some (mkDecodedFrame frame_seq cursor_seq fr cur)).

Definition decodeDesktopFrame (buf : list Z) (after : Z) : rres ViewError (option DecodedFrame) :=
  match buf with
  | [] => Ok None
  | _ =>
      if zlen buf <? 24 then Err InvalidFrame
      else
        let? version := get_uint32 buf 0 in
        let? flags := get_uint32 buf 4 in
        if negb (version =? 2) || negb (Z.ldiff flags 3 =? 0) then Err InvalidFrame
        else
          let? frame_seq := get_uint64 buf 8 in
          let? cursor_seq := get_uint64 buf 16 in
          decode_body buf after flags frame_seq cursor_seq
  end.

(** A view: the canvas it has painted and the sequences it holds. *)
Record View := mkView {
  canvas : DesktopFrame;
  v_after : Z;
  v_after_cursor : Z;
  v_cursor : DesktopCursor }.

(** Setting the size of a canvas clears it. *)
Definition resize_canvas (c : DesktopFrame) (width height : Z) : DesktopFrame :=
  if (f_width c =? width) && (f_height c =? height) then c
  else mkFrame width height (replicate (Z.to_nat (width * height * 4)) 0).

(** [putImageData] of an image inside the canvas. *)
Definition put_image (c : DesktopFrame) (r : DesktopRect) (bytes : list Z) : DesktopFrame :=
  match write_rect c (r_x r) (r_y r) (r_width r) (r_height r) bytes with
  | Ok c' => c'
  | _ => c
  end.

(** [paint]: the canvas, the sequence held, and whether it was painted. *)
Definition paint (c : DesktopFrame) (after : Z) (d : DecodedPatch) : DesktopFrame * Z * bool :=
  if negb (d_base d =? 0) &&
     (negb (d_base d =? after) || negb (f_width c =? d_width d) || negb (f_height c =? d_height d))
  then (c, 0, false)
  else
    (fold_left (λ c '(r, bytes), put_image c r bytes) (d_rects d)
       (resize_canvas c (d_width d) (d_height d)), after, true).

(** The part of [pull] after the response arrived. *)
Definition receive (v : View) (buf : list Z) : rres ViewError View :=
  let? decoded := decodeDesktopFrame buf (v_after v) in
  match decoded with
  | None => Ok v
  | Some d =>
      let '(c, after) := match d_frame d with
        | Some p => let '(c, after, painted) := paint (canvas v) (v_after v) p in
                    (c, if painted then d_frame_sequence d else after)
        | None => (canvas v, v_after v)
        end in
      let '(cur, after_cursor) := match d_cursor d with
        | Some cur => (cur, d_cursor_sequence d)
        | None => (v_cursor v, v_after_cursor v)
        end in
      Ok (mkView c after after_cursor cur)
  end.

Definition request_of (v : View) : FrameRequest := mkRequest (v_after v) (v_after_cursor v).

(** ** Reading an encoded buffer *)

(** The bytes [x] are at offset [off] of the buffer. *)
Definition at_off (buf : list Z) (off : Z) (x : list Z) : Prop :=
  ∃ pre post, buf = pre ++ x ++ post ∧ zlen pre = off.

Lemma at_off_self buf : at_off buf 0 buf.
Proof. exists [], []. rewrite app_nil_r. done. Qed.

Lemma at_off_app buf off x y :
  at_off buf off (x ++ y) → at_off buf off x ∧ at_off buf (off + zlen x) y.
Proof.
  intros (pre & post & -> & <-). split.
  - exists pre, (y ++ post). by rewrite <- app_assoc.
  - exists (pre ++ x), post. rewrite <- !app_assoc, zlen_app. done.
Qed.

Lemma at_off_bound buf off x : at_off buf off x → 0 ≤ off ∧ off + zlen x ≤ zlen buf.
Proof.
  intros (pre & post & -> & <-). rewrite !zlen_app.
  pose proof (zlen_nonneg pre). pose proof (zlen_nonneg post). lia.
Qed.

Lemma slice_at {E} buf off x n :
  at_off buf off x → n = off + zlen x → slice (E := E) buf off n = Ok x.
Proof.
  intros (pre & post & -> & <-) ->. unfold slice. rewrite !zlen_app.
  pose proof (zlen_nonneg pre). pose proof (zlen_nonneg x). pose proof (zlen_nonneg post).
  rewrite !(proj2 (Z.leb_le _ _)) by lia. cbn [andb]. f_equal.
  unfold zlen. rewrite Nat2Z.id, drop_app_length.
  replace (Z.to_nat (Z.of_nat (length pre) + Z.of_nat (length x) - Z.of_nat (length pre)))
    with (length x) by lia. apply take_app_length.
Qed.

Lemma get_uint_at n buf off v :
  at_off buf off (to_le_bytes n v) → 0 ≤ v < 256 ^ Z.of_nat n → get_uint n buf off = Ok v.
Proof.
  intros Ha Hv. unfold get_uint. rewrite (slice_at buf off (to_le_bytes n v)).
  - cbn [rbind]. by rewrite from_to_le_bytes.
  - done.
  - by rewrite zlen_to_le_bytes.
Qed.

Lemma get_uint32_at buf off v : at_off buf off (u32_le v) → 0 ≤ v ≤ u32_max → get_uint32 buf off = Ok v.
Proof. intros Ha Hv. apply get_uint_at; [done|]. unfold u32_max in Hv. simpl. lia. Qed.

Lemma get_uint64_at buf off v : at_off buf off (u64_le v) → 0 ≤ v ≤ u64_max → get_uint64 buf off = Ok v.
Proof. intros Ha Hv. apply get_uint_at; [done|]. unfold u64_max in Hv. simpl. lia. Qed.

Lemma zlen_u32_le v : zlen (u32_le v) = 4.
Proof. apply zlen_to_le_bytes. Qed.

Lemma zlen_u64_le v : zlen (u64_le v) = 8.
Proof. apply zlen_to_le_bytes. Qed.

Lemma zlen_encode_rect r : zlen (encode_rect r) = 16.
Proof. unfold encode_rect. rewrite !zlen_app, !zlen_u32_le. done. Qed.

Lemma zlen_encode_rects rs : zlen (concat (map encode_rect rs)) = zlen rs * 16.
Proof.
  induction rs as [|r rs IH]; [done|]. cbn [map concat]. rewrite zlen_app, zlen_cons, zlen_encode_rect, IH. lia.
Qed.

Lemma zlen_encode_cursor c : zlen (encode_cursor c) = 20.
Proof. by destruct c. Qed.

(** Splits what is known to be at an offset into its parts. *)
Ltac at_split :=
  repeat match goal with
  | Ha : at_off _ _ (_ ++ _) |- _ =>
      apply at_off_app in Ha;
      let H1 := fresh "Ha" in let H2 := fresh "Ha" in destruct Ha as [H1 H2]
  end; rewrite ?zlen_u32_le, ?zlen_u64_le in *.

(** Finds what is at an offset, up to arithmetic. *)
Ltac at_solve :=
  match goal with
  | |- at_off ?b ?o ?x =>
      match goal with H : at_off b ?o' x |- _ => replace o with o' by lia; exact H end
  end.

(** The payload of a list of rectangles. *)
Definition rects_payload (rs : list DesktopRect) : Z := foldr (λ r n, area r * 4 + n) 0 rs.

Lemma rects_payload_app rs1 rs2 : rects_payload (rs1 ++ rs2) = rects_payload rs1 + rects_payload rs2.
Proof. induction rs1 as [|r rs1 IH]; simpl; [done|]. rewrite IH. lia. Qed.

Lemma decode_rects_ok buf w h off rs :
  w ≤ u16_max → h ≤ u16_max → Forall (rect_in w h) rs →
  at_off buf off (concat (map encode_rect rs)) →
  decode_rects buf w h (zlen rs) off = Ok (rs, off + zlen rs * 16, rects_payload rs).
Proof.
  intros Hw Hh Hin Ha. unfold decode_rects.
  match goal with |- rfold ?G _ _ = _ => set (F := G) end.
  assert (Hgen : ∀ todo start done off payload,
    Forall (rect_in w h) todo → at_off buf off (concat (map encode_rect todo)) →
    rfold F (done, off, payload) (seqZ start (zlen todo)) =
      Ok (done ++ todo, off + zlen todo * 16, payload + rects_payload todo)).
  { induction todo as [|r todo IH]; intros start d o pl Ht Ho.
    - cbn. rewrite app_nil_r, !Z.add_0_r. done.
    - rewrite zlen_cons, seqZ_cons by (pose proof (zlen_nonneg todo); lia).
      replace (Z.pred (1 + zlen todo)) with (zlen todo) by lia. cbn [rfold].
      apply Forall_cons in Ht as [Hr Ht]. cbn [map concat] in Ho.
      apply at_off_app in Ho as [Hrect Ho]. rewrite zlen_encode_rect in Ho.
      unfold encode_rect in Hrect. at_split. unfold F at 1. unfold rect_in, u16_max in *.
      rewrite (get_uint32_at _ _ (r_x r)), (get_uint32_at _ _ (r_y r)), (get_uint32_at _ _ (r_width r)),
        (get_uint32_at _ _ (r_height r));
        [|first [at_solve | unfold u32_max; lia]..].
      cbn [rbind]. assert ((r_width r =? 0) || (r_height r =? 0) || (w <? r_x r + r_width r)
        || (h <? r_y r + r_height r) = false) as ->
        by (rewrite !orb_false_iff, !Z.eqb_neq, !Z.ltb_ge; lia).
      cbn [rbind]. rewrite (IH _ _ _ _ Ht Ho). destruct r as [x y rw rh]. simpl.
      rewrite <- app_assoc. cbn. unfold area. simpl. f_equal; f_equal; [f_equal|]; lia. }
  rewrite (Hgen rs 0 [] off 0 Hin Ha). done.
Qed.

Lemma decode_pixels_ok buf off es :
  Forall (λ e, zlen e.2 = r_width e.1 * r_height e.1 * 4) es →
  at_off buf off (concat (map snd es)) →
  decode_pixels buf (map fst es) off = Ok (es, off + rects_payload (map fst es)).
Proof.
  intros Hes Ha. unfold decode_pixels.
  match goal with |- rfold ?G _ _ = _ => set (F := G) end.
  assert (Hgen : ∀ todo d o, Forall (λ e, zlen e.2 = r_width e.1 * r_height e.1 * 4) todo →
    at_off buf o (concat (map snd todo)) →
    rfold F (d, o) (map fst todo) = Ok (d ++ todo, o + rects_payload (map fst todo))).
  { induction todo as [|[r bytes] todo IH]; intros d o Ht Ho; cbn [map rfold].
    - rewrite app_nil_r. cbn. by rewrite Z.add_0_r.
    - apply Forall_cons in Ht as [Hr Ht]. cbn [fst snd] in Hr. cbn [map concat snd] in Ho.
      apply at_off_app in Ho as [Hb Ho]. cbn [fst]. unfold F at 1. cbv zeta.
      rewrite (slice_at buf o bytes) by (done || lia). cbn [rbind].
      rewrite IH by (done || at_solve). rewrite <- app_assoc. f_equal. f_equal. unfold rects_payload, area. cbn [map fst foldr]. lia. }
  by rewrite (Hgen es [] off Hes Ha).
Qed.

(** The blocks [encode_frame_response] is called with. *)
Definition frame_block_ok (frame_seq : Z) (f : DesktopFrame) (base : Z) (rs : list DesktopRect) : Prop :=
  frame_ok f ∧ Forall (rect_in (f_width f) (f_height f)) rs ∧ 1 ≤ zlen rs ≤ MAX_DIRTY_RECTS ∧
  0 ≤ base < frame_seq ∧ (base = 0 → rs = [mkRect 0 0 (f_width f) (f_height f)]).

Lemma decode_frame_header_ok buf frame_seq f base rs :
  frame_block_ok frame_seq f base rs → frame_seq ≤ u64_max →
  at_off buf 24 (u64_le base ++ u32_le (f_width f) ++ u32_le (f_height f) ++ u32_le (zlen rs) ++
    concat (map encode_rect rs)) →
  decode_frame_header buf frame_seq 24 =
    Ok (base, f_width f, f_height f, rs, 44 + zlen rs * 16, rects_payload rs).
Proof.
  intros (Hf & Hin & Hn & Hb & Hfull) Hseq Ha. pose proof (at_off_bound _ _ _ Ha) as [_ Hlen].
  rewrite !zlen_app, zlen_u64_le, !zlen_u32_le, zlen_encode_rects in Hlen.
  pose proof Hf as (Hw0 & Hh0 & Hfl). apply frame_len_Ok in Hfl as (_ & Hw & Hh & Hpx); [|done..].
  unfold MAX_DIMENSION, MAX_PIXELS, MAX_DIRTY_RECTS in *. at_split. unfold decode_frame_header.
  rewrite (proj2 (Z.ltb_ge _ _)) by lia.
  rewrite (get_uint64_at _ _ base), (get_uint32_at _ _ (f_width f)), (get_uint32_at _ _ (f_height f)),
    (get_uint32_at _ _ (zlen rs)); [|first [at_solve | unfold u32_max; lia]..]. cbn [rbind].
  assert ((f_width f =? 0) || (f_height f =? 0) || (8192 <? f_width f) || (8192 <? f_height f) ||
    (16777216 <? f_width f * f_height f) || (zlen rs <? 1) || (16 <? zlen rs) || (frame_seq <=? base)
    = false) as -> by (rewrite !orb_false_iff, !Z.eqb_neq, !Z.ltb_ge, Z.leb_gt; lia).
  cbv zeta. rewrite (proj2 (Z.ltb_ge _ _)) by lia.
  rewrite decode_rects_ok by (done || at_solve || (unfold u16_max; lia)). cbn [rbind].
  destruct (Z.eqb_spec base 0) as [Hz|Hz]; cbn [andb]; [|done].
  rewrite bool_decide_eq_true_2 by auto. done.
Qed.

(** The fields of a cursor header. *)
Definition cursor_kind (c : DesktopCursor) : Z :=
  match c with CursorDefault => 0 | CursorHidden => 1 | Bitmap _ => 2 end.
Definition cursor_pixels (c : DesktopCursor) : list Z :=
  match c with Bitmap b => c_rgba b | _ => [] end.

Lemma decode_cursor_header_ok buf off c :
  Vnc.cursor_ok c → at_off buf off (encode_cursor c) →
  ∃ w h hx hy, decode_cursor_header buf off = Ok (cursor_kind c, w, h, hx, hy, zlen (cursor_pixels c)) ∧
    match c with
    | Bitmap b => w = c_width b ∧ h = c_height b ∧ hx = hotspot_x b ∧ hy = hotspot_y b ∧
        zlen (c_rgba b) = w * h * 4
    | _ => True
    end.
Proof.
  intros Hc Ha. pose proof (at_off_bound _ _ _ Ha) as [_ Hlen]. rewrite zlen_encode_cursor in Hlen.
  unfold decode_cursor_header. rewrite (proj2 (Z.ltb_ge _ _)) by lia.
  assert (Hread : ∀ k w h hx hy, encode_cursor c = u32_le k ++ u32_le w ++ u32_le h ++ u32_le hx ++ u32_le hy →
    0 ≤ k ≤ u32_max → 0 ≤ w ≤ u32_max → 0 ≤ h ≤ u32_max → 0 ≤ hx ≤ u32_max → 0 ≤ hy ≤ u32_max →
    get_uint32 buf off = Ok k ∧ get_uint32 buf (off + 4) = Ok w ∧ get_uint32 buf (off + 8) = Ok h ∧
    get_uint32 buf (off + 12) = Ok hx ∧ get_uint32 buf (off + 16) = Ok hy).
  { intros k w h hx hy He Hk Hw Hh Hhx Hhy. rewrite He in Ha. at_split.
    repeat split; apply get_uint32_at; (at_solve || done). }
  destruct c as [| |b]; cbn [cursor_kind cursor_pixels] in *.
  - destruct (Hread 0 0 0 0 0) as (-> & -> & -> & -> & ->); [done..|]. cbn. by eexists 0, 0, 0, 0.
  - destruct (Hread 1 0 0 0 0) as (-> & -> & -> & -> & ->); [done..|]. cbn. by eexists 0, 0, 0, 0.
  - cbn in Hc. destruct Hc as (Hw & Hh & Hhx & Hhy & Hl). unfold MAX_CURSOR_DIMENSION in *.
    destruct (Hread 2 (c_width b) (c_height b) (hotspot_x b) (hotspot_y b)) as (-> & -> & -> & -> & ->);
      [done|unfold u32_max; lia..|]. cbn [rbind]. eexists _, _, _, _. split; [|done].
    change (2 <? 2) with false. change (2 =? 2) with true. cbv iota.
    assert ((c_width b =? 0) || (c_height b =? 0) || (384 <? c_width b) || (384 <? c_height b) ||
      (c_width b <=? hotspot_x b) || (c_height b <=? hotspot_y b) = false) as ->
      by (rewrite !orb_false_iff, !Z.eqb_neq, !Z.ltb_ge, !Z.leb_gt; lia).
    by rewrite Hl.
Qed.

(** The pixels the encoder copies, as the decoder returns them. *)
Lemma read_rects_ok f rs :
  frame_ok f → Forall (rect_in (f_width f) (f_height f)) rs →
  ∃ es, rmap (λ r, read_rect (rgba f) (f_width f) r) rs = Ok (map snd es) ∧ map fst es = rs ∧
    Forall2 (λ r e, e.1 = r ∧ read_rect (rgba f) (f_width f) r = Ok e.2) rs es ∧
    Forall (λ e, zlen e.2 = r_width e.1 * r_height e.1 * 4) es ∧
    zlen (concat (map snd es)) = rects_payload rs.
Proof.
  intros Hf Hin. destruct (frame_ok_dims f Hf) as (Hlen & _ & _).
  induction Hin as [|r rs Hr _ (es & Hes & <- & H2 & Hall & Hz)]; [by exists []|].
  destruct (read_rect_ok (rgba f) (f_width f) (f_height f) r Hlen Hr) as (bytes & Hb & Hl & _).
  exists ((r, bytes) :: es). cbn [rmap map fst snd concat]. rewrite Hb, Hes. cbn [rbind].
  split; [done|]. split; [done|]. split; [by constructor|].
  split; [constructor; [cbn [fst snd]; lia|done]|]. rewrite zlen_app, Hz, Hl.
  change (rects_payload (r :: map fst es)) with (area r * 4 + rects_payload (map fst es)).
  unfold area. lia.
Qed.

Definition opt_frame_ok (fs : Z) (fr : option (DesktopFrame * Z * list DesktopRect)) : Prop :=
  match fr with Some (f, b, rs) => frame_block_ok fs f b rs | None => True end.
Definition opt_cursor_ok (cur : option DesktopCursor) : Prop :=
  match cur with Some c => Vnc.cursor_ok c | None => True end.

Lemma opt_pixels fs fr :
  opt_frame_ok fs fr →
  ∃ es, match fr with
        | Some (f, _, rs) => rmap (λ r, read_rect (rgba f) (f_width f) r) rs
        | None => Ok []
        end = @Ok EngineError _ (map snd es) ∧
    match fr with
    | Some (f, _, rs) => map fst es = rs ∧
        Forall2 (λ r e, e.1 = r ∧ read_rect (rgba f) (f_width f) r = Ok e.2) rs es
    | None => es = []
    end ∧
    Forall (λ e, zlen e.2 = r_width e.1 * r_height e.1 * 4) es ∧
    zlen (concat (map snd es)) = rects_payload (map fst es).
Proof.
  destruct fr as [[[f b] rs]|]; intros H; [|by exists []].
  destruct H as (Hf & Hin & _). destruct (read_rects_ok f rs Hf Hin) as (es & -> & Hfst & H2 & Ha & Hz).
  exists es. rewrite Hfst. auto.
Qed.

(** What a response carries, as a value. *)
Definition response_value (fs cs after : Z) (fr : option (DesktopFrame * Z * list DesktopRect))
    (es : list (DesktopRect * list Z)) (cur : option DesktopCursor) : DecodedFrame :=
  mkDecodedFrame fs cs
    match fr with
    | Some (f, b, _) => if after <? fs then Some (mkDecoded b (f_width f) (f_height f) es) else None
    | None => None
    end cur.

(** The three variable parts of a response. *)
Definition frame_header_bytes (fr : option (DesktopFrame * Z * list DesktopRect)) : list Z :=
  match fr with
  | Some (f, base, rs) =>
      u64_le base ++ u32_le (f_width f) ++ u32_le (f_height f) ++ u32_le (zlen rs) ++
      concat (map encode_rect rs)
  | None => []
  end.
Definition cursor_header_bytes (cur : option DesktopCursor) : list Z :=
  match cur with Some c => encode_cursor c | None => [] end.
Definition cursor_pixel_bytes (cur : option DesktopCursor) : list Z :=
  match cur with Some (Bitmap b) => c_rgba b | _ => [] end.

(** The frame block of a response, and what is known of it before its pixels. *)
Definition frame_head (fr : option (DesktopFrame * Z * list DesktopRect))
  : option (Z * Z * Z * list DesktopRect * Z * Z) :=
  match fr with
  | Some (f, b, rs) => Some (b, f_width f, f_height f, rs, 44 + zlen rs * 16, rects_payload rs)
  | None => None
  end.

Lemma decode_body_frame buf fs fr :
  fs ≤ u64_max → opt_frame_ok fs fr → at_off buf 24 (frame_header_bytes fr) →
  (if bool_decide (is_Some fr)
   then let? h := decode_frame_header buf fs 24 in Ok (Some h, h.1.2) else Ok (None, 24))
  = Ok (frame_head fr, 24 + zlen (frame_header_bytes fr)).
Proof.
  intros Hfs Hfr HaF. destruct fr as [[[f b] rs]|]; [|done]. rewrite bool_decide_eq_true_2 by done.
  rewrite (decode_frame_header_ok _ _ _ _ _ Hfr Hfs HaF).
  assert (zlen (frame_header_bytes (Some (f, b, rs))) = 20 + zlen rs * 16) as ->.
  { unfold frame_header_bytes. rewrite !zlen_app, zlen_u64_le, !zlen_u32_le, zlen_encode_rects. lia. }
  cbn [rbind fst snd frame_head]. by replace (24 + (20 + zlen rs * 16)) with (44 + zlen rs * 16) by lia.
Qed.

Lemma decode_body_cursor buf off cur :
  opt_cursor_ok cur → at_off buf off (cursor_header_bytes cur) →
  ∃ ch, (if bool_decide (is_Some cur)
    then let? h := decode_cursor_header buf off in Ok (Some h, off + 20)
    else Ok (None, off)) = Ok (ch, off + zlen (cursor_header_bytes cur)) ∧
    match ch with Some h => h.2 | None => 0 end = zlen (cursor_pixel_bytes cur) ∧
    ∀ off', at_off buf off' (cursor_pixel_bytes cur) → match ch with
      | Some (kind, width, height, hx, hy, _) =>
          if kind =? 2 then
            let? bytes := slice buf off' (off' + width * height * 4) in
            Ok (Some (Bitmap (mkBitmap width height hx hy bytes)))
          else Ok (Some (if kind =? 1 then CursorHidden else CursorDefault))
      | None => Ok None
      end = @Ok ViewError _ cur.
Proof.
  intros Hcur HaC. destruct cur as [c|]; [rewrite bool_decide_eq_true_2 by done|
    exists None; split; [by rewrite bool_decide_eq_false_2, Z.add_0_r by (by intros [])|done]].
  destruct (decode_cursor_header_ok buf off c Hcur HaC) as (w & h & hx & hy & -> & Hc).
  cbn [rbind]. eexists. split; [cbn [cursor_header_bytes]; by rewrite zlen_encode_cursor|].
  split; [by destruct c|]. intros off' Hoff. destruct c as [| |b]; [done..|].
  cbn [cursor_kind]. rewrite Z.eqb_refl. destruct Hc as (-> & -> & -> & -> & Hl).
  rewrite (slice_at buf off' (c_rgba b)) by (done || lia).
  cbn [rbind]. by destruct b.
Qed.

Lemma decode_body_ok buf after flags fs cs fr cur es :
  fs ≤ u64_max → opt_frame_ok fs fr → opt_cursor_ok cur →
  negb (Z.land flags 1 =? 0) = bool_decide (is_Some fr) →
  negb (Z.land flags 2 =? 0) = bool_decide (is_Some cur) →
  match fr with Some (_, _, rs) => map fst es = rs | None => es = [] end →
  Forall (λ e, zlen e.2 = r_width e.1 * r_height e.1 * 4) es →
  zlen (concat (map snd es)) = rects_payload (map fst es) →
  buf = take 24 buf ++ frame_header_bytes fr ++ cursor_header_bytes cur ++ concat (map snd es) ++
    cursor_pixel_bytes cur →
  24 ≤ zlen buf →
  decode_body buf after flags fs cs = Ok (Some (response_value fs cs after fr es cur)).
Proof.
  intros Hfs Hfr Hcur Hf1 Hf2 Hes Hall Hz Hbuf H24.
  set (FH := frame_header_bytes fr) in *. set (CH := cursor_header_bytes cur) in *.
  set (CP := cursor_pixel_bytes cur) in *.
  assert (Ht : zlen (take 24 buf) = 24) by (unfold zlen in *; rewrite length_take; lia).
  assert (Ha : at_off buf 24 (FH ++ CH ++ concat (map snd es) ++ CP)).
  { exists (take 24 buf), []. rewrite app_nil_r. done. }
  assert (Hlen : zlen buf = 24 + zlen FH + zlen CH + rects_payload (map fst es) + zlen CP)
    by (rewrite Hbuf, !zlen_app, Ht, Hz; lia).
  apply at_off_app in Ha as [HaF Ha]. apply at_off_app in Ha as [HaC Ha].
  apply at_off_app in Ha as [HaP HaK]. rewrite Hz in HaK. clear Hbuf Ht.
  unfold decode_body. rewrite Hf1, Hf2.
  rewrite (decode_body_frame _ _ _ Hfs Hfr HaF). cbn [rbind]. fold FH. set (fh := frame_head fr).
  destruct (decode_body_cursor _ _ _ Hcur HaC) as (ch & -> & Hch & Hcp).
  fold CH CP in Hch, Hcp |- *.
  cbn [rbind]. cbv zeta. rewrite Hch.
  assert (match fh with Some h => h.2 | None => 0 end = rects_payload (map fst es)) as ->.
  { unfold fh, frame_head. destruct fr as [[[f b] rs]|]; cbn; [by rewrite Hes|by rewrite Hes]. }
  rewrite (proj2 (Z.eqb_eq _ _)) by lia. cbn [negb].
  assert (match fh with
    | Some (base, width, height, rs, _, _) =>
        let? (out, off) := decode_pixels buf rs (24 + zlen FH + zlen CH) in
        Ok (if after <? fs then Some (mkDecoded base width height out) else None, off)
    | None => Ok (None, 24 + zlen FH + zlen CH)
    end = @Ok ViewError _ (d_frame (response_value fs cs after fr es cur),
      24 + zlen FH + zlen CH + rects_payload (map fst es))) as ->.
  { unfold fh, frame_head. destruct fr as [[[f b] rs]|]; cycle 1.
    - subst es. change (rects_payload (map fst [])) with 0. rewrite !Z.add_0_r. done.
    - rewrite <- Hes, (decode_pixels_ok buf _ es Hall HaP). done. }
  cbn [rbind]. rewrite Hcp by done. done.
Qed.

Lemma encode_decode fs cs after fr cur :
  0 ≤ fs ≤ u64_max → 0 ≤ cs ≤ u64_max → opt_frame_ok fs fr → opt_cursor_ok cur →
  ∃ bytes es, encode_frame_response fs cs fr cur = Ok bytes ∧
    match fr with
    | Some (f, _, rs) => map fst es = rs ∧
        Forall2 (λ r e, e.1 = r ∧ read_rect (rgba f) (f_width f) r = Ok e.2) rs es
    | None => es = []
    end ∧
    decodeDesktopFrame bytes after = Ok (Some (response_value fs cs after fr es cur)).
Proof.
  intros Hfs Hcs Hfr Hcur. destruct (opt_pixels fs fr Hfr) as (es & Hpx & Hes & Hall & Hz).
  unfold encode_frame_response. rewrite Hpx. cbn [rbind].
  change (match fr with Some (f, base, rs) => _ | None => [] end) with (frame_header_bytes fr).
  change (match cur with Some c => encode_cursor c | None => [] end) with (cursor_header_bytes cur).
  change (match cur with Some (Bitmap b) => _ | _ => [] end) with (cursor_pixel_bytes cur).
  set (flags := Z.lor _ _). set (rest := frame_header_bytes fr ++ _).
  set (hd := _ ++ _ ++ _ ++ _). exists (hd ++ rest), es. split; [done|]. split; [done|].
  assert (Hflags : 0 ≤ flags ≤ 3 ∧ negb (Z.ldiff flags 3 =? 0) = false ∧
    negb (Z.land flags 1 =? 0) = bool_decide (is_Some fr) ∧ negb (Z.land flags 2 =? 0) = bool_decide (is_Some cur)).
  { unfold flags. by destruct fr, cur. }
  destruct Hflags as (Hfl & Hld & Hf1 & Hf2).
  assert (Hhd : length hd = 24%nat) by done.
  assert (Ha : at_off (hd ++ rest) 0 (hd ++ rest)) by apply at_off_self.
  apply at_off_app in Ha as [Ha _]. unfold hd in Ha at 2. at_split.
  assert (H24 : 24 ≤ zlen (hd ++ rest)) by (unfold zlen; rewrite length_app; lia).
  unfold decodeDesktopFrame. rewrite (proj2 (Z.ltb_ge _ _)) by lia.
  rewrite (get_uint32_at _ _ FRAME_WIRE_VERSION), (get_uint32_at _ _ flags);
    [|first [at_solve | unfold FRAME_WIRE_VERSION, u32_max; lia]..].
  cbn [rbind]. rewrite Hld. change (FRAME_WIRE_VERSION =? 2) with true. cbn [negb orb].
  rewrite (get_uint64_at _ _ fs), (get_uint64_at _ _ cs); [|first [at_solve | done]..].
  cbn [rbind]. rewrite (decode_body_ok _ _ _ _ _ fr cur es); [by destruct (hd ++ rest)|..]; try done.
  - lia.
  - destruct fr as [[[f b] rs]|]; naive_solver.
Qed.

(** ** The session as a sink of engine events *)

Definition proj_ok (p : Projection) : Prop :=
  0 ≤ frame_sequence (summary p) ≤ u64_max ∧ 0 ≤ cursor_sequence p ≤ u64_max ∧
  Vnc.cursor_ok (cursor p) ∧
  match frame p with
  | None => rects (frame_dirty p) = []
  | Some f => frame_ok f ∧ region_ok (f_width f) (f_height f) (frame_dirty p)
  end.

Definition session_ok (s : Session) : Prop := stopping s = false ∧ proj_ok (projection s).

Lemma wrap64_range n : 0 ≤ wrap64 n ≤ u64_max.
Proof. unfold wrap64, u64_max. pose proof (Z.mod_pos_bound n (18446744073709551615 + 1)). lia. Qed.

(** The rectangles of a patch that applies are inside the frame. *)
Lemma apply_patch_in f g p :
  frame_ok f → Forall (λ e, u16_rect e.1) (p_rects p) → apply_patch f p = Ok g →
  Forall (rect_in (f_width f) (f_height f)) (map fst (p_rects p)) ∧
  frame_ok g ∧ f_width g = f_width f ∧ f_height g = f_height f ∧
  ∀ px py c, in_frame (f_width f) (f_height f) px py c → ¬ covers (map fst (p_rects p)) px py →
    byte_at g px py c = byte_at f px py c.
Proof.
  intros Hf Hp H. unfold apply_patch in H. destruct (_ || _); [done|].
  destruct p as [pw ph es]. cbn [p_rects] in *. revert f Hf H.
  induction Hp as [|[r bytes] es Hr _ IH]; intros f Hf H; cbn [rfold map fst] in *.
  - injection H as <-. split; [constructor|]. done.
  - rinv H. apply Vnc.write_rect_inv in E as (Hin & Hw & Hh & Hok & Hpx); [|done..].
    destruct (IH x Hok H) as (Hall & Hg & Hgw & Hgh & Hgpx). rewrite Hw, Hh in *.
    split; [by constructor|]. split; [done|]. split; [done|]. split; [done|].
    intros px py c Hv Hn. rewrite covers_cons in Hn.
    rewrite Hgpx by tauto. apply Hpx; tauto.
Qed.

Lemma add_all_ok w h d (rs : list (DesktopRect * list Z)) :
  w ≤ u16_max → h ≤ u16_max → region_ok w h d → Forall (rect_in w h) (map fst rs) →
  ∃ d', rfold (λ d '(r, _), add d r) d rs = Ok d' ∧ region_ok w h d' ∧
    ∀ px py, covers (rects d) px py ∨ covers (map fst rs) px py → covers (rects d') px py.
Proof.
  intros Hw Hh Hd Hrs.
  destruct (extend_ok w h d (mkRegion (map fst rs))) as (d' & He & ? & ?); [done..| |].
  { eapply Forall_impl; [exact Hrs|]. by left. }
  exists d'. split; [|done]. rewrite <- He. unfold extend. cbn [rects]. clear.
  revert d. induction rs as [|[r b] rs IH]; intros d; cbn; [done|].
  destruct (add d r); cbn; auto.
Qed.

(** What a session does with an event, in one relation: either the display is
    unchanged, or a new frame is shown under the next sequence. *)
Definition display_step (p p' : Projection) : Prop :=
  frame_base_sequence p' = frame_base_sequence p ∧
  (frame p' = frame p ∧ frame_dirty p' = frame_dirty p ∧
   frame_requires_full p' = frame_requires_full p ∧
   frame_sequence (summary p') = frame_sequence (summary p) ∨
   frame_sequence (summary p') = wrap64 (frame_sequence (summary p) + 1) ∧
   (frame_requires_full p' = true ∨
    frame_requires_full p' = false ∧ frame_requires_full p = false ∧
    ∃ f f', frame p = Some f ∧ frame p' = Some f' ∧ f_width f' = f_width f ∧ f_height f' = f_height f ∧
      ∀ px py c, in_frame (f_width f) (f_height f) px py c → ¬ covers (rects (frame_dirty p')) px py →
        ¬ covers (rects (frame_dirty p)) px py ∧ byte_at f' px py c = byte_at f px py c)).

Lemma event_patch_ok s pt :
  session_ok s → Forall (λ e, u16_rect e.1) (p_rects pt) →
  (∃ s', event s (FramePatchEvent pt) = Ok s' ∧ stopping s' = true) ∨
  (∃ s', event s (FramePatchEvent pt) = Ok s' ∧ session_ok s' ∧
    display_step (projection s) (projection s') ∧
    (p_rects pt = [] ∧ s' = s ∨
     ∃ f f', frame (projection s) = Some f ∧ apply_patch f pt = Ok f' ∧ frame (projection s') = Some f')).
Proof.
  intros [Hst (Hfs & Hcs & Hc & Hf)] Hp. unfold event. rewrite Hst. cbv zeta.
  destruct (p_rects pt) as [|e es] eqn:He.
  { right. exists s. split; [done|]. split; [done|]. split; [|auto]. split; [done|]. by left. }
  destruct (frame (projection s)) as [f|] eqn:Hfr; cbn [ok_or rbind]; [|left; by eexists].
  destruct Hf as [Hfok Hd]. rewrite <- He in *. destruct (frame_ok_dims f Hfok) as (_ & ? & ?).
  pose proof (apply_patch_result f pt Hfok Hp) as Hres.
  destruct (apply_patch f pt) as [f'|e'|] eqn:Ha; [|left; by eexists|done].
  destruct (apply_patch_in f f' pt Hfok Hp Ha) as (Hin & Hok' & Hw & Hh & Hpx).
  right. destruct (frame_requires_full (projection s)) eqn:Hrf; cbn [negb rbind].
  - eexists. split; [done|]. split; [split; [done|]|].
    + split; [apply wrap64_range|]. split; [done|]. split; [done|]. cbn. by rewrite Hw, Hh.
    + split; [split; [done|]; right; cbn; auto|]. right. eauto 10.
  - destruct (add_all_ok (f_width f) (f_height f) (frame_dirty (projection s)) (p_rects pt))
      as (d & -> & Hdok & Hcov); [lia|lia|done|done|]. cbn [rbind].
    eexists. split; [done|]. split; [split; [done|]|].
    + split; [apply wrap64_range|]. split; [done|]. split; [done|]. cbn. by rewrite Hw, Hh.
    + split; [split; [done|]; right; cbn; split; [done|]; right; split; [done|]; split; [done|]|eauto 10].
      exists f, f'. rewrite Hfr. split; [done|]. split; [done|]. split; [done|]. split; [done|].
      intros px py c Hv Hn. split; [intros ?; apply Hn, Hcov; auto|].
      apply Hpx; [done|]. intros ?. apply Hn, Hcov. auto.
Qed.

(** The values an engine can put into an event. *)
Definition engine_event_typed (e : EngineEvent) : Prop :=
  match e with
  | Frame f => u16 (f_width f) ∧ u16 (f_height f)
  | FramePatchEvent p => Forall (λ e, u16_rect e.1) (p_rects p)
  | Cursor c => Vnc.cursor_ok c
  | _ => True
  end.

Lemma max1_wrap64 n : 0 ≤ Z.max 1 (wrap64 n) ≤ u64_max.
Proof. pose proof (wrap64_range n). unfold u64_max in *. lia. Qed.

(** Every event is handled: the session stops, or stays well formed and shows
    a display step. *)
Lemma event_ok s e :
  session_ok s → engine_event_typed e →
  ∃ s', event s e = Ok s' ∧
    (stopping s' = true ∨ session_ok s' ∧ display_step (projection s) (projection s')).
Proof.
  intros Hs He. pose proof Hs as [Hst (Hfs & Hcs & Hc & Hf)].
  assert (Hsame : ∀ s' : Session, stopping s' = false → frame (projection s') = frame (projection s) →
    frame_dirty (projection s') = frame_dirty (projection s) →
    frame_requires_full (projection s') = frame_requires_full (projection s) →
    frame_base_sequence (projection s') = frame_base_sequence (projection s) →
    frame_sequence (summary (projection s')) = frame_sequence (summary (projection s)) →
    0 ≤ cursor_sequence (projection s') ≤ u64_max → Vnc.cursor_ok (cursor (projection s')) →
    session_ok s' ∧ display_step (projection s) (projection s')).
  { intros s' H1 H2 H3 H4 H5 H6 H7 H8. split; [split; [done|]|split; [done|left; done]].
    unfold proj_ok. rewrite H2, H3, H6. done. }
  destruct e as [|a|a|f|pt|c|text|a].
  5: { destruct (event_patch_ok s pt Hs He) as [(s' & -> & Hst')|(s' & -> & Hok & Hd & _)];
      (eexists; split; [done|]); auto. }
  all: unfold event; rewrite Hst; cbv zeta.
  - eexists. split; [done|]. right. by apply Hsame.
  - eexists. split; [done|]. right. by apply Hsame.
  - case_decide; (eexists; split; [done|]); right; by apply Hsame.
  - destruct (bool_decide _) eqn:Hb; cbn [negb]; [|eexists; split; [done|by left]].
    bprop. eexists. split; [done|]. right. destruct He as [[Hw _] [Hh _]].
    assert (Hfok : frame_ok f).
    { split; [done|]. split; [done|]. by destruct (frame_len _ _); simplify_eq/=. }
    split; [split; [done|]|split; [done|right; auto]].
    split; [apply wrap64_range|]. split; [done|]. split; [done|]. cbn. split; [done|]. apply region_default_ok.
  - eexists. split; [done|]. right. apply Hsame; try done. apply max1_wrap64.
  - destruct (clipboard_enabled _ && _); (eexists; split; [done|]); right; by apply Hsame.
  - eexists. split; [done|]. right. by apply Hsame.
Qed.

Definition deliver_event (s : Session) (e : EngineEvent) : Session :=
  match event s e with Ok s' => s' | _ => s end.

#[global] Program Instance session_sink : Vnc.FrameSink Session := {|
  Vnc.shown s := frame (projection s);
  Vnc.alive := session_ok;
  Vnc.deliver := deliver_event |}.
Next Obligation.
  intros s f Hs Hf. destruct (frame_ok_dims f Hf) as (_ & ? & ?).
  destruct (event_ok s (Frame f) Hs) as (s' & He & Hs'); [cbn; unfold u16; lia|].
  unfold deliver_event. rewrite He. unfold event in He. destruct Hs as [Hst _]. rewrite Hst in He.
  cbv zeta in He. destruct Hf as (? & ? & Hl). rewrite Hl in He.
  rewrite bool_decide_eq_true_2 in He by done. cbn in He. injection He as <-.
  split; [|done]. destruct Hs' as [Hbad|[Hok _]]; [|done]. cbn in Hbad. congruence.
Qed.
Next Obligation.
  intros s g g' p Hs Hg Hp Ha. unfold deliver_event.
  destruct (event_patch_ok s p Hs Hp) as [(s' & He & Hst')|(s' & -> & Hok & _ & Hcase)]; cycle 1.
  - split; [done|]. destruct Hcase as [[Hn ->]|(f & f' & Hf & Ha' & ->)]; [|congruence].
    unfold apply_patch in Ha. case_match; [done|]. rewrite Hn in Ha. cbn in Ha. congruence.
  - exfalso. unfold event in He. destruct Hs as [Hst _]. rewrite Hst in He. cbv zeta in He.
    destruct (p_rects p) eqn:Hr; [congruence|]. rewrite Hg in He. cbn [ok_or rbind] in He.
    rewrite Ha in He. destruct (if negb _ then _ else _); cbn in He; try done.
    injection He as <-. cbn in Hst'. congruence.
Qed.
Next Obligation.
  intros s e Hs H1 H2 H3.
  destruct (event_ok s e Hs) as (s' & He & Hs').
  { destruct e; try done; [by destruct (H1 f)|by destruct (H2 p)|]. cbn. by apply H3. }
  unfold deliver_event. rewrite He. unfold event in He. destruct Hs as [Hst _]. rewrite Hst in He.
  cbv zeta in He. assert (stopping s' = false ∧ frame (projection s') = frame (projection s)) as [Hns ->].
  { destruct e; try (injection He as <-; done).
    - case_decide; injection He as <-; done.
    - by destruct (H1 f).
    - by destruct (H2 p).
    - case_match; injection He as <-; done. }
  split; [|done]. destruct Hs' as [|[? _]]; [congruence|done].
Qed.

(** ** Views in step with the session *)

Definition canvas_ok (c : DesktopFrame) : Prop :=
  0 ≤ f_width c ∧ 0 ≤ f_height c ∧ zlen (rgba c) = f_width c * f_height c * 4.

(** What a view that holds sequence [v_after] is owed: if the session could
    send it a patch, the view agrees with the session outside the dirty
    region; if it is up to date, it shows the session's frame. *)
Definition view_sync (p : Projection) (v : View) : Prop :=
  canvas_ok (canvas v) ∧ 0 ≤ v_after v ≤ frame_sequence (summary p) ∧
  (v_after v ≠ 0 → v_after v = frame_base_sequence p → frame_requires_full p = false →
   ∀ f, frame p = Some f →
     f_width (canvas v) = f_width f ∧ f_height (canvas v) = f_height f ∧
     ∀ px py c, in_frame (f_width f) (f_height f) px py c → ¬ covers (rects (frame_dirty p)) px py →
       byte_at (canvas v) px py c = byte_at f px py c) ∧
  (v_after v ≠ 0 → v_after v = frame_sequence (summary p) → frame p = Some (canvas v)).

Lemma wrap64_small n : 0 ≤ n ≤ u64_max → wrap64 n = n.
Proof. intros. unfold wrap64, u64_max in *. apply Z.mod_small. lia. Qed.

Lemma view_sync_event p p' v :
  display_step p p' → frame_sequence (summary p) < u64_max → view_sync p v → view_sync p' v.
Proof.
  intros [Hbase Hcase] Hmax (Hc & Hr & Hpatch & Hcur).
  destruct Hcase as [(Hf & Hd & Hrf & Hseq)|(Hseq & Hcase)].
  { unfold view_sync. by rewrite Hbase, Hf, Hd, Hrf, Hseq. }
  rewrite wrap64_small in Hseq by lia. unfold view_sync. rewrite Hseq, Hbase.
  split; [done|]. split; [lia|]. split; [|lia]. intros Hnz Hb Hrf f' Hf'.
  destruct Hcase as [|(_ & Hrf0 & f & f'' & Hf & Hf'' & Hw & Hh & Hpx)]; [congruence|]. simplify_eq.
  destruct (Hpatch Hnz Hb Hrf0 f Hf) as (Hcw & Hch & Hcpx).
  rewrite Hw, Hh. split; [done|]. split; [done|]. intros px py c Hv Hn.
  destruct (Hpx px py c Hv Hn) as [Hn' ->]. by apply Hcpx.
Qed.

Lemma canvas_frame_ok c f :
  canvas_ok c → frame_ok f → f_width c = f_width f → f_height c = f_height f → frame_ok c.
Proof.
  intros (? & ? & Hl) Hf Hw Hh. destruct (frame_ok_dims f Hf) as (Hlf & _ & _).
  destruct Hf as (_ & _ & Hfl). split; [done|]. split; [done|].
  rewrite Hw, Hh, Hfl in *. f_equal. congruence.
Qed.

Lemma frame_canvas_ok f : frame_ok f → canvas_ok f.
Proof. intros Hf. destruct (frame_ok_dims f Hf). destruct Hf as (? & ? & _). done. Qed.

(** The delivery of a frame to any view keeps the others in step. *)
Lemma view_sync_taken p v f :
  proj_ok p → frame p = Some f → view_sync p v →
  view_sync (mkProjection (summary p) (frame p) (frame_sequence (summary p)) region_default false
    (cursor_sequence p) (cursor p) (clipboard p)) v.
Proof.
  intros Hp Hf (Hc & Hr & Hpatch & Hcur). split; [done|]. split; [done|]. split; [|done].
  cbn. intros Hnz Hb _ f' Hf'. rewrite (Hcur Hnz Hb) in Hf'. by injection Hf' as <-.
Qed.

Lemma put_images_rfold c es g :
  rfold (λ f '(r, bytes), write_rect f (r_x r) (r_y r) (r_width r) (r_height r) bytes) c es = Ok g →
  fold_left (λ c '(r, bytes), put_image c r bytes) es c = g.
Proof.
  revert c. induction es as [|[r bytes] es IH]; intros c H; cbn [rfold fold_left] in *.
  - by injection H.
  - rinv H. unfold put_image at 2. rewrite E. by apply IH.
Qed.

Lemma resize_canvas_ok c f :
  canvas_ok c → frame_ok f →
  let c' := resize_canvas c (f_width f) (f_height f) in
  frame_ok c' ∧ f_width c' = f_width f ∧ f_height c' = f_height f.
Proof.
  intros Hc Hf c'. unfold c', resize_canvas. destruct (_ && _) eqn:E.
  - bprop. split; [by eapply canvas_frame_ok|done].
  - destruct (frame_ok_dims f Hf) as (Hl & ? & ?). destruct Hf as (? & ? & Hfl). split; [|done].
    split; [done|]. split; [done|]. cbn. rewrite Hfl, Hl. f_equal.
    unfold zlen. rewrite length_replicate. nia.
Qed.

(** Painting a delivered block shows the session's frame. *)
Lemma paint_ok v f base rs es :
  canvas_ok (canvas v) → frame_ok f → Forall (rect_in (f_width f) (f_height f)) rs →
  Forall2 (λ r e, e.1 = r ∧ read_rect (rgba f) (f_width f) r = Ok e.2) rs es →
  (base = 0 ∧ rs = [mkRect 0 0 (f_width f) (f_height f)] ∨
   base ≠ 0 ∧ base = v_after v ∧ f_width (canvas v) = f_width f ∧ f_height (canvas v) = f_height f ∧
   ∀ px py c, in_frame (f_width f) (f_height f) px py c → ¬ covers rs px py →
     byte_at (canvas v) px py c = byte_at f px py c) →
  paint (canvas v) (v_after v) (mkDecoded base (f_width f) (f_height f) es) = (f, v_after v, true).
Proof.
  intros Hc Hf Hin Hes Hcase. unfold paint. cbn [d_base d_width d_height d_rects].
  assert (negb (base =? 0) && (negb (base =? v_after v) || negb (f_width (canvas v) =? f_width f) ||
    negb (f_height (canvas v) =? f_height f)) = false) as ->.
  { destruct Hcase as [[-> _]|(Hnz & -> & -> & -> & _)]; [done|]. by rewrite !Z.eqb_refl, andb_false_r. }
  destruct (resize_canvas_ok (canvas v) f Hc Hf) as (Hcok & Hcw & Hch).
  destruct (apply_extracted f es rs (resize_canvas (canvas v) (f_width f) (f_height f)))
    as (g & Hg & Hgw & Hgh & Hgok & Hpx); [done..|].
  rewrite (put_images_rfold _ _ _ Hg). do 2 f_equal. apply frame_ext; [done..|].
  intros px py c Hv. destruct (Hpx px py c Hv) as [H1 H2].
  destruct (decide ((px, py) ∈ region_pixels rs)) as [Hc'|Hc'];
    rewrite elem_of_region_pixels in Hc'; [by apply H1|]. rewrite H2 by done.
  destruct Hcase as [[-> ->]|(Hnz & _ & Hw & Hh & Hold)].
  - destruct Hc'. exists (mkRect 0 0 (f_width f) (f_height f)). split; [set_solver|].
    unfold inside. destruct Hv as (? & ? & _). simpl. lia.
  - unfold resize_canvas. rewrite Hw, Hh, !Z.eqb_refl. cbn [andb]. by apply Hold.
Qed.

(** What [frame_plan] chooses for a view in step is a valid block, and
    painting it brings the view up to date. *)
Lemma frame_plan_ok p v f base rs :
  proj_ok p → frame p = Some f → view_sync p v → v_after v < frame_sequence (summary p) →
  frame_plan (f_width f) (f_height f) (v_after v) (frame_base_sequence p) (frame_dirty p)
    (frame_requires_full p) = (base, rs) →
  frame_block_ok (frame_sequence (summary p)) f base rs ∧
  (base = 0 ∧ rs = [mkRect 0 0 (f_width f) (f_height f)] ∨
   base ≠ 0 ∧ base = v_after v ∧ f_width (canvas v) = f_width f ∧ f_height (canvas v) = f_height f ∧
   ∀ px py c, in_frame (f_width f) (f_height f) px py c → ¬ covers rs px py →
     byte_at (canvas v) px py c = byte_at f px py c).
Proof.
  intros (Hfs & _ & _ & Hf') Hf (Hc & Hr & Hpatch & _) Hlt. rewrite Hf in Hf'.
  destruct Hf' as [Hfok [[Hin Hsep] H16]]. destruct (frame_ok_dims f Hfok) as (_ & Hw & Hh).
  unfold frame_plan. cbv zeta. destruct (_ && _) eqn:E; intros [= <- <-].
  - bprop. assert (Hne : rects (frame_dirty p) ≠ []) by (unfold region_is_empty in *; by destruct (rects _)).
    destruct (Hpatch) with (f := f) as (Hcw & Hch & Hpx); [done..|].
    split; [|right; auto]. split; [done|]. split; [done|].
    split; [destruct (rects (frame_dirty p)); [done|]; rewrite zlen_cons in *;
      pose proof (zlen_nonneg l); lia|]. split; [lia|done].
  - split; [|left; done]. split; [done|]. split.
    + constructor; [unfold rect_in; simpl; lia|constructor].
    + unfold MAX_DIRTY_RECTS, zlen. simpl. split; [lia|]. split; [lia|done].
Qed.

(** The view's side of a response that carries a frame block, a cursor block
    or both. *)
Lemma receive_ok p v fr cur bytes es :
  view_sync p v →
  decodeDesktopFrame bytes (v_after v) =
    Ok (Some (response_value (frame_sequence (summary p)) (cursor_sequence p) (v_after v) fr es cur)) →
  match fr with
  | Some (f, base, rs) =>
      v_after v < frame_sequence (summary p) ∧
      paint (canvas v) (v_after v) (mkDecoded base (f_width f) (f_height f) es) = (f, v_after v, true)
  | None => True
  end →
  receive v bytes = Ok (mkView
    match fr with Some (f, _, _) => f | None => canvas v end
    match fr with Some _ => frame_sequence (summary p) | None => v_after v end
    match cur with Some _ => cursor_sequence p | None => v_after_cursor v end
    match cur with Some c => c | None => v_cursor v end).
Proof.
  intros Hv Hd Hfr. unfold receive. rewrite Hd. cbn [rbind d_frame d_cursor response_value].
  destruct fr as [[[f base] rs]|].
  - destruct Hfr as [Hlt Hp]. unfold response_value. cbn [d_frame].
    rewrite (proj2 (Z.ltb_lt _ _) Hlt). rewrite Hp. by destruct cur.
  - unfold response_value. cbn [d_frame d_cursor d_frame_sequence d_cursor_sequence]. by destruct cur.
Qed.

(** What a view has after it received everything newer than it held. *)
Definition caught_up (p : Projection) (v v' : View) : Prop :=
  (∀ f, frame p = Some f → v_after v < frame_sequence (summary p) →
    canvas v' = f ∧ v_after v' = frame_sequence (summary p)) ∧
  (v_after_cursor v < cursor_sequence p →
    v_cursor v' = cursor p ∧ v_after_cursor v' = cursor_sequence p).

Lemma take_receive_ok p v :
  proj_ok p → view_sync p v →
  ∃ p' o, take_frame_update p (request_of v) = Ok (p', o) ∧ proj_ok p' ∧
    (∀ v2, view_sync p v2 → view_sync p' v2) ∧
    match o with
    | None => p' = p ∧ (frame p = None ∨ v_after v = frame_sequence (summary p)) ∧
              cursor_sequence p ≤ v_after_cursor v
    | Some bytes => ∃ v', receive v bytes = Ok v' ∧ view_sync p' v' ∧ caught_up p v v'
    end.
Proof.
  intros Hp Hv. pose proof Hp as (Hfs & Hcs & Hcok & Hf). pose proof Hv as (Hcan & Hr & _).
  unfold take_frame_update, request_of. cbn [after_sequence after_cursor_sequence]. cbv zeta.
  set (sc := v_after_cursor v <? cursor_sequence p).
  assert (Hcur : opt_cursor_ok (if sc then Some (cursor p) else None)) by (by destruct sc).
  destruct ((v_after v <? frame_sequence (summary p)) && bool_decide (is_Some (frame p))) eqn:Hsend.
  - bprop. destruct H0 as [f Hfr]. rewrite Hfr in *. cbn [negb andb].
    destruct (frame_plan _ _ _ _ _ _) as [base rs] eqn:Hplan.
    destruct (frame_plan_ok p v f base rs Hp Hfr Hv) as [Hblock Hcase]; [done..|].
    destruct (encode_decode (frame_sequence (summary p)) (cursor_sequence p) (v_after v)
      (Some (f, base, rs)) (if sc then Some (cursor p) else None)) as (bytes & es & -> & [Hes H2] & Hdec); [done..|].
    cbn [rbind]. eexists _, _. split; [done|].
    split; [split; [done|]; split; [done|]; split; [done|]; cbn; split; [apply Hf|apply region_default_ok]|].
    split; [intros v2 Hv2; rewrite <- Hfr; by eapply view_sync_taken|].
    eexists. split; [eapply receive_ok; [exact Hv|exact Hdec|]|].
    { split; [done|]. destruct Hblock as (? & ? & _). by eapply paint_ok. }
    split.
    + split; [apply frame_canvas_ok, Hf|]. cbn. split; [lia|]. split; [|done].
      intros _ _ _ f' [= <-]. done.
    + split; [intros f' Hf' _; rewrite Hfr in Hf'; by injection Hf' as <-|]. intros Hlt. unfold sc. by rewrite (proj2 (Z.ltb_lt _ _) Hlt).
  - cbn [negb andb]. destruct sc eqn:Hsc; cbn [negb]; cycle 1.
    { exists p, None. split; [done|]. split; [done|]. split; [done|]. split; [done|].
      unfold sc in Hsc. apply Z.ltb_ge in Hsc. split; [|done].
      rewrite andb_false_iff, Z.ltb_ge, bool_decide_eq_false, <- eq_None_not_Some in Hsend.
      destruct Hsend; [right; lia|by left]. }
    assert ((match frame p with Some f => @None (DesktopFrame * (Z * list DesktopRect)) | None => None end) = None)
      as Hnone by (by destruct (frame p)).
    rewrite Hnone.
    destruct (encode_decode (frame_sequence (summary p)) (cursor_sequence p) (v_after v)
      None (Some (cursor p))) as (bytes & es & -> & -> & Hdec); [done..|].
    cbn [rbind]. eexists _, _. split; [done|]. split; [done|]. split; [done|].
    eexists. split; [by eapply receive_ok|]. split; [exact Hv|].
    split; [|done]. intros f Hfr Hlt. rewrite Hfr, (proj2 (Z.ltb_lt _ _) Hlt) in Hsend. done.
Qed.

End Session.
