(* ===== verification/DesktopPipeline.v ===== *)
(** * From the remote screen to the canvas

    The composition of the VNC engine ([VncClient]), the session that keeps a
    copy of the screen and the web views that paint it ([DesktopSession]). The
    engine's theorems are proved against the interface [Vnc.FrameSink], which
    the session implements. The views run beside the session as a transition
    system: engine events, polls, responses that arrive late or never. *)

From S2P Require Import Prelude RustStr RustVec DesktopProtocol VncClient DesktopSession.

Module Pipeline.
Import Desktop Session.

(** ** A session and its views *)

(** A view and the response it waits for, if one is on its way. *)
Record System := mkSystem { session : Session; views : list (View * option (list Z)) }.

(** The session as [open] creates it. *)
Definition session_new (clip : bool) (width height : Z) (audio : bool) : Session :=
  mkSession (mkProjection
    (mkSummary 1 Connecting (lit "preparing") None width height 0
      (if audio then AWaiting else ADisabled) None None clip)
    None 0 region_default true 0 CursorDefault None) false 0 0.

(** A view before its first frame: an empty canvas of any size. *)
Definition view_new (width height : Z) : View :=
  mkView (mkFrame width height (replicate (Z.to_nat (width * height * 4)) 0)) 0 0 CursorDefault.

(** One step of the system. A poll is answered at once or left waiting; its
    response is painted later, against whatever the view then shows, or is
    lost with its request. *)
Inductive sys_step : System → System → Prop :=
| StepEvent s s' vs e :
    engine_event_typed e → frame_sequence (summary (projection s)) < u64_max →
    event s e = Ok s' → sys_step (mkSystem s vs) (mkSystem s' vs)
| StepOpen s vs w h :
    0 ≤ w → 0 ≤ h → sys_step (mkSystem s vs) (mkSystem s ((view_new w h, None) :: vs))
| StepPoll s vs1 v vs2 p bytes :
    stopping s = false →
    take_frame_update (projection s) (request_of v) = Ok (p, Some bytes) →
    sys_step (mkSystem s (vs1 ++ (v, None) :: vs2))
      (mkSystem (set_projection s p) (vs1 ++ (v, Some bytes) :: vs2))
| StepReceive s vs1 v bytes v' vs2 :
    receive v bytes = Ok v' →
    sys_step (mkSystem s (vs1 ++ (v, Some bytes) :: vs2)) (mkSystem s (vs1 ++ (v', None) :: vs2))
| StepLose s vs1 v bytes vs2 :
    sys_step (mkSystem s (vs1 ++ (v, Some bytes) :: vs2)) (mkSystem s (vs1 ++ (v, None) :: vs2)).

(** A view and its pending response are in step with the session. *)
Definition entry_sync (p : Projection) (e : View * option (list Z)) : Prop :=
  view_sync p e.1 ∧
  match e.2 with
  | Some bytes => ∃ v', receive e.1 bytes = Ok v' ∧ view_sync p v'
  | None => True
  end.

(** A pending response can be decoded, also after the session stopped. *)
Definition entry_decodes (e : View * option (list Z)) : Prop :=
  match e.2 with Some bytes => ∃ v', receive e.1 bytes = Ok v' | None => True end.

Definition sys_inv (st : System) : Prop :=
  Forall entry_decodes (views st) ∧
  (stopping (session st) = true ∨
   session_ok (session st) ∧ Forall (entry_sync (projection (session st))) (views st)).

Lemma entry_sync_mono p p' e :
  (∀ v, view_sync p v → view_sync p' v) → entry_sync p e → entry_sync p' e.
Proof. intros Hm [Hv He]. split; [auto|]. destruct (e.2); naive_solver. Qed.

Lemma entry_sync_decodes p e : entry_sync p e → entry_decodes e.
Proof. intros [_ He]. unfold entry_decodes. destruct (e.2); naive_solver. Qed.

Lemma view_new_sync p w h : proj_ok p → 0 ≤ w → 0 ≤ h → view_sync p (view_new w h).
Proof.
  intros ((Hs & _) & _) Hw Hh. split; [|split; [cbn; lia|]].
  - split; [done|]. split; [done|]. cbn. unfold zlen. rewrite length_replicate. nia.
  - cbn. split; intros []; done.
Qed.

Lemma sys_step_inv st st' : sys_inv st → sys_step st st' → sys_inv st'.
Proof.
  intros [Hdec Hinv] Hstep. destruct Hstep as
    [s s' vs e Ht Hmax He|s vs w h Hw Hh|s vs1 v vs2 p bytes Hst Htake|s vs1 v bytes v' vs2 Hr|s vs1 v bytes vs2];
    unfold sys_inv; cbn [session views] in *.
  - split; [done|]. destruct Hinv as [Hst|[Hs Hvs]].
    { left. unfold event in He. rewrite Hst in He. by injection He as <-. }
    destruct (event_ok s e Hs Ht) as (s1 & He1 & Hcase). rewrite He in He1. injection He1 as <-.
    destruct Hcase as [|[Hs' Hd]]; [by left|]. right. split; [done|].
    eapply Forall_impl; [exact Hvs|]. intros en Hen. eapply entry_sync_mono; [|exact Hen].
    intros v Hv. by eapply view_sync_event.
  - split; [by constructor|]. destruct Hinv as [|[Hs Hvs]]; [by left|]. right. split; [done|].
    constructor; [|done]. split; [|done]. apply view_new_sync; [apply Hs|done..].
  - destruct Hinv as [|[Hs Hvs]]; [congruence|]. rewrite Forall_app, Forall_cons in Hvs.
    destruct Hvs as (H1 & [Hv _] & H2). destruct Hs as [_ Hp].
    destruct (take_receive_ok _ v Hp Hv) as (p1 & o & Ht & Hp1 & Hmono & Ho).
    rewrite Htake in Ht. injection Ht as <- <-. destruct Ho as (v' & Hr & Hv' & _).
    rewrite Forall_app, Forall_cons in Hdec. destruct Hdec as (D1 & _ & D2). split.
    { rewrite Forall_app, Forall_cons. split; [done|]. split; [|done]. by exists v'. }
    right. split; [split; done|]. rewrite Forall_app, Forall_cons. cbn [projection set_projection].
    split; [|split]; [by eapply Forall_impl; [exact H1|]; intros; eapply entry_sync_mono| |
      by eapply Forall_impl; [exact H2|]; intros; eapply entry_sync_mono].
    split; [by apply Hmono|]. by exists v'.
  - rewrite Forall_app, Forall_cons in Hdec. destruct Hdec as (D1 & _ & D2).
    split; [by rewrite Forall_app, Forall_cons|]. destruct Hinv as [|[Hs Hvs]]; [by left|].
    right. split; [done|]. rewrite Forall_app, Forall_cons in Hvs |- *.
    destruct Hvs as (H1 & [Hv (v1 & Hr1 & Hv1)] & H2). cbn in Hr1. rewrite Hr in Hr1. by injection Hr1 as <-.
  - rewrite Forall_app, Forall_cons in Hdec. destruct Hdec as (D1 & _ & D2).
    split; [by rewrite Forall_app, Forall_cons|]. destruct Hinv as [|[Hs Hvs]]; [by left|].
    right. split; [done|]. rewrite Forall_app, Forall_cons in Hvs |- *.
    destruct Hvs as (H1 & [Hv _] & H2). split; [done|]. split; [split; done|done].
Qed.

Lemma session_new_ok clip w h audio : session_ok (session_new clip w h audio).
Proof. repeat split; done. Qed.

Lemma sys_reachable_inv clip w h audio st :
  rtc sys_step (mkSystem (session_new clip w h audio) []) st → sys_inv st.
Proof.
  assert (H0 : sys_inv (mkSystem (session_new clip w h audio) [])).
  { split; [constructor|]. right. split; [apply session_new_ok|constructor]. }
  intros Hr. revert H0. induction Hr as [st|st0 st1 st2 Hs _ IH]; [done|].
  intros H0. apply IH. by eapply sys_step_inv.
Qed.

(** ** Properties *)

(** C6. However engine events, polls, late and lost responses of any number
    of views interleave: a view never rejects a response of its session, and
    a view that holds the session's current sequence shows exactly the
    session's frame. *)
Theorem views_show_session clip w h audio s vs :
  rtc sys_step (mkSystem (session_new clip w h audio) []) (mkSystem s vs) →
  (∀ v bytes, (v, Some bytes) ∈ vs → ∃ v', receive v bytes = Ok v') ∧
  (stopping s = false → ∀ v o, (v, o) ∈ vs →
    v_after v ≠ 0 → v_after v = frame_sequence (summary (projection s)) →
    frame (projection s) = Some (canvas v)).
Proof.
  intros Hr. apply sys_reachable_inv in Hr as [Hdec Hinv]. cbn in *. split.
  - intros v bytes Hv. rewrite Forall_forall in Hdec. apply (Hdec _ Hv).
  - intros Hst v o Hv Hnz Heq. destruct Hinv as [|[_ Hvs]]; [congruence|].
    rewrite Forall_forall in Hvs. destruct (Hvs _ Hv) as [(_ & _ & _ & Hcur) _]. by apply Hcur.
Qed.

(** A run with one view: a frame, the poll, a patch, and the response painted
    after the patch. *)
Definition demo_frame : DesktopFrame := mkFrame 2 1 [1; 2; 3; 255; 4; 5; 6; 255].
Definition demo_patch : FramePatch := mkPatch 2 1 [(mkRect 1 0 1 1, [7; 8; 9; 255])].

(** The session after [e], and the view after its response. *)
Definition after_event (s : Session) (e : EngineEvent) : Session := deliver_event s e.
Definition response (s : Session) (v : View) : list Z :=
  match take_frame_update (projection s) (request_of v) with Ok (_, Some b) => b | _ => [] end.
Definition after_poll (s : Session) (v : View) : Session :=
  match take_frame_update (projection s) (request_of v) with
  | Ok (p, _) => set_projection s p | _ => s end.
Definition received (v : View) (bytes : list Z) : View :=
  match receive v bytes with Ok v' => v' | _ => v end.

Definition demo0 : Session := session_new true 2 1 false.
Definition demo1 : Session := after_event demo0 (Frame demo_frame).
Definition demo_view0 : View := view_new 1 1.
Definition demo_bytes1 : list Z := response demo1 demo_view0.
Definition demo2 : Session := after_event (after_poll demo1 demo_view0) (FramePatchEvent demo_patch).
Definition demo_view1 : View := received demo_view0 demo_bytes1.
Definition demo_bytes2 : list Z := response demo2 demo_view1.
Definition demo_view2 : View := received demo_view1 demo_bytes2.
Definition demo3 : Session := after_poll demo2 demo_view1.

Lemma demo_steps : rtc sys_step (mkSystem demo0 []) (mkSystem demo3 [(demo_view2, None)]).
Proof.
  eapply rtc_l; [apply (StepOpen demo0 [] 1 1); lia|].
  eapply rtc_l; [apply (StepEvent demo0 demo1 _ (Frame demo_frame)); [cbn; unfold u16, u16_max; lia|done|by vm_compute]|].
  eapply rtc_l.
  { apply (StepPoll demo1 [] demo_view0 [] (projection (after_poll demo1 demo_view0)) demo_bytes1); by vm_compute. }
  eapply rtc_l.
  { apply (StepEvent _ demo2 _ (FramePatchEvent demo_patch)); [|by vm_compute..].
    apply Forall_cons. split; [|by apply Forall_nil]. by vm_compute. }
  eapply rtc_l; [apply (StepReceive demo2 [] demo_view0 demo_bytes1 demo_view1 []); by vm_compute|].
  eapply rtc_l.
  { apply (StepPoll demo2 [] demo_view1 [] (projection demo3) demo_bytes2); by vm_compute. }
  eapply rtc_l; [apply (StepReceive _ [] demo_view1 demo_bytes2 demo_view2 []); by vm_compute|].
  apply rtc_refl.
Qed.

Lemma views_show_session_witness :
  rgba (canvas demo_view2) = [1; 2; 3; 255; 7; 8; 9; 255] ∧
  frame (projection demo3) = Some (canvas demo_view2).
Proof.
  split; [by vm_compute|].
  destruct (views_show_session true 2 1 false demo3 [(demo_view2, None)] demo_steps) as [_ H].
  apply (H eq_refl demo_view2 None); [by apply list_elem_of_here|by vm_compute..].
Defined.

Section Vnc.
Context `{Vnc.JpegDecoder}.

Lemma engine_run_inv s0 acts p s :
  session_ok s0 → Forall Vnc.action_typed acts → Vnc.engine_run s0 acts = Ok (p, s) →
  Vnc.engine_inv (p, s).
Proof.
  intros Hs Ha Hr. pose proof (Vnc.engine_run_ok s0 acts Hs Ha) as Hok. by rewrite Hr in Hok.
Qed.

(** C13. From the server's pixels to the canvas. Whatever the VNC server
    sends, the engine and the session never panic. Once a completed update
    is published, the session shows exactly the engine's surface, and a view
    that polls then paints exactly that surface, whether the session answers
    with a full frame or a patch. *)
Theorem vnc_screen_reaches_canvas s0 acts :
  session_ok s0 → Forall Vnc.action_typed acts →
  Vnc.engine_run s0 acts ≠ Panic ∧
  ∀ p s f, Vnc.engine_run s0 acts = Ok (p, s) → Vnc.frame p = Some f →
    Vnc.ready p = false → Vnc.requires_full p = false → rects (Vnc.in_progress p) = [] →
    session_ok s ∧ frame (projection s) = Some f ∧
    ∀ v, view_sync (projection s) v → v_after v < frame_sequence (summary (projection s)) →
      ∃ pr bytes v', take_frame_update (projection s) (request_of v) = Ok (pr, Some bytes) ∧
        receive v bytes = Ok v' ∧ canvas v' = f.
Proof.
  intros Hs Ha. split.
  { pose proof (Vnc.engine_run_ok s0 acts Hs Ha) as Hok. by destruct (Vnc.engine_run s0 acts). }
  intros p s f Hr Hf Hrd Hrf Hip. pose proof (engine_run_inv s0 acts p s Hs Ha Hr) as Hinv.
  assert (Hshown : frame (projection s) = Some f) by exact (Vnc.quiet_shown p s f Hinv Hf Hrd Hrf Hip).
  destruct Hinv as (_ & Halive & _). cbn in Halive. split; [done|]. split; [done|].
  intros v Hv Hlt. destruct Halive as [_ Hp].
  destruct (take_receive_ok (projection s) v Hp Hv) as (pr & o & Ht & _ & _ & Ho).
  destruct o as [bytes|].
  - destruct Ho as (v' & Hrec & _ & Hup & _). exists pr, bytes, v'. split; [done|]. split; [done|].
    by destruct (Hup f Hshown Hlt).
  - destruct Ho as (_ & [Hn|Heq] & _); [congruence|lia].
Qed.

(** A completed update is never left behind: when the server completes
    an update, the session shows the surface at once, or the flush timer is
    armed no later than one publish interval from then and shows it when it
    fires. *)
Theorem completed_update_is_shown s0 acts p s f now :
  session_ok s0 → Forall Vnc.action_typed acts → Vnc.engine_run s0 acts = Ok (p, s) →
  Vnc.frame p = Some f → (∀ last, Vnc.last_publish p = Some last → last ≤ now) →
  ∃ p' s', Vnc.engine_step (p, s) (Vnc.Server Vnc.FramebufferUpdateComplete now) = Ok (p', s') ∧
    Vnc.frame p' = Some f ∧
    (frame (projection s') = Some f ∨
     Vnc.flush_ready p' = true ∧ now < Vnc.deadline p' now ≤ now + Vnc.PUBLISH_INTERVAL ∧
     ∀ t, Vnc.deadline p' t ≤ t →
       ∃ p'' s'', Vnc.engine_step (p', s') (Vnc.Timer t) = Ok (p'', s'') ∧
         frame (projection s'') = Some f).
Proof.
  intros Hs Ha Hr Hf Hlast. pose proof (engine_run_inv s0 acts p s Hs Ha Hr) as Hinv.
  destruct (Vnc.complete_outcome p s now f Hinv Hf) as (p' & s' & Hstep & Hinv' & Hf' & Hip & Hcase).
  exists p', s'. split; [done|]. split; [done|].
  destruct Hcase as [|(Hrd & last & Hl' & Hl & Hnow)]; [by left|]. right.
  assert (Hflush : Vnc.flush_ready p' = true).
  { unfold Vnc.flush_ready, Vnc.has_pending. by rewrite Hrd, Hf', Hip. }
  split; [done|]. split.
  { unfold Vnc.deadline. rewrite Hl'. pose proof (Hlast last Hl). lia. }
  intros t Ht. destruct (Vnc.timer_outcome p' s' f t Hinv' Hf' Hrd) as (p'' & s'' & ? & _ & ?);
    [by rewrite Hip|done|]. eauto.
Qed.

End Vnc.

(** A decoder that refuses every image. *)
Definition no_jpeg : Vnc.JpegDecoder := {| Vnc.jpeg_info _ := None; Vnc.jpeg_decode _ _ := None |}.

(** A server that announces a 4 by 1 screen, fills it, and then changes one
    pixel inside the publish interval. *)
Definition demo_acts : list Vnc.Action :=
  [Vnc.Server (Vnc.SetResolution 4 1) 0;
   Vnc.Server (Vnc.RawImage (mkRect 0 0 4 1) [1; 1; 1; 0; 2; 2; 2; 0; 3; 3; 3; 0; 4; 4; 4; 0]) 0;
   Vnc.Server Vnc.FramebufferUpdateComplete 0;
   Vnc.Server (Vnc.RawImage (mkRect 3 0 1 1) [9; 9; 9; 0]) 5].

Lemma demo_acts_typed acts : acts ⊆ demo_acts ++ [Vnc.Server Vnc.FramebufferUpdateComplete 5; Vnc.Timer 16] →
  Forall Vnc.action_typed acts.
Proof.
  intros Hs. apply Forall_forall. intros a Ha%Hs. unfold demo_acts in Ha. simpl in Ha.
  repeat (apply elem_of_cons in Ha as [->|Ha]; [by vm_compute|]). by apply elem_of_nil in Ha.
Qed.

Lemma vnc_screen_reaches_canvas_witness :
  let acts := demo_acts ++ [Vnc.Server Vnc.FramebufferUpdateComplete 5; Vnc.Timer 16] in
  ∃ p s f, @Vnc.engine_run no_jpeg Session session_sink demo0 acts = Ok (p, s) ∧
    rgba f = [1; 1; 1; 255; 2; 2; 2; 255; 3; 3; 3; 255; 9; 9; 9; 255] ∧
    frame (projection s) = Some f.
Proof.
  intros acts.
  destruct (@vnc_screen_reaches_canvas no_jpeg demo0 acts) as [_ H];
    [by apply session_new_ok|by apply demo_acts_typed|].
  destruct (@Vnc.engine_run no_jpeg Session session_sink demo0 acts) as [[p s]|e|] eqn:Hr;
    [|by vm_compute in Hr..].
  destruct (Vnc.frame p) as [f|] eqn:Hf; [|vm_compute in Hr; injection Hr as <- <-; done].
  exists p, s, f. split; [done|]. vm_compute in Hr. injection Hr as <- <-. cbn in Hf. injection Hf as <-.
  split; [done|]. by eapply H.
Defined.

Lemma completed_update_is_shown_witness :
  ∃ p s f p' s', @Vnc.engine_run no_jpeg Session session_sink demo0 demo_acts = Ok (p, s) ∧
    Vnc.frame p = Some f ∧
    @Vnc.engine_step no_jpeg Session session_sink (p, s) (Vnc.Server Vnc.FramebufferUpdateComplete 5)
      = Ok (p', s').
Proof.
  destruct (@Vnc.engine_run no_jpeg Session session_sink demo0 demo_acts) as [[p s]|e|] eqn:Hr;
    [|by vm_compute in Hr..].
  destruct (Vnc.frame p) as [f|] eqn:Hf; [|vm_compute in Hr; injection Hr as <- <-; done].
  destruct (@completed_update_is_shown no_jpeg demo0 demo_acts p s f 5) as (p' & s' & Hs & _ & _).
  - apply session_new_ok.
  - apply demo_acts_typed. unfold demo_acts. set_solver.
  - exact Hr.
  - exact Hf.
  - vm_compute in Hr. injection Hr as <- <-. intros last [= <-]. lia.
  - by exists p, s, f, p', s'.
Defined.

End Pipeline.
