(* ===== verification/PluginOperations.v ===== *)
(** * Planning of remote operations for plugins

    crates/plugin-platform/src/operations: the typed operations a plugin may
    request (types.rs), the checks on their parameters and the shell quoting
    (validation.rs), and the planner that turns an operation into one shell
    command with its class, approval and limits (plan.rs). The digest of the
    crontab content comes from a library and is a parameter. In the literals
    of commands a backquote stands for the double quote, which they contain
    and no literal of the source has a backquote. *)

From S2P Require Import Prelude RustStr.

Module Ops.

(** ** Types *)

Inductive OperationClass : Type := ReadOnly | Mutation.
Inductive ApprovalRequirement : Type := ApprovalNone | CoreProtectedPerExecution.
Inductive OperationKind : Type := KText | KCrontabSnapshot | KProcessSnapshot | KCpuUsage.

#[global] Instance OperationClass_eq_dec : EqDecision OperationClass.
Proof. solve_decision. Defined.

Definition CPU_USAGE_SAMPLE_DURATION_MS : Z := 200.
Definition CPU_USAGE_MAX_OUTPUT_BYTES : Z := 4096.

Record ProcessIdentity := mkIdentity { pid : Z; start_time_ticks : Z }.

Inductive OperationPrecondition : Type :=
| PProcessIdentity (i : ProcessIdentity)
| CrontabSha256 (hash : str)
| NginxConfigTest.

Record OperationReview := mkReview { action : str; target : option str; detail : option str }.

Record OperationPlan := mkPlan {
  command : str;
  stdin : option (list Z);
  class : OperationClass;
  approval : ApprovalRequirement;
  timeout : Z;
  max_output_bytes : Z;
  kind : OperationKind;
  recognizes_internal_markers : bool;
  preconditions : list OperationPrecondition;
  command_is_sensitive : bool;
  stdin_is_sensitive : bool;
  review_of : OperationReview }.

Inductive DockerOperation : Type :=
| DList (all : bool)
| DStats
| DLogs (container_id : str) (lines : Z) (since_seconds : option Z)
| DStart (container_id : str)
| DStop (container_id : str) (timeout_seconds : Z)
| DRestart (container_id : str) (timeout_seconds : Z).

Inductive SystemdOperation : Type :=
| SList
| SStatus (unit : str)
| SJournal (unit : str) (lines : Z)
| SStart (unit : str)
| SStop (unit : str)
| SRestart (unit : str)
| SEnable (unit : str)
| SDisable (unit : str).

Inductive DiskOperation : Type :=
| Filesystems
| Usage (path : str) (max_depth : Z)
| LargeFiles (path : str) (minimum_bytes limit : Z).

Inductive NetworkOperation : Type :=
| Dns (host : str)
| Tcp (host : str) (port timeout_seconds : Z)
| Http (url : str) (timeout_seconds : Z)
| Routes
| RouteTo (destination : str)
| Tls (host : str) (port : Z) (server_name : option str) (timeout_seconds : Z).

Inductive ProcessSort : Type := Cpu | Memory.
Inductive ProcessSignal : Type := Term | Kill.

Inductive ProcessOperation : Type :=
| PList (sort : ProcessSort)
| Sockets
| Detail (pid : Z)
| CpuUsage
| Signal (identity : ProcessIdentity) (signal : ProcessSignal).

Inductive CrontabOperation : Type :=
| CRead
| CReplace (expected_sha256 content : str).

Inductive NginxOperation : Type := Sites | ConfigTest | Reload.

Inductive CustomOperation : Type :=
| Shell (command : str) (timeout_seconds max_output_bytes : Z).

Inductive RemoteOperation : Type :=
| Docker (o : DockerOperation)
| Systemd (o : SystemdOperation)
| Disk (o : DiskOperation)
| Network (o : NetworkOperation)
| Process (o : ProcessOperation)
| Crontab (o : CrontabOperation)
| Nginx (o : NginxOperation)
| Custom (o : CustomOperation).

Inductive PlanError : Type :=
| InvalidParameter (field : str)
| ParameterTooLarge (field : str) (maximum : Z)
| KnownSecretMaterial
| CommandTooLarge.

(** ** Validation *)

Definition MAX_COMMAND_BYTES : Z := 65536.
Definition MAX_PATH_BYTES : Z := 4096.

Definition shell_quote (value : str) : str :=
  [39] ++ concat (map (λ c, if c =? 39 then [39; 34; 39; 34; 39] else [c]) value) ++ [39].

Definition invalid {A} (field : string) : rres PlanError A := Err (InvalidParameter (lit field)).

Definition text (value : str) (field : string) (maximum : Z) : rres PlanError unit :=
  if match value with [] => true | _ => false end ||
     existsb (λ b, (b =? 0) || (b <? 32) || (b =? 127)) (utf8_encode value)
  then invalid field
  else if maximum <? str_len value then Err (ParameterTooLarge (lit field) maximum)
  else Ok tt.

(** The bytes of an identifier. *)
Definition identifier_byte (b : Z) : bool :=
  is_ascii_alphanumeric b || (b =? 95) || (b =? 46) || (b =? 45) || (b =? 64) || (b =? 58).

Definition identifier (value : str) (field : string) (maximum : Z) : rres PlanError unit :=
  let? _ := text value field maximum in
  if starts_with (lit "-") value || negb (forallb identifier_byte (utf8_encode value))
  then invalid field else Ok tt.

Definition path_ok (value : str) : rres PlanError unit := text value "path" MAX_PATH_BYTES.

Definition host_ok (value : str) (field : string) : rres PlanError unit :=
  let? _ := identifier value field 253 in
  if contains_char value 64 then invalid field else Ok tt.

(** The text before the first character of a set, as [split(..).next()]. *)
Fixpoint before_any (stop : Z → bool) (s : str) : str :=
  match s with
  | [] => []
  | c :: s' => if stop c then [] else c :: before_any stop s'
  end.

(** [split_once("://")]. *)
Fixpoint split_scheme (s : str) : option str :=
  if starts_with (lit "://") s then Some (drop 3 s)
  else match s with [] => None | _ :: s' => split_scheme s' end.

Definition http_url (value : str) : rres PlanError unit :=
  let? _ := text value "url" 2048 in
  if negb (starts_with (lit "http://") value || starts_with (lit "https://") value) then invalid "url"
  else
    let tail := default [] (split_scheme value) in
    let authority := before_any (λ c, (c =? 47) || (c =? 63) || (c =? 35)) tail in
    if match authority with [] => true | _ => false end || contains_char authority 64
    then invalid "url" else Ok tt.

Definition is_ascii_hexdigit (b : Z) : bool :=
  is_ascii_digit b || ((97 <=? b) && (b <=? 102)) || ((65 <=? b) && (b <=? 70)).

Definition sha256_ok (value : str) (field : string) : rres PlanError str :=
  if negb (str_len value =? 64) || negb (forallb is_ascii_hexdigit (utf8_encode value))
  then invalid field else Ok (to_ascii_lowercase value).

Definition KNOWN_SECRET_MARKERS : list str :=
  [lit "-----begin private key-----"; lit "-----begin openssh private key-----";
   lit "authorization: bearer "; lit "proxy-authorization: bearer ";
   lit "aws_secret_access_key="; lit "private_key="].

Definition custom_shell (value : str) : rres PlanError unit :=
  if match value with [] => true | _ => false end || (16384 <? str_len value) ||
     existsb (Z.eqb 0) (utf8_encode value)
  then invalid "command"
  else if existsb (contains_str (to_ascii_lowercase value)) KNOWN_SECRET_MARKERS
  then Err KnownSecretMaterial
  else Ok tt.

(** ** Planning *)

Definition MAX_OUTPUT : Z := 65536.
Definition MAX_CRONTAB_BYTES : Z := 32768.

(** A literal of the source with its double quotes written as backquotes. *)
Definition sh (s : string) : str := map (λ c, if c =? 96 then 34 else c) (lit s).

Record Spec := mkSpec {
  s_command : str;
  tools : list str;
  s_class : OperationClass;
  timeout_seconds : Z;
  s_max_output_bytes : Z;
  s_kind : OperationKind;
  s_markers : bool;
  s_preconditions : list OperationPrecondition;
  s_stdin : option (list Z);
  s_command_is_sensitive : bool;
  s_stdin_is_sensitive : bool }.

Definition spec (cmd : str) (ts : list string) (c : OperationClass) : Spec :=
  mkSpec cmd (map lit ts) c 15 MAX_OUTPUT KText true [] None false false.

Definition with_timeout (s : Spec) (t : Z) : Spec :=
  mkSpec (s_command s) (tools s) (s_class s) t (s_max_output_bytes s) (s_kind s) (s_markers s)
    (s_preconditions s) (s_stdin s) (s_command_is_sensitive s) (s_stdin_is_sensitive s).
Definition with_output (s : Spec) (n : Z) : Spec :=
  mkSpec (s_command s) (tools s) (s_class s) (timeout_seconds s) n (s_kind s) (s_markers s)
    (s_preconditions s) (s_stdin s) (s_command_is_sensitive s) (s_stdin_is_sensitive s).
Definition with_kind (s : Spec) (k : OperationKind) : Spec :=
  mkSpec (s_command s) (tools s) (s_class s) (timeout_seconds s) (s_max_output_bytes s) k (s_markers s)
    (s_preconditions s) (s_stdin s) (s_command_is_sensitive s) (s_stdin_is_sensitive s).
Definition with_precondition (s : Spec) (p : OperationPrecondition) : Spec :=
  mkSpec (s_command s) (tools s) (s_class s) (timeout_seconds s) (s_max_output_bytes s) (s_kind s)
    (s_markers s) (s_preconditions s ++ [p]) (s_stdin s) (s_command_is_sensitive s)
    (s_stdin_is_sensitive s).
Definition with_sensitive_command (s : Spec) (b : bool) : Spec :=
  mkSpec (s_command s) (tools s) (s_class s) (timeout_seconds s) (s_max_output_bytes s) (s_kind s)
    (s_markers s) (s_preconditions s) (s_stdin s) b (s_stdin_is_sensitive s).
Definition with_sensitive_stdin (s : Spec) (bytes : list Z) : Spec :=
  mkSpec (s_command s) (tools s) (s_class s) (timeout_seconds s) (s_max_output_bytes s) (s_kind s)
    (s_markers s) (s_preconditions s) (Some bytes) (s_command_is_sensitive s) true.
Definition without_markers (s : Spec) : Spec :=
  mkSpec (s_command s) (tools s) (s_class s) (timeout_seconds s) (s_max_output_bytes s) (s_kind s)
    false (s_preconditions s) (s_stdin s) (s_command_is_sensitive s) (s_stdin_is_sensitive s).

Definition in_range (lo v hi : Z) : bool := (lo <=? v) && (v <=? hi).

Definition docker (o : DockerOperation) : rres PlanError Spec :=
  match o with
  | DList all =>
      Ok (spec (sh "docker ps" ++ (if all then sh " --all" else []) ++
        sh " --no-trunc --format '{{.ID}}\t{{.Names}}\t{{.Image}}\t{{.Status}}\t{{.Ports}}'")
        ["docker"%string] ReadOnly)
  | DStats =>
      Ok (with_output (with_timeout (spec
        (sh "docker stats --no-stream --format '{{.ID}}\t{{.Name}}\t{{.CPUPerc}}\t{{.MemUsage}}\t{{.NetIO}}\t{{.BlockIO}}'")
        ["docker"%string] ReadOnly) 20) MAX_OUTPUT)
  | DLogs container_id lines since_seconds =>
      let? _ := identifier container_id "container_id" 128 in
      if negb (in_range 1 lines 10000) then invalid "lines"
      else
        let since := match since_seconds with
                     | Some seconds => sh " --since " ++ to_decimal seconds ++ sh "s"
                     | None => []
                     end in
        Ok (with_output (with_timeout (spec
          (sh "docker logs --tail " ++ to_decimal lines ++ since ++ sh " -- " ++ shell_quote container_id)
          ["docker"%string] ReadOnly) 30) MAX_OUTPUT)
  | DStart container_id =>
      let? _ := identifier container_id "container_id" 128 in
      Ok (spec (sh "docker start -- " ++ shell_quote container_id) ["docker"%string] Mutation)
  | DStop container_id t =>
      let? _ := identifier container_id "container_id" 128 in
      if 300 <? t then invalid "timeout_seconds"
      else Ok (with_timeout (spec
        (sh "docker stop --time " ++ to_decimal t ++ sh " -- " ++ shell_quote container_id)
        ["docker"%string] Mutation) (t + 15))
  | DRestart container_id t =>
      let? _ := identifier container_id "container_id" 128 in
      if 300 <? t then invalid "timeout_seconds"
      else Ok (with_timeout (spec
        (sh "docker restart --time " ++ to_decimal t ++ sh " -- " ++ shell_quote container_id)
        ["docker"%string] Mutation) (t + 30))
  end.

Definition unit_name (u : str) : rres PlanError unit := identifier u "unit" 256.

(** The mutations of a unit share one arm. *)
Definition systemd_verb (verb : string) (u : str) : rres PlanError Spec :=
  let? _ := unit_name u in
  Ok (with_timeout (spec (sh "systemctl " ++ lit verb ++ sh " -- " ++ shell_quote u)
    ["systemctl"%string] Mutation) 45).

Definition systemd (o : SystemdOperation) : rres PlanError Spec :=
  match o with
  | SList =>
      Ok (spec (sh "systemctl list-units --type=service --all --no-pager --plain --no-legend")
        ["systemctl"%string] ReadOnly)
  | SStatus u =>
      let? _ := unit_name u in
      Ok (spec (sh "systemctl status --no-pager --full -- " ++ shell_quote u ++
        sh "; norishell_systemd_status=$?; if [ `$norishell_systemd_status` -eq 3 ]; then exit 0; fi; exit `$norishell_systemd_status`")
        ["systemctl"%string] ReadOnly)
  | SJournal u lines =>
      let? _ := unit_name u in
      if negb (in_range 1 lines 10000) then invalid "lines"
      else Ok (with_output (with_timeout (spec
        (sh "journalctl --no-pager --output=short-iso --lines=" ++ to_decimal lines ++
         sh " --unit=" ++ shell_quote u) ["journalctl"%string] ReadOnly) 30) MAX_OUTPUT)
  | SStart u => systemd_verb "start" u
  | SStop u => systemd_verb "stop" u
  | SRestart u => systemd_verb "restart" u
  | SEnable u => systemd_verb "enable" u
  | SDisable u => systemd_verb "disable" u
  end.

(** The scratch directory of the disk commands. *)
Definition disk_work : str :=
  sh "work=$(mktemp -d) || exit 1; raw=`$work/raw`; sorted=`$work/sorted`; trap 'rm -rf -- `$work`' EXIT HUP INT TERM; ".

Definition disk (o : DiskOperation) : rres PlanError Spec :=
  match o with
  | Filesystems => Ok (spec (sh "df -P -B1") ["df"%string] ReadOnly)
  | Usage value max_depth =>
      let? _ := path_ok value in
      if 16 <? max_depth then invalid "max_depth"
      else Ok (with_output (with_timeout (spec
        (disk_work ++ sh "du -x -B1 --max-depth=" ++ to_decimal max_depth ++ sh " -- " ++
         shell_quote value ++
         sh " >`$raw` && sort -nr -- `$raw` >`$sorted` && head -n 500 -- `$sorted`")
        ["du"%string; "mktemp"%string; "rm"%string; "sort"%string; "head"%string] ReadOnly) 45) MAX_OUTPUT)
  | LargeFiles value minimum_bytes limit =>
      let? _ := path_ok value in
      if minimum_bytes =? 0 then invalid "minimum_bytes"
      else if negb (in_range 1 limit 1000) then invalid "limit"
      else Ok (with_output (with_timeout (spec
        (disk_work ++ sh "find -- " ++ shell_quote value ++ sh " -xdev -type f -size +" ++
         to_decimal (Z.max 0 (minimum_bytes - 1)) ++
         sh "c -printf '%s\t%p\n' >`$raw` && sort -nr -- `$raw` >`$sorted` && head -n " ++
         to_decimal limit ++ sh " -- `$sorted`")
        ["mktemp"%string; "rm"%string; "find"%string; "sort"%string; "head"%string] ReadOnly) 60) MAX_OUTPUT)
  end.

Definition bounded_timeout (t : Z) : rres PlanError unit :=
  if negb (in_range 1 t 60) then invalid "timeout_seconds" else Ok tt.

Definition port_and_timeout (port t : Z) : rres PlanError unit :=
  if port =? 0 then invalid "port" else bounded_timeout t.

(** The write-out format of curl; it begins and ends with a newline. *)
Definition http_metrics : str :=
  [10] ++ lit "NORISHELL_HTTP_METRICS status=%{http_code} remote_ip=%{remote_ip} dns=%{time_namelookup} connect=%{time_connect} tls=%{time_appconnect} first_byte=%{time_starttransfer} total=%{time_total}" ++ [10].

Definition network (o : NetworkOperation) : rres PlanError Spec :=
  match o with
  | Dns value =>
      let? _ := host_ok value "host" in
      Ok (spec (sh "getent ahosts -- " ++ shell_quote value) ["getent"%string] ReadOnly)
  | Tcp value port t =>
      let? _ := host_ok value "host" in
      let? _ := port_and_timeout port t in
      Ok (spec (sh "timeout " ++ to_decimal t ++ sh " nc -z -v -w " ++ to_decimal t ++ sh " -- " ++
        shell_quote value ++ sh " " ++ to_decimal port) ["timeout"%string; "nc"%string] ReadOnly)
  | Http url t =>
      let? _ := http_url url in
      let? _ := bounded_timeout t in
      Ok (with_sensitive_command (with_output (with_timeout (spec
        (sh "curl --disable --silent --show-error --include --max-time " ++ to_decimal t ++
         sh " --max-filesize " ++ to_decimal MAX_OUTPUT ++ sh " --write-out " ++
         shell_quote http_metrics ++ sh " --url " ++ shell_quote url) ["curl"%string] ReadOnly)
        (t + 5)) MAX_OUTPUT) (contains_char url 63 || contains_char url 35))
  | Routes => Ok (spec (sh "ip -details route show") ["ip"%string] ReadOnly)
  | RouteTo destination =>
      let? _ := host_ok destination "destination" in
      Ok (spec (sh "ip route get " ++ shell_quote destination) ["ip"%string] ReadOnly)
  | Tls value port server_name t =>
      let? _ := host_ok value "host" in
      let? _ := port_and_timeout port t in
      let? _ := match server_name with Some n => host_ok n "server_name" | None => Ok tt end in
      let connect := if contains_char value 58
                     then lit "[" ++ value ++ lit "]:" ++ to_decimal port
                     else value ++ lit ":" ++ to_decimal port in
      let name := default value server_name in
      Ok (with_timeout (spec
        (sh "timeout " ++ to_decimal t ++ sh " openssl s_client -brief -connect " ++ shell_quote connect ++
         sh " -servername " ++ shell_quote name ++ sh " </dev/null")
        ["timeout"%string; "openssl"%string] ReadOnly) (t + 5))
  end.

Definition valid_pid (p : Z) : rres PlanError unit :=
  if (p <? 2) || (2147483647 <? p) then invalid "pid" else Ok tt.

Definition process_identity_prefix (p : Z) (expected : option Z) : str :=
  (sh "pid=" ++ to_decimal p ++
   sh "; stat=$(cat -- `/proc/$pid/stat`) || { printf '%s\n' 'NORISHELL_OP_ERROR:process-identity-mismatch' >&2; exit 73; }; set -- ${stat##*) }; actual_start=${20-}; [ -n `$actual_start` ] || { printf '%s\n' 'NORISHELL_OP_ERROR:process-identity-mismatch' >&2; exit 73; }; ") ++
  match expected with
  | Some e =>
      sh "[ `$actual_start` = " ++ to_decimal e ++
      sh " ] || { printf '%s\n' 'NORISHELL_OP_ERROR:process-identity-mismatch' >&2; exit 73; }; "
  | None => []
  end.

Definition process (o : ProcessOperation) : rres PlanError Spec :=
  match o with
  | PList sort =>
      Ok (spec (sh "ps -eo pid=,ppid=,user=,stat=,pcpu=,pmem=,rss=,etimes=,comm= --sort=" ++
        match sort with Cpu => lit "-pcpu" | Memory => lit "-rss" end) ["ps"%string] ReadOnly)
  | Sockets => Ok (with_output (spec (sh "ss -H -n -l -t -u -p") ["ss"%string] ReadOnly) MAX_OUTPUT)
  | Detail p =>
      let? _ := valid_pid p in
      Ok (with_kind (spec
        (process_identity_prefix p None ++
         sh "printf 'NORISHELL_PROCESS_IDENTITY:%s:%s\n' `$pid` `$actual_start`; ps -p `$pid` -o pid=,ppid=,uid=,user=,stat=,pcpu=,pmem=,rss=,lstart=,etimes=,comm= || exit $?; if command -v systemctl >/dev/null 2>&1; then unit=$(awk -F/ '{ for (i = NF; i >= 1; i--) if ($i ~ /[.]service$/) { print $i; exit } }' `/proc/$pid/cgroup`); if [ -n `$unit` ]; then printf 'NORISHELL_PROCESS_SYSTEMD:available:%s\n' `$unit`; else printf '%s\n' 'NORISHELL_PROCESS_SYSTEMD:not-found'; fi; else printf '%s\n' 'NORISHELL_PROCESS_SYSTEMD:unavailable'; fi")
        ["cat"%string; "ps"%string; "awk"%string] ReadOnly) KProcessSnapshot)
  | CpuUsage =>
      Ok (with_kind (with_output (with_timeout (spec
        (sh "IFS= read -r first < /proc/stat || exit 1; printf 'NORISHELL_CPU_STAT:first:%s\n' `$first`; sleep 0.2; IFS= read -r second < /proc/stat || exit 1; printf 'NORISHELL_CPU_STAT:second:%s\n' `$second`")
        ["sleep"%string] ReadOnly) 2) CPU_USAGE_MAX_OUTPUT_BYTES) KCpuUsage)
  | Signal identity signal =>
      let? _ := valid_pid (pid identity) in
      if start_time_ticks identity =? 0 then invalid "start_time_ticks"
      else Ok (with_precondition (spec
        (process_identity_prefix (pid identity) (Some (start_time_ticks identity)) ++
         sh "kill -" ++ match signal with Term => lit "TERM" | Kill => lit "KILL" end ++ sh " `$pid`")
        ["cat"%string; "kill"%string] Mutation) (PProcessIdentity identity))
  end.

Definition crontab_work_prefix : str :=
  sh "umask 077; work=$(mktemp -d) || exit 1; current=`$work/current`; error=`$work/error`; trap 'rm -rf -- `$work`' EXIT HUP INT TERM; ".

Definition crontab_read_current : str :=
  sh "if crontab -l >`$current` 2>`$error`; then :; elif grep -q '^no crontab for ' `$error`; then : >`$current`; else cat -- `$error` >&2; exit 1; fi; ".

Definition crontab_tools : list string :=
  ["crontab"%string; "mktemp"%string; "rm"%string; "grep"%string; "sha256sum"%string; "cat"%string].

Definition nginx (o : NginxOperation) : Spec :=
  match o with
  | Sites =>
      spec (sh "find -- /etc/nginx/sites-enabled -mindepth 1 -maxdepth 1 -printf '%f\t%y\t%l\n'")
        ["find"%string] ReadOnly
  | ConfigTest => with_timeout (spec (sh "nginx -t") ["nginx"%string] ReadOnly) 20
  | Reload =>
      with_precondition (with_timeout (spec
        (sh "nginx -t; result=$?; [ `$result` -eq 0 ] || { printf '%s\n' 'NORISHELL_OP_ERROR:nginx-config-test-failed' >&2; exit `$result`; }; nginx -s reload")
        ["nginx"%string] Mutation) 30) NginxConfigTest
  end.

Definition custom (o : CustomOperation) : rres PlanError Spec :=
  match o with
  | Shell cmd t max_out =>
      let? _ := custom_shell cmd in
      if negb (in_range 1 t 120) then invalid "timeout_seconds"
      else if negb (in_range 1024 max_out MAX_OUTPUT) then invalid "max_output_bytes"
      else Ok (with_output (with_timeout (with_sensitive_command (without_markers
        (spec cmd [] Mutation)) true) t) max_out)
  end.

(** One tool check of the prelude of a command. *)
Definition tool_check (tool : str) : str :=
  sh "command -v " ++ shell_quote tool ++
  sh " >/dev/null 2>&1 || { printf '%s\n' 'NORISHELL_OP_ERROR:missing-tool:" ++ tool ++
  sh "' >&2; exit 127; }; ".

Definition full_command (s : Spec) : str :=
  sh "LC_ALL=C; export LC_ALL; " ++ concat (map tool_check (tools s)) ++ s_command s.

Definition finish (s : Spec) (r : OperationReview) : rres PlanError OperationPlan :=
  let cmd := full_command s in
  if MAX_COMMAND_BYTES <? str_len cmd then Err CommandTooLarge
  else Ok (mkPlan cmd (s_stdin s) (s_class s)
    (if decide (s_class s = Mutation) then CoreProtectedPerExecution else ApprovalNone)
    (timeout_seconds s) (s_max_output_bytes s) (s_kind s) (s_markers s) (s_preconditions s)
    (s_command_is_sensitive s) (s_stdin_is_sensitive s) r).

(** ** The review *)

(** [{:?}] of an optional number and of an optional string. A server name has
    passed [host_ok], so it has no character that [Debug] escapes. *)
Definition debug_number (n : option Z) : str :=
  match n with Some v => lit "Some(" ++ to_decimal v ++ lit ")" | None => lit "None" end.
Definition debug_name (s : option str) : str :=
  match s with Some v => sh "Some(`" ++ v ++ sh "`)" | None => lit "None" end.

Section Digest.
(** [format!("{:x}", Sha256::digest(bytes))]. *)
Context (sha256_hex : list Z → str).

Definition crontab (o : CrontabOperation) : rres PlanError Spec :=
  match o with
  | CRead =>
      Ok (with_output (with_kind (spec
        (crontab_work_prefix ++ crontab_read_current ++
         sh "hash=$(sha256sum `$current`); hash=${hash%% *}; printf 'NORISHELL_CRONTAB_SHA256:%s\n' `$hash`; cat -- `$current`")
        crontab_tools ReadOnly) KCrontabSnapshot) MAX_OUTPUT)
  | CReplace expected_sha256 content =>
      let? expected := sha256_ok expected_sha256 "expected_sha256" in
      if MAX_CRONTAB_BYTES <? str_len content
      then Err (ParameterTooLarge (lit "content") MAX_CRONTAB_BYTES)
      else if existsb (Z.eqb 0) (utf8_encode content) then invalid "content"
      else
        let replacement := sha256_hex (utf8_encode content) in
        Ok (with_sensitive_stdin (with_precondition (with_output (with_timeout (spec
          (crontab_work_prefix ++
           sh "replacement=`$work/replacement`; cat >`$replacement` || exit 1; replacement_hash=$(sha256sum `$replacement`); replacement_hash=${replacement_hash%% *}; [ `$replacement_hash` = " ++
           shell_quote replacement ++ sh " ] || exit 74; " ++ crontab_read_current ++
           sh "current_hash=$(sha256sum `$current`); current_hash=${current_hash%% *}; [ `$current_hash` = " ++
           shell_quote expected ++
           sh " ] || { printf '%s\n' 'NORISHELL_OP_ERROR:crontab-cas-mismatch' >&2; exit 73; }; crontab `$replacement`")
          crontab_tools Mutation) 20) MAX_OUTPUT) (CrontabSha256 expected)) (utf8_encode content))
  end.

Definition review (o : RemoteOperation) : OperationReview :=
  match o with
  | Docker (DList all) =>
      mkReview (lit "docker.list") None (Some (lit "all=" ++ if all then lit "true" else lit "false"))
  | Docker DStats => mkReview (lit "docker.stats") None None
  | Docker (DLogs c lines since) =>
      mkReview (lit "docker.logs") (Some c)
        (Some (lit "lines=" ++ to_decimal lines ++ lit ",sinceSeconds=" ++ debug_number since))
  | Docker (DStart c) => mkReview (lit "docker.start") (Some c) None
  | Docker (DStop c t) =>
      mkReview (lit "docker.stop") (Some c) (Some (lit "timeoutSeconds=" ++ to_decimal t))
  | Docker (DRestart c t) =>
      mkReview (lit "docker.restart") (Some c) (Some (lit "timeoutSeconds=" ++ to_decimal t))
  | Systemd SList => mkReview (lit "systemd.list") None None
  | Systemd (SStatus u) => mkReview (lit "systemd.status") (Some u) None
  | Systemd (SJournal u lines) =>
      mkReview (lit "systemd.journal") (Some u) (Some (lit "lines=" ++ to_decimal lines))
  | Systemd (SStart u) => mkReview (lit "systemd.start") (Some u) None
  | Systemd (SStop u) => mkReview (lit "systemd.stop") (Some u) None
  | Systemd (SRestart u) => mkReview (lit "systemd.restart") (Some u) None
  | Systemd (SEnable u) => mkReview (lit "systemd.enable") (Some u) None
  | Systemd (SDisable u) => mkReview (lit "systemd.disable") (Some u) None
  | Disk Filesystems => mkReview (lit "disk.filesystems") None None
  | Disk (Usage p d) => mkReview (lit "disk.usage") (Some p) (Some (lit "maxDepth=" ++ to_decimal d))
  | Disk (LargeFiles p n limit) =>
      mkReview (lit "disk.largeFiles") (Some p)
        (Some (lit "minimumBytes=" ++ to_decimal n ++ lit ",limit=" ++ to_decimal limit))
  | Network (Dns h) => mkReview (lit "network.dns") (Some h) None
  | Network (Tcp h port t) =>
      mkReview (lit "network.tcp") (Some (h ++ lit ":" ++ to_decimal port))
        (Some (lit "timeoutSeconds=" ++ to_decimal t))
  | Network (Http url t) =>
      mkReview (lit "network.http") (Some (before_any (λ c, (c =? 63) || (c =? 35)) url))
        (Some (lit "timeoutSeconds=" ++ to_decimal t))
  | Network Routes => mkReview (lit "network.routes") None None
  | Network (RouteTo d) => mkReview (lit "network.routeTo") (Some d) None
  | Network (Tls h port name t) =>
      mkReview (lit "network.tls") (Some (h ++ lit ":" ++ to_decimal port))
        (Some (lit "serverName=" ++ debug_name name ++ lit ",timeoutSeconds=" ++ to_decimal t))
  | Process (PList sort) =>
      mkReview (lit "process.list") None
        (Some (lit "sort=" ++ match sort with Cpu => lit "Cpu" | Memory => lit "Memory" end))
  | Process Sockets => mkReview (lit "process.sockets") None None
  | Process (Detail p) => mkReview (lit "process.detail") (Some (to_decimal p)) None
  | Process CpuUsage => mkReview (lit "process.cpuUsage") None None
  | Process (Signal i s) =>
      mkReview (lit "process.signal") (Some (to_decimal (pid i)))
        (Some (lit "signal=" ++ match s with Term => lit "Term" | Kill => lit "Kill" end ++
          lit ",startTimeTicks=" ++ to_decimal (start_time_ticks i)))
  | Crontab CRead => mkReview (lit "crontab.read") None None
  | Crontab (CReplace _ content) =>
      mkReview (lit "crontab.replace") None
        (Some (lit "replacementSha256=" ++ sha256_hex (utf8_encode content)))
  | Nginx Sites => mkReview (lit "nginx.sites") None None
  | Nginx ConfigTest => mkReview (lit "nginx.configTest") None None
  | Nginx Reload => mkReview (lit "nginx.reload") None (Some (lit "requiresConfigTest=true"))
  | Custom (Shell cmd _ _) => mkReview (lit "custom.shell") None (Some cmd)
  end.

Definition spec_of (o : RemoteOperation) : rres PlanError Spec :=
  match o with
  | Docker o => docker o
  | Systemd o => systemd o
  | Disk o => disk o
  | Network o => network o
  | Process o => process o
  | Crontab o => crontab o
  | Nginx o => Ok (nginx o)
  | Custom o => custom o
  end.

Definition plan (o : RemoteOperation) : rres PlanError OperationPlan :=
  let? s := spec_of o in finish s (review o).

End Digest.

End Ops.
