(* ===== verification/PluginShell.v ===== *)
(** * Plugin operations never become other commands

    How a POSIX shell reads quotes, and what it makes of the commands of
    [PluginOperations]: the active part of a planned command does not depend
    on the strings a plugin passes. Also the policy of the planner: which
    operations need approval, and the limits of every plan. *)

From S2P Require Import Prelude RustStr PluginOperations.

Module Shell.
Import Ops.

(** ** Quoting of the shell *)

Inductive mode : Type := Bare | BareEsc | Single | Double | DoubleVar | DoubleEsc.

(** A character of a command as the shell treats it: syntax ([Act]), part of an
    expansion inside double quotes ([Exp]), or plain text ([Lit]). *)
Inductive tok : Type := Act (c : Z) | Exp (c : Z) | Lit (c : Z).

#[global] Instance tok_eq_dec : EqDecision tok.
Proof. solve_decision. Defined.

Definition name_char (c : Z) : bool := is_ascii_alphanumeric c || (c =? 95).

(** A character inside double quotes. *)
Definition lex_double (c : Z) : list tok * mode :=
  if c =? 34 then ([], Bare)
  else if c =? 92 then ([], DoubleEsc)
  else if c =? 36 then ([Exp c], DoubleVar)
  else if c =? 96 then ([Exp c], Double)
  else ([Lit c], Double).

Definition lex_char (m : mode) (c : Z) : list tok * mode :=
  match m with
  | Bare =>
      if c =? 39 then ([], Single)
      else if c =? 34 then ([], Double)
      else if c =? 92 then ([], BareEsc)
      else ([Act c], Bare)
  | BareEsc => (if c =? 10 then [] else [Lit c], Bare)
  | Single => if c =? 39 then ([], Bare) else ([Lit c], Single)
  | Double => lex_double c
  | DoubleVar => if name_char c then ([Exp c], DoubleVar) else lex_double c
  | DoubleEsc =>
      (if (c =? 36) || (c =? 96) || (c =? 34) || (c =? 92) then [Lit c]
       else if c =? 10 then [] else [Lit 92; Lit c], Double)
  end.

Fixpoint lex (m : mode) (s : str) : list tok * mode :=
  match s with
  | [] => ([], m)
  | c :: s' =>
      let '(t, m1) := lex_char m c in
      let '(ts, m2) := lex m1 s' in (t ++ ts, m2)
  end.

Definition is_active (t : tok) : bool := match t with Lit _ => false | _ => true end.

(** What the shell parses of a command once its plain text is taken out. *)
Definition skeleton (s : str) : list tok := List.filter is_active (lex Bare s).1.

(** A fragment that ends outside every quote. *)
Definition balanced (s : str) : Prop := (lex Bare s).2 = Bare.

Lemma lex_app m a b :
  lex m (a ++ b) = ((lex m a).1 ++ (lex (lex m a).2 b).1, (lex (lex m a).2 b).2).
Proof.
  revert m. induction a as [|c a IH]; intros m; simpl; [by destruct (lex m b)|].
  destruct (lex_char m c) as [t m1]. rewrite IH. destruct (lex m1 a) as [ta m2]. simpl.
  destruct (lex m2 b) as [tb m3]. simpl. by rewrite app_assoc.
Qed.

Lemma lex_balanced a b : balanced a → lex Bare (a ++ b) = ((lex Bare a).1 ++ (lex Bare b).1, (lex Bare b).2).
Proof. intros Ha. rewrite lex_app. by rewrite Ha. Qed.

Lemma skeleton_app a b : balanced a → skeleton (a ++ b) = skeleton a ++ skeleton b.
Proof. intros Ha. unfold skeleton. rewrite lex_balanced by done. simpl. apply List.filter_app. Qed.

Lemma balanced_app a b : balanced a → balanced b → balanced (a ++ b).
Proof. unfold balanced. intros Ha Hb. rewrite lex_balanced by done. done. Qed.

Lemma balanced_nil : balanced [].
Proof. done. Qed.

(** A quoted value is exactly that text, outside quotes again. *)
Lemma lex_quote v : lex Bare (shell_quote v) = (map Lit v, Bare).
Proof.
  unfold shell_quote. rewrite lex_app. simpl.
  assert (Hv : ∀ rest, lex Single (concat (map (λ c, if c =? 39 then [39; 34; 39; 34; 39] else [c]) v) ++ rest)
    = (map Lit v ++ (lex Single rest).1, (lex Single rest).2)).
  { induction v as [|c v IH]; intros rest; simpl; [by destruct (lex Single rest)|].
    rewrite <- app_assoc, lex_app. destruct (Z.eqb_spec c 39) as [->|Hc]; cbn -[lex concat map].
    - rewrite IH. done.
    - assert (lex Single [c] = ([Lit c], Single)) as ->
        by (cbn; by rewrite (proj2 (Z.eqb_neq _ _) Hc)).
      cbn [fst snd]. rewrite IH. done. }
  rewrite (Hv [39]). cbn. by rewrite app_nil_r.
Qed.

Lemma skeleton_quote v : skeleton (shell_quote v) = [].
Proof. unfold skeleton. rewrite lex_quote. simpl. by induction v. Qed.

Lemma balanced_quote v : balanced (shell_quote v).
Proof. unfold balanced. by rewrite lex_quote. Qed.

(** A number is active text. *)
Lemma lex_digits s : forallb is_ascii_digit s = true → lex Bare s = (map Act s, Bare).
Proof.
  induction s as [|c s IH]; simpl; [done|]. intros [Hc Hs]%andb_true_iff.
  unfold is_ascii_digit in Hc. bprop.
  rewrite !(proj2 (Z.eqb_neq c _)) by lia. by rewrite IH.
Qed.

Lemma balanced_decimal n : 0 ≤ n → balanced (to_decimal n).
Proof. intros Hn. unfold balanced. by rewrite lex_digits by (by apply to_decimal_digits). Qed.

(** ** Operations without their strings *)

(** The operation with every string parameter replaced by a fixed valid one. *)
Definition erase (o : RemoteOperation) : RemoteOperation :=
  let x := lit "x" in
  match o with
  | Docker (DLogs _ lines since) => Docker (DLogs x lines since)
  | Docker (DStart _) => Docker (DStart x)
  | Docker (DStop _ t) => Docker (DStop x t)
  | Docker (DRestart _ t) => Docker (DRestart x t)
  | Systemd (SStatus _) => Systemd (SStatus x)
  | Systemd (SJournal _ lines) => Systemd (SJournal x lines)
  | Systemd (SStart _) => Systemd (SStart x)
  | Systemd (SStop _) => Systemd (SStop x)
  | Systemd (SRestart _) => Systemd (SRestart x)
  | Systemd (SEnable _) => Systemd (SEnable x)
  | Systemd (SDisable _) => Systemd (SDisable x)
  | Disk (Usage _ d) => Disk (Usage x d)
  | Disk (LargeFiles _ n limit) => Disk (LargeFiles x n limit)
  | Network (Dns _) => Network (Dns x)
  | Network (Tcp _ port t) => Network (Tcp x port t)
  | Network (Http _ t) => Network (Http (lit "http://x") t)
  | Network (RouteTo _) => Network (RouteTo x)
  | Network (Tls _ port _ t) => Network (Tls x port None t)
  | Crontab (CReplace _ _) => Crontab (CReplace (replicate 64 48) [])
  | other => other
  end.

(** The strings that reach the command. *)
Definition command_strings (o : RemoteOperation) : list str :=
  match o with
  | Docker (DLogs c _ _ | DStart c | DStop c _ | DRestart c _) => [c]
  | Systemd (SStatus u | SJournal u _ | SStart u | SStop u | SRestart u | SEnable u | SDisable u) => [u]
  | Disk (Usage p _ | LargeFiles p _ _) => [p]
  | Network (Dns h | Tcp h _ _ | RouteTo h) => [h]
  | Network (Http url _) => [url]
  | Network (Tls h _ name _) => [h; default h name]
  | Crontab (CReplace expected _) => [to_ascii_lowercase expected]
  | _ => []
  end.

(** The numbers of an operation are unsigned. *)
Definition op_typed (o : RemoteOperation) : Prop :=
  match o with
  | Docker (DLogs _ n since) => 0 ≤ n ∧ match since with Some s => 0 ≤ s | None => True end
  | Docker (DStop _ t | DRestart _ t) => 0 ≤ t
  | Systemd (SJournal _ n) => 0 ≤ n
  | Disk (Usage _ d) => 0 ≤ d
  | Disk (LargeFiles _ n limit) => 0 ≤ n ∧ 0 ≤ limit
  | Network (Tcp _ port t | Tls _ port _ t) => 0 ≤ port ∧ 0 ≤ t
  | Network (Http _ t) => 0 ≤ t
  | Process (Detail p) => 0 ≤ p
  | Process (Signal i _) => 0 ≤ pid i ∧ 0 ≤ start_time_ticks i
  | _ => True
  end.

Create HintDb shell.
#[export] Hint Resolve balanced_app balanced_quote balanced_decimal balanced_nil : shell.
#[export] Hint Extern 2 (balanced (sh _)) => vm_compute; reflexivity : shell.
#[export] Hint Extern 2 (balanced (lit _)) => vm_compute; reflexivity : shell.

Lemma balanced_tool_check t : Forall (λ c, c ≠ 39) t → balanced (tool_check t).
Proof.
  intros Ht. unfold tool_check. apply balanced_app; [eauto with shell|].
  apply balanced_app; [eauto with shell|]. unfold balanced. rewrite lex_app.
  set (m := (lex Bare (sh _)).2). assert (m = Single) as -> by (by vm_compute).
  cbn [fst snd]. rewrite lex_app.
  assert (∀ s, Forall (λ c, c ≠ 39) s → (lex Single s).2 = Single) as Hs.
  { induction 1 as [|c s Hc _ IH]; [done|]. simpl. rewrite (proj2 (Z.eqb_neq _ _) Hc).
    destruct (lex Single s). done. }
  rewrite (Hs t Ht). by vm_compute.
Qed.

(** The text [v] stands in the command as one run of plain text. *)
Definition occurs (v s : str) : Prop :=
  ∃ pre post, (lex Bare s).1 = pre ++ map Lit v ++ post.

Lemma occurs_skip v a b : balanced a → occurs v b → occurs v (a ++ b).
Proof.
  intros Ha (pre & post & Hb). exists ((lex Bare a).1 ++ pre), post.
  rewrite lex_balanced by done. cbn [fst]. by rewrite Hb, <- app_assoc.
Qed.

Lemma occurs_inside v x y b : occurs v (shell_quote (x ++ v ++ y) ++ b).
Proof.
  exists (map Lit x), (map Lit y ++ (lex Bare b).1).
  rewrite lex_balanced by apply balanced_quote. rewrite lex_quote. cbn [fst].
  by rewrite !map_app, <- !app_assoc.
Qed.

Lemma occurs_here v b : occurs v (shell_quote v ++ b).
Proof. pose proof (occurs_inside v [] [] b) as H. simpl in H. by rewrite app_nil_r in H. Qed.

Lemma occurs_end v : occurs v (shell_quote v).
Proof. rewrite <- (app_nil_r (shell_quote v)). apply occurs_here. Qed.

#[export] Hint Resolve occurs_here occurs_end : shell.
#[export] Hint Resolve occurs_skip | 5 : shell.

(** What is known of the command of an operation and of its erased form. *)
Definition same_shape (s s0 : Spec) (vs : list str) : Prop :=
  tools s0 = tools s ∧ Forall (Forall (λ c, c ≠ 39)) (tools s) ∧
  balanced (s_command s) ∧ balanced (s_command s0) ∧
  skeleton (s_command s) = skeleton (s_command s0) ∧
  Forall (λ v, occurs v (s_command s)) vs.

(** Splits a command into its fragments and drops the quoted ones. *)
Ltac skel :=
  repeat first
    [ rewrite skeleton_app by eauto 12 with shell
    | rewrite skeleton_quote
    | progress rewrite ?app_nil_r, ?app_nil_l ].

Ltac tools_plain :=
  apply (bool_decide_unpack _); vm_compute; exact I.

Ltac shape :=
  eexists; split; [reflexivity|];
  split; [reflexivity|]; split; [tools_plain|];
  split; [cbn [s_command with_timeout with_output with_kind with_precondition with_sensitive_command
            with_sensitive_stdin spec]; eauto 20 with shell|];
  split; [cbn [s_command with_timeout with_output with_kind with_precondition with_sensitive_command
            with_sensitive_stdin spec]; eauto 20 with shell|];
  cbn [s_command with_timeout with_output with_kind with_precondition with_sensitive_command
    with_sensitive_stdin spec];
  split; [skel; reflexivity|];
  repeat (apply Forall_cons; split; [eauto 20 with shell|]); try (by apply Forall_nil).

(** Exposes the plan of an erased operation: its parameters are valid. *)
Ltac erased :=
  cbn [erase spec_of docker systemd disk network process crontab command_strings op_typed] in *;
  unfold systemd_verb, unit_name, path_ok, host_ok, invalid in *;
  repeat match goal with
  | |- context [identifier (lit "x") ?f ?m] =>
      change (identifier (lit "x") f m) with (@Ok PlanError unit tt)
  | |- context [text (lit "x") ?f ?m] => change (text (lit "x") f m) with (@Ok PlanError unit tt)
  | |- context [http_url (lit "http://x")] =>
      change (http_url (lit "http://x")) with (@Ok PlanError unit tt)
  | |- context [contains_char (lit "x") ?c] => change (contains_char (lit "x") c) with false
  end; cbn [rbind].

Lemma Ok_inj {E A} (a b : A) : @Ok E A a = Ok b → b = a.
Proof. by intros [=]. Qed.

(** [rinv] without computing in the resulting command. *)
Ltac plan_inv H :=
  repeat match type of H with
  | Ok _ = Ok _ => apply Ok_inj in H
  | rbind ?e _ = Ok _ =>
      let E := fresh "E" in destruct e as [[]| |] eqn:E; cbn [rbind] in H; try discriminate H
  | rbind ?e _ = Ok _ =>
      let E := fresh "E" in destruct e eqn:E; cbn [rbind] in H; try discriminate H
  | (if ?c then Err _ else _) = Ok _ =>
      let E := fresh "E" in destruct c eqn:E; [discriminate H|]
  end.

Ltac erased_shape H :=
  erased; repeat match goal with Hc : _ ∧ _ |- _ => destruct Hc end;
  plan_inv H; subst; cbn [rbind];
  repeat match goal with
  | E : ?c = false |- context [if ?c then _ else _] => rewrite E
  | E : ?e = Ok _ |- context [rbind ?e _] => rewrite E; cbn [rbind]
  end; shape.

Section Digest.
Context (sha256_hex : list Z → str).

Lemma docker_shape o s :
  op_typed (Docker o) → docker o = Ok s →
  ∃ s0, spec_of sha256_hex (erase (Docker o)) = Ok s0 ∧ same_shape s s0 (command_strings (Docker o)).
Proof.
  intros Ht H. destruct o as [[]| |c n [since|]|c|c t|c t]; erased_shape H.
Qed.

Lemma systemd_shape o s :
  op_typed (Systemd o) → systemd o = Ok s →
  ∃ s0, spec_of sha256_hex (erase (Systemd o)) = Ok s0 ∧ same_shape s s0 (command_strings (Systemd o)).
Proof. intros Ht H. destruct o; erased_shape H. Qed.

#[local] Hint Extern 1 (balanced disk_work) => vm_compute; reflexivity : shell.
#[local] Hint Extern 1 (balanced crontab_work_prefix) => vm_compute; reflexivity : shell.
#[local] Hint Extern 1 (balanced crontab_read_current) => vm_compute; reflexivity : shell.
#[local] Hint Extern 1 (0 ≤ Z.max 0 _) => lia : shell.
#[local] Hint Extern 1 (0 ≤ MAX_OUTPUT) => done : shell.

Lemma disk_shape o s :
  op_typed (Disk o) → disk o = Ok s →
  ∃ s0, spec_of sha256_hex (erase (Disk o)) = Ok s0 ∧ same_shape s s0 (command_strings (Disk o)).
Proof. intros Ht H. destruct o; erased_shape H. Qed.

Lemma process_shape o s :
  op_typed (Process o) → process o = Ok s →
  ∃ s0, spec_of sha256_hex (erase (Process o)) = Ok s0 ∧ same_shape s s0 (command_strings (Process o)).
Proof.
  intros Ht H. destruct o as [[]| |p| |i []]; unfold process_identity_prefix in *; erased_shape H.
Qed.

Lemma tls_shape h port name t s :
  0 ≤ port → 0 ≤ t → network (Tls h port name t) = Ok s →
  ∃ s0, spec_of sha256_hex (erase (Network (Tls h port name t))) = Ok s0 ∧
    same_shape s s0 (command_strings (Network (Tls h port name t))).
Proof.
  intros Hp Ht H. erased. plan_inv H; subst; cbn [rbind].
  all: eexists; split; [reflexivity|]; split; [reflexivity|]; split; [tools_plain|];
    cbn [s_command with_timeout spec]; split; [eauto 20 with shell|]; split; [eauto 20 with shell|];
    split; [skel; reflexivity|].
  all: constructor; [|constructor; [|constructor]].
  all: do 3 (apply occurs_skip; [eauto with shell|]).
  all: try (destruct (contains_char h 58);
    [apply (occurs_inside h (lit "[") (lit "]:" ++ to_decimal port))|
     apply (occurs_inside h [] (lit ":" ++ to_decimal port))]).
  all: do 2 (apply occurs_skip; [eauto with shell|]); apply occurs_here.
Qed.

Lemma network_shape o s :
  op_typed (Network o) → network o = Ok s →
  ∃ s0, spec_of sha256_hex (erase (Network o)) = Ok s0 ∧ same_shape s s0 (command_strings (Network o)).
Proof.
  intros Ht H. destruct o; [| | | | |by destruct Ht; apply tls_shape]; erased_shape H.
Qed.

Lemma crontab_shape o s :
  crontab sha256_hex o = Ok s →
  ∃ s0, spec_of sha256_hex (erase (Crontab o)) = Ok s0 ∧ same_shape s s0 (command_strings (Crontab o)).
Proof.
  intros H. destruct o as [|expected content].
  { erased_shape H. }
  cbn [crontab] in H. destruct (sha256_ok expected "expected_sha256") as [e| |] eqn:He; try done.
  cbn [rbind] in H. unfold invalid in H. plan_inv H. subst s.
  assert (e = to_ascii_lowercase expected) as ->.
  { unfold sha256_ok in He. destruct (_ || _); [done|]. by injection He. }
  cbn [erase spec_of crontab command_strings].
  change (sha256_ok (replicate 64 48) "expected_sha256") with (@Ok PlanError str (replicate 64 48)).
  cbn [rbind]. change (MAX_CRONTAB_BYTES <? str_len []) with false.
  change (existsb (Z.eqb 0) (utf8_encode [])) with false. shape.
Qed.

Lemma nginx_shape o :
  ∃ s0, spec_of sha256_hex (erase (Nginx o)) = Ok s0 ∧ same_shape (nginx o) s0 (command_strings (Nginx o)).
Proof. destruct o; shape. Qed.

Lemma spec_shape o s :
  op_typed o → (∀ c, o ≠ Custom c) → spec_of sha256_hex o = Ok s →
  ∃ s0, spec_of sha256_hex (erase o) = Ok s0 ∧ same_shape s s0 (command_strings o).
Proof.
  intros Ht Hc H. destruct o as [o|o|o|o|o|o|o|o].
  - by apply docker_shape.
  - by apply systemd_shape.
  - by apply disk_shape.
  - by apply network_shape.
  - by apply process_shape.
  - by apply crontab_shape.
  - cbn [spec_of] in H. apply Ok_inj in H. subst s. apply nginx_shape.
  - by destruct (Hc o).
Qed.

Lemma balanced_tools ts : Forall (Forall (λ c, c ≠ 39)) ts → balanced (concat (map tool_check ts)).
Proof.
  induction 1 as [|t ts Ht _ IH]; [done|]. cbn [map concat].
  apply balanced_app; [by apply balanced_tool_check|done].
Qed.

(** C8. No parameter of a plugin operation can change the command. For every
    operation but the custom shell command, the shell syntax of the planned
    command (everything but plain text) is that of the same operation with
    its strings replaced by fixed ones; all quotes are closed; and each
    string stands in the command as plain text, whatever quotes, dollars or
    newlines it has. *)
Theorem no_shell_injection o p :
  op_typed o → (∀ c, o ≠ Custom c) → plan sha256_hex o = Ok p →
  ∃ s0, spec_of sha256_hex (erase o) = Ok s0 ∧
    skeleton (command p) = skeleton (full_command s0) ∧ balanced (command p) ∧
    Forall (λ v, occurs v (command p)) (command_strings o).
Proof.
  intros Ht Hc H. unfold plan in H. destruct (spec_of sha256_hex o) as [s| |] eqn:Hs; try done.
  cbn [rbind] in H. unfold finish in H. cbv zeta in H. destruct (_ <? _); [done|].
  apply Ok_inj in H. subst p. cbn [command].
  destruct (spec_shape o s Ht Hc Hs) as (s0 & H0 & Htools & Hplain & Hb & Hb0 & Hsk & Hocc).
  pose proof (balanced_tools (tools s) Hplain) as Hbt.
  exists s0. split; [done|]. unfold full_command. rewrite Htools.
  split; [by rewrite !skeleton_app, Hsk by eauto with shell|].
  split; [by eauto 10 with shell|].
  eapply Forall_impl; [exact Hocc|]. intros v Hv. by eauto 10 with shell.
Qed.

End Digest.

Lemma no_shell_injection_witness :
  let o := Disk (Usage (sh "/tmp/'; rm -rf `$HOME` #") 2) in
  ∃ p, plan (λ _, []) o = Ok p ∧ balanced (command p) ∧ occurs (sh "/tmp/'; rm -rf `$HOME` #") (command p).
Proof.
  intros o. destruct (plan (λ _, []) o) as [p| |] eqn:Hp; [|by vm_compute in Hp..].
  destruct (no_shell_injection (λ _, []) o p) as (s0 & _ & _ & Hb & Hocc);
    [cbn; lia|by intros c|exact Hp|].
  exists p. split; [done|]. split; [exact Hb|]. apply Forall_cons in Hocc. apply Hocc.
Defined.

(** ** Policy *)

(** The operations that change the remote host. *)
Definition mutates (o : RemoteOperation) : bool :=
  match o with
  | Docker (DStart _ | DStop _ _ | DRestart _ _) => true
  | Systemd (SStart _ | SStop _ | SRestart _ | SEnable _ | SDisable _) => true
  | Process (Signal _ _) => true
  | Crontab (CReplace _ _) => true
  | Nginx Reload => true
  | Custom _ => true
  | _ => false
  end.

(** What has to hold on the host at the time of execution. *)
Definition required (o : RemoteOperation) : list OperationPrecondition :=
  match o with
  | Process (Signal i _) => [PProcessIdentity i]
  | Crontab (CReplace expected _) => [CrontabSha256 (to_ascii_lowercase expected)]
  | Nginx Reload => [NginxConfigTest]
  | _ => []
  end.

Definition is_custom (o : RemoteOperation) : bool := match o with Custom _ => true | _ => false end.

Lemma spec_policy sha256_hex o s :
  op_typed o → spec_of sha256_hex o = Ok s →
  s_class s = (if mutates o then Mutation else ReadOnly) ∧
  1 ≤ timeout_seconds s ≤ 330 ∧ 1024 ≤ s_max_output_bytes s ≤ MAX_OUTPUT ∧
  s_markers s = negb (is_custom o) ∧ s_preconditions s = required o.
Proof.
  intros Ht H. unfold bounded_timeout, port_and_timeout, in_range in *.
  destruct o as [o|o|o|o|o|o|o|o]; destruct o;
    cbn [spec_of docker systemd disk network process crontab nginx custom op_typed] in *;
    unfold systemd_verb, port_and_timeout, bounded_timeout, invalid in *; plan_inv H; subst;
    cbn [s_class timeout_seconds s_max_output_bytes s_markers s_preconditions spec with_timeout with_output
      with_kind with_precondition with_sensitive_command with_sensitive_stdin without_markers
      mutates is_custom required negb app];
    unfold MAX_OUTPUT, CPU_USAGE_MAX_OUTPUT_BYTES, in_range in *;
    repeat match goal with Hc : _ ∧ _ |- _ => destruct Hc end; bprop;
    try (repeat split; (done || lia)).
  all: repeat match goal with
    | Hb : (if ?c then Err _ else _) = Ok _ |- _ => let E := fresh "E" in destruct c eqn:E; [discriminate Hb|]
    end; bprop; try (repeat split; (done || lia)).
  all: match goal with Hs : sha256_ok _ _ = Ok _ |- _ =>
      unfold sha256_ok in Hs; destruct (_ || _); [done|]; apply Ok_inj in Hs; rewrite Hs end;
    repeat split; lia.
Qed.



(** The path of the large-file search is passed to [find] after [--], where
    [find] still reads a word that begins with a dash as an expression. The
    planner accepts such a path for a read-only operation that needs no
    approval. *)
Example large_files_accepts_expression :
  ∃ p, plan (λ _, []) (Disk (LargeFiles (lit "-delete") 1 10)) = Ok p ∧
    approval p = ApprovalNone ∧ contains_str (command p) (lit "find -- '-delete' -xdev") = true.
Proof. eexists. split; [vm_compute; reflexivity|]. by vm_compute. Qed.

End Shell.
