(* ===== verification/PluginResults.v ===== *)
(** * Results of remote operations

    crates/plugin-platform/src/operations/result.rs: what becomes of the
    output of a planned command. A result is a typed value only when the
    command ended with status zero within its limits and its output has the
    shape the plan announces; everything else is a classified failure that
    keeps the captured output. The last part ties the parser to the planner of
    [PluginOperations]: what the commands print is read back, and what is read
    can be used as the precondition of a change. *)

From S2P Require Import Prelude RustStr ServerMetrics SshEndpoint PluginOperations PluginShell.

Module Results.
Import Ops.

(** ** Types *)

Record RawOperationResult := mkRaw {
  exit_status : option Z;
  stdout : list Z;
  stderr : list Z;
  timed_out : bool;
  output_limit_exceeded : bool }.

Inductive ParsedOperationOutput : Type :=
| OutText (bytes : list Z)
| OutCrontab (sha256 : str) (content : list Z)
| OutProcess (identity : ProcessIdentity) (details : list Z)
| OutCpu (basis_points sample_duration_ms : Z).

Record OperationSuccess := mkSuccess { output : ParsedOperationOutput; ok_stderr : list Z }.

Inductive PreconditionFailure : Type :=
| ProcessIdentityChanged
| CrontabChanged
| NginxConfigTestFailed.

Inductive OperationFailureKind : Type :=
| MissingTool (tool : str)
| PreconditionFailed (p : PreconditionFailure)
| TimedOut
| OutputLimitExceeded
| ConnectionClosed
| NonZeroExit (status : Z)
| InvalidStructuredOutput.

Record OperationFailure := mkFailure {
  fail_kind : OperationFailureKind; fail_stdout : list Z; fail_stderr : list Z }.

Inductive OperationOutcome : Type :=
| Succeeded (s : OperationSuccess)
| Failed (f : OperationFailure).

Inductive ResultParseError : Type := CapturedOutputExceedsPlan.

(** ** Parsing *)

Definition CRONTAB_HEADER : list Z := lit "NORISHELL_CRONTAB_SHA256:".
Definition PROCESS_HEADER : list Z := lit "NORISHELL_PROCESS_IDENTITY:".
Definition CPU_FIRST_HEADER : list Z := lit "NORISHELL_CPU_STAT:first:".
Definition CPU_SECOND_HEADER : list Z := lit "NORISHELL_CPU_STAT:second:".
Definition ERROR_PREFIX : str := lit "NORISHELL_OP_ERROR:".

(** [strip_prefix] with a text or a byte slice. *)
Definition strip (p s : list Z) : option (list Z) :=
  if starts_with p s then Some (drop (length p) s) else None.

Definition split_first_line (bytes : list Z) : option (list Z * list Z) := split_once 10 bytes.

Definition failure (k : OperationFailureKind) (raw : RawOperationResult) : OperationOutcome :=
  Failed (mkFailure k (stdout raw) (stderr raw)).

(** The bytes of a tool name. *)
Definition tool_byte (b : Z) : bool :=
  is_ascii_alphanumeric b || (b =? 95) || (b =? 46) || (b =? 45) || (b =? 43) || (b =? 47).

Definition valid_tool (tool : str) : bool :=
  negb (match tool with [] => true | _ => false end) && (str_len tool <=? 256) &&
  forallb tool_byte (utf8_encode tool).

(** The failure a line stands for, if it has one. *)
Definition classify_line (status : Z) (line : str) : option OperationFailureKind :=
  match strip ERROR_PREFIX line with
  | None => None
  | Some marker =>
      match (if status =? 127 then strip (lit "missing-tool:") marker else None) with
      | Some tool => if valid_tool tool then Some (MissingTool tool) else None
      | None => None
      end ∪
      (if status =? 73 then
         if bool_decide (marker = lit "process-identity-mismatch")
         then Some (PreconditionFailed ProcessIdentityChanged)
         else if bool_decide (marker = lit "crontab-cas-mismatch")
         then Some (PreconditionFailed CrontabChanged)
         else Some (NonZeroExit status)
       else if bool_decide (marker = lit "nginx-config-test-failed")
       then Some (PreconditionFailed NginxConfigTestFailed)
       else None)
  end.

Fixpoint classify_lines (status : Z) (ls : list str) : OperationFailureKind :=
  match ls with
  | [] => NonZeroExit status
  | l :: ls' => match classify_line status l with
                | Some k => k
                | None => classify_lines status ls'
                end
  end.

Definition classify_failure (status : Z) (err : list Z) : OperationFailureKind :=
  match from_utf8 err with
  | Some text => classify_lines status (lines text)
  | None => NonZeroExit status
  end.

Definition parse_cpu_counters (line : list Z) : option (list Z) :=
  line ← from_utf8 line;
  if existsb is_ascii_control (utf8_encode line) then None
  else match split_ascii_whitespace line with
       | [] => None
       | name :: fields =>
           if negb (bool_decide (name = lit "cpu")) then None
           else
             values ← mapM (parse_uint u64_max) fields;
             if (8 <=? zlen values) && (zlen values <=? 16) then Some (take 8 values) else None
       end.

(** The loop over the pairs of counters: the total and the idle time. *)
Fixpoint cpu_deltas (index : nat) (pairs : list (Z * Z)) (total idle : Z) : option (Z * Z) :=
  match pairs with
  | [] => Some (total, idle)
  | (first, second) :: pairs' =>
      delta ← checked_sub second first;
      total' ← checked_add u64_max total delta;
      if (index =? 3)%nat || (index =? 4)%nat
      then idle' ← checked_add u64_max idle delta; cpu_deltas (S index) pairs' total' idle'
      else cpu_deltas (S index) pairs' total' idle
  end.

Definition parse_cpu_usage (out : list Z) : option ParsedOperationOutput :=
  if CPU_USAGE_MAX_OUTPUT_BYTES <? zlen out then None
  else
    out ← strip_suffix 10 out;
    match split_char 10 out with
    | l1 :: ls =>
        first ← strip CPU_FIRST_HEADER l1;
        match ls with
        | l2 :: rest =>
            second ← strip CPU_SECOND_HEADER l2;
            match rest with
            | _ :: _ => None
            | [] =>
                first ← parse_cpu_counters first;
                second ← parse_cpu_counters second;
                '(total, idle) ← cpu_deltas 0 (zip first second) 0 0;
                if total =? 0 then None
                else
                  active ← checked_sub total idle;
                  scaled ← checked_mul u128_max active 10000;
                  basis_points ← try_from u16_max (scaled / total);
                  if 10000 <? basis_points then None
                  else Some (OutCpu basis_points CPU_USAGE_SAMPLE_DURATION_MS)
            end
        | [] => None
        end
    | [] => None
    end.

Definition parse_success (k : OperationKind) (out : list Z) : option ParsedOperationOutput :=
  match k with
  | KText => Some (OutText out)
  | KCrontabSnapshot =>
      '(header, content) ← split_first_line out;
      hash ← strip CRONTAB_HEADER header;
      if negb (zlen hash =? 64) || negb (forallb is_ascii_hexdigit hash) then None
      else text ← from_utf8 hash; Some (OutCrontab (to_ascii_lowercase text) content)
  | KProcessSnapshot =>
      '(header, details) ← split_first_line out;
      bytes ← strip PROCESS_HEADER header;
      text ← from_utf8 bytes;
      '(p, t) ← split_once 58 text;
      p ← parse_uint u32_max p;
      t ← parse_uint u64_max t;
      if (p <? 2) || (t =? 0) then None else Some (OutProcess (mkIdentity p t) details)
  | KCpuUsage => parse_cpu_usage out
  end.

Definition parse_result (plan : OperationPlan) (raw : RawOperationResult)
  : rres ResultParseError OperationOutcome :=
  if output_limit_exceeded raw then Ok (failure OutputLimitExceeded raw)
  else if max_output_bytes plan <? zlen (stdout raw) + zlen (stderr raw)
  then Err CapturedOutputExceedsPlan
  else if timed_out raw then Ok (failure TimedOut raw)
  else match exit_status raw with
  | None => Ok (failure ConnectionClosed raw)
  | Some status =>
      if negb (status =? 0) then
        let k := if recognizes_internal_markers plan then classify_failure status (stderr raw)
                 else NonZeroExit status in
        Ok (failure k raw)
      else match parse_success (kind plan) (stdout raw) with
           | Some out => Ok (Succeeded (mkSuccess out (stderr raw)))
           | None => Ok (failure InvalidStructuredOutput raw)
           end
  end.

(** ** What the planned commands print *)

(** A line of counters as the kernel writes it, [pad] blanks after the name. *)
Definition stat_line (pad : nat) (ns : list Z) : list Z :=
  lit "cpu" ++ replicate pad 32 ++ concat (map (cons 32) (map to_decimal ns)).

(** The output of the CPU sampling command. *)
Definition cpu_report (pad : nat) (a b : list Z) : list Z :=
  (CPU_FIRST_HEADER ++ stat_line pad a) ++ 10 :: (CPU_SECOND_HEADER ++ stat_line pad b) ++ [10].

(** The line a missing tool leaves on the error stream. *)
Definition missing_line (tool : str) : list Z := ERROR_PREFIX ++ lit "missing-tool:" ++ tool ++ [10].

Definition crontab_report (hash content : list Z) : list Z := CRONTAB_HEADER ++ hash ++ 10 :: content.

Definition process_report (i : ProcessIdentity) (details : list Z) : list Z :=
  PROCESS_HEADER ++ to_decimal (pid i) ++ 58 :: to_decimal (start_time_ticks i) ++ 10 :: details.

(** ** Reading it back *)

Lemma starts_with_app p s : starts_with p (p ++ s) = true.
Proof. induction p as [|c p IH]; simpl; [done|]. by rewrite Z.eqb_refl. Qed.

Lemma strip_app p s : strip p (p ++ s) = Some s.
Proof. unfold strip. by rewrite starts_with_app, drop_app_length. Qed.

Lemma strip_suffix_snoc c s : strip_suffix c (s ++ [c]) = Some s.
Proof. by apply SshEndpoint.strip_suffix_Some. Qed.

Lemma split_first_line_app x rest : 10 ∉ x → split_first_line (x ++ 10 :: rest) = Some (x, rest).
Proof. intros Hx. by apply split_once_Some. Qed.

(** Blanks between words do not matter. *)
Lemma tokens_blanks pad ts :
  Forall (λ w, w ≠ [] ∧ Forall (λ c, is_ascii_whitespace c = false) w) ts →
  tokens_from [] (replicate pad 32 ++ concat (map (cons 32) ts)) = ts.
Proof.
  intros Hts. induction pad as [|pad IH]; simpl; [|done].
  destruct Hts as [|w ts [Hw Hws] Hts]; [done|]. simpl. by apply split_ascii_whitespace_words.
Qed.

Lemma split_padded t pad ts :
  t ≠ [] → Forall (λ c, is_ascii_whitespace c = false) t →
  Forall (λ w, w ≠ [] ∧ Forall (λ c, is_ascii_whitespace c = false) w) ts →
  split_ascii_whitespace (t ++ replicate pad 32 ++ concat (map (cons 32) ts)) = t :: ts.
Proof.
  intros Hne Ht Hts. destruct pad as [|pad]; [by apply split_ascii_whitespace_words|].
  unfold split_ascii_whitespace. rewrite tokens_from_run by done. rewrite app_nil_r.
  cbn [replicate app tokens_from]. change (is_ascii_whitespace 32) with true. cbv iota.
  rewrite tokens_blanks, rev_involutive by done.
  destruct (rev t) eqn:E; [|done]. by apply (f_equal (@rev Z)) in E; rewrite rev_involutive in E.
Qed.

(** *** CPU counters *)

Lemma stat_line_char pad ns :
  Forall (λ n, 0 ≤ n ≤ u64_max) ns → Forall (λ c, Metrics.stat_char c = true) (stat_line pad ns).
Proof.
  intros Hns. unfold stat_line.
  assert (Forall (λ n, 0 ≤ n) ns) as Hn by (eapply Forall_impl; [exact Hns|simpl; lia]).
  pose proof (Metrics.stat_line_chars ns Hn) as H. apply Forall_app in H as [H1 H2].
  apply Forall_app. split; [done|]. apply Forall_app. split; [|done]. by apply Forall_replicate.
Qed.

Lemma stat_line_bound pad ns :
  Forall (λ n, 0 ≤ n ≤ u64_max) ns → zlen ns ≤ 16 → zlen (stat_line pad ns) ≤ 339 + Z.of_nat pad.
Proof.
  intros Hns Hl. unfold stat_line. rewrite !zlen_app. pose proof (Metrics.stat_line_zlen ns 16 Hns Hl).
  change (zlen (lit "cpu")) with 3.
  assert (zlen (replicate pad 32) = Z.of_nat pad) by (unfold zlen; by rewrite length_replicate). lia.
Qed.

Lemma mapM_to_decimal ns :
  Forall (λ n, 0 ≤ n ≤ u64_max) ns → mapM (parse_uint u64_max) (map to_decimal ns) = Some ns.
Proof.
  intros H. apply mapM_Some. induction H; simpl; constructor; auto using parse_uint_to_decimal.
Qed.

Lemma parse_cpu_counters_line pad ns :
  Forall (λ n, 0 ≤ n ≤ u64_max) ns → 8 ≤ zlen ns ≤ 16 →
  parse_cpu_counters (stat_line pad ns) = Some (take 8 ns).
Proof.
  intros Hns Hl. pose proof (stat_line_char pad ns Hns) as Hc.
  assert (forallb is_ascii (stat_line pad ns) = true) as Ha.
  { apply forallb_true_Forall. eapply Forall_impl; [exact Hc|].
    intros c Hx%Metrics.stat_char_cases. unfold is_ascii. lia. }
  unfold parse_cpu_counters. rewrite from_utf8_ascii by done. cbn [mbind option_bind].
  rewrite utf8_encode_ascii by done. rewrite (proj2 (existsb_false_Forall _ _)).
  2: { eapply Forall_impl; [exact Hc|]. intros c Hx%Metrics.stat_char_cases.
       unfold is_ascii_control. lia. }
  unfold stat_line. rewrite split_padded; [|done|by apply existsb_false_Forall|].
  2: { apply Forall_map. eapply Forall_impl; [exact Hns|]. intros n [Hn _].
       by apply Metrics.to_decimal_word. }
  rewrite bool_decide_eq_true_2 by done. cbn [negb]. rewrite mapM_to_decimal by done.
  cbn [mbind option_bind]. by replace ((8 <=? zlen ns) && (zlen ns <=? 16)) with true by lia.
Qed.

(** The time that passed between the samples: of each counter, in all, idle. *)
Definition deltas (a b : list Z) : list Z := zip_with (λ x y, y - x) (take 8 a) (take 8 b).
Definition total_time (a b : list Z) : Z := foldr Z.add 0 (deltas a b).
Definition idle_time (a b : list Z) : Z := deltas a b !!! 3%nat + deltas a b !!! 4%nat.

(** The share of busy time in hundredths of a percent; none when a counter
    went back, when no time passed, or when the total is not a [u64]. *)
Definition cpu_share (a b : list Z) : option Z :=
  if forallb (Z.leb 0) (deltas a b) && (0 <? total_time a b) && (total_time a b <=? u64_max)
  then Some (10000 * (total_time a b - idle_time a b) / total_time a b)
  else None.

Lemma sum_nonneg l : Forall (λ d, 0 ≤ d) l → 0 ≤ foldr Z.add 0 l.
Proof. induction 1; simpl; lia. Qed.

(** What the idle columns add, from column [k] on. *)
Fixpoint idle_from (k : nat) (ds : list Z) : Z :=
  match ds with
  | [] => 0
  | d :: ds' => (if (k =? 3)%nat || (k =? 4)%nat then d else 0) + idle_from (S k) ds'
  end.

Lemma cpu_deltas_spec k pairs total idle :
  0 ≤ idle ≤ total → total ≤ u64_max →
  let ds := map (λ p, p.2 - p.1) pairs in
  cpu_deltas k pairs total idle =
  if forallb (Z.leb 0) ds && (total + foldr Z.add 0 ds <=? u64_max)
  then Some (total + foldr Z.add 0 ds, idle + idle_from k ds) else None.
Proof.
  revert k total idle. induction pairs as [|[x y] pairs IH]; intros k total idle Hi Ht; simpl.
  - replace (total + 0 <=? u64_max) with true by lia. by rewrite !Z.add_0_r.
  - unfold checked_sub at 1. destruct (Z.leb_spec x y) as [Hxy|Hxy].
    2: { by replace (0 <=? y - x) with false by lia. }
    replace (0 <=? y - x) with true by lia. cbn [mbind option_bind andb]. unfold checked_add.
    set (ds := map _ pairs) in *. cbv zeta in IH.
    destruct (Z.leb_spec (total + (y - x)) u64_max) as [Hm|Hm]; cbn [mbind option_bind].
    2: { destruct (forallb (Z.leb 0) ds) eqn:Hf; [|done]. apply forallb_true_Forall in Hf.
         assert (0 ≤ foldr Z.add 0 ds); [|by replace (_ <=? u64_max) with false by lia].
         apply sum_nonneg. eapply Forall_impl; [exact Hf|]. simpl. lia. }
    rewrite Z.add_assoc. destruct ((k =? 3)%nat || (k =? 4)%nat).
    + replace (idle + (y - x) <=? u64_max) with true by lia. cbn [mbind option_bind].
      rewrite IH by lia. by rewrite Z.add_assoc.
    + rewrite IH by lia. by rewrite Z.add_0_l.
Qed.

Lemma deltas_zip a b : map (λ p, p.2 - p.1) (zip (take 8 a) (take 8 b)) = deltas a b.
Proof.
  unfold deltas. generalize (take 8 b). induction (take 8 a) as [|x l IH]; intros [|y m]; simpl; [done..|].
  by rewrite IH.
Qed.

Lemma idle_from_deltas a b : 8 ≤ zlen a → 8 ≤ zlen b → idle_from 0 (deltas a b) = idle_time a b.
Proof.
  intros Ha Hb. unfold idle_time. assert (length (deltas a b) = 8%nat) as Hl.
  { unfold deltas, zlen in *. rewrite length_zip_with, !length_take. lia. }
  destruct (deltas a b) as [|? [|? [|? [|? [|? [|? [|? [|? [|]]]]]]]]]; simplify_eq/=. lia.
Qed.

(** Idle time is part of the total. *)
Lemma idle_le_total a b :
  8 ≤ zlen a → 8 ≤ zlen b → Forall (λ d, 0 ≤ d) (deltas a b) → 0 ≤ idle_time a b ≤ total_time a b.
Proof.
  intros Ha Hb Hd. rewrite <- idle_from_deltas by done. unfold total_time. generalize 0%nat.
  induction Hd as [|d ds Hd Hds IH]; intros k; simpl; [lia|]. specialize (IH (S k)).
  destruct (_ || _); lia.
Qed.

Lemma basis_points_range a b :
  8 ≤ zlen a → 8 ≤ zlen b → Forall (λ d, 0 ≤ d) (deltas a b) → 0 < total_time a b →
  0 ≤ 10000 * (total_time a b - idle_time a b) / total_time a b ≤ 10000.
Proof.
  intros Ha Hb Hd Ht. pose proof (idle_le_total a b Ha Hb Hd). split; [apply Z.div_pos; nia|].
  apply Z.div_le_upper_bound; nia.
Qed.

(** No line of the report has a line feed of its own. *)
Lemma report_lines pad ns header :
  10 ∉ header → Forall (λ n, 0 ≤ n ≤ u64_max) ns → 10 ∉ header ++ stat_line pad ns.
Proof.
  intros Hh Hns [Hin|Hin]%elem_of_app; [done|].
  pose proof (stat_line_char pad ns Hns) as Hc. rewrite Forall_forall in Hc.
  apply Hc, Metrics.stat_char_cases in Hin. lia.
Qed.

Lemma headers_no_newline : 10 ∉ CPU_FIRST_HEADER ∧ 10 ∉ CPU_SECOND_HEADER.
Proof. split; by apply (bool_decide_unpack _). Qed.

Lemma cpu_report_bound pad a b :
  Forall (λ n, 0 ≤ n ≤ u64_max) a → Forall (λ n, 0 ≤ n ≤ u64_max) b →
  zlen a ≤ 16 → zlen b ≤ 16 → zlen (cpu_report pad a b) ≤ 731 + 2 * Z.of_nat pad.
Proof.
  intros Ha Hb Hla Hlb. unfold cpu_report. rewrite zlen_app, zlen_cons, !zlen_app.
  pose proof (stat_line_bound pad a Ha Hla). pose proof (stat_line_bound pad b Hb Hlb).
  change (zlen CPU_FIRST_HEADER) with 25. change (zlen CPU_SECOND_HEADER) with 26.
  change (zlen [10]) with 1. lia.
Qed.

Lemma parse_cpu_usage_report pad a b :
  Forall (λ n, 0 ≤ n ≤ u64_max) a → Forall (λ n, 0 ≤ n ≤ u64_max) b →
  8 ≤ zlen a ≤ 16 → 8 ≤ zlen b ≤ 16 → (pad ≤ 8)%nat →
  parse_cpu_usage (cpu_report pad a b) = (λ bp, OutCpu bp 200) <$> cpu_share a b.
Proof.
  intros Ha Hb Hla Hlb Hpad. destruct headers_no_newline as [H1 H2].
  pose proof (cpu_report_bound pad a b Ha Hb ltac:(lia) ltac:(lia)) as Hlen.
  unfold parse_cpu_usage. replace (CPU_USAGE_MAX_OUTPUT_BYTES <? _) with false
    by (unfold CPU_USAGE_MAX_OUTPUT_BYTES; lia).
  unfold cpu_report. rewrite app_comm_cons, app_assoc, strip_suffix_snoc. cbn [mbind option_bind].
  rewrite SshEndpoint.split_char_app by by apply report_lines. rewrite SshEndpoint.split_char_none by by apply report_lines.
  rewrite !strip_app. cbn [mbind option_bind]. rewrite !parse_cpu_counters_line by done.
  cbn [mbind option_bind]. rewrite cpu_deltas_spec by (unfold u64_max; lia).
  rewrite deltas_zip, !Z.add_0_l, idle_from_deltas by lia. fold (total_time a b).
  unfold cpu_share. destruct (forallb (Z.leb 0) (deltas a b)) eqn:Hf; [|done]. cbn [andb].
  apply forallb_true_Forall in Hf.
  assert (Forall (λ d, 0 ≤ d) (deltas a b)) as Hd by (eapply Forall_impl; [exact Hf|simpl; lia]).
  pose proof (sum_nonneg _ Hd) as Hpos. fold (total_time a b) in Hpos.
  destruct (Z.leb_spec (total_time a b) u64_max) as [Hm|Hm]; rewrite ?andb_true_r, ?andb_false_r; [|done].
  cbn [mbind option_bind]. destruct (Z.eqb_spec (total_time a b) 0) as [->|Hz]; [done|].
  replace (0 <? total_time a b) with true by lia. cbv iota.
  pose proof (idle_le_total a b ltac:(lia) ltac:(lia) Hd) as Hi.
  pose proof (basis_points_range a b ltac:(lia) ltac:(lia) Hd ltac:(lia)) as Hbp.
  unfold checked_sub. replace (idle_time a b <=? total_time a b) with true by lia. cbn [mbind option_bind].
  unfold checked_mul. replace (_ <=? u128_max) with true by (unfold u64_max, u128_max in *; lia).
  cbn [mbind option_bind]. rewrite (Z.mul_comm (_ - _)). unfold try_from.
  replace ((0 <=? _) && (_ <=? u16_max)) with true by (unfold u16_max; lia). cbn [mbind option_bind].
  by replace (10000 <? _) with false by lia.
Qed.

Lemma plan_of_cpu sha p :
  plan sha (Process CpuUsage) = Ok p →
  kind p = KCpuUsage ∧ max_output_bytes p = CPU_USAGE_MAX_OUTPUT_BYTES.
Proof. unfold plan. cbn [spec_of process rbind]. unfold finish. destruct (_ <? _); [done|]. by intros [= <-]. Qed.

(** The CPU usage of a host is exact. For the report of any two samples of
    eight to sixteen counters, the plan's result is the busy share of the time
    that passed, in hundredths of a percent and at most 10000; when a counter
    went back, no time passed or the total overflows, it is an explicit
    failure and never a number. *)
Theorem cpu_usage_exact sha pad a b p err :
  Forall (λ n, 0 ≤ n ≤ u64_max) a → Forall (λ n, 0 ≤ n ≤ u64_max) b →
  8 ≤ zlen a ≤ 16 → 8 ≤ zlen b ≤ 16 → (pad ≤ 8)%nat →
  plan sha (Process CpuUsage) = Ok p → zlen err ≤ 1024 →
  let out := cpu_report pad a b in
  parse_result p (mkRaw (Some 0) out err false false) =
    Ok (match cpu_share a b with
        | Some bp => Succeeded (mkSuccess (OutCpu bp 200) err)
        | None => Failed (mkFailure InvalidStructuredOutput out err)
        end) ∧
  ∀ bp, cpu_share a b = Some bp → 0 ≤ bp ≤ 10000.
Proof.
  intros Ha Hb Hla Hlb Hpad Hp Herr out. destruct (plan_of_cpu sha p Hp) as [Hk Hm].
  pose proof (cpu_report_bound pad a b Ha Hb ltac:(lia) ltac:(lia)) as Hlen. split.
  - unfold parse_result. cbn [output_limit_exceeded stdout stderr timed_out exit_status]. rewrite Hm.
    replace (CPU_USAGE_MAX_OUTPUT_BYTES <? _) with false by (unfold CPU_USAGE_MAX_OUTPUT_BYTES, out; lia).
    cbn [Z.eqb negb]. rewrite Hk. cbn [parse_success]. unfold out.
    rewrite parse_cpu_usage_report by done. by destruct (cpu_share a b).
  - intros bp. unfold cpu_share. destruct (_ && _) eqn:Hc; [|done]. intros [= <-].
    apply andb_true_iff in Hc as [[Hf Ht]%andb_true_iff _]. apply forallb_true_Forall in Hf. apply basis_points_range; try lia.
    eapply Forall_impl; [exact Hf|]. simpl. lia.
Qed.

Lemma cpu_usage_exact_witness :
  let a := [100; 0; 100; 800; 0; 0; 0; 0] in
  let b := [150; 0; 150; 900; 0; 0; 0; 0] in
  ∃ p, plan (λ _, []) (Process CpuUsage) = Ok p ∧
    parse_result p (mkRaw (Some 0) (cpu_report 1 a b) [] false false) =
    Ok (Succeeded (mkSuccess (OutCpu 5000 200) [])).
Proof.
  intros a b. destruct (plan (λ _, []) (Process CpuUsage)) as [p| |] eqn:Hp; [|by vm_compute in Hp..].
  exists p. split; [done|].
  refine (proj1 (cpu_usage_exact (λ _, []) 1 a b p [] _ _ _ _ _ Hp _)).
  1-2: by repeat constructor; unfold u64_max; lia.
  all: unfold zlen; simpl; lia.
Defined.

(** ** Outcomes *)

(** A failure that only the planner's own markers stand for. *)
Definition marker_failure (k : OperationFailureKind) : bool :=
  match k with MissingTool _ | PreconditionFailed _ => true | _ => false end.



(** ** The planner's own reports *)

Lemma spec_tools_valid sha o s :
  spec_of sha o = Ok s → Forall (λ t, valid_tool t = true) (tools s).
Proof.
  intros H. destruct o as [o|o|o|o|o|o|o|o]; destruct o;
    cbn [spec_of docker systemd disk network process crontab nginx custom] in *;
    unfold Ops.systemd_verb, invalid in *; Shell.plan_inv H; subst;
    repeat match goal with
    | Hb : (if ?c then _ else _) = Ok _ |- _ => destruct c; try discriminate Hb; Shell.plan_inv Hb; subst
    end;
    cbn [tools spec with_timeout with_output with_kind with_precondition with_sensitive_command
      with_sensitive_stdin without_markers];
    apply forallb_true_Forall; vm_compute; reflexivity.
Qed.

Lemma valid_tool_ascii t : valid_tool t = true → t ≠ [] ∧ forallb is_ascii t = true ∧ 10 ∉ t ∧ 13 ∉ t.
Proof.
  unfold valid_tool. intros H. apply andb_true_iff in H as [[Hne _]%andb_true_iff Hb].
  assert (Forall (λ c, is_ascii c = true ∧ c ≠ 10 ∧ c ≠ 13) t) as Hall.
  { apply forallb_true_Forall in Hb. induction t as [|c t IH]; [constructor|].
    unfold utf8_encode in Hb. simpl in Hb. apply Forall_app in Hb as [Hc Ht].
    constructor; [|destruct t; [constructor|by apply IH]].
    unfold utf8_encode_char in Hc. unfold tool_byte, is_ascii_alphanumeric, is_ascii_digit, is_ascii_upper,
      is_ascii_lower, is_ascii in *.
    destruct (Z.ltb_spec c 128); [apply Forall_cons in Hc as [? _]; lia|].
    pose proof (Z.div_pos c 64 ltac:(lia) ltac:(lia)). pose proof (Z.div_pos c 4096 ltac:(lia) ltac:(lia)).
    pose proof (Z.div_pos c 262144 ltac:(lia) ltac:(lia)).
    destruct (c <? 2048); [|destruct (c <? 65536)]; apply Forall_cons in Hc as [Hc _]; exfalso; revert Hc;
      [set (b := 192 + _)|set (b := 224 + _)|set (b := 240 + _)]; assert (128 ≤ b) by (unfold b; lia);
      clearbody b; lia. }
  split; [by destruct t|]. split.
  - apply forallb_true_Forall. eapply Forall_impl; [exact Hall|]. by intros c [? _].
  - rewrite Forall_forall in Hall. split; intros Hin; apply Hall in Hin; lia.
Qed.

Lemma classify_missing t :
  valid_tool t = true → classify_failure 127 (missing_line t) = MissingTool t.
Proof.
  intros Ht. destruct (valid_tool_ascii t Ht) as (_ & Ha & H10 & H13).
  assert (10 ∉ ERROR_PREFIX ++ lit "missing-tool:" ++ t ∧ 13 ∉ ERROR_PREFIX ++ lit "missing-tool:" ++ t)
    as [Hn Hr].
  { split; intros Hin; rewrite app_assoc in Hin; apply elem_of_app in Hin as [Hin|Hin]; try done;
      revert Hin; by apply (bool_decide_unpack _). }
  unfold classify_failure.
  replace (missing_line t) with ((ERROR_PREFIX ++ lit "missing-tool:" ++ t) ++ [10])
    by (unfold missing_line; by rewrite <- !app_assoc).
  rewrite from_utf8_ascii.
  2: { rewrite !forallb_app, Ha. by vm_compute. }
  unfold lines. rewrite lines_from_run by done. cbn [rev app]. rewrite strip_cr_id by done.
  cbn [classify_lines]. unfold classify_line. rewrite strip_app. cbn [Z.eqb Pos.eqb].
  by rewrite strip_app, Ht.
Qed.

(** When a tool is missing the user is told which: for every plan of a
    typed operation and every tool its command checks for, the line the check
    prints is reported as that missing tool. *)
Theorem missing_tool_reported sha o s p t out :
  Shell.op_typed o → Shell.is_custom o = false →
  spec_of sha o = Ok s → plan sha o = Ok p → t ∈ tools s → zlen out ≤ 512 → zlen t ≤ 256 →
  parse_result p (mkRaw (Some 127) out (missing_line t) false false) =
    Ok (Failed (mkFailure (MissingTool t) out (missing_line t))) ∧
  ∃ before after, command p = before ++ tool_check t ++ after.
Proof.
  intros Hty Hcu Hs Hp Ht Ho Hl. pose proof (spec_tools_valid sha o s Hs) as Hv.
  rewrite Forall_forall in Hv. specialize (Hv t Ht).
  unfold plan in Hp. rewrite Hs in Hp. cbn [rbind] in Hp. unfold finish in Hp. cbv zeta in Hp.
  destruct (_ <? _); [done|]. apply Shell.Ok_inj in Hp. subst p.
  destruct (Shell.spec_policy sha o s Hty Hs) as (_ & _ & Hmax & Hm & _). split.
  - unfold parse_result, failure. cbn [output_limit_exceeded max_output_bytes stdout stderr timed_out
      exit_status recognizes_internal_markers].
    assert (zlen (missing_line t) ≤ 289) as Hb.
    { unfold missing_line. rewrite !zlen_app. change (zlen ERROR_PREFIX) with 19.
      change (zlen (lit "missing-tool:")) with 13. change (zlen [10]) with 1. lia. }
    replace (s_max_output_bytes s <? _) with false by lia. cbn [Z.eqb negb].
    rewrite Hm, Hcu. cbn [negb]. by rewrite classify_missing.
  - cbn [command]. unfold full_command. apply list_elem_of_split in Ht as (l1 & l2 & ->).
    rewrite map_app, concat_app. cbn [map concat].
    exists (sh "LC_ALL=C; export LC_ALL; " ++ concat (map tool_check l1)), (concat (map tool_check l2) ++ s_command s).
    by rewrite <- !app_assoc.
Qed.

Lemma missing_tool_reported_witness :
  let o := Systemd (SStatus (lit "ssh.service")) in
  let t := lit "systemctl" in
  ∃ p, plan (λ _, []) o = Ok p ∧
    parse_result p (mkRaw (Some 127) [] (missing_line t) false false) =
    Ok (Failed (mkFailure (MissingTool t) [] (missing_line t))).
Proof.
  intros o t. destruct (plan (λ _, []) o) as [p| |] eqn:Hp; [|by vm_compute in Hp..].
  destruct (spec_of (λ _, []) o) as [s| |] eqn:Hs; [|by vm_compute in Hs..].
  exists p. split; [done|]. refine (proj1 (missing_tool_reported (λ _, []) o s p t [] _ _ Hs Hp _ _ _)).
  - exact I.
  - reflexivity.
  - vm_compute in Hs. injection Hs as <-. apply (bool_decide_unpack _). by vm_compute.
  - by vm_compute.
  - by vm_compute.
Defined.

(** ** From a snapshot to a change *)

Lemma str_len_decimal n : 0 ≤ n ≤ u64_max → str_len (to_decimal n) ≤ 20.
Proof.
  intros Hn. rewrite str_len_ascii; [apply zlen_to_radix; unfold u64_max in *; lia|].
  eapply forallb_impl; [|apply to_decimal_digits; lia]. apply digit_is_ascii.
Qed.

Lemma hex_plain h :
  forallb is_ascii_hexdigit h = true → forallb is_ascii h = true ∧ Forall (λ c, c ≠ 39 ∧ c ≠ 10) h.
Proof.
  intros H. split; [eapply forallb_impl; [|exact H]|apply forallb_true_Forall in H; eapply Forall_impl; [exact H|]];
    intros c; cbv beta; unfold is_ascii_hexdigit, is_ascii_digit, is_ascii; lia.
Qed.

Lemma quote_plain v : Forall (λ c, c ≠ 39 ∧ c ≠ 10) v → shell_quote v = [39] ++ v ++ [39].
Proof.
  intros H. unfold shell_quote. do 2 f_equal. induction H as [|c v [Hc _] Hv IH]; [done|]. simpl.
  destruct (Z.eqb_spec c 39); [done|]. simpl. by rewrite IH.
Qed.

Lemma lower_hex h : forallb is_ascii_hexdigit h = true → forallb is_ascii_hexdigit (to_ascii_lowercase h) = true.
Proof.
  intros H. apply forallb_true_Forall. unfold to_ascii_lowercase. apply Forall_map.
  apply forallb_true_Forall in H. eapply Forall_impl; [exact H|]. intros c. cbv beta.
  unfold ascii_lower, is_ascii_upper, is_ascii_hexdigit, is_ascii_digit. intros Hc. case_match; lia.
Qed.

Lemma sha256_ok_hex h field :
  zlen h = 64 → forallb is_ascii_hexdigit h = true → sha256_ok h field = Ok (to_ascii_lowercase h).
Proof.
  intros Hl Hh. destruct (hex_plain h Hh) as [Ha _]. unfold sha256_ok.
  by rewrite str_len_ascii, utf8_encode_ascii, Hl, Hh.
Qed.

(** Sizes of the fixed parts of a command. *)
Ltac literal_sizes :=
  repeat match goal with
  | |- context [str_len (sh ?x)] =>
      let v := eval vm_compute in (str_len (sh x)) in change (str_len (sh x)) with v
  | |- context [str_len (lit ?x)] =>
      let v := eval vm_compute in (str_len (lit x)) in change (str_len (lit x)) with v
  end.

Lemma signal_planned sha i signal :
  2 ≤ pid i ≤ 2147483647 → 1 ≤ start_time_ticks i ≤ u64_max →
  ∃ p, plan sha (Process (Signal i signal)) = Ok p ∧ preconditions p = [PProcessIdentity i] ∧
    approval p = CoreProtectedPerExecution.
Proof.
  intros Hp Ht. unfold plan. cbn [spec_of process]. unfold valid_pid.
  replace ((pid i <? 2) || (2147483647 <? pid i)) with false by lia. cbn [rbind].
  replace (start_time_ticks i =? 0) with false by lia. cbn [rbind]. unfold finish. cbv zeta.
  assert (∀ sp, tools sp = map lit ["cat"; "kill"]%string →
    str_len (s_command sp) ≤ 1000 → (MAX_COMMAND_BYTES <? str_len (full_command sp)) = false) as Hfc.
  { intros sp Htl Hc. apply Z.ltb_ge. unfold full_command, MAX_COMMAND_BYTES. rewrite Htl, !str_len_app.
    set (x := str_len (concat _)). let v := eval vm_compute in x in change x with v. literal_sizes. lia. }
  rewrite Hfc; [by eexists|done|].
  cbn [s_command with_precondition spec]. unfold process_identity_prefix. rewrite !str_len_app.
  literal_sizes. pose proof (str_len_decimal (pid i) ltac:(unfold u64_max; lia)).
  pose proof (str_len_decimal (start_time_ticks i) ltac:(lia)). destruct signal; literal_sizes; lia.
Qed.

Lemma str_len_quoted_hex h :
  zlen h = 64 → forallb is_ascii_hexdigit h = true → str_len (shell_quote h) = 66.
Proof.
  intros Hl Hh. destruct (hex_plain h Hh) as [Ha Hp]. rewrite quote_plain, !str_len_app by done.
  rewrite (str_len_ascii h) by done. by rewrite Hl.
Qed.

Lemma zlen_lower h : zlen (to_ascii_lowercase h) = zlen h.
Proof. unfold zlen, to_ascii_lowercase. by rewrite length_map. Qed.

Section Snapshot.
Context (sha : list Z → str).
(** The digest is printed as 64 hexadecimal digits. *)
Context (sha_hex : ∀ b, zlen (sha b) = 64 ∧ forallb is_ascii_hexdigit (sha b) = true).

Lemma replace_planned h content :
  zlen h = 64 → forallb is_ascii_hexdigit h = true →
  str_len content ≤ MAX_CRONTAB_BYTES → 0 ∉ utf8_encode content →
  ∃ p, plan sha (Crontab (CReplace h content)) = Ok p ∧
    preconditions p = [CrontabSha256 (to_ascii_lowercase h)] ∧
    approval p = CoreProtectedPerExecution ∧ stdin p = Some (utf8_encode content).
Proof.
  intros Hl Hh Hc H0. unfold plan. cbn [spec_of crontab]. rewrite sha256_ok_hex by done. cbn [rbind].
  replace (MAX_CRONTAB_BYTES <? str_len content) with false by lia.
  rewrite (proj2 (existsb_false_Forall _ _)).
  2: { apply Forall_forall. intros b Hb. destruct (Z.eqb_spec 0 b); [by subst|done]. }
  cbv zeta. cbn [rbind]. unfold finish. cbv zeta.
  assert (∀ sp, tools sp = map lit crontab_tools →
    str_len (s_command sp) ≤ 3000 → (MAX_COMMAND_BYTES <? str_len (full_command sp)) = false) as Hfc.
  { intros sp Htl Hs. apply Z.ltb_ge. unfold full_command, MAX_COMMAND_BYTES. rewrite Htl, !str_len_app.
    set (x := str_len (concat _)). let v := eval vm_compute in x in change x with v. literal_sizes. lia. }
  rewrite Hfc; [by eexists|done|].
  cbn [s_command with_sensitive_stdin with_precondition with_output with_timeout spec].
  unfold crontab_work_prefix, crontab_read_current. rewrite !str_len_app.
  destruct (sha_hex (utf8_encode content)) as [Hsl Hsh].
  rewrite !str_len_quoted_hex by (done || rewrite ?zlen_lower; auto using lower_hex). literal_sizes. lia.
Qed.

Lemma process_report_parsed i details :
  2 ≤ pid i ≤ 2147483647 → 1 ≤ start_time_ticks i ≤ u64_max →
  parse_success KProcessSnapshot (process_report i details) = Some (OutProcess i details).
Proof.
  intros Hp Ht. cbn [parse_success]. unfold process_report.
  set (id := to_decimal (pid i) ++ 58 :: to_decimal (start_time_ticks i)).
  replace (PROCESS_HEADER ++ _) with ((PROCESS_HEADER ++ id) ++ 10 :: details)
    by (unfold id; by rewrite <- !app_assoc).
  assert (∀ n, 0 ≤ n → Forall (λ c, 48 ≤ c ≤ 57) (to_decimal n)) as Hdig.
  { intros n Hn. eapply Forall_impl; [apply forallb_true_Forall, to_decimal_digits, Hn|].
    intros c. cbv beta. unfold is_ascii_digit. lia. }
  pose proof (Hdig (pid i) ltac:(lia)) as D1. pose proof (Hdig (start_time_ticks i) ltac:(lia)) as D2.
  assert (Forall (λ c, 48 ≤ c ≤ 58) id) as Hid.
  { apply Forall_app. split; [eapply Forall_impl; [exact D1|cbv beta; lia]|].
    constructor; [lia|]. eapply Forall_impl; [exact D2|cbv beta; lia]. }
  rewrite split_first_line_app.
  2: { intros [Hin|Hin]%elem_of_app; [revert Hin; by apply (bool_decide_unpack _)|].
       rewrite Forall_forall in Hid. apply Hid in Hin. lia. }
  cbn [mbind option_bind]. rewrite strip_app. cbn [mbind option_bind]. rewrite from_utf8_ascii.
  2: { apply forallb_true_Forall. eapply Forall_impl; [exact Hid|]. intros c. cbv beta. unfold is_ascii. lia. }
  cbn [mbind option_bind]. rewrite (proj2 (split_once_Some 58 id (to_decimal (pid i)) (to_decimal (start_time_ticks i)))).
  2: { split; [reflexivity|]. intros Hin. rewrite Forall_forall in D1. apply D1 in Hin. lia. }
  cbn [mbind option_bind]. rewrite !parse_uint_to_decimal by (unfold u32_max; lia). cbn [mbind option_bind].
  replace ((pid i <? 2) || (start_time_ticks i =? 0)) with false by lia. by destruct i.
Qed.

Lemma crontab_report_parsed h content :
  zlen h = 64 → forallb is_ascii_hexdigit h = true →
  parse_success KCrontabSnapshot (crontab_report h content) = Some (OutCrontab (to_ascii_lowercase h) content).
Proof.
  intros Hl Hh. destruct (hex_plain h Hh) as [Ha Hp]. cbn [parse_success]. unfold crontab_report.
  rewrite app_assoc, split_first_line_app.
  2: { intros [Hin|Hin]%elem_of_app; [revert Hin; by apply (bool_decide_unpack _)|].
       rewrite Forall_forall in Hp. apply Hp in Hin. lia. }
  cbn [mbind option_bind]. rewrite strip_app. cbn [mbind option_bind]. rewrite Hl, Hh. cbn [Z.eqb Pos.eqb negb orb].
  by rewrite from_utf8_ascii.
Qed.

(** What a snapshot shows can be changed safely. The identity of a process
    is read back exactly from the report of its snapshot, with all details,
    and is accepted as the precondition of a signal; the digest of a crontab
    is read back in lower case with the content byte for byte, and a
    replacement conditional on it is planned with that very digest. *)
Theorem snapshot_supports_change i details signal h old new :
  2 ≤ pid i ≤ 2147483647 → 1 ≤ start_time_ticks i ≤ u64_max →
  zlen h = 64 → forallb is_ascii_hexdigit h = true →
  str_len new ≤ MAX_CRONTAB_BYTES → 0 ∉ utf8_encode new →
  (parse_success KProcessSnapshot (process_report i details) = Some (OutProcess i details) ∧
   ∃ p, plan sha (Process (Signal i signal)) = Ok p ∧ preconditions p = [PProcessIdentity i] ∧
     approval p = CoreProtectedPerExecution) ∧
  ∃ read, parse_success KCrontabSnapshot (crontab_report h old) = Some (OutCrontab read old) ∧
  ∃ p, plan sha (Crontab (CReplace read new)) = Ok p ∧ preconditions p = [CrontabSha256 read] ∧
    approval p = CoreProtectedPerExecution ∧ stdin p = Some (utf8_encode new).
Proof.
  intros Hp Ht Hl Hh Hn H0. split.
  - split; [by apply process_report_parsed|by apply signal_planned].
  - exists (to_ascii_lowercase h). split; [by apply crontab_report_parsed|].
    rewrite <- (zlen_lower h) in Hl. pose proof (replace_planned _ new Hl (lower_hex h Hh) Hn H0) as H.
    by rewrite SshEndpoint.to_ascii_lowercase_idem in H.
Qed.

End Snapshot.

Lemma snapshot_supports_change_witness :
  let sha := λ _ : list Z, replicate 64 97 in
  let i := mkIdentity 42 987654 in
  parse_success KProcessSnapshot (process_report i [120]) = Some (OutProcess i [120]) ∧
  ∃ read, parse_success KCrontabSnapshot (crontab_report (replicate 64 65) []) = Some (OutCrontab read []).
Proof.
  intros sha i. assert (∀ b, zlen (sha b) = 64 ∧ forallb is_ascii_hexdigit (sha b) = true) as Hs.
  { intros b. split; vm_compute; reflexivity. }
  destruct (snapshot_supports_change sha Hs i [120] Term (replicate 64 65) [] []) as [[H1 _] (r & H2 & _)];
    try (vm_compute; reflexivity); try (vm_compute; split; discriminate); [by vm_compute|set_solver|].
  split; [exact H1|by exists r].
Defined.

End Results.
