(* ===== verification/RouteConnector.v ===== *)
(** * Reaching the first host of a route

    crates/ssh-transport/src/route_connector.rs: a direct connection, an HTTP
    CONNECT proxy or a SOCKS5 proxy, and the stream that is handed to SSH.
    Sockets, the resolver and base64 are outside the crate. A connection is
    the bytes the other side will send, what a read past them does, and the
    faults of the writes to come; the code runs in a state and error monad
    over it. What a proxy understands is written down as a reader of requests
    of its own, after the SOCKS and HTTP standards. *)

From S2P Require Import Prelude RustStr RustVec RustIp SshEndpoint.

Module Route.
Import SshEndpoint.

(** ** Types *)

Definition MAX_HTTP_RESPONSE_HEADER_BYTES : Z := 16384.
Definition MAX_PROXY_CREDENTIAL_COMPONENT_BYTES : Z := u8_max.

Inductive Socks5DnsMode : Type := Local | Proxy.

Record ProxyCredentials := mkCredentials { username : str; password : list Z }.

Inductive RouteIngress : Type :=
| DirectTcp
| HttpConnect (proxy : Endpoint) (credentials : option ProxyCredentials)
| Socks5 (proxy : Endpoint) (dns_mode : Socks5DnsMode) (credentials : option ProxyCredentials).

Inductive ProxyCredentialError : Type := CredentialError.

(** [ProxyCredentials::new]. *)
Definition credentials_new (username : str) (password : list Z) : rres ProxyCredentialError ProxyCredentials :=
  if match username with [] => true | _ => false end ||
     (MAX_PROXY_CREDENTIAL_COMPONENT_BYTES <? str_len username) ||
     contains_char username 58 || existsb is_control username ||
     (MAX_PROXY_CREDENTIAL_COMPONENT_BYTES <? zlen password)
  then Err CredentialError
  else Ok (mkCredentials username password).

Inductive IngressStage : Type :=
| Configuration | DirectTcpConnect | ProxyTcpConnect | LocalDnsResolution
| HttpRequest | HttpResponse | HttpStatus
| SocksGreeting | SocksAuthentication | SocksConnectRequest | SocksConnectReply.

Inductive IngressFailureKind : Type :=
| InvalidConfiguration | CredentialLocked | CredentialUnavailable | Timeout | Io
| Protocol | ResponseTooLarge | Rejected.

Record RouteIngressError := mkError { stage : IngressStage; kind : IngressFailureKind }.

(** ** Connections *)

(** A connection: the bytes that will arrive, what a read of more does
    ([Timeout] or [Io]), the faults of the next writes (after how many bytes,
    and how), and what was sent. *)
Record Conn := mkConn {
  inbound : list Z;
  read_end : IngressFailureKind;
  faults : list (option (nat * IngressFailureKind));
  sent : list Z }.

Definition Wire (A : Type) : Type := Conn → rres RouteIngressError A * Conn.

#[global] Instance wire_ret : MRet Wire := λ A a c, (Ok a, c).
#[global] Instance wire_bind : MBind Wire := λ A B k e c,
  match e c with
  | (Ok a, c') => k a c'
  | (Err x, c') => (Err x, c')
  | (Panic, c') => (Panic, c')
  end.

Definition fail {A} (s : IngressStage) (k : IngressFailureKind) : Wire A := λ c, (Err (mkError s k), c).

Definition write_all (data : list Z) (s : IngressStage) : Wire unit := λ c,
  match faults c with
  | Some (n, k) :: fs =>
      (Err (mkError s k), mkConn (inbound c) (read_end c) fs (sent c ++ take n data))
  | None :: fs => (Ok tt, mkConn (inbound c) (read_end c) fs (sent c ++ data))
  | [] => (Ok tt, mkConn (inbound c) (read_end c) [] (sent c ++ data))
  end.

Definition read_exact (n : nat) (s : IngressStage) : Wire (list Z) := λ c,
  if (n <=? length (inbound c))%nat
  then (Ok (take n (inbound c)), mkConn (drop n (inbound c)) (read_end c) (faults c) (sent c))
  else (Err (mkError s (read_end c)), mkConn [] (read_end c) (faults c) (sent c)).

Section Libraries.
(** [base64::STANDARD.encode] and [tokio::net::lookup_host], which yields the
    addresses of a host, times out or fails. *)
Context (base64 : list Z → str) (lookup_host : list Z → Z → IngressFailureKind + list IpAddr).

(** ** HTTP CONNECT *)

Definition ends_with (suffix s : list Z) : bool := starts_with (rev suffix) (rev s).

Definition CRLFCRLF : list Z := [13; 10; 13; 10].

(** The loop of [read_http_header], one unit of fuel per byte still allowed. *)
Fixpoint read_header_loop (fuel : nat) (header : list Z) : Wire (list Z) :=
  match fuel with
  | O => fail HttpResponse ResponseTooLarge
  | S fuel' =>
      byte ← read_exact 1 HttpResponse;
      let header := header ++ byte in
      if ends_with CRLFCRLF header then mret header else read_header_loop fuel' header
  end.

Definition header_fuel : nat := Z.to_nat MAX_HTTP_RESPONSE_HEADER_BYTES.

Definition read_http_header : Wire (list Z) := read_header_loop header_fuel [].

Definition http_request (target : Endpoint) (credentials : option ProxyCredentials) : str :=
  let authority := trust_key target in
  lit "CONNECT " ++ authority ++ lit " HTTP/1.1" ++ [13; 10] ++
  lit "Host: " ++ authority ++ [13; 10] ++
  match credentials with
  | Some c =>
      lit "Proxy-Authorization: Basic " ++
      base64 (utf8_encode (username c) ++ [58] ++ password c) ++ [13; 10]
  | None => []
  end ++ [13; 10].

(** [trim_end_matches('\r')]. *)
Fixpoint drop_cr (s : str) : str :=
  match s with
  | c :: s' => if c =? 13 then drop_cr s' else s
  | [] => []
  end.
Definition trim_end_cr (s : str) : str := rev (drop_cr (rev s)).

(** The checks on the status line. *)
Definition check_status (header : list Z) : rres RouteIngressError unit :=
  let? line := match split_char 10 header with
               | l :: _ => Ok l
               | [] => Err (mkError HttpResponse Protocol)
               end in
  let? line := ok_or (from_utf8 line) (mkError HttpResponse Protocol) in
  let fields := split_ascii_whitespace (trim_end_cr line) in
  let version := default [] (fields !! 0%nat) in
  let status := default [] (fields !! 1%nat) in
  if negb (bool_decide (version = lit "HTTP/1.0") || bool_decide (version = lit "HTTP/1.1")) ||
     negb (str_len status =? 3) || negb (forallb is_ascii_digit (utf8_encode status))
  then Err (mkError HttpResponse Protocol)
  else
    let? status := ok_or (parse_uint u16_max status) (mkError HttpResponse Protocol) in
    if negb ((200 <=? status) && (status <? 300)) then Err (mkError HttpStatus Rejected) else Ok tt.

Definition lift {A} (r : rres RouteIngressError A) : Wire A := λ c, (r, c).

Definition establish_http_connect (target : Endpoint) (credentials : option ProxyCredentials) : Wire unit :=
  _ ← write_all (utf8_encode (http_request target credentials)) HttpRequest;
  header ← read_http_header;
  lift (check_status header).

(** ** SOCKS5 *)

Inductive SocksTargetAddress : Type :=
| SocksIp (ip : IpAddr)
| SocksDomain (domain : str).

Definition socks_target_address (target : Endpoint) (mode : Socks5DnsMode)
  : rres RouteIngressError SocksTargetAddress :=
  match parse_ip (normalized_address target) with
  | Some ip => Ok (SocksIp ip)
  | None =>
      match mode with
      | Proxy => Ok (SocksDomain (normalized_address target))
      | Local =>
          match lookup_host (normalized_address target) (port target) with
          | inl k => Err (mkError LocalDnsResolution k)
          | inr (ip :: _) => Ok (SocksIp ip)
          | inr [] => Err (mkError LocalDnsResolution Io)
          end
      end
  end.

(** [octets] of an address. *)
Definition octets (ip : IpAddr) : list Z :=
  match ip with V4 o => o | V6 g => concat (map (to_be_bytes 2) g) end.

Definition socks_address (a : SocksTargetAddress) : rres RouteIngressError (list Z) :=
  match a with
  | SocksIp (V4 o) => Ok (1 :: octets (V4 o))
  | SocksIp (V6 g) => Ok (4 :: octets (V6 g))
  | SocksDomain d =>
      let? length := ok_or (try_from u8_max (str_len d)) (mkError Configuration InvalidConfiguration) in
      Ok ([3; length] ++ utf8_encode d)
  end.

Definition auth_request (c : ProxyCredentials) : rres RouteIngressError (list Z) :=
  match password c with
  | [] => Err (mkError Configuration InvalidConfiguration)
  | _ =>
      let? ulen := ok_or (try_from u8_max (str_len (username c))) (mkError Configuration InvalidConfiguration) in
      let? plen := ok_or (try_from u8_max (zlen (password c))) (mkError Configuration InvalidConfiguration) in
      Ok ([1; ulen] ++ utf8_encode (username c) ++ [plen] ++ password c)
  end.

Definition socks_authenticate (c : ProxyCredentials) : Wire unit :=
  request ← lift (auth_request c);
  _ ← write_all request SocksAuthentication;
  reply ← read_exact 2 SocksAuthentication;
  if negb (bool_decide (reply !! 0%nat = Some 1)) then fail SocksAuthentication Protocol
  else if negb (bool_decide (reply !! 1%nat = Some 0)) then fail SocksAuthentication Rejected
  else mret tt.

Definition read_socks5_reply : Wire unit :=
  fixed ← read_exact 4 SocksConnectReply;
  let at_ i := fixed !! i in
  if negb (bool_decide (at_ 0%nat = Some 5)) || negb (bool_decide (at_ 2%nat = Some 0))
  then fail SocksConnectReply Protocol
  else if negb (bool_decide (at_ 1%nat = Some 0)) then fail SocksConnectReply Rejected
  else
    n ← (if bool_decide (at_ 3%nat = Some 1) then mret 4%nat
         else if bool_decide (at_ 3%nat = Some 4) then mret 16%nat
         else if bool_decide (at_ 3%nat = Some 3) then
           length ← read_exact 1 SocksConnectReply;
           if bool_decide (length = [0]) then fail SocksConnectReply Protocol
           else mret (Z.to_nat (default 0 (length !! 0%nat)))
         else fail SocksConnectReply Protocol);
    _ ← read_exact (n + 2) SocksConnectReply;
    mret tt.

Definition socks_method (credentials : option ProxyCredentials) : Z :=
  match credentials with Some _ => 2 | None => 0 end.

Definition establish_socks5 (target : Endpoint) (mode : Socks5DnsMode)
  (credentials : option ProxyCredentials) : Wire unit :=
  let method := socks_method credentials in
  _ ← write_all [5; 1; method] SocksGreeting;
  greeting ← read_exact 2 SocksGreeting;
  if negb (bool_decide (greeting !! 0%nat = Some 5)) then fail SocksGreeting Protocol
  else if bool_decide (greeting !! 1%nat = Some 255) || negb (bool_decide (greeting !! 1%nat = Some method))
  then fail SocksGreeting Rejected
  else
    _ ← match credentials with Some c => socks_authenticate c | None => mret tt end;
    address ← lift (socks_target_address target mode);
    bytes ← lift (socks_address address);
    _ ← write_all ([5; 1; 0] ++ bytes ++ to_be_bytes 2 (port target)) SocksConnectRequest;
    read_socks5_reply.

(** ** The route *)

(** [connect_tcp]: the connection a dialled endpoint gives, if it does. *)
Definition connect_tcp (dial : Endpoint → IngressFailureKind + Conn) (e : Endpoint) (s : IngressStage)
  : rres RouteIngressError Conn :=
  match dial e with
  | inl k => Err (mkError s k)
  | inr c => Ok c
  end.

Definition through {A} (c : Conn) (w : Wire A) : rres RouteIngressError Conn :=
  match w c with
  | (Ok _, c') => Ok c'
  | (Err e, _) => Err e
  | (Panic, _) => Panic
  end.

Definition connect_route_stream (dial : Endpoint → IngressFailureKind + Conn) (nodelay : bool)
  (target : Endpoint) (ingress : RouteIngress) (stage_timeout : Z) : rres RouteIngressError Conn :=
  if stage_timeout =? 0 then Err (mkError Configuration InvalidConfiguration)
  else
    let? stream :=
      match ingress with
      | DirectTcp => connect_tcp dial target DirectTcpConnect
      | HttpConnect proxy credentials =>
          let? c := connect_tcp dial proxy ProxyTcpConnect in
          through c (establish_http_connect target credentials)
      | Socks5 proxy mode credentials =>
          let? c := connect_tcp dial proxy ProxyTcpConnect in
          through c (establish_socks5 target mode credentials)
      end in
    if nodelay then Ok stream
    else Err (mkError match ingress with DirectTcp => DirectTcpConnect | _ => ProxyTcpConnect end Io).

End Libraries.

(** ** What happens on a connection *)

(** From [c] to [c'] the client read [rd] and wrote [wr]; nothing else is
    gone from the connection. *)
Definition exchange (c c' : Conn) (rd wr : list Z) : Prop :=
  inbound c = rd ++ inbound c' ∧ sent c' = sent c ++ wr ∧ read_end c' = read_end c ∧
  (faults c = [] → faults c' = []).

Lemma exchange_refl c : exchange c c [] [].
Proof. repeat split; [by rewrite app_nil_r|auto]. Qed.

Lemma exchange_trans c1 c2 c3 r1 w1 r2 w2 :
  exchange c1 c2 r1 w1 → exchange c2 c3 r2 w2 → exchange c1 c3 (r1 ++ r2) (w1 ++ w2).
Proof.
  intros (H1 & H2 & H3 & H4) (K1 & K2 & K3 & K4). unfold exchange.
  rewrite H1, K1, K2, H2, K3, H3, <- !app_assoc. by repeat split; auto.
Qed.

Lemma bind_Ok {A B} (e : Wire A) (k : A → Wire B) c b c' :
  (e ≫= k) c = (Ok b, c') ↔ ∃ a c1, e c = (Ok a, c1) ∧ k a c1 = (Ok b, c').
Proof.
  unfold mbind, wire_bind. split.
  - destruct (e c) as [[a| |] c1]; [eauto|done..].
  - by intros (a & c1 & -> & ?).
Qed.

Lemma bind_step {A B} (e : Wire A) (k : A → Wire B) c a c1 :
  e c = (Ok a, c1) → (e ≫= k) c = k a c1.
Proof. intros H. unfold mbind, wire_bind. by rewrite H. Qed.

Lemma write_all_Ok data s c u c' : write_all data s c = (Ok u, c') → exchange c c' [] data.
Proof.
  unfold write_all, exchange. destruct (faults c) as [|[[n k]|] fs]; intros; simplify_eq/=; (repeat split; done).
Qed.

Lemma write_all_clean data s c :
  faults c = [] → write_all data s c = (Ok tt, mkConn (inbound c) (read_end c) [] (sent c ++ data)).
Proof. intros H. unfold write_all. by rewrite H. Qed.

Lemma read_exact_Ok n s c bs c' :
  read_exact n s c = (Ok bs, c') → length bs = n ∧ exchange c c' bs [] ∧ faults c' = faults c.
Proof.
  unfold read_exact. destruct (Nat.leb_spec n (length (inbound c))); [|done]. intros [= <- <-].
  rewrite length_take. split; [lia|]. unfold exchange. simpl. rewrite take_drop, app_nil_r. auto.
Qed.

Lemma read_exact_app n s c bs rest :
  length bs = n → inbound c = bs ++ rest →
  read_exact n s c = (Ok bs, mkConn rest (read_end c) (faults c) (sent c)).
Proof.
  intros <- Hin. unfold read_exact. rewrite Hin, length_app, take_app_length, drop_app_length.
  by rewrite (proj2 (Nat.leb_le _ _)) by lia.
Qed.

(** A result that does not touch the connection. *)
Lemma lift_Ok {A} (r : rres RouteIngressError A) c a c' : lift r c = (Ok a, c') → r = Ok a ∧ c' = c.
Proof. unfold lift. by intros [= -> ->]. Qed.

Lemma fail_Ok {A} s k c (a : A) c' : fail s k c = (Ok a, c') → False.
Proof. done. Qed.

(** Inversion of a run that succeeded. *)
Ltac wire_inv H :=
  let a := fresh "a" in let c1 := fresh "c" in let H1 := fresh "H" in
  apply bind_Ok in H as (a & c1 & H1 & H).

(** ** The HTTP header *)

Lemma header_fuel_Z : Z.of_nat header_fuel = MAX_HTTP_RESPONSE_HEADER_BYTES.
Proof. unfold header_fuel. by rewrite Z2Nat.id. Qed.

#[local] Opaque header_fuel.

Definition first_end (h : list Z) : Prop :=
  ends_with CRLFCRLF h = true ∧ ∀ n, (n < length h)%nat → ends_with CRLFCRLF (take n h) = false.

Lemma ends_with_nil : ends_with CRLFCRLF [] = false.
Proof. done. Qed.

Lemma header_loop_sound fuel hdr c h c' :
  read_header_loop fuel hdr c = (Ok h, c') →
  ∃ x, h = hdr ++ x ∧ exchange c c' x [] ∧ (0 < length x ≤ fuel)%nat ∧
    ends_with CRLFCRLF h = true ∧
    ∀ n, (0 < n < length x)%nat → ends_with CRLFCRLF (hdr ++ take n x) = false.
Proof.
  revert hdr c. induction fuel as [|fuel IH]; intros hdr c H; [done|]. cbn [read_header_loop] in H.
  wire_inv H. apply read_exact_Ok in H0 as (Hl & Hex & _). destruct a as [|b [|]]; simplify_eq/=.
  destruct (ends_with CRLFCRLF (hdr ++ [b])) eqn:E.
  - injection H as <- <-. exists [b]. split; [done|]. split; [done|]. simpl. split; [lia|].
    split; [done|]. lia.
  - apply IH in H as (x & -> & Hex2 & Hlen & He & Hno). exists (b :: x). rewrite <- app_assoc in He |- *.
    split; [done|]. split; [apply (exchange_trans _ _ _ _ _ _ _ Hex Hex2)|]. simpl. split; [lia|].
    split; [done|]. intros [|n] Hn; [lia|]. destruct n as [|n]; [by simpl; rewrite take_0|].
    specialize (Hno (S n) ltac:(lia)). rewrite <- app_assoc in Hno. exact Hno.
Qed.

Lemma header_loop_complete fuel hdr c x rest :
  inbound c = x ++ rest → (0 < length x ≤ fuel)%nat → ends_with CRLFCRLF (hdr ++ x) = true →
  (∀ n, (0 < n < length x)%nat → ends_with CRLFCRLF (hdr ++ take n x) = false) →
  read_header_loop fuel hdr c = (Ok (hdr ++ x), mkConn rest (read_end c) (faults c) (sent c)).
Proof.
  revert hdr c x. induction fuel as [|fuel IH]; intros hdr c x Hin Hlen He Hno; [lia|].
  destruct x as [|b x]; [simpl in Hlen; lia|]. cbn [read_header_loop].
  rewrite (bind_step _ _ _ _ _ (read_exact_app 1 HttpResponse c [b] (x ++ rest) eq_refl Hin)).
  destruct (decide (x = [])) as [->|Hx]; [by rewrite He|].
  assert (ends_with CRLFCRLF (hdr ++ [b]) = false) as E.
  { destruct x as [|b2 x]; [done|]. specialize (Hno 1%nat ltac:(simpl; lia)). by rewrite firstn_cons, take_0 in Hno. }
  rewrite E. simpl in Hlen. rewrite (IH _ _ x); [by rewrite <- app_assoc|done| | |].
  - destruct x; simpl in *; [done|lia].
  - by rewrite <- app_assoc.
  - intros n Hn. rewrite <- app_assoc. apply (Hno (S n)). simpl. lia.
Qed.

Lemma header_loop_too_large fuel hdr c :
  (fuel ≤ length (inbound c))%nat →
  (∀ n, (0 < n ≤ fuel)%nat → ends_with CRLFCRLF (hdr ++ take n (inbound c)) = false) →
  read_header_loop fuel hdr c =
  (Err (mkError HttpResponse ResponseTooLarge), mkConn (drop fuel (inbound c)) (read_end c) (faults c) (sent c)).
Proof.
  revert hdr c. induction fuel as [|fuel IH]; intros hdr c Hlen Hno; cbn [read_header_loop].
  - rewrite drop_0. by destruct c.
  - destruct (inbound c) as [|b x] eqn:Hin; [simpl in Hlen; lia|].
    rewrite (bind_step _ _ _ _ _ (read_exact_app 1 HttpResponse c [b] x eq_refl Hin)).
    pose proof (Hno 1%nat ltac:(lia)) as H1. rewrite firstn_cons, take_0 in H1. rewrite H1.
    rewrite IH; [done|simpl in *; lia|]. intros n Hn. rewrite <- app_assoc. apply (Hno (S n)). lia.
Qed.

(** ** How a proxy reads an HTTP request *)

(** The text up to the first line end, and what follows it. *)
Fixpoint crlf_line (bs : list Z) : option (list Z * list Z) :=
  match bs with
  | 13 :: (10 :: rest) => Some ([], rest)
  | b :: rest => match crlf_line rest with Some (l, r) => Some (b :: l, r) | None => None end
  | [] => None
  end.

(** The lines of a request head, up to the empty one, and what follows it. *)
Fixpoint http_head (fuel : nat) (bs : list Z) : option (list (list Z) * list Z) :=
  match fuel with
  | O => None
  | S fuel' =>
      match crlf_line bs with
      | None => None
      | Some ([], rest) => Some ([], rest)
      | Some (l, rest) => match http_head fuel' rest with Some (ls, r) => Some (l :: ls, r) | None => None end
      end
  end.

Definition read_http_head (bs : list Z) : option (list (list Z) * list Z) := http_head (length bs) bs.

Lemma crlf_line_run l rest : 13 ∉ l → crlf_line (l ++ 13 :: 10 :: rest) = Some (l, rest).
Proof.
  induction l as [|b l IH]; intros Hl; [done|]. cbn [app crlf_line].
  rewrite IH by set_solver. destruct (decide (b = 13)) as [->|Hb]; [set_solver|].
  destruct b as [|b|b]; try done. repeat (destruct b as [b|b|]; try done).
Qed.

Lemma http_head_lines ls rest fuel :
  Forall (λ l, l ≠ [] ∧ 13 ∉ l) ls → (length ls < fuel)%nat →
  http_head fuel (concat (map (λ l, l ++ [13; 10]) ls) ++ 13 :: 10 :: rest) = Some (ls, rest).
Proof.
  intros Hls. revert fuel. induction Hls as [|l ls [Hne Hcr] Hls IH]; intros fuel Hf.
  - destruct fuel; [simpl in Hf; lia|done].
  - destruct fuel as [|fuel]; [simpl in Hf; lia|]. cbn [map concat]. rewrite <- !app_assoc.
    cbn [http_head app]. rewrite crlf_line_run by done.
    rewrite IH by (simpl in Hf; lia). by destruct l.
Qed.

Lemma read_head_lines ls rest :
  Forall (λ l, l ≠ [] ∧ 13 ∉ l) ls →
  read_http_head (concat (map (λ l, l ++ [13; 10]) ls) ++ 13 :: 10 :: rest) = Some (ls, rest).
Proof.
  intros Hls. apply http_head_lines; [done|]. rewrite length_app. simpl.
  assert (length ls ≤ length (concat (map (λ l, l ++ [13; 10]%Z) ls)))%nat; [|lia].
  clear Hls. induction ls as [|l ls IH]; simpl; [lia|]. rewrite !length_app. simpl. lia.
Qed.

(** The authority of a target is plain text. *)
Definition authority_char (c : Z) : bool := address_char c || (c =? 91) || (c =? 93).

Lemma trust_key_chars a p e :
  parse a p = Ok e → 0 ≤ p → trust_key e ≠ [] ∧ Forall (λ c, authority_char c = true) (trust_key e).
Proof.
  unfold parse. destruct (p =? 0); [done|]. intros H Hp.
  destruct (normalize_host_address a) as [o| |] eqn:Ho; simplify_eq/=.
  pose proof (as_chars _ (normalize_safe _ _ Ho)) as Hc. apply forallb_true_Forall in Hc.
  assert (Forall (λ c, authority_char c = true) o) as H1.
  { eapply Forall_impl; [exact Hc|]. intros c Hx. unfold authority_char. by rewrite Hx. }
  assert (Forall (λ c, authority_char c = true) (to_decimal p)) as H2.
  { eapply Forall_impl; [apply forallb_true_Forall, to_decimal_digits, Hp|].
    intros c Hx. unfold authority_char, address_char. by rewrite Hx. }
  unfold trust_key. cbn [normalized_address port]. destruct (parse_ipv6 o); split.
  1,3: by destruct o.
  all: repeat (apply Forall_app; split); try done; by apply forallb_true_Forall.
Qed.

Lemma authority_plain c :
  authority_char c = true → is_ascii c = true ∧ c ≠ 13 ∧ c ≠ 10 ∧ c ≠ 32.
Proof.
  unfold authority_char, address_char, is_ascii_digit, is_ascii_lower, is_ascii. lia.
Qed.

(** The characters of base64 with padding. *)
Definition base64_char (c : Z) : bool :=
  is_ascii_alphanumeric c || (c =? 43) || (c =? 47) || (c =? 61).

Section Http.
Context (base64 : list Z → str).
(** The encoder writes its alphabet. *)
Context (base64_alphabet : ∀ b, forallb base64_char (base64 b) = true).

(** The lines of a CONNECT request. *)
Definition connect_lines (target : Endpoint) (credentials : option ProxyCredentials) : list (list Z) :=
  [lit "CONNECT " ++ trust_key target ++ lit " HTTP/1.1"; lit "Host: " ++ trust_key target] ++
  match credentials with
  | Some c => [lit "Proxy-Authorization: Basic " ++ base64 (utf8_encode (username c) ++ 58 :: password c)]
  | None => []
  end.

Lemma http_request_lines target credentials :
  http_request base64 target credentials =
  concat (map (λ l, l ++ [13; 10]) (connect_lines target credentials)) ++ [13; 10].
Proof.
  unfold http_request, connect_lines. cbv zeta.
  destruct credentials as [c|]; cbn [map concat app]; by rewrite ?app_nil_r, <- ?app_assoc.
Qed.

Lemma connect_lines_plain a p target credentials :
  parse a p = Ok target → 0 ≤ p →
  Forall (λ l, l ≠ [] ∧ Forall (λ c, is_ascii c = true ∧ c ≠ 13 ∧ c ≠ 10) l) (connect_lines target credentials).
Proof.
  intros Ht Hp. destruct (trust_key_chars a p target Ht Hp) as [Hne Hk].
  assert (Forall (λ c, is_ascii c = true ∧ c ≠ 13 ∧ c ≠ 10) (trust_key target)) as Hk'.
  { eapply Forall_impl; [exact Hk|]. intros c Hc%authority_plain. tauto. }
  assert (∀ l, forallb (λ c, is_ascii c && negb (c =? 13) && negb (c =? 10)) l = true →
    Forall (λ c, is_ascii c = true ∧ c ≠ 13 ∧ c ≠ 10) l) as Hlit.
  { intros l Hl. apply forallb_true_Forall in Hl. eapply Forall_impl; [exact Hl|].
    intros c. cbv beta. unfold is_ascii. lia. }
  unfold connect_lines. apply Forall_app. split.
  - repeat constructor; try done; repeat (apply Forall_app; split); try done; by apply Hlit.
  - destruct credentials as [c|]; [|constructor]. apply Forall_singleton. split; [done|].
    apply Forall_app. split; [by apply Hlit|].
    pose proof (base64_alphabet (utf8_encode (username c) ++ 58 :: password c)) as Hb.
    apply forallb_true_Forall in Hb. eapply Forall_impl; [exact Hb|]. intros x. cbv beta.
    unfold base64_char, is_ascii_alphanumeric, is_ascii_digit, is_ascii_upper, is_ascii_lower, is_ascii. lia.
Qed.

Lemma http_request_understood a p target credentials :
  parse a p = Ok target → 0 ≤ p →
  read_http_head (utf8_encode (http_request base64 target credentials)) =
    Some (connect_lines target credentials, []).
Proof.
  intros Ht Hp. pose proof (connect_lines_plain a p target credentials Ht Hp) as Hl.
  rewrite utf8_encode_ascii.
  - rewrite http_request_lines. apply read_head_lines. eapply Forall_impl; [exact Hl|].
    intros l [Hne Hc]. split; [done|]. intros Hin. rewrite Forall_forall in Hc. by apply Hc in Hin as (_ & ? & _).
  - rewrite http_request_lines, forallb_app. apply andb_true_iff. split; [|done].
    apply forallb_true_Forall, Forall_concat, Forall_map. eapply Forall_impl; [exact Hl|].
    intros l [_ Hc]. apply Forall_app. split; [eapply Forall_impl; [exact Hc|by intros c []]|].
    by apply forallb_true_Forall.
Qed.

(** A response head that opens the tunnel. *)
Definition http_accepts (h : list Z) : Prop :=
  first_end h ∧ zlen h ≤ MAX_HTTP_RESPONSE_HEADER_BYTES ∧ check_status h = Ok tt.

Lemma first_end_nonempty h : first_end h → (0 < length h)%nat.
Proof. intros [He _]. destruct h; [by rewrite ends_with_nil in He|simpl; lia]. Qed.

Lemma http_connect_sound target credentials c c' :
  establish_http_connect base64 target credentials c = (Ok tt, c') →
  ∃ h, exchange c c' h (utf8_encode (http_request base64 target credentials)) ∧ http_accepts h.
Proof.
  intros H. unfold establish_http_connect in H. wire_inv H. wire_inv H. apply lift_Ok in H as [Hs ->].
  apply write_all_Ok in H0. unfold read_http_header in H1.
  apply header_loop_sound in H1 as (x & -> & Hex & Hlen & He & Hno). exists x. split.
  - pose proof (exchange_trans _ _ _ _ _ _ _ H0 Hex) as H. by rewrite app_nil_l, app_nil_r in H.
  - split; [split; [done|]|split; [pose proof header_fuel_Z; unfold zlen; lia|done]].
    intros [|n] Hn; [by rewrite take_0|]. apply (Hno (S n)). lia.
Qed.

Lemma http_connect_complete target credentials c h rest :
  faults c = [] → inbound c = h ++ rest → http_accepts h →
  ∃ c', establish_http_connect base64 target credentials c = (Ok tt, c') ∧ inbound c' = rest.
Proof.
  intros Hf Hin (He & Hlen & Hs). pose proof (first_end_nonempty h He) as Hpos. destruct He as [He Hno].
  unfold establish_http_connect.
  rewrite (bind_step _ _ _ _ _ (write_all_clean _ _ _ Hf)). unfold read_http_header.
  erewrite bind_step.
  2: { apply (header_loop_complete _ [] _ h rest); [exact Hin| |done|].
       - pose proof header_fuel_Z. unfold zlen in Hlen. lia.
       - intros n Hn. apply Hno. lia. }
  unfold lift. rewrite app_nil_l, Hs. by eexists.
Qed.

(** A response head that never ends is given up after 16384 bytes. *)
Lemma http_connect_bounded target credentials c :
  faults c = [] → MAX_HTTP_RESPONSE_HEADER_BYTES ≤ zlen (inbound c) →
  (∀ n, Z.of_nat n ≤ MAX_HTTP_RESPONSE_HEADER_BYTES → ends_with CRLFCRLF (take n (inbound c)) = false) →
  ∃ c', establish_http_connect base64 target credentials c =
      (Err (mkError HttpResponse ResponseTooLarge), c') ∧
    inbound c' = drop header_fuel (inbound c).
Proof.
  intros Hf Hlen Hno. pose proof header_fuel_Z as Hfz. unfold establish_http_connect.
  rewrite (bind_step _ _ _ _ _ (write_all_clean _ _ _ Hf)). unfold read_http_header, mbind, wire_bind.
  rewrite header_loop_too_large; [by eexists| |].
  - cbn [inbound]. unfold zlen in Hlen. lia.
  - cbn [inbound app]. intros n Hn. apply Hno. lia.
Qed.

End Http.

(** *** The status line *)

Lemma drop_cr_id s : (∀ s', s ≠ 13 :: s') → drop_cr s = s.
Proof. intros H. destruct s as [|c s]; [done|]. simpl. destruct (Z.eqb_spec c 13) as [->|]; [by destruct (H s)|done]. Qed.

Lemma three_digits code : 100 ≤ code ≤ 999 → zlen (to_decimal code) = 3.
Proof.
  intros Hc. pose proof (zlen_to_radix 10 code 3 ltac:(lia) ltac:(lia) ltac:(lia)) as Hle.
  pose proof (parse_to_radix 10 code ltac:(lia) ltac:(lia)) as Hp.
  apply parse_digits_bound in Hp; [|lia..]. fold (to_decimal code) in *.
  destruct (Z.le_gt_cases 3 (zlen (to_decimal code))); [lia|].
  assert (10 ^ zlen (to_decimal code) ≤ 10 ^ 2) by (apply Z.pow_le_mono_r; lia). lia.
Qed.

(** A response line with a three-digit code opens the tunnel exactly for the
    codes from 200 to 299. *)
Lemma check_status_code code reason rest :
  100 ≤ code ≤ 999 → forallb is_ascii_graphic reason = true → reason ≠ [] →
  check_status ((lit "HTTP/1.1" ++ 32 :: to_decimal code ++ 32 :: reason ++ [13]) ++ 10 :: rest) =
  if (200 <=? code) && (code <? 300) then Ok tt else Err (mkError HttpStatus Rejected).
Proof.
  intros Hc Hr Hne. set (line := lit "HTTP/1.1" ++ 32 :: to_decimal code ++ 32 :: reason).
  replace (lit "HTTP/1.1" ++ 32 :: to_decimal code ++ 32 :: reason ++ [13]) with (line ++ [13])
    by (unfold line; by rewrite <- app_assoc; cbn [app]; rewrite <- app_assoc).
  apply forallb_true_Forall in Hr.
  assert (Forall (λ c, 48 ≤ c ≤ 57) (to_decimal code)) as Hdig.
  { eapply Forall_impl; [apply forallb_true_Forall, to_decimal_digits; lia|].
    intros c. cbv beta. unfold is_ascii_digit. lia. }
  assert (Forall (λ c, 33 ≤ c ≤ 126) reason) as Hgr.
  { eapply Forall_impl; [exact Hr|]. intros c. cbv beta. unfold is_ascii_graphic. lia. }
  assert (Forall (λ c, 32 ≤ c ≤ 126) line) as Hl.
  { unfold line. apply Forall_app. split.
    - apply (Forall_impl (λ c, (32 <=? c) && (c <=? 126) = true)); [by apply forallb_true_Forall|]. intros c. lia.
    - constructor; [lia|]. apply Forall_app. split; [eapply Forall_impl; [exact Hdig|cbv beta; lia]|].
      constructor; [lia|]. eapply Forall_impl; [exact Hgr|cbv beta; lia]. }
  unfold check_status. rewrite split_char_app.
  2: { intros [Hin|Hin]%elem_of_app; [|set_solver]. rewrite Forall_forall in Hl. apply Hl in Hin. lia. }
  cbn [rbind]. rewrite from_utf8_ascii.
  2: { apply forallb_true_Forall, Forall_app. split; [|by repeat constructor].
       eapply Forall_impl; [exact Hl|]. intros c. cbv beta. unfold is_ascii. lia. }
  cbn [ok_or rbind]. assert (trim_end_cr (line ++ [13]) = line) as ->.
  { unfold trim_end_cr. rewrite rev_app_distr. cbn [rev app drop_cr Z.eqb Pos.eqb].
    rewrite drop_cr_id, rev_involutive; [done|]. intros s' E. rewrite Forall_forall in Hl.
    assert (13 ∈ line) as Hin by (apply list_elem_of_In, in_rev; rewrite E; by left). apply Hl in Hin. lia. }
  assert (split_ascii_whitespace line = [lit "HTTP/1.1"; to_decimal code; reason]) as ->.
  { pose proof (split_ascii_whitespace_words (lit "HTTP/1.1") [to_decimal code; reason]) as H.
    cbn [map concat app] in H. rewrite app_nil_r in H. apply H; [done|by apply existsb_false_Forall|].
    repeat constructor; [apply to_decimal_nonempty; lia| |done|]; (eapply Forall_impl; [eassumption|]);
      intros c; cbv beta; unfold is_ascii_whitespace; lia. }
  pose proof (three_digits code Hc) as H3.
  pose proof (to_decimal_digits code ltac:(lia)) as Hd.
  assert (forallb is_ascii (to_decimal code) = true) as Ha by (eapply forallb_impl; [apply digit_is_ascii|done]).
  change (default [] ([lit "HTTP/1.1"; to_decimal code; reason] !! 0%nat)) with (lit "HTTP/1.1").
  change (default [] ([lit "HTTP/1.1"; to_decimal code; reason] !! 1%nat)) with (to_decimal code).
  rewrite (bool_decide_eq_true_2 (lit "HTTP/1.1" = lit "HTTP/1.1")) by done. rewrite orb_true_r.
  rewrite str_len_ascii, H3, utf8_encode_ascii, Hd by done. cbn [negb orb Z.eqb Pos.eqb].
  rewrite parse_uint_to_decimal by (unfold u16_max; lia). cbn [ok_or rbind].
  by destruct ((200 <=? code) && (code <? 300)).
Qed.

(** ** How a SOCKS5 proxy reads a request, and how it answers *)

Inductive SocksAddr : Type :=
| AddrV4 (o : list Z)
| AddrV6 (o : list Z)
| AddrName (name : list Z).

Definition take_bytes (n : nat) (bs : list Z) : option (list Z * list Z) :=
  if (n <=? length bs)%nat then Some (take n bs, drop n bs) else None.

Definition read_addr (bs : list Z) : option (SocksAddr * list Z) :=
  match bs with
  | 1 :: rest => '(o, r) ← take_bytes 4 rest; Some (AddrV4 o, r)
  | 4 :: rest => '(o, r) ← take_bytes 16 rest; Some (AddrV6 o, r)
  | 3 :: n :: rest => '(d, r) ← take_bytes (Z.to_nat n) rest; Some (AddrName d, r)
  | _ => None
  end.

(** User name and password, RFC 1929. *)
Definition read_auth (bs : list Z) : option ((list Z * list Z) * list Z) :=
  match bs with
  | 1 :: n :: rest =>
      '(u, r) ← take_bytes (Z.to_nat n) rest;
      match r with
      | m :: rest => '(p, r) ← take_bytes (Z.to_nat m) rest; Some ((u, p), r)
      | [] => None
      end
  | _ => None
  end.

Record SocksRequest := mkSocksRequest {
  rq_auth : option (list Z * list Z); rq_addr : SocksAddr; rq_port : Z }.

Definition read_connect (auth : option (list Z * list Z)) (bs : list Z) : option (SocksRequest * list Z) :=
  match bs with
  | 5 :: 1 :: 0 :: rest =>
      '(a, r) ← read_addr rest;
      '(p, r) ← take_bytes 2 r;
      Some (mkSocksRequest auth a (from_be_bytes p), r)
  | _ => None
  end.

(** All a client sends, RFC 1928: one method, its authentication, CONNECT. *)
Definition read_socks_request (bs : list Z) : option (SocksRequest * list Z) :=
  match bs with
  | 5 :: 1 :: 0 :: rest => read_connect None rest
  | 5 :: 1 :: 2 :: rest => '(a, r) ← read_auth rest; read_connect (Some a) r
  | _ => None
  end.

(** The bound address a proxy reports, as it writes it. *)
Definition bound_ok (a : SocksAddr) : Prop :=
  match a with
  | AddrV4 o => length o = 4%nat
  | AddrV6 o => length o = 16%nat
  | AddrName d => (0 < length d < 256)%nat
  end.

Definition bound_bytes (a : SocksAddr) : list Z :=
  match a with
  | AddrV4 o => 1 :: o
  | AddrV6 o => 4 :: o
  | AddrName d => 3 :: zlen d :: d
  end.

(** The answers that open the tunnel. *)
Definition socks_accepts (auth : bool) (replies : list Z) : Prop :=
  ∃ a p, bound_ok a ∧ length p = 2%nat ∧
    replies = [5; if auth then 2 else 0] ++ (if auth then [1; 0] else []) ++ [5; 0; 0] ++ bound_bytes a ++ p.

Lemma take_bytes_app n a b : length a = n → take_bytes n (a ++ b) = Some (a, b).
Proof.
  intros <-. unfold take_bytes. rewrite length_app, take_app_length, drop_app_length.
  by rewrite (proj2 (Nat.leb_le _ _)) by lia.
Qed.

(** The address of a target as the proxy reads it. *)
Definition wire_addr (a : SocksTargetAddress) : SocksAddr :=
  match a with
  | SocksIp (V4 o) => AddrV4 o
  | SocksIp (V6 g) => AddrV6 (octets (V6 g))
  | SocksDomain d => AddrName (utf8_encode d)
  end.

Definition target_wf (a : SocksTargetAddress) : Prop :=
  match a with SocksIp ip => ip_wf ip | SocksDomain _ => True end.

Lemma str_len_utf8 s : str_len s = zlen (utf8_encode s).
Proof.
  unfold str_len, utf8_encode. induction s as [|c s IH]; [done|]. simpl. rewrite zlen_app, <- IH.
  unfold utf8_width, utf8_encode_char. by repeat case_match.
Qed.

Lemma length_octets_v6 g : length g = 8%nat → length (octets (V6 g)) = 16%nat.
Proof.
  intros Hg. simpl. rewrite (length_concat_blocks 2); [by rewrite length_map, Hg|].
  apply Forall_map. apply Forall_forall. intros x _. apply length_to_be_bytes.
Qed.

Lemma read_addr_target a bytes rest :
  target_wf a → socks_address a = Ok bytes → read_addr (bytes ++ rest) = Some (wire_addr a, rest).
Proof.
  destruct a as [[o|g]|d]; simpl; intros Hwf H.
  - injection H as <-. cbn [app read_addr]. rewrite take_bytes_app by apply Hwf. done.
  - injection H as <-. cbn [app read_addr]. rewrite take_bytes_app by (apply length_octets_v6, Hwf). done.
  - destruct (try_from u8_max (str_len d)) as [n|] eqn:E; [|done]. apply try_from_Some in E as [-> _].
    injection H as <-. cbn [app read_addr]. rewrite take_bytes_app; [done|].
    rewrite str_len_utf8. unfold zlen. lia.
Qed.

Lemma read_auth_request c bytes rest :
  auth_request c = Ok bytes →
  read_auth (bytes ++ rest) = Some ((utf8_encode (username c), password c), rest).
Proof.
  unfold auth_request. destruct (password c) as [|b pw] eqn:Ep; [done|]. rewrite <- Ep.
  destruct (try_from u8_max (str_len (username c))) as [n|] eqn:E1; [|done].
  destruct (try_from u8_max (zlen (password c))) as [m|] eqn:E2; [|done]. simpl.
  apply try_from_Some in E1 as [-> _]. apply try_from_Some in E2 as [-> _]. intros [= <-].
  cbn [app read_auth]. rewrite <- app_assoc. rewrite take_bytes_app by (rewrite str_len_utf8; unfold zlen; lia).
  cbn [mbind option_bind app]. rewrite take_bytes_app by (unfold zlen; lia). done.
Qed.

Definition bytes_in (c : Conn) : Prop := Forall (λ b, 0 ≤ b < 256) (inbound c).

Lemma exchange_bytes c c' rd wr : exchange c c' rd wr → bytes_in c → Forall (λ b, 0 ≤ b < 256) rd ∧ bytes_in c'.
Proof. intros (H & _) Hb. unfold bytes_in in *. rewrite H in Hb. by apply Forall_app in Hb. Qed.

Lemma socks_reply_sound c c' :
  bytes_in c → read_socks5_reply c = (Ok tt, c') →
  ∃ a p, bound_ok a ∧ length p = 2%nat ∧ exchange c c' ([5; 0; 0] ++ bound_bytes a ++ p) [].
Proof.
  intros Hb H. unfold read_socks5_reply in H. wire_inv H. apply read_exact_Ok in H0 as (Hl & Hex & _).
  destruct a as [|b0 [|b1 [|b2 [|b3 [|]]]]]; simplify_eq/=.
  destruct (exchange_bytes _ _ _ _ Hex Hb) as [_ Hb0].
  destruct (_ || _) eqn:E0; [by apply fail_Ok in H|].
  apply orb_false_iff in E0 as [E0 E2].
  destruct (negb (bool_decide (Some b1 = Some 0))) eqn:E1; [by apply fail_Ok in H|]. rewrite negb_false_iff, bool_decide_eq_true in E0, E1, E2.
  injection E0 as ->. injection E1 as ->. injection E2 as ->.
  wire_inv H. wire_inv H. injection H as <-. apply read_exact_Ok in H1 as (Hl2 & Hex2 & _).
  case_bool_decide as K1; [|case_bool_decide as K4; [|case_bool_decide as K3; [|by apply fail_Ok in H0]]].
  - injection K1 as ->. injection H0 as <- <-. exists (AddrV4 (take 4 a0)), (drop 4 a0).
    split; [simpl; rewrite length_take; lia|]. split; [rewrite length_drop; lia|]. cbn [bound_bytes app].
    rewrite take_drop. exact (exchange_trans _ _ _ _ _ _ _ Hex Hex2).
  - injection K4 as ->. injection H0 as <- <-. exists (AddrV6 (take 16 a0)), (drop 16 a0).
    split; [simpl; rewrite length_take; lia|]. split; [rewrite length_drop; lia|]. cbn [bound_bytes app].
    rewrite take_drop. exact (exchange_trans _ _ _ _ _ _ _ Hex Hex2).
  - injection K3 as ->. wire_inv H0. apply read_exact_Ok in H as (Hln & Hexn & _).
    destruct a1 as [|n [|]]; simplify_eq/=. case_bool_decide as Kn; [by apply fail_Ok in H0|].
    injection H0 as <- <-. destruct (exchange_bytes _ _ _ _ Hexn Hb0) as [Hn _]. apply Forall_cons in Hn as [Hn _].
    exists (AddrName (take (Z.to_nat n) a0)), (drop (Z.to_nat n) a0).
    assert (n ≠ 0) by congruence. split; [simpl; rewrite length_take; lia|].
    split; [rewrite length_drop; lia|]. cbn [bound_bytes app]. rewrite take_drop.
    replace (zlen (take (Z.to_nat n) a0)) with n by (unfold zlen; rewrite length_take; lia).
    pose proof (exchange_trans _ _ _ _ _ _ _ Hex (exchange_trans _ _ _ _ _ _ _ Hexn Hex2)) as HH. exact HH.
Qed.

(** Comparisons of bytes that are both known. *)
Ltac known_bytes :=
  repeat match goal with
  | |- context [bool_decide (Some (Zpos ?a) = Some (Zpos ?b))] => progress
      let v := eval vm_compute in (bool_decide (Some (Zpos a) = Some (Zpos b))) in
      change (bool_decide (Some (Zpos a) = Some (Zpos b))) with v
  | |- context [bool_decide (Some 0 = Some 0)] => change (bool_decide (Some 0 = Some 0)) with true
  end; cbn [negb orb].

Lemma socks_reply_complete c a p rest :
  bound_ok a → length p = 2%nat → inbound c = ([5; 0; 0] ++ bound_bytes a ++ p) ++ rest →
  read_socks5_reply c = (Ok tt, mkConn rest (read_end c) (faults c) (sent c)).
Proof.
  intros Ha Hp Hin. unfold read_socks5_reply, mbind, wire_bind, mret, wire_ret.
  destruct a as [o|o|d]; cbn [bound_bytes app] in Hin; simpl in Ha.
  - rewrite (read_exact_app 4 _ c [5; 0; 0; 1] ((o ++ p) ++ rest) eq_refl Hin). cbn [lookup list_lookup]. known_bytes.
    rewrite (read_exact_app 6 _ _ (o ++ p) rest); [done| |done]. rewrite length_app. lia.
  - rewrite (read_exact_app 4 _ c [5; 0; 0; 4] ((o ++ p) ++ rest) eq_refl Hin). cbn [lookup list_lookup]. known_bytes.
    rewrite (read_exact_app 18 _ _ (o ++ p) rest); [done| |done]. rewrite length_app. lia.
  - rewrite (read_exact_app 4 _ c [5; 0; 0; 3] (zlen d :: (d ++ p) ++ rest) eq_refl Hin). cbn [lookup list_lookup default]. known_bytes.
    rewrite (read_exact_app 1 _ _ [zlen d] ((d ++ p) ++ rest)) by done. cbn [lookup list_lookup default]. known_bytes.
    rewrite bool_decide_eq_false_2 by (unfold zlen; intros [= E]; lia).
    rewrite (read_exact_app _ _ _ (d ++ p) rest); [done| |done]. rewrite length_app. unfold zlen. simpl. lia.
Qed.

Section Socks.
Context (lookup_host : list Z → Z → IngressFailureKind + list IpAddr).

(** What the client sends for a target address, and what the proxy learns. *)
Definition auth_bytes (credentials : option ProxyCredentials) : rres RouteIngressError (list Z) :=
  match credentials with Some c => auth_request c | None => Ok [] end.

Definition auth_read (credentials : option ProxyCredentials) : option (list Z * list Z) :=
  match credentials with Some c => Some (utf8_encode (username c), password c) | None => None end.

Lemma socks_authenticate_sound cr c c' :
  socks_authenticate cr c = (Ok tt, c') →
  ∃ request, auth_request cr = Ok request ∧ exchange c c' [1; 0] request.
Proof.
  intros H. unfold socks_authenticate in H. wire_inv H. apply lift_Ok in H0 as [Hr ->].
  wire_inv H. apply write_all_Ok in H0. wire_inv H. apply read_exact_Ok in H1 as (Hl & Hex & _).
  destruct a1 as [|b0 [|b1 [|]]]; simplify_eq/=. case_bool_decide as E0; [|by apply fail_Ok in H].
  case_bool_decide as E1; [|by apply fail_Ok in H]. simplify_eq/=. injection H as <-.
  exists a. split; [done|]. pose proof (exchange_trans _ _ _ _ _ _ _ H0 Hex) as HH. by rewrite app_nil_r in HH.
Qed.

Lemma establish_socks5_sound target mode credentials c c' :
  bytes_in c → establish_socks5 lookup_host target mode credentials c = (Ok tt, c') →
  ∃ auth address bytes replies,
    auth_bytes credentials = Ok auth ∧
    socks_target_address lookup_host target mode = Ok address ∧ socks_address address = Ok bytes ∧
    socks_accepts (bool_decide (is_Some credentials)) replies ∧
    exchange c c' replies
      ([5; 1; socks_method credentials] ++ auth ++ [5; 1; 0] ++ bytes ++ to_be_bytes 2 (port target)).
Proof.
  intros Hb H. unfold establish_socks5 in H. wire_inv H. apply write_all_Ok in H0.
  wire_inv H. apply read_exact_Ok in H1 as (Hl & Hg & _). destruct a0 as [|g0 [|g1 [|]]]; simplify_eq/=.
  case_bool_decide as E0; [|by apply fail_Ok in H]. cbn [negb] in H.
  destruct (_ || _) eqn:E1; [by apply fail_Ok in H|]. apply orb_false_iff in E1 as [_ E1].
  rewrite negb_false_iff, bool_decide_eq_true in E1. simplify_eq.
  pose proof (exchange_trans _ _ _ _ _ _ _ H0 Hg) as Hx. rewrite app_nil_r in Hx. simpl app in Hx.
  wire_inv H. wire_inv H. apply lift_Ok in H2 as [Ha ->]. wire_inv H. apply lift_Ok in H2 as [Hby ->].
  wire_inv H. apply write_all_Ok in H2.
  assert (∃ auth, auth_bytes credentials = Ok auth ∧
    exchange c1 c2 (if bool_decide (is_Some credentials) then [1; 0] else []) auth) as (auth & Hau & Hax).
  { destruct credentials as [cr|]; simpl in H1.
    - destruct a0. apply socks_authenticate_sound in H1 as (rq & ? & ?). by exists rq.
    - injection H1 as <- <-. exists []. split; [done|apply exchange_refl]. }
  pose proof (exchange_trans _ _ _ _ _ _ _ Hx (exchange_trans _ _ _ _ _ _ _ Hax H2)) as Hall.
  destruct (exchange_bytes _ _ _ _ Hall Hb) as [_ Hb2].
  apply socks_reply_sound in H as (ba & p & Hba & Hp & Hr); [|done].
  pose proof (exchange_trans _ _ _ _ _ _ _ Hall Hr) as Hend.
  eexists auth, _, _, _. split; [done|]. split; [done|]. split; [done|]. split; [by exists ba, p|].
  rewrite app_nil_r in Hend. rewrite !app_nil_r, <- !app_assoc in Hend.
  destruct credentials; exact Hend.
Qed.

Lemma socks_authenticate_complete cr c request rest :
  faults c = [] → auth_request cr = Ok request → inbound c = [1; 0] ++ rest →
  socks_authenticate cr c = (Ok tt, mkConn rest (read_end c) [] (sent c ++ request)).
Proof.
  intros Hf Hr Hin. unfold socks_authenticate. rewrite (bind_step _ _ c request c) by (unfold lift; by rewrite Hr).
  rewrite (bind_step _ _ _ _ _ (write_all_clean request _ _ Hf)).
  by rewrite (bind_step _ _ _ _ _ (read_exact_app 2 SocksAuthentication
    (mkConn (inbound c) (read_end c) [] (sent c ++ request)) [1; 0] rest eq_refl Hin)).
Qed.

Lemma establish_socks5_complete target mode credentials c auth address bytes replies rest :
  faults c = [] → auth_bytes credentials = Ok auth →
  socks_target_address lookup_host target mode = Ok address → socks_address address = Ok bytes →
  socks_accepts (bool_decide (is_Some credentials)) replies → inbound c = replies ++ rest →
  ∃ c', establish_socks5 lookup_host target mode credentials c = (Ok tt, c') ∧ inbound c' = rest.
Proof.
  intros Hf Hau Ha Hby (ba & p & Hba & Hp & ->) Hin. unfold establish_socks5. cbv zeta.
  rewrite (bind_step _ _ _ _ _ (write_all_clean _ _ _ Hf)).
  set (c1 := mkConn _ _ _ _).
  set (tail := ([5; 0; 0] ++ bound_bytes ba ++ p) ++ rest).
  assert (∃ m, m = socks_method credentials ∧
    inbound c1 = [5; m] ++ (if bool_decide (is_Some credentials) then [1; 0] else []) ++ tail) as (m & Hm & Hin1).
  { eexists. split; [reflexivity|]. unfold c1, tail. cbn [inbound]. rewrite Hin, <- !app_assoc.
    by destruct credentials. }
  rewrite (bind_step _ _ _ _ _ (read_exact_app 2 _ c1 [5; m] _ eq_refl Hin1)). cbn [lookup list_lookup].
  rewrite (bool_decide_eq_true_2 (Some 5 = Some 5)) by done.
  rewrite (bool_decide_eq_false_2 (Some m = Some 255)) by (subst m; by destruct credentials).
  rewrite (bool_decide_eq_true_2 (Some m = Some _)) by by subst m. cbn [negb orb].
  set (c2 := mkConn _ _ _ _).
  assert (∃ c3, (match credentials with Some cr => socks_authenticate cr | None => mret () end) c2 = (Ok tt, c3) ∧
    inbound c3 = tail ∧ faults c3 = []) as (c3 & H3 & Hin3 & Hf3).
  { destruct credentials as [cr|]; simpl in Hau.
    - eexists. split; [by apply (socks_authenticate_complete cr c2 auth tail)|done].
    - by exists c2. }
  rewrite (bind_step _ _ _ _ _ H3), (bind_step _ _ c3 address c3) by (unfold lift; by rewrite Ha).
  rewrite (bind_step _ _ c3 bytes c3) by (unfold lift; by rewrite Hby).
  rewrite (bind_step _ _ _ _ _ (write_all_clean _ _ _ Hf3)).
  by erewrite socks_reply_complete; [eexists|exact Hba|exact Hp|exact Hin3].
Qed.

Context (lookup_wf : ∀ h p ips, lookup_host h p = inr ips → Forall ip_wf ips).

Lemma socks_target_wf target mode address :
  socks_target_address lookup_host target mode = Ok address → target_wf address.
Proof.
  unfold socks_target_address. destruct (parse_ip _) as [ip|] eqn:E.
  - intros [= <-]. by eapply parse_ip_wf.
  - destruct mode; [|by intros [= <-]]. destruct (lookup_host _ _) as [|[|ip ips]] eqn:El; [done..|].
    intros [= <-]. apply lookup_wf in El. by apply Forall_cons in El as [? _].
Qed.

(** The proxy reads the request as it was meant. *)
Lemma socks_request_understood target mode credentials auth address bytes :
  0 ≤ port target ≤ u16_max → auth_bytes credentials = Ok auth →
  socks_target_address lookup_host target mode = Ok address → socks_address address = Ok bytes →
  read_socks_request
    ([5; 1; socks_method credentials] ++ auth ++ [5; 1; 0] ++ bytes ++ to_be_bytes 2 (port target)) =
  Some (mkSocksRequest (auth_read credentials) (wire_addr address) (port target), []).
Proof.
  intros Hp Hau Ha Hby. pose proof (socks_target_wf _ _ _ Ha) as Hwf.
  assert (∀ au, read_connect au ([5; 1; 0] ++ bytes ++ to_be_bytes 2 (port target)) =
    Some (mkSocksRequest au (wire_addr address) (port target), [])) as Hc.
  { intros au. cbn [app read_connect]. rewrite (read_addr_target address bytes) by done. cbn [mbind option_bind].
    rewrite <- (app_nil_r (to_be_bytes 2 (port target))), take_bytes_app by apply length_to_be_bytes.
    cbn [mbind option_bind]. rewrite from_to_be_bytes; [done|]. unfold u16_max in Hp. simpl. lia. }
  destruct credentials as [cr|]; simpl in Hau.
  - cbn [app socks_method read_socks_request]. rewrite (read_auth_request cr auth) by done.
    cbn [mbind option_bind]. apply Hc.
  - injection Hau as <-. cbn [app socks_method read_socks_request]. apply Hc.
Qed.

End Socks.

(** ** Properties *)

Section Stream.
Context (base64 : list Z → str) (lookup_host : list Z → Z → IngressFailureKind + list IpAddr).
Context (base64_alphabet : ∀ b, forallb base64_char (base64 b) = true).
Context (lookup_wf : ∀ h p ips, lookup_host h p = inr ips → Forall ip_wf ips).
Context (dial : Endpoint → IngressFailureKind + Conn).

(** What was said on a connection before it is handed to SSH: [pre] came from
    the other side, [req] went to it. *)
Definition handshake (ingress : RouteIngress) (target : Endpoint) (pre req : list Z) : Prop :=
  match ingress with
  | DirectTcp => pre = [] ∧ req = []
  | HttpConnect _ credentials =>
      http_accepts pre ∧ read_http_head req = Some (connect_lines base64 target credentials, [])
  | Socks5 _ mode credentials =>
      socks_accepts (bool_decide (is_Some credentials)) pre ∧
      ∃ address, socks_target_address lookup_host target mode = Ok address ∧
        read_socks_request req =
        Some (mkSocksRequest (auth_read credentials) (wire_addr address) (port target), [])
  end.

Definition dialled (ingress : RouteIngress) (target : Endpoint) : Endpoint :=
  match ingress with DirectTcp => target | HttpConnect proxy _ => proxy | Socks5 proxy _ _ => proxy end.

(** C10. The stream handed to SSH is clean. Whatever the route, a stream is
    returned only on the connection to the endpoint it names, after exactly
    the handshake of that route: the proxy's answers were accepting ones and
    every byte after them is still there, and what was sent is, to a reader
    of the protocol, one request for exactly this target with exactly these
    credentials and nothing more, so that no host name, user name or password
    can smuggle in a second one. *)
Theorem route_stream_clean nodelay a p target ingress t stream :
  parse a p = Ok target → 0 ≤ p ≤ u16_max →
  (∀ e c, dial e = inr c → bytes_in c) →
  connect_route_stream base64 lookup_host dial nodelay target ingress t = Ok stream →
  ∃ c0 pre req, dial (dialled ingress target) = inr c0 ∧ exchange c0 stream pre req ∧
    handshake ingress target pre req.
Proof.
  intros Ht Hp Hb H. assert (port target = p) as Hport.
  { unfold parse in Ht. destruct (p =? 0); [done|]. by destruct (normalize_host_address a); simplify_eq/=. }
  unfold connect_route_stream in H. destruct (t =? 0); [done|].
  unfold connect_tcp, through in H. destruct ingress as [|proxy cr|proxy mode cr]; cbn [dialled handshake].
  - destruct (dial target) as [|c0]; [done|]. cbn [rbind] in H. destruct nodelay; [|done]. injection H as <-.
    exists c0, [], []. split; [done|]. split; [apply exchange_refl|done].
  - destruct (dial proxy) as [|c0] eqn:Hd; [done|]. cbn [rbind] in H.
    destruct (establish_http_connect base64 target cr c0) as [[[]| |] c'] eqn:He; [|done..].
    cbn [rbind] in H. destruct nodelay; [|done]. injection H as <-.
    apply http_connect_sound in He as (h & Hx & Ha). exists c0, h. eexists. split; [done|]. split; [exact Hx|].
    split; [done|]. eapply http_request_understood; [done|exact Ht|lia].
  - destruct (dial proxy) as [|c0] eqn:Hd; [done|]. cbn [rbind] in H.
    destruct (establish_socks5 lookup_host target mode cr c0) as [[[]| |] c'] eqn:He; [|done..].
    cbn [rbind] in H. destruct nodelay; [|done]. injection H as <-.
    apply establish_socks5_sound in He as (au & ad & by_ & rep & Hau & Had & Hby & Hacc & Hx); [|by eapply Hb].
    exists c0, rep. eexists. split; [done|]. split; [exact Hx|]. split; [done|]. exists ad. split; [done|].
    apply (socks_request_understood lookup_host lookup_wf target mode); auto. by rewrite Hport.
Qed.

(** Credentials that SOCKS5 can carry. *)
Definition socks_credentials (credentials : option ProxyCredentials) : Prop :=
  match credentials with
  | None => True
  | Some c => ∃ u pw, credentials_new u pw = Ok c ∧ pw ≠ []
  end.

Lemma auth_bytes_total credentials : socks_credentials credentials → ∃ auth, auth_bytes credentials = Ok auth.
Proof.
  destruct credentials as [c|]; [|by eexists]. intros (u & pw & H & Hne). unfold credentials_new in H.
  destruct (_ || _) eqn:E; [done|]. injection H as <-. simpl. unfold auth_request. cbn [password username].
  destruct pw as [|b pw]; [done|]. apply orb_false_iff in E as [E Hpw].
  repeat (apply orb_false_iff in E as [E ?]). unfold MAX_PROXY_CREDENTIAL_COMPONENT_BYTES in *.
  unfold try_from. replace ((0 <=? str_len u) && (str_len u <=? u8_max)) with true.
  2: { rewrite str_len_utf8 in *. pose proof (zlen_nonneg (utf8_encode u)). lia. }
  replace ((0 <=? zlen (b :: pw)) && (zlen (b :: pw) <=? u8_max)) with true.
  2: { pose proof (zlen_nonneg (b :: pw)). lia. }
  by eexists.
Qed.

Lemma socks_address_total a p target :
  parse a p = Ok target →
  ∃ address bytes, socks_target_address lookup_host target Proxy = Ok address ∧ socks_address address = Ok bytes.
Proof.
  unfold parse. destruct (p =? 0); [done|]. intros H.
  destruct (normalize_host_address a) as [o| |] eqn:Ho; simplify_eq/=.
  pose proof (as_len _ (normalize_safe _ _ Ho)) as Hl. unfold socks_target_address. cbn [normalized_address].
  destruct (parse_ip o) as [[]|]; [by do 2 eexists..|]. do 2 eexists. split; [done|]. simpl.
  unfold try_from. by replace ((0 <=? str_len o) && (str_len o <=? u8_max)) with true by (unfold u8_max; lia).
Qed.


(** The answer of an HTTP proxy is bounded and judged by its status. A
    head that does not end within 16384 bytes is refused after exactly that
    many; and a response line is accepted for the codes 200 to 299 and
    rejected for every other, whatever its reason and its headers. *)
Theorem http_response_exact target credentials c :
  (faults c = [] → MAX_HTTP_RESPONSE_HEADER_BYTES ≤ zlen (inbound c) →
   (∀ n, Z.of_nat n ≤ MAX_HTTP_RESPONSE_HEADER_BYTES → ends_with CRLFCRLF (take n (inbound c)) = false) →
   ∃ c', establish_http_connect base64 target credentials c =
       (Err (mkError HttpResponse ResponseTooLarge), c') ∧
     inbound c' = drop header_fuel (inbound c)) ∧
  (∀ code reason rest, 100 ≤ code ≤ 999 → forallb is_ascii_graphic reason = true → reason ≠ [] →
   check_status ((lit "HTTP/1.1" ++ 32 :: to_decimal code ++ 32 :: reason ++ [13]) ++ 10 :: rest) =
   if (200 <=? code) && (code <? 300) then Ok tt else Err (mkError HttpStatus Rejected)).
Proof. split; [apply http_connect_bounded|apply check_status_code]. Qed.

End Stream.

(** *** Witnesses *)

Definition demo_base64 : list Z → str := λ _, lit "dTpw".
Definition demo_lookup : list Z → Z → IngressFailureKind + list IpAddr := λ _ _, inl Timeout.
Definition demo_target : Endpoint := mkEndpoint (lit "host.example") 22.
Definition demo_socks_replies : list Z := [5; 2; 1; 0; 5; 0; 0; 3; 1; 120; 0; 80].
Definition demo_dial : Endpoint → IngressFailureKind + Conn :=
  λ _, inr (mkConn (demo_socks_replies ++ lit "SSH-2.0-x") Timeout [] []).
Definition demo_credentials : option ProxyCredentials := Some (mkCredentials (lit "user") (lit "pw")).

Lemma route_stream_clean_witness :
  ∃ stream req, connect_route_stream demo_base64 demo_lookup demo_dial true demo_target
      (Socks5 demo_target Proxy demo_credentials) 1000 = Ok stream ∧
    inbound stream = lit "SSH-2.0-x" ∧
    read_socks_request req =
      Some (mkSocksRequest (Some (lit "user", lit "pw")) (AddrName (lit "host.example")) 22, []).
Proof.
  destruct (connect_route_stream demo_base64 demo_lookup demo_dial true demo_target
    (Socks5 demo_target Proxy demo_credentials) 1000) as [s| |] eqn:E; [|by vm_compute in E..].
  destruct (route_stream_clean demo_base64 demo_lookup ltac:(intros b; vm_compute; reflexivity)
    ltac:(intros h p ips [=]) demo_dial true (lit "host.example") 22 demo_target
    (Socks5 demo_target Proxy demo_credentials) 1000 s) as (c0 & pre & req & Hd & Hx & Ha & ad & Had & Hr).
  - by vm_compute.
  - unfold u16_max. lia.
  - intros e c [= <-]. apply (bool_decide_unpack _). by vm_compute.
  - exact E.
  - vm_compute in Had. injection Had as <-. exists s, req. split; [done|]. split; [|exact Hr].
    vm_compute in E. by injection E as <-.
Defined.


End Route.
