(* ===== verification/OperationLedger.v ===== *)
(** * Control operations that take effect once

    src-tauri/src/ssh_operation_ledger.rs, the two functions of
    src-tauri/src/ssh_session_service.rs that use it, and
    src-tauri/src/terminal_focus_broker.rs: bounded registries that answer a
    repeated operation with the outcome of the first one, and refuse an
    operation id that comes back with another request. Both registries are
    shown to be a window over the last operations, an interface against which
    the at-most-once theorem is proved for both. *)

From S2P Require Import Prelude RustStr.

Module Ledger.

(** ** Errors of the core API (crates/core-api/src/error.rs) *)

Inductive ErrorCategory : Type :=
| Validation | ConflictError | Permission | Unavailable | Timeout | Internal | Incompatible
| NeedsReconciliation.

Inductive RetryStrategy : Type :=
| Never | RefreshSnapshot | QueryOperation | AfterMilliseconds (ms : Z) | WaitForUser | Upgrade
| Reconcile.

Record CoreApiError := mkApiError {
  code : str;
  category : ErrorCategory;
  retry_strategy : RetryStrategy;
  message_key : str;
  params : gmap str str;
  error_request_id : option str;
  diagnostic_id : option str;
  conflict : option (option Z) }.

#[global] Instance category_eq : EqDecision ErrorCategory.
Proof. solve_decision. Defined.
#[global] Instance strategy_eq : EqDecision RetryStrategy.
Proof. solve_decision. Defined.
#[global] Instance api_error_eq : EqDecision CoreApiError.
Proof. solve_decision. Defined.

Definition core_error (request_id code : str) (c : ErrorCategory) (r : RetryStrategy) (key : str)
  : CoreApiError := mkApiError code c r key ∅ (Some request_id) None None.

Definition conflict_error (request_id : str) : CoreApiError :=
  core_error request_id (lit "ssh_terminal.stale_fence") ConflictError RefreshSnapshot
    (lit "errors.sshSession.staleFence").

(** The same error, answered to another request. *)
Definition with_request_id (request_id : str) (e : CoreApiError) : CoreApiError :=
  mkApiError (code e) (category e) (retry_strategy e) (message_key e) (params e)
    (Some request_id) (diagnostic_id e) (conflict e).

Notation ActorResult A := (sum CoreApiError A).

(** ** The SSH operation ledger *)

Section SshLedger.
Context {F O : Type} `{EqDecision F}.

Record OperationEntry := mkEntry { idempotency_key : str; fingerprint : F; outcome : O }.

Record SshOperationLedger := mkLedger {
  capacity : Z;
  entries : gmap str OperationEntry;
  insertion_order : list str }.

Inductive SshOperationLookup : Type := Missing | Replay (o : O) | Conflict.

(** [SshOperationLedger::new]: the capacity is asserted to be positive. *)
Definition new (cap : Z) : rres Empty_set SshOperationLedger :=
  if 0 <? cap then Ok (mkLedger cap ∅ []) else Panic.

Definition lookup (l : SshOperationLedger) (operation_id key : str) (fp : F) : SshOperationLookup :=
  match entries l !! operation_id with
  | None => Missing
  | Some e =>
      if bool_decide (idempotency_key e = key) && bool_decide (fingerprint e = fp)
      then Replay (outcome e) else Conflict
  end.

(** The [while] of [record]: the oldest ids leave until there is room. *)
Fixpoint evict (cap : Z) (es : gmap str OperationEntry) (order : list str)
  : gmap str OperationEntry * list str :=
  if cap <=? Z.of_nat (size es) then
    match order with
    | [] => (es, [])
    | expired :: order => evict cap (delete expired es) order
    end
  else (es, order).

Definition record (l : SshOperationLedger) (operation_id key : str) (fp : F) (o : O)
  : SshOperationLookup * SshOperationLedger :=
  match lookup l operation_id key fp with
  | Missing =>
      let '(es, order) := evict (capacity l) (entries l) (insertion_order l) in
      (Replay o, mkLedger (capacity l) (<[operation_id := mkEntry key fp o]> es)
                          (order ++ [operation_id]))
  | existing => (existing, l)
  end.

End SshLedger.
Arguments OperationEntry : clear implicits.
Arguments SshOperationLedger : clear implicits.
Arguments SshOperationLookup : clear implicits.

(** ** Stored results, and the two uses of the ledger *)

Inductive StoredSshOperationResult (A : Type) : Type :=
| StoredOk (a : A)
| StoredErr (e : CoreApiError).
Arguments StoredOk {A}. Arguments StoredErr {A}.

Definition from_actor_result {A} (r : ActorResult A) : StoredSshOperationResult A :=
  match r with inr a => StoredOk a | inl e => StoredErr e end.

Definition replay {A} (s : StoredSshOperationResult A) (request_id : str) : ActorResult A :=
  match s with
  | StoredOk a => inr a
  | StoredErr e => inl (with_request_id request_id e)
  end.

Section Control.
Context {F A : Type} `{EqDecision F}.
Notation L := (SshOperationLedger F (StoredSshOperationResult A)).

Definition replay_control_operation (l : L) (operation_id key : str) (fp : F) (request_id : str)
  : option (ActorResult A) :=
  match lookup l operation_id key fp with
  | Missing => None
  | Replay s => Some (replay s request_id)
  | Conflict => Some (inl (conflict_error request_id))
  end.

(** The [Missing] arm is [unreachable!] in the source. *)
Definition record_control_operation (l : L) (operation_id key : str) (fp : F) (request_id : str)
    (r : ActorResult A) : rres Empty_set (ActorResult A) * L :=
  match record l operation_id key fp (from_actor_result r) with
  | (Replay s, l') => (Ok (replay s request_id), l')
  | (Conflict, l') => (Ok (inl (conflict_error request_id)), l')
  | (Missing, l') => (Panic, l')
  end.

(** The shape of every control handler of the actor: the ledger is asked,
    the operation runs on the rest of the actor, its result is recorded. *)
Definition control_operation {St} (once : St → ActorResult A * St)
    (operation_id key : str) (fp : F) (request_id : str) (s : L * St)
  : rres Empty_set (ActorResult A) * (L * St) :=
  match replay_control_operation s.1 operation_id key fp request_id with
  | Some r => (Ok r, s)
  | None =>
      let '(r, st) := once s.2 in
      let '(r', l) := record_control_operation s.1 operation_id key fp request_id r in
      (r', (l, st))
  end.

End Control.

(** ** The focus broker *)

Definition FOCUS_OPERATION_LEDGER_CAPACITY : nat := 1024.

Section Broker.
(** The target of a focus change and the response to it. *)
Context {T R : Type} `{EqDecision T}.

Record FocusChangeRequest := mkFocusRequest {
  request_id : str;
  operation_id : str;
  focus_key : str;
  expected_focus_epoch : Z;
  target : option T }.

Record FocusFingerprint := mkFocusFingerprint {
  ff_key : str; ff_epoch : Z; ff_target : option T }.

#[global] Instance focus_fingerprint_eq : EqDecision FocusFingerprint.
Proof. solve_decision. Defined.

Definition focus_fingerprint (r : FocusChangeRequest) : FocusFingerprint :=
  mkFocusFingerprint (focus_key r) (expected_focus_epoch r) (target r).

Record StoredFocusOperation := mkStoredFocus {
  stored_fingerprint : FocusFingerprint; stored_result : ActorResult R }.

Record BrokerState := mkBroker {
  focus_operations : gmap str StoredFocusOperation;
  focus_operation_order : list str }.

Definition replay_result (stored : ActorResult R) (rid : str) : ActorResult R :=
  match stored with
  | inr a => inr a
  | inl e => inl (with_request_id rid e)
  end.

(** The [while] of [linearize_focus_change]. *)
Fixpoint expire (cap : nat) (ops : gmap str StoredFocusOperation) (order : list str)
  : gmap str StoredFocusOperation * list str :=
  match order with
  | expired :: rest =>
      if decide (cap < length order)%nat then expire cap (delete expired ops) rest else (ops, order)
  | [] => (ops, [])
  end.

(** [linearize_focus_change]: [invalidate] is the registered desktop
    invalidator ([id] when there is none), [operation] the focus change of
    the resource actors. *)
Definition linearize_focus_change {St} (invalidate : St → St)
    (operation : St → ActorResult R * St) (r : FocusChangeRequest) (s : BrokerState * St)
  : ActorResult R * (BrokerState * St) :=
  let '(b, st) := s in
  match focus_operations b !! operation_id r with
  | Some stored =>
      if bool_decide (stored_fingerprint stored = focus_fingerprint r)
      then (replay_result (stored_result stored) (request_id r), s)
      else (inl (conflict_error (request_id r)), s)
  | None =>
      let st := match target r with Some _ => invalidate st | None => st end in
      let '(res, st) := operation st in
      let '(ops, order) :=
        expire FOCUS_OPERATION_LEDGER_CAPACITY
          (<[operation_id r := mkStoredFocus (focus_fingerprint r) res]> (focus_operations b))
          (focus_operation_order b ++ [operation_id r]) in
      (res, (mkBroker ops order, st))
  end.

Definition broker_default : BrokerState := mkBroker ∅ [].

End Broker.
Arguments FocusChangeRequest : clear implicits.
Arguments FocusFingerprint : clear implicits.
Arguments StoredFocusOperation : clear implicits.
Arguments BrokerState : clear implicits.

(** ** The window of the last operations *)

Section Window.
Context {P O : Type}.

(** The operations a registry remembers, the oldest first: the id, what
    identifies the request, and the outcome. *)
Definition window : Type := list (str * (P * O)).

Definition lastn (n : nat) (w : window) : window := drop (length w - n) w.

Definition wfind (w : window) (id : str) : option (P * O) := (list_to_map w : gmap str (P * O)) !! id.

(** An operation of the window with at most [k] later ones. *)
Definition recent (w : window) (id : str) (x : P * O) (k : nat) : Prop :=
  ∃ w1 w2, w = w1 ++ (id, x) :: w2 ∧ (length w2 ≤ k)%nat.

Lemma length_lastn n w : length (lastn n w) = (length w `min` n)%nat.
Proof. unfold lastn. rewrite length_drop. lia. Qed.

Lemma NoDup_lastn n w : NoDup w.*1 → NoDup (lastn n w).*1.
Proof.
  unfold lastn. rewrite fmap_drop. intros H.
  rewrite <- (take_drop (length w - n) (w.*1)) in H. by apply NoDup_app in H as (_ & _ & H).
Qed.

Lemma wfind_recent w id x k : NoDup w.*1 → recent w id x k → wfind w id = Some x.
Proof.
  intros Hn (w1 & w2 & -> & _). apply elem_of_list_to_map_1; [done|].
  apply elem_of_app. right. by left.
Qed.

Lemma wfind_None w id : wfind w id = None ↔ id ∉ w.*1.
Proof. symmetry. apply not_elem_of_list_to_map. Qed.

Lemma recent_snoc w id x n :
  (0 < n)%nat → recent (lastn n (w ++ [(id, x)])) id x 0.
Proof.
  intros Hn. unfold recent, lastn. rewrite length_app. cbn [length].
  rewrite drop_app_le by lia. by exists (drop (length w + 1 - n) w), [].
Qed.

Lemma recent_push w id x k n y :
  (k + 1 < n)%nat → recent w id x k → recent (lastn n (w ++ [y])) id x (k + 1).
Proof.
  intros Hk (w1 & w2 & -> & Hl). unfold recent, lastn.
  exists (drop (length ((w1 ++ (id, x) :: w2) ++ [y]) - n) w1), (w2 ++ [y]).
  rewrite <- !app_assoc, drop_app_le by (rewrite !length_app; cbn [length app]; rewrite ?length_app; cbn; lia).
  split; [done|]. rewrite length_app. cbn. lia.
Qed.

End Window.
Arguments window : clear implicits.

#[global] Hint Resolve NoDup_lastn : core.

(** What a registry of operations promises: it shows a window over the last
    operations, of a capacity that does not change, finds exactly the
    operations of the window, and storing a new one slides the window. *)
Class OnceRegistry (L P O : Type) := {
  reg_cap : L → nat;
  reg_find : L → str → option (P * O);
  reg_store : L → str → P → O → L;
  reg_window : L → window P O → Prop;
  reg_cap_pos : ∀ l w, reg_window l w → (0 < reg_cap l)%nat;
  reg_cap_store : ∀ l id p o, reg_cap (reg_store l id p o) = reg_cap l;
  reg_nodup : ∀ l w, reg_window l w → NoDup w.*1;
  reg_find_window : ∀ l w id, reg_window l w → reg_find l id = wfind w id;
  reg_store_window : ∀ l w id p o, reg_window l w → reg_find l id = None →
    reg_window (reg_store l id p o) (lastn (reg_cap l) (w ++ [(id, (p, o))])) }.

(** ** Operations through a registry *)

Section Once.
Context {L P O St : Type} `{!OnceRegistry L P O} `{EqDecision P}.

Inductive Answer : Type := Ran (o : O) | Replayed (o : O) | Refused.

Record Call := mkCall { call_id : str; call_request : P; call_run : St → O * St }.

(** One operation: the registry answers what it has seen. *)
Definition once_step (c : Call) (s : L * St) : Answer * (L * St) :=
  match reg_find s.1 (call_id c) with
  | Some (p, o) => (if bool_decide (p = call_request c) then Replayed o else Refused, s)
  | None =>
      let '(o, st) := call_run c s.2 in
      (Ran o, (reg_store s.1 (call_id c) (call_request c) o, st))
  end.

Fixpoint once_run (cs : list Call) (s : L * St) : L * St :=
  match cs with
  | [] => s
  | c :: cs => once_run cs (once_step c s).2
  end.

Lemma once_step_cap c s : reg_cap (once_step c s).2.1 = reg_cap s.1.
Proof.
  unfold once_step. destruct (reg_find _ _) as [[p o]|]; [done|].
  destruct (call_run c s.2). apply reg_cap_store.
Qed.

Lemma once_step_window c s w : reg_window s.1 w → ∃ w', reg_window (once_step c s).2.1 w'.
Proof.
  intros Hw. unfold once_step. destruct (reg_find _ _) as [[p o]|] eqn:E; [by exists w|].
  destruct (call_run c s.2). eexists. by apply reg_store_window.
Qed.

Lemma once_run_window cs s w : reg_window s.1 w → ∃ w', reg_window (once_run cs s).1 w'.
Proof.
  revert s w. induction cs as [|c cs IH]; intros s w Hw; [by exists w|].
  destruct (once_step_window c s w Hw) as [w' Hw']. by apply (IH _ w').
Qed.

Lemma once_run_cap cs s : reg_cap (once_run cs s).1 = reg_cap s.1.
Proof.
  revert s. induction cs as [|c cs IH]; intros s; [done|]. cbn. by rewrite IH, once_step_cap.
Qed.

(** A remembered operation ages by at most one per call. *)
Lemma once_step_recent c s w id x k :
  reg_window s.1 w → recent w id x k → (k + 1 < reg_cap s.1)%nat →
  ∃ w', reg_window (once_step c s).2.1 w' ∧ recent w' id x (k + 1).
Proof.
  intros Hw Hr Hk. unfold once_step. destruct (reg_find s.1 (call_id c)) as [[p o]|] eqn:E.
  - exists w. split; [done|]. destruct Hr as (w1 & w2 & -> & ?). exists w1, w2. split; [done|lia].
  - destruct (call_run c s.2) as [o st]. eexists. split; [by apply reg_store_window|].
    by apply recent_push.
Qed.

Lemma once_run_recent cs s w id x k :
  reg_window s.1 w → recent w id x k → (k + length cs < reg_cap s.1)%nat →
  ∃ w', reg_window (once_run cs s).1 w' ∧ recent w' id x (k + length cs).
Proof.
  revert s w k. induction cs as [|c cs IH]; intros s w k Hw Hr Hk; cbn [once_run length].
  - exists w. rewrite Nat.add_0_r. done.
  - cbn [length] in Hk. destruct (once_step_recent c s w id x k) as (w' & Hw' & Hr'); [done..|lia|].
    replace (k + S (length cs))%nat with ((k + 1) + length cs)%nat by lia.
    apply (IH _ _ _ Hw' Hr'). rewrite once_step_cap. lia.
Qed.

(** An operation that ran does not run again while fewer than [reg_cap] calls
    came after it: its repetition is answered with its outcome, another
    request under its id is refused, and neither changes anything. *)
Lemma once_step_replays c c' s w cs o s' :
  reg_window s.1 w → once_step c s = (Ran o, s') →
  call_id c' = call_id c → (length cs < reg_cap s.1)%nat →
  once_step c' (once_run cs s') =
    (if bool_decide (call_request c = call_request c') then Replayed o else Refused, once_run cs s').
Proof.
  intros Hw Hs Hid Hcs.
  assert (∃ w', reg_window s'.1 w' ∧ recent w' (call_id c) (call_request c, o) 0) as (w' & Hw' & Hr).
  { unfold once_step in Hs. destruct (reg_find s.1 (call_id c)) as [[p o']|] eqn:E.
    - by destruct (bool_decide _).
    - destruct (call_run c s.2) as [o1 st]. injection Hs as -> <-. eexists.
      split; [by apply reg_store_window|]. eapply recent_snoc, reg_cap_pos, Hw. }
  assert (reg_cap s'.1 = reg_cap s.1) as Hc by (rewrite <- (once_step_cap c s), Hs; done).
  destruct (once_run_recent cs s' w' _ _ _ Hw' Hr) as (w2 & Hw2 & Hr2); [lia|].
  unfold once_step. rewrite Hid, (reg_find_window _ w2) by done.
  rewrite (wfind_recent w2 _ (call_request c, o) _ (reg_nodup _ _ Hw2) Hr2). done.
Qed.

End Once.
Arguments Call : clear implicits.
Arguments Answer : clear implicits.

(** ** Maps that show a window *)

Section Shows.
Context {E P O : Type} (f : E → P * O).
Implicit Types (w : window P O) (es : gmap str E).

Definition shows es w : Prop := f <$> es = list_to_map w.

Lemma shows_find es w id : shows es w → f <$> es !! id = wfind w id.
Proof. intros H. unfold wfind. rewrite <- H. by rewrite lookup_fmap. Qed.

Lemma shows_size es w : NoDup w.*1 → shows es w → size es = length w.
Proof.
  intros Hn H. rewrite <- (map_size_fmap f), H, map_size_list_to_map; done.
Qed.

Lemma shows_delete es id x w :
  NoDup ((id, x) :: w).*1 → shows es ((id, x) :: w) → shows (delete id es) w.
Proof.
  unfold shows. cbn. intros [Hid _]%NoDup_cons H. rewrite fmap_delete, H.
  apply delete_insert_id. by apply wfind_None.
Qed.

Lemma shows_insert es id e w :
  id ∉ w.*1 → shows es w → shows (<[id := e]> es) (w ++ [(id, f e)]).
Proof.
  unfold shows. intros Hid H. rewrite fmap_insert, H, list_to_map_snoc; done.
Qed.

Lemma lastn_snoc n w y : (0 < n)%nat → lastn n (w ++ [y]) = lastn (n - 1) w ++ [y].
Proof.
  intros Hn. unfold lastn. rewrite length_app. cbn [length].
  rewrite drop_app_le by lia. do 2 f_equal. lia.
Qed.

Lemma lastn_cons n y w : (n ≤ length w)%nat → lastn n (y :: w) = lastn n w.
Proof.
  intros Hn. unfold lastn. cbn [length]. rewrite Nat.sub_succ_l by done. done.
Qed.

Lemma lastn_all n w : (length w ≤ n)%nat → lastn n w = w.
Proof. intros Hn. unfold lastn. rewrite (proj2 (Nat.sub_0_le _ _)) by done. done. Qed.

Lemma NoDup_snoc_fst w id x : NoDup w.*1 → id ∉ w.*1 → NoDup (w ++ [(id, x)]).*1.
Proof.
  intros. rewrite fmap_app. apply NoDup_app. split; [done|]. split; [|apply NoDup_singleton].
  intros y Hy ->%list_elem_of_singleton. done.
Qed.

Lemma lastn_fst_sub n w id : id ∉ w.*1 → id ∉ (lastn n w).*1.
Proof.
  unfold lastn. rewrite fmap_drop. intros H Hin. apply H.
  rewrite <- (take_drop (length w - n) (w.*1)). apply elem_of_app. by right.
Qed.

End Shows.

(** ** The ledger is such a registry *)

Section LedgerRegistry.
Context {F O : Type} `{EqDecision F}.
Notation P := (str * F)%type.

Definition entry_pair (e : OperationEntry F O) : P * O :=
  ((idempotency_key e, fingerprint e), outcome e).

Definition ledger_window (l : SshOperationLedger F O) (w : window P O) : Prop :=
  0 < capacity l ∧ insertion_order l = w.*1 ∧ NoDup w.*1 ∧ zlen w ≤ capacity l ∧
  shows entry_pair (entries l) w.

(** The eviction loop keeps the newest [cap - 1] operations. *)
Lemma evict_window cap es w :
  0 < cap → NoDup w.*1 → shows entry_pair es w →
  ∃ es', evict cap es w.*1 = (es', (lastn (Z.to_nat cap - 1) w).*1) ∧
    shows entry_pair es' (lastn (Z.to_nat cap - 1) w).
Proof.
  intros Hc. revert es. induction w as [|[id x] w IH]; intros es Hn Hs.
  - exists es. cbn [fmap list_fmap evict]. rewrite (shows_size _ _ _ Hn Hs). cbn [length].
    rewrite (proj2 (Z.leb_gt cap _)) by lia. done.
  - cbn [fmap list_fmap evict fst]. rewrite (shows_size _ _ _ Hn Hs). cbn [length].
    destruct (Z.leb_spec cap (Z.of_nat (S (length w)))).
    + rewrite lastn_cons by lia. apply IH; [by apply NoDup_cons in Hn as [_ ?]|].
      by eapply shows_delete.
    + exists es. rewrite lastn_all by (cbn [length]; lia). done.
Qed.

Lemma lookup_window l w id key fp :
  ledger_window l w →
  lookup l id key fp =
    match wfind w id with
    | Some (p, o) => if bool_decide (p = (key, fp)) then Replay o else Conflict
    | None => Missing
    end.
Proof.
  intros (_ & _ & _ & _ & Hs). unfold lookup. rewrite <- (shows_find _ _ _ id Hs).
  destruct (entries l !! id) as [e|]; [|done]. cbn.
  rewrite <- bool_decide_and.
  by rewrite (bool_decide_ext _ ((entry_pair e).1 = (key, fp))) by (symmetry; apply pair_equal_spec).
Qed.

Lemma record_window l w id key fp o :
  ledger_window l w → wfind w id = None →
  ∃ l', record l id key fp o = (Replay o, l') ∧ capacity l' = capacity l ∧
    ledger_window l' (lastn (Z.to_nat (capacity l)) (w ++ [(id, ((key, fp), o))])).
Proof.
  intros Hw Hid. unfold record. rewrite (lookup_window _ _ _ _ _ Hw), Hid.
  destruct Hw as (Hc & Ho & Hn & Hl & Hs).
  destruct (evict_window (capacity l) (entries l) w) as (es' & He & Hs'); [done..|].
  rewrite Ho, He. eexists. split; [done|]. split; [done|].
  apply wfind_None in Hid. rewrite lastn_snoc by lia.
  split; [done|]. cbn. split; [by rewrite fmap_app|].
  split; [apply NoDup_snoc_fst; auto using lastn_fst_sub|]. split.
  - rewrite zlen_app. unfold zlen. rewrite length_lastn. cbn. lia.
  - apply (shows_insert entry_pair _ _ (mkEntry key fp o)); [by apply lastn_fst_sub|done].
Qed.

Lemma new_window cap l : new cap = Ok l → capacity l = cap ∧ ledger_window l [].
Proof.
  unfold new. destruct (Z.ltb_spec 0 cap); [|done]. intros [= <-]. split; [done|].
  split; [done|]. split; [done|]. split; [apply NoDup_nil_2|]. split; [rewrite zlen_nil; cbn [capacity]; lia|].
  apply fmap_empty.
Qed.

#[global, program] Instance ledger_registry : OnceRegistry (SshOperationLedger F O) P O := {|
  reg_cap l := Z.to_nat (capacity l);
  reg_find l id := entry_pair <$> entries l !! id;
  reg_store l id p o := (record l id p.1 p.2 o).2;
  reg_window := ledger_window |}.
Next Obligation. intros l w [Hc _]. cbn. lia. Qed.
Next Obligation.
  intros l id p o. cbn. unfold record. destruct (lookup l id p.1 p.2); [|done..].
  by destruct (evict _ _ _).
Qed.
Next Obligation. intros l w (_ & _ & Hn & _). done. Qed.
Next Obligation. intros l w id (_ & _ & _ & _ & Hs). by apply shows_find. Qed.
Next Obligation.
  intros l w id [key fp] o Hw Hid. cbn. destruct (record_window l w id key fp o Hw) as (l' & -> & _ & ?).
  - destruct Hw as (_ & _ & _ & _ & Hs). rewrite <- (shows_find _ _ _ id Hs). done.
  - done.
Qed.

End LedgerRegistry.

(** ** The broker is one too *)

Section BrokerRegistry.
Context {T R : Type} `{EqDecision T}.
Notation P := (FocusFingerprint T).
Notation O := (ActorResult R).

Definition stored_pair (s : StoredFocusOperation T R) : P * O :=
  (stored_fingerprint s, stored_result s).

Definition broker_window (b : BrokerState T R) (w : window P O) : Prop :=
  focus_operation_order b = w.*1 ∧ NoDup w.*1 ∧ (length w ≤ FOCUS_OPERATION_LEDGER_CAPACITY)%nat ∧
  shows stored_pair (focus_operations b) w.

Lemma expire_window cap ops w :
  NoDup w.*1 → shows stored_pair ops w →
  ∃ ops', expire cap ops w.*1 = (ops', (lastn cap w).*1) ∧ shows stored_pair ops' (lastn cap w).
Proof.
  revert ops. induction w as [|[id x] w IH]; intros ops Hn Hs; [by exists ops|].
  cbn [fmap list_fmap expire fst length]. rewrite length_fmap.
  destruct (decide (cap < S (length w))%nat).
  - rewrite lastn_cons by lia. apply IH; [by apply NoDup_cons in Hn as [_ ?]|].
    by eapply shows_delete.
  - exists ops. rewrite lastn_all by (cbn [length]; lia). done.
Qed.

Definition broker_store (b : BrokerState T R) (id : str) (fp : P) (res : O) : BrokerState T R :=
  let '(ops, order) :=
    expire FOCUS_OPERATION_LEDGER_CAPACITY
      (<[id := mkStoredFocus fp res]> (focus_operations b)) (focus_operation_order b ++ [id]) in
  mkBroker ops order.

#[global, program] Instance broker_registry : OnceRegistry (BrokerState T R) P O := {|
  reg_cap _ := FOCUS_OPERATION_LEDGER_CAPACITY;
  reg_find b id := stored_pair <$> focus_operations b !! id;
  reg_store := broker_store;
  reg_window := broker_window |}.
Next Obligation. intros b w _. cbn. unfold FOCUS_OPERATION_LEDGER_CAPACITY. lia. Qed.
Next Obligation. done. Qed.
Next Obligation. intros b w (_ & Hn & _). done. Qed.
Next Obligation. intros b w id (_ & _ & _ & Hs). by apply shows_find. Qed.
Next Obligation.
  intros b w id fp o (Ho & Hn & _ & Hs) Hid. cbn [reg_find] in Hid. rewrite (shows_find _ _ w id Hs) in Hid.
  apply wfind_None in Hid. pose proof (NoDup_snoc_fst w id (fp, o) Hn Hid) as Hn'.
  pose proof (shows_insert stored_pair _ id (mkStoredFocus fp o) w Hid Hs) as Hs'.
  destruct (expire_window FOCUS_OPERATION_LEDGER_CAPACITY _ _ Hn' Hs') as (ops' & He & Hs2).
  unfold broker_window, broker_store. rewrite Ho.
  rewrite fmap_app in He. cbn [fmap list_fmap fst] in He. rewrite He. rewrite length_lastn.
  split; [done|]. split; [auto|]. split; [lia|done].
Qed.

End BrokerRegistry.

(** ** Handlers through the ledger *)

Section ControlHandlers.
Context {F A St : Type} `{EqDecision F}.
Notation L := (SshOperationLedger F (StoredSshOperationResult A)).

(** A control request as the actor handles it. *)
Record ControlCall := mkControl {
  control_id : str;
  control_key : str;
  control_fingerprint : F;
  control_request_id : str;
  control_once : St → ActorResult A * St }.

Definition control_step (c : ControlCall) (s : L * St) : rres Empty_set (ActorResult A) * (L * St) :=
  control_operation (control_once c) (control_id c) (control_key c) (control_fingerprint c)
    (control_request_id c) s.

Fixpoint control_run (cs : list ControlCall) (s : L * St) : L * St :=
  match cs with
  | [] => s
  | c :: cs => control_run cs (control_step c s).2
  end.

Definition call_of (c : ControlCall) : Call (str * F) (StoredSshOperationResult A) St :=
  mkCall (control_id c) (control_key c, control_fingerprint c)
    (λ st, let '(r, st') := control_once c st in (from_actor_result r, st')).

Definition answer_result (request_id : str) (a : Answer (StoredSshOperationResult A)) : ActorResult A :=
  match a with
  | Ran o | Replayed o => replay o request_id
  | Refused => inl (conflict_error request_id)
  end.

Lemma control_step_once c s w :
  ledger_window s.1 w →
  control_step c s =
    (Ok (answer_result (control_request_id c) (once_step (call_of c) s).1), (once_step (call_of c) s).2).
Proof.
  intros Hw. unfold control_step, control_operation, replay_control_operation, once_step.
  assert (reg_find s.1 (control_id c) = wfind w (control_id c)) as Hf by (by apply reg_find_window).
  cbn [call_of call_id call_request call_run].
  rewrite Hf, (lookup_window _ _ _ _ _ Hw).
  destruct (wfind w (control_id c)) as [[p o]|] eqn:E; [by destruct (bool_decide _)|].
  destruct (control_once c s.2) as [r st]. unfold record_control_operation.
  destruct (record_window s.1 w _ (control_key c) (control_fingerprint c) (from_actor_result r) Hw E)
    as (l' & Hr & _). cbn. by rewrite Hr.
Qed.

Lemma control_run_once cs s w :
  ledger_window s.1 w → control_run cs s = once_run (call_of <$> cs) s.
Proof.
  revert s w. induction cs as [|c cs IH]; intros s w Hw; [done|]. cbn.
  rewrite (control_step_once c s w Hw). cbn [snd].
  destruct (once_step_window (call_of c) s w) as [w' Hw']; [exact Hw|]. by apply (IH _ w').
Qed.

End ControlHandlers.
Arguments ControlCall : clear implicits.

(** ** Focus changes through the broker *)

Section FocusHandlers.
Context {T R St : Type} `{EqDecision T} (invalidate : St → St).

Record FocusCall := mkFocusCall {
  focus_request : FocusChangeRequest T;
  focus_operation : St → ActorResult R * St }.

Definition focus_step (c : FocusCall) (s : BrokerState T R * St) : ActorResult R * (BrokerState T R * St) :=
  linearize_focus_change invalidate (focus_operation c) (focus_request c) s.

Fixpoint focus_run (cs : list FocusCall) (s : BrokerState T R * St) : BrokerState T R * St :=
  match cs with
  | [] => s
  | c :: cs => focus_run cs (focus_step c s).2
  end.

Definition focus_call (c : FocusCall) : Call (FocusFingerprint T) (ActorResult R) St :=
  mkCall (operation_id (focus_request c)) (focus_fingerprint (focus_request c))
    (λ st, focus_operation c (match target (focus_request c) with Some _ => invalidate st | None => st end)).

Definition focus_answer (rid : str) (a : Answer (ActorResult R)) : ActorResult R :=
  match a with
  | Ran o => o
  | Replayed o => replay_result o rid
  | Refused => inl (conflict_error rid)
  end.

Lemma focus_step_once c s :
  focus_step c s =
    (focus_answer (request_id (focus_request c)) (once_step (focus_call c) s).1,
     (once_step (focus_call c) s).2).
Proof.
  destruct s as [b st]. unfold focus_step, linearize_focus_change, once_step. cbn.
  destruct (focus_operations b !! _) as [[fp res]|]; cbn.
  - by destruct (bool_decide _).
  - destruct (focus_operation c _) as [res st']. unfold broker_store.
    by destruct (expire _ _ _) as [ops order].
Qed.

Lemma focus_run_once cs s : focus_run cs s = once_run (focus_call <$> cs) s.
Proof.
  revert s. induction cs as [|c cs IH]; intros s; [done|]. cbn.
  by rewrite focus_step_once, IH.
Qed.

End FocusHandlers.
Arguments FocusCall : clear implicits.

(** ** Requests and their fingerprints

    The ids of the core API are strings and its sequence numbers 64-bit. *)

Record SshTerminalInputFocusTarget := mkSshTarget {
  st_session_id : str; st_generation : Z; st_state_revision : Z;
  st_channel_id : str; st_attachment_id : str; st_view_id : str }.

Record LocalTerminalInputFocusTarget := mkLocalTarget {
  lt_session_id : str; lt_generation : Z; lt_state_revision : Z;
  lt_pty_id : str; lt_attachment_id : str; lt_view_id : str }.

Record TelnetTerminalInputFocusTarget := mkTelnetTarget {
  tt_session_id : str; tt_generation : Z; tt_state_revision : Z;
  tt_socket_id : str; tt_attachment_id : str; tt_view_id : str }.

Record PluginTerminalInputFocusTarget := mkPluginTarget {
  pt_session_id : str; pt_generation : Z; pt_state_revision : Z;
  pt_stream_id : str; pt_attachment_id : str; pt_view_id : str }.

Inductive TerminalInputFocusTarget : Type :=
| SshTarget (t : SshTerminalInputFocusTarget)
| LocalTarget (t : LocalTerminalInputFocusTarget)
| TelnetTarget (t : TelnetTerminalInputFocusTarget)
| PluginTarget (t : PluginTerminalInputFocusTarget).

Record SshSessionEndpoint := mkSessionEndpoint {
  se_address : str; se_port : Z; se_username : option str }.

Inductive SshSessionTarget : Type :=
| QuickConnect (endpoint : SshSessionEndpoint)
| HostTarget (host_id : str) (expected_host_state_version : Z).

Inductive SshSessionDetachIntent : Type := UserClose | RendererUnavailable.
Inductive SshSessionLastDetachAction : Type := KeepAttached | DisconnectAndDetach.

Record SshSessionLastDetachConfirmation := mkConfirmation {
  action : SshSessionLastDetachAction;
  confirmed_state_revision : Z;
  confirmed_attachment_revision : Z }.

Inductive SshHostKeyDecision : Type := AcceptAndStore | Reject.

(** What every control request carries besides its payload. *)
Record Envelope := mkEnvelope { env_request_id : str; env_operation_id : str; env_key : str }.

(** The nine control requests of crates/core-api/src/ssh_terminal.rs and
    terminal_input.rs; the two focus changes differ in their target. *)
Inductive ControlRequest : Type :=
| OpenRequest (e : Envelope) (open_attempt_id attach_attempt_id : str) (t : SshSessionTarget)
    (credential_ref_id plugin_authorization_token : option str) (view_id : str) (rows cols : Z)
| AttachRequest (e : Envelope) (session_id : str) (generation state_revision : Z)
    (attach_attempt_id view_id : str) (after_output_seq : option Z)
| DetachRequest (e : Envelope) (session_id : str) (generation state_revision : Z)
    (attachment_id view_id : str) (intent : SshSessionDetachIntent)
    (confirmation : option SshSessionLastDetachConfirmation)
| HostKeyDecisionRequest (e : Envelope) (session_id : str) (generation : Z) (challenge_id : str)
    (state_revision : Z) (attachment_id view_id : str) (decision : SshHostKeyDecision)
| LeaseAcquireRequest (e : Envelope) (session_id : str) (generation state_revision : Z)
    (attachment_id view_id : str)
| SshFocusChangeRequest (e : Envelope) (focus_epoch : Z) (t : option SshTerminalInputFocusTarget)
| TerminalFocusChangeRequest (e : Envelope) (focus_epoch : Z) (t : option TerminalInputFocusTarget)
| ReconnectRequest (e : Envelope) (session_id : str) (generation state_revision : Z)
    (attachment_id view_id : str) (credential_ref_id : option str) (rows cols : Z)
| TakeoverRequest (e : Envelope) (session_id : str) (generation state_revision focus_epoch : Z)
    (channel_id attachment_id view_id : str)
| DisconnectRequest (e : Envelope) (session_id : str) (generation state_revision : Z).

Inductive SshOperationFingerprint : Type :=
| FOpen (open_attempt_id attach_attempt_id : str) (t : SshSessionTarget)
    (credential_ref_id : option str) (view_id : str) (rows cols : Z)
| FAttach (session_id : str) (generation state_revision : Z)
    (attach_attempt_id view_id : str) (after_output_seq : option Z)
| FDetach (session_id : str) (generation state_revision : Z)
    (attachment_id view_id : str) (intent : SshSessionDetachIntent)
    (confirmation : option SshSessionLastDetachConfirmation)
| FHostKeyDecision (session_id : str) (generation : Z) (challenge_id : str)
    (state_revision : Z) (attachment_id view_id : str) (decision : SshHostKeyDecision)
| FLeaseAcquire (session_id : str) (generation state_revision : Z) (attachment_id view_id : str)
| FFocusChange (focus_epoch : Z) (t : option TerminalInputFocusTarget)
| FReconnect (session_id : str) (generation state_revision : Z)
    (attachment_id view_id : str) (credential_ref_id : option str) (rows cols : Z)
| FTakeover (session_id : str) (generation state_revision focus_epoch : Z)
    (channel_id attachment_id view_id : str)
| FDisconnect (session_id : str) (generation state_revision : Z).

(** The nine [From] implementations. *)
Definition fingerprint_from (r : ControlRequest) : SshOperationFingerprint :=
  match r with
  | OpenRequest _ o a t c _ v rows cols => FOpen o a t c v rows cols
  | AttachRequest _ s g sr a v seq => FAttach s g sr a v seq
  | DetachRequest _ s g sr a v i c => FDetach s g sr a v i c
  | HostKeyDecisionRequest _ s g ch sr a v d => FHostKeyDecision s g ch sr a v d
  | LeaseAcquireRequest _ s g sr a v => FLeaseAcquire s g sr a v
  | SshFocusChangeRequest _ fe t => FFocusChange fe (SshTarget <$> t)
  | TerminalFocusChangeRequest _ fe t => FFocusChange fe t
  | ReconnectRequest _ s g sr a v c rows cols => FReconnect s g sr a v c rows cols
  | TakeoverRequest _ s g sr fe c a v => FTakeover s g sr fe c a v
  | DisconnectRequest _ s g sr => FDisconnect s g sr
  end.

#[global] Instance ssh_target_eq : EqDecision SshTerminalInputFocusTarget.
Proof. solve_decision. Defined.
#[global] Instance local_target_eq : EqDecision LocalTerminalInputFocusTarget.
Proof. solve_decision. Defined.
#[global] Instance telnet_target_eq : EqDecision TelnetTerminalInputFocusTarget.
Proof. solve_decision. Defined.
#[global] Instance plugin_target_eq : EqDecision PluginTerminalInputFocusTarget.
Proof. solve_decision. Defined.
#[global] Instance focus_target_eq : EqDecision TerminalInputFocusTarget.
Proof. solve_decision. Defined.
#[global] Instance session_endpoint_eq : EqDecision SshSessionEndpoint.
Proof. solve_decision. Defined.
#[global] Instance session_target_eq : EqDecision SshSessionTarget.
Proof. solve_decision. Defined.
#[global] Instance detach_intent_eq : EqDecision SshSessionDetachIntent.
Proof. solve_decision. Defined.
#[global] Instance detach_action_eq : EqDecision SshSessionLastDetachAction.
Proof. solve_decision. Defined.
#[global] Instance confirmation_eq : EqDecision SshSessionLastDetachConfirmation.
Proof. solve_decision. Defined.
#[global] Instance decision_eq : EqDecision SshHostKeyDecision.
Proof. solve_decision. Defined.
#[global] Instance operation_fingerprint_eq : EqDecision SshOperationFingerprint.
Proof. solve_decision. Defined.

(** A request without its envelope and, for an open, the one-time plugin
    authorization; both spellings of a focus change are one request. *)
Definition payload (r : ControlRequest) : ControlRequest :=
  let e := mkEnvelope [] [] [] in
  match r with
  | OpenRequest _ o a t c _ v rows cols => OpenRequest e o a t c None v rows cols
  | AttachRequest _ s g sr a v seq => AttachRequest e s g sr a v seq
  | DetachRequest _ s g sr a v i c => DetachRequest e s g sr a v i c
  | HostKeyDecisionRequest _ s g ch sr a v d => HostKeyDecisionRequest e s g ch sr a v d
  | LeaseAcquireRequest _ s g sr a v => LeaseAcquireRequest e s g sr a v
  | SshFocusChangeRequest _ fe t => TerminalFocusChangeRequest e fe (SshTarget <$> t)
  | TerminalFocusChangeRequest _ fe t => TerminalFocusChangeRequest e fe t
  | ReconnectRequest _ s g sr a v c rows cols => ReconnectRequest e s g sr a v c rows cols
  | TakeoverRequest _ s g sr fe c a v => TakeoverRequest e s g sr fe c a v
  | DisconnectRequest _ s g sr => DisconnectRequest e s g sr
  end.

Lemma fingerprint_payload r1 r2 :
  fingerprint_from r1 = fingerprint_from r2 ↔ payload r1 = payload r2.
Proof.
  destruct r1, r2; cbn; split; intros H; try discriminate H; injection H; intros; subst; congruence.
Qed.

Definition envelope (r : ControlRequest) : Envelope :=
  match r with
  | OpenRequest e _ _ _ _ _ _ _ _ | AttachRequest e _ _ _ _ _ _ | DetachRequest e _ _ _ _ _ _ _
  | HostKeyDecisionRequest e _ _ _ _ _ _ _ | LeaseAcquireRequest e _ _ _ _ _
  | SshFocusChangeRequest e _ _ | TerminalFocusChangeRequest e _ _
  | ReconnectRequest e _ _ _ _ _ _ _ _ | TakeoverRequest e _ _ _ _ _ _ _
  | DisconnectRequest e _ _ _ => e
  end.

(** A control request of the actor, with the handler that carries it out. *)
Definition control_of {A St} (r : ControlRequest) (once : St → ActorResult A * St)
  : ControlCall SshOperationFingerprint A St :=
  mkControl (env_operation_id (envelope r)) (env_key (envelope r)) (fingerprint_from r)
    (env_request_id (envelope r)) once.

(** ** The ledger against its specification *)

Section LedgerSpec.
Context {F O : Type} `{EqDecision F}.

Inductive LedgerCommand : Type :=
| CLookup (id key : str) (fp : F)
| CRecord (id key : str) (fp : F) (o : O).

Definition ledger_command (c : LedgerCommand) (l : SshOperationLedger F O)
  : SshOperationLookup O * SshOperationLedger F O :=
  match c with
  | CLookup id key fp => (lookup l id key fp, l)
  | CRecord id key fp o => record l id key fp o
  end.

(** The specification: the list of the last [n] recorded operations. *)
Definition window_lookup (w : window (str * F) O) (id key : str) (fp : F) : SshOperationLookup O :=
  match wfind w id with
  | Some (p, o) => if bool_decide (p = (key, fp)) then Replay o else Conflict
  | None => Missing
  end.

Definition window_command (n : nat) (c : LedgerCommand) (w : window (str * F) O)
  : SshOperationLookup O * window (str * F) O :=
  match c with
  | CLookup id key fp => (window_lookup w id key fp, w)
  | CRecord id key fp o =>
      match window_lookup w id key fp with
      | Missing => (Replay o, lastn n (w ++ [(id, ((key, fp), o))]))
      | found => (found, w)
      end
  end.

Fixpoint run_commands {S} (step : LedgerCommand → S → SshOperationLookup O * S)
    (cs : list LedgerCommand) (s : S) : list (SshOperationLookup O) * S :=
  match cs with
  | [] => ([], s)
  | c :: cs => let '(a, s) := step c s in let '(l, s) := run_commands step cs s in (a :: l, s)
  end.

Lemma ledger_command_window c l w :
  ledger_window l w →
  (ledger_command c l).1 = (window_command (Z.to_nat (capacity l)) c w).1 ∧
  capacity (ledger_command c l).2 = capacity l ∧
  ledger_window (ledger_command c l).2 (window_command (Z.to_nat (capacity l)) c w).2.
Proof.
  intros Hw. destruct c as [id key fp|id key fp o]; cbn [ledger_command window_command fst snd].
  - by rewrite (lookup_window _ _ _ _ _ Hw).
  - destruct (wfind w id) as [[p o']|] eqn:E.
    + unfold record, window_lookup. rewrite (lookup_window _ _ _ _ _ Hw), E.
      by destruct (bool_decide _).
    + destruct (record_window l w id key fp o Hw E) as (l' & -> & Hc & Hw').
      unfold window_lookup. by rewrite E.
Qed.

Lemma run_commands_window cs l w :
  ledger_window l w →
  (run_commands ledger_command cs l).1 =
    (run_commands (window_command (Z.to_nat (capacity l))) cs w).1 ∧
  capacity (run_commands ledger_command cs l).2 = capacity l ∧
  ledger_window (run_commands ledger_command cs l).2
    (run_commands (window_command (Z.to_nat (capacity l))) cs w).2.
Proof.
  revert l w. induction cs as [|c cs IH]; intros l w Hw; [done|]. cbn.
  destruct (ledger_command_window c l w Hw) as (Ha & Hc & Hw').
  destruct (ledger_command c l) as [a l'], (window_command _ c w) as [a' w']. cbn in *.
  destruct (IH l' w' Hw') as (Hr & Hc2 & Hw2). rewrite Hc in *.
  destruct (run_commands ledger_command cs l'), (run_commands (window_command _) cs w'). cbn in *.
  by subst.
Qed.

End LedgerSpec.
Arguments LedgerCommand : clear implicits.

(** The ledger is a window over the last operations. From an empty ledger
    of a positive capacity, any sequence of lookups and records answers as the
    list of the last [cap] recorded operations does; its map and its order
    hold exactly the operations of that list, at most [cap] of them, each once
    (so the eviction loop ends, and removes the oldest operation only). *)
Theorem ledger_refines_window {F O} `{EqDecision F} cap (l0 : SshOperationLedger F O)
    (cs : list (LedgerCommand F O)) :
  new cap = Ok l0 →
  let '(answers, l) := run_commands ledger_command cs l0 in
  let '(answers', w) := run_commands (window_command (Z.to_nat cap)) cs [] in
  answers = answers' ∧
  insertion_order l = w.*1 ∧ NoDup (insertion_order l) ∧ zlen (insertion_order l) ≤ cap ∧
  (∀ id, entry_pair <$> entries l !! id = wfind w id).
Proof.
  intros Hl. apply new_window in Hl as [Hc Hw].
  destruct (run_commands_window cs l0 [] Hw) as (Ha & Hc' & Hw'). rewrite Hc in *.
  destruct (run_commands ledger_command cs l0) as [a l], (run_commands (window_command _) cs []) as [a' w].
  cbn in Ha, Hc', Hw'. destruct Hw' as (_ & Ho & Hn & Hz & Hs). rewrite Hc' in Hz.
  split; [done|]. rewrite Ho. split; [done|]. split; [done|]. split.
  - unfold zlen in *. by rewrite length_fmap.
  - intros id. by apply shows_find.
Qed.

(** A ledger of two operations forgets the oldest of three, and keeps refusing
    a reused id. *)
Lemma ledger_refines_window_witness :
  ∃ l0 : SshOperationLedger Z Z, new 2 = Ok l0 ∧
  (run_commands ledger_command
     [CRecord (lit "a") (lit "k") 1 10; CRecord (lit "b") (lit "k") 2 20;
      CRecord (lit "a") (lit "k") 1 99; CRecord (lit "b") (lit "k") 3 30;
      CRecord (lit "c") (lit "k") 4 40; CLookup (lit "a") (lit "k") 1] l0).1 =
    [Replay 10; Replay 20; Replay 10; Conflict; Replay 40; Missing] ∧
  zlen (insertion_order (run_commands ledger_command
     [CRecord (lit "a") (lit "k") 1 10; CRecord (lit "b") (lit "k") 2 20;
      CRecord (lit "c") (lit "k") 4 40] l0).2) ≤ 2.
Proof.
  eexists. split; [reflexivity|]. split; [vm_compute; reflexivity|].
  pose proof (ledger_refines_window 2 (mkLedger 2 ∅ [])
    [CRecord (lit "a") (lit "k") 1 10; CRecord (lit "b") (lit "k") 2 20;
     CRecord (lit "c") (lit "k") 4 40] eq_refl) as H.
  destruct (run_commands ledger_command _ _), (run_commands (window_command _) _ _). apply H.
Defined.

Section ControlReach.
Context {F A St : Type} `{EqDecision F}.
Notation L := (SshOperationLedger F (StoredSshOperationResult A)).
Implicit Types (s : L * St) (c : ControlCall F A St).

Lemma control_run_reach cap l0 st0 before :
  new cap = Ok l0 →
  ∃ w, ledger_window (control_run before (l0, st0) : L * St).1 w ∧
    capacity (control_run before (l0, st0) : L * St).1 = cap.
Proof.
  intros [Hc Hw]%new_window. rewrite (control_run_once before (l0, st0) []) by done.
  destruct (once_run_window (call_of <$> before) (l0, st0) []) as [w Hw']; [exact Hw|].
  exists w. split; [exact Hw'|].
  pose proof (once_run_cap (call_of <$> before) (l0, st0)) as Hcap. cbn in Hcap.
  destruct Hw' as [Hpos _]. destruct Hw as [Hpos' _]. lia.
Qed.

Lemma control_step_ran c s w :
  ledger_window s.1 w →
  lookup s.1 (control_id c) (control_key c) (control_fingerprint c) = Missing →
  ∃ s1, once_step (call_of c) s = (Ran (from_actor_result (control_once c s.2).1), s1) ∧
    s1.2 = (control_once c s.2).2 ∧ (∃ w1, ledger_window s1.1 w1).
Proof.
  intros Hw Hm. rewrite (lookup_window _ _ _ _ _ Hw) in Hm.
  destruct (once_step_window (call_of c) s w) as [w1 Hw1]; [exact Hw|].
  unfold once_step in *.
  assert (reg_find s.1 (call_id (call_of c)) = wfind w (control_id c)) as Hf by (by apply reg_find_window).
  rewrite Hf in *. destruct (wfind w _) as [[p o]|]; [by destruct (bool_decide _)|].
  cbn [call_of call_run] in *. destruct (control_once c s.2) as [r st]. cbn [fst snd] in *.
  eexists. split; [done|]. split; [done|]. exists w1. exact Hw1.
Qed.

Lemma control_step_again c c' s w s1 result between :
  ledger_window s.1 w → once_step (call_of c) s = (Ran result, s1) → (∃ w1, ledger_window s1.1 w1) →
  control_id c' = control_id c → zlen between < capacity s.1 →
  control_step c' (control_run between s1) =
    (Ok (if bool_decide ((control_key c, control_fingerprint c) = (control_key c', control_fingerprint c'))
         then replay result (control_request_id c') else inl (conflict_error (control_request_id c'))),
     control_run between s1).
Proof.
  intros Hw Hran [w1 Hw1] Hid Hb. rewrite (control_run_once between s1 w1) by exact Hw1.
  destruct (once_run_window (call_of <$> between) s1 w1) as [w2 Hw2]; [exact Hw1|].
  rewrite (control_step_once c' _ w2 Hw2).
  pose proof (once_step_replays (call_of c) (call_of c') s w (call_of <$> between) result s1) as Hr.
  rewrite Hr; [|exact Hw|exact Hran|exact Hid|rewrite length_fmap; cbn; unfold zlen in Hb; lia].
  cbn [fst snd call_of call_request]. by destruct (bool_decide _).
Qed.

End ControlReach.



(** A focus change takes effect at most once. The broker asks the actors,
    and revokes the desktop's input, for an operation id it does not hold;
    among the next 1023 focus changes, a request under the same id reaches
    neither: with the same key, epoch and target it is answered with the first
    result (an error carrying the new request id), and otherwise it is a
    conflict. *)
Theorem focus_at_most_once {T R St} `{EqDecision T} (invalidate : St → St) (st0 : St)
    (before between : list (FocusCall T R St)) (c c' : FocusCall T R St) :
  let s0 := focus_run invalidate before (broker_default, st0) in
  let r := focus_request c in
  let r' := focus_request c' in
  focus_operations s0.1 !! operation_id r = None →
  (length between < FOCUS_OPERATION_LEDGER_CAPACITY)%nat →
  operation_id r' = operation_id r →
  let '(answer, s1) := focus_step invalidate c s0 in
  let s2 := focus_run invalidate between s1 in
  let again := focus_step invalidate c' s2 in
  (answer, s1.2) =
    focus_operation c (match target r with Some _ => invalidate s0.2 | None => s0.2 end) ∧
  again.2 = s2 ∧
  (focus_fingerprint r' = focus_fingerprint r → again.1 = replay_result answer (request_id r')) ∧
  (focus_fingerprint r' ≠ focus_fingerprint r → again.1 = inl (conflict_error (request_id r'))).
Proof.
  intros s0 r r' Hm Hb Hid.
  destruct (once_run_window (focus_call invalidate <$> before) (broker_default, st0) [])
    as [w Hw]; [split; [done|]; split; [apply NoDup_nil_2|]; split; [apply Nat.le_0_l|apply fmap_empty]|].
  rewrite <- focus_run_once in Hw. fold s0 in Hw.
  rewrite focus_step_once.
  assert (∃ res st1, focus_operation c (match target r with Some _ => invalidate s0.2 | None => s0.2 end)
      = (res, st1) ∧
    once_step (focus_call invalidate c) s0 =
      (Ran res, (broker_store s0.1 (operation_id r) (focus_fingerprint r) res, st1)))
    as (res & st1 & Hop & Hran).
  { unfold once_step. cbn. fold r. rewrite Hm. cbn. destruct (focus_operation c _) as [res st1]. eauto. }
  pose proof (once_step_replays (focus_call invalidate c) (focus_call invalidate c') s0 w
    (focus_call invalidate <$> between) res _ Hw Hran Hid) as Hagain.
  rewrite <- focus_run_once in Hagain. rewrite Hran. cbn [fst snd focus_answer].
  rewrite Hop, focus_step_once, Hagain by (rewrite length_fmap; exact Hb). cbn [fst snd focus_call call_request].
  split; [done|]. split; [done|]. fold r r'.
  split; intros Hk; [rewrite bool_decide_true by done|rewrite bool_decide_false by congruence]; done.
Qed.

Lemma focus_at_most_once_witness :
  let r rid epoch := mkFocusRequest rid (lit "op") (lit "k") epoch (Some 5) in
  let op (n : Z) : ActorResult Z * Z := (inr (n + 10), n + 1) in
  let c rid epoch := mkFocusCall (r rid epoch) op in
  let s1 := (focus_step (Z.mul 2) (c (lit "r1") 3) (broker_default, 1)).2 in
  s1.2 = 3 ∧ focus_step (Z.mul 2) (c (lit "r2") 3) s1 = (inr 12, s1) ∧
  focus_step (Z.mul 2) (c (lit "r3") 4) s1 = (inl (conflict_error (lit "r3")), s1).
Proof.
  intros r op c s1.
  assert ((length (@nil (FocusCall Z Z Z)) < FOCUS_OPERATION_LEDGER_CAPACITY)%nat) as Hb
    by (vm_compute; lia).
  pose proof (λ c', focus_at_most_once (Z.mul 2) 1 [] [] (c (lit "r1") 3) c' eq_refl Hb) as H.
  assert (H1 := H (c (lit "r2") 3) eq_refl). assert (H2 := H (c (lit "r3") 4) eq_refl). clear H.
  unfold s1. destruct (focus_step (Z.mul 2) (c (lit "r1") 3) _) as [a s'] eqn:E. cbn [snd] in *.
  destruct H1 as (Ha & Hu & Hy & _). destruct H2 as (_ & Hu2 & _ & Hn). injection Ha as -> Hs.
  split; [done|]. split; apply injective_projections; [by apply Hy|done|by apply Hn|done].
Defined.

End Ledger.
