(* ===== verification/TerminalFocus.v ===== *)
(** * Terminal focus, input leases and terminal input

    The part of the session actor of src-tauri/src/ssh_session_service.rs, and
    of its local sessions in src-tauri/src/ssh_session_service/local_terminal.rs,
    that decides which pane of the application may type: the global focus and
    its epoch, the input leases of the sessions, the attachments they belong
    to, and the handlers that read or change them. SSH and local sessions have
    records of the same shape, with their own states, errors and checks.

    Not part of the model: the events a record emits to its attachments, the
    output ring, the progress of login automation, and the ways a session
    connects or ends. What those do to a record is a step of the environment
    that may rewrite it freely, and either leaves the lease and its last input
    alone or takes the lease away. *)

From Stdlib Require Import Sorting.Sorted.
From S2P Require Import Prelude RustStr BTree OperationLedger.

Module Focus.
Import Ledger.

Definition INPUT_LEASE_MILLIS : Z := 15000.
Definition ATTACHMENT_HEARTBEAT_TIMEOUT_MILLIS : Z := 45000.
Definition CONTROL_OPERATION_LEDGER_CAPACITY : Z := 1024.
Definition SSH_TERMINAL_OUTPUT_FRAME_MAX_BYTES : Z := 65536.
Definition LOCAL_TERMINAL_OUTPUT_FRAME_MAX_BYTES : Z := 65536.

Inductive SshSessionState : Type :=
| Resolving | Connecting | VerifyingHostKey | AwaitingHostKeyDecision | Authenticating
| OpeningChannel | AutomatingLogin | Running | Disconnecting | Closed | Failed.

Inductive LocalSessionState : Type :=
| Starting | LocalRunning | Stopping | Exited | LocalFailed | LocalClosed.

#[global] Instance ssh_state_eq : EqDecision SshSessionState.
Proof. solve_decision. Defined.
#[global] Instance local_state_eq : EqDecision LocalSessionState.
Proof. solve_decision. Defined.

(** [SshSessionInputLease] and [LocalSessionInputLease]. *)
Record InputLease := mkLease {
  lease_id : str;
  lease_session_id : str;
  lease_generation : Z;
  lease_attachment_id : str;
  lease_view_id : str;
  lease_focus_epoch : Z;
  lease_input_epoch : Z;
  expires_at_unix_ms : Z }.

(** [AttachmentRecord] and [LocalAttachmentRecord] with their summaries; the
    resource is the SSH channel or the local pty. *)
Record AttachmentRecord := mkAttachment {
  attachment_id : str;
  attach_attempt_id : str;
  attachment_session_id : str;
  attachment_generation : Z;
  attachment_resource : option str;
  view_id : str;
  attachment_state_revision : Z;
  attachment_revision : Z;
  attached_at_unix_ms : Z;
  last_seen_at_unix_ms : Z;
  last_resize_seq : Z }.

(** [SessionRecord] and [LocalSessionRecord]: [writer] tells whether the
    record has its shell or process, and [written] what was queued to it. *)
Record SessionRecord {S : Type} := mkRecord {
  state : S;
  session_id : str;
  generation : Z;
  state_revision : Z;
  record_attachment_revision : Z;
  resource_id : option str;
  attachment_count : Z;
  attachments : list (str * AttachmentRecord);
  input_lease : option InputLease;
  next_input_epoch : Z;
  last_client_seq : Z;
  writer : bool;
  written : list (list Z) }.
Arguments SessionRecord : clear implicits.
Arguments mkRecord {S}.

(** [saturating_add(1)] of a 64-bit counter. *)
Definition next_seq (n : Z) : Z := Z.min u64_max (n + 1).

Definition i64_saturating_sub (a b : Z) : Z := Z.max i64_min (Z.min i64_max (a - b)).

Section Records.
Context {S : Type}.
Implicit Types r : SessionRecord S.

Definition set_lease (l : option InputLease) r : SessionRecord S :=
  mkRecord (state r) (session_id r) (generation r) (state_revision r) (record_attachment_revision r)
    (resource_id r) (attachment_count r) (attachments r) l (next_input_epoch r) (last_client_seq r)
    (writer r) (written r).

Definition set_attachments (rev : Z) (atts : list (str * AttachmentRecord)) r : SessionRecord S :=
  mkRecord (state r) (session_id r) (generation r) (state_revision r) rev
    (resource_id r) (zlen atts mod (u32_max + 1)) atts (input_lease r) (next_input_epoch r) (last_client_seq r)
    (writer r) (written r).

Definition set_attachment (k : str) (a : AttachmentRecord) r : SessionRecord S :=
  mkRecord (state r) (session_id r) (generation r) (state_revision r) (record_attachment_revision r)
    (resource_id r) (attachment_count r) (bmap_insert k a (attachments r)) (input_lease r)
    (next_input_epoch r) (last_client_seq r) (writer r) (written r).

(** The bytes were queued. *)
Definition accept_input (seq : Z) (bytes : list Z) r : SessionRecord S :=
  mkRecord (state r) (session_id r) (generation r) (state_revision r) (record_attachment_revision r)
    (resource_id r) (attachment_count r) (attachments r) (input_lease r) (next_input_epoch r) seq
    (writer r) (written r ++ [bytes]).

(** Granting the input of a record to one of its attachments: the second half
    of [terminal_focus_change_once] for SSH, [acquire_focus] for local
    sessions. *)
Definition grant (att view : str) (focus_epoch now : Z) (fresh : str) r : InputLease * SessionRecord S :=
  let epoch := next_seq (next_input_epoch r) in
  let lease := mkLease fresh (session_id r) (generation r) att view focus_epoch epoch
    (i64_saturating_add now INPUT_LEASE_MILLIS) in
  (lease, mkRecord (state r) (session_id r) (generation r) (state_revision r)
    (record_attachment_revision r) (resource_id r) (attachment_count r) (attachments r)
    (Some lease) epoch 0 (writer r) (written r)).

(** Renewing a lease. *)
Definition renewed (now : Z) (l : InputLease) : InputLease :=
  mkLease (lease_id l) (lease_session_id l) (lease_generation l) (lease_attachment_id l)
    (lease_view_id l) (lease_focus_epoch l) (lease_input_epoch l)
    (i64_saturating_add now INPUT_LEASE_MILLIS).

(** [validate_attachment] of both files, with the errors of the caller. *)
Definition validate_attachment (conflict not_found : CoreApiError) (gen : Z) (att view : str) r
  : ActorResult unit :=
  if bool_decide (generation r = gen) then
    match bmap_get att (attachments r) with
    | None => inl not_found
    | Some a =>
        if bool_decide (attachment_generation a = gen) && bool_decide (view_id a = view)
        then inr tt else inl conflict
    end
  else inl conflict.

Definition bmap_remove (k : str) (m : list (str * AttachmentRecord)) : list (str * AttachmentRecord) :=
  filter (λ e, e.1 ≠ k) m.

(** [remove_attachment] of both files. *)
Definition remove_attachment (att : str) r : option AttachmentRecord * SessionRecord S :=
  match bmap_get att (attachments r) with
  | None => (None, r)
  | Some removed =>
      let r := match input_lease r with
               | Some l => if bool_decide (lease_attachment_id l = att) then set_lease None r else r
               | None => r
               end in
      (Some removed, set_attachments (next_seq (record_attachment_revision r))
                       (bmap_remove att (attachments r)) r)
  end.

Definition lease_expired (now : Z) (l : InputLease) : bool := expires_at_unix_ms l <=? now.

Definition attachment_stale (now : Z) (a : AttachmentRecord) : bool :=
  ATTACHMENT_HEARTBEAT_TIMEOUT_MILLIS <=? i64_saturating_sub now (last_seen_at_unix_ms a).

(** The stale-focus test of [reap_stale_attachments] and [focus_is_stale] of
    the local sessions, on the record of the focused target. *)
Definition focus_is_stale (now : Z) (att : str) (r : option (SessionRecord S)) : bool :=
  match r with
  | None => true
  | Some r =>
      match input_lease r with
      | None => true
      | Some l =>
          lease_expired now l ||
          match bmap_get att (attachments r) with
          | None => true
          | Some a => attachment_stale now a
          end
      end
  end.

(** The loop body of both [reap_stale_attachments]. *)
Definition reap_record (now : Z) r : SessionRecord S :=
  let r := match input_lease r with
           | Some l => if lease_expired now l then set_lease None r else r
           | None => r
           end in
  let stale := attachment_id <$> filter (λ a, attachment_stale now a = true) (snd <$> attachments r) in
  foldl (λ r att, (remove_attachment att r).2) r stale.

(** The body of both [attach_once] once the fences hold; [fresh] is the new
    attachment's id. *)
Definition attach_record (conflict : CoreApiError) (attempt view : str) (now : Z) (fresh : str) r
  : ActorResult AttachmentRecord * SessionRecord S :=
  if existsb (λ e, bool_decide (attach_attempt_id e.2 = attempt)) (attachments r) then (inl conflict, r)
  else
    let replaced := snd <$> list_find (λ e, view_id e.2 = view) (attachments r) in
    let r := match replaced, input_lease r with
             | Some old, Some l =>
                 if bool_decide (lease_attachment_id l = attachment_id old.2) then set_lease None r else r
             | _, _ => r
             end in
    let atts := match replaced with
                | Some old => bmap_remove old.1 (attachments r)
                | None => attachments r
                end in
    let detached := match replaced with
                    | Some _ => next_seq (record_attachment_revision r)
                    | None => record_attachment_revision r
                    end in
    let next := next_seq detached in
    let a := mkAttachment fresh attempt (session_id r) (generation r) (resource_id r) view
      (state_revision r) next now now 0 in
    (inr a, set_attachments next (bmap_insert fresh a atts) r).

(** [attachment_heartbeat] of both files on the record; a validated attachment
    is there, so the third arm is not taken. *)
Definition heartbeat_record (conflict not_found : CoreApiError) (gen rev : Z) (att view : str) (now : Z) r
  : ActorResult AttachmentRecord * SessionRecord S :=
  match validate_attachment conflict not_found gen att view r, bmap_get att (attachments r) with
  | inl e, _ => (inl e, r)
  | inr _, None => (inl not_found, r)
  | inr _, Some a =>
      if bool_decide (attachment_revision a = rev) then
        let a := mkAttachment (attachment_id a) (attach_attempt_id a) (attachment_session_id a)
          (attachment_generation a) (attachment_resource a) (view_id a) (attachment_state_revision a)
          (attachment_revision a) (attached_at_unix_ms a) now (last_resize_seq a) in
        (inr a, set_attachment att a r)
      else (inl conflict, r)
  end.

End Records.

(** ** Errors *)

Definition validation_error (rid : str) : CoreApiError :=
  core_error rid (lit "ssh_terminal.invalid_request") Validation Never
    (lit "errors.sshSession.invalidRequest").
Definition stale_focus_error (rid : str) : CoreApiError :=
  core_error rid (lit "ssh_terminal.stale_focus") ConflictError RefreshSnapshot
    (lit "errors.sshSession.staleFocus").
Definition unavailable_error (rid : str) : CoreApiError :=
  core_error rid (lit "ssh_terminal.unavailable") Unavailable RefreshSnapshot
    (lit "errors.sshSession.unavailable").
Definition not_found_error (rid : str) : CoreApiError :=
  core_error rid (lit "ssh_terminal.not_found") Unavailable RefreshSnapshot
    (lit "errors.sshSession.notFound").

Definition local_validation (rid : str) : CoreApiError :=
  core_error rid (lit "local_terminal.invalid_request") Validation Never
    (lit "errors.localTerminal.invalidRequest").
Definition local_conflict (rid : str) : CoreApiError :=
  core_error rid (lit "local_terminal.stale_fence") ConflictError RefreshSnapshot
    (lit "errors.localTerminal.staleFence").
Definition local_stale_focus (rid : str) : CoreApiError :=
  core_error rid (lit "terminal_input.stale_focus") ConflictError RefreshSnapshot
    (lit "errors.terminalInput.staleFocus").
Definition local_unavailable (rid : str) : CoreApiError :=
  core_error rid (lit "local_terminal.unavailable") Unavailable RefreshSnapshot
    (lit "errors.localTerminal.unavailable").
Definition local_not_found (rid : str) : CoreApiError :=
  core_error rid (lit "local_terminal.not_found") Unavailable RefreshSnapshot
    (lit "errors.localTerminal.notFound").

(** ** The actor *)

(** [TerminalInputLease]: Telnet and plugin leases belong to other actors. *)
Inductive TerminalInputLease : Type :=
| SshLease (l : InputLease)
| LocalLease (l : InputLease).

Record FocusChangeResponse := mkFocusResponse {
  response_focus_epoch : Z;
  response_target : option TerminalInputFocusTarget;
  response_lease : option TerminalInputLease }.

Record Actor := mkActor {
  sessions : gmap str (SessionRecord SshSessionState);
  local_sessions : gmap str (SessionRecord LocalSessionState);
  focus_epoch : Z;
  focused_target : option TerminalInputFocusTarget;
  actor_focus_operations :
    SshOperationLedger SshOperationFingerprint (StoredSshOperationResult FocusChangeResponse) }.

Definition set_sessions (m : gmap str (SessionRecord SshSessionState)) (a : Actor) : Actor :=
  mkActor m (local_sessions a) (focus_epoch a) (focused_target a) (actor_focus_operations a).
Definition set_local_sessions (m : gmap str (SessionRecord LocalSessionState)) (a : Actor) : Actor :=
  mkActor (sessions a) m (focus_epoch a) (focused_target a) (actor_focus_operations a).
Definition set_focus (e : Z) (t : option TerminalInputFocusTarget) (a : Actor) : Actor :=
  mkActor (sessions a) (local_sessions a) e t (actor_focus_operations a).
Definition set_operations l (a : Actor) : Actor :=
  mkActor (sessions a) (local_sessions a) (focus_epoch a) (focused_target a) l.

(** [Actor::new]. *)
Definition actor_new : Actor := mkActor ∅ ∅ 0 None (mkLedger CONTROL_OPERATION_LEDGER_CAPACITY ∅ []).

(** [revoke_focused_lease], with [revoke_focus] of the local sessions. *)
Definition revoke_focused_lease (a : Actor) : Actor :=
  match focused_target a with
  | None => a
  | Some (SshTarget t) =>
      set_focus (focus_epoch a) None
        (set_sessions (alter (set_lease None) (st_session_id t) (sessions a)) a)
  | Some (LocalTarget t) =>
      set_focus (focus_epoch a) None
        (set_local_sessions (alter (set_lease None) (lt_session_id t) (local_sessions a)) a)
  | Some (TelnetTarget _) | Some (PluginTarget _) => set_focus (focus_epoch a) None a
  end.

(** A revocation and the next epoch. *)
Definition drop_focus (a : Actor) : Actor :=
  let a := revoke_focused_lease a in set_focus (next_seq (focus_epoch a)) (focused_target a) a.

Definition clear_focus_if (predicate : TerminalInputFocusTarget → bool) (a : Actor) : Actor :=
  match focused_target a with
  | Some t => if predicate t then drop_focus a else a
  | None => a
  end.

Definition terminal_focus_snapshot (a : Actor) : FocusChangeResponse :=
  let current (l : InputLease) := bool_decide (lease_focus_epoch l = focus_epoch a) in
  let held (l : option InputLease) := match l with
    | Some l => if current l then Some l else None
    | None => None
    end in
  mkFocusResponse (focus_epoch a) (focused_target a)
    match focused_target a with
    | Some (SshTarget t) => r ← sessions a !! st_session_id t; SshLease <$> held (input_lease r)
    | Some (LocalTarget t) =>
        r ← local_sessions a !! lt_session_id t; LocalLease <$> held (input_lease r)
    | _ => None
    end.

(** [validate_focus_target] of the local sessions. *)
Definition validate_focus_target (a : Actor) (t : LocalTerminalInputFocusTarget) (rid : str)
  : ActorResult unit :=
  match local_sessions a !! lt_session_id t with
  | None => inl (local_not_found rid)
  | Some r =>
      match validate_attachment (local_conflict rid) (local_not_found rid)
              (lt_generation t) (lt_attachment_id t) (lt_view_id t) r with
      | inl e => inl e
      | inr _ =>
          if bool_decide (state r = LocalRunning) &&
             bool_decide (state_revision r = lt_state_revision t) &&
             bool_decide (resource_id r = Some (lt_pty_id t))
          then inr tt else inl (local_conflict rid)
      end
  end.

(** The checks of [terminal_focus_change_once] on its target. *)
Definition check_target (a : Actor) (t : TerminalInputFocusTarget) (rid : str) : ActorResult unit :=
  match t with
  | SshTarget t =>
      match sessions a !! st_session_id t with
      | None => inl (not_found_error rid)
      | Some r =>
          match validate_attachment (conflict_error rid) (not_found_error rid)
                  (st_generation t) (st_attachment_id t) (st_view_id t) r with
          | inl e => inl e
          | inr _ =>
              if bool_decide (state r = Running) &&
                 bool_decide (state_revision r = st_state_revision t) &&
                 bool_decide (resource_id r = Some (st_channel_id t))
              then inr tt else inl (conflict_error rid)
          end
      end
  | LocalTarget t => validate_focus_target a t rid
  | TelnetTarget _ | PluginTarget _ => inr tt
  end.

(** The lease a focus change issues; the record of a validated target is
    there ([expect] in the source). *)
Definition issue_lease (t : option TerminalInputFocusTarget) (now : Z) (fresh : str) (a : Actor)
  : option (option TerminalInputLease * Actor) :=
  match t with
  | Some (SshTarget t) =>
      r ← sessions a !! st_session_id t;
      let '(l, r') := grant (st_attachment_id t) (st_view_id t) (focus_epoch a) now fresh r in
      Some (Some (SshLease l), set_sessions (<[st_session_id t := r']> (sessions a)) a)
  | Some (LocalTarget t) =>
      r ← local_sessions a !! lt_session_id t;
      let '(l, r') := grant (lt_attachment_id t) (lt_view_id t) (focus_epoch a) now fresh r in
      Some (Some (LocalLease l), set_local_sessions (<[lt_session_id t := r']> (local_sessions a)) a)
  | _ => Some (None, a)
  end.

(** The payload of [TerminalInputFocusChangeRequest]: [fresh] is the id of the
    lease it may issue. *)
Record FocusChange := mkFocusChange {
  fc_envelope : Envelope;
  fc_epoch : Z;
  fc_target : option TerminalInputFocusTarget }.

Definition terminal_focus_change_once (r : FocusChange) (now : Z) (fresh : str) (a : Actor)
  : rres Empty_set (ActorResult FocusChangeResponse) * Actor :=
  let rid := env_request_id (fc_envelope r) in
  if bool_decide (fc_epoch r = focus_epoch a) then
    match (match fc_target r with Some t => check_target a t rid | None => inr tt end) with
    | inl e => (Ok (inl e), a)
    | inr _ =>
        let a := drop_focus a in
        match issue_lease (fc_target r) now fresh a with
        | None => (Panic, a)
        | Some (lease, a) =>
            (Ok (inr (mkFocusResponse (focus_epoch a) (fc_target r) lease)),
             set_focus (focus_epoch a) (fc_target r) a)
        end
    end
  else (Ok (inl (stale_focus_error rid)), a).

Definition terminal_focus_change (r : FocusChange) (now : Z) (fresh : str) (a : Actor)
  : rres Empty_set (ActorResult FocusChangeResponse) * Actor :=
  let e := fc_envelope r in
  let rid := env_request_id e in
  let fp := fingerprint_from (TerminalFocusChangeRequest e (fc_epoch r) (fc_target r)) in
  if match trim (env_key e) with [] => true | _ => false end then (Ok (inl (validation_error rid)), a)
  else
    match replay_control_operation (actor_focus_operations a) (env_operation_id e) (env_key e) fp rid with
    | Some res => (Ok res, a)
    | None =>
        match terminal_focus_change_once r now fresh a with
        | (Ok res, a) =>
            let '(res', l) := record_control_operation (actor_focus_operations a)
              (env_operation_id e) (env_key e) fp rid res in
            (res', set_operations l a)
        | (Err x, a) => (Err x, a)
        | (Panic, a) => (Panic, a)
        end
    end.

(** ** Typing into an SSH session *)

Record GlobalFocusFence := mkFence {
  fence_session_id : str;
  fence_generation : Z;
  fence_channel_id : option str;
  fence_attachment_id : str;
  fence_view_id : str;
  fence_focus_epoch : Z }.

Definition validate_global_focus (a : Actor) (f : GlobalFocusFence) (rid : str) : ActorResult unit :=
  match focused_target a with
  | Some (SshTarget t) =>
      if bool_decide (fence_focus_epoch f = focus_epoch a) &&
         bool_decide (st_session_id t = fence_session_id f) &&
         bool_decide (st_generation t = fence_generation f) &&
         bool_decide (st_attachment_id t = fence_attachment_id f) &&
         bool_decide (st_view_id t = fence_view_id f) &&
         match fence_channel_id f with Some c => bool_decide (st_channel_id t = c) | None => true end
      then
        match sessions a !! fence_session_id f with
        | None => inl (stale_focus_error rid)
        | Some r =>
            if bool_decide (state r = Running) &&
               bool_decide (generation r = st_generation t) &&
               bool_decide (state_revision r = st_state_revision t) &&
               bool_decide (resource_id r = Some (st_channel_id t)) &&
               match bmap_get (fence_attachment_id f) (attachments r) with
               | None => false
               | Some at_ =>
                   bool_decide (view_id at_ = st_view_id t) &&
                   bool_decide (attachment_generation at_ = st_generation t) &&
                   bool_decide (attachment_resource at_ = Some (st_channel_id t))
               end
            then inr tt else inl (stale_focus_error rid)
        end
      else inl (stale_focus_error rid)
  | _ => inl (stale_focus_error rid)
  end.

(** [validate_lease]; [now] is [None] where an expired lease is accepted. *)
Definition validate_lease (gen : Z) (att view lease : str) (input_epoch : Z) (now : option Z) (rid : str)
    (r : SessionRecord SshSessionState) : ActorResult unit :=
  match validate_attachment (conflict_error rid) (not_found_error rid) gen att view r with
  | inl e => inl e
  | inr _ =>
      match input_lease r with
      | None => inl (conflict_error rid)
      | Some l =>
          if bool_decide (lease_id l = lease) && bool_decide (lease_input_epoch l = input_epoch) &&
             bool_decide (lease_attachment_id l = att) && bool_decide (lease_view_id l = view) &&
             match now with Some now => negb (lease_expired now l) | None => true end
          then inr tt else inl (conflict_error rid)
      end
  end.

(** [SshSessionInputRequest]. *)
Record InputRequest := mkInput {
  in_request_id : str;
  in_session_id : str;
  in_generation : Z;
  in_channel_id : str;
  in_attachment_id : str;
  in_view_id : str;
  in_focus_epoch : Z;
  in_lease_id : str;
  in_input_epoch : Z;
  in_client_seq : Z;
  in_bytes : list Z }.

Definition input_fence (q : InputRequest) : GlobalFocusFence :=
  mkFence (in_session_id q) (in_generation q) (Some (in_channel_id q)) (in_attachment_id q)
    (in_view_id q) (in_focus_epoch q).

(** [queue_input]: [sent] is the result of [try_send] on the shell's queue. *)
Definition queue_input (q : InputRequest) (now : Z) (sent : bool) (a : Actor) : ActorResult unit * Actor :=
  let rid := in_request_id q in
  if bool_decide (in_bytes q = []) || (SSH_TERMINAL_OUTPUT_FRAME_MAX_BYTES <? zlen (in_bytes q))
  then (inl (validation_error rid), a)
  else
    match validate_global_focus a (input_fence q) rid with
    | inl e => (inl e, a)
    | inr _ =>
        match sessions a !! in_session_id q with
        | None => (inl (not_found_error rid), a)
        | Some r =>
            match validate_lease (in_generation q) (in_attachment_id q) (in_view_id q) (in_lease_id q)
                    (in_input_epoch q) (Some now) rid r with
            | inl e => (inl e, a)
            | inr _ =>
                if negb (bool_decide (resource_id r = Some (in_channel_id q))) ||
                   (in_client_seq q <=? last_client_seq r)
                then (inl (conflict_error rid), a)
                else if writer r && sent then
                  (inr tt, set_sessions (<[in_session_id q :=
                     accept_input (in_client_seq q) (in_bytes q) r]> (sessions a)) a)
                else (inl (unavailable_error rid), a)
            end
        end
    end.

(** [queue_approved_plugin_input]: without a sequence number, behind the fence
    of its approval. *)
Definition queue_approved_plugin_input (q : InputRequest) (approved : bool) (now : Z) (sent : bool)
    (a : Actor) : ActorResult unit * Actor :=
  let rid := in_request_id q in
  if bool_decide (in_bytes q = []) || (SSH_TERMINAL_OUTPUT_FRAME_MAX_BYTES <? zlen (in_bytes q))
  then (inl (validation_error rid), a)
  else if negb approved then (inl (conflict_error rid), a)
  else
    match validate_global_focus a (input_fence q) rid with
    | inl e => (inl e, a)
    | inr _ =>
        match sessions a !! in_session_id q with
        | None => (inl (not_found_error rid), a)
        | Some r =>
            match validate_lease (in_generation q) (in_attachment_id q) (in_view_id q) (in_lease_id q)
                    (in_input_epoch q) (Some now) rid r with
            | inl e => (inl e, a)
            | inr _ =>
                if negb (bool_decide (resource_id r = Some (in_channel_id q)))
                then (inl (conflict_error rid), a)
                else if writer r && sent then
                  (inr tt, set_sessions (<[in_session_id q :=
                     accept_input (last_client_seq r) (in_bytes q) r]> (sessions a)) a)
                else (inl (unavailable_error rid), a)
            end
        end
    end.

(** [SshSessionInputLeaseRenewRequest], and [LocalSessionInputLeaseRenewRequest]
    with its two further fences. *)
Record RenewRequest := mkRenew {
  rn_request_id : str;
  rn_session_id : str;
  rn_generation : Z;
  rn_state_revision : Z;
  rn_pty_id : str;
  rn_attachment_id : str;
  rn_view_id : str;
  rn_focus_epoch : Z;
  rn_lease_id : str;
  rn_input_epoch : Z }.

Definition lease_renew (q : RenewRequest) (now : Z) (a : Actor) : ActorResult InputLease * Actor :=
  let rid := rn_request_id q in
  match validate_global_focus a
          (mkFence (rn_session_id q) (rn_generation q) None (rn_attachment_id q) (rn_view_id q)
             (rn_focus_epoch q)) rid with
  | inl e => (inl e, a)
  | inr _ =>
      match sessions a !! rn_session_id q with
      | None => (inl (not_found_error rid), a)
      | Some r =>
          match validate_lease (rn_generation q) (rn_attachment_id q) (rn_view_id q) (rn_lease_id q)
                  (rn_input_epoch q) None rid r, input_lease r with
          | inl e, _ => (inl e, a)
          | inr _, None => (inl (conflict_error rid), a)
          | inr _, Some l =>
              (inr (renewed now l),
               set_sessions (<[rn_session_id q := set_lease (Some (renewed now l)) r]> (sessions a)) a)
          end
      end
  end.

(** ** Typing into a local session *)

Definition validate_focus_fence (a : Actor) (t : LocalTerminalInputFocusTarget)
    (session : str) (gen rev : Z) (pty att view : str) (epoch : Z) (rid : str) : ActorResult unit :=
  if bool_decide (epoch = focus_epoch a) && bool_decide (lt_session_id t = session) &&
     bool_decide (lt_generation t = gen) && bool_decide (lt_state_revision t = rev) &&
     bool_decide (lt_pty_id t = pty) && bool_decide (lt_attachment_id t = att) &&
     bool_decide (lt_view_id t = view)
  then match validate_focus_target a t rid with
       | inl _ => inl (local_stale_focus rid)
       | inr _ => inr tt
       end
  else inl (local_stale_focus rid).

Definition local_validate_lease (lease : str) (input_epoch : Z) (now : option Z) (rid : str)
    (r : SessionRecord LocalSessionState) : ActorResult unit :=
  match input_lease r with
  | None => inl (local_conflict rid)
  | Some l =>
      if bool_decide (lease_id l = lease) && bool_decide (lease_input_epoch l = input_epoch) &&
         match now with Some now => negb (lease_expired now l) | None => true end
      then inr tt else inl (local_conflict rid)
  end.

(** [LocalSessionInputRequest] has the state revision and the pty. *)
Record LocalInputRequest := mkLocalInput { li_input : InputRequest; li_state_revision : Z }.

(** [local_input_with_ack] up to the wait for the writer, with [input] of the
    local sessions; the record of a validated fence is there. *)
Definition local_input (q : LocalInputRequest) (now : Z) (sent : bool) (a : Actor)
  : ActorResult unit * Actor :=
  let i := li_input q in
  let rid := in_request_id i in
  match focused_target a with
  | Some (LocalTarget t) =>
      if bool_decide (in_bytes i = []) || (LOCAL_TERMINAL_OUTPUT_FRAME_MAX_BYTES <? zlen (in_bytes i))
      then (inl (local_validation rid), a)
      else
        match validate_focus_fence a t (in_session_id i) (in_generation i) (li_state_revision q)
                (in_channel_id i) (in_attachment_id i) (in_view_id i) (in_focus_epoch i) rid,
              local_sessions a !! in_session_id i with
        | inl e, _ => (inl e, a)
        | inr _, None => (inl (local_not_found rid), a)
        | inr _, Some r =>
            match local_validate_lease (in_lease_id i) (in_input_epoch i) (Some now) rid r with
            | inl e => (inl e, a)
            | inr _ =>
                if in_client_seq i <=? last_client_seq r then (inl (local_conflict rid), a)
                else if writer r && sent then
                  (inr tt, set_local_sessions (<[in_session_id i :=
                     accept_input (in_client_seq i) (in_bytes i) r]> (local_sessions a)) a)
                else (inl (local_unavailable rid), a)
            end
        end
  | _ => (inl (local_stale_focus rid), a)
  end.

(** [Message::LocalLeaseRenew]. *)
Definition local_lease_renew (q : RenewRequest) (now : Z) (a : Actor) : ActorResult InputLease * Actor :=
  let rid := rn_request_id q in
  match focused_target a with
  | Some (LocalTarget t) =>
      match validate_focus_fence a t (rn_session_id q) (rn_generation q) (rn_state_revision q)
              (rn_pty_id q) (rn_attachment_id q) (rn_view_id q) (rn_focus_epoch q) rid,
            local_sessions a !! rn_session_id q with
      | inl e, _ => (inl e, a)
      | inr _, None => (inl (local_not_found rid), a)
      | inr _, Some r =>
          match local_validate_lease (rn_lease_id q) (rn_input_epoch q) None rid r, input_lease r with
          | inl e, _ => (inl e, a)
          | inr _, None => (inl (local_conflict rid), a)
          | inr _, Some l =>
              (inr (renewed now l), set_local_sessions
                 (<[rn_session_id q := set_lease (Some (renewed now l)) r]> (local_sessions a)) a)
          end
      end
  | _ => (inl (local_stale_focus rid), a)
  end.

(** ** Attachments *)

Record AttachRequestFields := mkAttach {
  aq_request_id : str;
  aq_session_id : str;
  aq_generation : Z;
  aq_state_revision : Z;
  aq_attempt : str;
  aq_view_id : str }.

(** [attach_once]: the focus of the view it replaces is dropped before the
    record is touched. The output replayed to the new attachment is left out. *)
Definition attach_once (q : AttachRequestFields) (now : Z) (fresh : str) (a : Actor)
  : ActorResult AttachmentRecord * Actor :=
  let rid := aq_request_id q in
  match sessions a !! aq_session_id q with
  | None => (inl (not_found_error rid), a)
  | Some r =>
      if bool_decide (generation r = aq_generation q) &&
         bool_decide (state_revision r = aq_state_revision q)
      then
        let a := match focused_target a with
                 | Some (SshTarget t) =>
                     if bool_decide (st_session_id t = aq_session_id q) &&
                        bool_decide (st_view_id t = aq_view_id q)
                     then drop_focus a else a
                 | _ => a
                 end in
        match sessions a !! aq_session_id q with
        | None => (inl (not_found_error rid), a)
        | Some r =>
            if bool_decide (generation r = aq_generation q) &&
               bool_decide (state_revision r = aq_state_revision q)
            then
              let '(res, r) := attach_record (conflict_error rid) (aq_attempt q) (aq_view_id q) now fresh r in
              (res, set_sessions (<[aq_session_id q := r]> (sessions a)) a)
            else (inl (conflict_error rid), a)
        end
      else (inl (conflict_error rid), a)
  end.

(** [attach_once] of the local sessions, and [Message::LocalAttach] for a
    request the operation ledger does not answer. *)
Definition local_attach_once (q : AttachRequestFields) (now : Z) (fresh : str) (a : Actor)
  : ActorResult AttachmentRecord * Actor :=
  let rid := aq_request_id q in
  match local_sessions a !! aq_session_id q with
  | None => (inl (local_not_found rid), a)
  | Some r =>
      if bool_decide (generation r = aq_generation q) &&
         bool_decide (state_revision r = aq_state_revision q)
      then
        let '(res, r) := attach_record (local_conflict rid) (aq_attempt q) (aq_view_id q) now fresh r in
        (res, set_local_sessions (<[aq_session_id q := r]> (local_sessions a)) a)
      else (inl (local_conflict rid), a)
  end.

Definition local_attach (q : AttachRequestFields) (now : Z) (fresh : str) (a : Actor)
  : ActorResult AttachmentRecord * Actor :=
  let replaces_focus := match focused_target a with
    | Some (LocalTarget t) =>
        bool_decide (lt_session_id t = aq_session_id q) && bool_decide (lt_view_id t = aq_view_id q)
    | _ => false
    end in
  match local_attach_once q now fresh a with
  | (inr x, a) => (inr x, if replaces_focus then drop_focus a else a)
  | (inl e, a) => (inl e, a)
  end.

Record HeartbeatRequest := mkHeartbeat {
  hb_request_id : str;
  hb_session_id : str;
  hb_generation : Z;
  hb_attachment_revision : Z;
  hb_attachment_id : str;
  hb_view_id : str }.

Definition attachment_heartbeat (q : HeartbeatRequest) (now : Z) (a : Actor)
  : ActorResult AttachmentRecord * Actor :=
  let rid := hb_request_id q in
  match sessions a !! hb_session_id q with
  | None => (inl (not_found_error rid), a)
  | Some r =>
      let '(res, r) := heartbeat_record (conflict_error rid) (not_found_error rid) (hb_generation q)
        (hb_attachment_revision q) (hb_attachment_id q) (hb_view_id q) now r in
      (res, set_sessions (<[hb_session_id q := r]> (sessions a)) a)
  end.

Definition local_attachment_heartbeat (q : HeartbeatRequest) (now : Z) (a : Actor)
  : ActorResult AttachmentRecord * Actor :=
  let rid := hb_request_id q in
  match local_sessions a !! hb_session_id q with
  | None => (inl (local_not_found rid), a)
  | Some r =>
      let '(res, r) := heartbeat_record (local_conflict rid) (local_not_found rid) (hb_generation q)
        (hb_attachment_revision q) (hb_attachment_id q) (hb_view_id q) now r in
      (res, set_local_sessions (<[hb_session_id q := r]> (local_sessions a)) a)
  end.

(** [reap_stale_attachments]. *)
Definition reap_stale_attachments (now : Z) (a : Actor) : Actor :=
  let stale_focus := match focused_target a with
    | Some (SshTarget t) => focus_is_stale now (st_attachment_id t) (sessions a !! st_session_id t)
    | Some (LocalTarget t) => focus_is_stale now (lt_attachment_id t) (local_sessions a !! lt_session_id t)
    | _ => false
    end in
  let a := if stale_focus then drop_focus a else a in
  set_local_sessions (reap_record now <$> local_sessions a)
    (set_sessions (reap_record now <$> sessions a) a).

(** ** Focus of the other actors, and shutdown *)

Record TelnetFocusInvalidation := mkInvalidation {
  iv_focus_epoch : Z; iv_target : TelnetTerminalInputFocusTarget }.

(** [clear_telnet_focus_exact] compares the invalidation's fields one by one
    with those of the focused target. *)
Definition clear_telnet_focus_exact (i : TelnetFocusInvalidation) (a : Actor)
  : FocusChangeResponse * Actor :=
  let matches_ := bool_decide (focus_epoch a = iv_focus_epoch i) &&
    match focused_target a with
    | Some (TelnetTarget t) =>
        bool_decide (tt_session_id t = tt_session_id (iv_target i)) &&
        bool_decide (tt_generation t = tt_generation (iv_target i)) &&
        bool_decide (tt_state_revision t = tt_state_revision (iv_target i)) &&
        bool_decide (tt_socket_id t = tt_socket_id (iv_target i)) &&
        bool_decide (tt_attachment_id t = tt_attachment_id (iv_target i)) &&
        bool_decide (tt_view_id t = tt_view_id (iv_target i))
    | _ => false
    end in
  let a := if matches_ then drop_focus a else a in
  (terminal_focus_snapshot a, a).

(** [Message::PluginTerminalFocusInvalidateExact]. *)
Definition clear_plugin_focus_exact (t : PluginTerminalInputFocusTarget) (epoch : Z) (a : Actor)
  : FocusChangeResponse * Actor :=
  let a := if bool_decide (focus_epoch a = epoch) &&
              bool_decide (focused_target a = Some (PluginTarget t))
           then drop_focus a else a in
  (terminal_focus_snapshot a, a).

(** The focus part of [begin_shutdown]. *)
Definition shutdown_focus (a : Actor) : Actor :=
  let a := revoke_focused_lease a in set_focus (next_seq (focus_epoch a)) None a.

(** ** Runs of the actor *)

Inductive Message : Type :=
| MFocusChange (r : FocusChange) (now : Z) (fresh : str)
| MTakeover (r : FocusChange) (now : Z) (fresh : str)
| MInput (q : InputRequest) (now : Z) (sent : bool)
| MPluginInput (q : InputRequest) (approved : bool) (now : Z) (sent : bool)
| MRenew (q : RenewRequest) (now : Z)
| MLocalInput (q : LocalInputRequest) (now : Z) (sent : bool)
| MLocalRenew (q : RenewRequest) (now : Z)
| MAttach (q : AttachRequestFields) (now : Z) (fresh : str)
| MLocalAttach (q : AttachRequestFields) (now : Z) (fresh : str)
| MHeartbeat (q : HeartbeatRequest) (now : Z)
| MLocalHeartbeat (q : HeartbeatRequest) (now : Z)
| MReap (now : Z)
| MClear (predicate : TerminalInputFocusTarget → bool)
| MTelnetInvalidate (i : TelnetFocusInvalidation)
| MPluginInvalidate (t : PluginTerminalInputFocusTarget) (epoch : Z)
| MShutdown.

(** The handlers. [MTakeover] is the focus change a login-automation takeover
    makes past the ledger, and [MClear] any use of [clear_focus_if]. *)
Definition handle (m : Message) (a : Actor) : Actor :=
  match m with
  | MFocusChange r now fresh => (terminal_focus_change r now fresh a).2
  | MTakeover r now fresh => (terminal_focus_change_once r now fresh a).2
  | MInput q now sent => (queue_input q now sent a).2
  | MPluginInput q approved now sent => (queue_approved_plugin_input q approved now sent a).2
  | MRenew q now => (lease_renew q now a).2
  | MLocalInput q now sent => (local_input q now sent a).2
  | MLocalRenew q now => (local_lease_renew q now a).2
  | MAttach q now fresh => (attach_once q now fresh a).2
  | MLocalAttach q now fresh => (local_attach q now fresh a).2
  | MHeartbeat q now => (attachment_heartbeat q now a).2
  | MLocalHeartbeat q now => (local_attachment_heartbeat q now a).2
  | MReap now => reap_stale_attachments now a
  | MClear p => clear_focus_if p a
  | MTelnetInvalidate i => (clear_telnet_focus_exact i a).2
  | MPluginInvalidate t e => (clear_plugin_focus_exact t e a).2
  | MShutdown => shutdown_focus a
  end.

(** The keyboard input a message gets accepted, as its focus epoch and
    sequence number. *)
Definition accepted (m : Message) (a : Actor) : list (Z * Z) :=
  match m with
  | MInput q now sent =>
      match (queue_input q now sent a).1 with
      | inr _ => [(in_focus_epoch q, in_client_seq q)]
      | inl _ => []
      end
  | MLocalInput q now sent =>
      match (local_input q now sent a).1 with
      | inr _ => [(in_focus_epoch (li_input q), in_client_seq (li_input q))]
      | inl _ => []
      end
  | _ => []
  end.

(** The same lease, up to its expiry. *)
Definition same_lease (l l' : InputLease) : Prop :=
  lease_id l = lease_id l' ∧ lease_focus_epoch l = lease_focus_epoch l' ∧
  lease_input_epoch l = lease_input_epoch l' ∧
  lease_attachment_id l = lease_attachment_id l' ∧ lease_view_id l = lease_view_id l'.

(** Every lease of [m'] is one of [m], in the same session, and the last
    sequence number of that session did not go back. *)
Definition kept {S} (m m' : gmap str (SessionRecord S)) : Prop :=
  ∀ k r' l', m' !! k = Some r' → input_lease r' = Some l' →
    ∃ r l, m !! k = Some r ∧ input_lease r = Some l ∧ same_lease l l' ∧
      last_client_seq r ≤ last_client_seq r'.

(** What happens to the sessions outside the handlers above. *)
Definition quiet (a a' : Actor) : Prop :=
  focus_epoch a' = focus_epoch a ∧ focused_target a' = focused_target a ∧
  kept (sessions a) (sessions a') ∧ kept (local_sessions a) (local_sessions a').

Inductive step : Actor → list (Z * Z) → Actor → Prop :=
| step_message m a : step a (accepted m a) (handle m a)
| step_other a a' : quiet a a' → step a [] a'.

(** A run, with the inputs accepted along it. *)
Inductive run : list (Z * Z) → Actor → Prop :=
| run_new : run [] actor_new
| run_step tr a tr' b : run tr a → step a tr' b → run (tr ++ tr') b.

(** ** The invariant *)

(** The session, attachment and view a focus names, for each kind. *)
Definition ssh_pane (t : option TerminalInputFocusTarget) : option (str * str * str) :=
  match t with
  | Some (SshTarget t) => Some (st_session_id t, st_attachment_id t, st_view_id t)
  | _ => None
  end.
Definition local_pane (t : option TerminalInputFocusTarget) : option (str * str * str) :=
  match t with
  | Some (LocalTarget t) => Some (lt_session_id t, lt_attachment_id t, lt_view_id t)
  | _ => None
  end.

Definition leases_ok {S} (m : gmap str (SessionRecord S)) (epoch : Z) (pane : option (str * str * str))
  : Prop :=
  ∀ k r l, m !! k = Some r → input_lease r = Some l →
    lease_focus_epoch l ≤ epoch ∧
    (lease_focus_epoch l = epoch → pane = Some (k, lease_attachment_id l, lease_view_id l)) ∧
    (∀ att view, pane = Some (k, att, view) → lease_focus_epoch l = epoch).

Definition focus_inv (a : Actor) : Prop :=
  leases_ok (sessions a) (focus_epoch a) (ssh_pane (focused_target a)) ∧
  leases_ok (local_sessions a) (focus_epoch a) (local_pane (focused_target a)) ∧
  0 ≤ focus_epoch a ≤ u64_max.

Section Kept.
Context {S : Type}.
Implicit Types (m : gmap str (SessionRecord S)) (r : SessionRecord S) (l : InputLease).

Lemma same_lease_refl l : same_lease l l.
Proof. done. Qed.

Lemma same_lease_trans l1 l2 l3 : same_lease l1 l2 → same_lease l2 l3 → same_lease l1 l3.
Proof. unfold same_lease. intuition congruence. Qed.

Lemma kept_refl m : kept m m.
Proof. intros k r l Hr Hl. exists r, l. split_and!; try done. Qed.

Lemma kept_trans m1 m2 m3 : kept m1 m2 → kept m2 m3 → kept m1 m3.
Proof.
  intros H1 H2 k r3 l3 Hr3 Hl3. destruct (H2 _ _ _ Hr3 Hl3) as (r2 & l2 & Hr2 & Hl2 & Hs2 & Hq2).
  destruct (H1 _ _ _ Hr2 Hl2) as (r1 & l1 & Hr1 & Hl1 & Hs1 & Hq1).
  exists r1, l1. split_and!; [done..|by eapply same_lease_trans|lia].
Qed.

(** A record that keeps its lease, or loses it. *)
Definition record_kept r r' : Prop :=
  ∀ l', input_lease r' = Some l' →
    ∃ l, input_lease r = Some l ∧ same_lease l l' ∧ last_client_seq r ≤ last_client_seq r'.

Lemma record_kept_refl r : record_kept r r.
Proof. intros l Hl. exists l. split_and!; try done. Qed.

Lemma record_kept_trans r1 r2 r3 : record_kept r1 r2 → record_kept r2 r3 → record_kept r1 r3.
Proof.
  intros H1 H2 l3 Hl3. destruct (H2 _ Hl3) as (l2 & Hl2 & ? & ?).
  destruct (H1 _ Hl2) as (l1 & ? & ? & ?). exists l1. split_and!; [done|by eapply same_lease_trans|lia].
Qed.

Lemma record_kept_None r : record_kept r (set_lease None r).
Proof. intros l. done. Qed.

Lemma kept_insert m k r r' : m !! k = Some r → record_kept r r' → kept m (<[k := r']> m).
Proof.
  intros Hk Hr j r2 l2 Hj Hl. destruct (decide (j = k)) as [->|Hne].
  - rewrite lookup_insert_eq in Hj. injection Hj as <-. destruct (Hr _ Hl) as (l & ? & ? & ?). eauto 6.
  - rewrite lookup_insert_ne in Hj by done. by apply kept_refl.
Qed.

Lemma kept_alter m k f : (∀ r, record_kept r (f r)) → kept m (alter f k m).
Proof.
  intros Hf. destruct (m !! k) as [r|] eqn:E.
  - replace (alter f k m) with (<[k := f r]> m); [by apply kept_insert with r|].
    apply map_eq. intros j. destruct (decide (j = k)) as [->|].
    + by rewrite lookup_insert_eq, lookup_alter_eq, E.
    + by rewrite lookup_insert_ne, lookup_alter_ne by done.
  - rewrite alter_id by (by rewrite E). apply kept_refl.
Qed.

Lemma kept_fmap m f : (∀ r, record_kept r (f r)) → kept m (f <$> m).
Proof.
  intros Hf k r' l' Hr Hl. rewrite lookup_fmap in Hr. destruct (m !! k) as [r|]; [|done].
  injection Hr as <-. destruct (Hf r _ Hl) as (l & ? & ? & ?). eauto 6.
Qed.

Lemma leases_ok_kept m m' epoch pane : leases_ok m epoch pane → kept m m' → leases_ok m' epoch pane.
Proof.
  intros Hm Hk k r' l' Hr Hl. destruct (Hk _ _ _ Hr Hl) as (r & l & Hr' & Hl' & Hs & _).
  destruct Hs as (_ & He & _ & Ha & Hv). destruct (Hm _ _ _ Hr' Hl') as (H1 & H2 & H3).
  rewrite <- He, <- Ha, <- Hv. done.
Qed.

(** No lease of the epoch or later ones. *)
Definition leases_below m (epoch : Z) : Prop :=
  ∀ k r l, m !! k = Some r → input_lease r = Some l → lease_focus_epoch l < epoch.

Lemma leases_below_le m e e' : leases_below m e → e ≤ e' → leases_below m e'.
Proof. intros H He k r l Hr Hl. specialize (H _ _ _ Hr Hl). lia. Qed.

Lemma leases_below_kept m m' e : leases_below m e → kept m m' → leases_below m' e.
Proof.
  intros H Hk k r' l' Hr Hl. destruct (Hk _ _ _ Hr Hl) as (r & l & Hr' & Hl' & (_ & He & _) & _).
  rewrite <- He. eauto.
Qed.

Lemma leases_below_ok m e : leases_below m e → leases_ok m e None.
Proof. intros H k r l Hr Hl. specialize (H _ _ _ Hr Hl). split_and!; [lia|lia|done]. Qed.

(** Once the focused session has no lease, every lease is older. *)
Lemma leases_ok_below m m' epoch pane :
  leases_ok m epoch pane → kept m m' →
  (∀ k att view r, pane = Some (k, att, view) → m' !! k = Some r → input_lease r = None) →
  leases_below m' epoch.
Proof.
  intros Hm Hk Hno k r' l' Hr Hl. destruct (leases_ok_kept _ _ _ _ Hm Hk _ _ _ Hr Hl) as (H1 & H2 & _).
  destruct (decide (lease_focus_epoch l' = epoch)) as [He|]; [|lia].
  specialize (H2 He). specialize (Hno _ _ _ _ H2 Hr). congruence.
Qed.

Lemma leases_ok_grant m k r att view epoch now fresh l r' :
  leases_below m epoch → m !! k = Some r → grant att view epoch now fresh r = (l, r') →
  leases_ok (<[k := r']> m) epoch (Some (k, att, view)).
Proof.
  unfold grant. intros Hm Hk [= <- <-] j r2 l2 Hj Hl. destruct (decide (j = k)) as [->|Hne].
  - rewrite lookup_insert_eq in Hj. injection Hj as <-. cbn in Hl. injection Hl as <-.
    cbn. split_and!; [lia|done|done].
  - rewrite lookup_insert_ne in Hj by done. specialize (Hm _ _ _ Hj Hl).
    split_and!; [lia|lia|congruence].
Qed.

End Kept.
#[global] Hint Resolve kept_refl record_kept_refl record_kept_None kept_insert : core.

(** ** What a handler does to the focus *)

(** The focus is dropped: the epoch goes up, the focused session loses its
    lease, and every other lease is kept or lost. *)
Definition dropped (a a' : Actor) : Prop :=
  focus_epoch a' = next_seq (focus_epoch a) ∧ focused_target a' = None ∧
  kept (sessions a) (sessions a') ∧ kept (local_sessions a) (local_sessions a') ∧
  (∀ k att view r, ssh_pane (focused_target a) = Some (k, att, view) →
    sessions a' !! k = Some r → input_lease r = None) ∧
  (∀ k att view r, local_pane (focused_target a) = Some (k, att, view) →
    local_sessions a' !! k = Some r → input_lease r = None).

(** A focus change: the old focus is dropped, then the new pane is granted its
    session's input. *)
Definition focused (a a' : Actor) : Prop :=
  ∃ a1 now fresh t lease a2, dropped a a1 ∧ issue_lease t now fresh a1 = Some (lease, a2) ∧
    focus_epoch a' = focus_epoch a2 ∧ focused_target a' = t ∧
    sessions a' = sessions a2 ∧ local_sessions a' = local_sessions a2.

Lemma quiet_refl a : quiet a a.
Proof. split_and!; auto. Qed.

Lemma quiet_trans a b c : quiet a b → quiet b c → quiet a c.
Proof.
  intros (? & ? & ? & ?) (? & ? & ? & ?). split_and!; [congruence..|eapply kept_trans; done|].
  eapply kept_trans; done.
Qed.

Lemma quiet_ssh a k r r' :
  sessions a !! k = Some r → record_kept r r' → quiet a (set_sessions (<[k := r']> (sessions a)) a).
Proof. intros. split_and!; cbn; eauto. Qed.

Lemma quiet_local a k r r' :
  local_sessions a !! k = Some r → record_kept r r' →
  quiet a (set_local_sessions (<[k := r']> (local_sessions a)) a).
Proof. intros. split_and!; cbn; eauto. Qed.

Lemma record_kept_accept {S} seq bytes (r : SessionRecord S) :
  last_client_seq r ≤ seq → record_kept r (accept_input seq bytes r).
Proof. intros H l Hl. cbn in *. exists l. auto using same_lease_refl. Qed.

Lemma record_kept_renewed {S} now l (r : SessionRecord S) :
  input_lease r = Some l → record_kept r (set_lease (Some (renewed now l)) r).
Proof. intros Hl l' [= <-]. exists l. cbn. split_and!; done. Qed.

Lemma remove_attachment_kept {S} att (r : SessionRecord S) : record_kept r (remove_attachment att r).2.
Proof.
  unfold remove_attachment. destruct (bmap_get att (attachments r)); [|auto]. cbn.
  intros l. cbn. destruct (input_lease r) as [l0|] eqn:E.
  - destruct (bool_decide _); cbn; [done|]. rewrite E. intros [= <-]. exists l0.
    split_and!; try done.
  - rewrite E. done.
Qed.

Lemma reap_record_kept {S} now (r : SessionRecord S) : record_kept r (reap_record now r).
Proof.
  unfold reap_record. set (r0 := match input_lease r with Some l => _ | None => r end).
  assert (record_kept r r0) as H0.
  { unfold r0. destruct (input_lease r) as [l|]; [|auto]. destruct (lease_expired now l); auto. }
  clearbody r0. generalize (attachment_id <$> filter (λ a, attachment_stale now a = true) (snd <$> attachments r0)).
  intros ids. revert r0 H0. induction ids as [|x ids IH]; intros r0 H0; [done|]. cbn.
  apply IH. eapply record_kept_trans; [done|]. apply remove_attachment_kept.
Qed.

Lemma attach_record_kept {S} conflict attempt view now fresh (r : SessionRecord S) :
  record_kept r (attach_record conflict attempt view now fresh r).2.
Proof.
  unfold attach_record. destruct (existsb _ _); [auto|]. cbn. intros l. cbn.
  destruct (list_find _ _) as [[i old]|], (input_lease r) as [l0|] eqn:E; cbn;
    try (rewrite E; intros [= <-]; exists l0; split_and!; done); try by rewrite E.
  destruct (bool_decide _); cbn; [done|]. rewrite E. intros [= <-]. exists l0. split_and!; done.
Qed.

Lemma heartbeat_record_kept {S} conflict nf gen rev att view now (r : SessionRecord S) :
  record_kept r (heartbeat_record conflict nf gen rev att view now r).2.
Proof.
  unfold heartbeat_record. destruct (validate_attachment _ _ _ _ _ _), (bmap_get att (attachments r)); auto.
  destruct (bool_decide _); auto. cbn. intros l Hl. exists l. split_and!; done.
Qed.

Lemma drop_focus_dropped a : dropped a (drop_focus a).
Proof.
  unfold drop_focus, revoke_focused_lease.
  destruct (focused_target a) as [[t|t|t|t]|] eqn:E; cbn; (split_and!; cbn; rewrite ?E; try done;
    try (apply kept_alter; auto); try (apply kept_refl); cbn);
    intros k att view r [= <- <- <-]; rewrite lookup_alter_eq;
    match goal with |- context [?m !! ?j] => destruct (m !! j) end; intros [= <-]; done.
Qed.

Lemma dropped_quiet a b c : dropped a b → quiet b c → dropped a c.
Proof.
  intros (He & Ht & Hk & Hl & H1 & H2) (He' & Ht' & Hk' & Hl').
  split_and!; [congruence..|by eapply kept_trans|by eapply kept_trans| |].
  - intros k att view r Hp Hr. destruct (input_lease r) as [l|] eqn:E; [|done].
    destruct (Hk' _ _ _ Hr E) as (r0 & l0 & Hr0 & Hl0 & _). rewrite (H1 _ _ _ _ Hp Hr0) in Hl0. done.
  - intros k att view r Hp Hr. destruct (input_lease r) as [l|] eqn:E; [|done].
    destruct (Hl' _ _ _ Hr E) as (r0 & l0 & Hr0 & Hl0 & _). rewrite (H2 _ _ _ _ Hp Hr0) in Hl0. done.
Qed.

Lemma quiet_dropped a b c : quiet a b → dropped b c → dropped a c.
Proof.
  intros (He' & Ht' & Hk' & Hl') (He & Ht & Hk & Hl & H1 & H2). rewrite Ht' in H1, H2.
  split_and!; [congruence..|by eapply kept_trans|by eapply kept_trans|done|done].
Qed.

Definition changes (a a' : Actor) : Prop := quiet a a' ∨ dropped a a' ∨ focused a a'.

Lemma changes_quiet a a' : quiet a a' → changes a a'.
Proof. by left. Qed.
Lemma changes_dropped a a' : dropped a a' → changes a a'.
Proof. by right; left. Qed.

#[local] Hint Resolve quiet_refl quiet_ssh quiet_local changes_quiet changes_dropped drop_focus_dropped
  record_kept_renewed attach_record_kept heartbeat_record_kept reap_record_kept : core.

(** Only the operation ledger differs. *)
Lemma changes_operations a b l : changes a b → changes a (set_operations l b).
Proof.
  intros [H|[H|(a1 & now & fresh & t & lease & a2 & H)]]; [by left|by right; left|right; right].
  by exists a1, now, fresh, t, lease, a2.
Qed.

Lemma focus_change_once_changes r now fresh a :
  changes a (terminal_focus_change_once r now fresh a).2.
Proof.
  unfold terminal_focus_change_once. destruct (bool_decide _); [|auto].
  destruct (match fc_target r with Some t => _ | None => _ end); [auto|].
  destruct (issue_lease _ _ _ _) as [[lease a2]|] eqn:E; [|auto].
  right; right. eexists _, now, fresh, (fc_target r), lease, a2. split; [apply drop_focus_dropped|].
  split; [exact E|]. done.
Qed.

Lemma focus_change_changes r now fresh a : changes a (terminal_focus_change r now fresh a).2.
Proof.
  unfold terminal_focus_change. destruct (match trim _ with [] => _ | _ => _ end); [auto|].
  destruct (replay_control_operation _ _ _ _ _); [auto|].
  pose proof (focus_change_once_changes r now fresh a) as H.
  destruct (terminal_focus_change_once r now fresh a) as [[res|x|] b]; [|auto..].
  destruct (record_control_operation _ _ _ _ _ _) as [res' l]. by apply changes_operations.
Qed.

Lemma queue_input_changes q now sent a : changes a (queue_input q now sent a).2.
Proof.
  unfold queue_input. destruct (_ || (_ <? zlen _)); [auto|].
  destruct (validate_global_focus _ _ _); [auto|].
  destruct (sessions a !! in_session_id q) as [r|] eqn:E; [|auto].
  destruct (validate_lease _ _ _ _ _ _ _ _); [auto|].
  destruct (negb _ || _) eqn:C; [auto|]. destruct (writer r && sent); [|auto].
  left. eapply quiet_ssh; [done|]. apply record_kept_accept. bprop. lia.
Qed.

Lemma queue_plugin_input_changes q ok now sent a :
  changes a (queue_approved_plugin_input q ok now sent a).2.
Proof.
  unfold queue_approved_plugin_input. destruct (_ || (_ <? zlen _)); [auto|].
  destruct (negb ok); [auto|]. destruct (validate_global_focus _ _ _); [auto|].
  destruct (sessions a !! in_session_id q) as [r|] eqn:E; [|auto].
  destruct (validate_lease _ _ _ _ _ _ _ _); [auto|].
  destruct (negb _); [auto|]. destruct (writer r && sent); [|auto].
  left. eapply quiet_ssh; [done|]. apply record_kept_accept. lia.
Qed.

Lemma lease_renew_changes q now a : changes a (lease_renew q now a).2.
Proof.
  unfold lease_renew. destruct (validate_global_focus _ _ _); [auto|].
  destruct (sessions a !! rn_session_id q) as [r|] eqn:E; [|auto].
  destruct (validate_lease _ _ _ _ _ _ _ _), (input_lease r) as [l|] eqn:El; cbn; eauto.
Qed.

Lemma local_input_changes q now sent a : changes a (local_input q now sent a).2.
Proof.
  unfold local_input. destruct (focused_target a) as [[t|t|t|t]|]; [auto| |auto..].
  destruct (_ || (_ <? zlen _)); [auto|].
  destruct (validate_focus_fence _ _ _ _ _ _ _ _ _ _),
    (local_sessions a !! in_session_id (li_input q)) as [r|] eqn:E; [auto..| |auto].
  destruct (local_validate_lease _ _ _ _ _); [auto|].
  destruct (Z.leb_spec (in_client_seq (li_input q)) (last_client_seq r)); [auto|].
  destruct (writer r && sent); [|auto].
  left. eapply quiet_local; [done|]. apply record_kept_accept. lia.
Qed.

Lemma local_renew_changes q now a : changes a (local_lease_renew q now a).2.
Proof.
  unfold local_lease_renew. destruct (focused_target a) as [[t|t|t|t]|]; [auto| |auto..].
  destruct (validate_focus_fence _ _ _ _ _ _ _ _ _ _),
    (local_sessions a !! rn_session_id q) as [r|] eqn:E; [auto..| |auto].
  destruct (local_validate_lease _ _ _ _ _), (input_lease r) as [l|] eqn:El; cbn; eauto.
Qed.

Lemma attach_once_changes q now fresh a : changes a (attach_once q now fresh a).2.
Proof.
  unfold attach_once. destruct (sessions a !! aq_session_id q) as [r0|]; [|auto].
  destruct (bool_decide _ && bool_decide _); [|auto].
  set (b := match focused_target a with Some (SshTarget t) => _ | _ => _ end).
  assert (b = a ∨ b = drop_focus a) as Hb.
  { unfold b. destruct (focused_target a) as [[t|t|t|t]|]; auto. destruct (_ && _); auto. }
  assert (∀ c, quiet b c → changes a c) as Hc.
  { intros c Hq. destruct Hb as [->| ->]; [by left|]. right; left. by eapply dropped_quiet. }
  clearbody b. destruct (sessions b !! aq_session_id q) as [r|] eqn:E; [|auto].
  destruct (bool_decide _ && bool_decide _); [|auto].
  pose proof (attach_record_kept (conflict_error (aq_request_id q)) (aq_attempt q) (aq_view_id q) now fresh r).
  destruct (attach_record _ _ _ _ _ _) as [res r']. apply Hc. cbn. eauto.
Qed.

Lemma local_attach_changes q now fresh a : changes a (local_attach q now fresh a).2.
Proof.
  unfold local_attach, local_attach_once.
  destruct (local_sessions a !! aq_session_id q) as [r|] eqn:E; [|auto].
  destruct (bool_decide _ && bool_decide _); [|auto].
  pose proof (attach_record_kept (local_conflict (aq_request_id q)) (aq_attempt q) (aq_view_id q) now fresh r).
  destruct (attach_record _ _ _ _ _ _) as [[e|x] r']; cbn; [eauto|].
  destruct (match focused_target a with Some (LocalTarget t) => _ | _ => _ end); [|eauto].
  right; left. eapply quiet_dropped; [|apply drop_focus_dropped]. eauto.
Qed.

Lemma heartbeat_changes q now a : changes a (attachment_heartbeat q now a).2.
Proof.
  unfold attachment_heartbeat. destruct (sessions a !! hb_session_id q) as [r|] eqn:E; [|auto].
  pose proof (heartbeat_record_kept (conflict_error (hb_request_id q)) (not_found_error (hb_request_id q))
    (hb_generation q) (hb_attachment_revision q) (hb_attachment_id q) (hb_view_id q) now r).
  destruct (heartbeat_record _ _ _ _ _ _ _ _). cbn. eauto.
Qed.

Lemma local_heartbeat_changes q now a : changes a (local_attachment_heartbeat q now a).2.
Proof.
  unfold local_attachment_heartbeat. destruct (local_sessions a !! hb_session_id q) as [r|] eqn:E; [|auto].
  pose proof (heartbeat_record_kept (local_conflict (hb_request_id q)) (local_not_found (hb_request_id q))
    (hb_generation q) (hb_attachment_revision q) (hb_attachment_id q) (hb_view_id q) now r).
  destruct (heartbeat_record _ _ _ _ _ _ _ _). cbn. eauto.
Qed.

Lemma reap_changes now a : changes a (reap_stale_attachments now a).
Proof.
  unfold reap_stale_attachments.
  destruct (match focused_target a with Some (SshTarget t) => _ | _ => _ end).
  - right; left. eapply dropped_quiet; [apply drop_focus_dropped|].
    split_and!; try done; cbn; apply kept_fmap; auto.
  - left. split_and!; try done; cbn; apply kept_fmap; auto.
Qed.

Lemma shutdown_changes a : changes a (shutdown_focus a).
Proof.
  right; left. replace (shutdown_focus a) with (drop_focus a); [apply drop_focus_dropped|].
  destruct (drop_focus_dropped a) as (_ & Ht & _). unfold drop_focus, shutdown_focus in *.
  cbn in Ht. by rewrite Ht.
Qed.

(** Every handler leaves the focus, drops it or moves it. *)
Lemma handle_changes m a : changes a (handle m a).
Proof.
  destruct m; cbn [handle].
  - apply focus_change_changes.
  - apply focus_change_once_changes.
  - apply queue_input_changes.
  - apply queue_plugin_input_changes.
  - apply lease_renew_changes.
  - apply local_input_changes.
  - apply local_renew_changes.
  - apply attach_once_changes.
  - apply local_attach_changes.
  - apply heartbeat_changes.
  - apply local_heartbeat_changes.
  - apply reap_changes.
  - unfold clear_focus_if. destruct (focused_target a) as [t|]; [|auto]. destruct (predicate t); auto.
  - unfold clear_telnet_focus_exact. cbn. destruct (_ && _); auto.
  - unfold clear_plugin_focus_exact. cbn. destruct (_ && _); auto.
  - apply shutdown_changes.
Qed.

(** ** The invariant is kept *)

Lemma next_seq_range n : 0 ≤ n ≤ u64_max → n ≤ next_seq n ≤ u64_max.
Proof. unfold next_seq. lia. Qed.

Lemma dropped_below a b :
  focus_inv a → dropped a b →
  leases_below (sessions b) (focus_epoch b) ∧ leases_below (local_sessions b) (focus_epoch b) ∧
  focus_epoch a ≤ focus_epoch b ≤ u64_max.
Proof.
  intros (H1 & H2 & Hr) (He & _ & Hk & Hl & Hn1 & Hn2). rewrite He.
  pose proof (next_seq_range _ Hr). split_and!; try lia;
    (eapply leases_below_le; [|apply H]); eapply leases_ok_below; eauto.
Qed.

Lemma dropped_inv a b : focus_inv a → dropped a b → focus_inv b.
Proof.
  intros Hi Hd. destruct (dropped_below _ _ Hi Hd) as (H1 & H2 & ?). destruct Hd as (_ & Ht & _).
  destruct Hi as (_ & _ & ?). unfold focus_inv. rewrite Ht.
  split_and!; [by apply leases_below_ok..|lia|lia].
Qed.

Lemma quiet_inv a b : focus_inv a → quiet a b → focus_inv b.
Proof.
  intros (H1 & H2 & Hr) (He & Ht & Hk & Hl). unfold focus_inv. rewrite He, Ht.
  split_and!; [by eapply leases_ok_kept..|lia|lia].
Qed.

Lemma focused_inv a b : focus_inv a → focused a b → focus_inv b.
Proof.
  intros Hi (a1 & now & fresh & t & lease & a2 & Hd & Hi2 & He & Ht & Hs & Hl).
  destruct (dropped_below _ _ Hi Hd) as (H1 & H2 & Hr). destruct Hi as (_ & _ & Hr0).
  unfold focus_inv. rewrite He, Ht, Hs, Hl.
  destruct t as [[t|t|t|t]|]; cbn in Hi2.
  - destruct (sessions a1 !! st_session_id t) as [r|] eqn:E; [|done]. cbn in Hi2.
    injection Hi2 as <- <-. cbn. split_and!; [|by apply leases_below_ok|lia|lia].
    eapply leases_ok_grant; [done..|reflexivity].
  - destruct (local_sessions a1 !! lt_session_id t) as [r|] eqn:E; [|done]. cbn in Hi2.
    injection Hi2 as <- <-. cbn. split_and!; [by apply leases_below_ok| |lia|lia].
    eapply leases_ok_grant; [done..|reflexivity].
  - injection Hi2 as <- <-. cbn. split_and!; [by apply leases_below_ok..|lia|lia].
  - injection Hi2 as <- <-. cbn. split_and!; [by apply leases_below_ok..|lia|lia].
  - injection Hi2 as <- <-. cbn. split_and!; [by apply leases_below_ok..|lia|lia].
Qed.

Lemma changes_inv a b : focus_inv a → changes a b → focus_inv b.
Proof.
  intros Hi [H|[H|H]]; [by eapply quiet_inv|by eapply dropped_inv|by eapply focused_inv].
Qed.

Lemma step_changes a tr b : step a tr b → changes a b.
Proof. intros [m c|c d Hq]; [apply handle_changes|by left]. Qed.

Lemma actor_new_inv : focus_inv actor_new.
Proof. split_and!; [intros k r l H; cbn in H; by rewrite lookup_empty in H..|done|done]. Qed.

Lemma run_inv tr a : run tr a → focus_inv a.
Proof.
  induction 1 as [|tr a tr' b _ IH Hs]; [apply actor_new_inv|].
  eapply changes_inv; [done|by eapply step_changes].
Qed.

(** ** What lets an input through *)

(** An input the focused pane may type, into record [r] with lease [l]: the
    focus names its session, generation, channel, attachment and view at the
    record's state revision, and the session runs on that channel and shows the
    attachment; the lease is the request's and has not expired, and the
    sequence number is new. *)
Definition authorised (a : Actor) (q : InputRequest) (now : Z)
    (r : SessionRecord SshSessionState) (l : InputLease) : Prop :=
  focused_target a = Some (SshTarget (mkSshTarget (in_session_id q) (in_generation q) (state_revision r)
    (in_channel_id q) (in_attachment_id q) (in_view_id q))) ∧
  in_focus_epoch q = focus_epoch a ∧
  sessions a !! in_session_id q = Some r ∧
  state r = Running ∧ generation r = in_generation q ∧ resource_id r = Some (in_channel_id q) ∧
  (∃ at_, bmap_get (in_attachment_id q) (attachments r) = Some at_ ∧ view_id at_ = in_view_id q ∧
    attachment_generation at_ = in_generation q ∧ attachment_resource at_ = Some (in_channel_id q)) ∧
  input_lease r = Some l ∧
  lease_id l = in_lease_id q ∧ lease_input_epoch l = in_input_epoch q ∧
  lease_attachment_id l = in_attachment_id q ∧ lease_view_id l = in_view_id q ∧
  now < expires_at_unix_ms l ∧ last_client_seq r < in_client_seq q ∧ writer r = true ∧
  in_bytes q ≠ [] ∧ zlen (in_bytes q) ≤ SSH_TERMINAL_OUTPUT_FRAME_MAX_BYTES.

Lemma validate_global_focus_Ok a f rid :
  validate_global_focus a f rid = inr tt ↔
  ∃ t r at_, focused_target a = Some (SshTarget t) ∧ sessions a !! fence_session_id f = Some r ∧
    bmap_get (fence_attachment_id f) (attachments r) = Some at_ ∧
    fence_focus_epoch f = focus_epoch a ∧ st_session_id t = fence_session_id f ∧
    st_generation t = fence_generation f ∧ st_attachment_id t = fence_attachment_id f ∧
    st_view_id t = fence_view_id f ∧ (∀ c, fence_channel_id f = Some c → st_channel_id t = c) ∧
    state r = Running ∧ generation r = st_generation t ∧ state_revision r = st_state_revision t ∧
    resource_id r = Some (st_channel_id t) ∧ view_id at_ = st_view_id t ∧
    attachment_generation at_ = st_generation t ∧ attachment_resource at_ = Some (st_channel_id t).
Proof.
  unfold validate_global_focus. split.
  - destruct (focused_target a) as [[t|t|t|t]|]; try done.
    destruct (_ && match fence_channel_id f with Some c => _ | None => _ end) eqn:E; [|done].
    destruct (sessions a !! fence_session_id f) as [r|]; [|done].
    destruct (bmap_get (fence_attachment_id f) (attachments r)) as [at_|] eqn:Ea; [|by rewrite andb_false_r].
    destruct (_ && _) eqn:E2 in |- *; [|done]. intros _.
    bprop. exists t, r, at_. split_and!; try done.
    intros c Hc. rewrite Hc in *. by bprop.
  - intros (t & r & at_ & -> & -> & -> & -> & -> & -> & -> & -> & Hc & -> & -> & -> & -> & -> & -> & ->).
    rewrite !bool_decide_true by done. cbn.
    destruct (fence_channel_id f) as [c|]; [|done]. by rewrite bool_decide_true by (by apply Hc).
Qed.

Lemma validate_attachment_Ok {S} c nf gen att view (r : SessionRecord S) :
  validate_attachment c nf gen att view r = inr tt ↔
  generation r = gen ∧ ∃ at_, bmap_get att (attachments r) = Some at_ ∧
    attachment_generation at_ = gen ∧ view_id at_ = view.
Proof.
  unfold validate_attachment. split.
  - destruct (bool_decide (generation r = gen)) eqn:E; [|done].
    destruct (bmap_get att (attachments r)) as [at_|] eqn:Ea; [|done].
    destruct (_ && _) eqn:E2; [|done]. intros _. bprop. eauto.
  - intros (-> & at_ & -> & -> & ->). by rewrite !bool_decide_true by done.
Qed.

Lemma validate_lease_Ok gen att view lease epoch now rid r :
  validate_lease gen att view lease epoch (Some now) rid r = inr tt ↔
  validate_attachment (conflict_error rid) (not_found_error rid) gen att view r = inr tt ∧
  ∃ l, input_lease r = Some l ∧ lease_id l = lease ∧ lease_input_epoch l = epoch ∧
    lease_attachment_id l = att ∧ lease_view_id l = view ∧ now < expires_at_unix_ms l.
Proof.
  unfold validate_lease, lease_expired.
  destruct (validate_attachment _ _ _ _ _ _) as [e|[]]; [split; [done|by intros [? _]]|].
  destruct (input_lease r) as [l|]; [|split; [done|by intros (_ & ? & ? & _)]]. split.
  - destruct (_ && _) eqn:E; [|done]. intros _. bprop. split; [done|]. exists l. split_and!; try done.
  - intros (_ & l' & [= <-] & -> & -> & -> & -> & Hx). rewrite !bool_decide_true by done.
    by rewrite (proj2 (Z.leb_gt _ _)) by done.
Qed.

Lemma authorised_accepts a q now r l :
  authorised a q now r l →
  queue_input q now true a =
    (inr tt, set_sessions (<[in_session_id q := accept_input (in_client_seq q) (in_bytes q) r]> (sessions a)) a).
Proof.
  intros (Ht & He & Hs & Hst & Hg & Hc & (at_ & Ha & Hv & Hag & Hac) & Hl & H1 & H2 & H3 & H4 & Hx & Hq & Hw & Hb & Hz).
  unfold queue_input. rewrite bool_decide_false by done.
  rewrite (proj2 (Z.ltb_ge _ _)) by done. cbn [orb].
  rewrite (proj2 (validate_global_focus_Ok a (input_fence q) (in_request_id q))).
  2: { eexists _, r, at_. split; [exact Ht|]. cbn. split_and!; try done; congruence. }
  rewrite Hs. rewrite (proj2 (validate_lease_Ok _ _ _ _ _ _ _ _)).
  2: { split; [apply validate_attachment_Ok; eauto 6|]. eauto 10. }
  rewrite bool_decide_true by done. rewrite (proj2 (Z.leb_gt _ _)) by done. cbn. by rewrite Hw.
Qed.

Lemma accepted_authorised q now sent a a' :
  queue_input q now sent a = (inr tt, a') → sent = true ∧ ∃ r l, authorised a q now r l.
Proof.
  unfold queue_input. destruct (bool_decide (in_bytes q = []) || _) eqn:Eb; [done|].
  destruct (validate_global_focus _ _ _) as [e|[]] eqn:Eg; [done|].
  destruct (sessions a !! in_session_id q) as [r|] eqn:Es; [|done].
  destruct (validate_lease _ _ _ _ _ _ _ _) as [e|[]] eqn:El; [done|].
  destruct (negb _ || _) eqn:Ec; [done|]. destruct (writer r && sent) eqn:Ew; [|done]. intros _.
  apply validate_global_focus_Ok in Eg as (t & r' & at_ & Ht & Hs & Ha & ? & ? & ? & ? & ? & Hch & ?).
  apply validate_lease_Ok in El as (_ & l & ?). cbn in *. specialize (Hch _ eq_refl).
  rewrite Hs in Es. injection Es as ->. destruct_and?. bprop.
  split; [done|]. exists r, l. unfold authorised. split_and!; try done; try congruence; try lia.
  - rewrite Ht. do 2 f_equal. destruct t; cbn in *. congruence.
  - exists at_. split_and!; congruence.
Qed.

(** What an accepted local input had: the focus, a lease and a new number. *)
Lemma local_accepted_inv q now sent a a' :
  local_input q now sent a = (inr tt, a') →
  ∃ t r l, focused_target a = Some (LocalTarget t) ∧
    lt_session_id t = in_session_id (li_input q) ∧ in_focus_epoch (li_input q) = focus_epoch a ∧
    local_sessions a !! in_session_id (li_input q) = Some r ∧ input_lease r = Some l ∧
    last_client_seq r < in_client_seq (li_input q) ∧
    a' = set_local_sessions (<[in_session_id (li_input q) :=
      accept_input (in_client_seq (li_input q)) (in_bytes (li_input q)) r]> (local_sessions a)) a.
Proof.
  unfold local_input. destruct (focused_target a) as [[t|t|t|t]|]; try done.
  destruct (bool_decide _ || _); [done|].
  destruct (validate_focus_fence _ _ _ _ _ _ _ _ _ _) as [e|[]] eqn:Ef; [done|].
  destruct (local_sessions a !! in_session_id (li_input q)) as [r|] eqn:Es; [|done].
  destruct (local_validate_lease _ _ _ _ _) as [e|[]] eqn:El; [done|].
  destruct (Z.leb_spec (in_client_seq (li_input q)) (last_client_seq r)); [done|].
  destruct (writer r && sent); [|done]. intros [= <-].
  unfold validate_focus_fence in Ef. destruct (_ && _) eqn:E in Ef; [|done]. bprop.
  unfold local_validate_lease in El. destruct (input_lease r) as [l|] eqn:Hl; [|done].
  exists t, r, l. split_and!; done.
Qed.

(** ** The order of the inputs *)

Definition before (x y : Z * Z) : Prop := x.1 < y.1 ∨ (x.1 = y.1 ∧ x.2 < y.2).

(** The sessions that may type at this epoch have passed the number. *)
Definition passed {S} (m : gmap str (SessionRecord S)) (epoch c : Z) : Prop :=
  ∀ k r l, m !! k = Some r → input_lease r = Some l → lease_focus_epoch l = epoch → c ≤ last_client_seq r.

Definition trace_bound (tr : list (Z * Z)) (a : Actor) : Prop :=
  ∀ x, x ∈ tr → x.1 ≤ focus_epoch a ∧
    (x.1 = focus_epoch a → passed (sessions a) (focus_epoch a) x.2 ∧
                           passed (local_sessions a) (focus_epoch a) x.2).

Lemma passed_kept {S} (m m' : gmap str (SessionRecord S)) e c : passed m e c → kept m m' → passed m' e c.
Proof.
  intros Hp Hk k r' l' Hr Hl He. destruct (Hk _ _ _ Hr Hl) as (r & l & Hr' & Hl' & (_ & Hs & _) & Hq).
  rewrite <- Hs in He. specialize (Hp _ _ _ Hr' Hl' He). lia.
Qed.

Lemma changes_epoch a b :
  changes a b → quiet a b ∨ focus_epoch b = next_seq (focus_epoch a).
Proof.
  intros [H|[H|H]]; [by left|right; apply H|right].
  destruct H as (a1 & now & fresh & t & lease & a2 & (He & _) & Hi & He' & _). rewrite He', <- He.
  destruct t as [[t|t|t|t]|]; cbn in Hi.
  - destruct (sessions a1 !! _); [|done]. cbn in Hi. by injection Hi as <- <-.
  - destruct (local_sessions a1 !! _); [|done]. cbn in Hi. by injection Hi as <- <-.
  - by injection Hi as <- <-.
  - by injection Hi as <- <-.
  - by injection Hi as <- <-.
Qed.

Lemma changes_epoch_le a b : focus_inv a → changes a b → focus_epoch a ≤ focus_epoch b.
Proof.
  intros (_ & _ & Hr) H. apply changes_epoch in H as [(-> & _)| ->]; [done|].
  by apply next_seq_range.
Qed.

Lemma changes_bound tr a b :
  focus_inv a → trace_bound tr a → changes a b → focus_epoch b < u64_max → trace_bound tr b.
Proof.
  intros (_ & _ & Hr) Ht Hc Hb x Hx. destruct (Ht x Hx) as [Hle Heq].
  apply changes_epoch in Hc as [(He & _ & Hk & Hl)|He].
  - rewrite He. split; [done|]. intros Hx1. destruct (Heq Hx1) as [Hp1 Hp2].
    split; by eapply passed_kept.
  - unfold next_seq in He. split; lia.
Qed.

(** After an accepted input only its session can type, and has its number. *)
Lemma passed_accept {S} (m : gmap str (SessionRecord S)) e k r c bs att view :
  leases_ok m e (Some (k, att, view)) → m !! k = Some r →
  passed (<[k := accept_input c bs r]> m) e c.
Proof.
  intros Hm Hk j r' l' Hj Hl He. destruct (decide (j = k)) as [->|Hne].
  - rewrite lookup_insert_eq in Hj. injection Hj as <-. done.
  - rewrite lookup_insert_ne in Hj by done. destruct (Hm _ _ _ Hj Hl) as (_ & H2 & _).
    specialize (H2 He). congruence.
Qed.

Lemma passed_none {S} (m : gmap str (SessionRecord S)) e c : leases_ok m e None → passed m e c.
Proof. intros Hm k r l Hr Hl He. destruct (Hm _ _ _ Hr Hl) as (_ & H2 & _). by specialize (H2 He). Qed.

(** An accepted input comes after all earlier ones, and bounds the next. *)
Lemma accepted_bound m a tr x :
  focus_inv a → trace_bound tr a → x ∈ accepted m a →
  Forall (λ y, before y x) tr ∧ x.1 = focus_epoch (handle m a) ∧
  passed (sessions (handle m a)) (focus_epoch (handle m a)) x.2 ∧
  passed (local_sessions (handle m a)) (focus_epoch (handle m a)) x.2.
Proof.
  intros (H1 & H2 & _) Ht Hx. destruct m; cbn [accepted] in Hx; try by apply elem_of_nil in Hx.
  - cbn [handle]. destruct (queue_input q now sent a) as [[e|[]] b] eqn:E; cbn in Hx; [by apply elem_of_nil in Hx|].
    apply list_elem_of_singleton in Hx as ->.
    destruct (accepted_authorised _ _ _ _ _ E) as (-> & r & l & Hauth).
    rewrite (authorised_accepts _ _ _ _ _ Hauth) in E. injection E as <-.
    destruct Hauth as (Hf & He & Hs & _ & _ & _ & _ & Hl & _ & _ & _ & _ & _ & Hq & _).
    rewrite Hf in H1, H2. cbn in H1, H2. cbn. split_and!; [|done|by eapply passed_accept|by apply passed_none].
    apply Forall_forall. intros y Hy. destruct (Ht y Hy) as [Hle Heq]. unfold before. cbn.
    destruct (decide (y.1 = focus_epoch a)) as [Hye|]; [|lia].
    destruct (Heq Hye) as [Hp _]. destruct (H1 _ _ _ Hs Hl) as (_ & _ & H3).
    specialize (Hp _ _ _ Hs Hl (H3 _ _ eq_refl)). lia.
  - cbn [handle]. destruct (local_input q now sent a) as [[e|[]] b] eqn:E; cbn in Hx; [by apply elem_of_nil in Hx|].
    apply list_elem_of_singleton in Hx as ->.
    destruct (local_accepted_inv _ _ _ _ _ E) as (t & r & l & Hf & Hid & He & Hs & Hl & Hq & ->).
    rewrite Hf in H1, H2. cbn in H1, H2. rewrite Hid in H2. cbn.
    split_and!; [|done|by apply passed_none|by eapply passed_accept].
    apply Forall_forall. intros y Hy. destruct (Ht y Hy) as [Hle Heq]. unfold before. cbn.
    destruct (decide (y.1 = focus_epoch a)) as [Hye|]; [|lia].
    destruct (Heq Hye) as [_ Hp]. destruct (H2 _ _ _ Hs Hl) as (_ & _ & H3).
    specialize (Hp _ _ _ Hs Hl (H3 _ _ eq_refl)). lia.
Qed.

Lemma accepted_one m a : (length (accepted m a) ≤ 1)%nat.
Proof.
  destruct m; cbn [accepted]; try (cbn; lia).
  - destruct (queue_input _ _ _ _).1; cbn; lia.
  - destruct (local_input _ _ _ _).1; cbn; lia.
Qed.

Lemma run_ordered tr a : run tr a → focus_epoch a < u64_max → StronglySorted before tr ∧ trace_bound tr a.
Proof.
  induction 1 as [|tr a tr' b Hr IH Hs]; intros He.
  - split; [constructor|]. intros x Hx. by apply elem_of_nil in Hx.
  - pose proof (run_inv _ _ Hr) as Hi. pose proof (step_changes _ _ _ Hs) as Hc.
    pose proof (changes_epoch_le _ _ Hi Hc). destruct IH as [Hsort Hb]; [lia|].
    pose proof (changes_bound _ _ _ Hi Hb Hc He) as Hb'.
    destruct Hs as [m c|c d Hq]; [|by rewrite app_nil_r].
    pose proof (accepted_one m c). pose proof (accepted_bound m c tr) as Ha.
    destruct (accepted m c) as [|x [|y rest]]; [by rewrite app_nil_r| |cbn in *; lia].
    destruct (Ha x Hi Hb) as (Hall & Hx & Hp1 & Hp2); [by left|].
    split; [by apply StronglySorted_snoc|].
    intros y [Hy|Hy]%elem_of_app; [by apply Hb'|]. apply list_elem_of_singleton in Hy as ->.
    split; [lia|done].
Qed.

(** ** Reaping *)

(** Attachments are kept under their ids. *)
Definition keyed {S} (r : SessionRecord S) : Prop :=
  ∀ k at_, (k, at_) ∈ attachments r → attachment_id at_ = k.

Lemma remove_attachment_entries {S} att (r : SessionRecord S) e :
  e ∈ attachments (remove_attachment att r).2 ↔ e ∈ attachments r ∧ e.1 ≠ att.
Proof.
  unfold remove_attachment. destruct (bmap_get att (attachments r)) as [at_|] eqn:E.
  - assert (attachments (match input_lease r with
      | Some l => if bool_decide (lease_attachment_id l = att) then set_lease None r else r
      | None => r end) = attachments r) as Ha
      by (destruct (input_lease r); [destruct (bool_decide _)|]; done).
    cbn. rewrite Ha. unfold bmap_remove. rewrite list_elem_of_filter. tauto.
  - cbn. split; [|tauto]. intros He. split; [done|]. intros Heq. apply bmap_get_None in E. apply E.
    unfold bmap_keys. rewrite <- Heq. apply list_elem_of_In, in_map. by apply list_elem_of_In.
Qed.

Lemma remove_all_entries {S} ids (r : SessionRecord S) e :
  e ∈ attachments (foldl (λ r att, (remove_attachment att r).2) r ids) ↔
  e ∈ attachments r ∧ e.1 ∉ ids.
Proof.
  revert r. induction ids as [|x ids IH]; intros r; cbn.
  - split; [|tauto]. intros. split; [done|]. apply not_elem_of_nil.
  - rewrite IH, remove_attachment_entries, not_elem_of_cons. tauto.
Qed.

Lemma remove_all_lease {S} ids (r : SessionRecord S) l :
  input_lease (foldl (λ r att, (remove_attachment att r).2) r ids) = Some l → input_lease r = Some l.
Proof.
  revert r. induction ids as [|x ids IH]; intros r; cbn; [done|]. intros H%IH. revert H.
  unfold remove_attachment. destruct (bmap_get x (attachments r)); [|done]. cbn.
  destruct (input_lease r) eqn:E; [|by rewrite E]. destruct (bool_decide _); cbn; [done|]. by rewrite E.
Qed.

Lemma reap_record_fresh {S} now (r : SessionRecord S) :
  keyed r →
  (∀ l, input_lease (reap_record now r) = Some l → lease_expired now l = false) ∧
  (∀ k at_, (k, at_) ∈ attachments (reap_record now r) → attachment_stale now at_ = false).
Proof.
  intros Hk. unfold reap_record. set (r0 := match input_lease r with Some l => _ | None => r end).
  assert (attachments r0 = attachments r) as Ha.
  { unfold r0. destruct (input_lease r) as [l|]; [|done]. by destruct (lease_expired now l). }
  split.
  - intros l Hl. apply remove_all_lease in Hl. unfold r0 in Hl.
    destruct (input_lease r) as [l0|] eqn:E; [|congruence].
    destruct (lease_expired now l0) eqn:Ex; [done|]. rewrite E in Hl. by injection Hl as ->.
  - intros k at_ He. apply remove_all_entries in He as [He Hn].
    destruct (attachment_stale now at_) eqn:Es; [|done]. destruct Hn. cbn.
    rewrite Ha in He. rewrite <- (Hk _ _ He). apply list_elem_of_fmap. exists at_. split; [done|].
    apply list_elem_of_filter. split; [done|]. rewrite Ha. apply list_elem_of_fmap. by exists (k, at_).
Qed.

(** ** Theorems *)

Definition demo_target : SshTerminalInputFocusTarget :=
  mkSshTarget (lit "s") 1 5 (lit "c") (lit "a") (lit "v").

Definition demo_record : SessionRecord SshSessionState :=
  mkRecord Running (lit "s") 1 5 1 (Some (lit "c")) 1
    [(lit "a", mkAttachment (lit "a") (lit "try") (lit "s") 1 (Some (lit "c")) (lit "v") 5 1 0 0 0)]
    None 0 0 true [].

(** A running session with one attached view. *)
Definition demo_actor : Actor :=
  mkActor {[ lit "s" := demo_record ]} ∅ 0 None (mkLedger CONTROL_OPERATION_LEDGER_CAPACITY ∅ []).

Definition demo_change (op : str) (epoch : Z) : FocusChange :=
  mkFocusChange (mkEnvelope (lit "r") op (lit "key")) epoch (Some (SshTarget demo_target)).

Definition demo_input (epoch input_epoch seq : Z) (lease : str) : InputRequest :=
  mkInput (lit "r") (lit "s") 1 (lit "c") (lit "a") (lit "v") epoch lease input_epoch seq [120].

Lemma demo_quiet : quiet actor_new demo_actor.
Proof.
  split_and!; [done|done| |]; intros k r l Hr Hl; cbn in Hr.
  - apply lookup_singleton_Some in Hr as [<- <-]. done.
  - by rewrite lookup_empty in Hr.
Qed.

(** Focus, two inputs, the focus again, one more input. *)
Definition demo_messages : list Message :=
  [MFocusChange (demo_change (lit "o1") 0) 1000 (lit "l1");
   MInput (demo_input 1 1 1 (lit "l1")) 2000 true;
   MInput (demo_input 1 1 4 (lit "l1")) 2000 true;
   MInput (demo_input 1 1 4 (lit "l1")) 2000 true;
   MFocusChange (demo_change (lit "o2") 1) 3000 (lit "l2");
   MInput (demo_input 1 1 5 (lit "l1")) 4000 true;
   MInput (demo_input 2 2 1 (lit "l2")) 4000 true].

Fixpoint run_messages (ms : list Message) (a : Actor) : list (Z * Z) * Actor :=
  match ms with
  | [] => ([], a)
  | m :: ms => let '(tr, b) := run_messages ms (handle m a) in (accepted m a ++ tr, b)
  end.

Lemma run_messages_run ms tr a : run tr a → run (tr ++ (run_messages ms a).1) (run_messages ms a).2.
Proof.
  revert tr a. induction ms as [|m ms IH]; intros tr a Hr; cbn; [by rewrite app_nil_r|].
  specialize (IH _ _ (run_step _ _ _ _ Hr (step_message m a))).
  destruct (run_messages ms (handle m a)). cbn in *. by rewrite app_assoc.
Qed.

Lemma demo_run : run (run_messages demo_messages demo_actor).1 (run_messages demo_messages demo_actor).2.
Proof. apply (run_messages_run demo_messages []). apply (run_step [] _ [] _ run_new), step_other, demo_quiet. Qed.

(** C11. One pane types at a time. In every state the actor reaches, a lease of
    the current focus epoch is held by the session, attachment and view the
    focus names, leases of earlier epochs belong to sessions the focus does not
    name, and no lease is of a later epoch; so at most one session, over the
    SSH and the local ones together, holds a lease of the current epoch. *)
Theorem one_writer tr a :
  run tr a →
  focus_inv a ∧
  (∀ k k' r r' l l', sessions a !! k = Some r → input_lease r = Some l → lease_focus_epoch l = focus_epoch a →
    sessions a !! k' = Some r' → input_lease r' = Some l' → lease_focus_epoch l' = focus_epoch a →
    k = k') ∧
  (∀ k k' r r' l l', local_sessions a !! k = Some r → input_lease r = Some l → lease_focus_epoch l = focus_epoch a →
    local_sessions a !! k' = Some r' → input_lease r' = Some l' → lease_focus_epoch l' = focus_epoch a →
    k = k') ∧
  (∀ k k' r r' l l', sessions a !! k = Some r → input_lease r = Some l → lease_focus_epoch l = focus_epoch a →
    local_sessions a !! k' = Some r' → input_lease r' = Some l' → lease_focus_epoch l' ≠ focus_epoch a).
Proof.
  intros Hr%run_inv. split; [done|]. destruct Hr as (H1 & H2 & _).
  split_and!; intros k k' r r' l l' Hr Hl He Hr' Hl'.
  - intros He'. destruct (H1 _ _ _ Hr Hl) as (_ & P1 & _), (H1 _ _ _ Hr' Hl') as (_ & P2 & _).
    specialize (P1 He). specialize (P2 He'). congruence.
  - intros He'. destruct (H2 _ _ _ Hr Hl) as (_ & P1 & _), (H2 _ _ _ Hr' Hl') as (_ & P2 & _).
    specialize (P1 He). specialize (P2 He'). congruence.
  - intros He'. destruct (H1 _ _ _ Hr Hl) as (_ & P1 & _), (H2 _ _ _ Hr' Hl') as (_ & P2 & _).
    specialize (P1 He). specialize (P2 He'). destruct (focused_target a) as [[| | |]|]; done.
Qed.

Lemma one_writer_witness : focus_inv (run_messages demo_messages demo_actor).2.
Proof. exact (proj1 (one_writer _ _ demo_run)). Defined.

(** C7. Keystrokes are never replayed and never go back. Along any run, the
    keyboard inputs the actor accepts, into SSH and local sessions alike, have
    strictly increasing pairs of focus epoch and client sequence number (as
    long as the 64-bit epoch has not saturated): no input is accepted twice,
    none after a later one, and none from a pane that lost the focus since. *)
Theorem inputs_in_order tr a : run tr a → focus_epoch a < u64_max → StronglySorted before tr.
Proof. intros Hr He. by apply (run_ordered tr a). Qed.

(** The repeated input and the one of the lost focus are not accepted. *)
Lemma inputs_in_order_witness :
  (run_messages demo_messages demo_actor).1 = [(1, 1); (1, 4); (2, 1)] ∧
  StronglySorted before (run_messages demo_messages demo_actor).1.
Proof.
  split; [vm_compute; reflexivity|].
  apply (inputs_in_order _ _ demo_run). vm_compute. reflexivity.
Defined.

(** What it takes to type into an SSH session. In every state the actor
    reaches, an input is queued exactly when it is authorised and the shell's
    queue takes it; the lease that authorised it was issued at the current
    focus epoch, for the focused attachment. A queued input moves the session's
    sequence number to its own and appends its bytes to what the shell gets,
    and an input that is refused changes nothing. *)
Theorem input_exact tr a q now sent :
  run tr a →
  (∃ r l, authorised a q now r l ∧ sent = true ∧ lease_focus_epoch l = focus_epoch a ∧
    queue_input q now sent a =
      (inr tt, set_sessions (<[in_session_id q := accept_input (in_client_seq q) (in_bytes q) r]> (sessions a)) a))
  ∨ ((sent = false ∨ ∀ r l, ¬ authorised a q now r l) ∧ ∃ e, queue_input q now sent a = (inl e, a)).
Proof.
  intros (H1 & _)%run_inv. destruct (queue_input q now sent a) as [[e|[]] b] eqn:E.
  - right. split.
    + destruct sent; [right|by left]. intros r l Hr. by rewrite (authorised_accepts _ _ _ _ _ Hr) in E.
    + exists e. f_equal. revert E. unfold queue_input. repeat case_match; by intros [= ? ?].
  - left. destruct (accepted_authorised _ _ _ _ _ E) as (-> & r & l & Hr). exists r, l.
    split; [done|]. split; [done|]. rewrite (authorised_accepts _ _ _ _ _ Hr) in E. injection E as <-.
    split; [|done]. destruct Hr as (Hf & _ & Hs & _ & _ & _ & _ & Hl & _). rewrite Hf in H1.
    destruct (H1 _ _ _ Hs Hl) as (_ & _ & H3). by apply (H3 _ _ eq_refl).
Qed.

Lemma input_exact_witness :
  ∃ e, queue_input (demo_input 1 1 9 (lit "l1")) 4000 true (run_messages demo_messages demo_actor).2 =
    (inl e, (run_messages demo_messages demo_actor).2).
Proof.
  destruct (input_exact _ _ (demo_input 1 1 9 (lit "l1")) 4000 true demo_run) as [(r & l & Hr & _)|(_ & H)];
    [|exact H].
  destruct Hr as (_ & He & _). vm_compute in He. discriminate He.
Defined.

Lemma set_lease_id {S} (r : SessionRecord S) : set_lease (input_lease r) r = r.
Proof. by destruct r. Qed.

(** Dropping the focus leaves a record but for its lease. *)
Lemma drop_focus_record a k r :
  sessions a !! k = Some r → ∃ l, sessions (drop_focus a) !! k = Some (set_lease l r).
Proof.
  intros Hr. unfold drop_focus, revoke_focused_lease.
  destruct (focused_target a) as [[t|t|t|t]|]; cbn;
    try (exists (input_lease r); by rewrite set_lease_id).
  destruct (decide (k = st_session_id t)) as [->|Hne].
  - exists None. by rewrite lookup_alter_eq, Hr.
  - exists (input_lease r). by rewrite lookup_alter_ne, set_lease_id by done.
Qed.

(** The focus lets its pane type. A focus change that succeeds for an SSH
    pane, whose session has its shell and whose attachment shows the channel,
    returns a lease with which that pane can type from the first sequence
    number on, for the next 15 seconds: every such input of 1 to 65536 bytes
    that the shell's queue takes is queued, in the very next state and
    whatever session held the focus before. *)
Theorem focus_grants_input a f t now fresh resp a' q now' :
  fc_target f = Some (SshTarget t) →
  terminal_focus_change_once f now fresh a = (Ok (inr resp), a') →
  (∀ r at_, sessions a !! st_session_id t = Some r →
    bmap_get (st_attachment_id t) (attachments r) = Some at_ →
    writer r = true ∧ attachment_resource at_ = Some (st_channel_id t)) →
  i64_min ≤ now → now ≤ now' < now + INPUT_LEASE_MILLIS → now + INPUT_LEASE_MILLIS ≤ i64_max →
  (∃ l, response_lease resp = Some (SshLease l) ∧
    q = mkInput (in_request_id q) (st_session_id t) (st_generation t) (st_channel_id t)
          (st_attachment_id t) (st_view_id t) (response_focus_epoch resp) (lease_id l)
          (lease_input_epoch l) (in_client_seq q) (in_bytes q)) →
  0 < in_client_seq q → 1 ≤ zlen (in_bytes q) ≤ SSH_TERMINAL_OUTPUT_FRAME_MAX_BYTES →
  (queue_input q now' true a').1 = inr tt.
Proof.
  intros Ht Hf Hok Hmin Hnow Hmax (l & Hl & Hq) Hseq Hb. revert Hf. unfold terminal_focus_change_once.
  rewrite Ht. destruct (bool_decide _); [|done]. cbn [check_target].
  destruct (sessions a !! st_session_id t) as [r|] eqn:Er; [|done].
  destruct (validate_attachment _ _ _ _ _ _) as [e|[]] eqn:Ev; [done|].
  destruct (_ && _) eqn:Ec; [|done]. bprop.
  apply validate_attachment_Ok in Ev as (Hg & at_ & Ha & Hag & Hav).
  destruct (Hok _ _ eq_refl Ha) as [Hw Har]. cbn [issue_lease].
  destruct (drop_focus_record a _ r Er) as (l0 & ->). cbn [mbind option_bind grant].
  intros [= <- <-]. cbn [response_lease response_focus_epoch] in *. injection Hl as <-. cbn in Hq.
  rewrite (authorised_accepts _ q now' (grant (st_attachment_id t) (st_view_id t)
    (focus_epoch (drop_focus a)) now fresh (set_lease l0 r)).2 (grant (st_attachment_id t) (st_view_id t)
    (focus_epoch (drop_focus a)) now fresh (set_lease l0 r)).1); [done|].
  rewrite Hq. unfold authorised. cbn. rewrite lookup_insert_eq.
  split_and!; try done; try congruence.
  - do 2 f_equal. destruct t; cbn in *; congruence.
  - exists at_. split_and!; done.
  - unfold i64_saturating_add, INPUT_LEASE_MILLIS in *. lia.
  - intros Hn. rewrite Hn, zlen_nil in Hb. lia.
  - lia.
Qed.

Lemma focus_grants_input_witness :
  let f := demo_change (lit "o1") 0 in
  let '(res, a') := terminal_focus_change_once f 1000 (lit "l1") demo_actor in
  (queue_input (demo_input 1 1 1 (lit "l1")) 15999 true a').1 = inr tt.
Proof.
  intros f.
  destruct (terminal_focus_change_once f 1000 (lit "l1") demo_actor) as [res a'] eqn:E.
  assert (∃ l, res = Ok (inr (mkFocusResponse 1 (Some (SshTarget demo_target)) (Some (SshLease l)))) ∧
    lease_id l = lit "l1" ∧ lease_input_epoch l = 1) as (l & -> & Hi & He).
  { apply (f_equal fst) in E. vm_compute in E. subst res. eexists. split; [reflexivity|]. done. }
  refine (focus_grants_input demo_actor f demo_target 1000 (lit "l1") _ a' _ 15999
    eq_refl E _ _ _ _ _ _ _).
  - intros r at_ Hr Ha. vm_compute in Hr. injection Hr as <-. vm_compute in Ha. injection Ha as <-.
    split; reflexivity.
  - vm_compute. discriminate.
  - unfold INPUT_LEASE_MILLIS. lia.
  - vm_compute. discriminate.
  - exists l. split; [reflexivity|]. rewrite Hi, He. reflexivity.
  - cbn. lia.
  - cbn. unfold zlen, SSH_TERMINAL_OUTPUT_FRAME_MAX_BYTES. cbn. lia.
Defined.

Lemma drop_focus_keyed a :
  (∀ k r, sessions a !! k = Some r → keyed r) → (∀ k r, local_sessions a !! k = Some r → keyed r) →
  (∀ k r, sessions (drop_focus a) !! k = Some r → keyed r) ∧
  (∀ k r, local_sessions (drop_focus a) !! k = Some r → keyed r).
Proof.
  intros Hs Hl. unfold drop_focus, revoke_focused_lease.
  destruct (focused_target a) as [[t|t|t|t]|]; cbn; (split; [|try done]); try done.
  - intros k r [(_ & r0 & Hk & ->)|[_ Hk]]%lookup_alter_Some; [|eauto]. by apply (Hs _ _ Hk).
  - intros k r [(_ & r0 & Hk & ->)|[_ Hk]]%lookup_alter_Some; [|eauto]. by apply (Hl _ _ Hk).
Qed.

Lemma reap_fresh {S} now (r : SessionRecord S) :
  keyed r →
  (∀ l, input_lease (reap_record now r) = Some l → now < expires_at_unix_ms l) ∧
  (∀ j at_, (j, at_) ∈ attachments (reap_record now r) →
    i64_saturating_sub now (last_seen_at_unix_ms at_) < ATTACHMENT_HEARTBEAT_TIMEOUT_MILLIS).
Proof.
  intros [H1 H2]%(reap_record_fresh now). split.
  - intros l Hl. specialize (H1 _ Hl). unfold lease_expired in H1. by bprop.
  - intros j at_ Ha. specialize (H2 _ _ Ha). unfold attachment_stale in H2. by bprop.
Qed.

(** Silent panes lose the focus. The reaper drops the focus, and starts a
    new epoch, exactly when the lease of the focused session is gone or
    expired or its attachment is gone or has not been heard of for 45 seconds;
    afterwards no session holds an expired lease or shows an attachment that
    has been silent that long, for SSH and local sessions alike. *)
Theorem reap_clears now a :
  (∀ k r, sessions a !! k = Some r → keyed r) →
  (∀ k r, local_sessions a !! k = Some r → keyed r) →
  let stale := match focused_target a with
    | Some (SshTarget t) => focus_is_stale now (st_attachment_id t) (sessions a !! st_session_id t)
    | Some (LocalTarget t) => focus_is_stale now (lt_attachment_id t) (local_sessions a !! lt_session_id t)
    | _ => false
    end in
  let b := reap_stale_attachments now a in
  (focused_target b, focus_epoch b) =
    (if stale then (None, next_seq (focus_epoch a)) else (focused_target a, focus_epoch a)) ∧
  (∀ k r, sessions b !! k = Some r →
    (∀ l, input_lease r = Some l → now < expires_at_unix_ms l) ∧
    (∀ j at_, (j, at_) ∈ attachments r →
      i64_saturating_sub now (last_seen_at_unix_ms at_) < ATTACHMENT_HEARTBEAT_TIMEOUT_MILLIS)) ∧
  (∀ k r, local_sessions b !! k = Some r →
    (∀ l, input_lease r = Some l → now < expires_at_unix_ms l) ∧
    (∀ j at_, (j, at_) ∈ attachments r →
      i64_saturating_sub now (last_seen_at_unix_ms at_) < ATTACHMENT_HEARTBEAT_TIMEOUT_MILLIS)).
Proof.
  intros Hs Hl stale b.
  set (c := if stale then drop_focus a else a).
  assert (sessions b = reap_record now <$> sessions c) as Hbs by done.
  assert (local_sessions b = reap_record now <$> local_sessions c) as Hbl by done.
  destruct (drop_focus_keyed a Hs Hl) as [Ks Kl].
  split; [|split].
  - change (focused_target b) with (focused_target c). change (focus_epoch b) with (focus_epoch c).
    unfold c. destruct stale; [|done]. by destruct (drop_focus_dropped a) as (-> & -> & _).
  - intros k r Hr. rewrite Hbs, lookup_fmap in Hr. destruct (sessions c !! k) as [r0|] eqn:E; [|done].
    injection Hr as <-. apply reap_fresh. unfold c in E. destruct stale; [by apply (Ks k)|by apply (Hs k)].
  - intros k r Hr. rewrite Hbl, lookup_fmap in Hr. destruct (local_sessions c !! k) as [r0|] eqn:E; [|done].
    injection Hr as <-. apply reap_fresh. unfold c in E. destruct stale; [by apply (Kl k)|by apply (Hl k)].
Qed.

Lemma reap_clears_witness :
  let a := handle (MFocusChange (demo_change (lit "o1") 0) 1000 (lit "l1")) demo_actor in
  focused_target a = Some (SshTarget demo_target) ∧
  (focused_target (reap_stale_attachments 15999 a), focus_epoch (reap_stale_attachments 15999 a)) =
    (Some (SshTarget demo_target), 1) ∧
  (focused_target (reap_stale_attachments 16000 a), focus_epoch (reap_stale_attachments 16000 a)) = (None, 2).
Proof.
  intros a.
  assert (∀ k r, sessions a !! k = Some r → keyed r) as Hs.
  { intros k r Hr. change (sessions a) with
      ({[ lit "s" := (grant (lit "a") (lit "v") 1 1000 (lit "l1") demo_record).2 ]} : gmap str _) in Hr.
    apply lookup_singleton_Some in Hr as [_ <-]. intros j at_ Hj.
    apply list_elem_of_singleton in Hj. injection Hj as -> ->. reflexivity. }
  assert (∀ k r, local_sessions a !! k = Some r → keyed r) as Hl.
  { intros k r Hr. change (local_sessions a) with (∅ : gmap str (SessionRecord LocalSessionState)) in Hr.
    by rewrite lookup_empty in Hr. }
  split; [vm_compute; reflexivity|].
  destruct (reap_clears 15999 a Hs Hl) as [H1 _]. destruct (reap_clears 16000 a Hs Hl) as [H2 _].
  split; [rewrite H1|rewrite H2]; vm_compute; reflexivity.
Defined.

End Focus.
