(* ===== verification/SessionLifecycle.v ===== *)
(** * The life of an SSH session

    The handlers of src-tauri/src/ssh_session_service.rs that open, connect,
    detach, disconnect, fail, close and reconnect an SSH session, on top of the
    focus and lease state of [TerminalFocus]. They are shown to be steps of
    the environment of that model, so that its theorems hold for the runs of
    both together; and to keep the two promises the renderer relies on: a
    session does not change its state behind a fence, and the last view of a
    live session is not closed without the confirmation the code asks for.

    Resolving a connection profile and the tasks that connect are outside: an
    operation takes the outcome of the resolution, and the messages of a
    connection task arrive as messages of the actor. Host-key and keyboard
    challenges, heartbeats, login automation, shared channels and the events
    sent to attachments are left out. *)

From S2P Require Import Prelude RustStr BTree OperationLedger TerminalFocus.

Module Lifecycle.
Import Ledger Focus.

Inductive SshSessionCloseReason : Type :=
| UserRequested | LastAttachmentConfirmed | ApplicationExit | RemoteEof
| RemoteExitStatus (exit_status : Z) | RemoteExitSignal (signal_name : str).

#[global] Instance close_reason_eq : EqDecision SshSessionCloseReason.
Proof. solve_decision. Defined.

Definition plugin_authorization_error (rid : str) : CoreApiError :=
  core_error rid (lit "plugin.permission_denied") Permission Never (lit "errors.plugin.capabilityDenied").

Section Sessions.
(** The failure reasons of the core API: stored and compared. *)
Context {Reason : Type} `{EqDecision Reason}.

(** ** State *)

(** The rest of a [SessionRecord]: why it ended, the stop signal of its shell,
    and whether a plugin's startup opened it. *)
Record Extra := mkExtra {
  close_reason : option SshSessionCloseReason;
  failure_reason : option Reason;
  shell_stop : bool;
  terminal_startup : bool }.

Record SessionActor := mkSessionActor {
  actor : Actor;
  extras : gmap str Extra;
  live_sessions : gset str;
  snapshot_revision : Z }.

Definition session_actor_new : SessionActor := mkSessionActor actor_new ∅ ∅ 0.

Definition extra (s : SessionActor) (sid : str) : Extra :=
  default (mkExtra None None false false) (extras s !! sid).

Definition on_actor (f : Actor → Actor) (s : SessionActor) : SessionActor :=
  mkSessionActor (f (actor s)) (extras s) (live_sessions s) (snapshot_revision s).

Definition put (sid : str) (r : SessionRecord SshSessionState) (x : Extra) (s : SessionActor) : SessionActor :=
  mkSessionActor (set_sessions (<[sid := r]> (sessions (actor s))) (actor s)) (<[sid := x]> (extras s))
    (live_sessions s) (snapshot_revision s).

Definition bump_snapshot (s : SessionActor) : SessionActor :=
  mkSessionActor (actor s) (extras s) (live_sessions s) (next_seq (snapshot_revision s)).

Definition remove_live (sid : str) (s : SessionActor) : SessionActor :=
  mkSessionActor (actor s) (extras s) (live_sessions s ∖ {[sid]}) (snapshot_revision s).

Definition insert_live (sid : str) (s : SessionActor) : SessionActor :=
  mkSessionActor (actor s) (extras s) ({[sid]} ∪ live_sessions s) (snapshot_revision s).

Definition set_state (st : SshSessionState) (r : SessionRecord SshSessionState) : SessionRecord SshSessionState :=
  mkRecord st (session_id r) (generation r) (next_seq (state_revision r)) (record_attachment_revision r)
    (resource_id r) (attachment_count r) (attachments r) (input_lease r) (next_input_epoch r)
    (last_client_seq r) (writer r) (written r).

Definition set_writer (w : bool) (r : SessionRecord SshSessionState) : SessionRecord SshSessionState :=
  mkRecord (state r) (session_id r) (generation r) (state_revision r) (record_attachment_revision r)
    (resource_id r) (attachment_count r) (attachments r) (input_lease r) (next_input_epoch r)
    (last_client_seq r) w (written r).

(** ** Transitions *)

Definition transition_record (st : SshSessionState) (close : option SshSessionCloseReason)
    (failure : option Reason) (r : SessionRecord SshSessionState) (x : Extra)
  : SessionRecord SshSessionState * Extra :=
  if bool_decide (state r = st) && bool_decide (close_reason x = close) &&
     bool_decide (failure_reason x = failure)
  then (r, x)
  else (set_state st r, mkExtra close failure (shell_stop x) (terminal_startup x)).

(** [request_shell_stop]: [watch] and [mailbox] tell whether the two ways to
    reach the shell still work. *)
Definition request_shell_stop (watch mailbox : bool) (r : SessionRecord SshSessionState) (x : Extra)
  : bool * Extra :=
  ((shell_stop x && watch) || (writer r && mailbox),
   mkExtra (close_reason x) (failure_reason x) false (terminal_startup x)).

Definition of_session (sid : str) (t : TerminalInputFocusTarget) : bool :=
  match t with SshTarget t => bool_decide (st_session_id t = sid) | _ => false end.

Definition ended (st : SshSessionState) : bool :=
  match st with Closed | Failed => true | _ => false end.

Definition transition (sid : str) (st : SshSessionState) (close : option SshSessionCloseReason)
    (failure : option Reason) (s : SessionActor) : SessionActor :=
  let s := if bool_decide (st = Running) then s else on_actor (clear_focus_if (of_session sid)) s in
  match sessions (actor s) !! sid with
  | None => s
  | Some r =>
      let x := extra s sid in
      let x := if bool_decide (st = Failed) then (request_shell_stop false false r x).2 else x in
      let '(r, x) := transition_record st close failure r x in
      let s := put sid r x s in
      let s := if ended st && negb (writer r) then remove_live sid s else s in
      bump_snapshot s
  end.

Definition generation_matches (s : SessionActor) (sid : str) (gen : Z) : bool :=
  match sessions (actor s) !! sid with
  | Some r => bool_decide (generation r = gen)
  | None => false
  end.

Definition connection_active (s : SessionActor) (sid : str) (gen : Z) : bool :=
  match sessions (actor s) !! sid with
  | Some r => bool_decide (generation r = gen) &&
              match state r with Closed | Failed | Disconnecting => false | _ => true end
  | None => false
  end.

(** [Message::ConnectionState]. *)
Definition connection_state (sid : str) (gen : Z) (st : SshSessionState) (s : SessionActor) : SessionActor :=
  if connection_active s sid gen then transition sid st None None s else s.

Definition shell_closed (sid : str) (gen : Z) (reason : SshSessionCloseReason) (s : SessionActor)
  : SessionActor :=
  if generation_matches s sid gen then
    let s := on_actor (clear_focus_if (λ t, of_session sid t &&
      match t with SshTarget t => bool_decide (st_generation t = gen) | _ => false end)) s in
    let s := match sessions (actor s) !! sid with
             | Some r => let x := extra s sid in
                 put sid (set_writer false (set_lease None r))
                   (mkExtra (close_reason x) (failure_reason x) false (terminal_startup x)) s
             | None => s
             end in
    transition sid Closed (Some reason) None s
  else s.

Definition shell_cleanup_completed (sid : str) (gen : Z) (s : SessionActor) : SessionActor :=
  match sessions (actor s) !! sid with
  | Some r =>
      if bool_decide (generation r = gen) then
        let x := extra s sid in
        let s := put sid (set_writer false r)
          (mkExtra (close_reason x) (failure_reason x) false (terminal_startup x)) s in
        if ended (state r) then remove_live sid s else s
      else s
  | None => s
  end.

(** [connection_failure], to which [connection_failed] passes its reason. *)
Definition connection_failure (sid : str) (gen : Z) (failure : Reason) (s : SessionActor) : SessionActor :=
  if match sessions (actor s) !! sid with
     | Some r => bool_decide (generation r = gen) && bool_decide (state r = Disconnecting)
     | None => false
     end
  then shell_closed sid gen UserRequested s
  else if connection_active s sid gen then transition sid Failed None (Some failure) s
  else s.

(** [shell_ready]: the channel of a session that was opening it; [automation]
    tells whether a login automation runs first. *)
Definition show_channel (channel : str) (state_rev rev : Z) (a : AttachmentRecord) : AttachmentRecord :=
  mkAttachment (attachment_id a) (attach_attempt_id a) (attachment_session_id a) (attachment_generation a)
    (Some channel) (view_id a) state_rev rev (attached_at_unix_ms a) (last_seen_at_unix_ms a)
    (last_resize_seq a).

Definition shell_ready (sid : str) (gen : Z) (automation : bool) (channel : str) (s : SessionActor)
  : SessionActor :=
  match sessions (actor s) !! sid with
  | Some r =>
      if bool_decide (generation r = gen) && bool_decide (state r = OpeningChannel) then
        let x := extra s sid in
        let rev := next_seq (record_attachment_revision r) in
        let atts := (λ e : str * AttachmentRecord,
          (e.1, show_channel channel (next_seq (state_revision r)) rev e.2)) <$> attachments r in
        let r := mkRecord (state r) (session_id r) (generation r) (state_revision r) rev (Some channel)
          (attachment_count r) atts (input_lease r) (next_input_epoch r) (last_client_seq r) true
          (written r) in
        let x := mkExtra (close_reason x) (failure_reason x) true (terminal_startup x) in
        let '(r, x) := transition_record (if automation then AutomatingLogin else Running) None None r x in
        bump_snapshot (put sid r x s)
      else s
  | None => s
  end.

(** ** Requests *)

(** [open_once]: [startup] is the plugin startup with its currency check,
    [resolved] the outcome of resolving the profile, and the ids are fresh. *)
Record OpenFields := mkOpen {
  oq_request_id : str; oq_attempt : str; oq_view_id : str; oq_rows : Z; oq_cols : Z }.

Definition open_once (q : OpenFields) (startup : option bool) (resolved : ActorResult unit) (now : Z)
    (sid att : str) (s : SessionActor) : ActorResult (SessionRecord SshSessionState) * SessionActor :=
  let rid := oq_request_id q in
  if (oq_rows q =? 0) || (oq_cols q =? 0) then (inl (validation_error rid), s)
  else if bool_decide (startup = Some false) then (inl (plugin_authorization_error rid), s)
  else match startup, resolved with
    | None, inl e => (inl e, s)
    | _, _ =>
        let a := mkAttachment att (oq_attempt q) sid 1 None (oq_view_id q) 1 1 now now 0 in
        let r := mkRecord Resolving sid 1 1 1 None 1 [(att, a)] None 0 0 false [] in
        let x := mkExtra None None false (bool_decide (is_Some startup)) in
        let s := bump_snapshot (insert_live sid (put sid r x s)) in
        let s := match startup with
                 | Some _ => let '(r, x) := transition_record OpeningChannel None None r x in put sid r x s
                 | None => s
                 end in
        (inr r, s)
    end.

Record SessionFence := mkSessionFence { sf_request_id : str; sf_session_id : str; sf_generation : Z; sf_state_revision : Z }.

Definition disconnect_once (q : SessionFence) (watch mailbox : bool) (s : SessionActor)
  : ActorResult (SessionRecord SshSessionState) * SessionActor :=
  let rid := sf_request_id q in
  let sid := sf_session_id q in
  match sessions (actor s) !! sid with
  | None => (inl (not_found_error rid), s)
  | Some r =>
      if negb (bool_decide (generation r = sf_generation q) &&
               bool_decide (state_revision r = sf_state_revision q))
      then (inl (conflict_error rid), s)
      else if ended (state r) then (inr r, s)
      else
        let s := on_actor (clear_focus_if (of_session sid)) s in
        match sessions (actor s) !! sid with
        | None => (inl (not_found_error rid), s)
        | Some r =>
            if writer r then
              let '(ok, x) := request_shell_stop watch mailbox r (extra s sid) in
              if ok then
                let '(r, x) := transition_record Disconnecting None None r x in
                (inr r, put sid r x s)
              else (inl (unavailable_error rid), put sid r x s)
            else
              let s := transition sid Closed (Some UserRequested) None s in
              match sessions (actor s) !! sid with
              | Some r => (inr r, s)
              | None => (inl (not_found_error rid), s)
              end
        end
  end.

Inductive DetachResult : Type :=
| Detached (remaining : Z)
| ConfirmationRequired (state_revision attachment_revision : Z)
| DisconnectingResult
| DisconnectedAndDetached
| KeptAttached.

Record DetachFields := mkDetach {
  dq_fence : SessionFence;
  dq_attachment_id : str;
  dq_view_id : str;
  dq_intent : SshSessionDetachIntent;
  dq_confirmation : option SshSessionLastDetachConfirmation }.

(** A confirmed end of the last view: the [confirmation] block of
    [detach_once]; [None] where the code goes on to remove the attachment. *)
Definition confirmed_end (sid rid : str) (watch mailbox : bool) (r : SessionRecord SshSessionState)
    (s : SessionActor) : option (ActorResult DetachResult) * SessionActor :=
  if writer r then
    let '(ok, x) := request_shell_stop watch mailbox r (extra s sid) in
    if ok then
      let '(r, x) := transition_record Disconnecting None None r x in
      (Some (inr DisconnectingResult), bump_snapshot (put sid r x s))
    else (Some (inl (unavailable_error rid)), put sid r x s)
  else
    let '(r, x) := transition_record Closed (Some LastAttachmentConfirmed) None r (extra s sid) in
    (None, remove_live sid (put sid r x s)).

(** The removal at the end of [detach_once]. *)
Definition detach_remove (sid rid att : str) (last_active : bool) (s : SessionActor)
  : ActorResult DetachResult * SessionActor :=
  match sessions (actor s) !! sid with
  | None => (inl (not_found_error rid), s)
  | Some r =>
      match remove_attachment att r with
      | (None, _) => (inl (not_found_error rid), s)
      | (Some _, r) =>
          (inr (if last_active then DisconnectedAndDetached else Detached (attachment_count r)),
           bump_snapshot (put sid r (extra s sid) s))
      end
  end.

Definition detach_once (q : DetachFields) (watch mailbox : bool) (s : SessionActor)
  : ActorResult DetachResult * SessionActor :=
  let f := dq_fence q in
  let rid := sf_request_id f in
  let sid := sf_session_id f in
  match sessions (actor s) !! sid with
  | None => (inl (not_found_error rid), s)
  | Some r =>
      match validate_attachment (conflict_error rid) (not_found_error rid) (sf_generation f)
              (dq_attachment_id q) (dq_view_id q) r with
      | inl e => (inl e, s)
      | inr _ =>
          if negb (bool_decide (state_revision r = sf_state_revision f)) ||
             match dq_confirmation q with
             | Some c => negb (bool_decide (confirmed_state_revision c = state_revision r) &&
                               bool_decide (confirmed_attachment_revision c = record_attachment_revision r))
             | None => false
             end
          then (inl (conflict_error rid), s)
          else
            let s := on_actor (clear_focus_if (λ t, of_session sid t &&
              match t with
              | SshTarget t => bool_decide (st_attachment_id t = dq_attachment_id q) &&
                               bool_decide (st_view_id t = dq_view_id q)
              | _ => false
              end)) s in
            match sessions (actor s) !! sid with
            | None => (inl (not_found_error rid), s)
            | Some r =>
                let last_active := (length (attachments r) =? 1)%nat && negb (ended (state r)) in
                match dq_intent q, dq_confirmation q with
                | RendererUnavailable, Some _ => (inl (validation_error rid), s)
                | RendererUnavailable, None => detach_remove sid rid (dq_attachment_id q) false s
                | UserClose, None =>
                    if last_active
                    then (inr (ConfirmationRequired (state_revision r) (record_attachment_revision r)), s)
                    else detach_remove sid rid (dq_attachment_id q) last_active s
                | UserClose, Some c =>
                    match action c with
                    | KeepAttached => (inr KeptAttached, s)
                    | DisconnectAndDetach =>
                        match confirmed_end sid rid watch mailbox r s with
                        | (Some res, s) => (res, s)
                        | (None, s) => detach_remove sid rid (dq_attachment_id q) last_active s
                        end
                    end
                end
            end
      end
  end.

(** [reconnect_once]: [resolved] is the outcome of resolving the profile, and
    [fresh] the new ids of the attachments and of their attempts. *)
Record ReconnectFields := mkReconnect {
  rq_fence : SessionFence; rq_attachment_id : str; rq_view_id : str; rq_rows : Z; rq_cols : Z }.

(** The attachments of the previous generation, in order, under new ids. *)
Fixpoint reissue (sid : str) (gen state_rev rev now : Z) (fresh : nat → str * str) (n : nat)
    (atts issued : list (str * AttachmentRecord)) : list (str * AttachmentRecord) :=
  match atts with
  | [] => issued
  | (_, a) :: atts =>
      let '(att, attempt) := fresh n in
      reissue sid gen state_rev rev now fresh (S n) atts
        (bmap_insert att (mkAttachment att attempt sid gen None (view_id a) state_rev rev now now 0) issued)
  end.

(** The record of the new generation, before the transition to [Resolving]. *)
Definition renew_record (gen : Z) (r : SessionRecord SshSessionState) : SessionRecord SshSessionState :=
  mkRecord (state r) (session_id r) gen (state_revision r) (next_seq (record_attachment_revision r)) None
    (attachment_count r) (attachments r) None 0 0 false [].

Definition set_attachment_list (atts : list (str * AttachmentRecord)) (r : SessionRecord SshSessionState)
  : SessionRecord SshSessionState :=
  mkRecord (state r) (session_id r) (generation r) (state_revision r) (record_attachment_revision r)
    (resource_id r) (attachment_count r) atts (input_lease r) (next_input_epoch r) (last_client_seq r)
    (writer r) (written r).

Definition reconnect_once (q : ReconnectFields) (resolved : ActorResult unit) (now : Z)
    (fresh : nat → str * str) (s : SessionActor) : ActorResult (SessionRecord SshSessionState) * SessionActor :=
  let f := rq_fence q in
  let rid := sf_request_id f in
  let sid := sf_session_id f in
  if (rq_rows q =? 0) || (rq_cols q =? 0) then (inl (validation_error rid), s)
  else match sessions (actor s) !! sid with
    | None => (inl (not_found_error rid), s)
    | Some r =>
        if terminal_startup (extra s sid) then (inl (plugin_authorization_error rid), s)
        else
          match validate_attachment (conflict_error rid) (not_found_error rid) (sf_generation f)
                  (rq_attachment_id q) (rq_view_id q) r, resolved,
                checked_add u64_max (sf_generation f) 1 with
          | inl e, _, _ => (inl e, s)
          | inr _, resolved, gen =>
              if negb (bool_decide (generation r = sf_generation f) &&
                       bool_decide (state_revision r = sf_state_revision f) && ended (state r))
              then (inl (conflict_error rid), s)
              else match resolved, gen with
                | inl e, _ => (inl e, s)
                | inr _, None => (inl (conflict_error rid), s)
                | inr _, Some gen =>
                    let s := on_actor (clear_focus_if (of_session sid)) s in
                    match sessions (actor s) !! sid with
                    | None => (inl (not_found_error rid), s)
                    | Some r =>
                        let x := (request_shell_stop false false r (extra s sid)).2 in
                        let '(r, x) := transition_record Resolving None None (renew_record gen r) x in
                        let r := set_attachment_list
                          (reissue (session_id r) gen (state_revision r) (record_attachment_revision r) now
                             fresh 0 (attachments r) []) r in
                        let s := bump_snapshot (insert_live sid (put sid r x s)) in
                        if existsb (λ e, bool_decide (view_id e.2 = rq_view_id q)) (attachments r)
                        then (inr r, s) else (inl (conflict_error rid), s)
                    end
                end
          end
    end.

(** ** Messages and runs *)

Inductive SessionMessage : Type :=
| SFocus (m : Message)
| SOpen (q : OpenFields) (startup : option bool) (resolved : ActorResult unit) (now : Z) (sid att : str)
| SConnectionState (sid : str) (gen : Z) (st : SshSessionState)
| SShellReady (sid : str) (gen : Z) (automation : bool) (channel : str)
| SShellClosed (sid : str) (gen : Z) (reason : SshSessionCloseReason)
| SShellCleanup (sid : str) (gen : Z)
| SConnectionFailure (sid : str) (gen : Z) (failure : Reason)
| SDisconnect (q : SessionFence) (watch mailbox : bool)
| SDetach (q : DetachFields) (watch mailbox : bool)
| SReconnect (q : ReconnectFields) (resolved : ActorResult unit) (now : Z) (fresh : nat → str * str).

Definition session_handle (m : SessionMessage) (s : SessionActor) : SessionActor :=
  match m with
  | SFocus m => on_actor (handle m) s
  | SOpen q startup resolved now sid att => (open_once q startup resolved now sid att s).2
  | SConnectionState sid gen st => connection_state sid gen st s
  | SShellReady sid gen automation channel => shell_ready sid gen automation channel s
  | SShellClosed sid gen reason => shell_closed sid gen reason s
  | SShellCleanup sid gen => shell_cleanup_completed sid gen s
  | SConnectionFailure sid gen failure => connection_failure sid gen failure s
  | SDisconnect q watch mailbox => (disconnect_once q watch mailbox s).2
  | SDetach q watch mailbox => (detach_once q watch mailbox s).2
  | SReconnect q resolved now fresh => (reconnect_once q resolved now fresh s).2
  end.

Definition session_accepted (m : SessionMessage) (s : SessionActor) : list (Z * Z) :=
  match m with SFocus m => accepted m (actor s) | _ => [] end.

(** A run of the actor from its start; the local sessions, whose processes
    are not modelled, may change between messages as the focus model allows. *)
Inductive session_run : list (Z * Z) → SessionActor → Prop :=
| session_run_new : session_run [] session_actor_new
| session_run_message tr s m :
    session_run tr s → session_run (tr ++ session_accepted m s) (session_handle m s)
| session_run_local tr s m' :
    session_run tr s → kept (local_sessions (actor s)) m' →
    session_run tr (on_actor (set_local_sessions m') s).

(** ** The handlers are steps of the focus model's environment *)

Definition steps : Actor → Actor → Prop := rtc (λ a b, step a [] b).

Lemma steps_quiet a b : quiet a b → steps a b.
Proof. intros H. apply rtc_once. by apply step_other. Qed.

Lemma steps_clear p a : steps a (clear_focus_if p a).
Proof. apply rtc_once. apply (step_message (MClear p) a). Qed.

Lemma steps_record sid r r' x s :
  sessions (actor s) !! sid = Some r → record_kept r r' → steps (actor s) (actor (put sid r' x s)).
Proof. intros. apply steps_quiet. cbn. by eapply quiet_ssh. Qed.

Lemma steps_trans a b c : steps a b → steps b c → steps a c.
Proof. unfold steps. intros. by etrans. Qed.

Lemma run_steps tr a b : run tr a → steps a b → run tr b.
Proof.
  intros Hr Hs. revert Hr. induction Hs as [a|a b c Hab _ IH]; [done|]. intros Hr. apply IH.
  rewrite <- (app_nil_r tr). by eapply run_step.
Qed.

(** Records that differ outside the lease and the sequence number. *)
Lemma record_kept_same {S} (r r' : SessionRecord S) :
  input_lease r' = input_lease r → last_client_seq r' = last_client_seq r → record_kept r r'.
Proof. intros Hl Hs l. rewrite Hl, Hs. intros. exists l. split_and!; done. Qed.

Lemma record_kept_none {S} (r r' : SessionRecord S) : input_lease r' = None → record_kept r r'.
Proof. intros Hl l. by rewrite Hl. Qed.

Lemma transition_record_kept st close failure r x :
  record_kept r (transition_record st close failure r x).1.
Proof.
  unfold transition_record. destruct (_ && _); [apply record_kept_refl|by apply record_kept_same].
Qed.

Lemma transition_steps sid st close failure s :
  steps (actor s) (actor (transition sid st close failure s)).
Proof.
  unfold transition. set (s0 := if bool_decide (st = Running) then s else _).
  apply steps_trans with (actor s0).
  { unfold s0. destruct (bool_decide _); [apply rtc_refl|apply steps_clear]. }
  destruct (sessions (actor s0) !! sid) as [r|] eqn:E; [|apply rtc_refl].
  set (x := if bool_decide (st = Failed) then _ else _).
  pose proof (transition_record_kept st close failure r x) as Hk.
  destruct (transition_record st close failure r x) as [r' x'].
  destruct (ended st && _); by eapply steps_record.
Qed.

Lemma shell_closed_steps sid gen reason s : steps (actor s) (actor (shell_closed sid gen reason s)).
Proof.
  unfold shell_closed. destruct (generation_matches s sid gen); [|apply rtc_refl].
  set (s0 := on_actor _ s). apply steps_trans with (actor s0); [apply steps_clear|].
  destruct (sessions (actor s0) !! sid) as [r|] eqn:E; [|apply transition_steps].
  eapply steps_trans; [|apply transition_steps]. eapply steps_record; [done|]. by apply record_kept_none.
Qed.

Lemma connection_failure_steps sid gen failure s :
  steps (actor s) (actor (connection_failure sid gen failure s)).
Proof.
  unfold connection_failure. destruct (match sessions (actor s) !! sid with Some r => _ | None => _ end);
    [apply shell_closed_steps|]. destruct (connection_active s sid gen); [apply transition_steps|apply rtc_refl].
Qed.

Lemma shell_cleanup_steps sid gen s : steps (actor s) (actor (shell_cleanup_completed sid gen s)).
Proof.
  unfold shell_cleanup_completed. destruct (sessions (actor s) !! sid) as [r|] eqn:E; [|apply rtc_refl].
  destruct (bool_decide _); [|apply rtc_refl].
  destruct (ended (state r)); (eapply steps_record; [done|by apply record_kept_same]).
Qed.

Lemma shell_ready_steps sid gen automation channel s :
  steps (actor s) (actor (shell_ready sid gen automation channel s)).
Proof.
  unfold shell_ready. destruct (sessions (actor s) !! sid) as [r|] eqn:E; [|apply rtc_refl].
  destruct (bool_decide _ && bool_decide _); [|apply rtc_refl].
  set (r0 := mkRecord _ _ _ _ _ _ _ _ _ _ _ _ _). set (x := mkExtra _ _ _ _).
  pose proof (transition_record_kept (if automation then AutomatingLogin else Running) None None r0 x) as Hk.
  destruct (transition_record _ None None r0 x) as [r' x'].
  eapply steps_record; [done|]. eapply record_kept_trans; [|exact Hk]. by apply record_kept_same.
Qed.

(** A record without a lease may be put anywhere. *)
Lemma steps_put_none sid r x s : input_lease r = None → steps (actor s) (actor (put sid r x s)).
Proof.
  intros Hr. apply steps_quiet. split_and!; try done; try apply kept_refl. intros k r' l Hk Hl. cbn in Hk.
  destruct (decide (k = sid)) as [->|Hne].
  - rewrite lookup_insert_eq in Hk. injection Hk as <-. congruence.
  - rewrite lookup_insert_ne in Hk by done. by apply (kept_refl (sessions (actor s))).
Qed.

Lemma open_once_steps q startup resolved now sid att s :
  steps (actor s) (actor (open_once q startup resolved now sid att s).2).
Proof.
  unfold open_once. destruct ((_ =? 0) || (_ =? 0)); [apply rtc_refl|].
  destruct (bool_decide _); [apply rtc_refl|].
  destruct startup as [b|]; [|destruct resolved; [apply rtc_refl|]].
  - set (r := mkRecord _ _ _ _ _ _ _ _ _ _ _ _ _). set (x := mkExtra _ _ _ _).
    pose proof (transition_record_kept OpeningChannel None None r x) as Hk.
    destruct (transition_record OpeningChannel None None r x) as [r' x'].
    eapply steps_trans; [by apply (steps_put_none sid r x s)|].
    apply (steps_record sid r r' x' (bump_snapshot (insert_live sid (put sid r x s)))); [|done].
    cbn. by rewrite lookup_insert_eq.
  - by apply steps_put_none.
Qed.

Lemma stop_and_transition_steps sid r st x s :
  sessions (actor s) !! sid = Some r →
  let '(r', x') := transition_record st None None r x in steps (actor s) (actor (put sid r' x' s)).
Proof.
  intros E. pose proof (transition_record_kept st None None r x) as Hk.
  destruct (transition_record st None None r x) as [r' x']. by eapply steps_record.
Qed.

Lemma disconnect_steps q watch mailbox s : steps (actor s) (actor (disconnect_once q watch mailbox s).2).
Proof.
  unfold disconnect_once. destruct (sessions (actor s) !! sf_session_id q) as [r0|]; [|apply rtc_refl].
  destruct (negb _); [apply rtc_refl|]. destruct (ended (state r0)); [apply rtc_refl|].
  set (s0 := on_actor _ s). apply steps_trans with (actor s0); [apply steps_clear|].
  destruct (sessions (actor s0) !! sf_session_id q) as [r|] eqn:E; [|apply rtc_refl].
  destruct (writer r).
  - destruct (request_shell_stop watch mailbox r (extra s0 (sf_session_id q))) as [[|] x].
    + pose proof (stop_and_transition_steps (sf_session_id q) r Disconnecting x s0 E) as H.
      by destruct (transition_record Disconnecting None None r x).
    + eapply steps_record; [done|apply record_kept_refl].
  - pose proof (transition_steps (sf_session_id q) Closed (Some UserRequested) None s0) as H.
    by destruct (sessions (actor (transition _ _ _ _ s0)) !! sf_session_id q).
Qed.

Lemma detach_remove_steps sid rid att la s : steps (actor s) (actor (detach_remove sid rid att la s).2).
Proof.
  unfold detach_remove. destruct (sessions (actor s) !! sid) as [r|] eqn:E; [|apply rtc_refl].
  pose proof (remove_attachment_kept att r) as Hk. destruct (remove_attachment att r) as [[a|] r'];
    [|apply rtc_refl]. by eapply steps_record.
Qed.

Lemma confirmed_end_steps sid rid watch mailbox r s :
  sessions (actor s) !! sid = Some r →
  steps (actor s) (actor (confirmed_end sid rid watch mailbox r s).2).
Proof.
  intros E. unfold confirmed_end. destruct (writer r).
  - destruct (request_shell_stop watch mailbox r (extra s sid)) as [[|] x].
    + pose proof (stop_and_transition_steps sid r Disconnecting x s E) as H.
      by destruct (transition_record Disconnecting None None r x).
    + eapply steps_record; [done|apply record_kept_refl].
  - pose proof (transition_record_kept Closed (Some LastAttachmentConfirmed) None r (extra s sid)) as Hk.
    destruct (transition_record Closed _ None r (extra s sid)) as [r' x']. by eapply steps_record.
Qed.

Lemma detach_steps q watch mailbox s : steps (actor s) (actor (detach_once q watch mailbox s).2).
Proof.
  unfold detach_once. destruct (sessions (actor s) !! _) as [r0|]; [|apply rtc_refl].
  destruct (validate_attachment _ _ _ _ _ _); [apply rtc_refl|].
  destruct (negb _ || match dq_confirmation q with Some c => _ | None => _ end); [apply rtc_refl|].
  set (s0 := on_actor _ s). apply steps_trans with (actor s0); [apply steps_clear|].
  destruct (sessions (actor s0) !! _) as [r|] eqn:E; [|apply rtc_refl].
  destruct (dq_intent q), (dq_confirmation q) as [c|];
    [destruct (action c)| | |apply detach_remove_steps]; try apply rtc_refl.
  - pose proof (confirmed_end_steps _ (sf_request_id (dq_fence q)) watch mailbox r s0 E) as H.
    destruct (confirmed_end _ _ _ _ _ _) as [[res|] s1]; [done|].
    eapply steps_trans; [exact H|]. apply detach_remove_steps.
  - destruct (_ && _); [apply rtc_refl|apply detach_remove_steps].
Qed.

Lemma reconnect_steps q resolved now fresh s :
  steps (actor s) (actor (reconnect_once q resolved now fresh s).2).
Proof.
  unfold reconnect_once. destruct ((_ =? 0) || (_ =? 0)); [apply rtc_refl|].
  destruct (sessions (actor s) !! _) as [r0|]; [|apply rtc_refl].
  destruct (terminal_startup _); [apply rtc_refl|].
  destruct (validate_attachment _ _ _ _ _ _); [apply rtc_refl|].
  destruct (negb _); [apply rtc_refl|]. destruct resolved; [apply rtc_refl|].
  destruct (checked_add _ _ _) as [gen|]; [|apply rtc_refl].
  set (s0 := on_actor _ s). apply steps_trans with (actor s0); [apply steps_clear|].
  destruct (sessions (actor s0) !! _) as [r|] eqn:E; [|apply rtc_refl].
  set (x := (request_shell_stop false false r _).2).
  pose proof (transition_record_kept Resolving None None (renew_record gen r) x) as Hk.
  destruct (transition_record Resolving None None (renew_record gen r) x) as [r' x'].
  assert (input_lease r' = None) as Hn.
  { destruct (input_lease r') as [l|] eqn:El; [|done]. by destruct (Hk l El) as (? & ? & _). }
  destruct (existsb _ _); by apply steps_put_none.
Qed.

Lemma session_handle_steps m s :
  match m with SFocus _ => True | _ => steps (actor s) (actor (session_handle m s)) end.
Proof.
  destruct m; cbn [session_handle]; [done|..].
  - apply open_once_steps.
  - unfold connection_state. destruct (connection_active _ _ _); [apply transition_steps|apply rtc_refl].
  - apply shell_ready_steps.
  - apply shell_closed_steps.
  - apply shell_cleanup_steps.
  - apply connection_failure_steps.
  - apply disconnect_steps.
  - apply detach_steps.
  - apply reconnect_steps.
Qed.

(** ** Fences *)

(** The generation never goes back, the state revision neither, and a change
    of state is a new revision (of a 64-bit counter, until it saturates). *)
Definition advances (r r' : SessionRecord SshSessionState) : Prop :=
  state_revision r ≤ u64_max →
  generation r ≤ generation r' ∧ state_revision r ≤ state_revision r' ≤ u64_max ∧
  (state r' = state r ∨ state_revision r < state_revision r' ∨ state_revision r = u64_max).

Definition map_advances (m m' : gmap str (SessionRecord SshSessionState)) : Prop :=
  ∀ k r, m !! k = Some r → ∃ r', m' !! k = Some r' ∧ advances r r'.

Lemma advances_same r r' :
  generation r' = generation r → state_revision r' = state_revision r → state r' = state r → advances r r'.
Proof. unfold advances. intros -> -> ->. auto with lia. Qed.

Lemma advances_refl r : advances r r.
Proof. by apply advances_same. Qed.

Lemma advances_trans r1 r2 r3 : advances r1 r2 → advances r2 r3 → advances r1 r3.
Proof.
  unfold advances. intros H1 H2 H. destruct (H1 H) as (? & ? & [Hs|?]);
    destruct H2 as (? & ? & [Hs2|?]); try lia; split_and!; try lia.
  left. congruence.
Qed.

Lemma map_advances_refl m : map_advances m m.
Proof. intros k r Hr. eauto using advances_refl. Qed.

Lemma map_advances_trans m1 m2 m3 : map_advances m1 m2 → map_advances m2 m3 → map_advances m1 m3.
Proof.
  intros H1 H2 k r Hr. destruct (H1 _ _ Hr) as (r2 & Hr2 & ?). destruct (H2 _ _ Hr2) as (r3 & Hr3 & ?).
  eauto using advances_trans.
Qed.

Lemma map_advances_insert (m : gmap str (SessionRecord SshSessionState)) k r r' :
  m !! k = Some r → advances r r' → map_advances m (<[k := r']> m).
Proof.
  intros Hk Ha j r2 Hj. destruct (decide (j = k)) as [->|].
  - rewrite lookup_insert_eq. rewrite Hk in Hj. injection Hj as <-. eauto.
  - rewrite lookup_insert_ne by done. eauto using advances_refl.
Qed.

Lemma map_advances_fmap m f : (∀ r, advances r (f r)) → map_advances m (f <$> m).
Proof. intros Hf k r Hr. rewrite lookup_fmap, Hr. eauto. Qed.

Lemma map_advances_alter m k f : (∀ r, advances r (f r)) → map_advances m (alter f k m).
Proof.
  intros Hf j r Hj. destruct (decide (j = k)) as [->|].
  - rewrite lookup_alter_eq, Hj. eauto.
  - rewrite lookup_alter_ne by done. eauto using advances_refl.
Qed.

Lemma drop_focus_advances a : map_advances (sessions a) (sessions (drop_focus a)).
Proof.
  unfold drop_focus, revoke_focused_lease.
  destruct (focused_target a) as [[t|t|t|t]|]; cbn; try apply map_advances_refl.
  apply map_advances_alter. intros r. by apply advances_same.
Qed.

Lemma clear_focus_advances p a : map_advances (sessions a) (sessions (clear_focus_if p a)).
Proof.
  unfold clear_focus_if. destruct (focused_target a) as [t|]; [|apply map_advances_refl].
  destruct (p t); [apply drop_focus_advances|apply map_advances_refl].
Qed.

Lemma remove_attachment_advances att r : advances r (remove_attachment att r).2.
Proof.
  apply advances_same; unfold remove_attachment; destruct (bmap_get att (attachments r)); try done; cbn;
    destruct (input_lease r); try done; by destruct (bool_decide _).
Qed.

Lemma reap_record_advances now r : advances r (reap_record now r).
Proof.
  unfold reap_record. set (r0 := match input_lease r with Some l => _ | None => r end).
  assert (advances r r0) as H0.
  { unfold r0. destruct (input_lease r) as [l|]; [|apply advances_refl].
    destruct (lease_expired now l); by apply advances_same. }
  clearbody r0. generalize (attachment_id <$> filter (λ a, attachment_stale now a = true) (snd <$> attachments r0)).
  intros ids. revert r0 H0. induction ids as [|x ids IH]; intros r0 H0; [done|]. cbn.
  apply IH. eapply advances_trans; [done|]. apply remove_attachment_advances.
Qed.

Lemma attach_record_advances c attempt view now fresh r :
  advances r (attach_record c attempt view now fresh r).2.
Proof.
  unfold attach_record. destruct (existsb _ _); [apply advances_refl|]. cbn.
  destruct (list_find _ _) as [[i old]|], (input_lease r) as [l|]; cbn;
    try destruct (bool_decide _); by apply advances_same.
Qed.

Lemma heartbeat_record_advances c nf gen rev att view now r :
  advances r (heartbeat_record c nf gen rev att view now r).2.
Proof.
  unfold heartbeat_record. destruct (validate_attachment _ _ _ _ _ _), (bmap_get att (attachments r));
    try destruct (bool_decide _); by apply advances_same.
Qed.

(** ** Focus messages keep the fences *)

Lemma issue_lease_advances t now fresh a lease b :
  issue_lease t now fresh a = Some (lease, b) → map_advances (sessions a) (sessions b).
Proof.
  destruct t as [[t|t|t|t]|]; cbn; try (intros [= _ <-]; apply map_advances_refl).
  - destruct (sessions a !! _) as [r|] eqn:E; [|done]. cbn. intros [= _ <-]. cbn.
    eapply map_advances_insert; [done|by apply advances_same].
  - destruct (local_sessions a !! _) as [r|]; [|done]. cbn. intros [= _ <-]. apply map_advances_refl.
Qed.

Lemma focus_once_advances r now fresh a :
  map_advances (sessions a) (sessions (terminal_focus_change_once r now fresh a).2).
Proof.
  unfold terminal_focus_change_once. destruct (bool_decide _); [|apply map_advances_refl].
  destruct (match fc_target r with Some t => _ | None => _ end); [apply map_advances_refl|].
  destruct (issue_lease _ _ _ _) as [[lease b]|] eqn:E; [|apply drop_focus_advances].
  apply issue_lease_advances in E. eapply map_advances_trans; [apply drop_focus_advances|exact E].
Qed.

Lemma focus_change_advances r now fresh a :
  map_advances (sessions a) (sessions (terminal_focus_change r now fresh a).2).
Proof.
  unfold terminal_focus_change. destruct (match trim _ with [] => _ | _ => _ end); [apply map_advances_refl|].
  destruct (replay_control_operation _ _ _ _ _); [apply map_advances_refl|].
  pose proof (focus_once_advances r now fresh a) as H.
  destruct (terminal_focus_change_once r now fresh a) as [[res|x|] b]; [|done..].
  by destruct (record_control_operation _ _ _ _ _ _).
Qed.

Lemma attach_once_advances q now fresh a :
  map_advances (sessions a) (sessions (attach_once q now fresh a).2).
Proof.
  unfold attach_once. destruct (sessions a !! aq_session_id q) as [r0|]; [|apply map_advances_refl].
  destruct (bool_decide _ && bool_decide _); [|apply map_advances_refl].
  set (b := match focused_target a with Some (SshTarget t) => _ | _ => _ end).
  assert (map_advances (sessions a) (sessions b)) as Hb.
  { unfold b. destruct (focused_target a) as [[t|t|t|t]|]; try apply map_advances_refl.
    destruct (_ && _); [apply drop_focus_advances|apply map_advances_refl]. }
  clearbody b. destruct (sessions b !! aq_session_id q) as [r|] eqn:E; [|done].
  destruct (bool_decide _ && bool_decide _); [|done].
  pose proof (attach_record_advances (conflict_error (aq_request_id q)) (aq_attempt q) (aq_view_id q) now fresh r) as Ha.
  destruct (attach_record _ _ _ _ _ _) as [res r'].
  eapply map_advances_trans; [exact Hb|]. by eapply map_advances_insert.
Qed.

(** Solves the handlers that leave the records alone, or rewrite one of them. *)
Ltac advance_cases :=
  repeat first
    [ apply map_advances_refl | apply drop_focus_advances
    | (eapply map_advances_insert; [eassumption|by apply advances_same])
    | match goal with
      | |- context [match ?x with inl _ => _ | inr _ => _ end] => destruct x eqn:?
      | |- context [match ?x with Some _ => _ | None => _ end] => destruct x eqn:?
      | |- context [if ?x then _ else _] => destruct x eqn:?
      | |- context [match ?x with SshTarget _ => _ | _ => _ end] => destruct x eqn:?
      end ]; cbn.

Lemma handle_advances m a : map_advances (sessions a) (sessions (handle m a)).
Proof.
  destruct m; cbn [handle].
  - apply focus_change_advances.
  - apply focus_once_advances.
  - unfold queue_input. advance_cases.
  - unfold queue_approved_plugin_input. advance_cases.
  - unfold lease_renew. advance_cases.
  - unfold local_input. advance_cases.
  - unfold local_lease_renew. advance_cases.
  - apply attach_once_advances.
  - unfold local_attach, local_attach_once.
    destruct (local_sessions a !! aq_session_id q) as [r|]; [|apply map_advances_refl].
    destruct (_ && _); [|apply map_advances_refl].
    destruct (attach_record _ _ _ _ _ _) as [[e|x] r']; cbn; [apply map_advances_refl|].
    destruct (match focused_target a with Some (LocalTarget t) => _ | _ => _ end); [|apply map_advances_refl].
    apply (drop_focus_advances (set_local_sessions _ a)).
  - unfold attachment_heartbeat. destruct (sessions a !! hb_session_id q) as [r|] eqn:E; [|apply map_advances_refl].
    pose proof (heartbeat_record_advances (conflict_error (hb_request_id q)) (not_found_error (hb_request_id q))
      (hb_generation q) (hb_attachment_revision q) (hb_attachment_id q) (hb_view_id q) now r).
    destruct (heartbeat_record _ _ _ _ _ _ _ _). by eapply map_advances_insert.
  - unfold local_attachment_heartbeat. destruct (local_sessions a !! _); [|apply map_advances_refl].
    destruct (heartbeat_record _ _ _ _ _ _ _ _). apply map_advances_refl.
  - unfold reap_stale_attachments.
    match goal with |- context [if ?b then drop_focus a else a] => destruct b end; cbn.
    + eapply map_advances_trans; [apply drop_focus_advances|]. apply map_advances_fmap, reap_record_advances.
    + apply map_advances_fmap, reap_record_advances.
  - apply clear_focus_advances.
  - unfold clear_telnet_focus_exact. cbn. destruct (_ && _); [apply drop_focus_advances|apply map_advances_refl].
  - unfold clear_plugin_focus_exact. cbn. destruct (_ && _); [apply drop_focus_advances|apply map_advances_refl].
  - apply (drop_focus_advances a).
Qed.

(** A record keeps everything but its lease when a focus is cleared. *)
Lemma clear_focus_record p a k r :
  sessions a !! k = Some r → ∃ l, sessions (clear_focus_if p a) !! k = Some (set_lease l r).
Proof.
  intros Hr. unfold clear_focus_if. destruct (focused_target a) as [t|];
    [destruct (p t); [by apply drop_focus_record|]|]; exists (input_lease r); by rewrite set_lease_id.
Qed.

(** ** Lifecycle messages keep the fences *)

Notation sess s := (sessions (actor s)).

Lemma put_advances sid r r' x s :
  sess s !! sid = Some r → advances r r' → map_advances (sess s) (sess (put sid r' x s)).
Proof. intros. by eapply map_advances_insert. Qed.

Lemma set_state_advances st r : advances r (set_state st r).
Proof. intros H. cbn. unfold next_seq. split_and!; lia. Qed.

Lemma transition_record_advances st close failure r x :
  advances r (transition_record st close failure r x).1.
Proof.
  unfold transition_record. destruct (_ && _); [apply advances_refl|apply set_state_advances].
Qed.

Lemma transition_put_advances sid st close failure r r0 x s :
  sess s !! sid = Some r → advances r r0 →
  let '(r', x') := transition_record st close failure r0 x in
  map_advances (sess s) (sess (put sid r' x' s)).
Proof.
  intros E Ha. pose proof (transition_record_advances st close failure r0 x) as H.
  destruct (transition_record st close failure r0 x) as [r' x'].
  eapply put_advances; [done|]. by eapply advances_trans.
Qed.

Lemma transition_advances sid st close failure s :
  map_advances (sess s) (sess (transition sid st close failure s)).
Proof.
  unfold transition. set (s0 := if bool_decide (st = Running) then s else _).
  apply map_advances_trans with (sess s0).
  { unfold s0. destruct (bool_decide _); [apply map_advances_refl|apply clear_focus_advances]. }
  destruct (sess s0 !! sid) as [r|] eqn:E; [|apply map_advances_refl].
  set (x := if bool_decide (st = Failed) then _ else _).
  pose proof (transition_put_advances sid st close failure r r x s0 E (advances_refl r)) as H.
  destruct (transition_record st close failure r x) as [r' x']. by destruct (ended st && _).
Qed.

Lemma shell_closed_advances sid gen reason s :
  map_advances (sess s) (sess (shell_closed sid gen reason s)).
Proof.
  unfold shell_closed. destruct (generation_matches s sid gen); [|apply map_advances_refl].
  set (s0 := on_actor _ s). apply map_advances_trans with (sess s0); [apply clear_focus_advances|].
  destruct (sess s0 !! sid) as [r|] eqn:E; [|apply transition_advances].
  eapply map_advances_trans; [|apply transition_advances]. eapply put_advances; [done|].
  by apply advances_same.
Qed.

Lemma disconnect_advances q watch mailbox s :
  map_advances (sess s) (sess (disconnect_once q watch mailbox s).2).
Proof.
  unfold disconnect_once. destruct (sess s !! sf_session_id q) as [r0|]; [|apply map_advances_refl].
  destruct (negb _); [apply map_advances_refl|]. destruct (ended (state r0)); [apply map_advances_refl|].
  set (s0 := on_actor _ s). apply map_advances_trans with (sess s0); [apply clear_focus_advances|].
  destruct (sess s0 !! sf_session_id q) as [r|] eqn:E; [|apply map_advances_refl].
  destruct (writer r).
  - destruct (request_shell_stop watch mailbox r (extra s0 (sf_session_id q))) as [[|] x].
    + pose proof (transition_put_advances (sf_session_id q) Disconnecting None None r r x s0 E (advances_refl r)) as H.
      by destruct (transition_record Disconnecting None None r x).
    + eapply put_advances; [done|apply advances_refl].
  - pose proof (transition_advances (sf_session_id q) Closed (Some UserRequested) None s0) as H.
    by destruct (sess (transition _ _ _ _ s0) !! sf_session_id q).
Qed.

Lemma detach_remove_advances sid rid att la s :
  map_advances (sess s) (sess (detach_remove sid rid att la s).2).
Proof.
  unfold detach_remove. destruct (sess s !! sid) as [r|] eqn:E; [|apply map_advances_refl].
  pose proof (remove_attachment_advances att r) as Hk. destruct (remove_attachment att r) as [[a|] r'];
    [|apply map_advances_refl]. by eapply put_advances.
Qed.

Lemma confirmed_end_advances sid rid watch mailbox r s :
  sess s !! sid = Some r → map_advances (sess s) (sess (confirmed_end sid rid watch mailbox r s).2).
Proof.
  intros E. unfold confirmed_end. destruct (writer r).
  - destruct (request_shell_stop watch mailbox r (extra s sid)) as [[|] x].
    + pose proof (transition_put_advances sid Disconnecting None None r r x s E (advances_refl r)) as H.
      by destruct (transition_record Disconnecting None None r x).
    + eapply put_advances; [done|apply advances_refl].
  - pose proof (transition_put_advances sid Closed (Some LastAttachmentConfirmed) None r r (extra s sid) s E
      (advances_refl r)) as H.
    by destruct (transition_record Closed _ None r (extra s sid)).
Qed.

Lemma detach_advances q watch mailbox s :
  map_advances (sess s) (sess (detach_once q watch mailbox s).2).
Proof.
  unfold detach_once. destruct (sess s !! _) as [r0|]; [|apply map_advances_refl].
  destruct (validate_attachment _ _ _ _ _ _); [apply map_advances_refl|].
  destruct (negb _ || match dq_confirmation q with Some c => _ | None => _ end); [apply map_advances_refl|].
  set (s0 := on_actor _ s). apply map_advances_trans with (sess s0); [apply clear_focus_advances|].
  destruct (sess s0 !! _) as [r|] eqn:E; [|apply map_advances_refl].
  destruct (dq_intent q), (dq_confirmation q) as [c|];
    [destruct (action c)| | |apply detach_remove_advances]; try apply map_advances_refl.
  - pose proof (confirmed_end_advances _ (sf_request_id (dq_fence q)) watch mailbox r s0 E) as H.
    destruct (confirmed_end _ _ _ _ _ _) as [[res|] s1]; [done|].
    eapply map_advances_trans; [exact H|]. apply detach_remove_advances.
  - destruct (_ && _); [apply map_advances_refl|apply detach_remove_advances].
Qed.

Lemma reconnect_advances q resolved now fresh s :
  map_advances (sess s) (sess (reconnect_once q resolved now fresh s).2).
Proof.
  unfold reconnect_once. destruct ((_ =? 0) || (_ =? 0)); [apply map_advances_refl|].
  destruct (sess s !! _) as [r0|] eqn:E0; [|apply map_advances_refl].
  destruct (terminal_startup _); [apply map_advances_refl|].
  destruct (validate_attachment _ _ _ _ _ _); [apply map_advances_refl|].
  destruct (negb _) eqn:Hg; [apply map_advances_refl|]. destruct resolved; [apply map_advances_refl|].
  destruct (checked_add _ _ _) as [gen|] eqn:Hc; [|apply map_advances_refl].
  apply checked_add_Some in Hc as [-> _]. bprop.
  set (s0 := on_actor _ s). pose proof (clear_focus_record (of_session (sf_session_id (rq_fence q))) _ _ _ E0)
    as [l Hl]. fold s0 in Hl.
  apply map_advances_trans with (sess s0); [apply clear_focus_advances|].
  change (sess s0 !! _) with (sessions (clear_focus_if (of_session (sf_session_id (rq_fence q))) (actor s))
    !! sf_session_id (rq_fence q)). rewrite Hl.
  set (x := (request_shell_stop false false _ _).2).
  set (r1 := renew_record _ _).
  pose proof (transition_record_advances Resolving None None r1 x) as Ha.
  destruct (transition_record Resolving None None r1 x) as [r' x'].
  assert (advances (set_lease l r0) r') as Hadv.
  { eapply advances_trans; [|exact Ha]. intros Hr. cbn. split_and!; [lia|lia|done|by left]. }
  destruct (existsb _ _); (eapply put_advances; [exact Hl|]); (eapply advances_trans; [exact Hadv|by apply advances_same]).
Qed.

(** A message that opens session [k]; ids are fresh, so only the first does. *)
Definition opens (k : str) (m : SessionMessage) : Prop :=
  match m with SOpen _ _ _ _ sid _ => sid = k | _ => False end.

Lemma open_once_other q startup resolved now sid att s k :
  sid ≠ k → sess (open_once q startup resolved now sid att s).2 !! k = sess s !! k.
Proof.
  intros Hne. unfold open_once. destruct ((_ =? 0) || (_ =? 0)); [done|].
  destruct (bool_decide _); [done|].
  destruct startup as [b|]; [|destruct resolved; [done|]].
  - destruct (transition_record _ _ _ _ _). cbn. by rewrite !lookup_insert_ne by done.
  - cbn. by rewrite lookup_insert_ne by done.
Qed.

Lemma session_handle_advances m s k r :
  sess s !! k = Some r → ¬ opens k m → ∃ r', sess (session_handle m s) !! k = Some r' ∧ advances r r'.
Proof.
  intros Hr Ho.
  assert (map_advances (sess s) (sess (session_handle m s)) → 
    ∃ r', sess (session_handle m s) !! k = Some r' ∧ advances r r') as Hm by (intros H; by apply H).
  destruct m; cbn [session_handle] in *.
  - apply Hm, handle_advances.
  - exists r. rewrite open_once_other by done. auto using advances_refl.
  - apply Hm. unfold connection_state. destruct (connection_active _ _ _);
      [apply transition_advances|apply map_advances_refl].
  - apply Hm. unfold shell_ready. destruct (sess s !! sid) as [r0|] eqn:E; [|apply map_advances_refl].
    destruct (bool_decide _ && bool_decide _); [|apply map_advances_refl].
    set (r1 := mkRecord _ _ _ _ _ _ _ _ _ _ _ _ _). set (x := mkExtra _ _ _ _).
    pose proof (transition_put_advances sid (if automation then AutomatingLogin else Running) None None
      r0 r1 x s E ltac:(by apply advances_same)) as H.
    by destruct (transition_record _ None None r1 x).
  - apply Hm, shell_closed_advances.
  - apply Hm. unfold shell_cleanup_completed. destruct (sess s !! sid) as [r0|] eqn:E; [|apply map_advances_refl].
    destruct (bool_decide _); [|apply map_advances_refl].
    destruct (ended (state r0)); (eapply put_advances; [done|by apply advances_same]).
  - apply Hm. unfold connection_failure.
    destruct (match sess s !! sid with Some r => _ | None => _ end); [apply shell_closed_advances|].
    destruct (connection_active s sid gen); [apply transition_advances|apply map_advances_refl].
  - apply Hm, disconnect_advances.
  - apply Hm, detach_advances.
  - apply Hm, reconnect_advances.
Qed.

Definition session_handles (ms : list SessionMessage) (s : SessionActor) : SessionActor :=
  foldl (λ s m, session_handle m s) s ms.

Lemma session_handles_advances ms s k r :
  sess s !! k = Some r → Forall (λ m, ¬ opens k m) ms →
  ∃ r', sess (session_handles ms s) !! k = Some r' ∧ advances r r'.
Proof.
  revert s r. induction ms as [|m ms IH]; intros s r Hr Hms; [exists r; auto using advances_refl|].
  apply Forall_cons in Hms as [Hm Hms]. destruct (session_handle_advances m s k r Hr Hm) as (r1 & H1 & A1).
  destruct (IH _ r1 H1 Hms) as (r2 & H2 & A2). eauto using advances_trans.
Qed.

(** C34. The session actor refines the focus model. Every run of the handlers
    modelled here, those that open, connect, close, fail, detach, disconnect and
    reconnect sessions included, is a run of the focus model with the same
    accepted inputs; its invariant and the order of the inputs hold for it. *)
Theorem session_run_refines tr s :
  session_run tr s →
  run tr (actor s) ∧ focus_inv (actor s) ∧
  (focus_epoch (actor s) < u64_max → Sorted.StronglySorted before tr).
Proof.
  intros Hr. assert (run tr (actor s)) as H.
  { induction Hr as [|tr s m Hr IH|tr s m' Hr IH Hk]; [constructor| |].
    - pose proof (session_handle_steps m s) as Hs. destruct m; cbn [session_accepted];
        try (rewrite app_nil_r; by eapply run_steps).
      eapply run_step; [done|]. apply (step_message m).
    - eapply run_steps; [done|]. apply steps_quiet. by split_and!. }
  split; [done|]. split; [by eapply run_inv|]. intros He. by apply (run_ordered _ _ H).
Qed.


Lemma detach_remove_state sid rid att la s r :
  sess s !! sid = Some r →
  ∃ r', sess (detach_remove sid rid att la s).2 !! sid = Some r' ∧ state r' = state r.
Proof.
  intros Hr. unfold detach_remove. rewrite Hr. unfold remove_attachment.
  destruct (bmap_get att (attachments r)); [|by exists r]. cbn. eexists.
  rewrite lookup_insert_eq. split; [done|]. destruct (input_lease r) as [l|]; [|done]. by destruct (bool_decide _).
Qed.

(** The code asks before a user's request takes the only view of [r]. *)
Definition only_view (q : DetachFields) (r : SessionRecord SshSessionState) : Prop :=
  length (attachments r) = 1%nat ∧ dq_intent q = UserClose.

Definition confirmed (q : DetachFields) (r : SessionRecord SshSessionState) : Prop :=
  dq_intent q = UserClose ∧ ∃ c, dq_confirmation q = Some c ∧ action c = DisconnectAndDetach ∧
    confirmed_state_revision c = state_revision r ∧
    confirmed_attachment_revision c = record_attachment_revision r.

(** What a detach request may do to the record [r] of its session. *)
Definition consented (q : DetachFields) (r : SessionRecord SshSessionState)
    (out : ActorResult DetachResult * SessionActor) : Prop :=
  ∃ r', sess out.2 !! sf_session_id (dq_fence q) = Some r' ∧
  (state r' ≠ state r ∨ (only_view q r ∧ attachments r' ≠ attachments r) → confirmed q r) ∧
  (only_view q r → dq_confirmation q = None → ∀ res, out.1 = inr res →
   res = ConfirmationRequired (state_revision r) (record_attachment_revision r)).

Lemma consented_kept q r res s r' :
  sess s !! sf_session_id (dq_fence q) = Some r' → state r' = state r → attachments r' = attachments r →
  (only_view q r → dq_confirmation q = None → ∀ x, res = inr x →
   x = ConfirmationRequired (state_revision r) (record_attachment_revision r)) →
  consented q r (res, s).
Proof.
  intros Hr Hs Ha Hx. exists r'. split_and!; [done| |done]. rewrite Hs, Ha. by intros [[]|[_ []]].
Qed.

Lemma consented_confirmed q r out s :
  confirmed q r → sess s !! sf_session_id (dq_fence q) = Some r → map_advances (sess s) (sess out.2) →
  consented q r out.
Proof.
  intros Hc Hr Ha. destruct (Ha _ _ Hr) as (r' & Hr' & _). exists r'. split_and!; [done|done|].
  intros _ Hq. destruct Hc as (_ & c & Hc & _). congruence.
Qed.

Lemma consented_removed q r rid att s r' :
  sess s !! sf_session_id (dq_fence q) = Some r' → state r' = state r → ¬ only_view q r →
  consented q r (detach_remove (sf_session_id (dq_fence q)) rid att false s).
Proof.
  intros Hr Hs Ho. destruct (detach_remove_state _ rid att false _ _ Hr) as (r2 & H2 & Hs2).
  exists r2. split_and!; [done| |done]. intros [H|[H _]]; [congruence|done].
Qed.

(** C33. The last view of a live session goes only with consent. While a session
    lives, a detach request ends it, or takes away the only view it has when a
    user closes that, only if it carries the confirmation to disconnect, issued
    for the session's current state and attachment revisions; a user who closes
    the only view without one is asked, and told these revisions. *)
Theorem detach_needs_confirmation q watch mailbox s r :
  sess s !! sf_session_id (dq_fence q) = Some r → ended (state r) = false →
  ∃ r', sess (detach_once q watch mailbox s).2 !! sf_session_id (dq_fence q) = Some r' ∧
  (state r' ≠ state r ∨ (only_view q r ∧ attachments r' ≠ attachments r) → confirmed q r) ∧
  (only_view q r → dq_confirmation q = None →
   ∀ res, (detach_once q watch mailbox s).1 = inr res →
   res = ConfirmationRequired (state_revision r) (record_attachment_revision r)).
Proof.
  intros Hr Hend. change (consented q r (detach_once q watch mailbox s)).
  pose proof (detach_advances q watch mailbox s) as Hadv. revert Hadv. unfold detach_once. rewrite Hr.
  destruct (validate_attachment _ _ _ _ _ _) as [e|]; [intros _; by eapply consented_kept|].
  destruct (negb _ || match dq_confirmation q with Some c => _ | None => _ end) eqn:Hg;
    [intros _; by eapply consented_kept|].
  apply orb_false_iff in Hg as [_ Hc].
  set (p := λ t : TerminalInputFocusTarget, of_session _ t && _).
  destruct (clear_focus_record p _ _ _ Hr) as [l Hl].
  change (sess (on_actor (clear_focus_if p) s) !! sf_session_id (dq_fence q) = Some (set_lease l r)) in Hl.
  rewrite Hl. cbn [attachments state set_lease state_revision record_attachment_revision]. rewrite Hend. cbn [negb].
  rewrite andb_true_r.
  destruct (dq_intent q) eqn:Hi, (dq_confirmation q) as [c|] eqn:Hq; intros Hadv.
  - apply negb_false_iff in Hc. bprop. destruct (action c) eqn:Hac.
    + eapply consented_kept; [exact Hl|done|done|congruence].
    + eapply consented_confirmed; [|exact Hr|exact Hadv]. unfold confirmed. eauto 10.
  - destruct (_ =? 1)%nat eqn:Hn.
    + eapply consented_kept; [exact Hl|done|done|congruence].
    + apply Nat.eqb_neq in Hn. eapply consented_removed; [exact Hl|done|]. by intros [? _].
  - by eapply consented_kept.
  - eapply consented_removed; [exact Hl|done|]. intros [_ ?]. congruence.
Qed.

End Sessions.

(** ** A session's life *)

Definition life_connect : list (SessionMessage (Reason := str)) :=
  [SOpen (mkOpen (lit "r") (lit "try") (lit "v") 24 80) None (inr tt) 900 (lit "s") (lit "a");
   SConnectionState (lit "s") 1 Connecting; SConnectionState (lit "s") 1 Authenticating;
   SConnectionState (lit "s") 1 OpeningChannel; SShellReady (lit "s") 1 false (lit "c")].

Definition life_input : list (SessionMessage (Reason := str)) :=
  [SFocus (MFocusChange (demo_change (lit "o1") 0) 1000 (lit "l1"));
   SFocus (MInput (demo_input 1 1 1 (lit "l1")) 2000 true)].

Definition life_fence (rev : Z) : SessionFence := mkSessionFence (lit "r") (lit "s") 1 rev.

Definition life_end : list (SessionMessage (Reason := str)) :=
  [SDisconnect (life_fence 5) true true; SShellClosed (lit "s") 1 UserRequested].

Definition life (ms : list (SessionMessage (Reason := str))) : SessionActor := session_handles ms session_actor_new.

Lemma session_handles_run {Reason} `{EqDecision Reason} (ms : list (SessionMessage (Reason := Reason))) tr s :
  session_run tr s → ∃ tr', session_run (tr ++ tr') (session_handles ms s).
Proof.
  revert tr s. induction ms as [|m ms IH]; intros tr s Hr; [exists []; by rewrite app_nil_r|].
  destruct (IH _ _ (session_run_message _ _ m Hr)) as [tr' Htr]. exists (session_accepted m s ++ tr').
  by rewrite app_assoc.
Qed.

Lemma session_run_refines_witness :
  focus_inv (actor (life (life_connect ++ life_input))) ∧
  (state <$> sessions (actor (life (life_connect ++ life_input))) !! lit "s") = Some Running ∧
  (focused_target (actor (life (life_connect ++ life_input)))) = Some (SshTarget demo_target).
Proof.
  destruct (session_handles_run (life_connect ++ life_input) [] session_actor_new session_run_new) as [tr Htr].
  split; [|split; vm_compute; reflexivity]. exact (proj1 (proj2 (session_run_refines _ _ Htr))).
Defined.


Lemma detach_needs_confirmation_witness :
  (detach_once (mkDetach (life_fence 5) (lit "a") (lit "v") UserClose None) true true (life life_connect)).1 =
    inr (ConfirmationRequired 5 2).
Proof.
  destruct (sessions (actor (life life_connect)) !! lit "s") as [r|] eqn:Hr; [|vm_compute in Hr; discriminate].
  destruct (detach_needs_confirmation (mkDetach (life_fence 5) (lit "a") (lit "v") UserClose None) true true
    (life life_connect) r Hr) as (r' & _ & _ & Hq); vm_compute in Hr; injection Hr as <-; [reflexivity|].
  destruct (detach_once _ true true (life life_connect)) as [[e|res] s'] eqn:E; [vm_compute in E; discriminate|].
  cbn. f_equal. apply (Hq (conj eq_refl eq_refl) eq_refl res eq_refl).
Defined.

End Lifecycle.
