(* ===== verification/SerdeJson.v ===== *)
(** * JSON as [serde_json] writes it

    The compact form in which [serde_json::to_vec] writes the structures the
    crates put on the wire: objects in the order of their fields, strings with
    the escapes of its table, integers in decimal. [read] is a reader of that
    form; it shows that the form determines the value, which is what the crates
    rely on when they authenticate serialized data. What [serde_json] reads is
    not defined here: it accepts more than this form. *)

From S2P Require Import Prelude RustStr.

Module Json.

(** ** Writing *)

Inductive Json : Type :=
| JNull
| JNumber (n : Z)
| JString (s : str)
| JObject (fields : list (str * Json)).

(** The escape table: a quote, a backslash and the control characters. *)
Definition escape_char (c : Z) : str :=
  if c =? 34 then [92; 34]
  else if c =? 92 then [92; 92]
  else if c =? 8 then [92; 98]
  else if c =? 9 then [92; 116]
  else if c =? 10 then [92; 110]
  else if c =? 12 then [92; 102]
  else if c =? 13 then [92; 114]
  else if c <? 32 then [92; 117; 48; 48; digit_char (c / 16); digit_char (c mod 16)]
  else [c].

Definition json_string (s : str) : str := 34 :: concat (map escape_char s) ++ [34].

Fixpoint print (j : Json) : str :=
  match j with
  | JNull => lit "null"
  | JNumber n => to_decimal n
  | JString s => json_string s
  | JObject fields =>
      123 :: join [44] (map (λ '(k, v), json_string k ++ 58 :: print v) fields) ++ [125]
  end.

(** [serde_json::to_vec]. *)
Definition to_vec (j : Json) : list Z := utf8_encode (print j).

(** ** Reading *)

Fixpoint read_string (s : str) : option (str * str) :=
  match s with
  | [] => None
  | c :: r =>
      if c =? 34 then Some ([], r)
      else if c =? 92 then
        match r with
        | e :: r =>
            if e =? 117 then
              match r with
              | _ :: _ :: h :: l :: r =>
                  h ← to_digit 16 h; l ← to_digit 16 l;
                  '(t, r) ← read_string r; Some (16 * h + l :: t, r)
              | _ => None
              end
            else
              let c := if e =? 98 then 8 else if e =? 116 then 9 else if e =? 110 then 10
                       else if e =? 102 then 12 else if e =? 114 then 13 else e in
              '(t, r) ← read_string r; Some (c :: t, r)
        | [] => None
        end
      else '(t, r) ← read_string r; Some (c :: t, r)
  end.

(** The digits at the start of the text. *)
Fixpoint span_digits (s : str) : str * str :=
  match s with
  | c :: r => if is_ascii_digit c then let '(ds, r) := span_digits r in (c :: ds, r) else ([], s)
  | [] => ([], s)
  end.

(** A value, and the fields of an object up to its brace. *)
Fixpoint read (fuel : nat) (s : str) : option (Json * str) :=
  match fuel with
  | O => None
  | S fuel =>
      match s with
      | [] => None
      | c :: r =>
          if c =? 34 then '(t, r) ← read_string r; Some (JString t, r)
          else if c =? 110 then Some (JNull, drop 3 r)
          else if c =? 123 then
            '(fs, r) ← read_fields fuel r; Some (JObject fs, r)
          else let '(ds, r) := span_digits s in n ← parse_digits 10 0 ds; Some (JNumber n, r)
      end
  end
with read_fields (fuel : nat) (s : str) : option (list (str * Json) * str) :=
  match fuel with
  | O => None
  | S fuel =>
      match s with
      | [] => None
      | c :: r =>
          if c =? 125 then Some ([], r)
          else
            let r := if c =? 44 then drop 1 r else r in
            '(k, r) ← read_string r;
            '(v, r) ← read fuel (drop 1 r);
            '(fs, r) ← read_fields fuel r; Some ((k, v) :: fs, r)
      end
  end.

(** ** Values with [u64] numbers and valid strings *)

(** A Unicode scalar value. *)
Definition scalar (c : Z) : Prop := 0 ≤ c < 55296 ∨ 57344 ≤ c < 1114112.

Fixpoint json_wf (j : Json) : Prop :=
  match j with
  | JNull => True
  | JNumber n => 0 ≤ n ≤ u64_max
  | JString s => Forall scalar s
  | JObject fields =>
      foldr (λ '(k, v) P, Forall scalar k ∧ json_wf v ∧ P) True fields
  end.

(** The fuel [read] needs. *)
Fixpoint json_size (j : Json) : nat :=
  match j with
  | JObject fields => S (foldr (λ '(_, v) n, S (json_size v) + n)%nat 1%nat fields)
  | _ => 1%nat
  end.

(** ** The text determines the value *)

Lemma read_escape c s t r :
  scalar c → read_string s = Some (t, r) → read_string (escape_char c ++ s) = Some (c :: t, r).
Proof.
  intros Hc Hs. unfold escape_char.
  do 7 (match goal with |- context [c =? ?k] =>
    destruct (Z.eqb_spec c k) as [->|?]; [cbn; by rewrite Hs|] end).
  destruct (Z.ltb_spec c 32) as [Hlt|Hge].
  - assert (0 ≤ c < 32) as Hr by (unfold scalar in Hc; lia).
    assert (0 ≤ c / 16 < 16 ∧ 0 ≤ c mod 16 < 16 ∧ 16 * (c / 16) + c mod 16 = c) as (? & ? & Heq).
    { pose proof (Z.div_mod c 16). pose proof (Z.mod_pos_bound c 16). lia. }
    cbn. rewrite !digit_char_digit by lia. cbn. by rewrite Hs, Heq.
  - cbn. by rewrite (proj2 (Z.eqb_neq c 34)), (proj2 (Z.eqb_neq c 92)), Hs by done.
Qed.

Lemma read_json_string s r :
  Forall scalar s → read_string (concat (map escape_char s) ++ 34 :: r) = Some (s, r).
Proof.
  induction 1 as [|c s Hc _ IH]; [done|]. cbn. rewrite <- app_assoc. by apply read_escape.
Qed.

(** What follows a value does not start with a digit. *)
Definition stops (r : str) : Prop := match r with c :: _ => is_ascii_digit c = false | [] => True end.

Lemma span_digits_stop ds r :
  forallb is_ascii_digit ds = true → stops r → span_digits (ds ++ r) = (ds, r).
Proof.
  induction ds as [|c ds IH]; intros Hd Hr; cbn.
  - destruct r as [|c r]; [done|]. cbn in *. by rewrite Hr.
  - cbn in Hd. apply andb_true_iff in Hd as [-> Hd]. by rewrite IH.
Qed.

Lemma read_number fuel n r :
  0 ≤ n → stops r → read (S fuel) (to_decimal n ++ r) = Some (JNumber n, r).
Proof.
  intros Hn Hr. pose proof (to_decimal_digits n Hn) as Hd. pose proof (to_decimal_nonempty n Hn) as Hne.
  cbn [read]. destruct (to_decimal n) as [|c ds] eqn:E; [done|]. cbn [app].
  assert (is_ascii_digit c = true) as Hc by (cbn in Hd; by apply andb_true_iff in Hd as [? _]).
  unfold is_ascii_digit in Hc. bprop.
  rewrite !(proj2 (Z.eqb_neq c _)) by lia. rewrite app_comm_cons, <- E in *.
  rewrite (span_digits_stop _ _ Hd Hr). unfold to_decimal. by rewrite parse_to_radix by lia.
Qed.

(** The fields after the first start with a comma. *)
Definition later (fields : list (str * Json)) : str :=
  concat (map (λ '(k, v), 44 :: json_string k ++ 58 :: print v) fields).

Lemma print_object fields :
  print (JObject fields) = 123 :: drop 1 (later fields) ++ [125].
Proof.
  cbn [print]. do 2 f_equal. destruct fields as [|[k v] fields]; [done|]. cbn [map later concat app drop].
  revert k v. induction fields as [|[k' v'] fields IH]; intros k v; cbn [map join concat]; [by rewrite app_nil_r|].
  f_equal. specialize (IH k' v'). unfold later in IH. simpl in *. by rewrite IH.
Qed.

Lemma read_print_both fuel :
  (∀ j r, json_wf j → stops r → (json_size j ≤ fuel)%nat → read fuel (print j ++ r) = Some (j, r)) ∧
  (∀ fields r first, json_wf (JObject fields) → (json_size (JObject fields) ≤ S fuel)%nat →
    read_fields fuel ((if first : bool then drop 1 (later fields) else later fields) ++ 125 :: r) =
    Some (fields, r)).
Proof.
  induction fuel as [|fuel [IHv IHf]]; split.
  - intros [] r _ _ H; cbn in H; lia.
  - intros [|[k v] fields] r first _ H; cbn in H; lia.
  - intros [|n|s|fields] r Hj Hr H.
    + done.
    + apply read_number; [apply Hj|done].
    + cbn [print json_string app read]. rewrite Z.eqb_refl, <- app_assoc. cbn [app].
      by rewrite read_json_string.
    + rewrite print_object. cbn [app read Z.eqb Pos.eqb]. rewrite <- app_assoc. cbn [app].
      by rewrite (IHf fields r true) by (done || lia).
  - intros [|[k v] fields] r first Hwf H; [by destruct first|]. destruct Hwf as (Hk & Hv & Hfs).
    cbn in H. unfold later. cbn [map concat].
    assert (∀ r', read_string (concat (map escape_char k) ++ 34 :: 58 :: r') = Some (k, 58 :: r')) as Hk'
      by (intros; by apply read_json_string).
    assert (read fuel (print v ++ later fields ++ 125 :: r) = Some (v, later fields ++ 125 :: r)) as Hread.
    { apply IHv; [done| |lia]. destruct fields as [|[]]; done. }
    pose proof (IHf fields r false Hfs ltac:(cbn; lia)) as Hrest.
    assert (((json_string k ++ 58 :: print v) ++ later fields) ++ 125 :: r =
      34 :: concat (map escape_char k) ++ 34 :: 58 :: print v ++ later fields ++ 125 :: r) as Htext.
    { unfold json_string. cbn. by rewrite <- !app_assoc. }
    fold (later fields).
    destruct first; cbn [app]; change (drop 1 (44 :: ?x)) with x; rewrite Htext; cbn; rewrite ?drop_0, Hk'; cbn;
      rewrite ?drop_0, Hread; cbn; by rewrite Hrest.
Qed.

Lemma read_print fuel j r :
  json_wf j → stops r → (json_size j ≤ fuel)%nat → read fuel (print j ++ r) = Some (j, r).
Proof. intros. by apply read_print_both. Qed.

(** The length of the text is enough fuel. *)
Lemma json_size_print j : json_wf j → (json_size j ≤ length (print j))%nat.
Proof.
  remember (json_size j) as n eqn:Hn. assert (json_size j ≤ n)%nat as Hle by lia. rewrite Hn. clear Hn. revert j Hle.
  induction n as [|n IH]; intros [|m|s|fields] Hle Hj; try (cbn in Hle; lia).
  - cbn. lia.
  - cbn [json_wf] in Hj. pose proof (to_decimal_nonempty m ltac:(lia)). cbn [print json_size]. destruct (to_decimal m); [done|cbn; lia].
  - cbn. lia.
  - rewrite print_object. cbn [length]. rewrite length_app, length_drop. cbn [length].
    enough (json_size (JObject fields) ≤ length (later fields) + 2 ∧
            (fields = [] ∨ 1 ≤ length (later fields)) ∧
            (fields ≠ [] → json_size (JObject fields) + 1 ≤ length (later fields) + 2))%nat as (H1 & H2 & H3).
    { destruct fields; [cbn in *; lia|]. specialize (H3 ltac:(done)). lia. }
    cbn in Hle. apply le_S_n in Hle. revert Hle Hj. induction fields as [|[k v] fields IHf]; intros Hle Hj; [cbn; split; [lia|]; split; [by left|done]|].
    destruct Hj as (Hk & Hv & Hfs). cbn in Hle. pose proof (IH v ltac:(lia) Hv) as Hvl.
    destruct (IHf ltac:(lia) Hfs) as (H1 & _ & _).
    change (later ((k, v) :: fields)) with (([44] ++ json_string k ++ [58] ++ print v) ++ later fields).
    unfold json_string. rewrite !length_app. cbn in *. rewrite !length_app. cbn. lia.
Qed.

(** The text of a value determines it. *)
Lemma print_inj j1 j2 : json_wf j1 → json_wf j2 → print j1 = print j2 → j1 = j2.
Proof.
  intros H1 H2 H. set (fuel := (json_size j1 + json_size j2)%nat).
  pose proof (proj1 (read_print_both fuel) j1 [] H1 I ltac:(lia)) as R1.
  pose proof (proj1 (read_print_both fuel) j2 [] H2 I ltac:(lia)) as R2.
  rewrite H, R2 in R1. congruence.
Qed.

(** ** Bytes *)

Definition byte (b : Z) : Prop := 0 ≤ b < 256.

Lemma from_utf8_char c r :
  scalar c → from_utf8 (utf8_encode_char c ++ r) = cons c <$> from_utf8 r.
Proof.
  intros Hc. unfold utf8_encode_char, scalar in *.
  assert (∀ lo b hi, lo ≤ b ≤ hi → between lo b hi = true) as Hin by (unfold between; lia).
  assert (∀ lo b hi, hi < b → between lo b hi = false) as Hout by (unfold between; lia).
  pose proof (Z.div_mod c 64 ltac:(lia)). pose proof (Z.mod_pos_bound c 64 ltac:(lia)).
  destruct (Z.ltb_spec c 128); [cbn; by rewrite Hin by lia|].
  destruct (Z.ltb_spec c 2048).
  { cbn. rewrite Hout, !Hin by lia. do 2 f_equal. lia. }
  pose proof (Z.div_mod (c / 64) 64 ltac:(lia)) as E2. pose proof (Z.mod_pos_bound (c / 64) 64 ltac:(lia)).
  rewrite Z.div_div in E2 by lia. change (64 * 64) with 4096 in E2.
  destruct (Z.ltb_spec c 65536).
  { cbn. rewrite !Hout, (Hin 224), (Hin 128 (128 + c mod 64)) by lia.
    rewrite Hin by (repeat case_match; bprop; lia). cbn. do 2 f_equal. lia. }
  pose proof (Z.div_mod (c / 4096) 64 ltac:(lia)) as E3. pose proof (Z.mod_pos_bound (c / 4096) 64 ltac:(lia)).
  rewrite Z.div_div in E3 by lia. change (4096 * 64) with 262144 in E3.
  cbn. rewrite !Hout, (Hin 240), (Hin 128 (128 + (c / 64) mod 64)), (Hin 128 (128 + c mod 64)) by lia.
  rewrite Hin by (repeat case_match; bprop; lia). cbn. do 2 f_equal. lia.
Qed.

Lemma from_utf8_encode s : Forall scalar s → from_utf8 (utf8_encode s) = Some s.
Proof.
  induction 1 as [|c s Hc _ IH]; [done|]. unfold utf8_encode in *. cbn [map concat].
  by rewrite from_utf8_char, IH.
Qed.

Lemma utf8_encode_bytes s : Forall scalar s → Forall byte (utf8_encode s).
Proof.
  induction 1 as [|c s Hc _ IH]; [constructor|]. unfold utf8_encode in *. cbn [map concat].
  apply Forall_app. split; [|done]. unfold utf8_encode_char, scalar, byte in *.
  pose proof (Z.mod_pos_bound c 64 ltac:(lia)). pose proof (Z.mod_pos_bound (c / 64) 64 ltac:(lia)).
  pose proof (Z.mod_pos_bound (c / 4096) 64 ltac:(lia)).
  clear IH. repeat case_match; bprop; repeat apply Forall_cons_2; try apply Forall_nil_2; try lia;
    Z.to_euclidean_division_equations; lia.
Qed.

Lemma escape_char_scalar c : scalar c → Forall scalar (escape_char c).
Proof.
  unfold escape_char, digit_char, scalar. intros Hc.
  pose proof (Z.mod_pos_bound c 16 ltac:(lia)). pose proof (Z.div_mod c 16 ltac:(lia)).
  repeat case_match; bprop; repeat apply Forall_cons_2; try apply Forall_nil_2; lia.
Qed.

Lemma json_string_scalar s : Forall scalar s → Forall scalar (json_string s).
Proof.
  intros Hs. unfold json_string. constructor; [unfold scalar; lia|].
  apply Forall_app. split; [|repeat constructor; unfold scalar; lia].
  induction Hs; cbn; [constructor|]. apply Forall_app. auto using escape_char_scalar.
Qed.

Lemma ascii_scalar s : forallb is_ascii s = true → Forall scalar s.
Proof.
  intros H. apply forallb_true_Forall in H. eapply Forall_impl; [exact H|].
  unfold is_ascii, scalar. intros c Hc. lia.
Qed.

Lemma print_scalar j : json_wf j → Forall scalar (print j).
Proof.
  remember (json_size j) as n eqn:Hn. assert (json_size j ≤ n)%nat as Hle by lia. clear Hn. revert j Hle.
  induction n as [|n IH]; intros [|m|s|fields] Hle Hj; try (cbn in Hle; lia).
  - apply ascii_scalar. done.
  - apply ascii_scalar. cbn. eapply forallb_impl; [exact digit_is_ascii|]. apply to_decimal_digits, Hj.
  - by apply json_string_scalar.
  - rewrite print_object. constructor; [unfold scalar; lia|]. apply Forall_app.
    split; [|repeat constructor; unfold scalar; lia]. apply Forall_drop.
    cbn in Hle. apply le_S_n in Hle. revert Hle Hj. induction fields as [|[k v] fields IHf]; [constructor|].
    intros Hle (Hk & Hv & Hfs). cbn in Hle. unfold later. cbn [map concat].
    apply Forall_app. split; [|apply IHf; [cbn in *; lia|done]].
    constructor; [unfold scalar; lia|]. apply Forall_app. split; [by apply json_string_scalar|].
    constructor; [unfold scalar; lia|]. apply IH; [lia|done].
Qed.

(** The bytes of a value determine it. *)
Lemma to_vec_inj j1 j2 : json_wf j1 → json_wf j2 → to_vec j1 = to_vec j2 → j1 = j2.
Proof.
  unfold to_vec. intros H1 H2 H. apply (f_equal from_utf8) in H.
  rewrite !from_utf8_encode in H by auto using print_scalar. injection H as H. by apply print_inj.
Qed.

Lemma to_vec_bytes j : json_wf j → Forall byte (to_vec j).
Proof. intros. by apply utf8_encode_bytes, print_scalar. Qed.

Lemma to_vec_object fields : to_vec (JObject fields) ≠ [].
Proof. unfold to_vec. rewrite print_object. done. Qed.

(** ** Size *)

Lemma str_len_nonneg s : 0 ≤ str_len s.
Proof.
  unfold str_len. induction s as [|c s IH]; cbn; [lia|].
  assert (0 ≤ utf8_width c) by (unfold utf8_width; repeat case_match; lia). lia.
Qed.

Lemma zlen_utf8_encode s : zlen (utf8_encode s) = str_len s.
Proof.
  induction s as [|c s IH]; [done|]. unfold utf8_encode in *. cbn [map concat]. rewrite zlen_app, IH.
  cbn [str_len foldr]. f_equal. unfold utf8_encode_char, utf8_width. by repeat case_match.
Qed.

Lemma escape_char_len c : str_len (escape_char c) ≤ 6 * utf8_width c.
Proof.
  unfold escape_char.
  repeat match goal with |- context [c =? ?k] => destruct (Z.eqb_spec c k) as [->|?]; [cbn; lia|] end.
  destruct (Z.ltb_spec c 32).
  - cbn. pose proof (Z.mod_pos_bound c 16 ltac:(lia)).
    assert (c / 16 < 2) by (apply Z.div_lt_upper_bound; lia).
    unfold utf8_width, digit_char. repeat case_match; bprop; lia.
  - cbn. unfold utf8_width. repeat case_match; lia.
Qed.

Lemma json_string_len s : str_len (json_string s) ≤ 6 * str_len s + 2.
Proof.
  unfold json_string. change (34 :: ?x) with ([34] ++ x). rewrite !str_len_app. cbn [str_len foldr].
  enough (str_len (concat (map escape_char s)) ≤ 6 * str_len s) by (change (utf8_width 34) with 1; lia).
  induction s as [|c s IH]; [done|]. cbn [map concat]. rewrite str_len_app. cbn [str_len foldr] in *.
  pose proof (escape_char_len c). unfold str_len in *. lia.
Qed.

(** A character that is not escaped. *)
Definition plain (c : Z) : bool := (35 <=? c) && (c <=? 126) && negb (c =? 92).

Lemma json_string_plain s : forallb plain s = true → json_string s = 34 :: s ++ [34].
Proof.
  intros Hs. unfold json_string. do 2 f_equal. induction s as [|c s IH]; [done|]. cbn in *.
  apply andb_true_iff in Hs as [Hc Hs]. rewrite IH by done. unfold plain in Hc. bprop. unfold escape_char.
  rewrite !(proj2 (Z.eqb_neq c _)), (proj2 (Z.ltb_ge c 32)) by lia. done.
Qed.

Lemma plain_ascii s : forallb plain s = true → forallb is_ascii s = true.
Proof. apply forallb_impl. unfold plain, is_ascii. intros. bprop. lia. Qed.

Lemma json_string_plain_len s : forallb plain s = true → str_len (json_string s) = str_len s + 2.
Proof.
  intros Hs. rewrite json_string_plain by done. change (34 :: ?x) with ([34] ++ x). rewrite !str_len_app.
  change (str_len [34]) with 1. lia.
Qed.

Fixpoint json_bound (j : Json) : Z :=
  match j with
  | JNull => 4
  | JNumber _ => 20
  | JString s => str_len (json_string s)
  | JObject fields => foldr (λ '(k, v) n, str_len (json_string k) + 2 + json_bound v + n) 2 fields
  end.

Lemma print_len j : json_wf j → str_len (print j) ≤ json_bound j.
Proof.
  remember (json_size j) as n eqn:Hn. assert (json_size j ≤ n)%nat as Hle by lia. clear Hn. revert j Hle.
  induction n as [|n IH]; intros [|m|s|fields] Hle Hj; try (cbn in Hle; lia).
  - done.
  - cbn. rewrite str_len_ascii. 2: { eapply forallb_impl; [exact digit_is_ascii|]. apply to_decimal_digits, Hj. }
    apply zlen_to_radix; [lia| |lia]. cbn in Hj. unfold u64_max in Hj. lia.
  - done.
  - rewrite print_object. change (123 :: ?x) with ([123] ++ x). rewrite !str_len_app.
    change (str_len [123]) with 1. change (str_len [125]) with 1.
    enough (str_len (drop 1 (later fields)) + 2 ≤ json_bound (JObject fields)) by lia.
    transitivity (str_len (later fields) + 2).
    { destruct (later fields) as [|c r]; [done|]. cbn. unfold utf8_width. rewrite drop_0. repeat case_match; lia. }
    cbn in Hle. apply le_S_n in Hle. revert Hle Hj. induction fields as [|[k v] fields IHf]; [done|].
    intros Hle (Hk & Hv & Hfs). cbn in Hle.
    change (later ((k, v) :: fields)) with (([44] ++ json_string k ++ [58] ++ print v) ++ later fields).
    rewrite !str_len_app. change (str_len [44]) with 1. change (str_len [58]) with 1.
    specialize (IHf ltac:(lia) Hfs). pose proof (IH v ltac:(lia) Hv).
    cbn [json_bound foldr] in *. lia.
Qed.

Lemma to_vec_len j : json_wf j → zlen (to_vec j) ≤ json_bound j.
Proof. intros. unfold to_vec. rewrite zlen_utf8_encode. by apply print_len. Qed.

(** A field is no longer than its object. *)
Lemma field_size k v fields : (k, v) ∈ fields → str_len (print v) ≤ str_len (print (JObject fields)).
Proof.
  intros Hin. assert (str_len (print v) + 1 ≤ str_len (later fields)) as Hl.
  { induction fields as [|[k' v'] fields IH]; [by apply elem_of_nil in Hin|].
    change (later ((k', v') :: fields)) with (([44] ++ json_string k' ++ [58] ++ print v') ++ later fields).
    rewrite !str_len_app. change (str_len [44]) with 1. change (str_len [58]) with 1.
    pose proof (str_len_nonneg (json_string k')). pose proof (str_len_nonneg (print v')).
    pose proof (str_len_nonneg (later fields)).
    apply elem_of_cons in Hin as [[= <- <-]|Hin]; [lia|]. specialize (IH Hin). lia. }
  rewrite print_object. change (123 :: ?x) with ([123] ++ x). rewrite !str_len_app.
  change (str_len [123]) with 1. change (str_len [125]) with 1.
  assert (str_len (later fields) ≤ str_len (drop 1 (later fields)) + 1); [|lia].
  destruct fields as [|[k' v'] fields]; [done|].
  change (later ((k', v') :: fields)) with ([44] ++ (json_string k' ++ [58] ++ print v') ++ later fields).
  cbn [app]. change (drop 1 (44 :: ?x)) with (drop 0 x). rewrite drop_0.
  change (44 :: ?x) with ([44] ++ x). rewrite (str_len_app [44]). change (str_len [44]) with 1. lia.
Qed.

End Json.
