(* ===== verification/SyncCanonical.v ===== *)
(** * The canonical form of a valid bundle is valid

    A bundle is sorted before it is encrypted, and validated again after it
    is decrypted. Validation does not depend on the order of the collections,
    so the sorted bundle passes; a sender never produces what a receiver
    refuses. *)

From S2P Require Import Prelude RustStr BTree SyncSchema.

Module Canonical.
Import Sync.

(** ** Checks that ignore order *)

Lemma rforall_perm {E A} (f g : A → rres E unit) l1 l2 :
  (∀ x, x ∈ l1 → f x = Ok tt → g x = Ok tt) → l1 ≡ₚ l2 → rforall f l1 = Ok tt → rforall g l2 = Ok tt.
Proof.
  rewrite !rforall_Ok, !Forall_forall. intros Hfg Hp Hf x Hx. rewrite <- Hp in Hx. auto.
Qed.

Lemma existsb_perm {A} (f : A → bool) l1 l2 : l1 ≡ₚ l2 → existsb f l1 = existsb f l2.
Proof.
  induction 1 as [|x l1 l2 _ IH|x y l|l1 l2 l3 _ IH1 _ IH2]; cbn; try congruence.
  by destruct (f x), (f y).
Qed.

Lemma zlen_perm {A} (l1 l2 : list A) : l1 ≡ₚ l2 → zlen l1 = zlen l2.
Proof. intros H. unfold zlen. by rewrite H. Qed.

Lemma mem_perm x l1 l2 : l1 ≡ₚ l2 → mem x l1 = mem x l2.
Proof. intros H. apply bset_mem_ext. by rewrite H. Qed.

Lemma opt_mem_perm o l1 l2 : l1 ≡ₚ l2 → opt_mem o l1 = opt_mem o l2.
Proof. destruct o; [apply mem_perm|done]. Qed.

Lemma NoDup_map_fst_unique {K V} (l : list (K * V)) k v w :
  NoDup (map fst l) → (k, v) ∈ l → (k, w) ∈ l → v = w.
Proof.
  induction l as [|[k' u] l IH]; intros Hn Hv Hw; [by apply elem_of_nil in Hv|].
  cbn in Hn. apply NoDup_cons in Hn as [Hk Hn].
  assert (∀ x, (k', x) ∉ l) as Hno. { intros x Hx. apply Hk, list_elem_of_fmap. by exists (k', x). }
  apply elem_of_cons in Hv as [[= <- <-]|Hv], Hw as [Hw|Hw]; try injection Hw as Hw; subst; naive_solver.
Qed.

Lemma hash_get_complete {V} k (l : list (Z * V)) v :
  NoDup (map fst l) → (k, v) ∈ l → hash_get k l = Some v.
Proof.
  intros Hn Hin. destruct (hash_get k l) as [w|] eqn:E.
  - apply hash_get_elem in E. f_equal. by eapply NoDup_map_fst_unique.
  - exfalso. unfold hash_get in E. apply bmap_get_None in E. apply E. unfold bmap_keys.
    rewrite map_rev. apply list_elem_of_In. rewrite <- in_rev. apply list_elem_of_In, list_elem_of_fmap.
    by exists (k, v).
Qed.

Lemma hash_get_perm {V} k (l1 l2 : list (Z * V)) :
  NoDup (map fst l1) → l1 ≡ₚ l2 → hash_get k l1 = hash_get k l2.
Proof.
  intros Hn Hp. assert (NoDup (map fst l2)) by (by rewrite <- (fmap_Permutation fst _ _ Hp)).
  destruct (hash_get k l1) as [v|] eqn:E1.
  - symmetry. apply hash_get_complete; [done|]. rewrite <- Hp. by apply hash_get_elem.
  - destruct (hash_get k l2) as [v|] eqn:E2; [|done]. apply hash_get_elem in E2. rewrite <- Hp in E2.
    by rewrite (hash_get_complete k l1 v) in E1.
Qed.

Section Perm.
Context {J : Type} `{JV : JsonValue J}.
Implicit Types b : PortableBundleV1 J.

Lemma validate_times_complete ts present timed :
  NoDup (map (λ t, (ut_kind t, ut_id t)) ts) →
  (∀ t, t ∈ ts → 0 < update_time_unix_ms t ∧ (ut_kind t, ut_id t) ∈ present ∧
     (ut_kind t, ut_id t) ∉ timed) →
  validate_times present timed ts = Ok tt.
Proof.
  revert timed. induction ts as [|t ts IH]; intros timed Hn Hall; [done|]. cbn [map] in Hn.
  apply NoDup_cons in Hn as [Ht Hn]. cbn [validate_times].
  destruct (Hall t ltac:(set_solver)) as (Hpos & Hin & Hout).
  rewrite (proj2 (Z.leb_gt _ _)), (proj2 (bset_mem_true _ _)), (proj2 (bset_mem_false _ _)) by done.
  cbn. apply IH; [done|]. intros t' Ht'. destruct (Hall t' ltac:(set_solver)) as (? & ? & Ho).
  split_and!; [done|done|]. apply not_elem_of_cons. split; [|done]. intros Heq. apply Ht.
  apply list_elem_of_fmap. by exists t'.
Qed.

(** The permutations of the collections give those of everything computed
    from them. *)
Lemma same_nodes b1 b2 : same_contents b1 b2 → present_nodes b1 ≡ₚ present_nodes b2.
Proof.
  intros []. unfold present_nodes, objects_all_nodes.
  repeat apply Permutation_app; by apply Permutation_map.
Qed.

Lemma same_ids b1 b2 : same_contents b1 b2 → all_ids b1 ≡ₚ all_ids b2.
Proof.
  intros []. unfold all_ids, objects_all_ids. repeat apply Permutation_app; by apply Permutation_map.
Qed.

Lemma validate_selected_same b1 b2 : same_contents b1 b2 → validate_selected b1 = validate_selected b2.
Proof.
  intros Hs. unfold validate_selected. rewrite (sc_selected _ _ Hs), (sc_schema _ _ Hs).
  destruct (selected_categories b2) as [sel|]; [|done].
  rewrite (existsb_perm _ _ _ (same_nodes _ _ Hs)).
  by rewrite (zlen_perm _ _ (sc_skipped _ _ Hs)).
Qed.

Lemma validate_schema_same b1 b2 : same_contents b1 b2 → validate_schema b1 = validate_schema b2.
Proof.
  intros Hs. unfold validate_schema, requires_desktop_mode_schema.
  rewrite (sc_schema _ _ Hs), (sc_preferences _ _ Hs), (zlen_perm _ _ (sc_tombstones _ _ Hs)),
    (zlen_perm _ _ (sc_desktops _ _ Hs)).
  rewrite !(existsb_perm _ _ _ (sc_desktops _ _ Hs)).
  by rewrite !(existsb_perm _ _ _ (sc_tombstones _ _ Hs)).
Qed.

Lemma validate_objects_same b1 b2 :
  same_contents b1 b2 → validate_objects (objects b1) = Ok tt → validate_objects (objects b2) = Ok tt.
Proof.
  intros Hs H. unfold validate_objects in *. destruct Hs.
  repeat match goal with Hp : ?l ≡ₚ _ |- _ => rewrite (zlen_perm _ _ Hp) in H;
    let Q := fresh "Q" in pose proof (λ g, rforall_perm (E := SyncCodecError) g g _ _ (λ _ _ e, e) Hp) as Q;
    clear Hp end.
  rinv H. repeat match goal with x : unit |- _ => destruct x end.
  cbn [rbind]. repeat (apply rbind_Ok; exists tt; split; [auto|]). auto.
Qed.

Lemma validate_update_times_same b1 b2 :
  same_contents b1 b2 → validate_update_times b1 = Ok tt → validate_update_times b2 = Ok tt.
Proof.
  intros Hs. unfold validate_update_times. rewrite (sc_schema _ _ Hs), (zlen_perm _ _ (sc_times _ _ Hs)),
    (sc_preference_times _ _ Hs), (sc_preferences _ _ Hs).
  intros H. rinv H. repeat match goal with c : _ = false |- _ => rewrite c; clear c end. destruct x.
  match goal with H : validate_times _ _ _ = Ok _ |- _ => apply validate_times_spec in H as [Hn Ht] end.
  rewrite validate_times_complete; [done|by rewrite <- (fmap_Permutation _ _ _ (sc_times _ _ Hs))|].
  intros t. rewrite <- (sc_times _ _ Hs), <- (same_nodes _ _ Hs). apply Ht.
Qed.

Lemma forallb_ext {A} (f g : A → bool) l : (∀ x, f x = g x) → forallb f l = forallb g l.
Proof. intros H. induction l as [|x l IH]; cbn; [done|]. by rewrite H, IH. Qed.

(** Lookups by id find the same object in both. *)
Lemma hash_get_map {A V} (id : A → Z) (val : A → V) k (l1 l2 : list A) :
  NoDup (map id l1) → l1 ≡ₚ l2 →
  hash_get k (map (λ x, (id x, val x)) l1) = hash_get k (map (λ x, (id x, val x)) l2).
Proof.
  intros Hn Hp. apply hash_get_perm; [by rewrite map_map|by apply Permutation_map].
Qed.

Lemma validate_references_same b1 b2 :
  same_contents b1 b2 → bundle_wf b1 → validate_references b1 = Ok tt → validate_references b2 = Ok tt.
Proof.
  intros Hs Hwf H. destruct (ids_distinct b1 Hwf) as (_ & _ & Ni & Nc & _ & _ & _ & _ & _ & _ & Ns & _).
  pose proof (λ x, mem_perm x _ _ (Permutation_map host_id (sc_hosts _ _ Hs))) as Eh.
  pose proof (λ x, mem_perm x _ _ (Permutation_map credential_id (sc_credentials _ _ Hs))) as Ec.
  pose proof (λ k, hash_get_map secret_id secret_kind k _ _ Ns (sc_secrets _ _ Hs)) as Es.
  pose proof (λ k, hash_get_map credential_id id k _ _ Nc (sc_credentials _ _ Hs)) as Ecred.
  unfold validate_references in *. rinv H. repeat match goal with x : unit |- _ => destruct x end.
  repeat (apply rbind_Ok; exists tt; split).
  all: match goal with H : rforall _ (?f (objects _)) = _ |- rforall _ (?f (objects _)) = _ =>
    revert H; apply rforall_perm; [|apply Hs] end.
  all: clear - Eh Ec Es Ecred Hs Ni; intros x _.
  - rewrite !(mem_perm _ _ _ (Permutation_map _ (sc_routes _ _ Hs))), !(mem_perm _ _ _ (Permutation_map _ (sc_plans _ _ Hs))),
      !(mem_perm _ _ _ (Permutation_map _ (sc_algorithms _ _ Hs))), !(mem_perm _ _ _ (Permutation_map _ (sc_heartbeats _ _ Hs))),
      !(mem_perm _ _ _ (Permutation_map _ (sc_monitorings _ _ Hs))), !(opt_mem_perm _ _ _ (Permutation_map _ (sc_identities _ _ Hs))).
    by rewrite !(opt_mem_perm _ _ _ (Permutation_map _ (sc_automations _ _ Hs))).
  - rewrite !(opt_mem_perm _ _ _ (Permutation_map _ (sc_hosts _ _ Hs))).
    destruct (check _) as [[]| |]; cbn [rbind]; try done. destruct (desktop_credential_id x); [|done].
    rewrite Ecred. destruct (hash_get _ (map _ (credentials (objects b2)))); [|done].
    by rewrite (hash_get_map identity_id identity_credential_ids _ _ _ Ni (sc_identities _ _ Hs)).
  - by rewrite (forallb_ext _ _ _ Ec).
  - rewrite (mem_perm _ _ _ (Permutation_map _ (sc_identities _ _ Hs))).
    destruct (check _) as [[]| |]; cbn [rbind]; try done.
    match goal with |- check (forallb ?f _) = _ → check (forallb ?g _) = _ => rewrite (forallb_ext f g); [done|] end.
    intros r. by rewrite Es.
  - intros H. rinv H. destruct x0. apply rbind_Ok. exists tt. split.
    + revert E. apply rforall_perm; [|done]. intros hop _. by rewrite Eh.
    + destruct (ingress_credential _); [|done]. by rewrite <- Ecred.
  - by rewrite (forallb_ext _ _ _ Ec).
  - apply rforall_perm; [|done]. intros [] _; try done. by rewrite Es.
Qed.

(** A valid bundle stays valid with its collections in another order. *)
Lemma validate_same b1 b2 : same_contents b1 b2 → validate b1 = Ok tt → validate b2 = Ok tt.
Proof.
  intros Hs H. pose proof (validate_wf _ _ H) as Hwf. unfold validate in *.
  rewrite (validate_selected_same _ _ Hs), (sc_revision _ _ Hs), (zlen_perm _ _ (sc_secrets _ _ Hs)),
    (zlen_perm _ _ (sc_skipped _ _ Hs)), (zlen_perm _ _ (sc_tombstones _ _ Hs)),
    (validate_schema_same _ _ Hs) in H.
  rinv H. repeat match goal with x : unit |- _ => destruct x end. cbn [rbind].
  apply rbind_Ok. exists tt. split; [by eapply validate_objects_same|].
  apply rbind_Ok. exists tt. split; [by eapply validate_update_times_same|].
  apply rbind_Ok. exists tt. split; [|apply rbind_Ok; exists tt; split].
  - match goal with H : validate_ids _ _ = _ |- _ => rewrite validate_ids_spec in H; rename H into Hi end.
    destruct Hi as (? & ? & _).
    rewrite validate_ids_spec, <- (same_ids _ _ Hs). split_and!; [done|done|]. intros. apply not_elem_of_nil.
  - match goal with H : rforall _ (secrets b1) = _ |- _ => revert H end.
    apply rforall_perm; [done|apply Hs].
  - by eapply validate_references_same.
Qed.

Lemma canonicalized_same b c : canonicalized b = Ok c → validate b = Ok tt ∧ same_contents b c.
Proof.
  unfold canonicalized. intros H. rinv H. destruct x. split; [done|]. subst c.
  split; cbn; try done; symmetry; apply sort_by_key_perm.
Qed.

Lemma canonicalized_valid b c : canonicalized b = Ok c → validate c = Ok tt.
Proof. intros [Hv Hs]%canonicalized_same. by eapply validate_same. Qed.

End Perm.
End Canonical.
