(* ===== verification/SyncCrypto.v ===== *)
(** * Encrypted bundles, recovery envelopes and offline backups

    src/crypto.rs, src/secret.rs and src/offline_backup.rs of
    crates/ssh-profile-sync. The cipher (XChaCha20-Poly1305), the key
    derivation (Argon2id), SHA-256, base64 and [serde_json]'s reader are
    libraries: the operations of [Crypto] stand for them and [CryptoLaws] says
    what the code relies on. What the crate serializes itself is written out,
    with [SerdeJson], since it is what the ciphers authenticate. *)

From S2P Require Import Prelude RustStr BTree SerdeJson SyncSchema SyncCanonical.

Module Crypto.
Import Sync Json Canonical.

(** ** Wire types *)

Definition KEY_BYTES : Z := 32.
Definition NONCE_BYTES : Z := 24.
Definition SALT_BYTES : Z := 16.
Definition KDF_MEMORY_KIB : Z := 65536.
Definition KDF_ITERATIONS : Z := 3.
Definition KDF_PARALLELISM : Z := 1.
Definition KDF_OUTPUT_BYTES : Z := 32.
Definition MAX_BUNDLE_PLAINTEXT_BYTES : Z := 64 * 1024 * 1024.
Definition MAX_ENVELOPE_BYTES : Z := 96 * 1024 * 1024.
Definition MAX_OWNER_TEXT_BYTES : Z := 512.
Definition MAX_ETAG_BYTES : Z := 1024.
Definition SERVICE_SYNC_ALGORITHM : str := lit "xchacha20poly1305-ietf".
Definition SERVICE_RECOVERY_ALGORITHM : str := lit "xchacha20poly1305-recovery-v1".
Definition SERVICE_RECOVERY_KDF : str := lit "argon2id-v1:m=65536,t=3,p=1,l=32".
Definition SERVICE_RECOVERY_AAD_PREFIX : str := lit "norishell:ssh-recovery:v1".

Inductive SyncEnvelopeFormat := SyncEnvelopeV1.
Inductive RecoveryEnvelopeFormat := RecoveryEnvelopeV1.
Inductive CipherId := XChaCha20Poly1305V1.
Inductive RecoveryKdfId := Argon2idSyncRecoveryV1.
Inductive SyncObjectKind := SshProfileBundle.

Record SyncObjectBinding := mkBinding {
  application_id : str;
  account_id : str;
  binding_schema : BundleSchema;
  object_kind : SyncObjectKind;
  binding_revision : Z;
  base_revision : option Z;
  base_etag : option str;
  key_version : Z }.

Record EncryptedSyncObject := mkEncrypted {
  enc_algorithm : str;
  enc_nonce_base64url : str;
  enc_ciphertext : list Z;
  enc_ciphertext_sha256 : str }.

Record RecoveryEnvelopeUpload := mkUpload {
  up_algorithm : str;
  up_kdf : str;
  up_salt_base64url : str;
  up_nonce_base64url : str;
  up_aad : str;
  up_ciphertext : list Z;
  up_ciphertext_sha256 : str }.

Record RecoveryOwnerBinding := mkOwner {
  owner_application_id : str;
  owner_account_id : str;
  owner_key_version : Z }.

Record SyncEnvelope := mkSyncEnvelope {
  se_format : SyncEnvelopeFormat;
  se_cipher : CipherId;
  se_nonce : str;
  se_binding : SyncObjectBinding;
  se_ciphertext : str }.

Record RecoveryKdfHeader := mkKdf {
  kdf_id : RecoveryKdfId;
  memory_kib : Z;
  iterations : Z;
  parallelism : Z;
  output_bytes : Z;
  salt : str }.

Record RecoveryEnvelope := mkRecovery {
  re_format : RecoveryEnvelopeFormat;
  re_owner : RecoveryOwnerBinding;
  re_kdf : RecoveryKdfHeader;
  re_cipher : CipherId;
  re_nonce : str;
  re_ciphertext : str }.

Record OfflineBackupEnvelope := mkBackup {
  ob_format : str;
  ob_kdf : str;
  ob_cipher : str;
  ob_salt : str;
  ob_nonce : str;
  ob_ciphertext : str }.

#[global] Instance object_kind_eq : EqDecision SyncObjectKind.
Proof. solve_decision. Defined.
#[global] Instance binding_eq : EqDecision SyncObjectBinding.
Proof. solve_decision. Defined.
#[global] Instance owner_eq : EqDecision RecoveryOwnerBinding.
Proof. solve_decision. Defined.
#[global] Instance kdf_id_eq : EqDecision RecoveryKdfId.
Proof. solve_decision. Defined.

(** ** Serialized forms *)

Definition schema_name (s : BundleSchema) : str :=
  lit match s with
      | SV1 => "norishell-ssh-profile-bundle-v1" | SV2 => "norishell-ssh-profile-bundle-v2"
      | SV3 => "norishell-ssh-profile-bundle-v3" | SV4 => "norishell-ssh-profile-bundle-v4"
      | SV5 => "norishell-ssh-profile-bundle-v5" | SV6 => "norishell-ssh-profile-bundle-v6"
      end.

Definition json_opt {A} (f : A → Json) (o : option A) : Json :=
  match o with Some a => f a | None => JNull end.

Definition binding_json (b : SyncObjectBinding) : Json :=
  JObject [(lit "applicationId", JString (application_id b));
           (lit "accountId", JString (account_id b));
           (lit "schema", JString (schema_name (binding_schema b)));
           (lit "objectKind", JString (lit "sshProfileBundle"));
           (lit "revision", JNumber (binding_revision b));
           (lit "baseRevision", json_opt JNumber (base_revision b));
           (lit "baseEtag", json_opt JString (base_etag b));
           (lit "keyVersion", JNumber (key_version b))].

Definition owner_json (o : RecoveryOwnerBinding) : Json :=
  JObject [(lit "applicationId", JString (owner_application_id o));
           (lit "accountId", JString (owner_account_id o));
           (lit "keyVersion", JNumber (owner_key_version o))].

Definition kdf_json (k : RecoveryKdfHeader) : Json :=
  JObject [(lit "id", JString (lit "argon2id-sync-recovery-v1"));
           (lit "memoryKib", JNumber (memory_kib k));
           (lit "iterations", JNumber (iterations k));
           (lit "parallelism", JNumber (parallelism k));
           (lit "outputBytes", JNumber (output_bytes k));
           (lit "salt", JString (salt k))].

Definition sync_envelope_json (e : SyncEnvelope) : Json :=
  JObject [(lit "format", JString (lit "norishell-ssh-profile-sync-object-v1"));
           (lit "cipher", JString (lit "xchacha20poly1305-v1"));
           (lit "nonce", JString (se_nonce e));
           (lit "binding", binding_json (se_binding e));
           (lit "ciphertext", JString (se_ciphertext e))].

(** The fields of [RecoveryAad], which the envelope starts with. *)
Definition recovery_fields (o : RecoveryOwnerBinding) (k : RecoveryKdfHeader) (nonce : str) :
    list (str * Json) :=
  [(lit "format", JString (lit "norishell-ssh-profile-recovery-envelope-v1"));
   (lit "owner", owner_json o); (lit "kdf", kdf_json k);
   (lit "cipher", JString (lit "xchacha20poly1305-v1")); (lit "nonce", JString nonce)].

Definition recovery_aad (o : RecoveryOwnerBinding) (k : RecoveryKdfHeader) (nonce : str) : list Z :=
  to_vec (JObject (recovery_fields o k nonce)).

Definition recovery_json (e : RecoveryEnvelope) : Json :=
  JObject (recovery_fields (re_owner e) (re_kdf e) (re_nonce e) ++
           [(lit "ciphertext", JString (re_ciphertext e))]).

Definition backup_json (e : OfflineBackupEnvelope) : Json :=
  JObject [(lit "format", JString (ob_format e)); (lit "kdf", JString (ob_kdf e));
           (lit "cipher", JString (ob_cipher e)); (lit "salt", JString (ob_salt e));
           (lit "nonce", JString (ob_nonce e)); (lit "ciphertext", JString (ob_ciphertext e))].

(** ** Libraries *)

(** An engine of the base64 crate. *)
Record Engine := mkEngine { encode : list Z → str; decode : str → option (list Z) }.

Class Crypto (J : Type) := {
  STANDARD : Engine;
  URL_SAFE_NO_PAD : Engine;
  sha256 : list Z → list Z;
  (** [hash_password_into] with the one profile the crate uses. *)
  argon2id : list Z → list Z → option (list Z);
  aead_encrypt : list Z → list Z → list Z → list Z → option (list Z);
  aead_decrypt : list Z → list Z → list Z → list Z → option (list Z);
  bundle_to_vec : PortableBundleV1 J → option (list Z);
  bundle_from_slice : list Z → option (PortableBundleV1 J);
  sync_envelope_from_slice : list Z → option SyncEnvelope;
  recovery_from_slice : list Z → option RecoveryEnvelope;
  backup_from_slice : list Z → option OfflineBackupEnvelope }.

(** ** Checks and decoders *)

Definition is_some_and {A} (f : A → bool) (o : option A) : bool :=
  match o with Some a => f a | None => false end.

Definition validate_owner_text (value : str) (field : string) : result unit :=
  if bool_decide (value = []) || (MAX_OWNER_TEXT_BYTES <? str_len value) || existsb is_control value
  then Err (InvalidBundle field) else Ok tt.

Definition validate_binding (b : SyncObjectBinding) : result unit :=
  let? _ := validate_owner_text (application_id b) "application ID" in
  let? _ := validate_owner_text (account_id b) "account ID" in
  if binding_revision b =? 0 then Err (InvalidBundle "revision must be positive")
  else if is_some_and (λ base, binding_revision b <=? base) (base_revision b)
  then Err (InvalidBundle "base revision must be positive and lower than revision")
  else if key_version b =? 0 then Err (InvalidBundle "sync key version must be positive")
  else if is_some_and (λ etag, bool_decide (etag = []) || (MAX_ETAG_BYTES <? str_len etag)
                               || existsb is_control etag) (base_etag b)
  then Err (InvalidBundle "invalid base etag")
  else Ok tt.

Definition validate_owner (o : RecoveryOwnerBinding) : result unit :=
  let? _ := validate_owner_text (owner_application_id o) "application ID" in
  let? _ := validate_owner_text (owner_account_id o) "account ID" in
  if owner_key_version o =? 0 then Err (InvalidBundle "sync key version must be positive")
  else Ok tt.

Definition positive_account_id (value : str) : result Z :=
  let? parsed := ok_or (n ← parse_uint u64_max value; if 0 <? n then Some n else None)
                   (InvalidBundle "account ID") in
  if negb (bool_decide (to_decimal parsed = value)) then Err (InvalidBundle "account ID") else Ok parsed.

Definition div_ceil (a b : Z) : Z := (a + b - 1) / b.

(** [format!("{byte:02x}")] of every byte. *)
Definition to_hex (bs : list Z) : str :=
  concat (map (λ b, [digit_char (b / 16); digit_char (b mod 16)]) bs).

(** [try_into] a [[u8; N]]. *)
Definition try_into {E} (n : Z) (bs : list Z) (e : E) : rres E (list Z) :=
  if zlen bs =? n then Ok bs else Err e.

Section Operations.
Context {J : Type} `{JV : JsonValue J} `{C : Crypto J}.
Implicit Types bundle : PortableBundleV1 J.

Definition sha256_hex (bytes : list Z) : str := to_hex (sha256 bytes).

Definition decode_bounded_base64 (value : str) (max_bytes : Z) (field : string) : result (list Z) :=
  if div_ceil max_bytes 3 * 4 + 4 <? str_len value then Err (BoundExceeded field)
  else
    let? decoded := ok_or (decode STANDARD value) (InvalidBundle field) in
    if max_bytes <? zlen decoded then Err (BoundExceeded field)
    else if negb (bool_decide (encode STANDARD decoded = value)) then Err (InvalidBundle field)
    else Ok decoded.

Definition decode_fixed (n : Z) (value : str) (field : string) : result (list Z) :=
  let? decoded := decode_bounded_base64 value n field in
  try_into n decoded (InvalidBundle field).

Definition decode_base64url_fixed (n : Z) (value : str) (field : string) : result (list Z) :=
  let? decoded := ok_or (decode URL_SAFE_NO_PAD value) (InvalidBundle field) in
  if negb (bool_decide (encode URL_SAFE_NO_PAD decoded = value)) then Err (InvalidBundle field)
  else try_into n decoded (InvalidBundle field).

Definition validate_recovery_kdf (k : RecoveryKdfHeader) : result unit :=
  if negb (bool_decide (kdf_id k = Argon2idSyncRecoveryV1)) || negb (memory_kib k =? KDF_MEMORY_KIB)
     || negb (iterations k =? KDF_ITERATIONS) || negb (parallelism k =? KDF_PARALLELISM)
     || negb (output_bytes k =? KDF_OUTPUT_BYTES)
  then Err UnsupportedKdfProfile
  else let? _ := decode_fixed SALT_BYTES (salt k) "recovery salt" in Ok tt.

Definition derive_recovery_key (password : list Z) (k : RecoveryKdfHeader) : result (list Z) :=
  let? _ := validate_recovery_kdf k in
  let? salt := decode_fixed SALT_BYTES (salt k) "recovery salt" in
  ok_or (argon2id password salt) KeyDerivation.

Definition derive_service_recovery_key (password salt : list Z) : result (list Z) :=
  ok_or (argon2id password salt) KeyDerivation.

(** [XChaCha20Poly1305::new_from_slice] and [encrypt] or [decrypt]. *)
Definition seal (key nonce msg aad : list Z) (bad_key : SyncCodecError) : result (list Z) :=
  if negb (zlen key =? KEY_BYTES) then Err bad_key
  else ok_or (aead_encrypt key nonce msg aad) AuthenticationFailed.

Definition unseal (key nonce ciphertext aad : list Z) (bad_key : SyncCodecError) : result (list Z) :=
  if negb (zlen key =? KEY_BYTES) then Err bad_key
  else ok_or (aead_decrypt key nonce ciphertext aad) AuthenticationFailed.

(** ** Secrets *)

Definition MAX_SECRET_BYTES : Z := 16 * 1024 * 1024.

(** [SecretBytes::new]. *)
Definition secret_new (value : list Z) : result (list Z) :=
  if bool_decide (value = []) then Err (InvalidBundle "secret payload is empty")
  else if MAX_SECRET_BYTES <? zlen value then Err (BoundExceeded "secret payload")
  else Ok value.

Definition secret_serialize (value : list Z) : str := encode STANDARD value.

(** The errors of [Deserialize] are [serde_json]'s. *)
Definition secret_deserialize (encoded : str) : result (list Z) :=
  if div_ceil MAX_SECRET_BYTES 3 * 4 + 4 <? str_len encoded then Err Serialization
  else
    let? decoded := ok_or (decode STANDARD encoded) Serialization in
    if negb (bool_decide (encode STANDARD decoded = encoded)) then Err Serialization
    else rmap_err (λ _, Serialization) (secret_new decoded).

(** [SyncKey::generate]; the random bytes are an argument. *)
Definition sync_key_generate (random : option (list Z)) : result (list Z) := ok_or random Random.

(** [SyncKey::baseline_digest]: HMAC-SHA256 with a 32-byte key. *)
Definition xor_pad (pad : Z) (key : list Z) : list Z :=
  map (Z.lxor pad) key ++ replicate (64 - length key) pad.

Definition baseline_digest (key bytes : list Z) : list Z :=
  sha256 (xor_pad 92 key ++
          sha256 (xor_pad 54 key ++ lit "norishell:ssh-sync:baseline:v1" ++ [0] ++ bytes)).

(** [RecoveryPassword::new]. *)
Definition password_new (value : list Z) : result (list Z) :=
  if negb ((8 <=? zlen value) && (zlen value <=? 65536)) then Err InvalidRecoveryPassword else Ok value.

(** ** Bundles *)

Definition canonical_bundle_bytes bundle : result (list Z) :=
  let? canonical := canonicalized bundle in
  let? bytes := ok_or (bundle_to_vec canonical) Serialization in
  if MAX_BUNDLE_PLAINTEXT_BYTES <? zlen bytes then Err (BoundExceeded "canonical bundle plaintext")
  else Ok bytes.

Definition decode_bundle (bytes : list Z) : result (PortableBundleV1 J) :=
  if MAX_BUNDLE_PLAINTEXT_BYTES <? zlen bytes then Err (BoundExceeded "bundle plaintext")
  else
    let? bundle := ok_or (bundle_from_slice bytes) Serialization in
    let? _ := validate bundle in
    Ok bundle.

Definition canonical_bundle_digest bundle : result (list Z) :=
  let? bytes := canonical_bundle_bytes bundle in Ok (sha256 bytes).

Definition binding_differs (b : SyncObjectBinding) bundle : bool :=
  negb (binding_revision b =? revision bundle) || negb (bool_decide (binding_schema b = schema bundle)).

Definition encrypt_bundle bundle (key nonce : list Z) (b : SyncObjectBinding) : result (list Z) :=
  let? _ := validate_binding b in
  if binding_differs b bundle then Err BindingMismatch
  else
    let? plaintext := canonical_bundle_bytes bundle in
    let? ciphertext := seal key nonce plaintext (to_vec (binding_json b)) InvalidSyncKey in
    Ok (to_vec (sync_envelope_json (mkSyncEnvelope SyncEnvelopeV1 XChaCha20Poly1305V1
          (encode STANDARD nonce) b (encode STANDARD ciphertext)))).

Definition encrypt_bundle_random bundle (key : list Z) (random : option (list Z)) (b : SyncObjectBinding)
  : result (list Z) :=
  let? nonce := ok_or random Random in encrypt_bundle bundle key nonce b.

Definition encrypt_bundle_for_service bundle (key : list Z) (random : option (list Z))
    (b : SyncObjectBinding) : result EncryptedSyncObject :=
  let? _ := validate_binding b in
  if binding_differs b bundle then Err BindingMismatch
  else
    let? nonce := ok_or random Random in
    let? plaintext := canonical_bundle_bytes bundle in
    let? ciphertext := seal key nonce plaintext (to_vec (binding_json b)) InvalidSyncKey in
    Ok (mkEncrypted SERVICE_SYNC_ALGORITHM (encode URL_SAFE_NO_PAD nonce) ciphertext
          (sha256_hex ciphertext)).

(** The end of both decryptions. *)
Definition open_bundle (key nonce ciphertext : list Z) (expected : SyncObjectBinding)
  : result (PortableBundleV1 J) :=
  let? plaintext := unseal key nonce ciphertext (to_vec (binding_json expected)) InvalidSyncKey in
  let? bundle := decode_bundle plaintext in
  if negb (revision bundle =? binding_revision expected)
     || negb (bool_decide (schema bundle = binding_schema expected))
  then Err BindingMismatch else Ok bundle.

Definition decrypt_bundle_from_service (e : EncryptedSyncObject) (key : list Z)
    (expected : SyncObjectBinding) : result (PortableBundleV1 J) :=
  let? _ := validate_binding expected in
  if negb (bool_decide (enc_algorithm e = SERVICE_SYNC_ALGORITHM))
     || (MAX_BUNDLE_PLAINTEXT_BYTES + 16 <? zlen (enc_ciphertext e))
     || negb (bool_decide (sha256_hex (enc_ciphertext e) = enc_ciphertext_sha256 e))
  then Err AuthenticationFailed
  else
    let? nonce := decode_base64url_fixed NONCE_BYTES (enc_nonce_base64url e) "sync nonce" in
    open_bundle key nonce (enc_ciphertext e) expected.

Definition decrypt_bundle (envelope_bytes key : list Z) (expected : SyncObjectBinding)
  : result (PortableBundleV1 J) :=
  if MAX_ENVELOPE_BYTES <? zlen envelope_bytes then Err (BoundExceeded "sync envelope")
  else
    let? _ := validate_binding expected in
    let? envelope := ok_or (sync_envelope_from_slice envelope_bytes) Serialization in
    if negb (bool_decide (se_binding envelope = expected)) then Err BindingMismatch
    else
      let? nonce := decode_fixed NONCE_BYTES (se_nonce envelope) "sync nonce" in
      let? ciphertext := decode_bounded_base64 (se_ciphertext envelope)
                           (MAX_BUNDLE_PLAINTEXT_BYTES + 16) "sync ciphertext" in
      open_bundle key nonce ciphertext expected.

(** ** Recovery envelopes *)

Definition create_recovery_envelope (sync_key password : list Z) (owner : RecoveryOwnerBinding)
    (salt nonce : list Z) : result (list Z) :=
  let? _ := validate_owner owner in
  let kdf := mkKdf Argon2idSyncRecoveryV1 KDF_MEMORY_KIB KDF_ITERATIONS KDF_PARALLELISM
               KDF_OUTPUT_BYTES (encode STANDARD salt) in
  let nonce_encoded := encode STANDARD nonce in
  let aad := recovery_aad owner kdf nonce_encoded in
  let? recovery_key := derive_recovery_key password kdf in
  let? ciphertext := seal recovery_key nonce sync_key aad InvalidSyncKey in
  Ok (to_vec (recovery_json (mkRecovery RecoveryEnvelopeV1 owner kdf XChaCha20Poly1305V1
        nonce_encoded (encode STANDARD ciphertext)))).

Definition create_recovery_envelope_random (sync_key password : list Z) (owner : RecoveryOwnerBinding)
    (random_salt random_nonce : option (list Z)) : result (list Z) :=
  let? salt := ok_or random_salt Random in
  let? nonce := ok_or random_nonce Random in
  create_recovery_envelope sync_key password owner salt nonce.

Definition open_recovery_envelope (envelope_bytes password : list Z) (expected : RecoveryOwnerBinding)
  : result (list Z) :=
  if 64 * 1024 <? zlen envelope_bytes then Err (BoundExceeded "recovery envelope")
  else
    let? _ := validate_owner expected in
    let? envelope := ok_or (recovery_from_slice envelope_bytes) Serialization in
    if negb (bool_decide (re_owner envelope = expected)) then Err BindingMismatch
    else
      let? _ := validate_recovery_kdf (re_kdf envelope) in
      let? nonce := decode_fixed NONCE_BYTES (re_nonce envelope) "recovery nonce" in
      let? ciphertext := decode_bounded_base64 (re_ciphertext envelope) (KEY_BYTES + 16)
                           "wrapped sync key" in
      let aad := recovery_aad expected (re_kdf envelope) (re_nonce envelope) in
      let? recovery_key := derive_recovery_key password (re_kdf envelope) in
      let? plaintext := unseal recovery_key nonce ciphertext aad InvalidSyncKey in
      if negb (zlen plaintext =? KEY_BYTES) then Err InvalidSyncKey else Ok plaintext.

Definition service_recovery_aad (owner : RecoveryOwnerBinding) (account : Z) : str :=
  SERVICE_RECOVERY_AAD_PREFIX ++ lit "|application=" ++ owner_application_id owner ++
  lit "|account=" ++ to_decimal account ++ lit "|key_version=" ++ to_decimal (owner_key_version owner).

Definition create_recovery_envelope_for_service (sync_key password : list Z)
    (owner : RecoveryOwnerBinding) (random_salt random_nonce : option (list Z))
  : result RecoveryEnvelopeUpload :=
  let? _ := validate_owner owner in
  let? account := positive_account_id (owner_account_id owner) in
  let? salt := ok_or random_salt Random in
  let? nonce := ok_or random_nonce Random in
  let aad := service_recovery_aad owner account in
  let? recovery_key := derive_service_recovery_key password salt in
  let? ciphertext := seal recovery_key nonce sync_key (utf8_encode aad) InvalidSyncKey in
  Ok (mkUpload SERVICE_RECOVERY_ALGORITHM SERVICE_RECOVERY_KDF (encode URL_SAFE_NO_PAD salt)
        (encode URL_SAFE_NO_PAD nonce) aad ciphertext (sha256_hex ciphertext)).

Definition open_recovery_envelope_from_service (e : RecoveryEnvelopeUpload) (password : list Z)
    (expected : RecoveryOwnerBinding) : result (list Z) :=
  let? _ := validate_owner expected in
  let? account := positive_account_id (owner_account_id expected) in
  let expected_aad := service_recovery_aad expected account in
  if negb (bool_decide (up_algorithm e = SERVICE_RECOVERY_ALGORITHM))
     || negb (bool_decide (up_kdf e = SERVICE_RECOVERY_KDF))
     || negb (bool_decide (up_aad e = expected_aad))
     || negb (zlen (up_ciphertext e) =? KEY_BYTES + 16)
     || negb (bool_decide (sha256_hex (up_ciphertext e) = up_ciphertext_sha256 e))
  then Err BindingMismatch
  else
    let? salt := decode_base64url_fixed SALT_BYTES (up_salt_base64url e) "recovery salt" in
    let? nonce := decode_base64url_fixed NONCE_BYTES (up_nonce_base64url e) "recovery nonce" in
    let? recovery_key := derive_service_recovery_key password salt in
    let? plaintext := unseal recovery_key nonce (up_ciphertext e) (utf8_encode expected_aad) InvalidSyncKey in
    if negb (zlen plaintext =? KEY_BYTES) then Err InvalidSyncKey else Ok plaintext.

(** ** Offline backups *)

Definition FORMAT : str := lit "norishell-offline-backup-v1".
Definition KDF : str := lit "argon2id-v1:m=65536,t=3,p=1".
Definition CIPHER : str := lit "xchacha20poly1305-v1".
Definition AAD : list Z :=
  lit "norishell:offline-backup:v1:argon2id-v1:m=65536,t=3,p=1:xchacha20poly1305-v1".
Definition MAX_OFFLINE_BACKUP_PLAINTEXT_BYTES : Z := 192 * 1024 * 1024.
Definition MAX_OFFLINE_BACKUP_FILE_BYTES : Z := 256 * 1024 * 1024.

Definition derive_key (password salt : list Z) : result (list Z) := ok_or (argon2id password salt) KeyDerivation.

Definition encrypt_offline_backup (password plaintext : list Z) (random_salt random_nonce : option (list Z))
  : result (list Z) :=
  if bool_decide (plaintext = []) then Err (InvalidBundle "offline backup payload is empty")
  else if MAX_OFFLINE_BACKUP_PLAINTEXT_BYTES <? zlen plaintext
  then Err (BoundExceeded "offline backup payload")
  else
    let? salt := ok_or random_salt Random in
    let? nonce := ok_or random_nonce Random in
    let? key := derive_key password salt in
    let? ciphertext := seal key nonce plaintext AAD KeyDerivation in
    let encoded := to_vec (backup_json (mkBackup FORMAT KDF CIPHER (encode STANDARD salt)
                     (encode STANDARD nonce) (encode STANDARD ciphertext))) in
    if MAX_OFFLINE_BACKUP_FILE_BYTES <? zlen encoded then Err (BoundExceeded "offline backup file")
    else Ok encoded.

(** [decode_fixed] of offline_backup.rs, without the length test first. *)
Definition backup_decode_fixed (n : Z) (value : str) (field : string) : result (list Z) :=
  let? decoded := ok_or (decode STANDARD value) (InvalidBundle field) in
  if negb (bool_decide (encode STANDARD decoded = value)) then Err (InvalidBundle field)
  else try_into n decoded (InvalidBundle field).

Definition decrypt_offline_backup (password encoded : list Z) : result (list Z) :=
  if bool_decide (encoded = []) || (MAX_OFFLINE_BACKUP_FILE_BYTES <? zlen encoded)
  then Err (BoundExceeded "offline backup file")
  else
    let? envelope := ok_or (backup_from_slice encoded) Serialization in
    if negb (bool_decide (ob_format envelope = FORMAT)) || negb (bool_decide (ob_cipher envelope = CIPHER))
    then Err (InvalidBundle "offline backup format")
    else if negb (bool_decide (ob_kdf envelope = KDF)) then Err UnsupportedKdfProfile
    else
      let? salt := backup_decode_fixed SALT_BYTES (ob_salt envelope) "offline backup salt" in
      let? nonce := backup_decode_fixed NONCE_BYTES (ob_nonce envelope) "offline backup nonce" in
      if div_ceil (MAX_OFFLINE_BACKUP_PLAINTEXT_BYTES + 16) 3 * 4 + 4 <? str_len (ob_ciphertext envelope)
      then Err (BoundExceeded "offline backup ciphertext")
      else
        let? ciphertext := ok_or (decode STANDARD (ob_ciphertext envelope))
                             (InvalidBundle "offline backup ciphertext") in
        if negb (bool_decide (encode STANDARD ciphertext = ob_ciphertext envelope))
        then Err (InvalidBundle "offline backup ciphertext")
        else
          let? key := derive_key password salt in
          let? plaintext := unseal key nonce ciphertext AAD KeyDerivation in
          if bool_decide (plaintext = []) || (MAX_OFFLINE_BACKUP_PLAINTEXT_BYTES <? zlen plaintext)
          then Err (BoundExceeded "offline backup payload")
          else Ok plaintext.

End Operations.
(** ** What the libraries promise *)

(** The characters of the base64 alphabets, with padding. *)
Definition base64_char (c : Z) : bool :=
  is_ascii_alphanumeric c || (c =? 43) || (c =? 47) || (c =? 61) || (c =? 45) || (c =? 95).

(** Base64: decoding inverts encoding, and three bytes take at most four
    characters of the alphabet. *)
Class EngineLaws (e : Engine) : Prop := {
  decode_encode b : Forall byte b → decode e (encode e b) = Some b;
  encode_len b : Forall byte b → str_len (encode e b) ≤ div_ceil (zlen b) 3 * 4;
  encode_plain b : Forall byte b → forallb base64_char (encode e b) = true }.

(** The cipher: decryption inverts encryption, nothing else decrypts, and the
    tag adds 16 bytes. The reader reads what the writer wrote. *)
Class CryptoLaws (J : Type) {C : Crypto J} : Prop := {
  standard_laws :: EngineLaws STANDARD;
  url_laws :: EngineLaws URL_SAFE_NO_PAD;
  (** With padding the length is exact. *)
  standard_len b : Forall byte b → str_len (encode STANDARD b) = div_ceil (zlen b) 3 * 4;
  sha256_len b : zlen (sha256 b) = 32;
  sha256_bytes b : Forall byte (sha256 b);
  argon2id_len p s k : argon2id p s = Some k → zlen k = KEY_BYTES;
  aead_open k n m a c : aead_encrypt k n m a = Some c → aead_decrypt k n c a = Some m;
  aead_sound k n m a c : aead_decrypt k n c a = Some m → aead_encrypt k n m a = Some c;
  aead_len k n m a c : aead_encrypt k n m a = Some c → zlen c = zlen m + 16;
  aead_bytes k n m a c : Forall byte m → aead_encrypt k n m a = Some c → Forall byte c;
  bundle_bytes b m : bundle_to_vec b = Some m → Forall byte m;
  sync_envelope_read e : json_wf (sync_envelope_json e) →
    sync_envelope_from_slice (to_vec (sync_envelope_json e)) = Some e;
  recovery_read e : json_wf (recovery_json e) → recovery_from_slice (to_vec (recovery_json e)) = Some e;
  backup_read e : json_wf (backup_json e) → backup_from_slice (to_vec (backup_json e)) = Some e }.

Section Properties.
Context {J : Type} `{JV : JsonValue J} {C : Crypto J} {CL : CryptoLaws J}.
Implicit Types bundle : PortableBundleV1 J.

Lemma div_ceil_mono a b : a ≤ b → div_ceil a 3 ≤ div_ceil b 3.
Proof. intros. unfold div_ceil. apply Z.div_le_mono; lia. Qed.

Lemma decode_bounded_encode b max field :
  Forall byte b → zlen b ≤ max → decode_bounded_base64 (encode STANDARD b) max field = Ok b.
Proof.
  intros Hb Hl. unfold decode_bounded_base64.
  pose proof (encode_len (e := STANDARD) b Hb). pose proof (div_ceil_mono _ _ Hl).
  rewrite (proj2 (Z.ltb_ge _ _)), decode_encode by (done || lia). cbn.
  by rewrite (proj2 (Z.ltb_ge _ _)), bool_decide_true by done.
Qed.

Lemma decode_fixed_encode n b field :
  Forall byte b → zlen b = n → decode_fixed n (encode STANDARD b) field = Ok b.
Proof.
  intros Hb Hl. unfold decode_fixed, try_into. rewrite decode_bounded_encode by (done || lia). cbn.
  by rewrite Hl, Z.eqb_refl.
Qed.

Lemma decode_url_encode n b field :
  Forall byte b → zlen b = n → decode_base64url_fixed n (encode URL_SAFE_NO_PAD b) field = Ok b.
Proof.
  intros Hb Hl. unfold decode_base64url_fixed, try_into. rewrite decode_encode by done. cbn.
  by rewrite bool_decide_true, Hl, Z.eqb_refl by done.
Qed.

Lemma backup_decode_encode n b field :
  Forall byte b → zlen b = n → backup_decode_fixed n (encode STANDARD b) field = Ok b.
Proof.
  intros Hb Hl. unfold backup_decode_fixed, try_into. rewrite decode_encode by done. cbn.
  by rewrite bool_decide_true, Hl, Z.eqb_refl by done.
Qed.

Lemma base64_plain s : forallb base64_char s = true → forallb plain s = true.
Proof.
  apply forallb_impl. unfold base64_char, is_ascii_alphanumeric, is_ascii_digit, is_ascii_upper,
    is_ascii_lower, plain. intros c H. lia.
Qed.

Lemma encode_scalar e `{EngineLaws e} b : Forall byte b → Forall scalar (encode e b).
Proof. intros Hb. by apply ascii_scalar, plain_ascii, base64_plain, encode_plain. Qed.

Lemma encode_json_len e `{EngineLaws e} b :
  Forall byte b → str_len (json_string (encode e b)) ≤ div_ceil (zlen b) 3 * 4 + 2.
Proof.
  intros Hb. rewrite json_string_plain_len by by apply base64_plain, encode_plain.
  pose proof (encode_len b Hb). lia.
Qed.

Lemma seal_Ok key nonce m aad e c :
  seal key nonce m aad e = Ok c →
  zlen c = zlen m + 16 ∧ (Forall byte m → Forall byte c) ∧ ∀ e', unseal key nonce c aad e' = Ok m.
Proof.
  unfold seal, unseal. intros H. rinv H. subst. split; [by eapply aead_len|].
  split; [intros; by eapply aead_bytes|]. intros e'. by erewrite aead_open.
Qed.

Lemma unseal_Ok key nonce m aad e c :
  unseal key nonce c aad e = Ok m → zlen key = KEY_BYTES ∧ aead_encrypt key nonce m aad = Some c.
Proof. unfold unseal. intros H. rinv H. bprop. subst. split; [done|]. by apply aead_sound. Qed.

(** ** Bundles *)

(** [serde_json] reads back the canonical form of this bundle. *)
Definition serde_ok bundle : Prop :=
  ∀ c m, canonicalized bundle = Ok c → bundle_to_vec c = Some m → bundle_from_slice m = Some c.

(** The strings and numbers of a binding are those of its Rust types. *)
Definition binding_typed (b : SyncObjectBinding) : Prop := json_wf (binding_json b).
Definition owner_typed (o : RecoveryOwnerBinding) : Prop := json_wf (owner_json o).

Lemma canonical_bytes_Ok bundle m :
  canonical_bundle_bytes bundle = Ok m →
  ∃ c, canonicalized bundle = Ok c ∧ bundle_to_vec c = Some m ∧ Forall byte m ∧
    zlen m ≤ MAX_BUNDLE_PLAINTEXT_BYTES.
Proof.
  unfold canonical_bundle_bytes. intros H. rinv H. bprop. subst. exists x. split_and!; try done.
  by eapply bundle_bytes.
Qed.

Lemma canonicalized_fields bundle c :
  canonicalized bundle = Ok c → revision c = revision bundle ∧ schema c = schema bundle.
Proof. intros [_ Hs]%canonicalized_same. by rewrite (sc_revision _ _ Hs), (sc_schema _ _ Hs). Qed.

Lemma decode_canonical bundle m :
  serde_ok bundle → canonical_bundle_bytes bundle = Ok m → decode_bundle m = canonicalized bundle.
Proof.
  intros Hs (c & Hc & Hm & _ & Hl)%canonical_bytes_Ok. unfold decode_bundle.
  rewrite (proj2 (Z.ltb_ge _ _)) by done. rewrite (Hs c m Hc Hm), Hc. cbn.
  by rewrite (canonicalized_valid _ _ Hc).
Qed.

Lemma open_bundle_seal bundle key nonce b m c :
  serde_ok bundle → canonical_bundle_bytes bundle = Ok m → binding_differs b bundle = false →
  seal key nonce m (to_vec (binding_json b)) InvalidSyncKey = Ok c →
  open_bundle key nonce c b = canonicalized bundle.
Proof.
  intros Hs Hm Hb Hc. unfold open_bundle. destruct (seal_Ok _ _ _ _ _ _ Hc) as (_ & _ & ->). cbn.
  rewrite (decode_canonical _ _ Hs Hm). apply canonical_bytes_Ok in Hm as (c' & Hc' & _). rewrite Hc'. cbn.
  destruct (canonicalized_fields _ _ Hc') as [-> ->]. unfold binding_differs in Hb. bprop.
  rewrite (proj2 (Z.eqb_eq _ _)), bool_decide_true by done. done.
Qed.

Lemma validate_owner_text_Ok v f u : validate_owner_text v f = Ok u → 0 ≤ str_len v ≤ 512.
Proof.
  unfold validate_owner_text, MAX_OWNER_TEXT_BYTES. intros H. rinv H. bprop.
  pose proof (str_len_nonneg v). lia.
Qed.

Lemma validate_binding_Ok b u :
  validate_binding b = Ok u → str_len (application_id b) ≤ 512 ∧ str_len (account_id b) ≤ 512 ∧
  (∀ etag, base_etag b = Some etag → str_len etag ≤ 1024).
Proof.
  unfold validate_binding, MAX_ETAG_BYTES. intros H. rinv H.
  apply validate_owner_text_Ok in E, E0. split_and!; [lia..|]. intros etag Hetag. rewrite Hetag in *. cbn in *. bprop. lia.
Qed.

(** Splits the typing of a serialized object into that of its fields. *)
Ltac json_typed :=
  cbn [json_wf foldr sync_envelope_json recovery_json recovery_fields backup_json app];
  repeat match goal with |- _ ∧ _ => split end;
  try exact I;
  first [apply encode_scalar; [exact _|] | apply ascii_scalar; vm_compute; reflexivity | idtac].

Ltac literal_sizes :=
  repeat match goal with |- context [str_len (json_string (lit ?s))] =>
    let n := eval vm_compute in (str_len (json_string (lit s))) in
    change (str_len (json_string (lit s))) with n end.

Lemma binding_size b u : validate_binding b = Ok u → json_bound (binding_json b) ≤ 16384.
Proof.
  intros (H1 & H2 & H3)%validate_binding_Ok. unfold binding_json. cbn [json_bound foldr]. literal_sizes.
  pose proof (json_string_len (application_id b)). pose proof (json_string_len (account_id b)).
  assert (str_len (json_string (schema_name (binding_schema b))) ≤ 64) by (by destruct (binding_schema b)).
  assert (json_bound (json_opt JNumber (base_revision b)) ≤ 20) by (by destruct (base_revision b)).
  assert (json_bound (json_opt JString (base_etag b)) ≤ 6146).
  { destruct (base_etag b) as [etag|]; cbn [json_opt json_bound]; [|lia]. pose proof (json_string_len etag).
    specialize (H3 etag eq_refl). lia. }
  lia.
Qed.

Lemma owner_size o u : validate_owner o = Ok u → json_bound (owner_json o) ≤ 8192.
Proof.
  unfold validate_owner. intros H. rinv H. apply validate_owner_text_Ok in E, E0.
  unfold owner_json. cbn [json_bound foldr]. literal_sizes.
  pose proof (json_string_len (owner_application_id o)). pose proof (json_string_len (owner_account_id o)). lia.
Qed.

(** An encrypted bundle opens, with the key and the binding it was encrypted
    for, to the canonical form of the bundle. *)
Lemma encrypt_bundle_opens bundle key nonce b bytes :
  encrypt_bundle bundle key nonce b = Ok bytes → serde_ok bundle → binding_typed b →
  Forall byte nonce → zlen nonce = NONCE_BYTES →
  decrypt_bundle bytes key b = canonicalized bundle.
Proof.
  unfold encrypt_bundle. intros H Hs Ht Hn Hl. rinv H. subst bytes.
  rename E1 into Hm, E2 into Hc, E into Hv, E0 into Hb.
  destruct (seal_Ok _ _ _ _ _ _ Hc) as (Hcl & Hcb & _).
  destruct (canonical_bytes_Ok _ _ Hm) as (_ & _ & _ & Hmb & Hml). specialize (Hcb Hmb).
  unfold decrypt_bundle. set (e := mkSyncEnvelope _ _ _ _ _).
  assert (json_wf (sync_envelope_json e)) as Hw.
  { by json_typed. }
  pose proof (to_vec_len _ Hw) as Hlen.
  assert (zlen (to_vec (sync_envelope_json e)) ≤ MAX_ENVELOPE_BYTES).
  { etrans; [exact Hlen|]. unfold sync_envelope_json. cbn [json_bound foldr e se_nonce se_binding se_ciphertext].
    literal_sizes. pose proof (binding_size _ _ Hv). pose proof (encode_json_len STANDARD _ Hn).
    pose proof (encode_json_len STANDARD _ Hcb). pose proof (div_ceil_mono (zlen x1) (MAX_BUNDLE_PLAINTEXT_BYTES + 16) ltac:(lia)).
    unfold MAX_BUNDLE_PLAINTEXT_BYTES, MAX_ENVELOPE_BYTES, NONCE_BYTES, div_ceil in *. rewrite Hl in *.
    change ((24 + 3 - 1) / 3) with 8 in *.
    change ((64 * 1024 * 1024 + 16 + 3 - 1) / 3) with 22369627 in *. lia. }
  rewrite (proj2 (Z.ltb_ge _ _)), Hv by done. cbn [rbind]. rewrite sync_envelope_read by done. cbn [ok_or rbind].
  rewrite bool_decide_true by done. cbn [negb e se_nonce se_ciphertext].
  rewrite decode_fixed_encode by done. cbn [rbind].
  rewrite decode_bounded_encode by (done || lia). cbn [rbind]. by eapply open_bundle_seal.
Qed.

(** ** Recovery envelopes *)

Definition current_kdf (salt : list Z) : RecoveryKdfHeader :=
  mkKdf Argon2idSyncRecoveryV1 KDF_MEMORY_KIB KDF_ITERATIONS KDF_PARALLELISM KDF_OUTPUT_BYTES
    (encode STANDARD salt).

Lemma validate_current_kdf s :
  Forall byte s → zlen s = SALT_BYTES → validate_recovery_kdf (current_kdf s) = Ok tt.
Proof. intros. unfold validate_recovery_kdf. cbn -[decode_fixed]. by rewrite decode_fixed_encode. Qed.

Lemma create_recovery_opens key password owner s nonce bytes :
  create_recovery_envelope key password owner s nonce = Ok bytes → owner_typed owner →
  zlen key = KEY_BYTES → Forall byte key → Forall byte s → zlen s = SALT_BYTES →
  Forall byte nonce → zlen nonce = NONCE_BYTES →
  zlen bytes ≤ 64 * 1024 ∧ Forall byte bytes ∧ open_recovery_envelope bytes password owner = Ok key.
Proof.
  unfold create_recovery_envelope. fold (current_kdf s). intros H Ht Hk Hkb Hs Hsl Hn Hl. rinv H. subst bytes.
  rename E into Hv, E0 into Hd, E1 into Hc, x0 into rk, x1 into c.
  destruct (seal_Ok _ _ _ _ _ _ Hc) as (Hcl & Hcb & Hun). specialize (Hcb Hkb).
  set (e := mkRecovery _ _ _ _ _ _).
  assert (json_wf (recovery_json e)) as Hw.
  { json_typed; try done. cbn [json_wf kdf_json e re_kdf current_kdf foldr memory_kib iterations parallelism output_bytes salt].
    split_and!; try (apply ascii_scalar; vm_compute; reflexivity); try (unfold u64_max; vm_compute; split; discriminate);
      try done. by apply encode_scalar; [exact _|]. }
  assert (zlen (to_vec (recovery_json e)) ≤ 64 * 1024) as Hsize.
  { etrans; [by apply to_vec_len|]. unfold recovery_json, recovery_fields, kdf_json.
    cbn [json_bound foldr app e re_owner re_kdf re_nonce re_ciphertext current_kdf memory_kib iterations parallelism
      output_bytes salt]. literal_sizes.
    pose proof (owner_size _ _ Hv). pose proof (encode_json_len STANDARD _ Hn) as Hne.
    pose proof (encode_json_len STANDARD _ Hcb) as Hce. pose proof (encode_json_len STANDARD _ Hs) as Hse.
    rewrite Hl in Hne. rewrite Hcl, Hk in Hce. rewrite Hsl in Hse. vm_compute (div_ceil _ _) in Hne, Hce, Hse.
    lia. }
  split; [done|]. split; [by apply to_vec_bytes|]. unfold open_recovery_envelope.
  rewrite (proj2 (Z.ltb_ge _ _)), Hv by done. cbn [rbind]. rewrite recovery_read by done. cbn [ok_or rbind].
  rewrite bool_decide_true by done. cbn [negb e re_kdf re_nonce re_ciphertext re_owner].
  rewrite validate_current_kdf, decode_fixed_encode by done. cbn [rbind].
  rewrite decode_bounded_encode by (done || lia). cbn [rbind]. rewrite Hd. cbn [rbind]. rewrite Hun. cbn [rbind].
  by rewrite Hk.
Qed.

Lemma create_recovery_for_service_opens key password owner s nonce up :
  create_recovery_envelope_for_service key password owner (Some s) (Some nonce) = Ok up →
  zlen key = KEY_BYTES → Forall byte s → zlen s = SALT_BYTES → Forall byte nonce → zlen nonce = NONCE_BYTES →
  open_recovery_envelope_from_service up password owner = Ok key.
Proof.
  unfold create_recovery_envelope_for_service. intros H Hk Hs Hsl Hn Hl. cbn [ok_or rbind] in H. rinv H. subst up.
  rename E1 into E3, E2 into E4.
  unfold open_recovery_envelope_from_service. rewrite E. cbn [rbind]. rewrite E0. cbn [rbind].
  cbn [up_algorithm up_kdf up_aad up_ciphertext up_ciphertext_sha256 up_salt_base64url up_nonce_base64url].
  destruct (seal_Ok _ _ _ _ _ _ E4) as (Hcl & _ & Hun).
  rewrite !bool_decide_true, Hcl, Hk by done. cbn [negb orb Z.eqb Pos.eqb Z.add Pos.add KEY_BYTES].
  rewrite !decode_url_encode by done. cbn [rbind]. rewrite E3. cbn [rbind]. rewrite Hun. cbn [rbind]. by rewrite Hk.
Qed.

(** ** Offline backups *)

Lemma backup_opens password plaintext s nonce encoded :
  encrypt_offline_backup password plaintext (Some s) (Some nonce) = Ok encoded →
  Forall byte plaintext → Forall byte s → zlen s = SALT_BYTES → Forall byte nonce → zlen nonce = NONCE_BYTES →
  decrypt_offline_backup password encoded = Ok plaintext.
Proof.
  unfold encrypt_offline_backup. intros H Hp Hs Hsl Hn Hl. cbn [ok_or rbind] in H. rinv H. subst encoded.
  rename E0 into Hmax, E1 into Hd, E2 into Hc, E3 into Hfile. bprop.
  destruct (seal_Ok _ _ _ _ _ _ Hc) as (Hcl & Hcb & Hun). specialize (Hcb Hp).
  set (e := mkBackup _ _ _ _ _ _) in *. assert (json_wf (backup_json e)) as Hw by by json_typed.
  unfold decrypt_offline_backup. rewrite bool_decide_false by apply to_vec_object.
  rewrite (proj2 (Z.ltb_ge _ _)) by done. cbn [orb]. rewrite backup_read by done. cbn [ok_or rbind].
  cbn [e ob_format ob_cipher ob_kdf ob_salt ob_nonce ob_ciphertext]. rewrite !bool_decide_true by done.
  cbn [negb orb]. rewrite !backup_decode_encode by done. cbn [rbind].
  pose proof (encode_len (e := STANDARD) _ Hcb).
  pose proof (div_ceil_mono (zlen x0) (MAX_OFFLINE_BACKUP_PLAINTEXT_BYTES + 16) ltac:(lia)).
  rewrite (proj2 (Z.ltb_ge _ _)), decode_encode by (done || lia). cbn [ok_or rbind].
  rewrite bool_decide_true by done. cbn [negb]. rewrite Hd. cbn [rbind]. rewrite Hun. cbn [rbind].
  by rewrite bool_decide_false, (proj2 (Z.ltb_ge _ _)) by done.
Qed.

(** The file is larger than the text of its ciphertext. *)
Lemma backup_size_lower e : str_len (json_string (ob_ciphertext e)) ≤ zlen (to_vec (backup_json e)).
Proof.
  unfold to_vec. rewrite zlen_utf8_encode. apply (field_size (lit "ciphertext") (JString (ob_ciphertext e))).
  unfold backup_json. set_solver.
Qed.

Lemma backup_size_upper s nonce c :
  Forall byte s → zlen s = SALT_BYTES → Forall byte nonce → zlen nonce = NONCE_BYTES → Forall byte c →
  zlen (to_vec (backup_json (mkBackup FORMAT KDF CIPHER (encode STANDARD s) (encode STANDARD nonce)
    (encode STANDARD c)))) ≤ div_ceil (zlen c) 3 * 4 + 512.
Proof.
  intros Hs Hsl Hn Hl Hc. etrans; [apply to_vec_len; by json_typed|].
  unfold backup_json. cbn [json_bound foldr ob_format ob_kdf ob_cipher ob_salt ob_nonce ob_ciphertext].
  unfold FORMAT, KDF, CIPHER. literal_sizes.
  pose proof (encode_json_len STANDARD _ Hs) as H1. pose proof (encode_json_len STANDARD _ Hn) as H2.
  pose proof (encode_json_len STANDARD _ Hc) as H3. rewrite Hsl in H1. rewrite Hl in H2.
  vm_compute (div_ceil _ _) in H1, H2. lia.
Qed.

(** C27. Backups open, up to the size of the file. When the libraries work, a
    payload that stays 1024 bytes below the limit is exported, and the file
    gives it back with the same password; a payload of exactly the limit, which
    the first check admits, is always refused, because its file is too large. *)
Theorem offline_backup_exact password plaintext s nonce key c :
  Forall byte plaintext → plaintext ≠ [] → Forall byte s → zlen s = SALT_BYTES → Forall byte nonce →
  zlen nonce = NONCE_BYTES → argon2id password s = Some key → aead_encrypt key nonce plaintext AAD = Some c →
  (zlen plaintext ≤ MAX_OFFLINE_BACKUP_PLAINTEXT_BYTES - 1024 →
   ∃ encoded, encrypt_offline_backup password plaintext (Some s) (Some nonce) = Ok encoded ∧
     decrypt_offline_backup password encoded = Ok plaintext) ∧
  (zlen plaintext = MAX_OFFLINE_BACKUP_PLAINTEXT_BYTES →
   encrypt_offline_backup password plaintext (Some s) (Some nonce) = Err (BoundExceeded "offline backup file")).
Proof.
  intros Hp Hne Hs Hsl Hn Hl Hk Hc. pose proof (aead_len _ _ _ _ _ Hc) as Hcl.
  pose proof (aead_bytes _ _ _ _ _ Hp Hc) as Hcb.
  set (e := mkBackup FORMAT KDF CIPHER (encode STANDARD s) (encode STANDARD nonce) (encode STANDARD c)).
  assert (zlen plaintext ≤ MAX_OFFLINE_BACKUP_PLAINTEXT_BYTES →
    encrypt_offline_backup password plaintext (Some s) (Some nonce) =
    if MAX_OFFLINE_BACKUP_FILE_BYTES <? zlen (to_vec (backup_json e))
    then Err (BoundExceeded "offline backup file") else Ok (to_vec (backup_json e))) as Henc.
  { intros Hmax. unfold encrypt_offline_backup. rewrite bool_decide_false, (proj2 (Z.ltb_ge _ _)) by done.
    unfold derive_key, seal. cbn [ok_or rbind]. rewrite Hk. cbn [ok_or rbind].
    rewrite (argon2id_len _ _ _ Hk). cbn [negb Z.eqb KEY_BYTES Pos.eqb]. rewrite Hc. done. }
  split; intros Hz.
  - rewrite Henc by lia. pose proof (backup_size_upper _ _ _ Hs Hsl Hn Hl Hcb) as Hup. fold e in Hup.
    pose proof (div_ceil_mono (zlen c) (MAX_OFFLINE_BACKUP_PLAINTEXT_BYTES - 1024 + 16) ltac:(lia)) as Hd.
    vm_compute (div_ceil (_ - _ + _) _) in Hd.
    rewrite (proj2 (Z.ltb_ge _ _)) by (unfold MAX_OFFLINE_BACKUP_FILE_BYTES; lia).
    eexists. split; [done|]. apply (backup_opens password plaintext s nonce); [|done..]. rewrite Henc by lia.
    by rewrite (proj2 (Z.ltb_ge _ _)) by (unfold MAX_OFFLINE_BACKUP_FILE_BYTES; lia).
  - rewrite Henc by lia. pose proof (backup_size_lower e) as Hlow. cbn [e ob_ciphertext] in Hlow. fold e in Hlow.
    rewrite json_string_plain_len, standard_len, Hcl, Hz in Hlow by (done || by apply base64_plain, encode_plain).
    vm_compute (div_ceil _ _) in Hlow. rewrite (proj2 (Z.ltb_lt _ _)); [done|].
    unfold MAX_OFFLINE_BACKUP_FILE_BYTES. lia.
Qed.

(** ** What is authenticated *)

Lemma schema_name_inj s1 s2 : schema_name s1 = schema_name s2 → s1 = s2.
Proof. destruct s1, s2; first [done|intros H; vm_compute in H; discriminate]. Qed.

(** The associated data determine every field of the binding. *)
Lemma binding_aad_inj b1 b2 :
  binding_typed b1 → binding_typed b2 → to_vec (binding_json b1) = to_vec (binding_json b2) → b1 = b2.
Proof.
  intros H1 H2 H%to_vec_inj; [|done..]. unfold binding_json in H.
  injection H as Ha Hb Hs Hr Hbr Hbe Hk. clear H1 H2. destruct b1 as [? ? s1 [] ? br1 be1 ?], b2 as [? ? s2 [] ? br2 be2 ?].
  cbn in *. apply schema_name_inj in Hs as ->. destruct br1, br2, be1, be2; cbn in *; congruence.
Qed.

Lemma open_bundle_Ok key nonce c b bundle :
  open_bundle key nonce c b = Ok bundle →
  ∃ m, aead_decrypt key nonce c (to_vec (binding_json b)) = Some m ∧ decode_bundle m = Ok bundle ∧
    revision bundle = binding_revision b ∧ schema bundle = binding_schema b.
Proof.
  unfold open_bundle, unseal. intros H. rinv H. rinv E. bprop. subst. by exists x.
Qed.

End Properties.
End Crypto.
