(* ===== verification/SyncExchange.v ===== *)
(** * Exchanges through a sync plugin

    src/exchange.rs of crates/ssh-profile-sync: a bundle encrypted for one
    plugin and profile, with the envelope from which its key is recovered. A
    plugin carries the bytes and may change them; the checks here and the
    associated data of the cipher decide what the core accepts back. *)

From S2P Require Import Prelude RustStr BTree SerdeJson SyncSchema SyncCanonical SyncCrypto.

Module Exchange.
Import Sync Json Canonical Crypto.

Definition EXCHANGE_FORMAT : str := lit "norishell-ssh-sync-exchange-v2".
Definition VAULT_EXCHANGE_FORMAT : str := lit "norishell-ssh-vault-exchange-v3".
Definition MAX_EXCHANGE_BYTES : Z := 96 * 1024 * 1024.

(** ** Data *)

Record PluginExchangeBinding := mkPluginBinding {
  plugin_id : str;
  signer_fingerprint_sha256 : str;
  profile_id : str;
  pb_revision : Z;
  pb_base_revision : option Z;
  pb_base_etag : option str }.

Record PluginExchangeSummary := mkSummary {
  sum_schema : BundleSchema;
  sum_revision : Z;
  sum_base_revision : option Z;
  sum_base_etag : option str;
  sum_key_version : Z;
  sum_ciphertext_sha256 : str;
  sum_exchange_sha256 : str }.

Record ExchangeOwnerWire := mkOwnerWire {
  ow_plugin_id : str;
  ow_signer_fingerprint_sha256 : str;
  ow_profile_id : str }.

Record RecoveryWire := mkRecoveryWire { rw_envelope : str; rw_envelope_sha256 : str }.

Record EncryptedWire := mkEncryptedWire {
  ew_algorithm : str;
  ew_nonce : str;
  ew_ciphertext : str;
  ew_ciphertext_sha256 : str }.

Record ExchangeWire := mkWire {
  w_format : str;
  w_owner : ExchangeOwnerWire;
  w_binding : SyncObjectBinding;
  w_recovery : RecoveryWire;
  w_encrypted : EncryptedWire }.

#[global] Instance owner_wire_eq : EqDecision ExchangeOwnerWire.
Proof. solve_decision. Defined.

Definition wire_json (w : ExchangeWire) : Json :=
  JObject [(lit "format", JString (w_format w));
           (lit "owner", JObject [(lit "pluginId", JString (ow_plugin_id (w_owner w)));
              (lit "signerFingerprintSha256", JString (ow_signer_fingerprint_sha256 (w_owner w)));
              (lit "profileId", JString (ow_profile_id (w_owner w)))]);
           (lit "binding", binding_json (w_binding w));
           (lit "recovery", JObject [(lit "envelope", JString (rw_envelope (w_recovery w)));
              (lit "envelopeSha256", JString (rw_envelope_sha256 (w_recovery w)))]);
           (lit "encrypted", JObject [(lit "algorithm", JString (ew_algorithm (w_encrypted w)));
              (lit "nonce", JString (ew_nonce (w_encrypted w)));
              (lit "ciphertext", JString (ew_ciphertext (w_encrypted w)));
              (lit "ciphertextSha256", JString (ew_ciphertext_sha256 (w_encrypted w)))])].

(** ** Checks *)

Definition identifier_byte (c : Z) : bool :=
  is_ascii_alphanumeric c || (c =? 46) || (c =? 45) || (c =? 95) || (c =? 58).

Definition validate_identifier (value : str) (maximum : Z) : result unit :=
  if bool_decide (value = []) || (maximum <? str_len value) || negb (forallb is_ascii value)
     || negb (forallb identifier_byte value)
  then Err (InvalidBundle "invalid exchange identifier") else Ok tt.

Definition is_lower_hex (c : Z) : bool := is_ascii_digit c || ((97 <=? c) && (c <=? 102)).

Definition valid_sha256 (value : str) : bool := (str_len value =? 64) && forallb is_lower_hex value.

Definition validate_plugin_binding (b : PluginExchangeBinding) : result unit :=
  let? _ := validate_identifier (plugin_id b) 160 in
  if negb (valid_sha256 (signer_fingerprint_sha256 b))
  then Err (InvalidBundle "invalid signer fingerprint")
  else
    let? _ := validate_identifier (profile_id b) 160 in
    if (pb_revision b =? 0) || is_some_and (λ v, pb_revision b <=? v) (pb_base_revision b)
    then Err (InvalidBundle "invalid exchange revision")
    else if is_some_and (λ v, bool_decide (v = []) || (1024 <? str_len v) || existsb is_control v)
              (pb_base_etag b)
    then Err (InvalidBundle "invalid exchange base etag")
    else Ok tt.

Definition owner (b : PluginExchangeBinding) : ExchangeOwnerWire :=
  mkOwnerWire (plugin_id b) (signer_fingerprint_sha256 b) (profile_id b).

Definition owner_id (b : PluginExchangeBinding) : str :=
  lit "plugin:" ++ to_decimal (str_len (plugin_id b)) ++ lit ":" ++ plugin_id b ++ lit ":signer:" ++
  signer_fingerprint_sha256 b ++ lit ":profile:" ++ to_decimal (str_len (profile_id b)) ++ lit ":" ++
  profile_id b.

Definition object_binding_for_schema (b : PluginExchangeBinding) (kv : Z) (s : BundleSchema)
  : SyncObjectBinding :=
  mkBinding (lit "norishell") (owner_id b) s SshProfileBundle (pb_revision b) (pb_base_revision b)
    (pb_base_etag b) kv.

Definition new_object_binding (b : PluginExchangeBinding) (kv : Z) (s : BundleSchema) : SyncObjectBinding :=
  object_binding_for_schema b kv s.

Definition authenticated_object_binding (b : PluginExchangeBinding) (kv : Z) (s : BundleSchema)
  : result SyncObjectBinding :=
  match s with
  | SV2 | SV3 | SV4 | SV5 | SV6 => Ok (object_binding_for_schema b kv s)
  | SV1 => Err BindingMismatch
  end.

Definition sync_algorithm (value : str) : result str :=
  if bool_decide (value = SERVICE_SYNC_ALGORITHM) then Ok SERVICE_SYNC_ALGORITHM
  else Err AuthenticationFailed.

(** The reader of [serde_json] for the wire. *)
Class WireReader := { wire_from_slice : list Z → option ExchangeWire }.
Class WireReaderLaws {R : WireReader} : Prop := {
  wire_read w : json_wf (wire_json w) → wire_from_slice (to_vec (wire_json w)) = Some w }.

Section Operations.
Context {J : Type} `{JV : JsonValue J} {C : Crypto J} {R : WireReader}.
Implicit Types bundle : PortableBundleV1 J.

Definition stable_plugin_data_owner (id : str) : result str :=
  let? _ := validate_identifier id 160 in
  Ok (sha256_hex (utf8_encode (lit "norishell:ssh-sync-owner:v1" ++ [0] ++ id))).

Definition decode_base64 (value : str) (maximum : Z) : result (list Z) :=
  if div_ceil maximum 3 * 4 + 4 <? str_len value then Err (BoundExceeded "exchange ciphertext")
  else
    let? decoded := ok_or (decode STANDARD value) AuthenticationFailed in
    if (maximum <? zlen decoded) || negb (bool_decide (encode STANDARD decoded = value))
    then Err AuthenticationFailed else Ok decoded.

Definition canonical (e : Engine) (value : str) : bool :=
  is_some_and (λ decoded, bool_decide (encode e decoded = value)) (decode e value).

Definition canonical_base64 (value : str) : bool := canonical STANDARD value.
Definition canonical_base64url (value : str) : bool := canonical URL_SAFE_NO_PAD value.

Definition parse_wire (bytes : list Z) : result ExchangeWire :=
  if bool_decide (bytes = []) || (MAX_EXCHANGE_BYTES <? zlen bytes)
  then Err (BoundExceeded "plugin exchange")
  else ok_or (wire_from_slice bytes) Serialization.

Definition validate_wire_common (w : ExchangeWire) (expected : PluginExchangeBinding) : result unit :=
  let? _ := validate_plugin_binding expected in
  let? expected_binding := authenticated_object_binding expected 1 (binding_schema (w_binding w)) in
  if negb (bool_decide (w_owner w = owner expected)) || negb (bool_decide (w_binding w = expected_binding))
  then Err BindingMismatch
  else if negb (bool_decide (ew_algorithm (w_encrypted w) = SERVICE_SYNC_ALGORITHM))
          || negb (canonical_base64 (rw_envelope (w_recovery w)))
          || negb (canonical_base64 (ew_ciphertext (w_encrypted w)))
          || negb (canonical_base64url (ew_nonce (w_encrypted w)))
          || negb (valid_sha256 (rw_envelope_sha256 (w_recovery w)))
          || negb (valid_sha256 (ew_ciphertext_sha256 (w_encrypted w)))
  then Err AuthenticationFailed
  else Ok tt.

Definition validate_wire_with_format (w : ExchangeWire) (expected : PluginExchangeBinding) (format : str)
  : result unit :=
  if negb (bool_decide (w_format w = format)) then Err BindingMismatch else validate_wire_common w expected.

Definition validate_wire (w : ExchangeWire) (expected : PluginExchangeBinding) : result unit :=
  validate_wire_with_format w expected EXCHANGE_FORMAT.

Definition validate_wire_any_supported (w : ExchangeWire) (expected : PluginExchangeBinding) : result unit :=
  if negb (bool_decide (w_format w = EXCHANGE_FORMAT)) && negb (bool_decide (w_format w = VAULT_EXCHANGE_FORMAT))
  then Err BindingMismatch else validate_wire_common w expected.

(** ** Creating *)

(** The schemas of current exchanges. *)
Definition exchange_schema (s : BundleSchema) : bool :=
  match s with SV3 | SV4 | SV5 | SV6 => true | SV1 | SV2 => false end.

(** The end of both creations: the wire and its size. *)
Definition wire_bytes (format : str) (b : PluginExchangeBinding) (object : SyncObjectBinding)
    (envelope : list Z) (encrypted : EncryptedSyncObject) : result (list Z) :=
  let bytes := to_vec (wire_json (mkWire format (owner b) object
    (mkRecoveryWire (encode STANDARD envelope) (sha256_hex envelope))
    (mkEncryptedWire (enc_algorithm encrypted) (enc_nonce_base64url encrypted)
       (encode STANDARD (enc_ciphertext encrypted)) (enc_ciphertext_sha256 encrypted)))) in
  if MAX_EXCHANGE_BYTES <? zlen bytes then Err (BoundExceeded "plugin exchange") else Ok bytes.

(** The random bytes of one exchange, in the order they are drawn. *)
Record Randoms := mkRandoms {
  rnd_key : option (list Z); rnd_salt : option (list Z);
  rnd_envelope_nonce : option (list Z); rnd_nonce : option (list Z) }.

Definition recovery_owner (b : PluginExchangeBinding) (kv : Z) : RecoveryOwnerBinding :=
  mkOwner (lit "norishell") (owner_id b) kv.

Definition create_plugin_exchange bundle (password : list Z) (b : PluginExchangeBinding) (rnd : Randoms)
  : result (list Z) :=
  let? _ := validate_plugin_binding b in
  if negb (exchange_schema (schema bundle)) || negb (revision bundle =? pb_revision b)
  then Err BindingMismatch
  else
    let object := new_object_binding b 1 (schema bundle) in
    let? key := sync_key_generate (rnd_key rnd) in
    let? recovery := create_recovery_envelope_random key password (recovery_owner b 1)
                       (rnd_salt rnd) (rnd_envelope_nonce rnd) in
    let? encrypted := encrypt_bundle_for_service bundle key (rnd_nonce rnd) object in
    wire_bytes EXCHANGE_FORMAT b object recovery encrypted.

Definition create_plugin_exchange_with_key bundle (key vault_key_envelope : list Z)
    (b : PluginExchangeBinding) (rnd_nonce : option (list Z)) : result (list Z) :=
  let? _ := validate_plugin_binding b in
  if negb (exchange_schema (schema bundle)) || negb (revision bundle =? pb_revision b)
     || bool_decide (vault_key_envelope = []) || (64 * 1024 <? zlen vault_key_envelope)
  then Err BindingMismatch
  else
    let object := new_object_binding b 1 (schema bundle) in
    let? encrypted := encrypt_bundle_for_service bundle key rnd_nonce object in
    wire_bytes VAULT_EXCHANGE_FORMAT b object vault_key_envelope encrypted.

(** ** Inspecting *)

Definition summary (w : ExchangeWire) (bytes : list Z) : PluginExchangeSummary :=
  mkSummary (binding_schema (w_binding w)) (binding_revision (w_binding w)) (base_revision (w_binding w))
    (base_etag (w_binding w)) (key_version (w_binding w)) (ew_ciphertext_sha256 (w_encrypted w))
    (sha256_hex bytes).

Definition inspect_plugin_exchange (bytes : list Z) (expected : PluginExchangeBinding)
  : result PluginExchangeSummary :=
  let? w := parse_wire bytes in
  let? _ := validate_wire w expected in
  Ok (summary w bytes).

Definition inspect_wire_owner (w : ExchangeWire) (bytes : list Z) (plugin signer profile : str)
  : result (PluginExchangeBinding * PluginExchangeSummary) :=
  let b := mkPluginBinding plugin signer profile (binding_revision (w_binding w))
             (base_revision (w_binding w)) (base_etag (w_binding w)) in
  let? _ := validate_wire_any_supported w b in
  Ok (b, summary w bytes).

Definition inspect_plugin_exchange_owner (bytes : list Z) (plugin signer profile : str)
  : result (PluginExchangeBinding * PluginExchangeSummary) :=
  let? w := parse_wire bytes in inspect_wire_owner w bytes plugin signer profile.

Definition inspect_plugin_exchange_data_owner (bytes : list Z) (plugin profile : str)
  : result (PluginExchangeBinding * PluginExchangeSummary) :=
  let? w := parse_wire bytes in
  inspect_wire_owner w bytes plugin (ow_signer_fingerprint_sha256 (w_owner w)) profile.

(** ** Opening *)

(** The envelope, with its hash checked. *)
Definition checked_envelope (w : ExchangeWire) : result (list Z) :=
  let? envelope := decode_base64 (rw_envelope (w_recovery w)) (64 * 1024) in
  if negb (bool_decide (sha256_hex envelope = rw_envelope_sha256 (w_recovery w)))
  then Err AuthenticationFailed else Ok envelope.

Definition plugin_exchange_vault_key_envelope (bytes : list Z) (expected : PluginExchangeBinding)
  : result (list Z) :=
  let? w := parse_wire bytes in
  let? _ := validate_wire_with_format w expected VAULT_EXCHANGE_FORMAT in
  checked_envelope w.

(** The encrypted object of the wire, opened with its key. *)
Definition open_encrypted (w : ExchangeWire) (key : list Z) : result (PortableBundleV1 J) :=
  let? algorithm := sync_algorithm (ew_algorithm (w_encrypted w)) in
  let? ciphertext := decode_base64 (ew_ciphertext (w_encrypted w)) (64 * 1024 * 1024 + 16) in
  decrypt_bundle_from_service (mkEncrypted algorithm (ew_nonce (w_encrypted w)) ciphertext
    (ew_ciphertext_sha256 (w_encrypted w))) key (w_binding w).

Definition open_plugin_exchange_with_key (bytes key : list Z) (expected : PluginExchangeBinding)
  : result (PortableBundleV1 J) :=
  let? w := parse_wire bytes in
  let? _ := validate_wire_with_format w expected VAULT_EXCHANGE_FORMAT in
  open_encrypted w key.

Definition open_plugin_exchange (bytes password : list Z) (expected : PluginExchangeBinding)
  : result (PortableBundleV1 J) :=
  let? w := parse_wire bytes in
  let? _ := validate_wire w expected in
  let? recovery := checked_envelope w in
  let? key := open_recovery_envelope recovery password (recovery_owner expected (key_version (w_binding w))) in
  open_encrypted w key.

End Operations.
(** ** The owner determines its parts *)

Lemma decimal_prefix_inj n m r1 r2 :
  0 ≤ n → 0 ≤ m → stops r1 → stops r2 → to_decimal n ++ r1 = to_decimal m ++ r2 → n = m ∧ r1 = r2.
Proof.
  intros Hn Hm H1 H2 H. apply (f_equal span_digits) in H.
  rewrite !span_digits_stop in H by (done || by apply to_decimal_digits). injection H as Hd Hr.
  split; [by apply to_decimal_inj|done].
Qed.

Lemma validate_identifier_Ok v n u :
  validate_identifier v n = Ok u → forallb is_ascii v = true ∧ str_len v = zlen v ∧ zlen v ≤ n.
Proof.
  unfold validate_identifier. intros H. rinv H. bprop.
  match goal with H : forallb is_ascii _ = true |- _ => pose proof (str_len_ascii _ H) end. split_and!; [done..|lia].
Qed.

Lemma lower_hex_plain s : forallb is_lower_hex s = true → forallb plain s = true.
Proof. apply forallb_impl. unfold is_lower_hex, is_ascii_digit, plain. intros c H. lia. Qed.

Lemma valid_sha256_Ok v : valid_sha256 v = true → forallb is_ascii v = true ∧ zlen v = 64.
Proof.
  unfold valid_sha256. intros H. bprop.
  assert (forallb is_ascii v = true) as Ha by by apply plain_ascii, lower_hex_plain.
  split; [done|]. by rewrite <- str_len_ascii.
Qed.

Lemma to_hex_len bs : zlen (to_hex bs) = 2 * zlen bs.
Proof.
  unfold to_hex. induction bs as [|b bs IH]; [done|]. cbn [map concat]. rewrite zlen_app, IH, !zlen_cons.
  unfold zlen at 1. cbn. lia.
Qed.

Lemma to_hex_lower bs : Forall byte bs → forallb is_lower_hex (to_hex bs) = true.
Proof.
  induction 1 as [|b bs Hb _ IH]; [done|]. unfold to_hex in *. cbn [map concat app forallb].
  rewrite IH, andb_true_r. unfold byte in Hb.
  assert (∀ d, 0 ≤ d < 16 → is_lower_hex (digit_char d) = true) as Hd.
  { intros d Hr. unfold is_lower_hex, is_ascii_digit, digit_char. case_match; lia. }
  rewrite !Hd; [done| |]; Z.to_euclidean_division_equations; lia.
Qed.

Record plugin_binding_ok (b : PluginExchangeBinding) : Prop := {
  pbo_plugin : forallb is_ascii (plugin_id b) = true;
  pbo_plugin_len : str_len (plugin_id b) = zlen (plugin_id b);
  pbo_signer : forallb is_ascii (signer_fingerprint_sha256 b) = true;
  pbo_signer_len : zlen (signer_fingerprint_sha256 b) = 64;
  pbo_profile : forallb is_ascii (profile_id b) = true;
  pbo_profile_len : str_len (profile_id b) = zlen (profile_id b) }.

Lemma validate_plugin_binding_Ok b u : validate_plugin_binding b = Ok u → plugin_binding_ok b.
Proof.
  unfold validate_plugin_binding. intros H. rinv H. bprop.
  apply validate_identifier_Ok in E as (? & ? & _), E1 as (? & ? & _).
  match goal with H : valid_sha256 _ = true |- _ => apply valid_sha256_Ok in H as [? ?] end. by split.
Qed.

Lemma app_inj_zlen {A} (a1 a2 r1 r2 : list A) :
  zlen a1 = zlen a2 → a1 ++ r1 = a2 ++ r2 → a1 = a2 ∧ r1 = r2.
Proof. intros Hl H. apply app_inj_1; [|done]. unfold zlen in Hl. lia. Qed.

(** The lengths in [owner_id] make it unambiguous. *)
Lemma owner_id_inj b1 b2 :
  plugin_binding_ok b1 → plugin_binding_ok b2 → owner_id b1 = owner_id b2 →
  plugin_id b1 = plugin_id b2 ∧ signer_fingerprint_sha256 b1 = signer_fingerprint_sha256 b2 ∧
  profile_id b1 = profile_id b2.
Proof.
  intros [] [] H. unfold owner_id in H. apply app_inv_head in H.
  apply decimal_prefix_inj in H as [Hl H]; [|apply str_len_nonneg..|done|done].
  apply app_inv_head, app_inj_zlen in H as [Hp H]; [|lia].
  apply app_inv_head, app_inj_zlen in H as [Hs H]; [|lia].
  apply app_inv_head, decimal_prefix_inj in H as [_ H]; [|apply str_len_nonneg..|done|done].
  by apply app_inv_head in H.
Qed.

(** The numbers and the etag of a binding are those of its Rust types. *)
Record plugin_typed (b : PluginExchangeBinding) : Prop := {
  pt_revision : 0 ≤ pb_revision b ≤ u64_max;
  pt_base : ∀ v, pb_base_revision b = Some v → 0 ≤ v ≤ u64_max;
  pt_etag : ∀ v, pb_base_etag b = Some v → Forall scalar v }.

Lemma owner_id_ascii b : plugin_binding_ok b → forallb is_ascii (owner_id b) = true.
Proof.
  intros []. unfold owner_id.
  assert (∀ n, 0 ≤ n → forallb is_ascii (to_decimal n) = true) as Hd.
  { intros n Hn. eapply forallb_impl; [exact digit_is_ascii|]. by apply to_decimal_digits. }
  rewrite !forallb_app, !Hd by apply str_len_nonneg.
  by rewrite pbo_plugin0, pbo_signer0, pbo_profile0.
Qed.

Lemma object_binding_typed b s :
  plugin_binding_ok b → plugin_typed b → binding_typed (object_binding_for_schema b 1 s).
Proof.
  intros Hb []. unfold binding_typed, binding_json, object_binding_for_schema.
  cbn [json_wf foldr application_id account_id binding_schema binding_revision base_revision base_etag key_version].
  repeat match goal with |- _ ∧ _ => split end;
    try (apply ascii_scalar; vm_compute; reflexivity); try (unfold u64_max in *; lia); try exact I.
  - by apply ascii_scalar, owner_id_ascii.
  - apply ascii_scalar. by destruct s.
  - destruct (pb_base_revision b) eqn:E; cbn; [by apply pt_base0|done].
  - destruct (pb_base_etag b) eqn:E; cbn; [by apply pt_etag0|done].
Qed.

(** The associated data of an exchange determine its binding. *)
Lemma exchange_aad_inj b1 b2 s1 s2 :
  plugin_binding_ok b1 → plugin_binding_ok b2 → plugin_typed b1 → plugin_typed b2 →
  to_vec (binding_json (object_binding_for_schema b1 1 s1)) =
  to_vec (binding_json (object_binding_for_schema b2 1 s2)) → b1 = b2 ∧ s1 = s2.
Proof.
  intros H1 H2 T1 T2 H%binding_aad_inj; try by apply object_binding_typed.
  pose proof (f_equal account_id H) as Ho. pose proof (f_equal binding_schema H) as Hs.
  pose proof (f_equal binding_revision H) as Hr. pose proof (f_equal base_revision H) as Hbr.
  pose proof (f_equal base_etag H) as Hbe. clear H. cbn in Hs, Hr, Hbr, Hbe.
  apply owner_id_inj in Ho as (? & ? & ?); [|done..]. split; [|done]. destruct b1, b2. cbn in *. by subst.
Qed.

Section Properties.
Context {J : Type} `{JV : JsonValue J} {C : Crypto J} {CL : CryptoLaws J} {R : WireReader} {RL : WireReaderLaws}.
Implicit Types bundle : PortableBundleV1 J.

Lemma sha256_hex_valid b : valid_sha256 (sha256_hex b) = true.
Proof.
  unfold valid_sha256, sha256_hex. pose proof (to_hex_lower _ (sha256_bytes b)) as Hl.
  rewrite Hl, andb_true_r. apply Z.eqb_eq.
  rewrite str_len_ascii by by apply plain_ascii, lower_hex_plain. by rewrite to_hex_len, sha256_len.
Qed.

Lemma sha256_hex_scalar b : Forall scalar (sha256_hex b).
Proof. apply ascii_scalar. by destruct (valid_sha256_Ok _ (sha256_hex_valid b)). Qed.

Lemma canonical_encode e `{EngineLaws e} b : Forall byte b → canonical e (encode e b) = true.
Proof. intros Hb. unfold canonical. rewrite decode_encode by done. cbn. by rewrite bool_decide_true. Qed.

Lemma decode_base64_encode b n : Forall byte b → zlen b ≤ n → decode_base64 (encode STANDARD b) n = Ok b.
Proof.
  intros Hb Hl. unfold decode_base64. pose proof (encode_len (e := STANDARD) b Hb). pose proof (div_ceil_mono _ _ Hl).
  rewrite (proj2 (Z.ltb_ge _ _)), decode_encode by (done || lia). cbn.
  by rewrite (proj2 (Z.ltb_ge _ _)), bool_decide_true by done.
Qed.

(** What [encrypt_bundle_for_service] returns, and that it opens. *)
Lemma encrypt_for_service_Ok bundle key nonce b e :
  encrypt_bundle_for_service bundle key (Some nonce) b = Ok e → Forall byte nonce → zlen nonce = NONCE_BYTES →
  enc_algorithm e = SERVICE_SYNC_ALGORITHM ∧ enc_nonce_base64url e = encode URL_SAFE_NO_PAD nonce ∧
  Forall byte (enc_ciphertext e) ∧ zlen (enc_ciphertext e) ≤ 64 * 1024 * 1024 + 16 ∧
  enc_ciphertext_sha256 e = sha256_hex (enc_ciphertext e) ∧
  (serde_ok bundle → decrypt_bundle_from_service e key b = canonicalized bundle).
Proof.
  unfold encrypt_bundle_for_service. cbn [ok_or rbind]. intros H Hn Hl. rinv H. subst e.
  cbn [enc_algorithm enc_nonce_base64url enc_ciphertext enc_ciphertext_sha256].
  destruct (canonical_bytes_Ok _ _ E1) as (_ & _ & _ & Hmb & Hml).
  destruct (seal_Ok _ _ _ _ _ _ E2) as (Hcl & Hcb & _). specialize (Hcb Hmb).
  unfold MAX_BUNDLE_PLAINTEXT_BYTES in Hml. split_and!; try done; [lia|]. intros Hs.
  unfold decrypt_bundle_from_service. rewrite E. cbn [rbind enc_algorithm enc_nonce_base64url enc_ciphertext enc_ciphertext_sha256].
  rewrite !bool_decide_true, (proj2 (Z.ltb_ge _ _)) by (done || (unfold MAX_BUNDLE_PLAINTEXT_BYTES; lia)).
  cbn [negb orb]. rewrite decode_url_encode by done. cbn [rbind]. by eapply open_bundle_seal.
Qed.

(** The wire both creations write is read back and passes the checks. *)
Lemma wire_bytes_read format b s envelope e nonce bytes :
  wire_bytes format b (object_binding_for_schema b 1 s) envelope e = Ok bytes →
  validate_plugin_binding b = Ok tt → plugin_typed b → exchange_schema s = true →
  forallb is_ascii format = true → Forall byte envelope → Forall byte nonce →
  enc_algorithm e = SERVICE_SYNC_ALGORITHM → enc_nonce_base64url e = encode URL_SAFE_NO_PAD nonce →
  Forall byte (enc_ciphertext e) → enc_ciphertext_sha256 e = sha256_hex (enc_ciphertext e) →
  ∃ w, parse_wire bytes = Ok w ∧ validate_wire_with_format w b format = Ok tt ∧
    w_binding w = object_binding_for_schema b 1 s ∧
    w_recovery w = mkRecoveryWire (encode STANDARD envelope) (sha256_hex envelope) ∧
    w_encrypted w = mkEncryptedWire SERVICE_SYNC_ALGORITHM (encode URL_SAFE_NO_PAD nonce)
      (encode STANDARD (enc_ciphertext e)) (sha256_hex (enc_ciphertext e)).
Proof.
  unfold wire_bytes. intros H Hv Ht Hs Hf He Hn Ha Hno Hc Hh. rinv H. bprop. subst bytes.
  rewrite Ha, Hno, Hh in *. pose proof (validate_plugin_binding_Ok _ _ Hv) as Hb.
  set (w := mkWire _ _ _ _ _) in *. exists w.
  assert (json_wf (wire_json w)) as Hw.
  { destruct Hb. cbn [wire_json json_wf foldr]. repeat match goal with |- _ ∧ _ => split end; try exact I;
      cbn [w w_format w_owner w_binding w_recovery w_encrypted owner ow_plugin_id ow_signer_fingerprint_sha256 ow_profile_id
        rw_envelope rw_envelope_sha256 ew_algorithm ew_nonce ew_ciphertext ew_ciphertext_sha256];
      first [by apply ascii_scalar | apply sha256_hex_scalar | apply encode_scalar; [exact _|done] | idtac].
    apply object_binding_typed; [by split|done]. }
  split_and!; try done.
  - unfold parse_wire. rewrite bool_decide_false by apply to_vec_object.
    rewrite (proj2 (Z.ltb_ge _ _)), wire_read by done. done.
  - unfold validate_wire_with_format, validate_wire_common. rewrite bool_decide_true, Hv by done. cbn [negb rbind].
    assert (authenticated_object_binding b 1 s = Ok (object_binding_for_schema b 1 s)) as Hab by (by destruct s).
    cbn [w w_binding binding_schema object_binding_for_schema]. rewrite Hab. cbn [rbind].
    unfold canonical_base64, canonical_base64url.
    cbn [w w_binding w_owner w_recovery w_encrypted ew_algorithm rw_envelope ew_ciphertext ew_nonce rw_envelope_sha256 ew_ciphertext_sha256].
    rewrite !bool_decide_true, !(canonical_encode STANDARD), (canonical_encode URL_SAFE_NO_PAD), !sha256_hex_valid by done.
    done.
Qed.

(** Random bytes as the generator fills them. *)
Definition filled (n : Z) (bs : list Z) : Prop := Forall byte bs ∧ zlen bs = n.

Lemma open_encrypted_Ok w bundle key nonce b e :
  encrypt_bundle_for_service bundle key (Some nonce) b = Ok e → filled NONCE_BYTES nonce → serde_ok bundle →
  w_binding w = b →
  w_encrypted w = mkEncryptedWire SERVICE_SYNC_ALGORITHM (encode URL_SAFE_NO_PAD nonce)
    (encode STANDARD (enc_ciphertext e)) (sha256_hex (enc_ciphertext e)) →
  open_encrypted w key = canonicalized bundle.
Proof.
  intros He [Hn Hl] Hs <- Hw. destruct (encrypt_for_service_Ok _ _ _ _ _ He Hn Hl) as (Ha & Hno & Hc & Hcl & Hh & Hd).
  unfold open_encrypted, sync_algorithm. rewrite Hw. cbn [ew_algorithm ew_ciphertext ew_nonce ew_ciphertext_sha256].
  rewrite bool_decide_true, decode_base64_encode by done. cbn [rbind].
  rewrite <- Ha at 1. rewrite <- Hno, <- Hh. destruct e. by apply Hd.
Qed.

Lemma checked_envelope_Ok w envelope :
  Forall byte envelope → zlen envelope ≤ 64 * 1024 →
  w_recovery w = mkRecoveryWire (encode STANDARD envelope) (sha256_hex envelope) →
  checked_envelope w = Ok envelope.
Proof.
  intros He Hl Hw. unfold checked_envelope. rewrite Hw. cbn [rw_envelope rw_envelope_sha256].
  rewrite decode_base64_encode by done. cbn [rbind]. by rewrite bool_decide_true.
Qed.

Lemma encrypted_canonical bundle key nonce b e :
  encrypt_bundle_for_service bundle key (Some nonce) b = Ok e → ∃ c, canonicalized bundle = Ok c.
Proof.
  unfold encrypt_bundle_for_service. cbn [ok_or rbind]. intros H. rinv H.
  apply canonical_bytes_Ok in E1 as (c & Hc & _). by exists c.
Qed.


(** An export made with a key, and what its cipher sealed. *)
Record Export := mkExport {
  x_bundle : PortableBundleV1 J; x_binding : PluginExchangeBinding; x_envelope : list Z; x_nonce : list Z }.

Definition exported (key : list Z) (x : Export) : Prop :=
  plugin_typed (x_binding x) ∧ serde_ok (x_bundle x) ∧
  ∃ bytes, create_plugin_exchange_with_key (x_bundle x) key (x_envelope x) (x_binding x) (Some (x_nonce x)) = Ok bytes.

Definition sealed (x : Export) (m a : list Z) : Prop :=
  canonical_bundle_bytes (x_bundle x) = Ok m ∧
  a = to_vec (binding_json (new_object_binding (x_binding x) 1 (schema (x_bundle x)))).


End Properties.
End Exchange.
