(* ===== verification/SyncModels.v ===== *)
(** * The laws of the libraries can hold

    Base64 as its standard defines it, the JSON reader of [SerdeJson], and a
    stand-in cipher that encrypts what an argument allows. They satisfy
    [CryptoLaws] and [WireReaderLaws], and the theorems on exchanges and
    backups are applied to them. *)

From S2P Require Import Prelude RustStr BTree SerdeJson SyncSchema SyncCanonical SyncCrypto SyncExchange.

Module Models.
Import Sync Json Canonical Crypto Exchange.

(** ** Base64 *)

Definition alphabet (url : bool) : str :=
  lit "ABCDEFGHIJKLMNOPQRSTUVWXYZabcdefghijklmnopqrstuvwxyz0123456789" ++ (if url then [45; 95] else [43; 47]).

Definition ch (url : bool) (d : Z) : Z := default 61 (alphabet url !! Z.to_nat d).

Definition unch (url : bool) (c : Z) : option Z := Z.of_nat ∘ fst <$> list_find (λ x, x = c) (alphabet url).

Fixpoint enc (url : bool) (bs : list Z) : str :=
  match bs with
  | a :: b :: c :: r =>
      ch url (a / 4) :: ch url (a mod 4 * 16 + b / 16) :: ch url (b mod 16 * 4 + c / 64) :: ch url (c mod 64)
      :: enc url r
  | [a; b] =>
      [ch url (a / 4); ch url (a mod 4 * 16 + b / 16); ch url (b mod 16 * 4)] ++ (if url then [] else [61])
  | [a] => [ch url (a / 4); ch url (a mod 4 * 16)] ++ (if url then [] else [61; 61])
  | [] => []
  end.

Fixpoint dec (url : bool) (s : str) : option (list Z) :=
  match s with
  | [] => Some []
  | c1 :: c2 :: r =>
      p ← unch url c1; q ← unch url c2;
      let first := p * 4 + q / 16 in
      match r with
      | [] => Some [first]
      | c3 :: r =>
          if c3 =? 61 then Some [first]
          else
            x ← unch url c3;
            let second := q mod 16 * 16 + x / 4 in
            match r with
            | [] => Some [first; second]
            | c4 :: r =>
                if c4 =? 61 then Some [first; second]
                else y ← unch url c4; rest ← dec url r; Some (first :: second :: x mod 4 * 64 + y :: rest)
            end
      end
  | _ => None
  end.

Definition base64 (url : bool) : Engine := mkEngine (enc url) (dec url).

Lemma ch_props url d : 0 ≤ d < 64 → unch url (ch url d) = Some d ∧ (ch url d =? 61) = false ∧ base64_char (ch url d) = true.
Proof.
  intros Hd. assert (d ∈ seqZ 0 64) as Hin by (apply elem_of_seqZ; lia).
  assert (Forall (λ d, unch url (ch url d) = Some d ∧ (ch url d =? 61) = false ∧ base64_char (ch url d) = true)
    (seqZ 0 64)) as Hall.
  { apply (bool_decide_unpack _). by destruct url; vm_compute. }
  by rewrite Forall_forall in Hall; apply Hall.
Qed.

Lemma unch_ch url d : 0 ≤ d < 64 → unch url (ch url d) = Some d.
Proof. apply ch_props. Qed.

Lemma ch_pad url d : 0 ≤ d < 64 → (ch url d =? 61) = false.
Proof. apply ch_props. Qed.

Lemma ch_char url d : 0 ≤ d < 64 → base64_char (ch url d) = true.
Proof. apply ch_props. Qed.

(** Induction over blocks of three. *)
Lemma blocks_ind (P : list Z → Prop) :
  P [] → (∀ a, P [a]) → (∀ a b, P [a; b]) → (∀ a b c r, P r → P (a :: b :: c :: r)) → ∀ l, P l.
Proof.
  intros H0 H1 H2 H3 l. assert (∀ n l, (length l ≤ n)%nat → P l) as H.
  { induction n as [|n IH]; intros [|a [|b [|c r]]] Hl; cbn in Hl; try lia; auto. apply H3, IH. lia. }
  by apply (H (length l)).
Qed.

Lemma six_bits a b : byte a → byte b →
  0 ≤ a / 4 < 64 ∧ 0 ≤ a mod 4 * 16 + b / 16 < 64 ∧ 0 ≤ b mod 16 * 4 < 64 ∧ 0 ≤ a mod 4 * 16 < 64 ∧
  0 ≤ b mod 64 < 64 ∧ 0 ≤ a mod 16 * 4 + b / 64 < 64 ∧
  a / 4 * 4 + (a mod 4 * 16 + b / 16) / 16 = a ∧ a / 4 * 4 + (a mod 4 * 16) / 16 = a ∧
  (a mod 4 * 16 + b / 16) mod 16 * 16 + b mod 16 * 4 / 4 = b ∧
  (∀ z, 0 ≤ z < 256 → (a mod 4 * 16 + b / 16) mod 16 * 16 + (b mod 16 * 4 + z / 64) / 4 = b) ∧
  (∀ y, (y mod 16 * 4 + b / 64) mod 4 * 64 + b mod 64 = b).
Proof.
  unfold byte. intros Ha Hb. split_and!; intros; Z.to_euclidean_division_equations; lia.
Qed.

Ltac b64 := cbn -[ch unch Z.div Z.modulo Z.mul Z.add Z.eqb].

Lemma dec_enc url b : Forall byte b → dec url (enc url b) = Some b.
Proof.
  induction b as [|a|a b|a b c r IH] using blocks_ind; intros Hb.
  - done.
  - inversion Hb as [|? ? Ha _]; subst. destruct (six_bits a 0 Ha ltac:(unfold byte; lia)) as (? & _ & _ & ? & _ & _ & _ & He & _).
    b64. rewrite !unch_ch by done. destruct url; b64; by rewrite He.
  - inversion Hb as [|? ? Ha Hb']; subst. inversion Hb' as [|? ? Hb2 _]; subst.
    destruct (six_bits a b Ha Hb2) as (? & ? & ? & _ & _ & _ & He & _ & He2 & _).
    b64. rewrite !unch_ch by done. b64. rewrite ch_pad by done.
    rewrite ?unch_ch by done. destruct url; b64; by rewrite He, He2.
  - inversion Hb as [|? ? Ha Hb']; subst. inversion Hb' as [|? ? Hb2 Hb'']; subst. inversion Hb'' as [|? ? Hc Hr]; subst.
    destruct (six_bits a b Ha Hb2) as (? & ? & _ & _ & _ & _ & He & _ & _ & He2 & _).
    destruct (six_bits b c Hb2 Hc) as (_ & _ & _ & _ & ? & ? & _ & _ & _ & _ & He3).
    b64. rewrite !unch_ch by done. b64. rewrite !ch_pad by done.
    rewrite ?unch_ch by done. b64. rewrite IH by done. b64.
    by rewrite He, He2, He3.
Qed.

Lemma enc_char url b : Forall byte b → forallb base64_char (enc url b) = true.
Proof.
  induction b as [|a|a b|a b c r IH] using blocks_ind; intros Hb; [done|..];
    repeat match goal with H : Forall byte (_ :: _) |- _ => apply Forall_cons in H as [? H] end.
  - destruct (six_bits a 0) as (? & _ & _ & ? & _); [done|unfold byte; lia|].
    destruct url; cbn -[base64_char ch]; by rewrite !ch_char.
  - destruct (six_bits a b) as (? & ? & ? & _); [done..|]. destruct url; cbn -[base64_char ch]; by rewrite !ch_char.
  - destruct (six_bits a b) as (? & ? & _); [done..|]. destruct (six_bits b c) as (_ & _ & _ & _ & ? & ? & _); [done..|].
    cbn -[base64_char ch]. by rewrite !ch_char, IH.
Qed.

Lemma enc_len_padded b : zlen (enc false b) = div_ceil (zlen b) 3 * 4.
Proof.
  induction b as [|a|a b|a b c r IH] using blocks_ind; [done..|].
  cbn [enc]. rewrite !zlen_cons. unfold div_ceil in *. Z.to_euclidean_division_equations. lia.
Qed.

Lemma enc_len url b : zlen (enc url b) ≤ div_ceil (zlen b) 3 * 4.
Proof.
  induction b as [|a|a b|a b c r IH] using blocks_ind; [done|by destruct url..|].
  cbn [enc]. rewrite !zlen_cons. unfold div_ceil in *.
  Z.to_euclidean_division_equations. lia.
Qed.

#[global] Instance base64_laws url : EngineLaws (base64 url).
Proof.
  split; cbn [base64 encode decode]; intros b Hb.
  - by apply dec_enc.
  - rewrite str_len_ascii by by apply plain_ascii, base64_plain, enc_char. apply enc_len.
  - by apply enc_char.
Qed.

(** ** Reading *)

Definition json_of_bytes (bs : list Z) : option Json :=
  s ← from_utf8 bs; '(j, _) ← read (length s) s; Some j.

Lemma json_of_to_vec j : json_wf j → json_of_bytes (to_vec j) = Some j.
Proof.
  intros Hj. unfold json_of_bytes, to_vec. rewrite from_utf8_encode by by apply print_scalar. cbn.
  rewrite <- (app_nil_r (print j)) at 2. by rewrite read_print by (done || by apply json_size_print).
Qed.

Definition schema_of_name (s : str) : option BundleSchema :=
  find (λ x, bool_decide (schema_name x = s)) [SV1; SV2; SV3; SV4; SV5; SV6].

Definition opt_of {A} (f : Json → option A) (j : Json) : option (option A) :=
  match j with JNull => Some None | _ => Some <$> f j end.
Definition number_of (j : Json) : option Z := match j with JNumber n => Some n | _ => None end.
Definition string_of (j : Json) : option str := match j with JString s => Some s | _ => None end.

Definition binding_of (j : Json) : option SyncObjectBinding :=
  match j with
  | JObject [(_, JString a); (_, JString b); (_, JString s); _; (_, JNumber r); (_, br); (_, be); (_, JNumber k)] =>
      s ← schema_of_name s; br ← opt_of number_of br; be ← opt_of string_of be;
      Some (mkBinding a b s SshProfileBundle r br be k)
  | _ => None
  end.

Definition owner_of (j : Json) : option RecoveryOwnerBinding :=
  match j with
  | JObject [(_, JString a); (_, JString b); (_, JNumber k)] => Some (mkOwner a b k)
  | _ => None
  end.

Definition kdf_of (j : Json) : option RecoveryKdfHeader :=
  match j with
  | JObject [_; (_, JNumber m); (_, JNumber i); (_, JNumber p); (_, JNumber o); (_, JString s)] =>
      Some (mkKdf Argon2idSyncRecoveryV1 m i p o s)
  | _ => None
  end.

Definition sync_envelope_of (j : Json) : option SyncEnvelope :=
  match j with
  | JObject [_; _; (_, JString n); (_, b); (_, JString c)] =>
      b ← binding_of b; Some (mkSyncEnvelope SyncEnvelopeV1 XChaCha20Poly1305V1 n b c)
  | _ => None
  end.

Definition recovery_of (j : Json) : option RecoveryEnvelope :=
  match j with
  | JObject [_; (_, o); (_, k); _; (_, JString n); (_, JString c)] =>
      o ← owner_of o; k ← kdf_of k; Some (mkRecovery RecoveryEnvelopeV1 o k XChaCha20Poly1305V1 n c)
  | _ => None
  end.

Definition backup_of (j : Json) : option OfflineBackupEnvelope :=
  match j with
  | JObject [(_, JString a); (_, JString b); (_, JString c); (_, JString d); (_, JString e); (_, JString f)] =>
      Some (mkBackup a b c d e f)
  | _ => None
  end.

Definition wire_of (j : Json) : option ExchangeWire :=
  match j with
  | JObject [(_, JString f); (_, JObject [(_, JString p); (_, JString s); (_, JString q)]); (_, b);
             (_, JObject [(_, JString e); (_, JString h)]);
             (_, JObject [(_, JString a); (_, JString n); (_, JString c); (_, JString d)])] =>
      b ← binding_of b;
      Some (mkWire f (mkOwnerWire p s q) b (mkRecoveryWire e h) (mkEncryptedWire a n c d))
  | _ => None
  end.

Lemma binding_of_json b : binding_of (binding_json b) = Some b.
Proof.
  destruct b as [? ? s [] ? br be ?]. unfold binding_json. cbn -[lit schema_name schema_of_name].
  assert (schema_of_name (schema_name s) = Some s) as -> by (by destruct s; vm_compute).
  by destruct br, be.
Qed.

(** ** The cipher and the rest *)

(** [allowed] is what the cipher encrypts; [contents] the one bundle the
    serializer knows. *)
Section Model.
Context (allowed : list Z → list Z → list Z → list Z → bool) (contents : PortableBundleV1 unit).

Definition tag : list Z := replicate 16 0.

Definition model_encrypt (k n m a : list Z) : option (list Z) :=
  if allowed k n m a then Some (m ++ tag) else None.

Definition model_decrypt (k n c a : list Z) : option (list Z) :=
  let m := take (length c - 16) c in
  if bool_decide (c = m ++ tag) && allowed k n m a then Some m else None.

Definition model_crypto : Crypto unit := {|
  STANDARD := base64 false; URL_SAFE_NO_PAD := base64 true;
  sha256 _ := replicate 32 7;
  argon2id _ _ := Some (replicate 32 9);
  aead_encrypt := model_encrypt; aead_decrypt := model_decrypt;
  bundle_to_vec _ := Some [1; 2; 3];
  bundle_from_slice _ := Some contents;
  sync_envelope_from_slice bs := j ← json_of_bytes bs; sync_envelope_of j;
  recovery_from_slice bs := j ← json_of_bytes bs; recovery_of j;
  backup_from_slice bs := j ← json_of_bytes bs; backup_of j |}.

Lemma model_encrypt_decrypt k n m a c :
  model_encrypt k n m a = Some c ↔ model_decrypt k n c a = Some m.
Proof.
  unfold model_encrypt, model_decrypt. split.
  - destruct (allowed k n m a) eqn:E; [|done]. intros [= <-].
    replace (length (m ++ tag) - 16)%nat with (length m) by (rewrite length_app; unfold tag; rewrite length_replicate; lia).
    rewrite take_app_length. by rewrite bool_decide_true, E.
  - destruct (_ && _) eqn:E; [|done]. intros [= <-]. bprop. by destruct (allowed _ _ _ _); [f_equal|].
Qed.

Lemma model_laws : @CryptoLaws unit model_crypto.
Proof.
  split; cbn [STANDARD URL_SAFE_NO_PAD sha256 argon2id aead_encrypt aead_decrypt bundle_to_vec
    sync_envelope_from_slice recovery_from_slice backup_from_slice model_crypto]; try exact _.
  - intros b Hb. cbn [base64 encode].
    rewrite str_len_ascii by by apply plain_ascii, base64_plain, enc_char. apply enc_len_padded.
  - done.
  - intros _. by repeat constructor.
  - by intros p s k [= <-].
  - intros k n m a c. apply model_encrypt_decrypt.
  - intros k n m a c. apply model_encrypt_decrypt.
  - intros k n m a c. unfold model_encrypt. destruct (allowed _ _ _ _); [|done]. intros [= <-]. by rewrite zlen_app.
  - intros k n m a c Hm. unfold model_encrypt. destruct (allowed _ _ _ _); [|done]. intros [= <-].
    apply Forall_app. split; [done|]. by repeat constructor.
  - intros b m [= <-]. by repeat constructor.
  - intros e He. rewrite json_of_to_vec by done. destruct e as [[] [] n b c]. unfold sync_envelope_json.
    cbn -[lit binding_json]. by rewrite binding_of_json.
  - intros e He. rewrite json_of_to_vec by done. by destruct e as [[] [] [[]] [] ? ?].
  - intros e He. rewrite json_of_to_vec by done. by destruct e.
Qed.

End Model.

#[global] Instance model_reader : WireReader := {| wire_from_slice bs := j ← json_of_bytes bs; wire_of j |}.

#[global] Instance model_reader_laws : WireReaderLaws.
Proof.
  split. intros w Hw. cbn [wire_from_slice model_reader]. rewrite json_of_to_vec by done.
  destruct w as [? [] b [] []]. unfold wire_json. cbn -[lit binding_json]. by rewrite binding_of_json.
Qed.

(** ** Witnesses *)

Definition demo_bundle : PortableBundleV1 unit := sample_bundle 1 [sample_host "b" 15; sample_host "a" 10] [].
Definition demo_contents : PortableBundleV1 unit :=
  match canonicalized demo_bundle with Ok c => c | _ => demo_bundle end.
Definition demo_binding : PluginExchangeBinding :=
  mkPluginBinding (lit "org.example.sync") (replicate 64 97) (lit "home") 1 None None.
Definition demo_nonce : list Z := replicate 24 5.
Definition demo_key : list Z := replicate 32 3.

(** A cipher that encrypts everything, and one under whose key only the demo
    export was encrypted. *)
Definition open_crypto : Crypto unit := model_crypto (λ _ _ _ _, true) demo_contents.
Definition sealed_crypto : Crypto unit := model_crypto (λ k n m a,
  bool_decide ((k, n, m, a) = (demo_key, demo_nonce, [1; 2; 3],
    to_vec (binding_json (new_object_binding demo_binding 1 SV6))))) demo_contents.

Lemma demo_typed : plugin_typed demo_binding.
Proof. split; [vm_compute; split; discriminate|done|done]. Qed.

Lemma demo_serde (f : list Z → list Z → list Z → list Z → bool) : @serde_ok _ _ (model_crypto f demo_contents) demo_bundle.
Proof. intros c m Hc _. cbn. unfold demo_contents. by rewrite Hc. Qed.

Definition demo_salt : list Z := replicate 16 1.

Lemma demo_nonce_filled : filled NONCE_BYTES demo_nonce.
Proof. split; [by apply Forall_replicate|done]. Qed.
Lemma demo_key_filled : filled KEY_BYTES demo_key.
Proof. split; [by apply Forall_replicate|done]. Qed.
Lemma demo_salt_filled : filled SALT_BYTES demo_salt.
Proof. split; [by apply Forall_replicate|done]. Qed.

Lemma is_ok_Ok {E A} (x : rres E A) : is_ok x = true → ∃ a, x = Ok a.
Proof. destruct x; [by eexists|done..]. Qed.



Lemma offline_backup_exact_witness :
  ∃ encoded,
    @encrypt_offline_backup _ open_crypto (lit "password") [1; 2; 3] (Some (replicate 16 1)) (Some demo_nonce) = Ok encoded ∧
    @decrypt_offline_backup _ open_crypto (lit "password") encoded = Ok [1; 2; 3].
Proof.
  apply (proj1 (@offline_backup_exact _ open_crypto (model_laws _ _) (lit "password") [1; 2; 3] (replicate 16 1) demo_nonce
    (replicate 32 9) ([1; 2; 3] ++ tag) ltac:(by repeat constructor) ltac:(done) ltac:(by apply Forall_replicate)
    eq_refl ltac:(by apply Forall_replicate) eq_refl eq_refl eq_refl)).
  vm_compute. discriminate.
Defined.

End Models.
