(* ===== verification/SecretVault.v ===== *)
(** * The secret vault

    crates/secret-vault/src/lib.rs: an encrypted file that holds secrets and
    the command history, unlocked with a password or with a device key. The
    unlocked vault keeps the decrypted payload in memory and rewrites the whole
    file for every change.

    The vault's file is the [option (list Z)] that the operations pass along;
    what the operating system answers to each call is in [Io], which every
    operation takes. The operations are in a state and error monad, since
    several of them have changed the vault when they return an error. The
    cipher, the key derivation, SHA-256 and base64 are those of [SyncCrypto]. *)

From S2P Require Import Prelude RustStr BTree SerdeJson SyncCrypto.

Module Vault.
Import Json.

(** ** Data *)

Definition MAGIC : str := lit "NORISHELL_VAULT".
Definition DEVICE_UNLOCK_MAGIC : str := lit "NORISHELL_DEVICE_UNLOCK".
Definition SYNC_KEY_ENVELOPE_MAGIC : str := lit "NORISHELL_SYNC_VAULT_KEY".
Definition FORMAT_VERSION : Z := 1.
Definition DEVICE_UNLOCK_FORMAT_VERSION : Z := 1.
Definition SYNC_KEY_ENVELOPE_FORMAT_VERSION : Z := 1.
Definition PAYLOAD_SCHEMA_VERSION : Z := 1.
Definition KDF_ID : str := lit "argon2id-v1".
Definition KDF_PROFILE : str := lit "interactive-v1".
Definition CIPHER_ID : str := lit "xchacha20poly1305-v1".
Definition KEY_BYTES : Z := 32.
Definition SALT_BYTES : Z := 16.
Definition NONCE_BYTES : Z := 24.
Definition MAX_VAULT_FILE_BYTES : Z := 64 * 1024 * 1024.
Definition KDF_MEMORY_KIB : Z := 64 * 1024.
Definition KDF_ITERATIONS : Z := 3.
Definition KDF_PARALLELISM : Z := 1.
Definition MIN_PASSWORD_CHARACTERS : Z := 8.
Definition MAX_SECRET_BATCH_ENTRIES : Z := 1024.
Definition MAX_SECRET_BATCH_VALUE_BYTES : Z := 32 * 1024 * 1024.
Definition MAX_PASSWORD_BYTES : Z := 64 * 1024.
Definition MAX_PASSPHRASE_BYTES : Z := 64 * 1024.
Definition MAX_PRIVATE_KEY_BYTES : Z := 16 * 1024 * 1024.
Definition MAX_CERTIFICATE_BYTES : Z := 16 * 1024 * 1024.
Definition MAX_OAUTH_REFRESH_TOKEN_BYTES : Z := 256 * 1024.
Definition SYNC_KEY_BYTES : Z := 32.
Definition MAX_SYNC_RECOVERY_SECRET_BYTES : Z := 64 * 1024.
Definition COMMAND_HISTORY_SCHEMA_VERSION : Z := 1.
Definition MAX_COMMAND_HISTORY_ENTRIES : Z := 2000.
Definition MAX_COMMAND_HISTORY_COMMAND_BYTES : Z := 16 * 1024.
Definition MAX_COMMAND_HISTORY_SCOPE_BYTES : Z := 160.
Definition MAX_COMMAND_HISTORY_TOTAL_BYTES : Z := 8 * 1024 * 1024.

Inductive SecretKind :=
| Password | PrivateKey | Passphrase | Certificate | LoginAutomation | OAuthRefreshToken
| PluginCredential | SshSyncKey | SshSyncRecoverySecret.

(** A UUID is its number; the nil UUID is 0. *)
Definition Uuid : Type := Z.
Definition SecretRef : Type := Uuid.

(** An I/O error is its code, 0 for [Error::other]. *)
Inductive VaultError :=
| AlreadyExists | VaultChanged | Locked | AuthenticationFailed | WeakPassword | InsecurePermissions
| CommitStateUnknown (e : Z) | ReloadRequired | InvalidEnvelope (what : string)
| UnsupportedFormat (version : Z) | TooLarge | KeyDerivation | InvalidDeviceUnlockKey
| DeviceUnlockVaultMismatch | DeviceUnlockCommitStateUnknown (e : Z) | InvalidSecretRef
| EmptySecretBatch | SecretBatchTooLarge (max_entries : Z) | SecretBatchValueTooLarge (max_bytes : Z)
| DuplicateSecretRef (r : SecretRef) | SecretNotFound (r : SecretRef) | EmptySecret (kind : SecretKind)
| SecretTooLarge (kind : SecretKind) (max_bytes : Z)
| InvalidSecretLength (kind : SecretKind) (expected_bytes : Z)
| SecretKindMismatch (expected actual : SecretKind) | Serialization | IoError (e : Z).

Notation vres := (rres VaultError).

Record SecretInsert := mkInsert { si_ref : SecretRef; si_kind : SecretKind; si_value : list Z }.

Record SecretEntry := mkEntry { entry_kind : SecretKind; entry_value : list Z }.

Record CommandHistoryEntry := mkHistoryEntry {
  entry_id : Uuid;
  scope : str;
  command : str;
  completed_at_unix_ms : Z;
  elapsed_millis : Z;
  exit_code : option Z }.

Record CommandHistoryPayload := mkHistory { hist_schema_version : Z; hist_entries : list CommandHistoryEntry }.

Definition history_default : CommandHistoryPayload := mkHistory COMMAND_HISTORY_SCHEMA_VERSION [].

Record VaultMergeSummary := mkSummary {
  imported_secrets : Z;
  imported_history_entries : Z;
  skipped_history_entries : Z;
  renamed_history_entries : Z }.

Record VaultPayloadV1 := mkPayload {
  schema_version : Z;
  revision : Z;
  parent_envelope_sha256 : option str;
  entries : list (SecretRef * SecretEntry);
  command_history : CommandHistoryPayload }.

Record KdfHeader := mkKdf {
  kdf_id : str;
  profile : str;
  memory_kib : Z;
  iterations : Z;
  parallelism : Z;
  salt : str }.

Record CiphertextSection := mkSection { cipher : str; nonce : str; ciphertext : str }.

Record VaultEnvelope := mkEnvelope {
  magic : str;
  format_version : Z;
  env_vault_id : Uuid;
  env_kdf : KdfHeader;
  env_wrapped_vault_key : CiphertextSection;
  env_payload : CiphertextSection }.

Record DeviceUnlockEnvelope := mkSlot {
  slot_magic : str;
  slot_format_version : Z;
  slot_vault_id : Uuid;
  slot_wrapped_vault_key : CiphertextSection }.

Record VaultSyncKeyEnvelope := mkSyncKeyEnvelope {
  sk_magic : str;
  sk_format_version : Z;
  sk_vault_id : Uuid;
  sk_kdf : KdfHeader;
  sk_wrapped_vault_key : CiphertextSection }.

Record VaultSyncKeyMaterial := mkMaterial { mat_vault_id : Uuid; mat_key : list Z; mat_envelope : list Z }.

Record UnlockedVault := mkVault {
  vault_id : Uuid;
  kdf : KdfHeader;
  wrapped_vault_key : CiphertextSection;
  vault_master_key : list Z;
  payload : VaultPayloadV1;
  poisoned : bool }.

Record PreparedEncryptedVaultImport := mkPrepared {
  pre_envelope : list Z;
  pre_vault_id : Uuid;
  pre_kdf : KdfHeader;
  pre_wrapped_vault_key : CiphertextSection;
  pre_vault_master_key : list Z;
  pre_payload : VaultPayloadV1 }.

#[global] Instance secret_kind_eq : EqDecision SecretKind.
Proof. solve_decision. Defined.
#[global] Instance vault_error_eq : EqDecision VaultError.
Proof. solve_decision. Defined.
#[global] Instance history_entry_eq : EqDecision CommandHistoryEntry.
Proof. solve_decision. Defined.
#[global] Instance secret_entry_eq : EqDecision SecretEntry.
Proof. solve_decision. Defined.

(** ** Serialized forms *)

(** The last [n] hexadecimal digits. *)
Fixpoint hex_fixed (n : nat) (u : Z) : str :=
  match n with O => [] | S n => hex_fixed n (u / 16) ++ [digit_char (u mod 16)] end.

(** The hyphenated form, in which [Uuid] serializes. *)
Definition uuid_text (u : Uuid) : str :=
  hex_fixed 8 (u / 2 ^ 96) ++ [45] ++ hex_fixed 4 (u / 2 ^ 80) ++ [45] ++ hex_fixed 4 (u / 2 ^ 64) ++ [45] ++
  hex_fixed 4 (u / 2 ^ 48) ++ [45] ++ hex_fixed 12 u.

Definition kdf_json (k : KdfHeader) : Json :=
  JObject [(lit "id", JString (kdf_id k)); (lit "profile", JString (profile k));
           (lit "memoryKib", JNumber (memory_kib k)); (lit "iterations", JNumber (iterations k));
           (lit "parallelism", JNumber (parallelism k)); (lit "salt", JString (salt k))].

Definition section_json (s : CiphertextSection) : Json :=
  JObject [(lit "cipher", JString (cipher s)); (lit "nonce", JString (nonce s));
           (lit "ciphertext", JString (ciphertext s))].

Definition envelope_json (e : VaultEnvelope) : Json :=
  JObject [(lit "magic", JString (magic e)); (lit "formatVersion", JNumber (format_version e));
           (lit "vaultId", JString (uuid_text (env_vault_id e))); (lit "kdf", kdf_json (env_kdf e));
           (lit "wrappedVaultKey", section_json (env_wrapped_vault_key e));
           (lit "payload", section_json (env_payload e))].

Definition slot_json (e : DeviceUnlockEnvelope) : Json :=
  JObject [(lit "magic", JString (slot_magic e)); (lit "formatVersion", JNumber (slot_format_version e));
           (lit "vaultId", JString (uuid_text (slot_vault_id e)));
           (lit "wrappedVaultKey", section_json (slot_wrapped_vault_key e))].

Definition sync_key_json (e : VaultSyncKeyEnvelope) : Json :=
  JObject [(lit "magic", JString (sk_magic e)); (lit "formatVersion", JNumber (sk_format_version e));
           (lit "vaultId", JString (uuid_text (sk_vault_id e))); (lit "kdf", kdf_json (sk_kdf e));
           (lit "wrappedVaultKey", section_json (sk_wrapped_vault_key e))].

(** [KeyWrapAad]. *)
Definition key_wrap_aad (id : Uuid) (k : KdfHeader) (cipher nonce : str) : list Z :=
  to_vec (JObject [(lit "magic", JString MAGIC); (lit "formatVersion", JNumber FORMAT_VERSION);
                   (lit "vaultId", JString (uuid_text id)); (lit "kdf", kdf_json k);
                   (lit "cipher", JString cipher); (lit "nonce", JString nonce)]).

(** [PayloadAad] and [DeviceUnlockAad], which have the same fields. *)
Definition payload_aad (magic : str) (version : Z) (id : Uuid) (cipher nonce : str) : list Z :=
  to_vec (JObject [(lit "magic", JString magic); (lit "formatVersion", JNumber version);
                   (lit "vaultId", JString (uuid_text id));
                   (lit "cipher", JString cipher); (lit "nonce", JString nonce)]).

(** [serde_json] on the types of the crate. *)
Class VaultSerde := {
  envelope_from_slice : list Z → option VaultEnvelope;
  slot_from_slice : list Z → option DeviceUnlockEnvelope;
  sync_key_from_slice : list Z → option VaultSyncKeyEnvelope;
  payload_to_vec : VaultPayloadV1 → option (list Z);
  payload_from_slice : list Z → option VaultPayloadV1 }.

(** ** The operating system *)

(** What the checks of the directory and of a file can report. *)
Inductive PathError := PathIo (e : Z) | PathInsecure | PathInvalid (what : string).

Definition path_error (e : PathError) : VaultError :=
  match e with
  | PathIo e => IoError e
  | PathInsecure => InsecurePermissions
  | PathInvalid what => InvalidEnvelope what
  end.

Definition path_check (o : option PathError) : vres unit :=
  match o with None => Ok tt | Some e => Err (path_error e) end.

Inductive LockError := WouldBlock | LockIo (e : PathError).

(** The answers to the calls of one atomic write. When the directory cannot be
    synchronized, the flag says whether the change survives. *)
Record WriteIo := mkWriteIo {
  w_parent : option PathError;
  w_open : option PathError;
  w_write : option Z;
  w_replace : option Z;
  w_unlink : option (Z * bool);
  w_sync : option (Z * bool) }.

(** The answers to the calls of one operation, random bytes included. *)
Record Io := mkIo {
  io_parent : option PathError;
  io_lock : option LockError;
  io_stat : bool;
  io_read : option PathError;
  io_write : WriteIo;
  rnd_salt : option (list Z);
  rnd_key : option (list Z);
  rnd_wrap : option (list Z);
  rnd_payload : option (list Z) }.

Inductive AtomicWriteError := BeforeCommit (e : VaultError) | Unknown (e : Z).

Definition Disk : Type := option (list Z).

(** The directory after a call that made [contents] visible and whose
    durability is not known. *)
Definition unsettled (survives : bool) (contents : list Z) (d : Disk) : Disk :=
  if survives then Some contents else d.

Definition atomic_write (w : WriteIo) (contents : list Z) (d : Disk) : Disk * option AtomicWriteError :=
  match w_parent w with
  | Some e => (d, Some (BeforeCommit (path_error e)))
  | None =>
      match w_open w with
      | Some e => (d, Some (BeforeCommit (path_error e)))
      | None =>
          match w_write w with
          | Some e => (d, Some (BeforeCommit (IoError e)))
          | None =>
              match w_replace w with
              | Some e => (d, Some (BeforeCommit (IoError e)))
              | None =>
                  match w_sync w with
                  | Some (e, survives) => (unsettled survives contents d, Some (Unknown e))
                  | None => (Some contents, None)
                  end
              end
          end
      end
  end.

Definition atomic_create_if_missing (w : WriteIo) (contents : list Z) (d : Disk)
  : Disk * option AtomicWriteError :=
  match w_parent w with
  | Some e => (d, Some (BeforeCommit (path_error e)))
  | None =>
      match w_open w with
      | Some e => (d, Some (BeforeCommit (path_error e)))
      | None =>
          match w_write w with
          | Some e => (d, Some (BeforeCommit (IoError e)))
          | None =>
              match d, w_replace w with
              | Some _, _ => (d, Some (BeforeCommit AlreadyExists))
              | None, Some e => (d, Some (BeforeCommit (IoError e)))
              | None, None =>
                  match w_unlink w with
                  | Some (e, survives) => (unsettled survives contents d, Some (Unknown e))
                  | None =>
                      match w_sync w with
                      | Some (e, survives) => (unsettled survives contents d, Some (Unknown e))
                      | None => (Some contents, None)
                      end
                  end
              end
          end
      end
  end.

Definition acquire (io : Io) : vres unit :=
  match io_lock io with
  | None => Ok tt
  | Some WouldBlock => Err Locked
  | Some (LockIo e) => Err (path_error e)
  end.

(** [ENOENT]. *)
Definition NOT_FOUND : Z := 2.

Definition read_bounded (io : Io) (d : Disk) : vres (list Z) :=
  let? _ := path_check (io_read io) in
  let? bytes := ok_or d (IoError NOT_FOUND) in
  if MAX_VAULT_FILE_BYTES <? zlen bytes then Err TooLarge else Ok bytes.

(** [Path::exists], false also when the call fails. *)
Definition exists_file (io : Io) (d : Disk) : bool :=
  io_stat io && match d with Some _ => true | None => false end.

Definition path_has_entry (io : Io) (d : Disk) : vres bool :=
  if io_stat io then Ok (match d with Some _ => true | None => false end) else Err (IoError 0).

Definition fill_random (bytes : option (list Z)) : vres (list Z) := ok_or bytes (IoError 0).

(** ** Validation *)

Definition validate_new_password (password : list Z) : vres unit :=
  match from_utf8 password with
  | Some value => if zlen value <? MIN_PASSWORD_CHARACTERS then Err WeakPassword else Ok tt
  | None => Err WeakPassword
  end.

Definition max_bytes (kind : SecretKind) : Z :=
  match kind with
  | Password => MAX_PASSWORD_BYTES
  | PrivateKey => MAX_PRIVATE_KEY_BYTES
  | Passphrase => MAX_PASSPHRASE_BYTES
  | Certificate => MAX_CERTIFICATE_BYTES
  | LoginAutomation => MAX_PASSWORD_BYTES
  | OAuthRefreshToken => MAX_OAUTH_REFRESH_TOKEN_BYTES
  | PluginCredential => MAX_PASSWORD_BYTES
  | SshSyncKey => SYNC_KEY_BYTES
  | SshSyncRecoverySecret => MAX_SYNC_RECOVERY_SECRET_BYTES
  end.

Definition validate_secret_value (kind : SecretKind) (value : list Z) : vres unit :=
  if bool_decide (value = []) then Err (EmptySecret kind)
  else if max_bytes kind <? zlen value then Err (SecretTooLarge kind (max_bytes kind))
  else if bool_decide (kind = SshSyncKey) && negb (zlen value =? SYNC_KEY_BYTES)
  then Err (InvalidSecretLength kind SYNC_KEY_BYTES)
  else Ok tt.

(** One turn of the loop over the history: the IDs seen and the bytes so far. *)
Definition validate_history_entry (acc : list Uuid * Z) (e : CommandHistoryEntry) : vres (list Uuid * Z) :=
  let '(ids, total_bytes) := acc in
  if (entry_id e =? 0) || bset_mem (entry_id e) ids
  then Err (InvalidEnvelope "invalid command history entry id")
  else if bool_decide (scope e = []) || (MAX_COMMAND_HISTORY_SCOPE_BYTES <? str_len (scope e))
          || existsb is_ascii_control (utf8_encode (scope e))
  then Err (InvalidEnvelope "invalid command history scope")
  else if bool_decide (command e = []) || (MAX_COMMAND_HISTORY_COMMAND_BYTES <? str_len (command e))
          || existsb is_ascii_control (utf8_encode (command e))
  then Err (InvalidEnvelope "invalid command history command")
  else
    let? total_bytes := ok_or (value ← checked_add u64_max total_bytes (str_len (scope e));
                               checked_add u64_max value (str_len (command e)))
                          (InvalidEnvelope "command history is too large") in
    if MAX_COMMAND_HISTORY_TOTAL_BYTES <? total_bytes
    then Err (InvalidEnvelope "command history is too large")
    else Ok (bset_insert (entry_id e) ids, total_bytes).

Definition validate_command_history (h : CommandHistoryPayload) : vres unit :=
  if negb (hist_schema_version h =? COMMAND_HISTORY_SCHEMA_VERSION)
  then Err (InvalidEnvelope "unsupported command history schema")
  else if MAX_COMMAND_HISTORY_ENTRIES <? zlen (hist_entries h)
  then Err (InvalidEnvelope "command history exceeds entry limit")
  else let? _ := rfold validate_history_entry ([], 0) (hist_entries h) in Ok tt.

Definition validate_payload_entries (p : VaultPayloadV1) : vres unit :=
  let? _ := rforall (λ '(_, e), validate_secret_value (entry_kind e) (entry_value e)) (entries p) in
  validate_command_history (command_history p).

(** One turn of the loop over a batch: the references seen and the bytes so far. *)
Definition validate_batch_secret (existing : list (SecretRef * SecretEntry)) (acc : list SecretRef * Z)
    (s : SecretInsert) : vres (list SecretRef * Z) :=
  let '(batch_refs, total_value_bytes) := acc in
  if bset_mem (si_ref s) (bmap_keys existing) || bset_mem (si_ref s) batch_refs
  then Err (DuplicateSecretRef (si_ref s))
  else
    let? _ := validate_secret_value (si_kind s) (si_value s) in
    let? total := ok_or (checked_add u64_max total_value_bytes (zlen (si_value s)))
                    (SecretBatchValueTooLarge MAX_SECRET_BATCH_VALUE_BYTES) in
    if MAX_SECRET_BATCH_VALUE_BYTES <? total
    then Err (SecretBatchValueTooLarge MAX_SECRET_BATCH_VALUE_BYTES)
    else Ok (bset_insert (si_ref s) batch_refs, total).

Definition validate_secret_batch (existing : list (SecretRef * SecretEntry)) (secrets : list SecretInsert)
  : vres unit :=
  if bool_decide (secrets = []) then Err EmptySecretBatch
  else if MAX_SECRET_BATCH_ENTRIES <? zlen secrets then Err (SecretBatchTooLarge MAX_SECRET_BATCH_ENTRIES)
  else let? _ := rfold (validate_batch_secret existing) ([], 0) secrets in Ok tt.

(** [SecretRef::from_uuid]. *)
Definition from_uuid (value : Uuid) : vres SecretRef := if value =? 0 then Err InvalidSecretRef else Ok value.

(** [DeviceUnlockKey::from_bytes]. *)
Definition device_key_from_bytes (bytes : list Z) : vres (list Z) :=
  if negb (zlen bytes =? KEY_BYTES) then Err InvalidDeviceUnlockKey else Ok bytes.

Definition validate_local_auto_unlock_password (password : list Z) : vres unit :=
  if bool_decide (password = [])
  then Err (InvalidEnvelope "local auto-unlock password must not be empty")
  else if MAX_PASSWORD_BYTES <? zlen password
  then Err (InvalidEnvelope "local auto-unlock password exceeds the supported size")
  else Ok tt.

(** ** Envelopes *)

Section Operations.
Context {J : Type} `{C : Crypto.Crypto J} `{S : VaultSerde}.

Definition b64 (bytes : list Z) : str := Crypto.encode Crypto.STANDARD bytes.
Definition unb64 (s : str) : option (list Z) := Crypto.decode Crypto.STANDARD s.

Definition decode_nonce (s : CiphertextSection) : vres (list Z) :=
  let? nonce := ok_or (unb64 (nonce s)) (InvalidEnvelope "invalid nonce") in
  Crypto.try_into NONCE_BYTES nonce (InvalidEnvelope "invalid nonce length").

Definition validate_ciphertext_section (s : CiphertextSection) : vres unit :=
  if negb (bool_decide (cipher s = CIPHER_ID)) then Err (InvalidEnvelope "unsupported cipher")
  else
    let? _ := decode_nonce s in
    let? ciphertext := ok_or (unb64 (ciphertext s)) (InvalidEnvelope "invalid ciphertext") in
    if bool_decide (ciphertext = []) then Err (InvalidEnvelope "empty ciphertext") else Ok tt.

Definition validate_kdf_parameters (k : KdfHeader) : vres unit :=
  if negb (bool_decide (kdf_id k = KDF_ID)) || negb (bool_decide (profile k = KDF_PROFILE))
     || negb (memory_kib k =? KDF_MEMORY_KIB) || negb (iterations k =? KDF_ITERATIONS)
     || negb (parallelism k =? KDF_PARALLELISM)
  then Err (InvalidEnvelope "unsupported KDF profile")
  else
    let? salt := ok_or (unb64 (salt k)) (InvalidEnvelope "invalid salt") in
    if negb (zlen salt =? SALT_BYTES) then Err (InvalidEnvelope "invalid salt length") else Ok tt.

Definition validate_envelope (e : VaultEnvelope) : vres unit :=
  if negb (bool_decide (magic e = MAGIC)) then Err (InvalidEnvelope "wrong magic")
  else if negb (format_version e =? FORMAT_VERSION) then Err (UnsupportedFormat (format_version e))
  else if env_vault_id e =? 0 then Err (InvalidEnvelope "vault ID must not be nil")
  else
    let? _ := validate_kdf_parameters (env_kdf e) in
    let? _ := validate_ciphertext_section (env_wrapped_vault_key e) in
    validate_ciphertext_section (env_payload e).

Definition validate_device_unlock_envelope (e : DeviceUnlockEnvelope) : vres unit :=
  if negb (bool_decide (slot_magic e = DEVICE_UNLOCK_MAGIC))
  then Err (InvalidEnvelope "wrong device unlock magic")
  else if negb (slot_format_version e =? DEVICE_UNLOCK_FORMAT_VERSION)
  then Err (InvalidEnvelope "unsupported device unlock format")
  else validate_ciphertext_section (slot_wrapped_vault_key e).

Definition new_kdf_header (random : option (list Z)) : vres KdfHeader :=
  let? salt := fill_random random in
  Ok (mkKdf KDF_ID KDF_PROFILE KDF_MEMORY_KIB KDF_ITERATIONS KDF_PARALLELISM (b64 salt)).

Definition derive_key (password : list Z) (k : KdfHeader) : vres (list Z) :=
  let? _ := validate_kdf_parameters k in
  let? salt := ok_or (unb64 (salt k)) (InvalidEnvelope "invalid salt") in
  ok_or (Crypto.argon2id password salt) KeyDerivation.

(** [new_from_slice] and [encrypt] or [decrypt]. *)
Definition seal (key nonce msg aad : list Z) (bad_key : VaultError) : vres (list Z) :=
  if negb (zlen key =? KEY_BYTES) then Err bad_key
  else ok_or (Crypto.aead_encrypt key nonce msg aad) AuthenticationFailed.

Definition unseal (key nonce msg aad : list Z) (bad_key : VaultError) : vres (list Z) :=
  if negb (zlen key =? KEY_BYTES) then Err bad_key
  else ok_or (Crypto.aead_decrypt key nonce msg aad) AuthenticationFailed.

Definition wrap_vault_key (random : option (list Z)) (id : Uuid) (k : KdfHeader)
    (key_encryption_key vault_master_key : list Z) : vres CiphertextSection :=
  let? nonce := fill_random random in
  let nonce_encoded := b64 nonce in
  let aad := key_wrap_aad id k CIPHER_ID nonce_encoded in
  let? ciphertext := seal key_encryption_key nonce vault_master_key aad
                       (InvalidEnvelope "invalid key encryption key") in
  Ok (mkSection CIPHER_ID nonce_encoded (b64 ciphertext)).

Definition unwrap_vault_key_parts (id : Uuid) (k : KdfHeader) (wrapped : CiphertextSection)
    (key_encryption_key : list Z) : vres (list Z) :=
  let? nonce_bytes := decode_nonce wrapped in
  let? ciphertext := ok_or (unb64 (ciphertext wrapped)) (InvalidEnvelope "invalid wrapped vault key") in
  let aad := key_wrap_aad id k (cipher wrapped) (nonce wrapped) in
  let? unwrapped := unseal key_encryption_key nonce_bytes ciphertext aad
                      (InvalidEnvelope "invalid key encryption key") in
  if negb (zlen unwrapped =? KEY_BYTES) then Err AuthenticationFailed else Ok unwrapped.

Definition unwrap_vault_key (e : VaultEnvelope) (key_encryption_key : list Z) : vres (list Z) :=
  unwrap_vault_key_parts (env_vault_id e) (env_kdf e) (env_wrapped_vault_key e) key_encryption_key.

Definition wrap_device_vault_key (random : option (list Z)) (id : Uuid) (device_key vault_master_key : list Z)
  : vres CiphertextSection :=
  let? nonce := fill_random random in
  let nonce_encoded := b64 nonce in
  let aad := payload_aad DEVICE_UNLOCK_MAGIC DEVICE_UNLOCK_FORMAT_VERSION id CIPHER_ID nonce_encoded in
  let? ciphertext := seal device_key nonce vault_master_key aad InvalidDeviceUnlockKey in
  Ok (mkSection CIPHER_ID nonce_encoded (b64 ciphertext)).

Definition unwrap_device_vault_key (e : DeviceUnlockEnvelope) (device_key : list Z) : vres (list Z) :=
  let wrapped := slot_wrapped_vault_key e in
  let? nonce_bytes := decode_nonce wrapped in
  let? ciphertext := ok_or (unb64 (ciphertext wrapped))
                       (InvalidEnvelope "invalid wrapped device vault key") in
  let aad := payload_aad (slot_magic e) (slot_format_version e) (slot_vault_id e) (cipher wrapped)
               (nonce wrapped) in
  let? plaintext := unseal device_key nonce_bytes ciphertext aad InvalidDeviceUnlockKey in
  if negb (zlen plaintext =? KEY_BYTES) then Err AuthenticationFailed else Ok plaintext.

Definition encrypt_payload (random : option (list Z)) (id : Uuid) (vault_master_key plaintext : list Z)
  : vres CiphertextSection :=
  let? nonce := fill_random random in
  let nonce_encoded := b64 nonce in
  let aad := payload_aad MAGIC FORMAT_VERSION id CIPHER_ID nonce_encoded in
  let? ciphertext := seal vault_master_key nonce plaintext aad
                       (InvalidEnvelope "invalid vault master key") in
  Ok (mkSection CIPHER_ID nonce_encoded (b64 ciphertext)).

Definition decrypt_payload (e : VaultEnvelope) (vault_master_key : list Z) : vres VaultPayloadV1 :=
  let? nonce_bytes := decode_nonce (env_payload e) in
  let? ciphertext := ok_or (unb64 (ciphertext (env_payload e))) (InvalidEnvelope "invalid ciphertext") in
  let aad := payload_aad (magic e) (format_version e) (env_vault_id e) (cipher (env_payload e))
               (nonce (env_payload e)) in
  let? plaintext := unseal vault_master_key nonce_bytes ciphertext aad
                      (InvalidEnvelope "invalid vault master key") in
  ok_or (payload_from_slice plaintext) Serialization.

Definition parse_encrypted_vault_envelope (bytes : list Z) : vres VaultEnvelope :=
  if bool_decide (bytes = []) then Err (InvalidEnvelope "vault envelope is empty")
  else if MAX_VAULT_FILE_BYTES <? zlen bytes then Err TooLarge
  else
    let? e := ok_or (envelope_from_slice bytes) Serialization in
    let? _ := validate_envelope e in
    Ok e.

(** The payload's own checks, which both ways of unlocking end with. *)
Definition checked_payload (p : VaultPayloadV1) : vres VaultPayloadV1 :=
  if negb (schema_version p =? PAYLOAD_SCHEMA_VERSION)
  then Err (InvalidEnvelope "unsupported payload schema")
  else let? _ := validate_payload_entries p in Ok p.

Definition unlock_vault_envelope (e : VaultEnvelope) (password : list Z) : vres (list Z * VaultPayloadV1) :=
  let? _ := validate_envelope e in
  let? key_encryption_key := derive_key password (env_kdf e) in
  let? key := unwrap_vault_key e key_encryption_key in
  let? p := decrypt_payload e key in
  let? p := checked_payload p in
  Ok (key, p).

Definition read_envelope (io : Io) (d : Disk) : vres VaultEnvelope :=
  let? bytes := read_bounded io d in parse_encrypted_vault_envelope bytes.

Definition current_envelope_digest (io : Io) (d : Disk) : vres (option str) :=
  if negb (exists_file io d) then Ok None
  else let? bytes := read_bounded io d in Ok (Some (Crypto.to_hex (Crypto.sha256 bytes))).

(** ** Opening *)

Definition unlock (io : Io) (d : Disk) (password : list Z) : vres UnlockedVault :=
  let? _ := path_check (io_parent io) in
  let? _ := acquire io in
  let? e := read_envelope io d in
  let? (key, p) := unlock_vault_envelope e password in
  Ok (mkVault (env_vault_id e) (env_kdf e) (env_wrapped_vault_key e) key p false).

Definition unlock_with_device_key (io : Io) (d : Disk) (slot_io : Io) (slot : Disk) (device_key : list Z)
  : vres UnlockedVault :=
  let? _ := path_check (io_parent io) in
  let? _ := acquire io in
  let? e := read_envelope io d in
  let? bytes := read_bounded slot_io slot in
  let? slot := ok_or (slot_from_slice bytes) Serialization in
  let? _ := validate_device_unlock_envelope slot in
  if negb (slot_vault_id slot =? env_vault_id e) then Err DeviceUnlockVaultMismatch
  else
    let? key := unwrap_device_vault_key slot device_key in
    let? p := decrypt_payload e key in
    let? p := checked_payload p in
    Ok (mkVault (env_vault_id e) (env_kdf e) (env_wrapped_vault_key e) key p false).

Definition prepare_encrypted_vault_import (bytes password : list Z) : vres PreparedEncryptedVaultImport :=
  let? e := parse_encrypted_vault_envelope bytes in
  let? (key, p) := unlock_vault_envelope e password in
  Ok (mkPrepared bytes (env_vault_id e) (env_kdf e) (env_wrapped_vault_key e) key p).

Definition commit_if_missing (io : Io) (d : Disk) (x : PreparedEncryptedVaultImport)
  : Disk * vres UnlockedVault :=
  let checks :=
    let? here := path_has_entry io d in
    if here then Err AlreadyExists
    else
      let? _ := path_check (io_parent io) in
      let? _ := acquire io in
      let? here := path_has_entry io d in
      if here : bool then Err AlreadyExists else Ok tt in
  match checks with
  | Ok _ =>
      match atomic_create_if_missing (io_write io) (pre_envelope x) d with
      | (d, None) =>
          (d, Ok (mkVault (pre_vault_id x) (pre_kdf x) (pre_wrapped_vault_key x)
                    (pre_vault_master_key x) (pre_payload x) false))
      | (d, Some (BeforeCommit e)) => (d, Err e)
      | (d, Some (Unknown e)) => (d, Err (CommitStateUnknown e))
      end
  | Err e => (d, Err e)
  | Panic => (d, Panic)
  end.

Definition open_sync_key_material (bytes password : list Z) : vres VaultSyncKeyMaterial :=
  if bool_decide (bytes = []) || (MAX_VAULT_FILE_BYTES <? zlen bytes)
  then Err (InvalidEnvelope "invalid sync key envelope size")
  else
    let? e := ok_or (sync_key_from_slice bytes) Serialization in
    if negb (bool_decide (sk_magic e = SYNC_KEY_ENVELOPE_MAGIC))
       || negb (sk_format_version e =? SYNC_KEY_ENVELOPE_FORMAT_VERSION)
    then Err (InvalidEnvelope "invalid sync key envelope")
    else
      let? _ := validate_kdf_parameters (sk_kdf e) in
      let? _ := validate_ciphertext_section (sk_wrapped_vault_key e) in
      let? key_encryption_key := derive_key password (sk_kdf e) in
      let? key := unwrap_vault_key_parts (sk_vault_id e) (sk_kdf e) (sk_wrapped_vault_key e)
                    key_encryption_key in
      Ok (mkMaterial (sk_vault_id e) key bytes).

Definition sync_key_envelope_vault_id (bytes : list Z) : vres Uuid :=
  let? e := ok_or (sync_key_from_slice bytes) Serialization in
  if negb (bool_decide (sk_magic e = SYNC_KEY_ENVELOPE_MAGIC))
     || negb (sk_format_version e =? SYNC_KEY_ENVELOPE_FORMAT_VERSION)
  then Err (InvalidEnvelope "invalid sync key envelope")
  else
    let? _ := validate_kdf_parameters (sk_kdf e) in
    let? _ := validate_ciphertext_section (sk_wrapped_vault_key e) in
    Ok (sk_vault_id e).

(** ** The unlocked vault *)

(** A method with [&mut self]: the vault and its file, changed even when the
    method fails. *)
Definition VM (A : Type) : Type := UnlockedVault * Disk → (UnlockedVault * Disk) * vres A.

Definition vret {A} (a : A) : VM A := λ s, (s, Ok a).
Definition lift {A} (r : vres A) : VM A := λ s, (s, r).
Definition get_self : VM UnlockedVault := λ s, (s, Ok s.1).
Definition get_file : VM Disk := λ s, (s, Ok s.2).
Definition modify (f : UnlockedVault → UnlockedVault) : VM unit := λ s, ((f s.1, s.2), Ok tt).
Definition vbind {A B} (m : VM A) (k : A → VM B) : VM B :=
  λ s, match m s with
       | (s, Ok a) => k a s
       | (s, Err e) => (s, Err e)
       | (s, Panic) => (s, Panic)
       end.

(** [if let Err(error) = m { handler(error); return Err(error) }]. *)
Definition on_error (m : VM unit) (handler : VaultError → VM unit) : VM unit :=
  λ s, match m s with
       | (s, Err e) => ((handler e s).1, Err e)
       | r => r
       end.

End Operations.

Notation "'let!' x ':=' e 'in' k" := (vbind e (fun x => k))
  (at level 10, x pattern, e at level 200, k at level 200) : rust_scope.

Definition set_payload (p : VaultPayloadV1) (v : UnlockedVault) : UnlockedVault :=
  mkVault (vault_id v) (kdf v) (wrapped_vault_key v) (vault_master_key v) p (poisoned v).

Definition set_wrap (k : KdfHeader) (w : CiphertextSection) (v : UnlockedVault) : UnlockedVault :=
  mkVault (vault_id v) k w (vault_master_key v) (payload v) (poisoned v).

Definition set_poisoned (v : UnlockedVault) : UnlockedVault :=
  mkVault (vault_id v) (kdf v) (wrapped_vault_key v) (vault_master_key v) (payload v) true.

Definition set_entries (f : list (SecretRef * SecretEntry) → list (SecretRef * SecretEntry))
    (v : UnlockedVault) : UnlockedVault :=
  let p := payload v in
  set_payload (mkPayload (schema_version p) (revision p) (parent_envelope_sha256 p) (f (entries p))
                 (command_history p)) v.

Definition set_history (h : CommandHistoryPayload) (v : UnlockedVault) : UnlockedVault :=
  let p := payload v in
  set_payload (mkPayload (schema_version p) (revision p) (parent_envelope_sha256 p) (entries p) h) v.

Definition set_revision (r : Z) (v : UnlockedVault) : UnlockedVault :=
  let p := payload v in
  set_payload (mkPayload (schema_version p) r (parent_envelope_sha256 p) (entries p) (command_history p)) v.

Definition set_parent (o : option str) (v : UnlockedVault) : UnlockedVault :=
  let p := payload v in
  set_payload (mkPayload (schema_version p) (revision p) o (entries p) (command_history p)) v.

Section Methods.
Context {J : Type} `{C : Crypto.Crypto J} `{S : VaultSerde}.

Definition ensure_usable : VM unit :=
  let! v := get_self in lift (if poisoned v then Err ReloadRequired else Ok tt).

Definition encode_current_envelope (io : Io) (v : UnlockedVault) : vres (list Z) :=
  let? plaintext := ok_or (payload_to_vec (payload v)) Serialization in
  let? p := encrypt_payload (rnd_payload io) (vault_id v) (vault_master_key v) plaintext in
  Ok (to_vec (envelope_json (mkEnvelope MAGIC FORMAT_VERSION (vault_id v) (kdf v) (wrapped_vault_key v) p))).

Definition write_file (io : Io) (encoded : list Z) : VM (option AtomicWriteError) :=
  λ s, let '(d, r) := atomic_write (io_write io) encoded s.2 in ((s.1, d), Ok r).

Definition persist (io : Io) : VM unit :=
  let! _ := ensure_usable in
  let! v := get_self in
  let previous_parent := parent_envelope_sha256 (payload v) in
  let! d := get_file in
  let! parent := lift (current_envelope_digest io d) in
  let! _ := modify (set_parent parent) in
  let! v := get_self in
  match encode_current_envelope io v with
  | Ok encoded =>
      if MAX_VAULT_FILE_BYTES <? zlen encoded then
        let! _ := modify (set_parent previous_parent) in lift (Err TooLarge)
      else
        let! r := write_file io encoded in
        match r with
        | None => vret tt
        | Some (BeforeCommit e) =>
            let! _ := modify (set_parent previous_parent) in lift (Err e)
        | Some (Unknown e) =>
            let! _ := modify set_poisoned in lift (Err (CommitStateUnknown e))
        end
  | Err e => let! _ := modify (set_parent previous_parent) in lift (Err e)
  | Panic => lift Panic
  end.

Definition is_unknown (e : VaultError) : bool :=
  match e with CommitStateUnknown _ => true | _ => false end.

(** How the methods that change the payload end: an unknown outcome poisons
    the vault, any other error undoes the change. *)
Definition or_roll_back (persist : VM unit) (undo : UnlockedVault → UnlockedVault) : VM unit :=
  on_error persist (λ e, if is_unknown e then modify set_poisoned else modify undo).

Definition next_revision (r : Z) : vres Z :=
  ok_or (checked_add u64_max r 1) (InvalidEnvelope "revision overflow").

Definition create (io : Io) (d : Disk) (password : list Z) (id : Uuid) : Disk * vres UnlockedVault :=
  let ready :=
    let? _ := validate_new_password password in
    if exists_file io d then Err AlreadyExists
    else
      let? _ := path_check (io_parent io) in
      let? _ := acquire io in
      if exists_file io d then Err AlreadyExists
      else
        let? k := new_kdf_header (rnd_salt io) in
        let? key_encryption_key := derive_key password k in
        let? key := fill_random (rnd_key io) in
        let? wrapped := wrap_vault_key (rnd_wrap io) id k key_encryption_key key in
        Ok (mkVault id k wrapped key (mkPayload PAYLOAD_SCHEMA_VERSION 0 None [] history_default) false) in
  match ready with
  | Ok v => match persist io (v, d) with
            | ((v, d), Ok _) => (d, Ok v)
            | ((_, d), Err e) => (d, Err e)
            | ((_, d), Panic) => (d, Panic)
            end
  | Err e => (d, Err e)
  | Panic => (d, Panic)
  end.

Definition export_sync_key_material (v : UnlockedVault) : vres VaultSyncKeyMaterial :=
  if poisoned v then Err ReloadRequired
  else
    Ok (mkMaterial (vault_id v) (vault_master_key v)
          (to_vec (sync_key_json (mkSyncKeyEnvelope SYNC_KEY_ENVELOPE_MAGIC SYNC_KEY_ENVELOPE_FORMAT_VERSION
                                    (vault_id v) (kdf v) (wrapped_vault_key v))))).

Definition export_encrypted_envelope (io : Io) (v : UnlockedVault) (d : Disk) : vres (list Z) :=
  if poisoned v then Err ReloadRequired
  else
    let? _ := path_check (io_parent io) in
    let? bytes := read_bounded io d in
    let? _ := parse_encrypted_vault_envelope bytes in
    Ok bytes.

(** The key that [password] unwraps. *)
Definition candidate_key (v : UnlockedVault) (password : list Z) : vres (list Z) :=
  let? key_encryption_key := derive_key password (kdf v) in
  unwrap_vault_key_parts (vault_id v) (kdf v) (wrapped_vault_key v) key_encryption_key.

Definition verify_password (v : UnlockedVault) (password : list Z) : vres unit :=
  if poisoned v then Err ReloadRequired
  else
    let? candidate := candidate_key v password in
    if negb (bool_decide (candidate = vault_master_key v)) then Err AuthenticationFailed else Ok tt.

Definition write_device_unlock_slot (io : Io) (v : UnlockedVault) (slot : Disk) (device_key : list Z)
  : Disk * vres unit :=
  let encoded :=
    if poisoned v then Err ReloadRequired
    else
      let? wrapped := wrap_device_vault_key (rnd_wrap io) (vault_id v) device_key (vault_master_key v) in
      Ok (to_vec (slot_json (mkSlot DEVICE_UNLOCK_MAGIC DEVICE_UNLOCK_FORMAT_VERSION (vault_id v) wrapped))) in
  match encoded with
  | Ok encoded =>
      match atomic_write (io_write io) encoded slot with
      | (slot, None) => (slot, Ok tt)
      | (slot, Some (BeforeCommit e)) => (slot, Err e)
      | (slot, Some (Unknown e)) => (slot, Err (DeviceUnlockCommitStateUnknown e))
      end
  | Err e => (slot, Err e)
  | Panic => (slot, Panic)
  end.

Definition insert_all (secrets : list SecretInsert) (m : list (SecretRef * SecretEntry))
  : list (SecretRef * SecretEntry) :=
  fold_left (λ m s, bmap_insert (si_ref s) (mkEntry (si_kind s) (si_value s)) m) secrets m.

Definition remove_all (refs : list SecretRef) (m : list (SecretRef * SecretEntry))
  : list (SecretRef * SecretEntry) :=
  fold_left (λ m r, bmap_remove r m) refs m.

Definition restore_all (removed : list (SecretRef * SecretEntry)) (m : list (SecretRef * SecretEntry))
  : list (SecretRef * SecretEntry) :=
  bmap_extend removed m.

Definition insert_secrets_with_refs_using (secrets : list SecretInsert) (persist : VM unit) : VM unit :=
  let! _ := ensure_usable in
  let! v := get_self in
  let! _ := lift (validate_secret_batch (entries (payload v)) secrets) in
  let previous_revision := revision (payload v) in
  let! next := lift (next_revision previous_revision) in
  let! _ := modify (set_entries (insert_all secrets)) in
  let! _ := modify (set_revision next) in
  or_roll_back persist (λ v, set_revision previous_revision (set_entries (remove_all (map si_ref secrets)) v)).

Definition insert_secrets_with_refs (io : Io) (secrets : list SecretInsert) : VM unit :=
  insert_secrets_with_refs_using secrets (persist io).

Definition insert_secret (io : Io) (fresh : SecretRef) (kind : SecretKind) (value : list Z) : VM SecretRef :=
  let! _ := insert_secrets_with_refs io [mkInsert fresh kind value] in vret fresh.

Definition replace_secret_with_ref_using (secret : SecretInsert) (persist : VM unit) : VM unit :=
  let! _ := ensure_usable in
  let! _ := lift (validate_secret_batch [] [secret]) in
  let! v := get_self in
  let previous_revision := revision (payload v) in
  let! next := lift (next_revision previous_revision) in
  let r := si_ref secret in
  let! previous := lift (ok_or (bmap_get r (entries (payload v))) (SecretNotFound r)) in
  let! _ := modify (set_entries (bmap_remove r)) in
  if negb (bool_decide (entry_kind previous = si_kind secret)) then
    let! _ := modify (set_entries (bmap_insert r previous)) in
    lift (Err (SecretKindMismatch (entry_kind previous) (si_kind secret)))
  else
    let! _ := modify (set_entries (bmap_insert r (mkEntry (si_kind secret) (si_value secret)))) in
    let! _ := modify (set_revision next) in
    or_roll_back persist (λ v, set_revision previous_revision (set_entries (bmap_insert r previous) v)).

Definition replace_secret_with_ref (io : Io) (secret : SecretInsert) : VM unit :=
  replace_secret_with_ref_using secret (persist io).

(** The first reference that occurs twice. *)
Fixpoint unique_refs (seen : list SecretRef) (refs : list SecretRef) : vres (list SecretRef) :=
  match refs with
  | [] => Ok seen
  | r :: refs => if bset_mem r seen then Err (DuplicateSecretRef r) else unique_refs (bset_insert r seen) refs
  end.

(** What [remove] gives for each of [refs] in turn. *)
Fixpoint removed_entries (refs : list SecretRef) (m : list (SecretRef * SecretEntry))
  : list (SecretRef * SecretEntry) :=
  match refs with
  | [] => []
  | r :: refs =>
      match bmap_get r m with
      | Some e => (r, e) :: removed_entries refs (bmap_remove r m)
      | None => removed_entries refs (bmap_remove r m)
      end
  end.

Definition delete_secrets_using (refs : list SecretRef) (persist : VM unit) : VM unit :=
  let! _ := ensure_usable in
  if bool_decide (refs = []) then lift (Err EmptySecretBatch)
  else if MAX_SECRET_BATCH_ENTRIES <? zlen refs
  then lift (Err (SecretBatchTooLarge MAX_SECRET_BATCH_ENTRIES))
  else
    let! unique := lift (unique_refs [] refs) in
    let! v := get_self in
    let removed := removed_entries unique (entries (payload v)) in
    let! _ := modify (set_entries (remove_all unique)) in
    if bool_decide (removed = []) then vret tt
    else
      let previous_revision := revision (payload v) in
      let! next := lift (next_revision previous_revision) in
      let! _ := modify (set_revision next) in
      or_roll_back persist (λ v, set_revision previous_revision (set_entries (restore_all removed) v)).

Definition delete_secrets (io : Io) (refs : list SecretRef) : VM unit := delete_secrets_using refs (persist io).

Definition read_secret (v : UnlockedVault) (r : SecretRef) (expected : SecretKind) : vres (option (list Z)) :=
  if poisoned v then Err ReloadRequired
  else
    match bmap_get r (entries (payload v)) with
    | None => Ok None
    | Some e =>
        if negb (bool_decide (entry_kind e = expected)) then Err (SecretKindMismatch expected (entry_kind e))
        else Ok (Some (entry_value e))
    end.

Definition get_command_history (v : UnlockedVault) : vres CommandHistoryPayload :=
  if poisoned v then Err ReloadRequired else Ok (command_history (payload v)).

Definition replace_command_history_using (h : CommandHistoryPayload) (persist : VM unit) : VM unit :=
  let! _ := ensure_usable in
  let! _ := lift (validate_command_history h) in
  let! v := get_self in
  let previous_revision := revision (payload v) in
  let! next := lift (next_revision previous_revision) in
  let previous_history := command_history (payload v) in
  let! _ := modify (set_history h) in
  let! _ := modify (set_revision next) in
  or_roll_back persist (λ v, set_revision previous_revision (set_history previous_history v)).

Definition replace_command_history (io : Io) (h : CommandHistoryPayload) : VM unit :=
  replace_command_history_using h (persist io).

Definition change_password (io : Io) (current_password new_password : list Z) : VM unit :=
  let! _ := ensure_usable in
  let! _ := lift (validate_new_password new_password) in
  let! v := get_self in
  let! current := lift (candidate_key v current_password) in
  if negb (bool_decide (current = vault_master_key v)) then lift (Err AuthenticationFailed)
  else
    let old_kdf := kdf v in
    let old_wrapped := wrapped_vault_key v in
    let old_revision := revision (payload v) in
    let! k := lift (new_kdf_header (rnd_salt io)) in
    let! key_encryption_key := lift (derive_key new_password k) in
    let! wrapped := lift (wrap_vault_key (rnd_wrap io) (vault_id v) k key_encryption_key
                            (vault_master_key v)) in
    let! _ := modify (set_wrap k wrapped) in
    let! next := lift (next_revision old_revision) in
    let! _ := modify (set_revision next) in
    on_error (persist io) (λ e,
      if is_unknown e then vret tt
      else modify (λ v, set_revision old_revision (set_wrap old_kdf old_wrapped v))).

(** ** Merging another vault's envelope *)

(** [Uuid::new_v4] until the value is new; [None] when the draws run out. *)
Fixpoint draw_new (used : list Uuid) (draws : list Uuid) : option (Uuid * list Uuid) :=
  match draws with
  | [] => None
  | u :: draws => if bset_mem u used then draw_new used draws else Some (u, draws)
  end.

Definition set_entry_id (u : Uuid) (e : CommandHistoryEntry) : CommandHistoryEntry :=
  mkHistoryEntry u (scope e) (command e) (completed_at_unix_ms e) (elapsed_millis e) (exit_code e).

Record MergeState := mkMerge {
  m_entries : list CommandHistoryEntry;
  m_ids : list Uuid;
  m_imported : Z;
  m_skipped : Z;
  m_renamed : Z }.

Fixpoint merge_history (st : MergeState) (draws : list Uuid) (source : list CommandHistoryEntry)
  : option (MergeState * list Uuid) :=
  match source with
  | [] => Some (st, draws)
  | e :: source =>
      match List.find (λ existing, entry_id existing =? entry_id e) (m_entries st) with
      | Some existing =>
          if bool_decide (existing = e) then
            merge_history (mkMerge (m_entries st) (m_ids st) (m_imported st) (m_skipped st + 1) (m_renamed st))
              draws source
          else
            '(u, draws) ← draw_new (m_ids st) draws;
            merge_history (mkMerge (m_entries st ++ [set_entry_id u e]) (bset_insert u (m_ids st))
                             (m_imported st + 1) (m_skipped st) (m_renamed st + 1)) draws source
      | None =>
          merge_history (mkMerge (m_entries st ++ [e]) (bset_insert (entry_id e) (m_ids st))
                           (m_imported st + 1) (m_skipped st) (m_renamed st)) draws source
      end
  end.

(** A new reference for each of the source's secrets, in the order of the map. *)
Fixpoint assign_refs (used : list SecretRef) (draws : list Uuid) (source : list (SecretRef * SecretEntry))
  : option (list (SecretRef * SecretEntry)) :=
  match source with
  | [] => Some []
  | (_, e) :: source =>
      '(r, draws) ← draw_new used draws;
      rest ← assign_refs (bset_insert r used) draws source;
      Some ((r, e) :: rest)
  end.

(** What the source envelope adds: [None] while [Uuid::new_v4] is still being
    called. *)
Definition merge_plan (own : CommandHistoryPayload) (own_entries : list (SecretRef * SecretEntry))
    (source : VaultPayloadV1) (reserved : list SecretRef) (draws : list Uuid)
  : option (vres (CommandHistoryPayload * list (SecretRef * SecretEntry) * VaultMergeSummary)) :=
  '(st, draws) ← merge_history (mkMerge (hist_entries own) (bset_of (map entry_id (hist_entries own))) 0 0 0)
                   draws (hist_entries (command_history source));
  let merged := mkHistory (hist_schema_version own) (m_entries st) in
  match validate_command_history merged with
  | Ok _ =>
      let used := bset_extend (bset_extend (bmap_keys own_entries) reserved) (bmap_keys (entries source)) in
      imported ← assign_refs used draws (entries source);
      Some (Ok (merged, imported, mkSummary (zlen imported) (m_imported st) (m_skipped st) (m_renamed st)))
  | Err e => Some (Err e)
  | Panic => Some Panic
  end.

Definition merge_encrypted_envelope_using (bytes source_password : list Z) (reserved : list SecretRef)
    (draws : list Uuid) (persist : VM unit) (s : UnlockedVault * Disk)
  : option ((UnlockedVault * Disk) * vres VaultMergeSummary) :=
  if poisoned s.1 then Some (s, Err ReloadRequired)
  else
    match (let? e := parse_encrypted_vault_envelope bytes in unlock_vault_envelope e source_password) with
    | Ok (_, source) =>
        plan ← merge_plan (command_history (payload s.1)) (entries (payload s.1)) source reserved draws;
        Some ((let! (merged, imported, summary) := lift plan in
               if (imported_secrets summary =? 0) && (imported_history_entries summary =? 0) then vret summary
               else
                 let! v := get_self in
                 let previous_revision := revision (payload v) in
                 let! next := lift (next_revision previous_revision) in
                 let! _ := modify (set_entries (restore_all imported)) in
                 let previous_history := command_history (payload v) in
                 let! _ := modify (set_history merged) in
                 let! _ := modify (set_revision next) in
                 let! _ := or_roll_back persist (λ v,
                   set_revision previous_revision
                     (set_history previous_history (set_entries (remove_all (map fst imported)) v))) in
                 vret summary) s)
    | Err e => Some (s, Err e)
    | Panic => Some (s, Panic)
    end.

Definition merge_encrypted_envelope (io : Io) (bytes source_password : list Z) (reserved : list SecretRef)
    (draws : list Uuid) : UnlockedVault * Disk → option ((UnlockedVault * Disk) * vres VaultMergeSummary) :=
  merge_encrypted_envelope_using bytes source_password reserved draws (persist io).

(** ** Reset and the auto-unlock password *)

(** [locked_vault_fingerprint]; [identity] is the device and inode when the
    file is opened and when it is opened again. *)
Definition le_bytes (n : Z) : list Z := map (λ i, n / 2 ^ (8 * i) mod 256) (seqZ 0 8).

Definition locked_vault_fingerprint (io : Io) (d : Disk) (identity identity_after : Z * Z) : vres (list Z) :=
  let? bytes := read_bounded io d in
  if negb (bool_decide (identity_after = identity)) then Err VaultChanged
  else Ok (Crypto.sha256 (lit "norishell-locked-vault-reset-v1" ++ [0] ++ le_bytes identity.1 ++
                          le_bytes identity.2 ++ bytes)).

Definition fingerprint_locked_vault (io : Io) (d : Disk) (identity identity_after : Z * Z) : vres (list Z) :=
  let? _ := path_check (io_parent io) in
  let? _ := acquire io in
  locked_vault_fingerprint io d identity identity_after.

(** The answer to [remove_file] is [w_replace]. *)
Definition remove_locked_vault_if_unchanged (io : Io) (d : Disk) (identity identity_after : Z * Z)
    (expected : list Z) : Disk * vres unit :=
  match fingerprint_locked_vault io d identity identity_after with
  | Ok actual =>
      if negb (bool_decide (actual = expected)) then (d, Err VaultChanged)
      else
        match w_replace (io_write io) with
        | Some e => (d, Err (IoError e))
        | None =>
            match w_sync (io_write io) with
            | Some (e, survives) => (if survives then None else d, Err (CommitStateUnknown e))
            | None => (None, Ok tt)
            end
        end
  | Err e => (d, Err e)
  | Panic => (d, Panic)
  end.

Definition write_private_file (io : Io) (contents : list Z) (d : Disk) : Disk * vres unit :=
  match atomic_write (io_write io) contents d with
  | (d, None) => (d, Ok tt)
  | (d, Some (BeforeCommit e)) => (d, Err e)
  | (d, Some (Unknown e)) => (d, Err (CommitStateUnknown e))
  end.

Definition write_local_auto_unlock_password (io : Io) (password : list Z) (d : Disk) : Disk * vres unit :=
  match validate_local_auto_unlock_password password with
  | Ok _ => write_private_file io password d
  | Err e => (d, Err e)
  | Panic => (d, Panic)
  end.

Definition read_local_auto_unlock_password (io : Io) (d : Disk) : vres (list Z) :=
  let? _ := path_check (io_parent io) in
  let? _ := path_check (io_read io) in
  let? password := ok_or d (IoError NOT_FOUND) in
  if MAX_PASSWORD_BYTES <? zlen password then Err TooLarge
  else let? _ := validate_local_auto_unlock_password password in Ok password.

End Methods.
End Vault.
