(* ===== verification/VaultDurability.v ===== *)
(** * The vault's file and its memory

    What the file of [SecretVault] holds while the unlocked vault is changed
    under arbitrary answers of the operating system. [Sound] is the invariant
    of an unlocked vault, [persist_spec] says what one write does, and [tx_spec]
    what a method that ends in a write does. *)

From S2P Require Import Prelude RustStr BTree SerdeJson SyncCrypto SecretVault.

Module Durable.
Import Json Vault.
Import (hints) Crypto.

(** ** Values of the Rust types *)

Definition entry_typed (kv : SecretRef * SecretEntry) : Prop :=
  0 < kv.1 ≤ u128_max ∧ Forall byte (entry_value kv.2).

Definition history_entry_typed (e : CommandHistoryEntry) : Prop :=
  0 ≤ entry_id e ≤ u128_max ∧ Forall scalar (scope e) ∧ Forall scalar (command e) ∧
  i64_min ≤ completed_at_unix_ms e ≤ i64_max ∧ 0 ≤ elapsed_millis e ≤ u64_max ∧
  - 2 ^ 31 ≤ default 0 (exit_code e) < 2 ^ 31.

Definition history_typed (h : CommandHistoryPayload) : Prop :=
  0 ≤ hist_schema_version h ≤ u32_max ∧ Forall history_entry_typed (hist_entries h).

Record payload_typed (p : VaultPayloadV1) : Prop := {
  pt_schema : 0 ≤ schema_version p ≤ u32_max;
  pt_revision : 0 ≤ revision p ≤ u64_max;
  pt_parent : Forall scalar (default [] (parent_envelope_sha256 p));
  pt_sorted : bmap_sorted (entries p);
  pt_entries : Forall entry_typed (entries p);
  pt_history : history_typed (command_history p) }.

Definition kdf_typed (k : KdfHeader) : Prop :=
  Forall scalar (kdf_id k) ∧ Forall scalar (profile k) ∧ Forall scalar (salt k) ∧
  0 ≤ memory_kib k ≤ u32_max ∧ 0 ≤ iterations k ≤ u32_max ∧ 0 ≤ parallelism k ≤ u32_max.

Definition section_typed (s : CiphertextSection) : Prop :=
  Forall scalar (cipher s) ∧ Forall scalar (nonce s) ∧ Forall scalar (ciphertext s).

Record envelope_typed (e : VaultEnvelope) : Prop := {
  et_magic : Forall scalar (magic e);
  et_version : 0 ≤ format_version e ≤ u32_max;
  et_id : 0 ≤ env_vault_id e ≤ u128_max;
  et_kdf : kdf_typed (env_kdf e);
  et_wrapped : section_typed (env_wrapped_vault_key e);
  et_payload : section_typed (env_payload e) }.

Record slot_typed (e : DeviceUnlockEnvelope) : Prop := {
  st_magic : Forall scalar (slot_magic e);
  st_version : 0 ≤ slot_format_version e ≤ u32_max;
  st_id : 0 ≤ slot_vault_id e ≤ u128_max;
  st_wrapped : section_typed (slot_wrapped_vault_key e) }.

Record sync_key_typed (e : VaultSyncKeyEnvelope) : Prop := {
  kt_magic : Forall scalar (sk_magic e);
  kt_version : 0 ≤ sk_format_version e ≤ u32_max;
  kt_id : 0 ≤ sk_vault_id e ≤ u128_max;
  kt_kdf : kdf_typed (sk_kdf e);
  kt_wrapped : section_typed (sk_wrapped_vault_key e) }.

(** [serde_json] reads what it wrote, and reads values of the Rust types only;
    what the cipher decrypts is bytes. *)
Class VaultLaws (J : Type) {C : Crypto.Crypto J} {S : VaultSerde} : Prop := {
  crypto_laws :: Crypto.CryptoLaws J;
  plain_bytes k n c a m : Crypto.aead_decrypt k n c a = Some m → Forall byte m;
  envelope_read e : envelope_typed e → envelope_from_slice (to_vec (envelope_json e)) = Some e;
  envelope_made bs e : envelope_from_slice bs = Some e → envelope_typed e;
  slot_read e : slot_typed e → slot_from_slice (to_vec (slot_json e)) = Some e;
  sync_key_read e : sync_key_typed e → sync_key_from_slice (to_vec (sync_key_json e)) = Some e;
  payload_bytes p m : payload_to_vec p = Some m → Forall byte m;
  payload_read p m : payload_typed p → payload_to_vec p = Some m → payload_from_slice m = Some p;
  payload_made bs p : payload_from_slice bs = Some p → payload_typed p }.

Definition filled (n : Z) (o : option (list Z)) : Prop :=
  ∀ bs, o = Some bs → Forall byte bs ∧ zlen bs = n.

Record io_typed (io : Io) : Prop := {
  it_salt : filled SALT_BYTES (rnd_salt io);
  it_key : filled KEY_BYTES (rnd_key io);
  it_wrap : filled NONCE_BYTES (rnd_wrap io);
  it_payload : filled NONCE_BYTES (rnd_payload io) }.

(** An operating system that answers without errors. *)
Definition quiet_write : WriteIo := mkWriteIo None None None None None None.
Definition quiet : Io := mkIo None None true None quiet_write None None None None.

Section Invariant.
Context {J : Type} {C : Crypto.Crypto J} {S : VaultSerde} {L : VaultLaws J}.
Implicit Types v : UnlockedVault.

(** An unlocked vault that [password] opens. *)
Record Sound v (password : list Z) : Prop := {
  so_id : 0 < vault_id v ≤ u128_max;
  so_kdf : validate_kdf_parameters (kdf v) = Ok tt;
  so_kdf_typed : kdf_typed (kdf v);
  so_wrapped : validate_ciphertext_section (wrapped_vault_key v) = Ok tt;
  so_wrapped_typed : section_typed (wrapped_vault_key v);
  so_opens : candidate_key v password = Ok (vault_master_key v);
  so_key : Forall byte (vault_master_key v) ∧ zlen (vault_master_key v) = KEY_BYTES;
  so_typed : payload_typed (payload v);
  so_checked : checked_payload (payload v) = Ok (payload v) }.

(** ** Sections *)

Lemma unb64_b64 bs : Forall byte bs → unb64 (b64 bs) = Some bs.
Proof. apply Crypto.decode_encode. Qed.

Lemma b64_scalar bs : Forall byte bs → Forall scalar (b64 bs).
Proof. apply Crypto.encode_scalar, _. Qed.

Lemma unseal_seal key nonce msg aad e c e' :
  seal key nonce msg aad e = Ok c → unseal key nonce c aad e' = Ok msg.
Proof. unfold seal, unseal. intros H. rinv H. subst. by erewrite Crypto.aead_open. Qed.

Lemma unseal_bytes key nonce c aad e m : unseal key nonce c aad e = Ok m → Forall byte m.
Proof. unfold unseal. intros H. rinv H. subst. by eapply plain_bytes. Qed.

Lemma sealed_section key n msg aad e c :
  seal key n msg aad e = Ok c → Forall byte msg → Forall byte n → zlen n = NONCE_BYTES →
  let s := mkSection CIPHER_ID (b64 n) (b64 c) in
  decode_nonce s = Ok n ∧ unb64 (ciphertext s) = Some c ∧ validate_ciphertext_section s = Ok tt ∧ section_typed s.
Proof.
  intros Hs Hm Hn Hl s. unfold seal in Hs. rinv Hs. subst.
  assert (Forall byte c) as Hc by (eapply Crypto.aead_bytes; [exact Hm|done]).
  assert (zlen c = zlen msg + 16) as Hz by by eapply Crypto.aead_len.
  assert (decode_nonce s = Ok n) as Hd.
  { unfold decode_nonce, Crypto.try_into. cbn [nonce s]. rewrite unb64_b64 by done. cbn. by rewrite Hl. }
  split; [done|]. split; [by apply unb64_b64|]. split.
  - unfold validate_ciphertext_section. rewrite Hd. cbn [cipher ciphertext s]. rewrite bool_decide_true by done.
    rewrite unb64_b64 by done. cbn. rewrite bool_decide_false; [done|]. intros ->.
    pose proof (zlen_nonneg msg). rewrite zlen_nil in Hz. lia.
  - split_and!; [by apply ascii_scalar|by apply b64_scalar..].
Qed.

(** ** Unlocking *)

Lemma unlock_quiet io d password v : unlock io d password = Ok v → unlock quiet d password = Ok v.
Proof.
  unfold unlock, read_envelope, read_bounded. intros H.
  destruct (io_parent io); [done|]. destruct (acquire io); [|done..]. destruct (io_read io); [done|]. exact H.
Qed.

Lemma candidate_typed v password key :
  candidate_key v password = Ok key → Forall byte key ∧ zlen key = KEY_BYTES.
Proof.
  unfold candidate_key, unwrap_vault_key_parts. intros H. rinv H. bprop. subst.
  split; [by eapply unseal_bytes|done].
Qed.

Lemma parse_sound bytes e :
  parse_encrypted_vault_envelope bytes = Ok e →
  zlen bytes ≤ MAX_VAULT_FILE_BYTES ∧ envelope_typed e ∧ validate_envelope e = Ok tt.
Proof.
  unfold parse_encrypted_vault_envelope. intros H. rinv H. bprop. subst.
  split; [done|]. split; [by eapply envelope_made|by destruct x0].
Qed.

Lemma unlock_envelope_sound e password key p :
  envelope_typed e → unlock_vault_envelope e password = Ok (key, p) →
  Sound (mkVault (env_vault_id e) (env_kdf e) (env_wrapped_vault_key e) key p false) password.
Proof.
  intros [_ _ Hid Hk Hw _] H. unfold unlock_vault_envelope in H.
  destruct (validate_envelope e) eqn:Ev; try done. cbn [rbind] in H.
  destruct (derive_key password (env_kdf e)) as [kek| |] eqn:Ed; try done. cbn [rbind] in H.
  destruct (unwrap_vault_key e kek) as [k| |] eqn:Eu; try done. cbn [rbind] in H.
  destruct (decrypt_payload e k) as [q| |] eqn:Ep; try done. cbn [rbind] in H.
  destruct (checked_payload q) as [q'| |] eqn:Ec; try done. cbn in H. injection H as <- <-.
  assert (q' = q) as -> by (unfold checked_payload in Ec; rinv Ec; done).
  assert (candidate_key (mkVault (env_vault_id e) (env_kdf e) (env_wrapped_vault_key e) k q false) password = Ok k) as Hc.
  { unfold candidate_key. cbn [kdf vault_id wrapped_vault_key]. by rewrite Ed. }
  unfold validate_envelope in Ev. rinv Ev. bprop.
  split; cbn [vault_id kdf wrapped_vault_key vault_master_key payload]; try done.
  - lia.
  - by destruct x.
  - by destruct x0.
  - by eapply candidate_typed.
  - unfold decrypt_payload in Ep. rinv Ep. subst. by eapply payload_made.
Qed.

Lemma unlock_sound d password v :
  unlock quiet d password = Ok v → Sound v password ∧ poisoned v = false.
Proof.
  unfold unlock, read_envelope. cbn [io_parent quiet path_check acquire io_lock rbind]. intros H.
  rinv H. destruct x0 as [key p]. cbn in H. injection H as <-.
  destruct (read_bounded quiet d) as [bytes| |]; try done. cbn [rbind] in E.
  apply parse_sound in E as (_ & Ht & _). split; [|done]. by apply unlock_envelope_sound.
Qed.

(** The encoding of a sound vault opens to that vault. *)
Lemma encode_unlock io v password bytes :
  Sound v password → io_typed io → poisoned v = false →
  encode_current_envelope io v = Ok bytes → zlen bytes ≤ MAX_VAULT_FILE_BYTES →
  unlock quiet (Some bytes) password = Ok v.
Proof.
  intros [Hid Hk Hkt Hw Hwt Ho [Hkb Hkl] Ht Hc] Hio Hp H Hl.
  unfold encode_current_envelope, encrypt_payload, fill_random in H. rinv H.
  destruct (rnd_payload io) as [n|] eqn:En; [|done]. cbn [ok_or rbind] in E0. rinv E0.
  destruct (it_payload io Hio n En) as [Hnb Hnl].
  destruct (sealed_section _ _ _ _ _ _ E1 (payload_bytes _ _ E) Hnb Hnl) as (Hd & Hu & Hv & Hst).
  rewrite E0 in Hd, Hu, Hv, Hst.
  set (e := mkEnvelope MAGIC FORMAT_VERSION (vault_id v) (kdf v) (wrapped_vault_key v) x0) in *.
  assert (validate_envelope e = Ok tt) as Hve.
  { unfold validate_envelope. cbn [magic format_version env_vault_id env_kdf env_wrapped_vault_key env_payload e].
    rewrite bool_decide_true, Z.eqb_refl, (proj2 (Z.eqb_neq (vault_id v) 0)), Hk by (done || lia). cbn. by rewrite Hw. }
  assert (parse_encrypted_vault_envelope bytes = Ok e) as Hpe.
  { unfold parse_encrypted_vault_envelope. rewrite bool_decide_false by (rewrite <- H; apply to_vec_object).
    rewrite (proj2 (Z.ltb_ge _ _)) by done. rewrite <- H, envelope_read.
    - cbn. by rewrite Hve.
    - split; cbn; (done || lia || by apply ascii_scalar). }
  unfold unlock, read_envelope, read_bounded. cbn [quiet io_parent io_read io_lock path_check acquire rbind ok_or].
  rewrite (proj2 (Z.ltb_ge _ _)) by done. cbn [rbind]. rewrite Hpe. cbn [rbind].
  unfold unlock_vault_envelope. rewrite Hve. cbn [rbind env_kdf e]. unfold candidate_key in Ho.
  destruct (derive_key password (kdf v)) as [kek| |]; try done. cbn [rbind] in *.
  unfold unwrap_vault_key. cbn [env_vault_id env_kdf env_wrapped_vault_key e]. rewrite Ho. cbn [rbind].
  unfold decrypt_payload. cbn [env_payload magic format_version env_vault_id e]. rewrite Hd. cbn [rbind].
  rewrite Hu. cbn [rbind ok_or]. rewrite <- E0. cbn [cipher nonce].
  erewrite unseal_seal by done. cbn [rbind]. erewrite payload_read by done. cbn [rbind ok_or].
  rewrite Hc. cbn [rbind]. by destruct v; cbn in Hp; subst.
Qed.

(** ** One write *)

Lemma sound_payload v password p :
  Sound v password → payload_typed p → checked_payload p = Ok p → Sound (set_payload p v) password.
Proof. intros [] Ht Hc. by split. Qed.

Lemma checked_iff p :
  checked_payload p = Ok p ↔ schema_version p = PAYLOAD_SCHEMA_VERSION ∧
    Forall (λ kv, validate_secret_value (entry_kind kv.2) (entry_value kv.2) = Ok tt) (entries p) ∧
    validate_command_history (command_history p) = Ok tt.
Proof.
  unfold checked_payload, validate_payload_entries. split.
  - intros H. rinv H. bprop. rinv E0. split; [done|]. split; [|by destruct x].
    apply rforall_Ok in E1. eapply Forall_impl; [exact E1|]. by intros [r e].
  - intros (-> & He & Hh). cbn.
    assert (rforall (λ '(_, e), validate_secret_value (entry_kind e) (entry_value e)) (entries p) = Ok tt) as ->.
    { apply rforall_Ok. eapply Forall_impl; [exact He|]. by intros [r e]. }
    cbn. by rewrite Hh.
Qed.

Lemma sound_parent v password o :
  Sound v password → Forall scalar (default [] o) → Sound (set_parent o v) password.
Proof.
  intros Hs Ho. apply sound_payload; [done| |].
  - destruct (so_typed _ _ Hs). by split.
  - apply checked_iff. exact (proj1 (checked_iff _) (so_checked _ _ Hs)).
Qed.

Lemma atomic_write_spec w contents d :
  match atomic_write w contents d with
  | (d', None) => d' = Some contents
  | (d', Some (BeforeCommit e)) => d' = d ∧ is_unknown e = false
  | (d', Some (Unknown _)) => d' = d ∨ d' = Some contents
  end.
Proof.
  unfold atomic_write, unsettled.
  destruct (w_parent w) as [[]|]; [done..|]. destruct (w_open w) as [[]|]; [done..|].
  destruct (w_write w); [done|]. destruct (w_replace w); [done|]. destruct (w_sync w) as [[? []]|]; auto.
Qed.

Lemma to_hex_ascii bs : Forall byte bs → forallb is_ascii (Crypto.to_hex bs) = true.
Proof.
  unfold Crypto.to_hex. induction 1 as [|b bs Hb _ IH]; [done|]. cbn [map concat app forallb].
  rewrite IH. unfold byte in Hb. unfold digit_char, is_ascii.
  assert (0 ≤ b / 16 < 16 ∧ 0 ≤ b mod 16 < 16) as [? ?] by (Z.to_euclidean_division_equations; lia).
  destruct (b / 16 <? 10) eqn:?, (b mod 16 <? 10) eqn:?; lia.
Qed.

Lemma digest_spec io d :
  match current_envelope_digest io d with
  | Ok o => Forall scalar (default [] o)
  | Err e => is_unknown e = false
  | Panic => False
  end.
Proof.
  unfold current_envelope_digest, read_bounded. destruct (exists_file io d); [|constructor]. cbn [negb].
  destruct (io_read io) as [[]|]; [done..|]. cbn. destruct d as [bytes|]; [|done]. cbn.
  destruct (MAX_VAULT_FILE_BYTES <? zlen bytes); [done|]. cbn.
  apply ascii_scalar, to_hex_ascii, Crypto.sha256_bytes.
Qed.

Lemma encode_errors io v :
  match encode_current_envelope io v with Ok _ => True | Err e => is_unknown e = false | Panic => False end.
Proof.
  unfold encode_current_envelope, encrypt_payload, fill_random, seal.
  destruct (payload_to_vec _); [|done]. destruct (rnd_payload io); [|done]. cbn.
  destruct (negb _); [done|]. by destruct (Crypto.aead_encrypt _ _ _ _).
Qed.

Lemma set_parent_back v o : set_parent (parent_envelope_sha256 (payload v)) (set_parent o v) = v.
Proof. by destruct v as [? ? ? ? [] ?]. Qed.

(** What a write leaves: the new state on both sides, the old state on both
    sides, or a poisoned vault over one of the two files. *)
Definition written (password : list Z) v (d : Disk) (undone : UnlockedVault) (r : (UnlockedVault * Disk) * vres unit) : Prop :=
  match r with
  | ((v', d'), Ok _) => ∃ o, v' = set_parent o v ∧ unlock quiet d' password = Ok v'
  | ((v', d'), Err e) =>
      if is_unknown e
      then ∃ o, v' = set_poisoned (set_parent o v) ∧ (d' = d ∨ unlock quiet d' password = Ok (set_parent o v))
      else v' = undone ∧ d' = d
  | (_, Panic) => False
  end.

Lemma persist_spec io v d password :
  Sound v password → poisoned v = false → io_typed io → written password v d v (persist io (v, d)).
Proof.
  intros Hs Hp Hio. unfold persist, vbind, ensure_usable, get_self, get_file, lift, modify. cbn.
  rewrite Hp. cbn. pose proof (digest_spec io d) as Hd.
  destruct (current_envelope_digest io d) as [o|e|]; cbn; [|by rewrite Hd|done].
  pose proof (encode_errors io (set_parent o v)) as He.
  destruct (encode_current_envelope io (set_parent o v)) as [bytes|e|] eqn:Eb; [|by cbn; rewrite He, set_parent_back|done].
  destruct (MAX_VAULT_FILE_BYTES <? zlen bytes) eqn:El; [by cbn; rewrite set_parent_back|]. bprop.
  assert (unlock quiet (Some bytes) password = Ok (set_parent o v)) as Hu.
  { eapply encode_unlock; [|exact Hio|done|exact Eb|done]. by apply sound_parent. }
  unfold write_file. cbn. pose proof (atomic_write_spec (io_write io) bytes d) as Hw.
  destruct (atomic_write (io_write io) bytes d) as [d' [[e|e]|]]; cbn.
  - destruct Hw as [-> ->]. by rewrite set_parent_back.
  - exists o. split; [done|]. destruct Hw as [->| ->]; auto.
  - subst. by exists o.
Qed.

Lemma roll_back_spec io v d password undo :
  Sound v password → poisoned v = false → io_typed io →
  written password v d (undo v) (or_roll_back (persist io) undo (v, d)).
Proof.
  intros Hs Hp Hio. unfold or_roll_back, on_error. pose proof (persist_spec io v d password Hs Hp Hio) as H.
  destruct (persist io (v, d)) as [[v' d'] [u|e|]]; [done| |done]. cbn in *.
  destruct (is_unknown e); cbn.
  - destruct H as (o & -> & Hd). by exists o.
  - by destruct H as [-> ->].
Qed.

End Invariant.
End Durable.
