(* ===== verification/VaultStore.v ===== *)
(** * The vault as a durable store

    The abstract store behind [SecretVault]: a map of secrets, a history, a
    revision and a password, changed by whole operations ([effect]). [Trace]
    says which answers a sequence of operations may have and which store is
    then durable; [vault_durable] shows that the vault and its file refine it
    under arbitrary answers of the operating system. *)

From S2P Require Import Prelude RustStr BTree SerdeJson SyncCrypto SecretVault VaultDurability.

Module Store.
Import Json Vault Durable.
Import (hints) Crypto.

(** ** Maps *)

Section Entries.
Implicit Types m : list (SecretRef * SecretEntry).

Definition insert_entry (s : SecretInsert) : SecretEntry := mkEntry (si_kind s) (si_value s).

Lemma Forall_bmap_insert (P : SecretRef * SecretEntry → Prop) k e m :
  Forall P m → P (k, e) → Forall P (bmap_insert k e m).
Proof.
  intros Hm Hp. induction Hm as [|[x w] m Hx Hm IH]; cbn [bmap_insert]; [by constructor|].
  destruct (kcmp k x); rewrite ?Forall_cons; naive_solver.
Qed.

Lemma Forall_insert_all (P : SecretRef * SecretEntry → Prop) secrets m :
  Forall P m → Forall (λ s, P (si_ref s, insert_entry s)) secrets → Forall P (insert_all secrets m).
Proof.
  intros Hm Hs. revert m Hm. unfold insert_all. induction Hs as [|s secrets Hs _ IH]; intros m Hm; simpl; [done|].
  by apply IH, Forall_bmap_insert.
Qed.

Lemma Forall_extend (P : SecretRef * SecretEntry → Prop) (l m : list (SecretRef * SecretEntry)) :
  Forall P m → Forall P l → Forall P (bmap_extend l m).
Proof.
  intros Hm Hl. revert m Hm. unfold bmap_extend. induction Hl as [|[k e] l He _ IH]; intros m Hm; simpl; [done|].
  by apply IH, Forall_bmap_insert.
Qed.

Lemma Forall_remove_all (P : SecretRef * SecretEntry → Prop) refs m : Forall P m → Forall P (remove_all refs m).
Proof.
  revert m. unfold remove_all. induction refs as [|r refs IH]; intros m Hm; simpl; [done|].
  apply IH. unfold bmap_remove. rewrite Forall_forall in *. intros kv Hin.
  apply list_elem_of_In, filter_In in Hin as [Hin _]. by apply Hm, list_elem_of_In.
Qed.

Lemma insert_all_extend secrets m :
  insert_all secrets m = bmap_extend (map (λ s, (si_ref s, insert_entry s)) secrets) m.
Proof. unfold insert_all, bmap_extend. revert m. induction secrets as [|s secrets IH]; intros m; [done|]. apply IH. Qed.

Lemma remove_all_sorted refs m : bmap_sorted m → bmap_sorted (remove_all refs m).
Proof.
  revert m. unfold remove_all. induction refs as [|r refs IH]; intros m Hm; simpl; [done|].
  by apply IH, bmap_remove_sorted.
Qed.

Lemma remove_all_get refs m k : bmap_get k (remove_all refs m) = if bset_mem k refs then None else bmap_get k m.
Proof.
  revert m. unfold remove_all. induction refs as [|r refs IH]; intros m; simpl; [done|].
  rewrite IH, bmap_get_remove. by destruct (keqb k r), (bset_mem k refs).
Qed.

(** Removing what was just added gives back the map. *)
Lemma remove_extend (l m : list (SecretRef * SecretEntry)) :
  bmap_sorted m → NoDup (map fst l) → (∀ k, k ∈ map fst l → k ∉ bmap_keys m) →
  remove_all (map fst l) (bmap_extend l m) = m.
Proof.
  intros Hm Hnd Hnew. apply bmap_ext; auto using remove_all_sorted, bmap_extend_sorted.
  intros k. rewrite remove_all_get, bmap_extend_get by done.
  destruct (bset_mem k (map fst l)) eqn:E.
  - apply bset_mem_true in E. symmetry. by apply bmap_get_None, Hnew.
  - apply bset_mem_false in E. by rewrite (proj2 (bmap_get_None k l)).
Qed.

Lemma removed_keys refs m k : k ∈ map fst (removed_entries refs m) → k ∈ refs.
Proof.
  revert m. induction refs as [|r refs IH]; intros m; simpl; [done|].
  destruct (bmap_get r m); simpl; [rewrite elem_of_cons|]; set_solver.
Qed.

Lemma removed_NoDup refs m : NoDup refs → NoDup (map fst (removed_entries refs m)).
Proof.
  intros Hnd. revert m. induction Hnd as [|r refs Hr Hnd IH]; intros m; simpl; [constructor|].
  destruct (bmap_get r m); simpl; [|done]. constructor; [|done]. by intros ?%removed_keys.
Qed.

Lemma removed_get refs m k :
  NoDup refs → bmap_get k (removed_entries refs m) = if bset_mem k refs then bmap_get k m else None.
Proof.
  intros Hnd. revert m. induction Hnd as [|r refs Hr Hnd IH]; intros m; simpl; [done|].
  assert (bmap_get k (removed_entries refs (bmap_remove r m)) =
    if keqb k r then None else if bset_mem k refs then bmap_get k m else None) as Hg.
  { rewrite IH, bmap_get_remove. destruct (keqb_spec k r) as [->|]; [|done]. by destruct (bset_mem r refs). }
  destruct (bmap_get r m) eqn:E; simpl; rewrite Hg; destruct (keqb_spec k r) as [Hk|]; try done; by rewrite Hk, E.
Qed.

Lemma restore_removed refs m :
  bmap_sorted m → NoDup refs → bmap_extend (removed_entries refs m) (remove_all refs m) = m.
Proof.
  intros Hm Hnd. apply bmap_ext; auto using remove_all_sorted, bmap_extend_sorted.
  intros k. rewrite bmap_extend_get, removed_get, remove_all_get by auto using removed_NoDup.
  destruct (bset_mem k refs); [by destruct (bmap_get k m)|done].
Qed.

Lemma unique_refs_spec seen refs unique :
  unique_refs seen refs = Ok unique → bsorted seen → bsorted unique ∧ ∀ k, k ∈ unique ↔ k ∈ seen ∨ k ∈ refs.
Proof.
  revert seen. induction refs as [|r refs IH]; simpl; intros seen H Hs.
  - injection H as <-. set_solver.
  - destruct (bset_mem r seen); [done|].
    destruct (IH _ H) as [Hu He]; [by apply bset_insert_sorted|]. split; [done|].
    intros k. rewrite He, elem_of_bset_insert. set_solver.
Qed.

End Entries.

(** ** The abstract store *)

Record Store := mkStore {
  s_entries : list (SecretRef * SecretEntry);
  s_history : CommandHistoryPayload;
  s_revision : Z;
  s_password : list Z }.

Inductive Op :=
| Insert (secrets : list SecretInsert)
| Replace (secret : SecretInsert)
| Delete (refs : list SecretRef)
| SetHistory (h : CommandHistoryPayload)
| ChangePassword (current_password new_password : list Z)
| Merge (bytes source_password : list Z) (reserved : list SecretRef) (draws : list Uuid).

Definition store_of (v : UnlockedVault) (password : list Z) : Store :=
  mkStore (entries (payload v)) (command_history (payload v)) (revision (payload v)) password.

Definition without (refs : list SecretRef) (m : list (SecretRef * SecretEntry)) : list (SecretRef * SecretEntry) :=
  List.filter (λ kv, negb (bset_mem kv.1 refs)) m.

Section Effects.
Context {J : Type} {C : Crypto.Crypto J} {S : VaultSerde}.

(** The store after an operation that was carried out. *)
Definition effect (op : Op) (st : Store) : Store :=
  let '(mkStore m h r p) := st in
  match op with
  | Insert secrets => mkStore (insert_all secrets m) h (r + 1) p
  | Replace s => mkStore (bmap_insert (si_ref s) (insert_entry s) m) h (r + 1) p
  | Delete refs => if bool_decide (without refs m = m) then st else mkStore (without refs m) h (r + 1) p
  | SetHistory h => mkStore m h (r + 1) p
  | ChangePassword _ new_password => mkStore m h (r + 1) new_password
  | Merge bytes source_password reserved draws =>
      match (let? e := parse_encrypted_vault_envelope bytes in unlock_vault_envelope e source_password) with
      | Ok (_, source) =>
          match merge_plan h m source reserved draws with
          | Some (Ok (merged, imported, summary)) =>
              if (imported_secrets summary =? 0) && (imported_history_entries summary =? 0) then st
              else mkStore (bmap_extend imported m) merged (r + 1) p
          | _ => st
          end
      | _ => st
      end
  end.

(** The operation on the unlocked vault and its file; [None] while a merge is
    still drawing identifiers. *)
Definition run (op : Op) (io : Io) (s : UnlockedVault * Disk) : option ((UnlockedVault * Disk) * vres unit) :=
  match op with
  | Insert secrets => Some (insert_secrets_with_refs io secrets s)
  | Replace secret => Some (replace_secret_with_ref io secret s)
  | Delete refs => Some (delete_secrets io refs s)
  | SetHistory h => Some (replace_command_history io h s)
  | ChangePassword current_password new_password => Some (change_password io current_password new_password s)
  | Merge bytes source_password reserved draws =>
      '(s, r) ← merge_encrypted_envelope io bytes source_password reserved draws s;
      Some (s, rok_map (λ _, tt) r)
  end.

Fixpoint run_all (ops : list (Op * Io)) (s : UnlockedVault * Disk)
  : option ((UnlockedVault * Disk) * list (vres unit)) :=
  match ops with
  | [] => Some (s, [])
  | (op, io) :: ops =>
      '(s, r) ← run op io s;
      '(s, rs) ← run_all ops s;
      Some (s, r :: rs)
  end.

(** The answers a sequence of operations may have, whether the vault is
    poisoned at the end, and the store that is then durable. *)
Inductive Trace : Store → list (Op * Io) → list (vres unit) → bool → Store → Prop :=
| Trace_nil st : Trace st [] [] false st
| Trace_ok st op io ops rs b st' :
    Trace (effect op st) ops rs b st' → Trace st ((op, io) :: ops) (Ok tt :: rs) b st'
| Trace_err st op io ops e rs b st' :
    is_unknown e = false → Trace st ops rs b st' → Trace st ((op, io) :: ops) (Err e :: rs) b st'
| Trace_unknown st op io ops e st' :
    st' = st ∨ st' = effect op st →
    Trace st ((op, io) :: ops) (Err (CommitStateUnknown e) :: map (λ _, Err ReloadRequired) ops) true st'.

(** The file opens to the store. *)
Definition holds (d : Disk) (st : Store) : Prop :=
  ∃ v, unlock quiet d (s_password st) = Ok v ∧ store_of v (s_password st) = st.

End Effects.

(** Arguments of the Rust types. *)
Definition secret_typed (s : SecretInsert) : Prop := 0 < si_ref s ≤ u128_max ∧ Forall byte (si_value s).

Definition op_typed (op : Op) : Prop :=
  match op with
  | Insert secrets => Forall secret_typed secrets
  | Replace s => secret_typed s
  | SetHistory h => history_typed h
  | Merge _ _ _ draws => Forall (λ u, 0 < u ≤ u128_max) draws
  | _ => True
  end.

(** ** Errors before a write *)

(** A check whose errors are not about an unknown commit. *)
Definition definite {A} (r : vres A) : Prop :=
  match r with Ok _ => True | Err e => is_unknown e = false | Panic => False end.

Lemma definite_bind {A B} (r : vres A) (k : A → vres B) :
  definite r → (∀ a, definite (k a)) → definite (let? a := r in k a).
Proof. destruct r; cbn; auto. Qed.

Lemma definite_ok_or {A} (o : option A) e : is_unknown e = false → definite (ok_or o e).
Proof. by destruct o. Qed.

Lemma definite_rfold {A St} (f : St → A → vres St) s l :
  (∀ s a, definite (f s a)) → definite (rfold f s l).
Proof.
  intros Hf. revert s. induction l as [|a l IH]; intros s; simpl; [done|]. by apply definite_bind.
Qed.

Lemma definite_rforall {A} (f : A → vres unit) l : (∀ a, definite (f a)) → definite (rforall f l).
Proof. intros Hf. induction l as [|a l IH]; simpl; [done|]. by apply definite_bind. Qed.

Ltac definite :=
  repeat first
    [ progress cbn [definite]
    | done
    | apply definite_bind; [|intros]
    | by apply definite_ok_or
    | apply definite_rfold; intros
    | apply definite_rforall; intros
    | match goal with |- definite (if ?c then _ else _) => destruct c end
    | match goal with |- definite (let '(_, _) := ?x in _) => destruct x end
    | match goal with |- definite match ?x with _ => _ end => destruct x end ].

Lemma definite_history h : definite (validate_command_history h).
Proof. unfold validate_command_history, validate_history_entry. definite. Qed.

Lemma definite_batch m secrets : definite (validate_secret_batch m secrets).
Proof. unfold validate_secret_batch, validate_batch_secret, validate_secret_value. definite. Qed.

Lemma definite_next r : definite (next_revision r).
Proof. unfold next_revision. definite. Qed.

Lemma definite_password p : definite (validate_new_password p).
Proof. unfold validate_new_password. definite. Qed.

Lemma definite_unique seen refs : definite (unique_refs seen refs).
Proof. revert seen. induction refs; intros; cbn [unique_refs]; definite; auto. Qed.

(** ** What the checks establish *)

Definition secret_valid (kind : SecretKind) (value : list Z) : Prop := validate_secret_value kind value = Ok tt.

Lemma batch_fold m secrets refs total refs' total' :
  rfold (validate_batch_secret m) (refs, total) secrets = Ok (refs', total') →
  NoDup (map si_ref secrets) ∧
  Forall (λ s, secret_valid (si_kind s) (si_value s) ∧ si_ref s ∉ bmap_keys m ∧ si_ref s ∉ refs) secrets.
Proof.
  revert refs total. induction secrets as [|s secrets IH]; intros refs total H; [by repeat constructor|].
  cbn [rfold] in H. destruct (validate_batch_secret m (refs, total) s) as [[refs1 total1]| |] eqn:E; try done.
  cbn [rbind] in H. apply IH in H as [Hnd Hall]. unfold validate_batch_secret in E. rinv E. bprop. simplify_eq.
  match goal with H : bset_mem _ (bmap_keys m) = false, H' : bset_mem _ refs = false |- _ =>
    apply bset_mem_false in H, H' end. rewrite Forall_forall in Hall. split.
  - apply NoDup_cons. split; [|done]. intros (s' & Hr & Hin)%list_elem_of_fmap. destruct (Hall s' Hin) as (_ & _ & Hn).
    apply Hn. rewrite elem_of_bset_insert. auto.
  - apply Forall_cons. split; [by destruct x|]. apply Forall_forall. intros s' Hin.
    destruct (Hall s' Hin) as (Hv & Hm & Hn). rewrite elem_of_bset_insert in Hn. naive_solver.
Qed.

Lemma batch_spec m secrets u :
  validate_secret_batch m secrets = Ok u →
  NoDup (map si_ref secrets) ∧
  Forall (λ s, secret_valid (si_kind s) (si_value s) ∧ si_ref s ∉ bmap_keys m) secrets.
Proof.
  unfold validate_secret_batch. intros H. rinv H. destruct x as [refs total].
  apply batch_fold in E1 as [Hnd Hall]. split; [done|]. eapply Forall_impl; [exact Hall|]. naive_solver.
Qed.

Lemma next_revision_Ok r n : next_revision r = Ok n → n = r + 1 ∧ r < u64_max.
Proof. unfold next_revision. intros H. rinv H. apply checked_add_Some in E. subst. lia. Qed.

Lemma next_revision_room r : r < u64_max → next_revision r = Ok (r + 1).
Proof.
  unfold next_revision. intros H. destruct (checked_add u64_max r 1) eqn:E.
  - by apply checked_add_Some in E as [-> _].
  - unfold checked_add in E. case_match; [done|]. bprop. lia.
Qed.

Lemma without_remove refs unique m :
  (∀ k, k ∈ unique ↔ k ∈ refs) → remove_all unique m = without refs m.
Proof.
  intros Hk. transitivity (without unique m).
  - clear. revert m. unfold remove_all, without. induction unique as [|r unique IH]; intros m; cbn [fold_left].
    + symmetry. induction m as [|kv m IH]; [done|]. cbn in *. by rewrite IH.
    + rewrite IH. clear. unfold bmap_remove. induction m as [|[k e] m IH]; [done|]. cbn [List.filter fst].
      change (bset_mem k (r :: unique)) with (keqb k r || bset_mem k unique). rewrite <- IH.
      destruct (keqb_spec r k) as [->|Hn]; cbn [negb List.filter fst].
      * by destruct (keqb_spec k k).
      * destruct (keqb_spec k r) as [->|]; [done|]. cbn [orb]. by destruct (bset_mem k unique).
  - unfold without. induction m as [|kv m IH]; [done|]. cbn. rewrite IH.
    by rewrite (bset_mem_ext kv.1 unique refs (Hk _)).
Qed.

Lemma removed_nil unique m :
  bmap_sorted m → bsorted unique → removed_entries unique m = [] ↔ remove_all unique m = m.
Proof.
  intros Hm Hu. pose proof (restore_removed unique m Hm (bsorted_NoDup _ Hu)) as Hr. split; intros H.
  - by rewrite H in Hr.
  - destruct (removed_entries unique m) as [|[k e] l] eqn:E; [done|]. exfalso.
    assert (bmap_get k ((k, e) :: l) = Some e) as Hg by (cbn; by destruct (keqb_spec k k)).
    rewrite <- E, removed_get in Hg by by apply bsorted_NoDup.
    destruct (bset_mem k unique) eqn:Ek; [|done].
    pose proof (remove_all_get unique m k) as Hk. rewrite H, Ek in Hk. congruence.
Qed.

(** ** New identifiers *)

Lemma draw_new_spec used draws u rest :
  draw_new used draws = Some (u, rest) →
  u ∉ used ∧ u ∈ draws ∧ ∀ P : Uuid → Prop, Forall P draws → Forall P rest.
Proof.
  induction draws as [|x draws IH]; cbn; [done|]. destruct (bset_mem x used) eqn:E.
  - intros (Hn & Hin & Hr)%IH. split; [done|]. split; [set_solver|]. intros P [_ H]%Forall_cons. by apply Hr.
  - intros [= <- <-]. apply bset_mem_false in E. split; [done|]. split; [set_solver|]. by intros P [_ H]%Forall_cons.
Qed.

Lemma assign_refs_spec used draws source imported :
  assign_refs used draws source = Some imported →
  NoDup (map fst imported) ∧ Forall (λ kv, kv.1 ∉ used ∧ kv.1 ∈ draws) imported ∧ map snd imported = map snd source.
Proof.
  revert used draws imported. induction source as [|[r0 e] source IH]; intros used draws imported H; cbn [assign_refs] in H.
  { injection H as <-. by repeat constructor. }
  destruct (draw_new used draws) as [[r rest]|] eqn:Ed; [|done]. cbn [mbind option_bind] in H.
  destruct (assign_refs _ rest source) as [l|] eqn:El; [|done]. cbn in H. injection H as <-.
  apply draw_new_spec in Ed as (Hn & Hin & Hsub). apply IH in El as (Hnd & Hl & Hs).
  assert (Forall (λ kv, kv.1 ≠ r ∧ kv.1 ∉ used ∧ kv.1 ∈ draws) l) as Hl'.
  { eapply Forall_impl; [exact Hl|]. cbn. intros [k e'] [Hk Hr]. rewrite elem_of_bset_insert in Hk.
    assert (Forall (λ u, u ∈ draws) rest) as Hr' by (apply Hsub; by apply Forall_forall).
    rewrite Forall_forall in Hr'. naive_solver. }
  rewrite Forall_forall in Hl'. split_and!; cbn.
  - constructor; [|done]. intros (kv & -> & Hkv)%list_elem_of_fmap. by apply Hl' in Hkv as [? _].
  - constructor; [done|]. apply Forall_forall. intros kv Hkv. by apply Hl' in Hkv as [_ ?].
  - by rewrite Hs.
Qed.

Lemma merge_history_typed (P : Uuid → Prop) (Q : CommandHistoryEntry → Prop) st draws source st' rest :
  (∀ u e, P u → Q e → Q (set_entry_id u e)) →
  merge_history st draws source = Some (st', rest) →
  Forall P draws → Forall Q (m_entries st) → Forall Q source →
  Forall P rest ∧ Forall Q (m_entries st').
Proof.
  intros Hpq. revert st draws. induction source as [|e source IH]; intros st draws H Hd Hq Hs; cbn in H.
  { by injection H as <- <-. }
  apply Forall_cons in Hs as [He Hs]. destruct (List.find _ _) as [x|].
  - destruct (bool_decide _); [by eapply IH|].
    destruct (draw_new (m_ids st) draws) as [[u rest1]|] eqn:Ed; [|done]. cbn in H.
    apply draw_new_spec in Ed as (_ & Hin & Hr). rewrite (Forall_forall P draws) in Hd.
    eapply IH; [exact H|by apply Hr, Forall_forall| |done]. apply Forall_app. split; [done|]. constructor; auto.
  - eapply IH; [exact H|done| |done]. apply Forall_app. by repeat constructor.
Qed.

(** ** One operation *)

Definition keys_of (v : UnlockedVault) : Uuid * list Z := (vault_id v, vault_master_key v).

Section Steps.
Context {J : Type} {C : Crypto.Crypto J} {S : VaultSerde} {L : VaultLaws J}.
Implicit Types v : UnlockedVault.

(** What an operation towards [st'] may leave of [v] and [d]. *)
Definition stepped v (d : Disk) (st' : Store) (r : (UnlockedVault * Disk) * vres unit) : Prop :=
  match r with
  | ((v', d'), Ok _) =>
      unlock quiet d' (s_password st') = Ok v' ∧ store_of v' (s_password st') = st' ∧ keys_of v' = keys_of v
  | ((v', d'), Err e) =>
      if is_unknown e then poisoned v' = true ∧ (d' = d ∨ holds d' st') else v' = v ∧ d' = d
  | (_, Panic) => False
  end.

Lemma lift_step {A} v d st' (r : vres A) (k : A → VM unit) :
  definite r → (∀ a, r = Ok a → stepped v d st' (k a (v, d))) → stepped v d st' (vbind (lift r) k (v, d)).
Proof. intros Hr Hk. destruct r as [a|e|]; cbn in *; [by apply Hk|by rewrite Hr|done]. Qed.

Lemma usable_step v d st' (k : unit → VM unit) :
  poisoned v = false → stepped v d st' (k tt (v, d)) → stepped v d st' (vbind ensure_usable k (v, d)).
Proof. intros Hp Hk. unfold vbind, ensure_usable, get_self, lift. cbn. by rewrite Hp. Qed.

Lemma self_step v d st' (k : UnlockedVault → VM unit) :
  stepped v d st' (k v (v, d)) → stepped v d st' (vbind get_self k (v, d)).
Proof. done. Qed.

Lemma written_step v v1 d password undone r :
  written password v1 d undone r → undone = v → keys_of v1 = keys_of v →
  stepped v d (store_of v1 password) r.
Proof.
  intros H -> Hk. destruct r as [[v' d'] [u|e|]]; [| |done]; cbn in *.
  - destruct H as (o & -> & Hu). by split_and!.
  - destruct (is_unknown e); [|done]. destruct H as (o & -> & Hd). split; [done|].
    destruct Hd as [->|Hd]; [by left|right]. by exists (set_parent o v1).
Qed.

Lemma tx_step io v v1 d password undo :
  Sound v1 password → poisoned v1 = false → io_typed io → undo v1 = v → keys_of v1 = keys_of v →
  stepped v d (store_of v1 password) (or_roll_back (persist io) undo (v1, d)).
Proof. intros. eapply written_step; [by apply roll_back_spec|done..]. Qed.

(** A vault with other contents. *)
Definition updated v m h r : UnlockedVault :=
  set_payload (mkPayload (schema_version (payload v)) r (parent_envelope_sha256 (payload v)) m h) v.

Definition entry_valid (kv : SecretRef * SecretEntry) : Prop := secret_valid (entry_kind kv.2) (entry_value kv.2).

Lemma updated_sound v password m h r :
  Sound v password → bmap_sorted m → Forall entry_typed m → Forall entry_valid m →
  history_typed h → validate_command_history h = Ok tt → 0 ≤ r ≤ u64_max →
  Sound (updated v m h r) password.
Proof.
  intros Hs Hm Ht Hv Hh Hc Hr. apply sound_payload; [done| |].
  - by destruct (so_typed _ _ Hs).
  - pose proof (proj1 (checked_iff _) (so_checked _ _ Hs)) as (Hsc & _). by apply checked_iff.
Qed.

Lemma sound_parts v password :
  Sound v password →
  bmap_sorted (entries (payload v)) ∧ Forall entry_typed (entries (payload v)) ∧
  Forall entry_valid (entries (payload v)) ∧ history_typed (command_history (payload v)) ∧
  validate_command_history (command_history (payload v)) = Ok tt ∧ 0 ≤ revision (payload v) ≤ u64_max.
Proof.
  intros Hs. destruct (so_typed _ _ Hs). pose proof (proj1 (checked_iff _) (so_checked _ _ Hs)) as (_ & Hv & Hh).
  repeat (split; [done|]). done.
Qed.

Lemma updated_same v : updated v (entries (payload v)) (command_history (payload v)) (revision (payload v)) = v.
Proof. by destruct v as [? ? ? ? [] ?]. Qed.

Lemma undone_same v m :
  m = entries (payload v) → updated v m (command_history (payload v)) (revision (payload v)) = v.
Proof. intros ->. apply updated_same. Qed.

Lemma insert_step io secrets v d password :
  Sound v password → poisoned v = false → io_typed io → Forall secret_typed secrets →
  stepped v d (effect (Insert secrets) (store_of v password)) (insert_secrets_with_refs io secrets (v, d)).
Proof.
  intros Hs Hp Hio Ht. destruct (sound_parts _ _ Hs) as (Hm & Het & Hev & Hh & Hc & Hr).
  unfold insert_secrets_with_refs, insert_secrets_with_refs_using.
  apply usable_step; [done|]. apply self_step, lift_step; [apply definite_batch|].
  intros u Hb. apply batch_spec in Hb as [Hnd Hb].
  apply lift_step; [apply definite_next|]. intros next Hn.
  apply next_revision_Ok in Hn as [-> Hlt].
  set (v1 := updated v (insert_all secrets (entries (payload v))) (command_history (payload v)) (revision (payload v) + 1)).
  apply (tx_step io v v1); [|done|done| |done].
  - rewrite Forall_forall in Hb, Ht. apply updated_sound; try done; [..|lia].
    + rewrite insert_all_extend. by apply bmap_extend_sorted.
    + apply Forall_insert_all; [done|]. apply Forall_forall. intros s Hin. by apply Ht.
    + apply Forall_insert_all; [done|]. apply Forall_forall. intros s Hin. by apply Hb.
  - assert (remove_all (map si_ref secrets) (insert_all secrets (entries (payload v))) = entries (payload v)) as He.
    { rewrite insert_all_extend. set (l := map (λ s, (si_ref s, insert_entry s)) secrets).
      assert (map si_ref secrets = map fst l) as Hl by (subst l; by rewrite map_map). rewrite Hl in *.
      apply remove_extend; [done..|]. intros k. rewrite <- Hl. intros (s & -> & Hin)%list_elem_of_fmap.
      rewrite Forall_forall in Hb. by apply Hb. }
    by apply (undone_same v _ He).
Qed.

Lemma replace_step io s v d password :
  Sound v password → poisoned v = false → io_typed io → secret_typed s →
  stepped v d (effect (Replace s) (store_of v password)) (replace_secret_with_ref io s (v, d)).
Proof.
  intros Hs Hp Hio Ht. destruct (sound_parts _ _ Hs) as (Hm & Het & Hev & Hh & Hc & Hr).
  unfold replace_secret_with_ref, replace_secret_with_ref_using.
  apply usable_step; [done|]. apply lift_step; [apply definite_batch|].
  intros u [_ [[Hv _] _]%Forall_cons]%batch_spec.
  apply self_step, lift_step; [apply definite_next|]. intros next [-> Hlt]%next_revision_Ok.
  apply lift_step; [by apply definite_ok_or|]. intros previous Hg.
  destruct (bmap_get (si_ref s) (entries (payload v))) as [e|] eqn:Eg; [|done]. injection Hg as ->.
  assert (∀ e, bmap_insert (si_ref s) e (bmap_remove (si_ref s) (entries (payload v))) =
    bmap_insert (si_ref s) e (entries (payload v))) as Hri by (intros; by apply bmap_insert_remove).
  pose proof (bmap_insert_get _ _ _ Hm Eg) as Hback.
  destruct (negb _).
  - split; [|done]. apply (undone_same v). cbn. by rewrite Hri.
  - set (v1 := updated v (bmap_insert (si_ref s) (insert_entry s) (bmap_remove (si_ref s) (entries (payload v))))
      (command_history (payload v)) (revision (payload v) + 1)).
    assert (effect (Replace s) (store_of v password) = store_of v1 password) as ->
      by (unfold v1, store_of; cbn; by rewrite Hri).
    apply (tx_step io v v1); [|done|done| |done].
    + apply updated_sound; try done; [..|lia]; rewrite ?Hri.
      * by apply bmap_insert_sorted.
      * by apply Forall_bmap_insert.
      * by apply Forall_bmap_insert.
    + apply (undone_same v). cbn. rewrite Hri. apply bmap_ext; auto using bmap_insert_sorted.
      intros k. rewrite <- Hback at 2. rewrite !bmap_get_insert. by destruct (keqb k (si_ref s)).
Qed.

Lemma history_step io h v d password :
  Sound v password → poisoned v = false → io_typed io → history_typed h →
  stepped v d (effect (SetHistory h) (store_of v password)) (replace_command_history io h (v, d)).
Proof.
  intros Hs Hp Hio Ht. destruct (sound_parts _ _ Hs) as (Hm & Het & Hev & Hh & Hc & Hr).
  unfold replace_command_history, replace_command_history_using.
  apply usable_step; [done|]. apply lift_step; [apply definite_history|]. intros [] Hv.
  apply self_step, lift_step; [apply definite_next|]. intros next [-> Hlt]%next_revision_Ok.
  apply (tx_step io v (updated v (entries (payload v)) h (revision (payload v) + 1))); [|done|done| |done].
  - apply updated_sound; try done; lia.
  - apply (updated_same v).
Qed.

Lemma delete_step io refs v d password :
  Sound v password → poisoned v = false → io_typed io → revision (payload v) < u64_max →
  unlock quiet d password = Ok v →
  stepped v d (effect (Delete refs) (store_of v password)) (delete_secrets io refs (v, d)).
Proof.
  intros Hs Hp Hio Hlt Hun. destruct (sound_parts _ _ Hs) as (Hm & Het & Hev & Hh & Hc & Hr).
  unfold delete_secrets, delete_secrets_using. apply usable_step; [done|].
  destruct (bool_decide (refs = [])); [by split|]. destruct (MAX_SECRET_BATCH_ENTRIES <? zlen refs); [by split|].
  apply lift_step; [apply definite_unique|]. intros unique Hu.
  apply unique_refs_spec in Hu as [Hsu Hk]; [|constructor]. apply self_step.
  assert (remove_all unique (entries (payload v)) = without refs (entries (payload v))) as Hw
    by (apply without_remove; set_solver).
  pose proof (removed_nil unique _ Hm Hsu) as Hnil.
  pose proof (restore_removed unique _ Hm (bsorted_NoDup _ Hsu)) as Hback.
  unfold effect, store_of. rewrite <- Hw.
  destruct (decide (removed_entries unique (entries (payload v)) = [])) as [Hn|Hn].
  - rewrite (bool_decide_true _ Hn), bool_decide_true by by apply Hnil.
    assert (set_entries (remove_all unique) v = v) as Hv by (apply (undone_same v), Hnil, Hn).
    unfold vbind, modify, vret. cbn [fst snd]. rewrite Hv. split; [done|by split].
  - rewrite (bool_decide_false _ Hn), bool_decide_false by by intros ?%Hnil.
    unfold vbind at 1, modify at 1. cbn [fst snd]. rewrite next_revision_room by done.
    apply (tx_step io v (updated v (remove_all unique (entries (payload v))) (command_history (payload v))
      (revision (payload v) + 1))); [|done|done| |done].
    + apply updated_sound; try done; [..|lia].
      * by apply remove_all_sorted.
      * by apply Forall_remove_all.
      * by apply Forall_remove_all.
    + apply (undone_same v), Hback.
Qed.

(** ** Passwords *)

Lemma definite_kdf k : definite (validate_kdf_parameters k).
Proof. unfold validate_kdf_parameters. definite. Qed.

Lemma definite_derive password k : definite (derive_key password k).
Proof. unfold derive_key. apply definite_bind; [apply definite_kdf|]. intros. definite. Qed.

Lemma definite_section w : definite (validate_ciphertext_section w).
Proof. unfold validate_ciphertext_section, decode_nonce, Crypto.try_into. definite. Qed.

Lemma definite_unwrap id k w kek : definite (unwrap_vault_key_parts id k w kek).
Proof. unfold unwrap_vault_key_parts, decode_nonce, Crypto.try_into, unseal. definite. Qed.

Lemma definite_candidate v password : definite (candidate_key v password).
Proof.
  unfold candidate_key. apply definite_bind; [apply definite_derive|]. intros. apply definite_unwrap.
Qed.

Lemma definite_wrap random id k kek key : definite (wrap_vault_key random id k kek key).
Proof. unfold wrap_vault_key, fill_random, seal. definite. Qed.

(** A new password's header and wrapped key open to the key. *)
Lemma wrap_sound random_salt random_nonce password id k kek key w :
  new_kdf_header random_salt = Ok k → derive_key password k = Ok kek →
  wrap_vault_key random_nonce id k kek key = Ok w →
  filled SALT_BYTES random_salt → filled NONCE_BYTES random_nonce → Forall byte key → zlen key = KEY_BYTES →
  validate_kdf_parameters k = Ok tt ∧ kdf_typed k ∧ validate_ciphertext_section w = Ok tt ∧ section_typed w ∧
  unwrap_vault_key_parts id k w kek = Ok key.
Proof.
  intros Hk Hd Hw Hfs Hfn Hb Hl. unfold new_kdf_header, fill_random in Hk. rinv Hk.
  unfold wrap_vault_key, fill_random in Hw. rinv Hw.
  destruct (Hfs _ eq_refl) as [Hsb _]. destruct (Hfn _ eq_refl) as [Hnb Hnl].
  destruct (sealed_section _ _ _ _ _ _ E1 Hb Hnb Hnl) as (Hdn & Hu & Hv & Ht).
  rewrite Hw in Hdn, Hu, Hv, Ht. split; [|split; [|split; [done|split; [done|]]]].
  - unfold derive_key in Hd. rinv Hd. by destruct x2.
  - subst k. split_and!; cbn; try done; [by apply ascii_scalar..|by apply b64_scalar].
  - unfold unwrap_vault_key_parts. rewrite Hdn. cbn [rbind]. rewrite Hu. cbn [rbind ok_or]. rewrite <- Hw.
    cbn [cipher nonce]. erewrite unseal_seal by done. cbn [rbind]. by rewrite Hl, Z.eqb_refl.
Qed.

Lemma password_step io current new v d password :
  Sound v password → poisoned v = false → io_typed io → revision (payload v) < u64_max →
  stepped v d (effect (ChangePassword current new) (store_of v password)) (change_password io current new (v, d)).
Proof.
  intros Hs Hp Hio Hlt. destruct (sound_parts _ _ Hs) as (Hm & Het & Hev & Hh & Hc & Hr).
  unfold change_password. apply usable_step; [done|]. apply lift_step; [apply definite_password|]. intros _ _.
  apply self_step, lift_step; [apply definite_candidate|]. intros key Hkey.
  destruct (negb _); [by split|].
  apply lift_step; [unfold new_kdf_header, fill_random; definite|]. intros k Hk.
  apply lift_step; [apply definite_derive|]. intros kek Hd.
  apply lift_step; [apply definite_wrap|]. intros w Hw.
  destruct (so_key _ _ Hs) as [Hkb Hkl].
  destruct (wrap_sound _ _ _ _ _ _ _ _ Hk Hd Hw (it_salt _ Hio) (it_wrap _ Hio) Hkb Hkl) as (Hvk & Htk & Hvw & Htw & Hu).
  unfold vbind at 1, modify at 1. cbn [fst snd]. rewrite next_revision_room by done.
  set (v1 := set_revision (revision (payload v) + 1) (set_wrap k w v)).
  assert (Sound v1 new) as Hs1.
  { pose proof (updated_sound v password (entries (payload v)) (command_history (payload v)) (revision (payload v) + 1)
      Hs Hm Het Hev Hh Hc ltac:(lia)) as [].
    split; try done. unfold candidate_key. cbn [v1 kdf vault_id wrapped_vault_key set_revision set_payload set_wrap].
    rewrite Hd. cbn [rbind]. exact Hu. }
  change (stepped v d (store_of v1 new) (on_error (persist io) (λ e, if is_unknown e then vret tt
    else modify (λ v', set_revision (revision (payload v)) (set_wrap (kdf v) (wrapped_vault_key v) v'))) (v1, d))).
  eapply written_step; [|reflexivity|reflexivity].
  unfold on_error. pose proof (persist_spec io v1 d new Hs1 Hp Hio) as H.
  destruct (persist io (v1, d)) as [[v' d'] [u|e|]]; [done| |done]. cbn in *.
  destruct (is_unknown e); cbn; [done|]. destruct H as [-> ->]. split; [|done]. by destruct v as [? ? ? ? [] ?].
Qed.

(** ** Merging *)

Lemma definite_envelope e : definite (validate_envelope e).
Proof.
  unfold validate_envelope. do 3 (match goal with |- definite (if ?c then _ else _) => destruct c end; [done|]).
  apply definite_bind; [apply definite_kdf|intros]. apply definite_bind; intros; apply definite_section.
Qed.

Lemma definite_decrypt e key : definite (decrypt_payload e key).
Proof. unfold decrypt_payload, decode_nonce, Crypto.try_into, unseal. definite. Qed.

Lemma definite_checked p : definite (checked_payload p).
Proof.
  unfold checked_payload, validate_payload_entries. destruct (negb _); [done|]. apply definite_bind; [|done].
  apply definite_bind; [|intros; apply definite_history]. unfold validate_secret_value. definite.
Qed.

Lemma definite_open bytes password :
  definite (let? e := parse_encrypted_vault_envelope bytes in unlock_vault_envelope e password).
Proof.
  unfold parse_encrypted_vault_envelope, unlock_vault_envelope.
  repeat first [ apply definite_envelope | apply definite_derive
    | apply definite_unwrap | apply definite_decrypt | apply definite_checked | by apply definite_ok_or | done
    | apply definite_bind; [|intros] | match goal with |- definite (if ?c then _ else _) => destruct c end ].
Qed.

Lemma plan_spec h m source reserved draws merged imported summary :
  merge_plan h m source reserved draws = Some (Ok (merged, imported, summary)) →
  Forall (λ u, 0 < u ≤ u128_max) draws → history_typed h → payload_typed source → checked_payload source = Ok source →
  history_typed merged ∧ validate_command_history merged = Ok tt ∧ NoDup (map fst imported) ∧
  (∀ k, k ∈ map fst imported → k ∉ bmap_keys m ∧ k ∉ reserved ∧ k ∉ bmap_keys (entries source)) ∧
  Forall entry_typed imported ∧ Forall entry_valid imported.
Proof.
  intros H Hd [Hhs Hhe] Hsrc Hchk. unfold merge_plan in H.
  destruct (merge_history _ _ _) as [[st rest]|] eqn:Em; [|done]. cbn in H.
  destruct (validate_command_history _) as [[]|e|] eqn:Ev; [|done..].
  destruct (assign_refs _ _ _) as [l|] eqn:Ea; [|done]. cbn in H. injection H as <- <- _.
  destruct (pt_history _ Hsrc) as [_ Hse].
  destruct (merge_history_typed (λ u, 0 < u ≤ u128_max) history_entry_typed _ _ _ _ _ ltac:(unfold history_entry_typed; cbn; intros; intuition lia)
    Em Hd Hhe Hse) as [Hrest Hent].
  apply assign_refs_spec in Ea as (Hnd & Hl & Hsnd). rewrite Forall_forall in Hl. rewrite Forall_forall in Hrest.
  assert (∀ (P : SecretEntry → Prop), Forall (λ kv, P kv.2) (entries source) → Forall (λ kv, P kv.2) l) as Htr.
  { intros P. rewrite <- !(Forall_map snd). fold (map (@snd SecretRef SecretEntry)). unfold fmap, list_fmap. by rewrite <- Hsnd. }
  split; [done|]. split; [done|]. split; [done|]. split; [|split].
  - intros k (kv & -> & Hin)%list_elem_of_fmap. destruct (Hl _ Hin) as [Hn _].
    rewrite !elem_of_bset_extend in Hn. naive_solver.
  - apply Forall_and. split; [apply Forall_forall; intros kv Hin; by apply Hrest, Hl|].
    apply (Htr (λ e, Forall byte (entry_value e))). eapply Forall_impl; [exact (pt_entries _ Hsrc)|]. by intros kv [_ ?].
  - apply (Htr (λ e, secret_valid (entry_kind e) (entry_value e))). apply checked_iff in Hchk as (_ & Hv & _). exact Hv.
Qed.

Lemma open_sound bytes password key p :
  (let? e := parse_encrypted_vault_envelope bytes in unlock_vault_envelope e password) = Ok (key, p) →
  payload_typed p ∧ checked_payload p = Ok p.
Proof.
  intros H. rinv H. apply parse_sound in E as (_ & Ht & _). apply unlock_envelope_sound in H as []; done.
Qed.

Lemma stepped_map {A} v d st' (m : VM unit) (a : A) s s' r :
  stepped v d st' (m s) → vbind m (λ _, vret a) s = (s', r) → stepped v d st' (s', rok_map (λ _, tt) r).
Proof.
  unfold vbind. destruct (m s) as [[v' d'] [[]|e|]]; cbn; intros H Heq; injection Heq as <- <-; exact H.
Qed.

Lemma merge_step io bytes source_password reserved draws v d password s' r :
  Sound v password → poisoned v = false → io_typed io → Forall (λ u, 0 < u ≤ u128_max) draws →
  unlock quiet d password = Ok v →
  merge_encrypted_envelope io bytes source_password reserved draws (v, d) = Some (s', r) →
  stepped v d (effect (Merge bytes source_password reserved draws) (store_of v password)) (s', rok_map (λ _, tt) r).
Proof.
  intros Hs Hp Hio Hd Hun H. destruct (sound_parts _ _ Hs) as (Hm & Het & Hev & Hh & Hc & Hr).
  unfold merge_encrypted_envelope, merge_encrypted_envelope_using in H. cbn [fst] in H. rewrite Hp in H.
  unfold effect, store_of.
  pose proof (definite_open bytes source_password) as Hdef.
  destruct (let? e := _ in _) as [[key source]|e|] eqn:Eo; [|injection H as <- <-; cbn in *; by rewrite Hdef|done].
  apply open_sound in Eo as [Hst Hsc].
  destruct (merge_plan _ _ _ _ _) as [plan|] eqn:Ep; [|done]. cbn [mbind option_bind] in H. injection H as H.
  assert (definite plan) as Hplan.
  { unfold merge_plan in Ep. destruct (merge_history _ _ _) as [[st rest]|]; [|done]. cbn in Ep.
    pose proof (definite_history (mkHistory (hist_schema_version (command_history (payload v))) (m_entries st))) as Hx.
    destruct (validate_command_history _) as [u|e|]; [|by injection Ep as <-|done].
    destruct (assign_refs _ _ _); [|done]. by injection Ep as <-. }
  destruct plan as [[[merged imported] summary]|e|]; [|injection H as <- <-; cbn in *; by rewrite Hplan|done].
  destruct (plan_spec _ _ _ _ _ _ _ _ Ep Hd Hh Hst Hsc) as (Hmt & Hmv & Hnd & Hnew & Hit & Hiv).
  unfold vbind at 1, lift at 1 in H.
  destruct (_ && _); [injection H as <- <-; by split|].
  unfold vbind at 1, get_self at 1 in H. cbn [fst snd] in H. unfold vbind at 1, lift at 1 in H.
  pose proof (definite_next (revision (payload v))) as Hdn.
  destruct (next_revision (revision (payload v))) as [next|e|] eqn:En; [|injection H as <- <-; cbn in *; by rewrite Hdn|done].
  apply next_revision_Ok in En as [-> Hlt]. unfold vbind at 1 2 3, modify at 1 2 3 in H. cbn [fst snd] in H.
  eapply stepped_map; [|exact H].
  apply (tx_step io v (updated v (bmap_extend imported (entries (payload v))) merged (revision (payload v) + 1)));
    [|done|done| |done].
  - apply updated_sound; try done; [..|lia].
    + by apply bmap_extend_sorted.
    + by apply Forall_extend.
    + by apply Forall_extend.
  - apply (undone_same v), remove_extend; [done..|]. intros k Hk. by apply Hnew in Hk as [? _].
Qed.

Lemma run_step op io v d password s' r :
  unlock quiet d password = Ok v → io_typed io → op_typed op → revision (payload v) < u64_max →
  run op io (v, d) = Some (s', r) → stepped v d (effect op (store_of v password)) (s', r).
Proof.
  intros Hu Hio Ht Hlt H. destruct (unlock_sound _ _ _ Hu) as [Hs Hp].
  destruct op; cbn [run op_typed] in *; try (injection H as H; rewrite <- H).
  - by apply insert_step.
  - by apply replace_step.
  - by apply delete_step.
  - by apply history_step.
  - by apply password_step.
  - destruct (merge_encrypted_envelope _ _ _ _ _ _) as [[s1 r1]|] eqn:Em; [|done]. cbn in H. injection H as <- <-.
    by eapply merge_step.
Qed.

(** A poisoned vault refuses everything and changes nothing. *)
Lemma run_poisoned op io v d : poisoned v = true → run op io (v, d) = Some ((v, d), Err ReloadRequired).
Proof.
  intros Hp. destruct op; cbn [run].
  6: { unfold merge_encrypted_envelope, merge_encrypted_envelope_using. cbn [fst]. by rewrite Hp. }
  all: unfold insert_secrets_with_refs, insert_secrets_with_refs_using, replace_secret_with_ref,
    replace_secret_with_ref_using, delete_secrets, delete_secrets_using, replace_command_history,
    replace_command_history_using, change_password, vbind at 1, ensure_usable, vbind at 1, get_self at 1, lift at 1;
    cbn [fst]; by rewrite Hp.
Qed.

Lemma run_all_poisoned ops v d :
  poisoned v = true → run_all ops (v, d) = Some ((v, d), map (λ _, Err ReloadRequired) ops).
Proof.
  intros Hp. induction ops as [|[op io] ops IH]; [done|]. cbn [run_all map]. rewrite run_poisoned by done.
  cbn. by rewrite IH.
Qed.

Lemma effect_revision op st : s_revision st ≤ s_revision (effect op st) ≤ s_revision st + 1.
Proof. destruct st as [m h r p]. unfold effect. repeat case_match; cbn; lia. Qed.

Definition ops_typed (ops : list (Op * Io)) : Prop := Forall (λ x, op_typed x.1 ∧ io_typed x.2) ops.

Lemma run_all_refines ops v0 d0 password v d rs :
  unlock quiet d0 password = Ok v0 → ops_typed ops → revision (payload v0) + zlen ops ≤ u64_max →
  run_all ops (v0, d0) = Some ((v, d), rs) →
  ∃ st, Trace (store_of v0 password) ops rs (poisoned v) st ∧ holds d st ∧
    (poisoned v = false →
     unlock quiet d (s_password st) = Ok v ∧ store_of v (s_password st) = st ∧ keys_of v = keys_of v0).
Proof.
  revert v0 d0 password rs. induction ops as [|[op io] ops IH]; intros v0 d0 password rs Hu Ht Hr H; cbn [run_all] in H.
  { injection H as <- <- <-. exists (store_of v0 password). destruct (unlock_sound _ _ _ Hu) as [_ ->].
    split; [constructor|]. split; [by exists v0|done]. }
  apply Forall_cons in Ht as [[Ht Hio] Hts]. rewrite zlen_cons in Hr. pose proof (zlen_nonneg ops).
  destruct (run op io (v0, d0)) as [[[v1 d1] r]|] eqn:Er; [|done]. cbn [mbind option_bind] in H.
  destruct (run_all ops (v1, d1)) as [[s1 rs1]|] eqn:Ea; [|done]. cbn in H. injection H as -> <-.
  apply (run_step op io v0 d0 password) in Er; [|done..|lia]. destruct r as [[]|e|]; [| |done]; cbn [stepped] in Er.
  - destruct Er as (Hu1 & Hst & Hk). destruct (IH v1 d1 _ rs1 Hu1 Hts) as (st & HT & Hh & Hm); [|done|].
    + pose proof (effect_revision op (store_of v0 password)) as He. rewrite <- Hst in He. cbn in He. lia.
    + exists st. rewrite Hst in HT. split; [by constructor|]. split; [done|]. intros Hp. by destruct (Hm Hp) as (? & ? & ->).
  - destruct (is_unknown e) eqn:Ee.
    + destruct Er as [Hp1 Hd]. rewrite run_all_poisoned in Ea by done. injection Ea as <- <- <-.
      rewrite Hp1. destruct e; try done. destruct Hd as [->|Hd].
      * exists (store_of v0 password). split; [apply Trace_unknown; by left|]. split; [by exists v0|done].
      * eexists. split; [apply Trace_unknown; by right|]. done.
    + destruct Er as [-> ->]. destruct (IH v0 d0 _ rs1 Hu Hts) as (st & HT & Hm); [lia|done|].
      exists st. split; [by constructor|done].
Qed.

(** C2. Durability. Starting from an unlocked vault, for every sequence of
    inserts, replacements, deletions, history updates, password changes and
    merges, whatever the operating system answers to each call: the answers are
    those of the abstract store, in which an operation that reports success has
    its whole effect and one that reports a definite error has none; the file
    always opens, to the store with exactly the acknowledged operations, or,
    after an unknown commit, to that store with or without the last one; after
    an unknown commit every operation asks for a reload; and otherwise the
    vault in memory is what unlocking the file gives. *)
Theorem vault_durable ops v0 d0 password v d rs :
  unlock quiet d0 password = Ok v0 → ops_typed ops → revision (payload v0) + zlen ops ≤ u64_max →
  run_all ops (v0, d0) = Some ((v, d), rs) →
  ∃ st, Trace (store_of v0 password) ops rs (poisoned v) st ∧ holds d st ∧
    (poisoned v = false → unlock quiet d (s_password st) = Ok v ∧ store_of v (s_password st) = st).
Proof.
  intros Hu Ht Hr H. destruct (run_all_refines ops v0 d0 password v d rs Hu Ht Hr H) as (st & HT & Hh & Hm).
  exists st. split; [done|]. split; [done|]. intros Hp. by destruct (Hm Hp) as (? & ? & _).
Qed.

End Steps.
End Store.
