(* ===== verification/VaultAccess.v ===== *)
(** * Ways into the vault

    A vault that was created, imported or exported opens with its password to
    the same vault; a device slot keeps opening the file while the vault is
    changed; and merging another vault's envelope adds to the vault without
    touching what it holds. *)

From S2P Require Import Prelude RustStr BTree SerdeJson SyncCrypto SecretVault VaultDurability VaultStore.

Module Access.
Import Json Vault Durable Store.
Import (hints) Crypto.

(** ** Texts of identifiers *)

Lemma hex_fixed_ascii n u : forallb is_ascii (hex_fixed n u) = true ∧ zlen (hex_fixed n u) = Z.of_nat n.
Proof.
  revert u. induction n as [|n IH]; intros u; [done|]. cbn [hex_fixed]. destruct (IH (u / 16)) as [Ha Hl].
  rewrite forallb_app, zlen_app, Ha, Hl. split; [|unfold zlen; cbn [length]; lia].
  cbn [forallb andb]. unfold digit_char, is_ascii. pose proof (Z.mod_pos_bound u 16).
  destruct (u mod 16 <? 10) eqn:?; lia.
Qed.

Lemma uuid_text_ascii u : forallb is_ascii (uuid_text u) = true ∧ zlen (uuid_text u) = 36.
Proof.
  unfold uuid_text. rewrite !forallb_app, !zlen_app, !(proj1 (hex_fixed_ascii _ _)), !(proj2 (hex_fixed_ascii _ _)). done.
Qed.

Section Access.
Context {J : Type} {C : Crypto.Crypto J} {S : VaultSerde} {L : VaultLaws J}.
Implicit Types v : UnlockedVault.

(** ** Opening *)

Lemma create_opens io d password id d' v :
  create io d password id = (d', Ok v) → io_typed io → 0 < id ≤ u128_max →
  unlock quiet d' password = Ok v ∧ vault_id v = id ∧ entries (payload v) = [] ∧
  command_history (payload v) = history_default ∧ revision (payload v) = 0.
Proof.
  unfold create. intros H Hio Hid.
  destruct (let? _ := _ in _) as [v1|e|] eqn:E; [|done..]. rinv E.
  match goal with H : new_kdf_header _ = Ok ?k, Hd : derive_key _ _ = Ok ?kek, Hr : fill_random (rnd_key _) = Ok ?key,
    Hw : wrap_vault_key _ _ _ _ _ = Ok _ |- _ =>
    unfold fill_random in Hr; destruct (rnd_key io) as [bs|] eqn:Ek; [|done]; injection Hr as ->;
    destruct (it_key _ Hio _ Ek) as [Hb Hl];
    destruct (wrap_sound _ _ _ _ _ _ _ _ H Hd Hw (it_salt _ Hio) (it_wrap _ Hio) Hb Hl) as (? & ? & ? & ? & Hun) end.
  assert (Sound v1 password) as Hs.
  { subst v1. split; cbn [vault_id kdf wrapped_vault_key vault_master_key payload]; try done.
    - unfold candidate_key. cbn [kdf vault_id wrapped_vault_key].
      match goal with Hd : derive_key _ _ = Ok _ |- _ => rewrite Hd end. exact Hun.
    - split; cbn; try done; constructor. }
  pose proof (persist_spec io v1 d password Hs ltac:(by subst v1) Hio) as Hp.
  destruct (persist io (v1, d)) as [[v2 d2] [u|e|]]; [|done..]. injection H as <- <-. cbn in Hp.
  destruct Hp as (o & -> & Hu). subst v1. done.
Qed.

(** What [parse] and [unlock_vault_envelope] find is what [unlock] finds. *)
Lemma open_unlock bytes password e key p :
  parse_encrypted_vault_envelope bytes = Ok e → unlock_vault_envelope e password = Ok (key, p) →
  unlock quiet (Some bytes) password =
    Ok (mkVault (env_vault_id e) (env_kdf e) (env_wrapped_vault_key e) key p false).
Proof.
  intros Hp Hu. destruct (parse_sound _ _ Hp) as (Hl & _ & _). unfold unlock, read_envelope, read_bounded.
  cbn [quiet io_parent io_read io_lock path_check acquire rbind ok_or].
  rewrite (proj2 (Z.ltb_ge _ _)) by done. cbn [rbind]. rewrite Hp. cbn [rbind]. by rewrite Hu.
Qed.

Lemma unlock_open d password v :
  unlock quiet d password = Ok v →
  ∃ bytes e, d = Some bytes ∧ zlen bytes ≤ MAX_VAULT_FILE_BYTES ∧ parse_encrypted_vault_envelope bytes = Ok e ∧
    unlock_vault_envelope e password = Ok (vault_master_key v, payload v) ∧
    v = mkVault (env_vault_id e) (env_kdf e) (env_wrapped_vault_key e) (vault_master_key v) (payload v) false.
Proof.
  unfold unlock, read_envelope, read_bounded. cbn [quiet io_parent io_read io_lock path_check acquire rbind]. intros H.
  destruct d as [bytes|]; [|done]. cbn [ok_or rbind] in H.
  destruct (MAX_VAULT_FILE_BYTES <? zlen bytes) eqn:El; [done|]. bprop. cbn [rbind] in H.
  destruct (parse_encrypted_vault_envelope bytes) as [e| |] eqn:Ep; try done. cbn [rbind] in H.
  destruct (unlock_vault_envelope e password) as [[key p]| |] eqn:Eu; try done. cbn in H. injection H as <-.
  by exists bytes, e.
Qed.

Lemma commit_spec io d x d' v :
  commit_if_missing io d x = (d', Ok v) →
  d = None ∧ d' = Some (pre_envelope x) ∧
  v = mkVault (pre_vault_id x) (pre_kdf x) (pre_wrapped_vault_key x) (pre_vault_master_key x) (pre_payload x) false.
Proof.
  unfold commit_if_missing, atomic_create_if_missing. intros H. repeat case_match; simplify_eq; try done.
Qed.


(** ** Device slots *)

Lemma short_string s n : forallb is_ascii s = true → zlen s ≤ n → str_len (json_string s) ≤ 6 * n + 2.
Proof. intros Ha Hn. pose proof (json_string_len s) as H. rewrite (str_len_ascii s) in H by done. lia. Qed.

Lemma b64_len bs : Forall byte bs → forallb is_ascii (b64 bs) = true ∧ zlen (b64 bs) = Crypto.div_ceil (zlen bs) 3 * 4.
Proof.
  intros Hb. assert (forallb is_ascii (b64 bs) = true) as Ha
    by (apply plain_ascii, Crypto.base64_plain, Crypto.encode_plain, Hb).
  split; [done|]. rewrite <- str_len_ascii by done. by apply Crypto.standard_len.
Qed.

(** A slot is a few hundred bytes. *)
Lemma slot_small id n c :
  Forall byte n → zlen n = NONCE_BYTES → Forall byte c → zlen c = KEY_BYTES + 16 →
  zlen (to_vec (slot_json (mkSlot DEVICE_UNLOCK_MAGIC DEVICE_UNLOCK_FORMAT_VERSION id (mkSection CIPHER_ID (b64 n) (b64 c)))))
    ≤ MAX_VAULT_FILE_BYTES.
Proof.
  intros Hn Hnl Hc Hcl. destruct (uuid_text_ascii id) as [Hua Hul].
  destruct (b64_len n Hn) as [Hna Hnl']. destruct (b64_len c Hc) as [Hca Hcl']. rewrite Hnl in Hnl'. rewrite Hcl in Hcl'.
  unfold slot_json, section_json. cbn [slot_magic slot_format_version slot_vault_id slot_wrapped_vault_key cipher nonce ciphertext].
  etransitivity; [apply to_vec_len|]; cbn [json_wf json_bound foldr].
  - repeat match goal with |- _ ∧ _ => split end; first [by apply ascii_scalar|by apply b64_scalar|done].
  - pose proof (short_string _ 36 Hua ltac:(lia)). pose proof (short_string _ 32 Hna ltac:(by rewrite Hnl')).
    pose proof (short_string _ 64 Hca ltac:(by rewrite Hcl')). unfold DEVICE_UNLOCK_MAGIC, CIPHER_ID.
    repeat match goal with |- context [str_len (json_string (lit ?x))] =>
      let n := eval vm_compute in (str_len (json_string (lit x))) in change (str_len (json_string (lit x))) with n end.
    unfold MAX_VAULT_FILE_BYTES. lia.
Qed.

(** What the file says to a device key that unwraps to the vault's own key. *)
Lemma device_unlock d password v slot e device_key :
  unlock quiet d password = Ok v → zlen slot ≤ MAX_VAULT_FILE_BYTES → slot_from_slice slot = Some e →
  validate_device_unlock_envelope e = Ok tt → slot_vault_id e = vault_id v →
  unwrap_device_vault_key e device_key = Ok (vault_master_key v) →
  unlock_with_device_key quiet d quiet (Some slot) device_key = Ok v.
Proof.
  intros Hu Hl He Hv Hid Hk. destruct (unlock_open _ _ _ Hu) as (bytes & env & -> & Hb & Hp & Hue & Heq).
  unfold unlock_with_device_key, read_envelope, read_bounded.
  cbn [quiet io_parent io_read io_lock path_check acquire rbind ok_or].
  rewrite (proj2 (Z.ltb_ge _ _)) by done. cbn [rbind]. rewrite Hp. cbn [rbind].
  rewrite (proj2 (Z.ltb_ge (MAX_VAULT_FILE_BYTES) (zlen slot))) by done. cbn [rbind]. rewrite He. cbn [ok_or rbind].
  rewrite Hv. cbn [rbind]. rewrite Hid, Hk. rewrite Heq at 1. cbn [vault_id]. rewrite Z.eqb_refl. cbn [negb rbind].
  unfold unlock_vault_envelope in Hue. rinv Hue.
  rewrite <- Hue, E2. cbn [rbind]. rewrite E3. cbn [rbind]. by rewrite H, Hue, <- Heq.
Qed.

(** The slot that was written, as a reader finds it. *)
Lemma slot_written io v password slot0 slot device_key :
  Sound v password → poisoned v = false → io_typed io →
  write_device_unlock_slot io v slot0 device_key = (slot, Ok tt) →
  ∃ bytes e, slot = Some bytes ∧ zlen bytes ≤ MAX_VAULT_FILE_BYTES ∧ slot_from_slice bytes = Some e ∧
    validate_device_unlock_envelope e = Ok tt ∧ slot_vault_id e = vault_id v ∧
    unwrap_device_vault_key e device_key = Ok (vault_master_key v).
Proof.
  intros Hs Hp Hio Hw. destruct (so_key _ _ Hs) as [Hkb Hkl]. unfold write_device_unlock_slot in Hw. rewrite Hp in Hw.
  destruct (wrap_device_vault_key _ _ _ _) as [w| |] eqn:Ew; try done. cbn [rbind] in Hw.
  unfold wrap_device_vault_key, fill_random in Ew. destruct (rnd_wrap io) as [n|] eqn:En; [|done]. cbn [ok_or rbind] in Ew.
  rinv Ew. destruct (it_wrap _ Hio _ En) as [Hnb Hnl].
  destruct (sealed_section _ _ _ _ _ _ E Hkb Hnb Hnl) as (Hd & Hub & Hv & Hst). rewrite Ew in Hd, Hub, Hv, Hst.
  set (e := mkSlot DEVICE_UNLOCK_MAGIC DEVICE_UNLOCK_FORMAT_VERSION (vault_id v) w) in *.
  exists (to_vec (slot_json e)), e. split; [|split; [|split; [|split; [|split; [done|]]]]].
  - pose proof (atomic_write_spec (io_write io) (to_vec (slot_json e)) slot0) as Ha.
    destruct (atomic_write _ _ _) as [s1 [[]|]]; simplify_eq; done.
  - unfold e. rewrite <- Ew. unfold seal in E. rinv E. subst. apply slot_small; try done.
    + eapply Crypto.aead_bytes; [exact Hkb|done].
    + by erewrite Crypto.aead_len, Hkl by done.
  - apply slot_read. pose proof (so_id _ _ Hs). split; cbn; (done || lia || by apply ascii_scalar).
  - unfold validate_device_unlock_envelope. cbn [slot_magic slot_format_version slot_wrapped_vault_key e].
    by rewrite bool_decide_true, Z.eqb_refl.
  - unfold unwrap_device_vault_key. cbn [slot_magic slot_format_version slot_wrapped_vault_key slot_vault_id e].
    rewrite Hd. cbn [rbind]. rewrite Hub. cbn [ok_or rbind]. rewrite <- Ew. cbn [cipher nonce].
    erewrite unseal_seal by done. cbn [rbind]. by rewrite Hkl, Z.eqb_refl.
Qed.

(** C17. Device unlock. A slot written for a vault with a device key opens the
    vault's file with that key after any sequence of operations that leaves the
    vault usable, password changes included, and gives exactly the vault in
    memory; and the slot of one vault does not open another. *)
Theorem device_slot_lasts io v0 d0 password slot0 slot device_key ops v d rs :
  unlock quiet d0 password = Ok v0 → io_typed io →
  write_device_unlock_slot io v0 slot0 device_key = (slot, Ok tt) →
  ops_typed ops → revision (payload v0) + zlen ops ≤ u64_max → run_all ops (v0, d0) = Some ((v, d), rs) →
  (poisoned v = false → unlock_with_device_key quiet d quiet slot device_key = Ok v) ∧
  (∀ d1 password1 v1, unlock quiet d1 password1 = Ok v1 → vault_id v1 ≠ vault_id v0 →
    unlock_with_device_key quiet d1 quiet slot device_key = Err DeviceUnlockVaultMismatch).
Proof.
  intros Hu Hio Hw Ht Hr Hrun. destruct (unlock_sound _ _ _ Hu) as [Hs Hp].
  destruct (slot_written _ _ _ _ _ _ Hs Hp Hio Hw) as (bytes & e & -> & Hl & He & Hval & Hid & Hun). split.
  - intros Hpv. destruct (run_all_refines ops v0 d0 password v d rs Hu Ht Hr Hrun) as (st & _ & _ & Hm).
    destruct (Hm Hpv) as (Hud & _ & [= Hidv Hkey]). eapply device_unlock; try done; congruence.
  - intros d1 password1 v1 Hu1 Hne. destruct (unlock_open _ _ _ Hu1) as (b & env & -> & Hb & Hpe & _ & Heq).
    unfold unlock_with_device_key, read_envelope, read_bounded.
    cbn [quiet io_parent io_read io_lock path_check acquire rbind ok_or].
    rewrite (proj2 (Z.ltb_ge _ _) Hb). cbn [rbind]. rewrite Hpe. cbn [rbind].
    rewrite (proj2 (Z.ltb_ge _ _) Hl). cbn [rbind]. rewrite He. cbn [ok_or rbind]. rewrite Hval. cbn [rbind].
    rewrite Heq in Hne. cbn [vault_id] in Hne. by rewrite Hid, (proj2 (Z.eqb_neq _ _)).
Qed.

(** ** Merging *)

Lemma set_entry_id_same e : set_entry_id (entry_id e) e = e.
Proof. by destruct e. Qed.

Lemma merge_history_spec st draws source st' rest :
  merge_history st draws source = Some (st', rest) →
  ∃ added, m_entries st' = m_entries st ++ added ∧ m_imported st' = m_imported st + zlen added ∧
    Forall (λ e, ∃ u, set_entry_id u e ∈ m_entries st') source.
Proof.
  revert st draws. induction source as [|e source IH]; intros st draws H; cbn [merge_history] in H.
  { injection H as <- <-. exists []. rewrite app_nil_r, zlen_nil, Z.add_0_r. done. }
  assert (∀ e' s1 d1, merge_history s1 d1 source = Some (st', rest) → m_entries s1 = m_entries st ++ [e'] →
    m_imported s1 = m_imported st + 1 → (∃ u, e' = set_entry_id u e) →
    ∃ added, m_entries st' = m_entries st ++ added ∧ m_imported st' = m_imported st + zlen added ∧
      Forall (λ e, ∃ u, set_entry_id u e ∈ m_entries st') (e :: source)) as Hadd.
  { intros e' s1 d1 H1 Hm Hi [u ->]. destruct (IH _ _ H1) as (added & He & Hz & Hf).
    exists ([set_entry_id u e] ++ added). rewrite app_assoc, <- Hm. split; [done|].
    split; [rewrite zlen_app, Hz, Hi; unfold zlen; cbn [length]; lia|].
    constructor; [|done]. exists u. rewrite He, Hm. set_solver. }
  destruct (List.find _ _) as [x|] eqn:Ef.
  - destruct (bool_decide (x = e)) eqn:Ex.
    + bprop. subst x. destruct (IH _ _ H) as (added & He & Hz & Hf). cbn [m_entries m_imported] in *.
      exists added. split; [done|]. split; [done|]. constructor; [|done]. exists (entry_id e).
      rewrite set_entry_id_same, He. apply find_some in Ef as [Hin _]. apply list_elem_of_In in Hin. set_solver.
    + destruct (draw_new (m_ids st) draws) as [[u rest1]|]; [|done]. cbn [mbind option_bind] in H.
      eapply Hadd; [exact H|done|done|by exists u].
  - eapply Hadd; [exact H|done|done|]. exists (entry_id e). by rewrite set_entry_id_same.
Qed.

Lemma get_of_list (l : list (SecretRef * SecretEntry)) r e : NoDup (map fst l) → (r, e) ∈ l → bmap_get r l = Some e.
Proof.
  induction l as [|[k x] l IH]; cbn [map fst bmap_get]; intros Hnd Hin; [by apply elem_of_nil in Hin|].
  apply NoDup_cons in Hnd as [Hk Hnd]. apply elem_of_cons in Hin as [[= <- <-]|Hin]; [by destruct (keqb_spec r r)|].
  destruct (keqb_spec r k) as [->|]; [|by apply IH]. destruct Hk. apply list_elem_of_fmap. by exists (k, e).
Qed.

Lemma plan_shape h m source reserved draws merged imported summary :
  merge_plan h m source reserved draws = Some (Ok (merged, imported, summary)) →
  map snd imported = map snd (entries source) ∧ imported_secrets summary = zlen imported ∧
  ∃ added, merged = mkHistory (hist_schema_version h) (hist_entries h ++ added) ∧
    imported_history_entries summary = zlen added ∧
    Forall (λ e, ∃ u, set_entry_id u e ∈ hist_entries merged) (hist_entries (command_history source)).
Proof.
  unfold merge_plan. destruct (merge_history _ _ _) as [[st rest]|] eqn:Em; [|done]. cbn [mbind option_bind].
  destruct (validate_command_history _); [|done..].
  destruct (assign_refs _ _ _) as [l|] eqn:Ea; [|done]. cbn [mbind option_bind]. intros [= <- <- <-].
  apply assign_refs_spec in Ea as (_ & _ & Hsnd). apply merge_history_spec in Em as (added & He & Hi & Hf).
  cbn [m_entries m_imported] in *. split; [done|]. split; [done|]. exists added. cbn [hist_entries]. rewrite <- He. by split.
Qed.

(** The result of a merge, from its plan. *)
Lemma merge_effect io v d password bytes source_password reserved draws s' summary :
  poisoned v = false →
  merge_encrypted_envelope io bytes source_password reserved draws (v, d) = Some (s', Ok summary) →
  ∃ key source merged imported,
    (let? e := parse_encrypted_vault_envelope bytes in unlock_vault_envelope e source_password) = Ok (key, source) ∧
    merge_plan (command_history (payload v)) (entries (payload v)) source reserved draws =
      Some (Ok (merged, imported, summary)) ∧
    s_entries (effect (Merge bytes source_password reserved draws) (store_of v password)) =
      bmap_extend imported (entries (payload v)) ∧
    s_history (effect (Merge bytes source_password reserved draws) (store_of v password)) = merged ∧
    s_password (effect (Merge bytes source_password reserved draws) (store_of v password)) = password.
Proof.
  intros Hp H. unfold merge_encrypted_envelope, merge_encrypted_envelope_using in H. cbn [fst] in H. rewrite Hp in H.
  unfold effect, store_of. destruct (let? e := _ in _) as [[key source]| |] eqn:Eo; [|done..].
  destruct (merge_plan _ _ _ _ _) as [[[[merged imported] sum]| |]|] eqn:Ep; [|done..]. cbn [mbind option_bind] in H.
  injection H as H. exists key, source, merged, imported. unfold vbind at 1, lift at 1 in H.
  destruct (_ && _) eqn:Ez.
  - injection H as _ ->. split; [done|]. split; [done|]. bprop.
    destruct (plan_shape _ _ _ _ _ _ _ _ Ep) as (_ & Hi & added & -> & Ha & _).
    assert (imported = []) as -> by (destruct imported; [done|rewrite zlen_cons in Hi; pose proof (zlen_nonneg imported); lia]).
    assert (added = []) as -> by (destruct added; [done|rewrite zlen_cons in Ha; pose proof (zlen_nonneg added); lia]).
    rewrite app_nil_r. by destruct (command_history (payload v)).
  - split; [done|]. split; [|done]. unfold vbind at 1, get_self at 1 in H. cbn [fst snd] in H.
    unfold vbind at 1, lift at 1 in H. destruct (next_revision _); [|done..].
    unfold vbind at 1 2 3, modify at 1 2 3 in H. unfold vbind, vret in H.
    destruct (or_roll_back _ _ _) as [s1 [| |]]; by simplify_eq.
Qed.

(** C19. Merging. When another vault's envelope is merged, every secret the
    vault had keeps its reference and value; every secret of the source is
    stored under a reference that neither vault had and the caller did not
    reserve; the vault's history stays in place and every command of the source
    is in the merged history; keys and password are unchanged; and the file
    opens to the merged vault. *)
Theorem merge_preserves io v d password bytes source_password reserved draws v' d' summary :
  unlock quiet d password = Ok v → io_typed io → Forall (λ u, 0 < u ≤ u128_max) draws →
  merge_encrypted_envelope io bytes source_password reserved draws (v, d) = Some ((v', d'), Ok summary) →
  ∃ source imported added,
    prepare_encrypted_vault_import bytes source_password = Ok source ∧
    map snd imported = map snd (entries (pre_payload source)) ∧ imported_secrets summary = zlen imported ∧
    (∀ r e, (r, e) ∈ imported → bmap_get r (entries (payload v')) = Some e ∧
      r ∉ bmap_keys (entries (payload v)) ∧ r ∉ reserved ∧ r ∉ bmap_keys (entries (pre_payload source))) ∧
    (∀ r e, bmap_get r (entries (payload v)) = Some e → bmap_get r (entries (payload v')) = Some e) ∧
    hist_entries (command_history (payload v')) = hist_entries (command_history (payload v)) ++ added ∧
    imported_history_entries summary = zlen added ∧
    Forall (λ e, ∃ u, set_entry_id u e ∈ hist_entries (command_history (payload v')))
      (hist_entries (command_history (pre_payload source))) ∧
    keys_of v' = keys_of v ∧ unlock quiet d' password = Ok v'.
Proof.
  intros Hu Hio Hd H. destruct (unlock_sound _ _ _ Hu) as [Hs Hp].
  destruct (sound_parts _ _ Hs) as (Hm & _ & _ & Hh & _ & _).
  pose proof (merge_step _ _ _ _ _ _ _ _ _ _ Hs Hp Hio Hd Hu H) as (Hu' & Hst & Hk).
  destruct (merge_effect _ _ _ password _ _ _ _ _ _ Hp H) as (key & source & merged & imported & Ho & Ep & He & Hhist & Hpw).
  rewrite Hpw in Hu', Hst. rewrite <- Hst in He, Hhist. cbn [s_entries s_history store_of] in He, Hhist.
  destruct (open_sound _ _ _ _ Ho) as [Hsrc Hchk].
  destruct (plan_spec _ _ _ _ _ _ _ _ Ep Hd Hh Hsrc Hchk) as (_ & _ & Hnd & Hnew & _ & _).
  destruct (plan_shape _ _ _ _ _ _ _ _ Ep) as (Hsnd & Hi & added & Hadd & Ha & Hf).
  destruct (rbind_Ok (parse_encrypted_vault_envelope bytes) (λ e, unlock_vault_envelope e source_password) (key, source))
    as [Hb _]. destruct (Hb Ho) as (env & Hpe & Hue).
  exists (mkPrepared bytes (env_vault_id env) (env_kdf env) (env_wrapped_vault_key env) key source), imported, added.
  cbn [pre_payload]. rewrite He, Hhist. split_and!; try done.
  - unfold prepare_encrypted_vault_import. rewrite Hpe. cbn [rbind]. by rewrite Hue.
  - intros r e Hin. split; [|apply Hnew, list_elem_of_fmap; by exists (r, e)].
    rewrite bmap_extend_get by done. by rewrite (get_of_list _ _ _ Hnd Hin).
  - intros r e Hg. rewrite bmap_extend_get by done. rewrite (proj2 (bmap_get_None r imported)); [done|].
    intros Hin. destruct (Hnew r Hin) as [Hn _]. apply Hn, bmap_get_key. by exists e.
  - by rewrite Hadd.
Qed.

End Access.
End Access.
