(* ===== verification/VaultModels.v ===== *)
(** * The vault's libraries can be as its theorems assume

    Readers of the vault's envelopes on top of [SerdeJson], a bit encoding of
    its payload, and the base64 and stand-in cipher of [SyncModels]: they
    satisfy [VaultLaws], and the theorems on the vault are applied to them. *)

From S2P Require Import Prelude RustStr BTree SerdeJson SyncSchema SyncCrypto SyncModels.
From S2P Require Import SecretVault VaultDurability VaultStore VaultAccess.

Module VaultModels.
Import Json Vault Durable Store Access.
Import (hints) Crypto.

(** ** Identifiers *)

Definition uuid_of_text (s : str) : option Uuid :=
  parse_digits 16 0 (List.filter (λ c, negb (c =? 45)) s).

Lemma parse_hex n u acc : 0 ≤ acc → parse_digits 16 acc (hex_fixed n u) = Some (acc * 16 ^ Z.of_nat n + u mod 16 ^ Z.of_nat n).
Proof.
  revert u. induction n as [|n IH]; intros u Ha.
  - cbn. rewrite Z.mod_1_r. f_equal. lia.
  - cbn [hex_fixed]. rewrite parse_digits_app, IH by done. cbn [parse_digits].
    pose proof (Z.mod_pos_bound u 16 ltac:(lia)). rewrite digit_char_digit by lia. f_equal.
    rewrite Nat2Z.inj_succ, Z.pow_succ_r by lia.
    rewrite (Z.rem_mul_r u 16 (16 ^ Z.of_nat n)) by (lia || apply Z.pow_pos_nonneg; lia). lia.
Qed.

Lemma parse_hex_app n u acc s :
  0 ≤ acc → parse_digits 16 acc (hex_fixed n u ++ s) = parse_digits 16 (acc * 16 ^ Z.of_nat n + u mod 16 ^ Z.of_nat n) s.
Proof. intros. by rewrite parse_digits_app, parse_hex. Qed.

Ltac nonneg := repeat first [apply Z.add_nonneg_nonneg|apply Z.mul_nonneg_nonneg|apply Z.mod_pos_bound; done|done].

Lemma filter_hex n u : List.filter (λ c, negb (c =? 45)) (hex_fixed n u) = hex_fixed n u.
Proof.
  revert u. induction n as [|n IH]; intros u; [done|]. cbn [hex_fixed]. rewrite List.filter_app, IH. f_equal.
  cbn [List.filter]. pose proof (Z.mod_pos_bound u 16 ltac:(lia)). unfold digit_char.
  rewrite (proj2 (Z.eqb_neq _ _)); [done|]. destruct (u mod 16 <? 10) eqn:?; lia.
Qed.

Lemma split_at u k l : 0 ≤ k → 0 ≤ l → u / 2 ^ k = u / 2 ^ (k + l) * 2 ^ l + (u / 2 ^ k) mod 2 ^ l.
Proof.
  intros Hk Hl. rewrite Z.pow_add_r, <- Z.div_div by (lia || apply Z.pow_nonzero; lia || apply Z.pow_pos_nonneg; lia).
  rewrite Z.mul_comm. apply Z.div_mod, Z.pow_nonzero; lia.
Qed.

Lemma uuid_round u : 0 ≤ u ≤ u128_max → uuid_of_text (uuid_text u) = Some u.
Proof.
  intros Hu. unfold uuid_of_text, uuid_text. rewrite !List.filter_app, !filter_hex. cbn [List.filter Z.eqb Pos.eqb negb].
  rewrite !app_nil_l. do 4 (rewrite parse_hex_app by nonneg). rewrite parse_hex by nonneg. f_equal.
  change (16 ^ Z.of_nat 8) with (2 ^ 32). change (16 ^ Z.of_nat 4) with (2 ^ 16). change (16 ^ Z.of_nat 12) with (2 ^ 48).
  pose proof (split_at u 0 48 ltac:(done) ltac:(done)) as H0. pose proof (split_at u 48 16 ltac:(done) ltac:(done)) as H1.
  pose proof (split_at u 64 16 ltac:(done) ltac:(done)) as H2. pose proof (split_at u 80 16 ltac:(done) ltac:(done)) as H3.
  change (0 + 48) with 48 in H0. change (48 + 16) with 64 in H1. change (64 + 16) with 80 in H2. change (80 + 16) with 96 in H3.
  change (2 ^ 0) with 1 in H0. rewrite Z.div_1_r in H0.
  rewrite (Z.mod_small (u / 2 ^ 96) (2 ^ 32)).
  2: { split; [apply Z.div_pos; lia|]. apply Z.div_lt_upper_bound; [done|].
    change (2 ^ 96 * 2 ^ 32) with (u128_max + 1). lia. }
  clear Hu. revert H0 H1 H2 H3. generalize (u mod 2 ^ 48), ((u / 2 ^ 48) mod 2 ^ 16), ((u / 2 ^ 64) mod 2 ^ 16),
    ((u / 2 ^ 80) mod 2 ^ 16). generalize (u / 2 ^ 96), (u / 2 ^ 80), (u / 2 ^ 64), (u / 2 ^ 48).
  change (2 ^ 48) with 281474976710656. change (2 ^ 16) with 65536. intros. lia.
Qed.

(** ** The payload as bits *)

Definition kind_code (k : SecretKind) : nat :=
  match k with
  | Password => 0 | PrivateKey => 1 | Passphrase => 2 | Certificate => 3 | LoginAutomation => 4
  | OAuthRefreshToken => 5 | PluginCredential => 6 | SshSyncKey => 7 | SshSyncRecoverySecret => 8
  end%nat.
Definition kind_of_code (n : nat) : SecretKind :=
  default Password ([Password; PrivateKey; Passphrase; Certificate; LoginAutomation; OAuthRefreshToken;
    PluginCredential; SshSyncKey; SshSyncRecoverySecret] !! n).

#[global] Instance kind_countable : Countable SecretKind.
Proof. apply (inj_countable' kind_code kind_of_code). by intros []. Defined.
#[global] Instance entry_countable : Countable SecretEntry.
Proof. apply (inj_countable' (λ e, (entry_kind e, entry_value e)) (λ x, mkEntry x.1 x.2)). by intros []. Defined.
#[global] Instance history_entry_countable : Countable CommandHistoryEntry.
Proof.
  apply (inj_countable' (λ e, (entry_id e, scope e, command e, completed_at_unix_ms e, elapsed_millis e, exit_code e))
    (λ '(a, b, c, d, e, f), mkHistoryEntry a b c d e f)). by intros [].
Defined.

Definition payload_tuple (p : VaultPayloadV1) :=
  (schema_version p, revision p, parent_envelope_sha256 p, entries p, hist_schema_version (command_history p),
   hist_entries (command_history p)).

Fixpoint bits_of (p : positive) : list Z :=
  match p with xH => [] | xO p => 0 :: bits_of p | xI p => 1 :: bits_of p end.
Fixpoint of_bits (l : list Z) : positive :=
  match l with [] => xH | b :: l => if b =? 0 then xO (of_bits l) else xI (of_bits l) end.

Lemma of_bits_of p : of_bits (bits_of p) = p.
Proof. induction p; cbn; congruence. Qed.

Lemma bits_bytes p : Forall byte (bits_of p).
Proof. induction p; repeat constructor; done. Qed.

(** ** Decidable types *)

#[global] Instance scalar_dec c : Decision (scalar c).
Proof. unfold scalar. apply _. Defined.
#[global] Instance byte_dec b : Decision (byte b).
Proof. unfold byte. apply _. Defined.
#[global] Instance entry_typed_dec kv : Decision (entry_typed kv).
Proof. unfold entry_typed. apply _. Defined.
#[global] Instance history_entry_typed_dec e : Decision (history_entry_typed e).
Proof. unfold history_entry_typed. apply _. Defined.
#[global] Instance history_typed_dec h : Decision (history_typed h).
Proof. unfold history_typed. apply _. Defined.
#[global] Instance klt_dec (a b : Z) : Decision (klt a b).
Proof. unfold klt. apply _. Defined.
#[global] Instance sorted_dec (m : list (SecretRef * SecretEntry)) : Decision (bmap_sorted m).
Proof. unfold bmap_sorted, bsorted. apply _. Defined.
#[global] Instance payload_typed_dec p : Decision (payload_typed p).
Proof.
  refine (cast_if (decide (0 ≤ schema_version p ≤ u32_max ∧ 0 ≤ revision p ≤ u64_max ∧
    Forall scalar (default [] (parent_envelope_sha256 p)) ∧ bmap_sorted (entries p) ∧ Forall entry_typed (entries p) ∧
    history_typed (command_history p)))).
  - by split; tauto.
  - intros []; tauto.
Defined.

#[global] Instance kdf_typed_dec k : Decision (kdf_typed k).
Proof. unfold kdf_typed. apply _. Defined.
#[global] Instance section_typed_dec s : Decision (section_typed s).
Proof. unfold section_typed. apply _. Defined.
#[global] Instance envelope_typed_dec e : Decision (envelope_typed e).
Proof.
  refine (cast_if (decide (Forall scalar (magic e) ∧ 0 ≤ format_version e ≤ u32_max ∧ 0 ≤ env_vault_id e ≤ u128_max ∧
    kdf_typed (env_kdf e) ∧ section_typed (env_wrapped_vault_key e) ∧ section_typed (env_payload e)))).
  - by split; tauto.
  - intros []; tauto.
Defined.

(** ** Readers *)

Definition kdf_of (j : Json) : option KdfHeader :=
  match j with
  | JObject [(_, JString a); (_, JString b); (_, JNumber c); (_, JNumber d); (_, JNumber e); (_, JString f)] =>
      Some (mkKdf a b c d e f)
  | _ => None
  end.

Definition section_of (j : Json) : option CiphertextSection :=
  match j with JObject [(_, JString a); (_, JString b); (_, JString c)] => Some (mkSection a b c) | _ => None end.

Definition envelope_of (j : Json) : option VaultEnvelope :=
  match j with
  | JObject [(_, JString a); (_, JNumber b); (_, JString c); (_, d); (_, e); (_, f)] =>
      c ← uuid_of_text c; d ← kdf_of d; e ← section_of e; f ← section_of f; Some (mkEnvelope a b c d e f)
  | _ => None
  end.

Definition slot_of (j : Json) : option DeviceUnlockEnvelope :=
  match j with
  | JObject [(_, JString a); (_, JNumber b); (_, JString c); (_, d)] =>
      c ← uuid_of_text c; d ← section_of d; Some (mkSlot a b c d)
  | _ => None
  end.

Definition sync_key_of (j : Json) : option VaultSyncKeyEnvelope :=
  match j with
  | JObject [(_, JString a); (_, JNumber b); (_, JString c); (_, d); (_, e)] =>
      c ← uuid_of_text c; d ← kdf_of d; e ← section_of e; Some (mkSyncKeyEnvelope a b c d e)
  | _ => None
  end.

#[global] Instance model_serde : VaultSerde := {|
  envelope_from_slice bs :=
    j ← Models.json_of_bytes bs; e ← envelope_of j; if decide (envelope_typed e) then Some e else None;
  slot_from_slice bs := j ← Models.json_of_bytes bs; slot_of j;
  sync_key_from_slice bs := j ← Models.json_of_bytes bs; sync_key_of j;
  payload_to_vec p := Some (bits_of (countable.encode (payload_tuple p)));
  payload_from_slice bs :=
    '(a, b, c, d, e, f) ← countable.decode (of_bits bs);
    let p := mkPayload a b c d (mkHistory e f) in if decide (payload_typed p) then Some p else None |}.

Definition vault_crypto : Crypto.Crypto unit :=
  Models.model_crypto (λ _ _ m _, forallb (λ b, bool_decide (byte b)) m) Models.demo_contents.

Lemma kdf_wf k : kdf_typed k → json_wf (kdf_json k).
Proof. intros (? & ? & ? & ? & ? & ?). unfold u32_max in *. cbn. unfold u64_max. repeat split; try (by apply ascii_scalar); done || lia. Qed.

Lemma section_wf s : section_typed s → json_wf (section_json s).
Proof. intros (? & ? & ?). cbn. repeat split; try (by apply ascii_scalar); done. Qed.

Lemma uuid_scalar u : Forall scalar (uuid_text u).
Proof. apply ascii_scalar, uuid_text_ascii. Qed.

Lemma wf_fields fields : Forall (λ kv, Forall scalar kv.1 ∧ json_wf kv.2) fields → json_wf (JObject fields).
Proof. cbn. induction 1 as [|[k j] fields [] _ IH]; [done|]. by split_and!. Qed.

Ltac wf :=
  apply wf_fields; repeat (apply Forall_cons; split); try apply Forall_nil_2;
  (split; [by apply ascii_scalar|]; cbn [snd]);
  first [done|by apply kdf_wf|by apply section_wf|apply uuid_scalar|cbn; unfold u32_max, u64_max in *; lia].

#[global] Instance model_vault_laws : @VaultLaws unit vault_crypto model_serde.
Proof.
  split.
  - apply Models.model_laws.
  - intros k n c a m. cbn [Crypto.aead_decrypt vault_crypto Models.model_crypto]. unfold Models.model_decrypt.
    destruct (_ && _) eqn:E; [|done]. intros [= <-]. bprop. apply forallb_true_Forall in H0.
    eapply Forall_impl; [exact H0|]. intros b Hb. by apply bool_decide_eq_true in Hb.
  - intros e He. cbn [envelope_from_slice model_serde]. pose proof He as [].
    rewrite Models.json_of_to_vec by (unfold envelope_json; wf). destruct e as [? ? u [] [] []].
    unfold envelope_json. cbn -[lit uuid_text uuid_of_text]. rewrite uuid_round by done. cbn.
    by rewrite decide_True.
  - intros bs e. cbn [envelope_from_slice model_serde]. destruct (Models.json_of_bytes bs) as [j|]; [|done]. cbn.
    destruct (envelope_of j); [|done]. cbn. case_decide; [|done]. by intros [= <-].
  - intros e He. cbn [slot_from_slice model_serde]. pose proof He as [].
    rewrite Models.json_of_to_vec by (unfold slot_json; wf). destruct e as [? ? u []].
    unfold slot_json. cbn -[lit uuid_text uuid_of_text]. by rewrite uuid_round.
  - intros e He. cbn [sync_key_from_slice model_serde]. pose proof He as [].
    rewrite Models.json_of_to_vec by (unfold sync_key_json; wf). destruct e as [? ? u [] []].
    unfold sync_key_json. cbn -[lit uuid_text uuid_of_text]. by rewrite uuid_round.
  - intros p m [= <-]. apply bits_bytes.
  - intros p m Hp [= <-]. cbn [payload_from_slice model_serde]. rewrite of_bits_of, decode_encode. cbn.
    destruct p as [? ? ? ? []]. by rewrite decide_True.
  - intros bs p. cbn [payload_from_slice model_serde]. destruct (countable.decode _) as [[[[[[a b] c] d] e] f]|]; [|done].
    cbn. case_decide; [|done]. by intros [= <-].
Qed.

(** ** Witnesses *)

#[local] Existing Instance vault_crypto.

Definition demo_password : list Z := lit "password1".
Definition demo_io (w : WriteIo) : Io :=
  mkIo None None true None w (Some (replicate 16 1)) (Some (replicate 32 2)) (Some (replicate 24 3)) (Some (replicate 24 4)).
Definition failing_write : WriteIo := mkWriteIo None None (Some 28) None None None.
Definition unknown_write : WriteIo := mkWriteIo None None None None None (Some (5, true)).

Lemma demo_id : 0 < 5 ≤ u128_max.
Proof. done. Qed.

Lemma demo_io_typed w : io_typed (demo_io w).
Proof. split; intros bs [= <-]; (split; [repeat constructor; done|done]). Qed.

Definition demo_start : Disk * vres UnlockedVault := create (demo_io quiet_write) None demo_password 5.

Lemma demo_created : ∃ d v, demo_start = (d, Ok v).
Proof.
  assert (is_ok demo_start.2 = true) as H by (vm_compute; reflexivity).
  destruct demo_start as [d [v| |]]; [by exists d, v|done..].
Qed.

(** An insert, a deletion that fails, a password change, a deletion whose
    commit is unknown, and an insert after it. *)
Definition demo_ops : list (Op * Io) :=
  [(Insert [mkInsert 7 Password [1; 2]], demo_io quiet_write); (Delete [7], demo_io failing_write);
   (ChangePassword demo_password (lit "password2"), demo_io quiet_write); (Delete [7], demo_io unknown_write);
   (Insert [mkInsert 8 Password [3]], demo_io quiet_write)].

Definition demo_answers : list (vres unit) :=
  [Ok tt; Err (IoError 28); Ok tt; Err (CommitStateUnknown 5); Err ReloadRequired].

Lemma demo_ops_typed : ops_typed demo_ops.
Proof.
  repeat (apply Forall_cons; split); try apply Forall_nil_2; (split; [|apply demo_io_typed]); try done;
    apply Forall_singleton; (split; [done|by repeat constructor]).
Qed.

(** A created vault, opened, and what the operations answer. *)
Lemma demo_facts :
  ∃ d0 v0 s, unlock quiet d0 demo_password = Ok v0 ∧ revision (payload v0) = 0 ∧
    run_all demo_ops (v0, d0) = Some (s, demo_answers).
Proof.
  assert (match demo_start with
          | (d, Ok v) => match run_all demo_ops (v, d) with Some (_, rs) => bool_decide (rs = demo_answers) | None => false end
          | _ => false end = true) as H by (vm_compute; reflexivity).
  destruct demo_start as [d0 [v0| |]] eqn:E0; [|discriminate H..].
  destruct (create_opens (demo_io quiet_write) None demo_password 5 d0 v0 E0 (demo_io_typed _) demo_id) as (Hu & _ & _ & _ & Hr).
  destruct (run_all demo_ops (v0, d0)) as [[s rs]|] eqn:Er; [|discriminate H]. apply bool_decide_eq_true in H.
  rewrite H in Er. exists d0, v0, s. split; [exact Hu|]. split; [exact Hr|exact Er].
Qed.

Lemma demo_room v0 : revision (payload v0) = 0 → revision (payload v0) + zlen demo_ops ≤ u64_max.
Proof. intros ->. vm_compute. discriminate. Qed.

Lemma vault_durable_witness :
  ∃ s v d st, run_all demo_ops s = Some ((v, d), demo_answers) ∧ holds d st ∧
    Trace (store_of s.1 demo_password) demo_ops demo_answers (poisoned v) st.
Proof.
  destruct demo_facts as (d0 & v0 & [v d] & Hu & Hr & Er).
  destruct (vault_durable demo_ops v0 d0 demo_password v d demo_answers Hu demo_ops_typed (demo_room v0 Hr) Er)
    as (st & HT & Hh & _).
  exists (v0, d0), v, d, st. exact (conj Er (conj Hh HT)).
Defined.

(** *** A device slot *)

Definition device_ops : list (Op * Io) :=
  [(Insert [mkInsert 7 Password [1; 2]], demo_io quiet_write);
   (ChangePassword demo_password (lit "password2"), demo_io quiet_write)].
Definition device_key : list Z := replicate 32 9.

Lemma device_ops_typed : ops_typed device_ops.
Proof.
  repeat (apply Forall_cons; split); try apply Forall_nil_2; (split; [|apply demo_io_typed]); try done;
    apply Forall_singleton; (split; [done|by repeat constructor]).
Qed.

Lemma device_facts :
  ∃ d0 v0 v d rs slot, unlock quiet d0 demo_password = Ok v0 ∧ revision (payload v0) + zlen device_ops ≤ u64_max ∧
    write_device_unlock_slot (demo_io quiet_write) v0 None device_key = (slot, Ok tt) ∧
    run_all device_ops (v0, d0) = Some ((v, d), rs) ∧ poisoned v = false.
Proof.
  assert (match demo_start with
          | (d, Ok v) =>
              match run_all device_ops (v, d) with Some ((v', _), _) => negb (poisoned v') | None => false end &&
              is_ok (write_device_unlock_slot (demo_io quiet_write) v None device_key).2
          | _ => false end = true) as H by (vm_compute; reflexivity).
  destruct demo_start as [d0 [v0| |]] eqn:E0; [|discriminate H..].
  destruct (create_opens (demo_io quiet_write) None demo_password 5 d0 v0 E0 (demo_io_typed _) demo_id) as (Hu & _ & _ & _ & Hr).
  apply andb_true_iff in H as [H Hs].
  destruct (run_all device_ops (v0, d0)) as [[[v d] rs]|] eqn:Er; [|discriminate H]. apply negb_true_iff in H.
  destruct (write_device_unlock_slot _ _ _ _) as [slot [[]| |]] eqn:Es; [|discriminate Hs..].
  exists d0, v0, v, d, rs, slot. split; [exact Hu|]. split; [rewrite Hr; vm_compute; discriminate|].
  split; [exact Es|]. split; [exact Er|exact H].
Qed.

Lemma device_slot_lasts_witness :
  ∃ v d slot, unlock_with_device_key quiet d quiet slot device_key = Ok v.
Proof.
  destruct device_facts as (d0 & v0 & v & d & rs & slot & Hu & Hr & Hs & Er & Hp).
  destruct (device_slot_lasts (demo_io quiet_write) v0 d0 demo_password None slot device_key device_ops v d rs
    Hu (demo_io_typed _) Hs device_ops_typed Hr Er) as [Hd _].
  exists v, d, slot. exact (Hd Hp).
Defined.

(** *** A merge *)

(** A vault's own file, with one secret, merged into it. *)
Definition merged_start : option ((UnlockedVault * Disk) * list (vres unit)) :=
  match demo_start with (d, Ok v) => run_all (take 1 device_ops) (v, d) | _ => None end.

Definition demo_draws : list Uuid := [7; 20].

Lemma draws_typed : Forall (λ u, 0 < u ≤ u128_max) demo_draws.
Proof. by repeat constructor. Qed.

Lemma merge_facts :
  ∃ v d bytes s summary, unlock quiet d demo_password = Ok v ∧
    merge_encrypted_envelope (demo_io quiet_write) bytes demo_password [] demo_draws (v, d) = Some (s, Ok summary) ∧
    imported_secrets summary = 1.
Proof.
  assert (match merged_start with
          | Some ((v, Some b), _) =>
              match unlock quiet (Some b) demo_password with
              | Ok v => match merge_encrypted_envelope (demo_io quiet_write) b demo_password [] demo_draws (v, Some b) with
                        | Some (_, Ok summary) => imported_secrets summary =? 1
                        | _ => false end
              | _ => false end
          | _ => false end = true) as H by (vm_compute; reflexivity).
  destruct merged_start as [[[v [b|]] rs]|]; [|discriminate H..].
  destruct (unlock quiet (Some b) demo_password) as [v1| |] eqn:Eu; [|discriminate H..].
  destruct (merge_encrypted_envelope _ _ _ _ _ _) as [[s [summary| |]]|] eqn:Em; [|discriminate H..].
  exists v1, (Some b), b, s, summary. split; [exact Eu|]. split; [exact Em|by apply Z.eqb_eq].
Qed.

Lemma merge_preserves_witness :
  ∃ v v' source (imported : list (SecretRef * SecretEntry)), map snd imported = map snd (entries (pre_payload source)) ∧ zlen imported = 1 ∧
    ∀ r e, bmap_get r (entries (payload v)) = Some e → bmap_get r (entries (payload v')) = Some e.
Proof.
  destruct merge_facts as (v & d & bytes & [v' d'] & summary & Hu & Hm & Hs).
  destruct (merge_preserves (demo_io quiet_write) v d demo_password bytes demo_password [] demo_draws v' d' summary
    Hu (demo_io_typed _) draws_typed Hm) as (source & imported & added & _ & Hsnd & Hi & _ & Hk & _).
  exists v, v', source, imported. split; [exact Hsnd|]. split; [rewrite <- Hi; exact Hs|exact Hk].
Defined.

(** *** A transfer *)


(** *** A revision that cannot grow *)

(** At the last revision a deletion reports an error but has removed the secret
    from the vault in memory; its file still has it. *)
Lemma delete_at_last_revision :
  ∃ v d, (delete_secrets (demo_io quiet_write) [7] (v, d)).2 = Err (InvalidEnvelope "revision overflow") ∧
    bmap_get 7 (entries (payload v)) = Some (mkEntry Password [1]) ∧
    bmap_get 7 (entries (payload (delete_secrets (demo_io quiet_write) [7] (v, d)).1.1)) = None ∧
    poisoned (delete_secrets (demo_io quiet_write) [7] (v, d)).1.1 = false.
Proof.
  exists (mkVault 5 (mkKdf [] [] 0 0 0 []) (mkSection [] [] []) []
    (mkPayload 1 u64_max None [(7, mkEntry Password [1])] history_default) false), None.
  split; [reflexivity|]. split; [reflexivity|]. split; reflexivity.
Qed.

End VaultModels.
