(* ===== verification/SftpActor.v ===== *)
(** * The SFTP session actor

    src-tauri/src/sftp_session_service.rs: the state of one SFTP session and
    of its transfers ([SftpSessionActor]). The service feeds facts of the
    connection, of the remote file system and of the user into the actor,
    which accepts or refuses them; every fact names the generation of the
    connection it belongs to.

    An operation takes the actor and returns its answer with the actor after
    it, since several operations change the actor and then fail. What the
    source compiles for its tests only is left out. *)

From S2P Require Import Prelude RustStr.

Module Sftp.

(** ** Data *)

Definition MAX_ID_BYTES : Z := 128.
Definition MAX_HOST_ID_BYTES : Z := 128.
Definition MAX_REMOTE_PATH_BYTES : Z := 4096.
Definition MAX_LOCAL_BOUNDARY_TOKEN_BYTES : Z := 512.
Definition MAX_DIRECTORY_PAGE_SIZE : Z := 512.
Definition MAX_LABEL_BYTES : Z := 4096.
Definition MAX_TEXT_PREVIEW_BYTES : Z := 1024 * 1024.
Definition MAX_ARCHIVE_ENTRIES : Z := 10000.
Definition MAX_ARCHIVE_DEPTH : Z := 32.

Inductive SftpRuntimeError :=
| InvalidInput | StaleGeneration | InvalidState | LocalDirectoryTimeout | ChallengeMismatch
| Conflict | UnsafeReplaceUnsupported | ProgressRegression | LengthMismatch | CleanupIncomplete
| ResumeEvidenceMismatch | UnsupportedPathEncoding.

Notation sres := (rres SftpRuntimeError).

Definition SftpSessionId : Type := str.
Definition TransferId : Type := str.
Definition SftpGeneration : Type := Z.

Inductive SftpSessionState :=
| Idle | Connecting | VerifyingHostKey | Authenticating | NeedsAuthentication | OpeningSubsystem
| Ready | Disconnecting | Closed | SessionFailed.

Inductive SftpFailureCode :=
| HostKeyRejected | HostKeyMismatch | VaultLocked | CredentialUnavailable | AuthenticationRejected
| SubsystemRejected | SessionTransportLost | ConnectionClosedByServer | SessionProtocol.

Definition RemotePath : Type := list Z.

Inductive RemoteEntryKind := EntryFile | EntryDirectory | EntrySymlink | EntryOther.

Record RemoteObjectPrecondition := mkPrecondition {
  pre_kind : RemoteEntryKind;
  pre_size : option Z;
  pre_modified_at_unix_ms : option Z }.

Record ArchiveSourcePlan := mkArchiveSource {
  arc_path : RemotePath;
  arc_precondition : RemoteObjectPrecondition;
  archive_name : str }.

Record OperationFence := mkFence { operation_id : str; idempotency_key : str }.

Record DirectoryListingPlan := mkListing {
  dl_operation : OperationFence;
  dl_generation : SftpGeneration;
  dl_path : RemotePath;
  dl_cursor : option (list Z);
  dl_page_size : Z }.

Inductive DeleteKind := DeleteFile | DeleteEmptyDirectory.

Inductive FileMutationPlan :=
| CreateDirectory (op : OperationFence) (g : SftpGeneration) (path : RemotePath)
| CreateEmptyFile (op : OperationFence) (g : SftpGeneration) (path : RemotePath)
| WriteText (op : OperationFence) (g : SftpGeneration) (path : RemotePath)
    (precondition : RemoteObjectPrecondition) (bytes : list Z)
| RenameNoReplace (op : OperationFence) (g : SftpGeneration) (source target : RemotePath)
    (source_precondition : RemoteObjectPrecondition)
| DeleteConfirmed (op : OperationFence) (g : SftpGeneration) (path : RemotePath) (kind : DeleteKind)
    (precondition : RemoteObjectPrecondition)
| SetPermissions (op : OperationFence) (g : SftpGeneration) (path : RemotePath)
    (precondition : RemoteObjectPrecondition) (expected_permission_bits mode : Z)
| CreateZip (op : OperationFence) (g : SftpGeneration) (sources : list ArchiveSourcePlan)
    (target : RemotePath)
| ExtractZip (op : OperationFence) (g : SftpGeneration) (source : RemotePath)
    (source_precondition : RemoteObjectPrecondition) (target_directory : RemotePath)
| DownloadUrl (op : OperationFence) (g : SftpGeneration) (url : str) (target : RemotePath).

Inductive TransferDirection := Upload | Download.
Inductive ConflictPolicy := FailIfExists | ReplaceSafely.
Inductive TransferEndpoint := LocalToken (token : str) | Remote (path : RemotePath).

Inductive TransferState :=
| Queued | Preparing | Transferring | Verifying | Committing | Completed | PausedByDisconnect
| Cancelling | Cancelled | Failed.

Inductive TransferFailureCode :=
| TargetExists | FUnsafeReplaceUnsupported | CommitOutcomeUncertain | PermissionDenied
| TransportLost | FLengthMismatch | FCleanupIncomplete | FUnsupportedPathEncoding | Protocol.

Inductive SftpTransferCommitOutcome := NotCommitted | Committed | Uncertain.

Inductive TemporaryTarget := LocalTemp (token : str) | RemoteTemp (path : RemotePath).

Inductive CleanupOutcome := Cleaned | Residual (opaque_location : str).

Record ResumeEvidence := mkEvidence {
  ev_temporary_target : TemporaryTarget;
  verified_length : Z;
  prefix_checksum_verified : bool }.

Record CommitFacts := mkFacts {
  final_length : Z;
  atomic_no_replace : bool;
  atomic_replace : bool }.

Record TransferRecord := mkTransfer {
  transfer_id : TransferId;
  generation : SftpGeneration;
  direction : TransferDirection;
  source : TransferEndpoint;
  target : TransferEndpoint;
  expected_bytes : Z;
  transferred_bytes : Z;
  started_at : option Z;
  conflict_policy : ConflictPolicy;
  state : TransferState;
  state_revision : Z;
  commit_outcome : SftpTransferCommitOutcome;
  temporary_target : option TemporaryTarget;
  target_existed : bool;
  safe_commit_supported : bool;
  failure_code : option TransferFailureCode;
  cleanup_residual : option str;
  progress_window : option (Z * Z);
  publish_cancellable : bool }.

Record TransferPlan := mkPlan {
  plan_transfer_id : TransferId;
  plan_generation : SftpGeneration;
  plan_direction : TransferDirection;
  plan_source : TransferEndpoint;
  plan_target : TransferEndpoint;
  plan_conflict_policy : ConflictPolicy;
  plan_expected_bytes : Z;
  require_temporary_target : bool;
  resume_from : Z }.

Record SftpParentSshSession := mkParent { parent_session_id : str; parent_generation : Z }.

Record SftpSessionSummary := mkSummary {
  session_id : SftpSessionId;
  host_id : option str;
  parent_ssh_session : option SftpParentSshSession;
  ses_generation : option SftpGeneration;
  ses_state_revision : Z;
  ses_state : SftpSessionState;
  ses_failure_code : option SftpFailureCode;
  transport_id : option str;
  subsystem_id : option str }.

Record SftpSessionActor := mkActor {
  summary : SftpSessionSummary;
  connection_revision_token : option str;
  transfers : gmap TransferId TransferRecord }.

#[global] Instance runtime_error_eq : EqDecision SftpRuntimeError.
Proof. solve_decision. Defined.
#[global] Instance session_state_eq : EqDecision SftpSessionState.
Proof. solve_decision. Defined.
#[global] Instance session_failure_eq : EqDecision SftpFailureCode.
Proof. solve_decision. Defined.
#[global] Instance entry_kind_eq : EqDecision RemoteEntryKind.
Proof. solve_decision. Defined.
#[global] Instance precondition_eq : EqDecision RemoteObjectPrecondition.
Proof. solve_decision. Defined.
#[global] Instance remote_path_eq : EqDecision RemotePath.
Proof. unfold RemotePath. solve_decision. Defined.
#[global] Instance direction_eq : EqDecision TransferDirection.
Proof. solve_decision. Defined.
#[global] Instance policy_eq : EqDecision ConflictPolicy.
Proof. solve_decision. Defined.
#[global] Instance endpoint_eq : EqDecision TransferEndpoint.
Proof. solve_decision. Defined.
#[global] Instance transfer_state_eq : EqDecision TransferState.
Proof. solve_decision. Defined.
#[global] Instance transfer_failure_eq : EqDecision TransferFailureCode.
Proof. solve_decision. Defined.
#[global] Instance outcome_eq : EqDecision SftpTransferCommitOutcome.
Proof. solve_decision. Defined.
#[global] Instance temporary_eq : EqDecision TemporaryTarget.
Proof. solve_decision. Defined.
#[global] Instance cleanup_eq : EqDecision CleanupOutcome.
Proof. solve_decision. Defined.
#[global] Instance transfer_eq : EqDecision TransferRecord.
Proof. solve_decision. Defined.

(** [u64::saturating_add]. *)
Definition saturating_add (a b : Z) : Z := Z.min u64_max (a + b).

(** ** Identifiers, labels and paths *)

Definition has_nul (s : str) : bool := existsb (Z.eqb 0) s.

Definition is_blank (s : str) : bool := bool_decide (trim s = []).

Definition bounded_id (value : str) : sres str :=
  if is_blank value || (MAX_ID_BYTES <? str_len value) || has_nul value
  then Err InvalidInput else Ok value.

Definition bounded_label (value : str) : sres str :=
  if (MAX_LABEL_BYTES <? str_len value) || has_nul value then Err InvalidInput else Ok value.

Definition new_generation (value : Z) : sres SftpGeneration :=
  if 0 <? value then Ok value else Err InvalidInput.

Definition parse_fence (op key : str) : sres OperationFence :=
  let? op := bounded_id op in
  let? key := bounded_id key in
  Ok (mkFence op key).

Definition parse_path (bytes : list Z) : sres RemotePath :=
  if bool_decide (bytes = []) || (MAX_REMOTE_PATH_BYTES <? zlen bytes) || has_nul bytes
     || negb (bool_decide (head bytes = Some 47))
  then Err InvalidInput else Ok bytes.

(** [RemotePath::parent]: everything before the last slash, or the root. *)
Definition parent (path : RemotePath) : list Z :=
  match rsplit_once 47 path with
  | None | Some ([], _) => [47]
  | Some (before, _) => before
  end.

Definition validate_endpoint (e : TransferEndpoint) : sres unit :=
  match e with
  | LocalToken token =>
      if is_blank token || (MAX_LOCAL_BOUNDARY_TOKEN_BYTES <? str_len token) || has_nul token
      then Err InvalidInput else Ok tt
  | Remote _ => Ok tt
  end.

Definition validate_for (t : TemporaryTarget) (target : TransferEndpoint) : sres unit :=
  match t, target with
  | RemoteTemp temp, Remote target =>
      if negb (bool_decide (temp = target)) && bool_decide (parent temp = parent target)
      then Ok tt else Err InvalidInput
  | LocalTemp temp, LocalToken target =>
      if negb (is_blank temp) && (str_len temp <=? MAX_LOCAL_BOUNDARY_TOKEN_BYTES)
         && negb (bool_decide (temp = target))
      then Ok tt else Err InvalidInput
  | _, _ => Err InvalidInput
  end.

Definition validate_archive_name (name : str) : sres unit :=
  if bool_decide (name = []) || (4096 <? str_len name) || starts_with [47] name
     || bool_decide (last name = Some 47) || contains_char name 92 || has_nul name
  then Err InvalidInput
  else
    let? depth := rfold (λ depth c,
      if bool_decide (c = []) || bool_decide (c = lit ".") || bool_decide (c = lit "..")
      then Err InvalidInput else Ok (depth + 1)) 0 (split_char 47 name) in
    if MAX_ARCHIVE_DEPTH <? depth then Err InvalidInput else Ok tt.

(** ** One transfer *)

Definition set_generation (g : SftpGeneration) (r : TransferRecord) : TransferRecord :=
  mkTransfer (transfer_id r) g (direction r) (source r) (target r) (expected_bytes r)
    (transferred_bytes r) (started_at r) (conflict_policy r) (state r) (state_revision r)
    (commit_outcome r) (temporary_target r) (target_existed r) (safe_commit_supported r)
    (failure_code r) (cleanup_residual r) (progress_window r) (publish_cancellable r).

Definition set_transferred (n : Z) (started : option Z) (r : TransferRecord) : TransferRecord :=
  mkTransfer (transfer_id r) (generation r) (direction r) (source r) (target r) (expected_bytes r)
    n started (conflict_policy r) (state r) (state_revision r)
    (commit_outcome r) (temporary_target r) (target_existed r) (safe_commit_supported r)
    (failure_code r) (cleanup_residual r) (progress_window r) (publish_cancellable r).

Definition set_revision (revision : Z) (window : option (Z * Z)) (r : TransferRecord) : TransferRecord :=
  mkTransfer (transfer_id r) (generation r) (direction r) (source r) (target r) (expected_bytes r)
    (transferred_bytes r) (started_at r) (conflict_policy r) (state r) revision
    (commit_outcome r) (temporary_target r) (target_existed r) (safe_commit_supported r)
    (failure_code r) (cleanup_residual r) window (publish_cancellable r).

Definition set_outcome (o : SftpTransferCommitOutcome) (r : TransferRecord) : TransferRecord :=
  mkTransfer (transfer_id r) (generation r) (direction r) (source r) (target r) (expected_bytes r)
    (transferred_bytes r) (started_at r) (conflict_policy r) (state r) (state_revision r)
    o (temporary_target r) (target_existed r) (safe_commit_supported r)
    (failure_code r) (cleanup_residual r) (progress_window r) (publish_cancellable r).

Definition set_temporary (t : option TemporaryTarget) (r : TransferRecord) : TransferRecord :=
  mkTransfer (transfer_id r) (generation r) (direction r) (source r) (target r) (expected_bytes r)
    (transferred_bytes r) (started_at r) (conflict_policy r) (state r) (state_revision r)
    (commit_outcome r) t (target_existed r) (safe_commit_supported r)
    (failure_code r) (cleanup_residual r) (progress_window r) (publish_cancellable r).

Definition set_inspected (existed safe : bool) (r : TransferRecord) : TransferRecord :=
  mkTransfer (transfer_id r) (generation r) (direction r) (source r) (target r) (expected_bytes r)
    (transferred_bytes r) (started_at r) (conflict_policy r) (state r) (state_revision r)
    (commit_outcome r) (temporary_target r) existed safe
    (failure_code r) (cleanup_residual r) (progress_window r) (publish_cancellable r).

Definition set_residual (residual : option str) (r : TransferRecord) : TransferRecord :=
  mkTransfer (transfer_id r) (generation r) (direction r) (source r) (target r) (expected_bytes r)
    (transferred_bytes r) (started_at r) (conflict_policy r) (state r) (state_revision r)
    (commit_outcome r) (temporary_target r) (target_existed r) (safe_commit_supported r)
    (failure_code r) residual (progress_window r) (publish_cancellable r).

Definition set_publish_cancellable (b : bool) (r : TransferRecord) : TransferRecord :=
  mkTransfer (transfer_id r) (generation r) (direction r) (source r) (target r) (expected_bytes r)
    (transferred_bytes r) (started_at r) (conflict_policy r) (state r) (state_revision r)
    (commit_outcome r) (temporary_target r) (target_existed r) (safe_commit_supported r)
    (failure_code r) (cleanup_residual r) (progress_window r) b.

Definition transfer_transition (r : TransferRecord) (s : TransferState)
    (failure : option TransferFailureCode) : TransferRecord :=
  mkTransfer (transfer_id r) (generation r) (direction r) (source r) (target r) (expected_bytes r)
    (transferred_bytes r) (started_at r) (conflict_policy r) s (saturating_add (state_revision r) 1)
    (commit_outcome r) (temporary_target r) (target_existed r) (safe_commit_supported r)
    failure (cleanup_residual r) (progress_window r) (publish_cancellable r).

Definition revision_within_progress (expected current : Z) (window : option (Z * Z)) : bool :=
  (expected =? current)
  || match window with
     | Some (start, stop) => (stop =? current) && (start <=? expected) && (expected <=? stop)
     | None => false
     end.

Definition extend_progress_window (window : option (Z * Z)) (before after : Z) : option (Z * Z) :=
  match window with
  | Some (start, stop) => if stop =? before then Some (start, after) else Some (before, after)
  | None => Some (before, after)
  end.

Definition accepts_revision (r : TransferRecord) (expected : Z) : bool :=
  revision_within_progress expected (state_revision r) (progress_window r).

Definition cancellable (r : TransferRecord) : bool :=
  match state r with
  | Committing => publish_cancellable r
  | Completed | Cancelling | Cancelled | Failed => false
  | Queued | Preparing | Transferring | Verifying | PausedByDisconnect => true
  end.

(** ** Operations on the actor *)

Definition AM (A : Type) : Type := SftpSessionActor → sres A * SftpSessionActor.

Definition aret {A} (a : A) : AM A := λ x, (Ok a, x).
Definition afail {A} (e : SftpRuntimeError) : AM A := λ x, (Err e, x).

Definition abind {A B} (m : AM A) (k : A → AM B) : AM B := λ x,
  match m x with
  | (Ok a, x') => k a x'
  | (Err e, x') => (Err e, x')
  | (Panic, x') => (Panic, x')
  end.

Definition alift {A} (r : sres A) : AM A := λ x, (r, x).

#[local] Notation "'let!' x ':=' e 'in' k" := (abind e (fun x => k))
  (at level 10, x pattern, e at level 200, k at level 200).

Definition guard_state (ok : bool) (e : SftpRuntimeError) : AM unit :=
  if ok then aret tt else afail e.

Definition set_summary (s : SftpSessionSummary) (a : SftpSessionActor) : SftpSessionActor :=
  mkActor s (connection_revision_token a) (transfers a).
Definition set_transfers (t : gmap TransferId TransferRecord) (a : SftpSessionActor) : SftpSessionActor :=
  mkActor (summary a) (connection_revision_token a) t.

Definition set_transport (t : option str) (s : SftpSessionSummary) : SftpSessionSummary :=
  mkSummary (session_id s) (host_id s) (parent_ssh_session s) (ses_generation s)
    (ses_state_revision s) (ses_state s) (ses_failure_code s) t (subsystem_id s).
Definition set_subsystem (t : option str) (s : SftpSessionSummary) : SftpSessionSummary :=
  mkSummary (session_id s) (host_id s) (parent_ssh_session s) (ses_generation s)
    (ses_state_revision s) (ses_state s) (ses_failure_code s) (transport_id s) t.
Definition set_ses_generation (g : option SftpGeneration) (s : SftpSessionSummary) : SftpSessionSummary :=
  mkSummary (session_id s) (host_id s) (parent_ssh_session s) g
    (ses_state_revision s) (ses_state s) (ses_failure_code s) (transport_id s) (subsystem_id s).

Definition update_summary (f : SftpSessionSummary → SftpSessionSummary) : AM unit :=
  λ a, (Ok tt, set_summary (f (summary a)) a).

Definition transition (s : SftpSessionState) (failure : option SftpFailureCode) : AM unit :=
  update_summary (λ m,
    mkSummary (session_id m) (host_id m) (parent_ssh_session m) (ses_generation m)
      (saturating_add (ses_state_revision m) 1) s failure (transport_id m) (subsystem_id m)).

Definition require_generation (g : SftpGeneration) : AM unit := λ a,
  if bool_decide (ses_generation (summary a) = Some g) then (Ok tt, a) else (Err StaleGeneration, a).

Definition require_ready (g : SftpGeneration) : AM unit :=
  let! _ := require_generation g in
  λ a, if bool_decide (ses_state (summary a) = Ready) && bool_decide (is_Some (subsystem_id (summary a)))
       then (Ok tt, a) else (Err InvalidState, a).

Definition session_in (states : list SftpSessionState) (a : SftpSessionActor) : bool :=
  bool_decide (ses_state (summary a) ∈ states).

Definition new (sid : SftpSessionId) (host : str) : sres SftpSessionActor :=
  if is_blank host || (MAX_HOST_ID_BYTES <? str_len host) then Err InvalidInput
  else Ok (mkActor (mkSummary sid (Some host) None None 0 Idle None None None) None ∅).

Definition new_on_ssh_session (sid : SftpSessionId) (host : option str)
    (p : SftpParentSshSession) : sres SftpSessionActor :=
  let? a := new sid (default (parent_session_id p) host) in
  let s := summary a in
  Ok (set_summary (mkSummary (session_id s) host (Some p) (ses_generation s) (ses_state_revision s)
                     (ses_state s) (ses_failure_code s) (transport_id s) (subsystem_id s)) a).

(** The text [{target:?}] of a temporary target, from the standard library's
    derived formatting. *)
Class DebugTarget := debug_target : TemporaryTarget → str.

(** The body of the loop of [pause_active_transfers]. *)
Definition pause_transfer `{DebugTarget} (r : TransferRecord) : TransferRecord :=
  match state r with
  | Preparing | Transferring | Verifying =>
      transfer_transition r PausedByDisconnect (Some TransportLost)
  | Committing =>
      transfer_transition (set_outcome Uncertain r) Failed (Some CommitOutcomeUncertain)
  | Cancelling =>
      transfer_transition
        (set_residual ((λ t, lit "cleanup outcome unknown for " ++ debug_target t)
                         <$> temporary_target r) r)
        Failed (Some FCleanupIncomplete)
  | _ => r
  end.

Definition pause_active_transfers `{DebugTarget} : AM unit := λ a,
  (Ok tt, set_transfers (pause_transfer <$> transfers a) a).

Definition start `{DebugTarget} (token : str) : AM SftpGeneration := λ a,
  (let! _ := guard_state (negb (session_in [Connecting; VerifyingHostKey; Authenticating;
                                            OpeningSubsystem; Ready; Disconnecting] a)) InvalidState in
   let! _ := guard_state (negb (is_blank token || (MAX_ID_BYTES * 8 <? str_len token))) InvalidInput in
   let next := match ses_generation (summary a) with Some g => saturating_add g 1 | None => 1 end in
   let! g := alift (new_generation next) in
   let! _ := pause_active_transfers in
   let! _ := update_summary (λ s, set_subsystem None (set_transport None (set_ses_generation (Some g) s))) in
   let! _ := (λ a, (Ok tt, mkActor (summary a) (Some token) (transfers a))) in
   let! _ := transition Connecting None in
   aret g) a.

Definition authenticated_transport_ready (g : SftpGeneration) (tid : str) : AM unit :=
  let! _ := require_generation g in
  λ a, (let! _ := guard_state (session_in [Connecting; Authenticating] a) InvalidState in
        let! tid := alift (bounded_id tid) in
        let! _ := update_summary (set_transport (Some tid)) in
        transition OpeningSubsystem None) a.

Definition subsystem_opened (g : SftpGeneration) (sid : str) : AM unit :=
  let! _ := require_generation g in
  λ a, (let! _ := guard_state (session_in [OpeningSubsystem] a
                                && bool_decide (is_Some (transport_id (summary a)))) InvalidState in
        let! sid := alift (bounded_id sid) in
        let! _ := update_summary (set_subsystem (Some sid)) in
        transition Ready None) a.

Definition disconnect `{DebugTarget} (g : SftpGeneration) : AM unit :=
  let! _ := require_generation g in
  let! _ := pause_active_transfers in
  transition Disconnecting None.

Definition closed (g : SftpGeneration) : AM unit :=
  let! _ := require_generation g in
  λ a, (let! _ := guard_state (session_in [Disconnecting] a) InvalidState in
        let! _ := update_summary (λ s, set_subsystem None (set_transport None s)) in
        transition Closed None) a.

Definition transport_lost `{DebugTarget} (g : SftpGeneration) : AM unit :=
  let! _ := require_generation g in
  let! _ := update_summary (λ s, set_subsystem None (set_transport None s)) in
  let! _ := pause_active_transfers in
  transition SessionFailed (Some SessionTransportLost).

Definition connection_failed `{DebugTarget} (g : SftpGeneration) (failure : SftpFailureCode) : AM unit :=
  let! _ := require_generation g in
  λ a, (let! _ := guard_state (session_in [Connecting; VerifyingHostKey; Authenticating;
                                           NeedsAuthentication; OpeningSubsystem] a) InvalidState in
        let! _ := update_summary (λ s, set_subsystem None (set_transport None s)) in
        let! _ := pause_active_transfers in
        transition SessionFailed (Some failure)) a.

(** *** Plans for one file operation: they read the actor and leave it alone *)

Definition directory_listing (op : OperationFence) (g : SftpGeneration) (path : RemotePath)
    (cursor : option (list Z)) (page_size : Z) : AM DirectoryListingPlan :=
  let! _ := require_ready g in
  let! _ := guard_state (negb ((page_size =? 0) || (MAX_DIRECTORY_PAGE_SIZE <? page_size))) InvalidInput in
  let! _ := guard_state (negb (match cursor with Some c => 1024 <? zlen c | None => false end)) InvalidInput in
  aret (mkListing op g path cursor page_size).

Definition mkdir (op : OperationFence) (g : SftpGeneration) (path : RemotePath) : AM FileMutationPlan :=
  let! _ := require_ready g in
  aret (CreateDirectory op g path).

Definition create_empty_file (op : OperationFence) (g : SftpGeneration) (path : RemotePath)
  : AM FileMutationPlan :=
  let! _ := require_ready g in
  aret (CreateEmptyFile op g path).

Definition write_text (op : OperationFence) (g : SftpGeneration) (path : RemotePath)
    (precondition : RemoteObjectPrecondition) (text : str) : AM FileMutationPlan :=
  let! _ := require_ready g in
  let bytes := utf8_encode text in
  let! _ := guard_state (negb ((MAX_TEXT_PREVIEW_BYTES <? zlen bytes) || has_nul bytes)) InvalidInput in
  let! _ := guard_state (bool_decide (pre_kind precondition = EntryFile)) InvalidInput in
  aret (WriteText op g path precondition bytes).

Definition rename (op : OperationFence) (g : SftpGeneration) (source target : RemotePath)
    (source_precondition : RemoteObjectPrecondition) : AM FileMutationPlan :=
  let! _ := require_ready g in
  let! _ := guard_state (negb (bool_decide (source = target))) InvalidInput in
  aret (RenameNoReplace op g source target source_precondition).

Definition delete_plan (op : OperationFence) (g : SftpGeneration) (path : RemotePath) (kind : DeleteKind)
    (precondition : RemoteObjectPrecondition) (irreversible_confirmed : bool) : AM FileMutationPlan :=
  let! _ := require_ready g in
  let! _ := guard_state irreversible_confirmed InvalidState in
  aret (DeleteConfirmed op g path kind precondition).

Definition file_or_directory (k : RemoteEntryKind) : bool :=
  bool_decide (k ∈ [EntryFile; EntryDirectory]).

Definition set_permissions (op : OperationFence) (g : SftpGeneration) (path : RemotePath)
    (precondition : RemoteObjectPrecondition) (expected_permission_bits mode : Z) : AM FileMutationPlan :=
  let! _ := require_ready g in
  let! _ := guard_state (negb (negb (file_or_directory (pre_kind precondition)) || (511 <? mode)))
              InvalidInput in
  aret (SetPermissions op g path precondition expected_permission_bits mode).

Definition create_zip (op : OperationFence) (g : SftpGeneration) (sources : list ArchiveSourcePlan)
    (target : RemotePath) : AM FileMutationPlan :=
  let! _ := require_ready g in
  let! _ := guard_state (negb (bool_decide (sources = []) || (MAX_ARCHIVE_ENTRIES <? zlen sources)))
              InvalidInput in
  let! _ := alift (rfold (λ names s,
      let? _ := validate_archive_name (archive_name s) in
      if bool_decide (archive_name s ∈ names) || negb (file_or_directory (pre_kind (arc_precondition s)))
      then Err InvalidInput else Ok (archive_name s :: names)) [] sources) in
  aret (CreateZip op g sources target).

Definition extract_zip (op : OperationFence) (g : SftpGeneration) (source : RemotePath)
    (source_precondition : RemoteObjectPrecondition) (target_directory : RemotePath)
  : AM FileMutationPlan :=
  let! _ := require_ready g in
  let! _ := guard_state (negb (negb (bool_decide (pre_kind source_precondition = EntryFile))
                               || bool_decide (source = target_directory))) InvalidInput in
  aret (ExtractZip op g source source_precondition target_directory).

Definition download_url (op : OperationFence) (g : SftpGeneration) (url : str) (target : RemotePath)
  : AM FileMutationPlan :=
  let! _ := require_ready g in
  let! _ := guard_state (negb ((4096 <? str_len url) || has_nul url)) InvalidInput in
  aret (DownloadUrl op g url target).

(** *** Transfers *)

(** An operation on one record: [f] answers and gives the record after it. *)
Definition on_transfer {A} (id : TransferId) (f : TransferRecord → sres A * TransferRecord) : AM A := λ a,
  match transfers a !! id with
  | None => (Err InvalidInput, a)
  | Some r => let '(x, r') := f r in (x, set_transfers (<[id := r']> (transfers a)) a)
  end.

(** [transfer_mut]: the record, when the fact is of its generation. *)
Definition transfer_mut {A} (id : TransferId) (g : SftpGeneration)
    (f : TransferRecord → sres A * TransferRecord) : AM A :=
  on_transfer id (λ r, if generation r =? g then f r else (Err StaleGeneration, r)).

Definition state_in (states : list TransferState) (r : TransferRecord) : bool :=
  bool_decide (state r ∈ states).

Definition enqueue_transfer (id : TransferId) (g : SftpGeneration) (d : TransferDirection)
    (src tgt : TransferEndpoint) (expected : Z) (policy : ConflictPolicy) : AM TransferRecord :=
  let! _ := require_ready g in
  let! _ := alift (validate_endpoint src) in
  let! _ := alift (validate_endpoint tgt) in
  λ a,
    let fits := match d, src, tgt with
                | Upload, LocalToken _, Remote _ => true
                | Download, Remote _, LocalToken _ => true
                | _, _, _ => false
                end in
    if bool_decide (is_Some (transfers a !! id)) || negb fits then (Err InvalidInput, a)
    else
      let r := mkTransfer id g d src tgt expected 0 None policy Queued 1 NotCommitted None false false
                 None None None false in
      (Ok r, set_transfers (<[id := r]> (transfers a)) a).

Definition plan_of (r : TransferRecord) (g : SftpGeneration) (resume : Z) : TransferPlan :=
  mkPlan (transfer_id r) g (direction r) (source r) (target r) (conflict_policy r) (expected_bytes r)
    true resume.

Definition begin_transfer (now : Z) (id : TransferId) (g : SftpGeneration) : AM TransferPlan :=
  let! _ := require_ready g in
  transfer_mut id g (λ r,
    if negb (state_in [Queued] r) then (Err InvalidState, r)
    else
      let r := transfer_transition r Preparing None in
      let r := set_transferred (transferred_bytes r) (Some now) r in
      (Ok (plan_of r g 0), r)).

Definition rebind_queued_transfer (id : TransferId) (g : SftpGeneration) : AM unit :=
  let! _ := require_ready g in
  on_transfer id (λ r,
    if negb (state_in [Queued] r) then (Err InvalidState, r)
    else if generation r =? g then (Ok tt, r)
    else
      let r := set_generation g r in
      (Ok tt, set_revision (saturating_add (state_revision r) 1) (progress_window r) r)).

Definition transfer_prepared (id : TransferId) (g : SftpGeneration) (temp : TemporaryTarget)
    (existed safe : bool) : AM unit :=
  transfer_mut id g (λ r,
    if negb (state_in [Preparing] r) then (Err InvalidState, r)
    else match validate_for temp (target r) with
    | Ok _ =>
        let r := set_inspected existed safe (set_temporary (Some temp) r) in
        if existed && bool_decide (conflict_policy r = FailIfExists)
        then (Err Conflict, transfer_transition r Failed (Some TargetExists))
        else if existed && bool_decide (conflict_policy r = ReplaceSafely) && negb safe
        then (Err UnsafeReplaceUnsupported, transfer_transition r Failed (Some FUnsafeReplaceUnsupported))
        else (Ok tt, transfer_transition r Transferring None)
    | Err e => (Err e, r)
    | Panic => (Panic, r)
    end).

Definition record_progress (id : TransferId) (g : SftpGeneration) (bytes : Z) : AM unit :=
  transfer_mut id g (λ r,
    if negb (state_in [Transferring] r) || (bytes <? transferred_bytes r) || (expected_bytes r <? bytes)
    then (Err ProgressRegression, r)
    else
      let r := set_transferred bytes (started_at r) r in
      let before := state_revision r in
      let after := saturating_add before 1 in
      (Ok tt, set_revision after (extend_progress_window (progress_window r) before after) r)).

Definition mark_publish_cancellable (id : TransferId) (g : SftpGeneration) : AM unit :=
  transfer_mut id g (λ r,
    if negb (state_in [Committing] r) then (Err InvalidState, r)
    else (Ok tt, set_publish_cancellable true r)).

Definition begin_verification (id : TransferId) (g : SftpGeneration) (observed : Z) : AM unit :=
  transfer_mut id g (λ r,
    if negb (state_in [Transferring] r) then (Err InvalidState, r)
    else if negb (transferred_bytes r =? expected_bytes r) || negb (observed =? expected_bytes r)
    then (Err LengthMismatch, transfer_transition r Failed (Some FLengthMismatch))
    else (Ok tt, transfer_transition r Verifying None)).

Definition begin_commit (id : TransferId) (g : SftpGeneration) : AM unit :=
  transfer_mut id g (λ r,
    if negb (state_in [Verifying] r) || bool_decide (temporary_target r = None)
    then (Err InvalidState, r)
    else (Ok tt, transfer_transition r Committing None)).

Definition complete_transfer (id : TransferId) (g : SftpGeneration) (facts : CommitFacts) : AM unit :=
  transfer_mut id g (λ r,
    if negb (state_in [Committing] r) then (Err InvalidState, r)
    else
      let atomic_commit_proven :=
        if target_existed r
        then bool_decide (conflict_policy r = ReplaceSafely) && atomic_replace facts
        else atomic_no_replace facts in
      if negb (final_length facts =? expected_bytes r)
      then (Err LengthMismatch, transfer_transition r Failed (Some FLengthMismatch))
      else if negb atomic_commit_proven
      then (Err UnsafeReplaceUnsupported, transfer_transition r Failed (Some FUnsafeReplaceUnsupported))
      else (Ok tt, transfer_transition (set_outcome Committed (set_temporary None r)) Completed None)).

Definition begin_cancel (id : TransferId) (g : SftpGeneration) : AM unit :=
  transfer_mut id g (λ r,
    let committing_locked := state_in [Committing] r && negb (publish_cancellable r) in
    if committing_locked || state_in [Completed; Cancelled; Cancelling] r
    then (Err InvalidState, r)
    else (Ok tt, transfer_transition r Cancelling None)).

(** What a failure says of the commit, and the state it leads to. *)
Definition failure_outcome (f : TransferFailureCode) : SftpTransferCommitOutcome :=
  if bool_decide (f = CommitOutcomeUncertain) then Uncertain else NotCommitted.
Definition failure_state (f : TransferFailureCode) : TransferState :=
  if bool_decide (f = TransportLost) then PausedByDisconnect else Failed.

Definition fail_transfer (id : TransferId) (g : SftpGeneration) (f : TransferFailureCode) : AM unit :=
  transfer_mut id g (λ r,
    if state_in [Completed; Cancelled; Failed] r then (Err InvalidState, r)
    else (Ok tt, transfer_transition (set_outcome (failure_outcome f) r) (failure_state f) (Some f))).

(** The record loses its temporary target and what was left of it. *)
Definition clear_temporary (r : TransferRecord) : TransferRecord :=
  set_residual None (set_temporary None r).

Definition fail_transfer_after_cleanup (id : TransferId) (g : SftpGeneration)
    (f : TransferFailureCode) (cleanup : CleanupOutcome) : AM unit :=
  transfer_mut id g (λ r,
    if state_in [Completed; Cancelled; Failed] r then (Err InvalidState, r)
    else
      let r := set_outcome (failure_outcome f) r in
      match cleanup with
      | Cleaned => (Ok tt, transfer_transition (clear_temporary r) (failure_state f) (Some f))
      | Residual location =>
          match bounded_label location with
          | Ok l => (Ok tt, transfer_transition (set_residual (Some l) r)
                              (failure_state FCleanupIncomplete) (Some FCleanupIncomplete))
          | Err e => (Err e, r)
          | Panic => (Panic, r)
          end
      end).

(** A cleanup that left something behind: the record fails with [answer]. *)
Definition keep_residual {A} (answer : sres A) (location : str) (r : TransferRecord)
  : sres A * TransferRecord :=
  match bounded_label location with
  | Ok l => (answer, transfer_transition (set_residual (Some l) r) Failed (Some FCleanupIncomplete))
  | Err e => (Err e, r)
  | Panic => (Panic, r)
  end.

Definition finish_cancel (id : TransferId) (g : SftpGeneration) (cleanup : CleanupOutcome) : AM unit :=
  transfer_mut id g (λ r,
    if negb (state_in [Cancelling] r) then (Err InvalidState, r)
    else match cleanup with
    | Cleaned => (Ok tt, transfer_transition (clear_temporary r) Cancelled None)
    | Residual location => keep_residual (Err CleanupIncomplete) location r
    end).

Definition resolve_cleanup_residual (id : TransferId) (g : SftpGeneration) : AM unit :=
  transfer_mut id g (λ r,
    if negb (state_in [Failed] r) || negb (bool_decide (failure_code r = Some FCleanupIncomplete))
       || bool_decide (cleanup_residual r = None) || bool_decide (commit_outcome r = Uncertain)
    then (Err InvalidState, r)
    else (Ok tt, transfer_transition (clear_temporary r) Cancelled None)).

Definition resume_transfer (id : TransferId) (g : SftpGeneration) (ev : ResumeEvidence) : AM unit :=
  let! _ := require_ready g in
  on_transfer id (λ r,
    if negb (state_in [PausedByDisconnect] r)
       || negb (bool_decide (temporary_target r = Some (ev_temporary_target ev)))
       || negb (prefix_checksum_verified ev)
       || negb (verified_length ev =? transferred_bytes r)
       || (expected_bytes r <? verified_length ev)
    then (Err ResumeEvidenceMismatch, r)
    else (Ok tt, transfer_transition (set_generation g r) Transferring None)).

Definition resumed_transfer_plan (id : TransferId) (g : SftpGeneration) : AM TransferPlan :=
  let! _ := require_ready g in
  on_transfer id (λ r,
    if negb (generation r =? g) || negb (state_in [Transferring] r) || (transferred_bytes r =? 0)
       || bool_decide (temporary_target r = None)
    then (Err InvalidState, r)
    else (Ok (plan_of r g (transferred_bytes r)), r)).

Definition resume_verification_failed (id : TransferId) (cleanup : CleanupOutcome) : AM unit :=
  on_transfer id (λ r,
    if negb (state_in [PausedByDisconnect] r) then (Err InvalidState, r)
    else match cleanup with
    | Cleaned => (Ok tt, transfer_transition (clear_temporary r) Failed (Some FLengthMismatch))
    | Residual location => keep_residual (Ok tt) location r
    end).

Definition restart_transfer (id : TransferId) (g : SftpGeneration) (cleanup : CleanupOutcome) : AM unit :=
  let! _ := require_ready g in
  on_transfer id (λ r,
    if negb (state_in [Failed; PausedByDisconnect] r) || bool_decide (commit_outcome r = Uncertain)
    then (Err InvalidState, r)
    else match cleanup with
    | Residual location => keep_residual (Err CleanupIncomplete) location r
    | Cleaned =>
        let r := set_inspected false false (clear_temporary (set_transferred 0 None (set_generation g r))) in
        (Ok tt, transfer_transition (set_outcome NotCommitted r) Queued None)
    end).

End Sftp.
