(* ===== verification/SftpTransfers.v ===== *)
(** * What holds of an SFTP session and its transfers

    The invariant of [SftpActor], kept by every operation of the actor in any
    order; the revisions an action may be fenced on; the fate of a commit whose
    outcome is unknown. *)

From S2P Require Import Prelude RustStr SftpActor.

Module Transfers.
Import Sftp.

(** ** The operations of the actor as steps *)

Inductive Op :=
| OStart (token : str)
| OTransportReady (g : SftpGeneration) (tid : str)
| OSubsystemOpened (g : SftpGeneration) (sid : str)
| ODisconnect (g : SftpGeneration)
| OClosed (g : SftpGeneration)
| OTransportLost (g : SftpGeneration)
| OConnectionFailed (g : SftpGeneration) (f : SftpFailureCode)
| OEnqueue (id : TransferId) (g : SftpGeneration) (d : TransferDirection) (src tgt : TransferEndpoint)
    (expected : Z) (policy : ConflictPolicy)
| OBegin (now : Z) (id : TransferId) (g : SftpGeneration)
| ORebind (id : TransferId) (g : SftpGeneration)
| OPrepared (id : TransferId) (g : SftpGeneration) (temp : TemporaryTarget) (existed safe : bool)
| OProgress (id : TransferId) (g : SftpGeneration) (bytes : Z)
| OMarkPublish (id : TransferId) (g : SftpGeneration)
| OVerify (id : TransferId) (g : SftpGeneration) (observed : Z)
| OCommit (id : TransferId) (g : SftpGeneration)
| OComplete (id : TransferId) (g : SftpGeneration) (facts : CommitFacts)
| OCancel (id : TransferId) (g : SftpGeneration)
| OFail (id : TransferId) (g : SftpGeneration) (f : TransferFailureCode)
| OFailCleanup (id : TransferId) (g : SftpGeneration) (f : TransferFailureCode) (c : CleanupOutcome)
| OFinishCancel (id : TransferId) (g : SftpGeneration) (c : CleanupOutcome)
| OResolve (id : TransferId) (g : SftpGeneration)
| OResume (id : TransferId) (g : SftpGeneration) (ev : ResumeEvidence)
| OResumeFailed (id : TransferId) (c : CleanupOutcome)
| ORestart (id : TransferId) (g : SftpGeneration) (c : CleanupOutcome).

Definition void {A} (m : AM A) : SftpSessionActor → SftpSessionActor := λ a, (m a).2.

Definition step `{DebugTarget} (op : Op) : SftpSessionActor → SftpSessionActor :=
  match op with
  | OStart token => void (start token)
  | OTransportReady g tid => void (authenticated_transport_ready g tid)
  | OSubsystemOpened g sid => void (subsystem_opened g sid)
  | ODisconnect g => void (disconnect g)
  | OClosed g => void (closed g)
  | OTransportLost g => void (transport_lost g)
  | OConnectionFailed g f => void (connection_failed g f)
  | OEnqueue id g d src tgt expected policy => void (enqueue_transfer id g d src tgt expected policy)
  | OBegin now id g => void (begin_transfer now id g)
  | ORebind id g => void (rebind_queued_transfer id g)
  | OPrepared id g temp existed safe => void (transfer_prepared id g temp existed safe)
  | OProgress id g bytes => void (record_progress id g bytes)
  | OMarkPublish id g => void (mark_publish_cancellable id g)
  | OVerify id g observed => void (begin_verification id g observed)
  | OCommit id g => void (begin_commit id g)
  | OComplete id g facts => void (complete_transfer id g facts)
  | OCancel id g => void (begin_cancel id g)
  | OFail id g f => void (fail_transfer id g f)
  | OFailCleanup id g f c => void (fail_transfer_after_cleanup id g f c)
  | OFinishCancel id g c => void (finish_cancel id g c)
  | OResolve id g => void (resolve_cleanup_residual id g)
  | OResume id g ev => void (resume_transfer id g ev)
  | OResumeFailed id c => void (resume_verification_failed id c)
  | ORestart id g c => void (restart_transfer id g c)
  end.

Definition run `{DebugTarget} (ops : list Op) (a : SftpSessionActor) : SftpSessionActor :=
  foldl (λ a op, step op a) a ops.

(** What the callers respect: lengths are of a [u64], and the name of what a
    cleanup left behind fits a label. *)
Definition label_ok (c : CleanupOutcome) : Prop :=
  match c with Cleaned => True | Residual l => bounded_label l = Ok l end.

Definition op_ok (op : Op) : Prop :=
  match op with
  | OEnqueue _ _ _ _ _ expected _ => 0 ≤ expected
  | OFailCleanup _ _ _ c | OFinishCancel _ _ c | OResumeFailed _ c | ORestart _ _ c => label_ok c
  | _ => True
  end.

(** ** The invariant *)

(** A transfer is being carried out; its temporary target is being written; all
    its bytes are there; it has stopped. *)
Definition running (s : TransferState) : bool :=
  match s with Preparing | Transferring | Verifying | Committing => true | _ => false end.
Definition writing (s : TransferState) : bool :=
  match s with Transferring | Verifying | Committing => true | _ => false end.
Definition checked (s : TransferState) : bool :=
  match s with Verifying | Committing | Completed => true | _ => false end.
Definition stopped (s : TransferState) : bool :=
  match s with Failed | Cancelling | Cancelled => true | _ => false end.

Definition failure_fits (s : TransferState) (f : option TransferFailureCode) : Prop :=
  match s with
  | Failed => is_Some f
  | PausedByDisconnect => f = Some TransportLost
  | _ => f = None
  end.

Definition endpoints_fit (r : TransferRecord) : Prop :=
  match direction r, source r, target r with
  | Upload, LocalToken _, Remote _ | Download, Remote _, LocalToken _ => True
  | _, _, _ => False
  end.

(** What does not depend on the state of a transfer. *)
Record base_ok (s : SftpSessionSummary) (id : TransferId) (r : TransferRecord) : Prop := {
  ok_id : transfer_id r = id;
  ok_endpoints : endpoints_fit r;
  ok_generation : 1 ≤ generation r ∧ ∃ g, ses_generation s = Some g ∧ generation r ≤ g;
  ok_bytes : 0 ≤ transferred_bytes r ≤ expected_bytes r;
  ok_temporary : ∀ t, temporary_target r = Some t → validate_for t (target r) = Ok tt;
  ok_revision : 1 ≤ state_revision r ≤ u64_max;
  ok_window : ∀ b e, progress_window r = Some (b, e) → 1 ≤ b ≤ e ∧ e ≤ state_revision r }.

(** What the state of a transfer says. *)
Record state_ok (s : SftpSessionSummary) (r : TransferRecord) : Prop := {
  ok_running : running (state r) = true → ses_state s = Ready ∧ ses_generation s = Some (generation r);
  ok_checked : checked (state r) = true → transferred_bytes r = expected_bytes r;
  ok_writing : writing (state r) = true → temporary_target r ≠ None;
  ok_committed : state r = Completed ↔ commit_outcome r = Committed;
  ok_replaced : state r = Completed → target_existed r = true → conflict_policy r = ReplaceSafely;
  ok_uncertain : commit_outcome r = Uncertain → stopped (state r) = true;
  ok_failure : failure_fits (state r) (failure_code r) }.

Definition record_ok (s : SftpSessionSummary) (id : TransferId) (r : TransferRecord) : Prop :=
  base_ok s id r ∧ state_ok s r.

Record session_ok (s : SftpSessionSummary) : Prop := {
  ok_ses_generation : ∀ g, ses_generation s = Some g → 1 ≤ g ≤ u64_max;
  ok_opening : ses_state s ∈ [OpeningSubsystem; Ready] → transport_id s ≠ None ∧ ses_generation s ≠ None;
  ok_ready : ses_state s = Ready → subsystem_id s ≠ None }.

Record actor_ok (a : SftpSessionActor) : Prop := {
  ok_session : session_ok (summary a);
  ok_transfers : map_Forall (record_ok (summary a)) (transfers a) }.

(** ** Tactics *)

Ltac unfold_monad :=
  unfold void, abind, alift, aret, afail, guard_state, update_summary, transition in *;
  cbn [fst snd] in *.

(** The tests of the code, one case each. *)
Ltac split_tests :=
  repeat match goal with
  | |- context [if ?c then _ else _] => let E := fresh "E" in destruct c eqn:E; cbn [fst snd]
  end.

Lemma state_in_true r l : state_in l r = true ↔ state r ∈ l.
Proof. unfold state_in. apply bool_decide_eq_true. Qed.

Lemma state_in_false r l : state_in l r = false ↔ state r ∉ l.
Proof. unfold state_in. apply bool_decide_eq_false. Qed.

Lemma session_in_true l a : session_in l a = true ↔ ses_state (summary a) ∈ l.
Proof. unfold session_in. apply bool_decide_eq_true. Qed.

Lemma session_in_false l a : session_in l a = false ↔ ses_state (summary a) ∉ l.
Proof. unfold session_in. apply bool_decide_eq_false. Qed.

Ltac tests :=
  bprop;
  repeat match goal with
  | H : state_in _ _ = true |- _ => apply state_in_true in H
  | H : state_in _ _ = false |- _ => apply state_in_false in H
  | H : session_in _ _ = true |- _ => apply session_in_true in H
  | H : session_in _ _ = false |- _ => apply session_in_false in H
  | H : _ || _ = true |- _ => apply orb_true_iff in H
  | H : _ && _ = false |- _ => apply andb_false_iff in H
  end; bprop;
  repeat match goal with H : _ ∈ [_] |- _ => apply list_elem_of_singleton in H end.

(** ** One record *)

Lemma saturating_step r : 1 ≤ r ≤ u64_max → 1 ≤ saturating_add r 1 ≤ u64_max ∧ r ≤ saturating_add r 1.
Proof. unfold saturating_add, u64_max. lia. Qed.

Ltac record_fields :=
  cbn [transfer_id generation direction source target expected_bytes transferred_bytes
    started_at conflict_policy state state_revision commit_outcome temporary_target target_existed
    safe_commit_supported failure_code cleanup_residual progress_window publish_cancellable
    transfer_transition set_generation set_transferred set_revision set_outcome set_temporary
    set_inspected set_residual set_publish_cancellable clear_temporary endpoints_fit
    failure_fits running writing checked stopped] in *.

(** The setters keep what does not depend on the state. *)
Lemma base_transition s id r st f : base_ok s id r → base_ok s id (transfer_transition r st f).
Proof.
  intros []. pose proof (saturating_step _ ok_revision0) as [? ?].
  constructor; record_fields; auto. intros b e He. specialize (ok_window0 b e He). lia.
Qed.

Lemma base_outcome s id r o : base_ok s id r → base_ok s id (set_outcome o r).
Proof. by intros []. Qed.

Lemma base_residual s id r l : base_ok s id r → base_ok s id (set_residual l r).
Proof. by intros []. Qed.

Lemma base_inspected s id r b1 b2 : base_ok s id r → base_ok s id (set_inspected b1 b2 r).
Proof. by intros []. Qed.

Lemma base_clear s id r : base_ok s id r → base_ok s id (clear_temporary r).
Proof. by intros []. Qed.

Lemma base_temporary s id r t :
  base_ok s id r → validate_for t (target r) = Ok tt → base_ok s id (set_temporary (Some t) r).
Proof. intros [] Ht. constructor; record_fields; auto. by intros t' [= <-]. Qed.

Lemma base_transferred s id r n started :
  base_ok s id r → 0 ≤ n ≤ expected_bytes r → base_ok s id (set_transferred n started r).
Proof. by intros []. Qed.

Lemma base_generation s id r g :
  base_ok s id r → ses_generation s = Some g → base_ok s id (set_generation g r).
Proof.
  intros [] Hg. constructor; record_fields; auto.
  destruct ok_generation0 as (? & g' & Hg' & ?). split; [|exists g]; simplify_eq; lia || done.
Qed.

Create HintDb sftp.
#[export] Hint Resolve base_transition base_outcome base_residual base_inspected base_clear
  base_temporary base_transferred base_generation : sftp.

(** A transfer that is not carried out any more, or not yet. *)
Definition settled (s : TransferState) : bool := negb (running s) && negb (checked s).

Lemma settled_ok s id r st f :
  base_ok s id r → commit_outcome r ≠ Committed → settled st = true → failure_fits st f →
  (commit_outcome r = Uncertain → stopped st = true) →
  record_ok s id (transfer_transition r st f).
Proof.
  intros Hb Ho Hst Hf Hu. split; [by apply base_transition|].
  constructor; record_fields; try assumption; by destruct st.
Qed.

Lemma not_committed s r : state_ok s r → state r ≠ Completed → commit_outcome r ≠ Committed.
Proof. intros [] ? ?. tauto. Qed.

Lemma failure_outcome_not_committed f : failure_outcome f ≠ Committed.
Proof. unfold failure_outcome. by destruct (bool_decide _). Qed.

Lemma failure_state_settled f : settled (failure_state f) = true.
Proof. unfold failure_state. by destruct (bool_decide _). Qed.

Lemma failure_state_fits f : failure_fits (failure_state f) (Some f).
Proof. unfold failure_state. destruct (bool_decide _) eqn:E; bprop; [by subst|by eexists]. Qed.

Lemma failed_fits f : failure_fits Failed (Some f).
Proof. by eexists. Qed.

Lemma failure_uncertain_stopped f : failure_outcome f = Uncertain → stopped (failure_state f) = true.
Proof.
  unfold failure_outcome, failure_state. destruct (bool_decide (f = CommitOutcomeUncertain)) eqn:E; [|done].
  bprop. by subst.
Qed.

#[export] Hint Resolve failed_fits not_committed failure_outcome_not_committed failure_state_settled
  failure_state_fits failure_uncertain_stopped : sftp.

Lemma keep_residual_ok {A} s id r (answer : sres A) l :
  record_ok s id r → state r ≠ Completed → record_ok s id (keep_residual answer l r).2.
Proof.
  intros [Hb Hs] Hc. unfold keep_residual. destruct (bounded_label l); cbn [snd]; [|done|done].
  apply settled_ok; record_fields; eauto with sftp.
Qed.

Lemma clear_ok s id r st f :
  record_ok s id r → state r ≠ Completed → settled st = true → failure_fits st f →
  (commit_outcome r = Uncertain → stopped st = true) →
  record_ok s id (transfer_transition (clear_temporary r) st f).
Proof. intros [Hb Hs] Hc Hst Hf Hu. apply settled_ok; record_fields; eauto with sftp. Qed.

(** ** The operations on one record *)

Lemma on_transfer_ok {A} id (f : TransferRecord → sres A * TransferRecord) a :
  actor_ok a →
  (∀ r, record_ok (summary a) id r → record_ok (summary a) id (f r).2) →
  actor_ok (void (on_transfer id f) a).
Proof.
  intros [Hs Ht] Hf. unfold void, on_transfer.
  destruct (transfers a !! id) as [r|] eqn:E; [|by constructor].
  specialize (Hf r (Ht _ _ E)). destruct (f r) as [x r']. cbn [snd] in *.
  constructor; [done|]. cbn. by apply map_Forall_insert_2.
Qed.

Lemma transfer_mut_ok {A} id g (f : TransferRecord → sres A * TransferRecord) a :
  actor_ok a →
  (∀ r, record_ok (summary a) id r → generation r = g → record_ok (summary a) id (f r).2) →
  actor_ok (void (transfer_mut id g f) a).
Proof.
  intros Ha Hf. apply on_transfer_ok; [done|]. intros r Hr. destruct (_ =? _) eqn:E; [|done].
  bprop. by apply Hf.
Qed.

Definition ready (g : SftpGeneration) (s : SftpSessionSummary) : Prop :=
  ses_generation s = Some g ∧ ses_state s = Ready.

Lemma require_ready_ok {A} g (k : AM A) a :
  actor_ok a → (ready g (summary a) → actor_ok (void k a)) →
  actor_ok (void (abind (require_ready g) (λ _, k)) a).
Proof.
  intros Ha Hk. unfold require_ready, require_generation, abind, void in *.
  split_tests; [|done|done]. tests. by apply Hk.
Qed.

Lemma rebind_ok a id g : actor_ok a → actor_ok (void (rebind_queued_transfer id g) a).
Proof.
  intros Ha. apply require_ready_ok; [done|]. intros [Hg Hr]. apply on_transfer_ok; [done|].
  intros r [Hb Hs]. split_tests; [done|done|]. tests.
  rename select (state r = _) into Es.
  assert (base_ok (summary a) id (set_generation g r)) as [] by eauto with sftp.
  pose proof (saturating_step _ ok_revision0) as [? ?]. split.
  - constructor; record_fields; auto. intros b e He. specialize (ok_window0 b e He). lia.
  - destruct Hs. constructor; record_fields; rewrite Es in *; auto.
Qed.

Lemma begin_ok a now id g : actor_ok a → actor_ok (void (begin_transfer now id g) a).
Proof.
  intros Ha. apply require_ready_ok; [done|]. intros [Hg Hr]. apply transfer_mut_ok; [done|].
  intros r [Hb Hs] <-. split_tests; [done|]. tests.
  rename select (state r = _) into Es. split.
  - apply base_transferred; [by apply base_transition|]. by destruct Hb.
  - destruct Hs. rewrite Es in *. constructor; record_fields; naive_solver.
Qed.

Lemma prepared_ok a id g temp existed safe :
  actor_ok a → actor_ok (void (transfer_prepared id g temp existed safe) a).
Proof.
  intros Ha. apply transfer_mut_ok; [done|]. intros r [Hb Hs] <-.
  destruct (negb _) eqn:E; [done|]. tests.
  rename select (state r = _) into Es.
  destruct (validate_for _ _) as [[]| |] eqn:Ev; cbn [snd]; [|done|done].
  assert (commit_outcome r = NotCommitted) as Ho.
  { destruct Hs. rewrite Es in *. destruct (commit_outcome r); naive_solver. }
  split_tests; [apply settled_ok; record_fields; rewrite ?Ho; eauto 6 with sftp; done..|].
  split; [eauto 6 with sftp|]. destruct Hs. rewrite Es in *.
  constructor; record_fields; rewrite ?Ho; naive_solver.
Qed.

Lemma extend_window_ok window before after b e :
  (∀ b e, window = Some (b, e) → 1 ≤ b ≤ e ∧ e ≤ before) → 1 ≤ before ≤ after →
  extend_progress_window window before after = Some (b, e) → 1 ≤ b ≤ e ∧ e ≤ after.
Proof.
  intros Hw Hr. unfold extend_progress_window. destruct window as [[b' e']|].
  - specialize (Hw b' e' eq_refl). destruct (_ =? _) eqn:E; intros [= <- <-]; bprop; lia.
  - intros [= <- <-]; lia.
Qed.

Lemma progress_ok a id g n : actor_ok a → actor_ok (void (record_progress id g n) a).
Proof.
  intros Ha. apply transfer_mut_ok; [done|]. intros r [Hb Hs] <-. split_tests; [done|]. tests.
  rename select (state r = _) into Es. pose proof Hb as Hb'. destruct Hb'.
  pose proof (saturating_step _ ok_revision0) as [? ?]. split.
  - constructor; record_fields; auto; [lia|]. intros b e. eapply extend_window_ok; [done|lia].
  - destruct Hs. rewrite Es in *. constructor; record_fields; rewrite ?Es; naive_solver.
Qed.

Lemma mark_publish_ok a id g : actor_ok a → actor_ok (void (mark_publish_cancellable id g) a).
Proof.
  intros Ha. apply transfer_mut_ok; [done|]. intros r [[] []] <-. split_tests; by split.
Qed.

(** A transfer that is being carried out has no outcome yet. *)
Lemma running_not_committed s r : state_ok s r → running (state r) = true → commit_outcome r = NotCommitted.
Proof.
  intros [] Hr. destruct (commit_outcome r); [done| |]; destruct (state r); naive_solver.
Qed.

Lemma verify_ok a id g n : actor_ok a → actor_ok (void (begin_verification id g n) a).
Proof.
  intros Ha. apply transfer_mut_ok; [done|]. intros r [Hb Hs] <-.
  destruct (negb _) eqn:E; [done|]. tests.
  rename select (state r = _) into Es.
  pose proof (running_not_committed _ _ Hs ltac:(by rewrite Es)) as Ho.
  destruct (negb _ || _) eqn:El; [apply settled_ok; rewrite ?Ho; eauto with sftp; done|]. tests. subst.
  split; [eauto with sftp|]. destruct Hs. rewrite Es in *. constructor; record_fields; naive_solver.
Qed.

Lemma commit_ok a id g : actor_ok a → actor_ok (void (begin_commit id g) a).
Proof.
  intros Ha. apply transfer_mut_ok; [done|]. intros r [Hb Hs] <-. split_tests; [done|]. tests.
  rename select (state r = _) into Es.
  split; [eauto with sftp|]. destruct Hs. rewrite Es in *. constructor; record_fields; naive_solver.
Qed.

Lemma complete_transfer_ok a id g facts : actor_ok a → actor_ok (void (complete_transfer id g facts) a).
Proof.
  intros Ha. apply transfer_mut_ok; [done|]. intros r [Hb Hs] <-.
  destruct (negb _) eqn:E; [done|]. tests.
  rename select (state r = _) into Es.
  pose proof (running_not_committed _ _ Hs ltac:(by rewrite Es)) as Ho. cbv zeta.
  destruct (negb (_ =? _)) eqn:El; [apply settled_ok; rewrite ?Ho; eauto with sftp; done|].
  match goal with |- context [negb (if _ then ?x else ?y)] =>
    destruct (negb (if target_existed r then x else y)) eqn:Ep end;
    [apply settled_ok; rewrite ?Ho; eauto with sftp; done|]. tests. cbn [snd].
  split; [apply base_transition, base_outcome; by destruct Hb|].
  destruct Hs. rewrite Es in *. constructor; record_fields; auto; try done.
  intros _ Hx. rewrite Hx in Ep. by tests.
Qed.

Lemma cancel_ok a id g : actor_ok a → actor_ok (void (begin_cancel id g) a).
Proof.
  intros Ha. apply transfer_mut_ok; [done|]. intros r [Hb Hs] <-. cbv zeta.
  destruct (_ || _) eqn:E; [done|]. tests.
  apply settled_ok; [done| |done|done|done]. eapply not_committed; [done|]. set_solver.
Qed.

Lemma fail_ok a id g f : actor_ok a → actor_ok (void (fail_transfer id g f) a).
Proof.
  intros Ha. apply transfer_mut_ok; [done|]. intros r [Hb Hs] <-. split_tests; [done|].
  apply settled_ok; record_fields; eauto with sftp.
Qed.

Lemma fail_cleanup_ok a id g f c :
  actor_ok a → label_ok c → actor_ok (void (fail_transfer_after_cleanup id g f c) a).
Proof.
  intros Ha Hc. apply transfer_mut_ok; [done|]. intros r [Hb Hs] <-. split_tests; [done|].
  destruct c as [|l]; cbn [label_ok] in Hc.
  - apply settled_ok; record_fields; eauto with sftp.
  - rewrite Hc. apply settled_ok; record_fields; eauto with sftp.
Qed.

Lemma finish_cancel_ok a id g c : actor_ok a → actor_ok (void (finish_cancel id g c) a).
Proof.
  intros Ha. apply transfer_mut_ok; [done|]. intros r Hr <-. split_tests; [done|]. tests.
  rename select (state r = _) into Es. destruct c as [|l].
  - apply clear_ok; [done|by rewrite Es|done..].
  - apply keep_residual_ok; [done|by rewrite Es].
Qed.

Lemma resolve_ok a id g : actor_ok a → actor_ok (void (resolve_cleanup_residual id g) a).
Proof.
  intros Ha. apply transfer_mut_ok; [done|]. intros r Hr <-. split_tests; [done|]. tests.
  rename select (state r = _) into Es. apply clear_ok; [done|by rewrite Es|done..].
Qed.

Lemma resume_ok a id g ev : actor_ok a → actor_ok (void (resume_transfer id g ev) a).
Proof.
  intros Ha. apply require_ready_ok; [done|]. intros [Hg Hr]. apply on_transfer_ok; [done|].
  intros r [Hb Hs]. split_tests; [done|]. tests.
  rename select (state r = _) into Es.
  split; [eauto with sftp|]. destruct Hs. rewrite Es in *. constructor; record_fields; naive_solver.
Qed.

Lemma resume_failed_ok a id c : actor_ok a → actor_ok (void (resume_verification_failed id c) a).
Proof.
  intros Ha. apply on_transfer_ok; [done|]. intros r Hr. split_tests; [done|]. tests.
  rename select (state r = _) into Es. destruct c as [|l].
  - apply clear_ok; [done|by rewrite Es|done|apply failed_fits|done].
  - apply keep_residual_ok; [done|by rewrite Es].
Qed.

Lemma restart_ok a id g c : actor_ok a → actor_ok (void (restart_transfer id g c) a).
Proof.
  intros Ha. apply require_ready_ok; [done|]. intros [Hg Hr]. apply on_transfer_ok; [done|].
  intros r [Hb Hs]. destruct (_ || _) eqn:E; [done|]. tests.
  destruct c as [|l]; [|apply keep_residual_ok; [done|intros Hx; rewrite Hx in *; set_solver]].
  apply settled_ok; record_fields; [|done..].
  apply base_outcome, base_inspected, base_clear, base_transferred; [eauto with sftp|].
  destruct Hb. record_fields. lia.
Qed.

(** ** The operations on the session *)

(** The generation of a session never goes back. *)
Definition later (s s' : SftpSessionSummary) : Prop :=
  ∀ g, ses_generation s = Some g → ∃ g', ses_generation s' = Some g' ∧ g ≤ g'.

Lemma base_later s s' id r : later s s' → base_ok s id r → base_ok s' id r.
Proof.
  intros Hl []. destruct ok_generation0 as (? & g & Hg & ?). destruct (Hl g Hg) as (g' & Hg' & ?).
  constructor; auto. split; [done|]. exists g'. split; [done|lia].
Qed.

Lemma pause_not_running `{DebugTarget} r : running (state (pause_transfer r)) = false.
Proof. unfold pause_transfer. destruct (state r) eqn:E; cbn; by rewrite ?E. Qed.

Lemma paused_ok `{DebugTarget} s id r : record_ok s id r → record_ok s id (pause_transfer r).
Proof.
  intros [Hb Hs]. unfold pause_transfer.
  destruct (state r) eqn:E; try done;
    try (pose proof (running_not_committed _ _ Hs ltac:(by rewrite E)) as Ho);
    apply settled_ok; record_fields; rewrite ?Ho; eauto with sftp; try done.
  eapply not_committed; [done|by rewrite E].
Qed.

(** Moving the session on when no transfer is carried out. *)
Lemma record_moved s s' id r :
  later s s' → running (state r) = false → record_ok s id r → record_ok s' id r.
Proof.
  intros Hl Hr [Hb []]. split; [by eapply base_later|]. constructor; auto. by rewrite Hr.
Qed.

Lemma pause_moved `{DebugTarget} (s s' : SftpSessionSummary) (m : gmap TransferId TransferRecord) :
  later s s' → map_Forall (record_ok s) m → map_Forall (record_ok s') (pause_transfer <$> m).
Proof.
  intros Hl Hm id r. rewrite lookup_fmap, fmap_Some. intros (r0 & Hr0 & ->).
  eapply record_moved; [done|apply pause_not_running|]. apply paused_ok. by apply Hm.
Qed.

(** Outside [Ready] no transfer is carried out. *)
Lemma idle_moved (s s' : SftpSessionSummary) (m : gmap TransferId TransferRecord) :
  later s s' → ses_state s ≠ Ready → map_Forall (record_ok s) m → map_Forall (record_ok s') m.
Proof.
  intros Hl Hs Hm id r Hr. specialize (Hm id r Hr). eapply record_moved; [done| |done].
  destruct Hm as [_ []]. destruct (running (state r)); [|done]. destruct ok_running0; done.
Qed.

Lemma later_same s s' : ses_generation s = ses_generation s' → later s s'.
Proof. intros E g Hg. exists g. split; [congruence|lia]. Qed.

Lemma require_generation_ok {A} g (k : AM A) a :
  actor_ok a → (ses_generation (summary a) = Some g → actor_ok (void k a)) →
  actor_ok (void (abind (require_generation g) (λ _, k)) a).
Proof.
  intros Ha Hk. unfold require_generation, abind, void in *. split_tests; [|done]. tests. by apply Hk.
Qed.

(** A state that asks nothing of the session. *)
Lemma session_ok_simple s s' :
  session_ok s → ses_generation s' = ses_generation s → ses_state s' ≠ OpeningSubsystem →
  ses_state s' ≠ Ready → session_ok s'.
Proof.
  intros [] Hg ? ?. constructor; rewrite ?Hg; [done| |done]. intros Hx. exfalso.
  rewrite !elem_of_cons, elem_of_nil in Hx. tauto.
Qed.

Lemma disconnect_ok `{DebugTarget} a g : actor_ok a → actor_ok (void (disconnect g) a).
Proof.
  intros Ha. apply require_generation_ok; [done|]. intros Hg. destruct Ha.
  constructor; cbn; [by eapply session_ok_simple|]. apply (pause_moved (summary a)); [by apply later_same|done].
Qed.

Lemma transport_lost_ok `{DebugTarget} a g : actor_ok a → actor_ok (void (transport_lost g) a).
Proof.
  intros Ha. apply require_generation_ok; [done|]. intros Hg. destruct Ha.
  constructor; cbn; [by eapply session_ok_simple|]. apply (pause_moved (summary a)); [by apply later_same|done].
Qed.

Lemma connection_failed_ok `{DebugTarget} a g f : actor_ok a → actor_ok (void (connection_failed g f) a).
Proof.
  intros Ha. apply require_generation_ok; [done|]. intros Hg. unfold_monad. split_tests; [|done].
  destruct Ha. constructor; cbn; [by eapply session_ok_simple|].
  apply (pause_moved (summary a)); [by apply later_same|done].
Qed.

Lemma closed_ok a g : actor_ok a → actor_ok (void (closed g) a).
Proof.
  intros Ha. apply require_generation_ok; [done|]. intros Hg. unfold_monad. split_tests; [|done].
  tests. destruct Ha. constructor; cbn; [by eapply session_ok_simple|].
  apply (idle_moved (summary a)); [by apply later_same|congruence|done].
Qed.

Lemma transport_ready_ok a g t : actor_ok a → actor_ok (void (authenticated_transport_ready g t) a).
Proof.
  intros Ha. apply require_generation_ok; [done|]. intros Hg. unfold_monad. split_tests; [|done].
  tests. destruct (bounded_id t) as [t'| |]; cbn [fst snd]; [|done|done].
  destruct Ha as [[] Ht]. constructor; cbn; [constructor; cbn; auto; try done|].
  - intros _. by rewrite Hg.
  - apply (idle_moved (summary a)); [by apply later_same| |done]. intros Hx. rewrite Hx in *. set_solver.
Qed.

Lemma subsystem_ok a g t : actor_ok a → actor_ok (void (subsystem_opened g t) a).
Proof.
  intros Ha. apply require_generation_ok; [done|]. intros Hg. unfold_monad. split_tests; [|done].
  tests. destruct (bounded_id t) as [t'| |]; cbn [fst snd]; [|done|done].
  destruct Ha as [[] Ht]. constructor; cbn; [constructor; cbn; auto; try done|].
  - intros _. rewrite Hg. split; [|done]. intros Hx. rewrite Hx in *. by destruct H0.
  - apply (idle_moved (summary a)); [by apply later_same| |done]. congruence.
Qed.

Lemma start_ok `{DebugTarget} a token : actor_ok a → actor_ok (void (start token) a).
Proof.
  intros Ha. unfold start, new_generation. unfold_monad.
  destruct (negb (session_in _ _)) eqn:E; cbn; [|done].
  destruct (negb (is_blank _ || _)) eqn:E'; cbn; [|done].
  set (next := match ses_generation _ with Some _ => _ | None => _ end).
  assert (1 ≤ next ≤ u64_max ∧ ∀ g, ses_generation (summary a) = Some g → g ≤ next) as [Hn Hl].
  { destruct Ha as [[] _]. subst next. destruct (ses_generation (summary a)) as [g|]; [|unfold u64_max; naive_solver lia].
    specialize (ok_ses_generation0 g eq_refl). pose proof (saturating_step g ok_ses_generation0).
    split; [lia|]. intros g' [= <-]. lia. }
  destruct (0 <? next) eqn:En; cbn; [|done]. destruct Ha. constructor; cbn.
  - constructor; cbn; [by intros g [= <-]|set_solver|done].
  - apply (pause_moved (summary a)); [|done]. intros g Hg. exists next. cbn. split; [done|by apply Hl].
Qed.

Lemma enqueue_ok a id g d src tgt n p :
  actor_ok a → 0 ≤ n → actor_ok (void (enqueue_transfer id g d src tgt n p) a).
Proof.
  intros Ha Hn. apply require_ready_ok; [done|]. intros [Hg Hr]. unfold_monad.
  destruct (validate_endpoint src) as [[]| |]; cbn; [|done|done].
  destruct (validate_endpoint tgt) as [[]| |]; cbn; [|done|done].
  destruct (_ || _) eqn:E; cbn; [done|]. tests. destruct Ha as [Hs Ht]. constructor; cbn; [done|].
  apply map_Forall_insert_2; [|done]. split.
  - constructor; cbn; try done; try (unfold u64_max; lia); [by destruct d, src, tgt|].
    destruct Hs. specialize (ok_ses_generation0 g Hg). split; [lia|]. exists g. split; [done|lia].
  - by constructor.
Qed.

(** ** The invariant holds of every run *)

Lemma step_ok `{DebugTarget} op a : op_ok op → actor_ok a → actor_ok (step op a).
Proof.
  intros Ho Ha. destruct op; cbn [step op_ok] in *;
    eauto using start_ok, transport_ready_ok, subsystem_ok, disconnect_ok, closed_ok, transport_lost_ok,
      connection_failed_ok, enqueue_ok, begin_ok, rebind_ok, prepared_ok, progress_ok, mark_publish_ok, verify_ok,
      commit_ok, complete_transfer_ok, cancel_ok, fail_ok, fail_cleanup_ok, finish_cancel_ok, resolve_ok,
      resume_ok, resume_failed_ok, restart_ok.
Qed.

Lemma run_ok `{DebugTarget} ops a : Forall op_ok ops → actor_ok a → actor_ok (run ops a).
Proof.
  intros Ho. revert a. induction Ho as [|op ops Hop _ IH]; intros a Ha; [done|].
  apply IH. by apply step_ok.
Qed.

Lemma new_ok sid host a : new sid host = Ok a → actor_ok a.
Proof.
  unfold new. destruct (_ || _); [done|]. intros [= <-]. constructor; cbn.
  - constructor; cbn; [done|set_solver|done].
  - apply map_Forall_empty.
Qed.

(** ** Revisions

    Every change of a record but a progress report starts a new revision and
    leaves the window of progress where it was. *)

Definition unpublished (r : TransferRecord) : TransferRecord := set_publish_cancellable false r.

Definition moved (r r' : TransferRecord) : Prop :=
  unpublished r' = unpublished r
  ∨ state_revision r' = saturating_add (state_revision r) 1 ∧ progress_window r' = progress_window r.

Definition progressed (r r' : TransferRecord) : Prop :=
  state r' = state r ∧ state_revision r' = saturating_add (state_revision r) 1
  ∧ progress_window r' = extend_progress_window (progress_window r) (state_revision r) (state_revision r').

(** The operation reports progress of the transfer. *)
Definition reports (id : TransferId) (op : Op) : Prop :=
  match op with OProgress id' _ _ => id' = id | _ => False end.

#[global] Instance reports_dec id op : Decision (reports id op).
Proof. destruct op; cbn; apply _. Defined.

Lemma reports_progress id op : reports id op → ∃ g n, op = OProgress id g n.
Proof. destruct op; cbn; naive_solver. Qed.

(** The record of a transfer after an operation on the transfers. *)
Definition after {A} (m : AM A) (a : SftpSessionActor) (id : TransferId) : option TransferRecord :=
  transfers (void m a) !! id.

(** How an operation changes the records, whichever transfer it names. *)
Definition related {A} (R : TransferRecord → TransferRecord → Prop) (m : AM A) : Prop :=
  ∀ a id r, transfers a !! id = Some r → ∃ r', after m a id = Some r' ∧ R r r'.

Section Related.
Context (R : TransferRecord → TransferRecord → Prop) `{!Reflexive R}.

Lemma on_transfer_related {A} id (f : TransferRecord → sres A * TransferRecord) :
  (∀ r, R r (f r).2) → related R (on_transfer id f).
Proof using Type*.
  intros Hf a id' r Hr. unfold after, void, on_transfer.
  destruct (transfers a !! id) as [r0|] eqn:E; [|eauto].
  specialize (Hf r0). destruct (f r0) as [x r1]. cbn.
  destruct (decide (id' = id)) as [->|Hne].
  - rewrite lookup_insert_eq. simplify_eq. eauto.
  - rewrite lookup_insert_ne by done. eauto.
Qed.

Lemma transfer_mut_related {A} id g (f : TransferRecord → sres A * TransferRecord) :
  (∀ r, R r (f r).2) → related R (transfer_mut id g f).
Proof using Type*. intros Hf. apply on_transfer_related. intros r. destruct (_ =? _); [done|reflexivity]. Qed.

Lemma require_ready_related {A} g (k : AM A) : related R k → related R (abind (require_ready g) (λ _, k)).
Proof using Type*.
  intros Hk a id r Hr. unfold after, void, require_ready, require_generation, abind in *.
  split_tests; [by apply Hk|eauto..].
Qed.

Lemma same_transfers_related {A} (m : AM A) :
  (∀ a, transfers (void m a) = transfers a) → related R m.
Proof using Type*. intros Hm a id r Hr. unfold after. rewrite Hm. eauto. Qed.

(** The answers of a session operation, one case each. *)
Ltac session_cases :=
  intros; unfold_monad;
  repeat match goal with
  | |- context [if ?c then _ else _] => destruct c; cbn [fst snd]
  | |- context [match ?c with Ok _ => _ | Err _ => _ | Panic => _ end] => destruct c; cbn [fst snd]
  end;
  cbn; auto.

Lemma transport_ready_related g t : related R (authenticated_transport_ready g t).
Proof using Type*.
  apply same_transfers_related. unfold authenticated_transport_ready, require_generation. session_cases.
Qed.

Lemma subsystem_related g t : related R (subsystem_opened g t).
Proof using Type*. apply same_transfers_related. unfold subsystem_opened, require_generation. session_cases. Qed.

Lemma closed_related g : related R (closed g).
Proof using Type*. apply same_transfers_related. unfold closed, require_generation. session_cases. Qed.

Lemma enqueue_related id g d src tgt n p : related R (enqueue_transfer id g d src tgt n p).
Proof using Type*.
  apply require_ready_related. intros a id' r Hr. unfold after. unfold_monad.
  destruct (validate_endpoint src); cbn; [|eauto..].
  destruct (validate_endpoint tgt); cbn; [|eauto..].
  destruct (_ || _) eqn:E; cbn; [eauto|]. tests.
  destruct (decide (id' = id)) as [->|Hne]; [rewrite Hr in *; naive_solver|].
  rewrite lookup_insert_ne by done. eauto.
Qed.

Context `{DebugTarget} (Hpause : ∀ r, R r (pause_transfer r)).

Lemma paused_transfers_related {A} (m : AM A) :
  (∀ a, transfers (void m a) = transfers a ∨ transfers (void m a) = pause_transfer <$> transfers a) →
  related R m.
Proof using Type*.
  intros Hm a id r Hr. unfold after. destruct (Hm a) as [->| ->]; [eauto|].
  rewrite lookup_fmap, Hr. cbn. eauto.
Qed.

Lemma start_related token : related R (start token).
Proof using Type*. apply paused_transfers_related. unfold start, pause_active_transfers. session_cases. Qed.

Lemma disconnect_related g : related R (disconnect g).
Proof using Type*.
  apply paused_transfers_related. unfold disconnect, require_generation, pause_active_transfers.
  session_cases.
Qed.

Lemma transport_lost_related g : related R (transport_lost g).
Proof using Type*.
  apply paused_transfers_related. unfold transport_lost, require_generation, pause_active_transfers.
  session_cases.
Qed.

Lemma connection_failed_related g f : related R (connection_failed g f).
Proof using Type*.
  apply paused_transfers_related. unfold connection_failed, require_generation, pause_active_transfers.
  session_cases.
Qed.

End Related.

(** The other transfers. *)
Lemma transfer_mut_other {A} id id' g (f : TransferRecord → sres A * TransferRecord) a r :
  id' ≠ id → transfers a !! id = Some r → transfers (void (transfer_mut id' g f) a) !! id = Some r.
Proof.
  intros Hne Hr. unfold void, transfer_mut, on_transfer.
  destruct (transfers a !! id') as [r0|]; [|done].
  destruct (generation r0 =? g); cbn; [destruct (f r0); cbn|]; by rewrite lookup_insert_ne.
Qed.

(** Proves that an operation relates the records, from what it does to one:
    [tac] is run on that. *)
Ltac relate tac :=
  first [ apply start_related; [apply _|tac] | apply transport_ready_related; apply _
        | apply subsystem_related; apply _ | apply disconnect_related; [apply _|tac]
        | apply closed_related; apply _ | apply transport_lost_related; [apply _|tac]
        | apply connection_failed_related; [apply _|tac] | apply enqueue_related; apply _
        | apply transfer_mut_related; [apply _|tac]
        | apply require_ready_related; [apply _|apply transfer_mut_related; [apply _|tac]]
        | apply require_ready_related; [apply _|apply on_transfer_related; [apply _|tac]]
        | apply on_transfer_related; [apply _|tac] ].

#[global] Instance moved_reflexive : Reflexive moved.
Proof. intros r. by left. Qed.

Lemma keep_residual_moved {A} (answer : sres A) l r : moved r (keep_residual answer l r).2.
Proof. unfold keep_residual. destruct (bounded_label l); [by right|by left..]. Qed.

Lemma pause_moves `{DebugTarget} r : moved r (pause_transfer r).
Proof. unfold pause_transfer. destruct (state r); (by left) || (by right). Qed.

Ltac moved_cases :=
  intros; cbv zeta;
  repeat match goal with
  | |- moved _ (fst _) => cbn
  | |- moved _ (if ?c then _ else _).2 => destruct c; cbn [snd]
  | |- moved _ (match ?c with _ => _ end).2 => destruct c; cbn [snd]
  end;
  first [ by left | by right | by apply keep_residual_moved ].

Lemma fail_cleanup_moved id g f c : label_ok c → related moved (fail_transfer_after_cleanup id g f c).
Proof.
  intros Hc. apply transfer_mut_related; [apply _|]. intros r. destruct (state_in _ r); [by left|]. cbv zeta.
  destruct c as [|l]; cbn [label_ok] in Hc; [by right|]. rewrite Hc. by right.
Qed.

(** Every operation but a progress report. *)
Lemma step_moved `{DebugTarget} op a id r :
  op_ok op → ¬ reports id op → transfers a !! id = Some r →
  ∃ r', transfers (step op a) !! id = Some r' ∧ moved r r'.
Proof.
  intros Ho Hp. destruct op; cbn [step op_ok reports] in *.
  all: try relate ltac:(apply pause_moves || moved_cases).
  - intros Hr. exists r. split; [by apply transfer_mut_other|reflexivity].
  - by apply fail_cleanup_moved.
Qed.

Lemma progress_step id g n a r :
  transfers a !! id = Some r →
  ∃ r', transfers (void (record_progress id g n) a) !! id = Some r' ∧ (r' = r ∨ progressed r r').
Proof.
  intros Hr. unfold void, record_progress, transfer_mut, on_transfer. rewrite Hr.
  destruct (generation r =? g); cbn; [|rewrite lookup_insert_eq; eauto].
  destruct (_ || _); cbn; rewrite lookup_insert_eq; [eauto|].
  eexists. split; [done|]. by right.
Qed.

(** Between the first and the last state of a run, the record of a transfer
    changed by progress reports only. *)
Fixpoint only_progress `{DebugTarget} (id : TransferId) (ops : list Op) (a : SftpSessionActor) : Prop :=
  match ops with
  | [] => True
  | op :: ops =>
      (reports id op ∨ unpublished <$> transfers (step op a) !! id = unpublished <$> transfers a !! id)
      ∧ only_progress id ops (step op a)
  end.

Definition window_ok (w : option (Z * Z)) (current : Z) : Prop :=
  ∀ b e, w = Some (b, e) → 1 ≤ b ≤ e ∧ e ≤ current.

Lemma within_progress_spec rev current w :
  revision_within_progress rev current w = true ↔
  rev = current ∨ ∃ b, w = Some (b, current) ∧ b ≤ rev ≤ current.
Proof.
  unfold revision_within_progress. rewrite orb_true_iff, Z.eqb_eq.
  destruct w as [[b e]|]; [|naive_solver].
  rewrite !andb_true_iff, Z.eqb_eq, !Z.leb_le. split.
  - intros [?|[[-> ?] ?]]; [by left|right]. by exists b.
  - intros [?|(b' & [= -> ->] & ?)]; [by left|right]. lia.
Qed.

Lemma within_extended rev current w :
  window_ok w current → rev ≤ current →
  revision_within_progress rev (current + 1) (extend_progress_window w current (current + 1)) = true ↔
  revision_within_progress rev current w = true.
Proof.
  intros Hw Hrev. rewrite !within_progress_spec. unfold extend_progress_window.
  destruct w as [[b e]|].
  - specialize (Hw b e eq_refl). destruct (Z.eqb_spec e current) as [->|Hne]; split.
    + intros [?|(b' & [= <-] & ?)]; [lia|]. destruct (decide (rev = current)); [by left|right].
      exists b. split; [done|lia].
    + intros [->|(b' & [= <-] & ?)]; right; exists b; (split; [done|lia]).
    + intros [?|(b' & [= <-] & ?)]; [lia|left; lia].
    + intros [->|(b' & [= <- <-] & ?)]; [|done]. right. exists current. split; [done|lia].
  - split.
    + intros [?|(b' & [= <-] & ?)]; [lia|left; lia].
    + intros [->|(b' & ? & ?)]; [|done]. right. exists current. split; [done|lia].
Qed.

Lemma within_moved rev current w :
  window_ok w current → rev ≤ current → revision_within_progress rev (current + 1) w = false.
Proof.
  intros Hw Hrev. apply not_true_is_false. rewrite within_progress_spec.
  intros [?|(b & Hb & ?)]; [lia|]. specialize (Hw b (current + 1) Hb). lia.
Qed.

Lemma unsaturated r : saturating_add r 1 < u64_max → saturating_add r 1 = r + 1.
Proof. unfold saturating_add. lia. Qed.

Lemma unpublished_revision r r' :
  unpublished r' = unpublished r →
  state_revision r' = state_revision r ∧ progress_window r' = progress_window r ∧ state r' = state r.
Proof. destruct r, r'. unfold unpublished. cbn. by intros [= -> -> -> -> -> -> -> -> -> -> -> -> -> -> -> -> -> ->]. Qed.

(** One step of the run, for an action fenced on [rev]. *)
Lemma fence_step `{DebugTarget} op a id r rev :
  actor_ok a → op_ok op → transfers a !! id = Some r → rev ≤ state_revision r →
  ∃ r', transfers (step op a) !! id = Some r' ∧ state_revision r ≤ state_revision r' ∧
  (state_revision r' < u64_max →
   accepts_revision r' rev = true ↔
   accepts_revision r rev = true ∧
   (reports id op ∨ unpublished <$> transfers (step op a) !! id = unpublished <$> transfers a !! id)).
Proof.
  intros [_ Ht] Ho Hr Hrev. destruct (Ht _ _ Hr) as [[] _]. unfold accepts_revision.
  pose proof (saturating_step _ ok_revision0) as [? ?].
  destruct (decide (reports id op)) as [Hp|Hp].
  - apply reports_progress in Hp as (g & n & ->).
    destruct (progress_step id g n a r Hr) as (r' & Hr' & [->|(_ & Hv & Hw)]);
      exists r' || exists r; (split; [done|]); [split; [lia|]; cbn; naive_solver|].
    rewrite Hw, Hv. split; [done|]. intros Hs. rewrite (unsaturated _ Hs), within_extended by done.
    cbn. naive_solver.
  - destruct (step_moved op a id r Ho Hp Hr) as (r' & Hr' & [Hu|[Hv Hw]]); exists r'; (split; [done|]).
    + destruct (unpublished_revision _ _ Hu) as (-> & -> & _). rewrite Hr, Hr'. cbn. rewrite Hu.
      split; [lia|]. naive_solver.
    + rewrite Hw, Hv. split; [done|]. intros Hs.
      rewrite (unsaturated _ Hs), within_moved by done. split; [done|]. rewrite Hr, Hr'. cbn.
      intros (_ & [?|Hu]); [done|]. apply (inj Some) in Hu. destruct (unpublished_revision _ _ Hu) as (Hv' & _).
      rewrite Hv', (unsaturated _ Hs) in Hv. lia.
Qed.

Lemma fence_run `{DebugTarget} ops a id r rev :
  actor_ok a → Forall op_ok ops → transfers a !! id = Some r → rev ≤ state_revision r →
  ∃ r', transfers (run ops a) !! id = Some r' ∧ state_revision r ≤ state_revision r' ∧
  (state_revision r' < u64_max →
   accepts_revision r' rev = true ↔ accepts_revision r rev = true ∧ only_progress id ops a).
Proof.
  intros Ha Ho. revert a r Ha. induction Ho as [|op ops Hop _ IH]; intros a r Ha Hr Hrev.
  { exists r. cbn. split; [done|]. split; [lia|]. tauto. }
  destruct (fence_step op a id r rev Ha Hop Hr Hrev) as (r1 & Hr1 & Hle1 & Hiff1).
  destruct (IH (step op a) r1 (step_ok op a Hop Ha) Hr1 ltac:(lia)) as (r2 & Hr2 & Hle2 & Hiff2).
  exists r2. split; [done|]. split; [lia|]. intros Hs. cbn [only_progress].
  rewrite Hiff2, Hiff1 by lia. tauto.
Qed.

(** ** A commit whose outcome is unknown *)

(** The operation reports a failure of the transfer. *)
Definition fails (id : TransferId) (op : Op) : Prop :=
  match op with OFail id' _ _ | OFailCleanup id' _ _ _ => id' = id | _ => False end.

Definition uncertain (r : TransferRecord) : Prop :=
  commit_outcome r = Uncertain ∧ stopped (state r) = true.

Definition keeps_uncertain (r r' : TransferRecord) : Prop := uncertain r → uncertain r'.

#[global] Instance keeps_uncertain_reflexive : Reflexive keeps_uncertain.
Proof. intros r Hr. exact Hr. Qed.

Lemma pause_keeps_uncertain `{DebugTarget} r : keeps_uncertain r (pause_transfer r).
Proof. unfold keeps_uncertain. intros [Ho Hs]. unfold pause_transfer. destruct (state r) eqn:E; try discriminate; split; cbn; rewrite ?E; auto. Qed.

Lemma keep_residual_uncertain {A} (answer : sres A) l r : keeps_uncertain r (keep_residual answer l r).2.
Proof. unfold keeps_uncertain. intros [Ho Hs]. unfold keep_residual. by destruct (bounded_label l); split. Qed.

(** An operation that refuses the record, or that keeps its outcome and stops. *)
Ltac uncertain_cases :=
  let r := fresh "r" in let Ho := fresh "Ho" in let Hs := fresh "Hs" in
  intros r; unfold keeps_uncertain; intros [Ho Hs]; cbv zeta;
  repeat match goal with
  | |- uncertain (if ?c then _ else _).2 => let E := fresh "E" in destruct c eqn:E; cbn [snd]
  | |- uncertain (match ?c with _ => _ end).2 => destruct c; cbn [snd]
  end;
  first [ by split | by apply keep_residual_uncertain
        | exfalso; tests; rewrite ?Ho in *;
          repeat match goal with E : state r = _ |- _ => rewrite E in Hs end;
          (done || discriminate) ].

Lemma step_uncertain `{DebugTarget} op a id r :
  ¬ fails id op → transfers a !! id = Some r → uncertain r →
  ∃ r', transfers (step op a) !! id = Some r' ∧ uncertain r'.
Proof.
  intros Hf Hr Hu.
  assert (∃ r', transfers (step op a) !! id = Some r' ∧ keeps_uncertain r r') as (r' & ? & Hk);
    [|exists r'; split; [done|by apply Hk]].
  revert Hr. destruct op; cbn [step fails] in *.
  all: try relate ltac:(apply pause_keeps_uncertain || uncertain_cases).
  all: intros Hr; exists r; split; [by apply transfer_mut_other|reflexivity].
Qed.

Lemma run_uncertain `{DebugTarget} ops a id r :
  Forall (λ op, ¬ fails id op) ops → transfers a !! id = Some r → uncertain r →
  ∃ r', transfers (run ops a) !! id = Some r' ∧ uncertain r'.
Proof.
  intros Ho. revert a r. induction Ho as [|op ops Hop _ IH]; intros a r Hr Hu; [by exists r|].
  destruct (step_uncertain op a id r Hop Hr Hu) as (r1 & Hr1 & Hu1). by apply (IH _ r1).
Qed.

(** ** Theorems *)

Lemma only_progress_state `{DebugTarget} ops a id r :
  only_progress id ops a → transfers a !! id = Some r →
  ∃ r', transfers (run ops a) !! id = Some r' ∧ state r' = state r.
Proof.
  revert a r. induction ops as [|op ops IH]; intros a r Ho Hr; [by exists r|].
  destruct Ho as [Hop Ho].
  assert (∃ r1, transfers (step op a) !! id = Some r1 ∧ state r1 = state r) as (r1 & Hr1 & <-);
    [|by apply IH].
  destruct Hop as [Hp|Hu].
  - apply reports_progress in Hp as (g & n & ->).
    destruct (progress_step id g n a r Hr) as (r1 & Hr1 & [->|(Hs & _)]); eauto.
  - rewrite Hr in Hu. apply fmap_Some in Hu as (r1 & Hr1 & Hu). exists r1. split; [done|].
    symmetry in Hu. by apply unpublished_revision in Hu as (_ & _ & ?).
Qed.

(** C20. Every operation of an SFTP session, in any order and with any
    arguments its callers may give, keeps the session and all its transfers
    consistent: a transfer that is being carried out belongs to the ready
    connection, never counts more bytes than expected, has a temporary target
    in the directory of its target, is Completed exactly when it is committed,
    has replaced a target only when it was told to, and has a failure code
    exactly when its state calls for one. *)
Theorem session_keeps_invariant `{DebugTarget} sid host a0 ops :
  new sid host = Ok a0 ∨ (∃ h p, new_on_ssh_session sid h p = Ok a0) →
  Forall op_ok ops → actor_ok (run ops a0).
Proof.
  intros Hn Ho. apply run_ok; [done|]. destruct Hn as [Hn|(h & p & Hn)]; [by eapply new_ok|].
  unfold new_on_ssh_session in Hn. destruct (new sid _) as [a| |] eqn:E; [|done|done].
  cbn in Hn. injection Hn as <-. destruct (new_ok _ _ _ E) as [[] Ht]. constructor; cbn; [by constructor|].
  revert E. unfold new. destruct (_ || _); [done|]. intros [= <-]. apply map_Forall_empty.
Qed.

(** C25. After any operations of the session, the revision of a transfer that a
    caller saw is accepted exactly when nothing but reports of progress has
    happened to the transfer since, and then its state is the one the caller
    saw; a revision never goes back. *)
Theorem progress_fence_exact `{DebugTarget} a ops id r :
  actor_ok a → Forall op_ok ops → transfers a !! id = Some r →
  ∃ r', transfers (run ops a) !! id = Some r' ∧ state_revision r ≤ state_revision r' ∧
  (state_revision r' < u64_max →
   (accepts_revision r' (state_revision r) = true ↔ only_progress id ops a)
   ∧ (accepts_revision r' (state_revision r) = true → state r' = state r)).
Proof.
  intros Ha Ho Hr. destruct (fence_run ops a id r _ Ha Ho Hr (Z.le_refl _)) as (r' & Hr' & Hle & Hiff).
  exists r'. split; [done|]. split; [done|]. intros Hs. specialize (Hiff Hs).
  assert (accepts_revision r (state_revision r) = true) as Hacc.
  { apply within_progress_spec. by left. }
  split; [tauto|]. intros [_ Hp]%Hiff. destruct (only_progress_state ops a id r Hp Hr) as (r2 & Hr2 & <-).
  congruence.
Qed.


End Transfers.
