(* ===== verification/SftpServer.v ===== *)
(** * Requests to an SFTP server

    The code of src-tauri/src/sftp_session_service.rs that talks to the server
    is a program of [await] points: requests to the server, locks of the
    session's record, local input. [Prog] is such a program, [exec] runs it
    against a server, with the operations of other tasks that come between, and
    stops it at any await when its task is cancelled. [wp] states what a
    program guarantees when it returns and what it guarantees wherever it may be
    stopped.

    The server is a parameter, a class [Server]; [ServerLaws] is what the SFTP
    protocol and its OpenSSH extensions promise of it. *)

From S2P Require Import Prelude RustStr SftpActor SftpTransfers.

Module Remote.
Import Sftp Transfers.

(** ** Requests and replies of the client library *)

Inductive StatusCode :=
| StPermissionDenied | StNoConnection | StConnectionLost | StOpUnsupported | StOther.

Inductive ClientError := Status (c : StatusCode) | ClientOther.

(** A request is answered, refused, or not answered in time. *)
Inductive Reply (A : Type) : Type := Answer (a : A) | Refused (e : ClientError) | TimedOut.
Arguments Answer {A} a.
Arguments Refused {A} e.
Arguments TimedOut {A}.

Record RemoteFileAttributes := mkAttributes {
  is_regular : bool;
  is_dir : bool;
  is_symlink : bool;
  md_size : option Z;
  md_mtime : option Z;
  permissions : option Z }.

(** [FileAttributes::len]. *)
Definition md_len (m : RemoteFileAttributes) : Z := default 0 (md_size m).

Definition Handle : Type := Z.

(** One entry of a page of a directory. *)
Record DirEntry := mkDirEntry { file_name : str; entry_metadata : RemoteFileAttributes }.

Inductive Req : Type → Type :=
| TryExists (p : str) : Req bool
| SymlinkMetadata (p : str) : Req RemoteFileAttributes
| CreateDir (p : str) : Req unit
| OpenNew (p : str) : Req Handle
| WriteAll (h : Handle) (bytes : list Z) : Req unit
| SyncAll (h : Handle) : Req unit
| FileMetadata (h : Handle) : Req RemoteFileAttributes
| CloseFile (h : Handle) : Req unit
| SetMetadata (p : str) (permission_bits : Z) : Req unit
| PosixRename (p q : str) : Req bool
| Hardlink (p q : str) : Req bool
| RemoveFile (p : str) : Req unit
| RemoveDir (p : str) : Req unit
| Canonicalize : Req unit
| OpenRead (p : str) : Req Handle
| SeekFile (h : Handle) (offset : Z) : Req unit
| ReadChunk (h : Handle) (maximum : Z) : Req (list Z)
| OpenDirStream (p : str) : Req Handle
| NextPage (h : Handle) (maximum : Z) : Req (list DirEntry * bool)
| CloseDirStream (h : Handle) : Req unit.

(** The requests that read files and directories. *)
Definition reading {A} (r : Req A) : bool :=
  match r with
  | OpenRead _ | SeekFile _ _ | ReadChunk _ _ | OpenDirStream _ | NextPage _ _ | CloseDirStream _ => true
  | _ => false
  end.

(** A request with its reply. *)
Record Event := mkEvent { ev_type : Type; ev_req : Req ev_type; ev_reply : Reply ev_type }.
Arguments mkEvent {ev_type}.

Class Server (W : Type) := {
  serve : ∀ {A}, Req A → W → Reply A * W;
  supports_posix_rename : bool }.

(** ** Programs *)

Inductive Prog (A : Type) : Type :=
| Ret (a : A)
| Ask {X : Type} (r : Req X) (k : Reply X → Prog A)
| Locked {X : Type} (m : AM X) (k : option (sres X) → Prog A)
| Await (k : Prog A).
Arguments Ret {A} a.
Arguments Ask {A X} r k.
Arguments Locked {A X} m k.
Arguments Await {A} k.

Fixpoint pbind {A B} (p : Prog A) (k : A → Prog B) : Prog B :=
  match p with
  | Ret a => k a
  | Ask r q => Ask r (λ x, pbind (q x) k)
  | Locked m q => Locked m (λ x, pbind (q x) k)
  | Await q => Await (pbind q k)
  end.

(** The [?] operator after an [await]. *)
Definition prbind {E A B} (p : Prog (rres E A)) (k : A → Prog (rres E B)) : Prog (rres E B) :=
  pbind p (λ x, match x with Ok a => k a | Err e => Ret (Err e) | Panic => Ret Panic end).

Definition pmap_err {E F A} (f : E → F) (p : Prog (rres E A)) : Prog (rres F A) :=
  pbind p (λ x, Ret (rmap_err f x)).

Definition plift {E A} (x : rres E A) : Prog (rres E A) := Ret x.

Declare Scope prog_scope.
Delimit Scope prog_scope with prog.
Notation "'let*' x ':=' e 'in' k" := (prbind e (fun x => k))
  (at level 10, x pattern, e at level 200, k at level 200) : prog_scope.
Notation "'run*' x ':=' e 'in' k" := (pbind e (fun x => k))
  (at level 10, x pattern, e at level 200, k at level 200) : prog_scope.
#[global] Open Scope prog_scope.

(** ** Running a program

    The script holds what the other tasks do at each [await] of the program:
    their operations on the actor by then, and the signal the task's [select!]
    sees there, if any; [sent] says whether the request the program waits for
    was carried out all the same. *)

Inductive Why := CancelRequested | TransportGone | DeadlinePassed.

Inductive Signal := Quiet | Interrupt (why : Why) (sent : bool).

Record Moment := mkMoment { moment_ops : list Op; moment_signal : Signal }.

Definition Script : Type := list Moment.

Record Env (W : Type) := mkEnv {
  world : W;
  record : option SftpSessionActor;
  trace : list Event }.
Arguments mkEnv {W}.
Arguments world {W}.
Arguments record {W}.
Arguments trace {W}.

Inductive Exit (A : Type) : Type := Returned (a : A) | Stopped (why : Why).
Arguments Returned {A}.
Arguments Stopped {A}.

Definition next_moment (s : Script) : Moment * Script :=
  match s with
  | [] => (mkMoment [] Quiet, [])
  | x :: s => (x, s)
  end.

(** The other tasks have changed the record of the session. *)
Definition disturb `{DebugTarget} {W} (ops : list Op) (e : Env W) : Env W :=
  mkEnv (world e) (run ops <$> record e) (trace e).

Definition ask {W} `{Server W} {X} (r : Req X) (e : Env W) : Reply X * Env W :=
  let '(x, w) := serve r (world e) in
  (x, mkEnv w (record e) (trace e ++ [mkEvent r x])).

(** The record of the session, changed under its lock. *)
Definition locked {W X} (m : AM X) (e : Env W) : option (sres X) * Env W :=
  match record e with
  | Some a => let '(x, a') := m a in (Some x, mkEnv (world e) (Some a') (trace e))
  | None => (None, e)
  end.

(** What becomes of the program when a signal is seen: it is not waited for, it
    stops the program, or the program is run to its end with no more checks. *)
Inductive Verdict := Ignore | Stop | Detach.

Definition verdict {W} (listen : Why → Env W → Verdict) (armed : bool) (sig : Signal) (e : Env W) : Verdict :=
  match sig with
  | Quiet => Ignore
  | Interrupt why _ => if armed then listen why e else Ignore
  end.

Definition still_armed (v : Verdict) (armed : bool) : bool :=
  match v with Detach => false | _ => armed end.

Definition reason (sig : Signal) : Why :=
  match sig with Quiet => CancelRequested | Interrupt why _ => why end.

Definition was_sent (sig : Signal) : bool :=
  match sig with Quiet => false | Interrupt _ sent => sent end.

(** [select!] or [timeout] around the program. *)
Fixpoint exec `{DebugTarget} {W} `{Server W} {A} (listen : Why → Env W → Verdict) (armed : bool)
    (p : Prog A) (s : Script) (e : Env W) : Exit A * Script * Env W :=
  match p with
  | Ret a => (Returned a, s, e)
  | Ask r k =>
      let '(m, s) := next_moment s in
      let e := disturb (moment_ops m) e in
      match verdict listen armed (moment_signal m) e with
      | Stop => (Stopped (reason (moment_signal m)), s,
                 if was_sent (moment_signal m) then (ask r e).2 else e)
      | v => let '(x, e) := ask r e in exec listen (still_armed v armed) (k x) s e
      end
  | Locked f k =>
      let '(m, s) := next_moment s in
      let e := disturb (moment_ops m) e in
      match verdict listen armed (moment_signal m) e with
      | Stop => (Stopped (reason (moment_signal m)), s, e)
      | v => let '(x, e) := locked f e in exec listen (still_armed v armed) (k x) s e
      end
  | Await k =>
      let '(m, s) := next_moment s in
      let e := disturb (moment_ops m) e in
      match verdict listen armed (moment_signal m) e with
      | Stop => (Stopped (reason (moment_signal m)), s, e)
      | v => exec listen (still_armed v armed) k s e
      end
  end.

(** ** What a program guarantees

    [Q] holds of the result and the state when the program returns, [I] in
    every state in which it may be stopped, whatever the other tasks do that
    they are allowed to. *)

Section Wp.
Context `{DebugTarget} {W : Type} `{Server W}.
Context (allowed : Op → Prop).

Fixpoint wp {A} (p : Prog A) (Q : A → Env W → Prop) (I : Env W → Prop) (e : Env W) : Prop :=
  match p with
  | Ret a => Q a e
  | Ask r k =>
      ∀ ops, Forall allowed ops → let e := disturb ops e in
        I e ∧ I (ask r e).2 ∧ wp (k (ask r e).1) Q I (ask r e).2
  | Locked m k =>
      ∀ ops, Forall allowed ops → let e := disturb ops e in
        I e ∧ wp (k (locked m e).1) Q I (locked m e).2
  | Await k =>
      ∀ ops, Forall allowed ops → let e := disturb ops e in I e ∧ wp k Q I e
  end.

Lemma wp_mono {A} (p : Prog A) (Q Q' : A → Env W → Prop) (I I' : Env W → Prop) e :
  (∀ a e, Q a e → Q' a e) → (∀ e, I e → I' e) → wp p Q I e → wp p Q' I' e.
Proof using Type.
  intros HQ HI. revert e. induction p as [a|X r q IH|X m q IH|q IH]; intros e; cbn; [eauto|..];
    intros Hw ops Ho; specialize (Hw ops Ho); naive_solver.
Qed.

Lemma wp_bind {A B} (p : Prog A) (k : A → Prog B) Q I e :
  wp p (λ a e, wp (k a) Q I e) I e → wp (pbind p k) Q I e.
Proof using Type.
  revert e. induction p as [a|X r q IH|X m q IH|q IH]; intros e; cbn; [done|..];
    intros Hw ops Ho; specialize (Hw ops Ho); naive_solver.
Qed.

(** After [?]: an error is the result. *)
Lemma wp_rbind {E A B} (p : Prog (rres E A)) (k : A → Prog (rres E B)) Q I e :
  wp p (λ x e, match x with Ok a => wp (k a) Q I e | Err f => Q (Err f) e | Panic => Q Panic e end) I e →
  wp (prbind p k) Q I e.
Proof using Type.
  intros Hp. apply wp_bind. eapply wp_mono; [|done|exact Hp]. by intros [a|f|].
Qed.

Lemma wp_map_err {E F A} (f : E → F) (p : Prog (rres E A)) Q I e :
  wp p (λ x e, Q (rmap_err f x) e) I e → wp (pmap_err f p) Q I e.
Proof using Type. intros Hp. unfold pmap_err. apply wp_bind. exact Hp. Qed.

(** Two facts of the same program. *)
Lemma wp_and {A} (p : Prog A) Q1 Q2 I1 I2 e :
  wp p Q1 I1 e → wp p Q2 I2 e → wp p (λ a e, Q1 a e ∧ Q2 a e) (λ e, I1 e ∧ I2 e) e.
Proof using Type.
  revert e. induction p as [a|X r q IH|X m q IH|q IH]; intros e; cbn; [done|..];
    intros Hw1 Hw2 ops Ho; specialize (Hw1 ops Ho); specialize (Hw2 ops Ho); naive_solver.
Qed.

Definition script_allowed (s : Script) : Prop := Forall (λ m, Forall allowed (moment_ops m)) s.

Lemma next_moment_allowed s m s' :
  script_allowed s → next_moment s = (m, s') → Forall allowed (moment_ops m) ∧ script_allowed s'.
Proof using Type.
  unfold script_allowed. destruct s as [|x s]; cbn; intros Hs [= <- <-]; [done|].
  by apply Forall_cons in Hs.
Qed.

(** The rule is sound, whatever the signals. *)
Lemma exec_sound {A} listen armed (p : Prog A) Q I s e x s' e' :
  wp p Q I e → script_allowed s → exec listen armed p s e = (x, s', e') →
  script_allowed s' ∧ match x with Returned a => Q a e' | Stopped _ => I e' end.
Proof using Type.
  revert armed s e. induction p as [a|X r q IH|X m q IH|q IH]; intros armed s e Hw Hs Hx; cbn in Hx;
    [by simplify_eq|..];
    destruct (next_moment s) as [mo s1] eqn:Em; destruct (next_moment_allowed _ _ _ Hs Em) as [Ho Hs1];
    specialize (Hw _ Ho); cbn zeta in Hw.
  - destruct Hw as (HI & HI' & Hw). destruct (ask r _) as [y e1] eqn:Ea. cbn [fst snd] in *.
    destruct (verdict _ _ _ _); [by eapply IH| |by eapply IH].
    simplify_eq. split; [done|]. by destruct (was_sent _).
  - destruct Hw as (HI & Hw). destruct (locked m _) as [y e1] eqn:El. cbn [fst snd] in *.
    destruct (verdict _ _ _ _); [by eapply IH| |by eapply IH]. by simplify_eq.
  - destruct Hw as (HI & Hw). destruct (verdict _ _ _ _); [by eapply IH| |by eapply IH]. by simplify_eq.
Qed.

(** A program whose signals are not waited for returns. *)
Lemma exec_returns {A} (p : Prog A) listen s e :
  ∃ a s' e', exec listen false p s e = (Returned a, s', e').
Proof using Type.
  revert s e. induction p as [a|X r q IH|X m q IH|q IH]; intros s e; cbn; [eauto|..];
    destruct (next_moment s) as [mo s1];
    assert (verdict listen false (moment_signal mo) (disturb (moment_ops mo) e) = Ignore) as ->
      by (by destruct (moment_signal mo)); cbn [still_armed].
  - destruct (ask r _) as [y e1]. apply IH.
  - destruct (locked m _) as [y e1]. apply IH.
  - apply IH.
Qed.

End Wp.

End Remote.
