(* ===== verification/SftpUpload.v ===== *)
(** * Uploading a file

    src-tauri/src/sftp_session_service.rs and its local_capability.rs: the task
    that carries out one upload, from the inspection of the target to the
    commit, and what it does when it fails, is cancelled or loses its
    connection ([run_transfer], [run_upload] and what they call). *)

From S2P Require Import Prelude RustStr SftpActor SftpTransfers SftpServer.

Module Upload.
Import Sftp Transfers Remote.

(** ** Errors *)

(** Of [TransportError], the code below tells two cases apart. *)
Inductive TransportError := SftpProtocol | ConnectionLost | OtherTransport.

Inductive SftpProductionError :=
| VaultUnavailable | Profile | Connection | Transport (e : TransportError)
| Runtime (e : SftpRuntimeError) | NonUtf8RemotePath | ShutdownIncomplete.

Notation pres := (rres SftpProductionError).
Notation tres := (rres TransferFailureCode).

Definition sftp_protocol_error : SftpProductionError := Transport SftpProtocol.

Definition map_transfer_runtime_failure (e : SftpRuntimeError) : TransferFailureCode :=
  match e with
  | Conflict => TargetExists
  | UnsafeReplaceUnsupported => FUnsafeReplaceUnsupported
  | LengthMismatch | ProgressRegression => FLengthMismatch
  | CleanupIncomplete => FCleanupIncomplete
  | UnsupportedPathEncoding => FUnsupportedPathEncoding
  | InvalidInput | StaleGeneration | InvalidState | LocalDirectoryTimeout | ChallengeMismatch
  | ResumeEvidenceMismatch => Protocol
  end.

Definition map_transfer_execution_failure (e : SftpProductionError) : TransferFailureCode :=
  match e with
  | NonUtf8RemotePath | Runtime UnsupportedPathEncoding => FUnsupportedPathEncoding
  | Runtime e => map_transfer_runtime_failure e
  | Transport ConnectionLost => TransportLost
  | VaultUnavailable | Profile | Connection => TransportLost
  | Transport _ | ShutdownIncomplete => Protocol
  end.

Definition remote_hardlink_failure (e : ClientError) : TransferFailureCode :=
  match e with
  | Status StPermissionDenied => PermissionDenied
  | Status StNoConnection | Status StConnectionLost => TransportLost
  | Status StOpUnsupported => FUnsafeReplaceUnsupported
  | Status StOther => TargetExists
  | ClientOther => Protocol
  end.

(** ** Requests with a deadline *)

Definition bounded_protocol {X} (r : Req X) : Prog (pres X) :=
  Ask r (λ x, Ret (match x with Answer a => Ok a | _ => Err sftp_protocol_error end)).

Definition bounded_transfer_io {X} (r : Req X) (failure : TransferFailureCode) : Prog (tres X) :=
  Ask r (λ x, Ret (match x with Answer a => Ok a | _ => Err failure end)).

(** ** Paths and metadata *)

Definition remote_path_utf8 (path : RemotePath) : pres str :=
  ok_or (from_utf8 path) NonUtf8RemotePath.

(** The sibling of [target] whose name is [.name], [infix], [unique], [.part]. *)
Definition temporary_sibling (infix unique : str) (target : RemotePath) : sres RemotePath :=
  let? target := ok_or (from_utf8 target) UnsupportedPathEncoding in
  let? (parent, name) := ok_or (rsplit_once 47 target) InvalidInput in
  if bool_decide (name = []) then Err InvalidInput
  else
    let parent := if bool_decide (parent = []) then lit "/" else parent in
    let separator := if bool_decide (parent = lit "/") then [] else lit "/" in
    parse_path (utf8_encode
      (parent ++ separator ++ lit "." ++ name ++ infix ++ unique ++ lit ".part")).

Definition remote_temporary_target (target : RemotePath) (id : TransferId) : sres RemotePath :=
  temporary_sibling (lit ".norishell-") id target.

Definition remote_edit_temporary_path (target : RemotePath) (operation : str) : sres RemotePath :=
  temporary_sibling (lit ".norishell-edit-") operation target.

Definition remote_entry_kind_from_flags (regular directory symlink : bool) : RemoteEntryKind :=
  if regular then EntryFile else if directory then EntryDirectory
  else if symlink then EntrySymlink else EntryOther.

Definition remote_precondition_from_metadata (m : RemoteFileAttributes) : RemoteObjectPrecondition :=
  mkPrecondition (remote_entry_kind_from_flags (is_regular m) (is_dir m) (is_symlink m))
    (md_size m) ((λ t, t * 1000) <$> md_mtime m).

(** [char::is_control] and the bidirectional marks. *)
Definition is_unsafe_display_character (c : Z) : bool :=
  is_control c || (c =? 1564) || (c =? 8206) || (c =? 8207) || between 8234 c 8238 || between 8294 c 8297.

(** One byte of a path that cannot be shown as it is. *)
Definition escape_byte (b : Z) : str :=
  if (is_ascii_graphic b || (b =? 32)) && negb (b =? 92) then [b]
  else if b =? 92 then [92; 92]
  else [92; 120; digit_char (b / 16); digit_char (b mod 16)].

Definition escape_path (bytes : list Z) : str :=
  concat (map escape_byte (take (Z.to_nat (MAX_LABEL_BYTES / 4)) bytes))
  ++ (if MAX_LABEL_BYTES / 4 <? zlen bytes then [8230] else []).

Definition safe_remote_path_display (bytes : list Z) : str :=
  match from_utf8 bytes with
  | Some value =>
      if negb (existsb is_unsafe_display_character value)
      then take (Z.to_nat MAX_LABEL_BYTES) value
      else escape_path bytes
  | None => escape_path bytes
  end.

(** ** The local file, on Unix *)

Record NativeFileIdentity := mkIdentity {
  device : Z;
  inode : Z;
  mode : Z;
  size : Z;
  modified_seconds : Z;
  modified_nanoseconds : Z }.

#[global] Instance identity_eq : EqDecision NativeFileIdentity.
Proof. solve_decision. Defined.

Definition S_IFMT : Z := 61440.
Definition S_IFREG : Z := 32768.
Definition S_IFDIR : Z := 16384.

Definition identity_regular (i : NativeFileIdentity) : bool := Z.land (mode i) S_IFMT =? S_IFREG.
Definition identity_directory (i : NativeFileIdentity) : bool := Z.land (mode i) S_IFMT =? S_IFDIR.

Record NativeLocalBoundary := mkBoundary {
  parent_device : Z;
  parent_inode : Z;
  has_upload_source : bool;
  upload_identity : option NativeFileIdentity }.

(** What the operating system answers: the metadata of the two descriptors,
    whether the descriptor can be duplicated and rewound, and the reads: a
    chunk, or an error. The file ends after the last of them. *)
Record SourceIo := mkSourceIo {
  parent_metadata : option NativeFileIdentity;
  source_metadata : option NativeFileIdentity;
  clone_ok : bool;
  seek_ok : bool;
  reads : list (option (list Z)) }.

Definition verify_parent (b : NativeLocalBoundary) (io : SourceIo) : rres unit unit :=
  let? i := ok_or (parent_metadata io) tt in
  if negb (device i =? parent_device b) || negb (inode i =? parent_inode b)
     || negb (identity_directory i)
  then Err tt else Ok tt.

(** The reads of the source from its start. *)
Definition open_upload_source (b : NativeLocalBoundary) (io : SourceIo) (expected_bytes : Z)
  : rres unit (list (option (list Z))) :=
  let? _ := verify_parent b io in
  if negb (has_upload_source b) then Err tt
  else
    let? expected := ok_or (upload_identity b) tt in
    let? observed := ok_or (source_metadata io) tt in
    if negb (bool_decide (observed = expected)) || negb (identity_regular observed)
       || negb (size observed =? expected_bytes)
    then Err tt
    else if negb (clone_ok io) || negb (seek_ok io) then Err tt
    else Ok (reads io).

(** ** The directory client *)

Record RemoteTransferPreparationFacts := mkPreparation {
  pf_target_existed : bool;
  pf_target_precondition : option RemoteObjectPrecondition;
  pf_temporary_target_existed : bool;
  pf_temporary_target_length : option Z;
  pf_safe_commit_supported : bool }.

(** [live] is the generation of the client. *)
Definition client_generation (live g : SftpGeneration) : Prog (pres unit) :=
  Ret (if live =? g then Ok tt else Err (Runtime StaleGeneration)).

Section Client.
Context (live : SftpGeneration) (posix_rename_supported : bool).

Definition inspect_transfer_targets (g : SftpGeneration) (target temporary : RemotePath)
  : Prog (pres RemoteTransferPreparationFacts) :=
  let* _ := client_generation live g in
  let* _ := Ret (if bool_decide (target = temporary)
                    || negb (bool_decide (parent target = parent temporary))
                 then Err (Runtime InvalidInput) else Ok tt) in
  let* target := Ret (remote_path_utf8 target) in
  let* temporary := Ret (remote_path_utf8 temporary) in
  let* target_existed := bounded_protocol (TryExists target) in
  let* target_precondition :=
    if target_existed : bool then
      let* m := bounded_protocol (SymlinkMetadata target) in
      Ret (Ok (Some (remote_precondition_from_metadata m)))
    else Ret (Ok None) in
  let* temporary_existed := bounded_protocol (TryExists temporary) in
  let* temporary_length :=
    if temporary_existed : bool then
      let* m := bounded_protocol (SymlinkMetadata temporary) in
      Ret (if negb (is_regular m) then Err (Runtime InvalidInput) else Ok (Some (md_len m)))
    else Ret (Ok None) in
  Ret (Ok (mkPreparation target_existed target_precondition temporary_existed temporary_length
    match target_precondition with
    | Some p => bool_decide (pre_kind p = EntryFile) && posix_rename_supported
    | None => false
    end)).

Definition cleanup_temporary_target (g : SftpGeneration) (temporary : RemotePath)
  : Prog (pres CleanupOutcome) :=
  let* _ := client_generation live g in
  let* path := Ret (remote_path_utf8 temporary) in
  let* existed := bounded_protocol (TryExists path) in
  if negb existed then Ret (Ok Cleaned)
  else
    run* removed := bounded_protocol (RemoveFile path) in
    match removed with
    | Ok _ =>
        run* still := bounded_protocol (TryExists path) in
        Ret (Ok match still with Ok false => Cleaned | _ => Residual path end)
    | _ => Ret (Ok (Residual path))
    end.

(** ** The upload *)

(** A change of the record under its lock; the record may be gone. *)
Definition with_record {X} (m : AM X) : Prog (tres X) :=
  Locked m (λ x, Ret match x with
                     | Some x => rmap_err map_transfer_runtime_failure x
                     | None => Err Protocol
                     end).

Definition record_transfer_progress (id : TransferId) (g : SftpGeneration) (copied : Z) : Prog (tres unit) :=
  with_record (record_progress id g copied).

Definition begin_transfer_commit (id : TransferId) (g : SftpGeneration) (observed : Z)
    (publish_cancellable : bool) : Prog (tres unit) :=
  with_record (abind (begin_verification id g observed) (λ _,
               abind (begin_commit id g) (λ _,
               if publish_cancellable then mark_publish_cancellable id g else aret tt))).

Definition finish_transfer (id : TransferId) (g : SftpGeneration) (facts : CommitFacts) : Prog (tres unit) :=
  with_record (complete_transfer id g facts).

(** The loop that copies the source, a chunk at a time. *)
Fixpoint copy_chunks (id : TransferId) (g : SftpGeneration) (h : Handle)
    (chunks : list (option (list Z))) (copied : Z) : Prog (tres unit) :=
  Await match chunks with
  | [] | Some [] :: _ => Ret (Ok tt)
  | None :: _ => Ret (Err PermissionDenied)
  | Some chunk :: chunks =>
      let* _ := bounded_transfer_io (WriteAll h chunk) Protocol in
      let copied := saturating_add copied (zlen chunk) in
      let* _ := record_transfer_progress id g copied in
      copy_chunks id g h chunks copied
  end.

(** The reads after a seek to [n]. *)
Fixpoint skip_bytes (n : Z) (chunks : list (option (list Z))) : list (option (list Z)) :=
  match chunks with
  | Some chunk :: rest =>
      if zlen chunk <=? n then skip_bytes (n - zlen chunk) rest
      else Some (drop (Z.to_nat n) chunk) :: rest
  | _ => chunks
  end.

(** The target takes the temporary file's place in one request: replaced when
    it was there, linked otherwise. The answer says whether it was replaced. *)
Definition commit_upload (temporary_path final_path : str)
    (target_precondition : option RemoteObjectPrecondition) : Prog (tres bool) :=
  match target_precondition with
  | Some expected =>
      let* current := bounded_transfer_io (SymlinkMetadata final_path) TargetExists in
      let* _ := Ret (if bool_decide (remote_precondition_from_metadata current = expected)
                     then Ok tt else Err TargetExists) in
      let* replaced := bounded_transfer_io (PosixRename temporary_path final_path) CommitOutcomeUncertain in
      Ret (if negb replaced then Err FUnsafeReplaceUnsupported else Ok true)
  | None =>
      let* linked := Ask (Hardlink temporary_path final_path) (λ x, Ret match x with
        | Answer b => Ok b
        | TimedOut => Err CommitOutcomeUncertain
        | Refused e => Err (remote_hardlink_failure e)
        end) in
      Ret (if negb linked then Err FUnsafeReplaceUnsupported else Ok false)
  end.

(** The inspection and what the actor is told of it; the answer is the target's
    metadata, when there is a target. *)
Definition prepare_upload (id : TransferId) (plan : TransferPlan) (target temporary : RemotePath)
  : Prog (tres (option RemoteObjectPrecondition)) :=
  let* facts := pmap_err map_transfer_execution_failure
                  (inspect_transfer_targets (plan_generation plan) target temporary) in
  let* _ :=
    if pf_temporary_target_existed facts then
      let* cleanup := pmap_err map_transfer_execution_failure
                        (cleanup_temporary_target (plan_generation plan) temporary) in
      Ret (if bool_decide (cleanup = Cleaned) then Ok tt else Err FCleanupIncomplete)
    else Ret (Ok tt) in
  let* _ := with_record (transfer_prepared id (plan_generation plan) (RemoteTemp temporary)
                           (pf_target_existed facts) (pf_safe_commit_supported facts)) in
  Ret (Ok (pf_target_precondition facts)).

Definition run_upload (id : TransferId) (plan : TransferPlan) (b : NativeLocalBoundary) (io : SourceIo)
    (verified_resume_file : option Handle) : Prog (tres unit) :=
  let g := plan_generation plan in
  match plan_target plan with
  | LocalToken _ => Ret (Err Protocol)
  | Remote target =>
      let* temporary := Ret (rmap_err (λ _, FUnsupportedPathEncoding) (remote_temporary_target target id)) in
      let* target_precondition :=
        if resume_from plan =? 0 then prepare_upload id plan target temporary else Ret (Ok None) in
      let* chunks := Ret (rmap_err (λ _, PermissionDenied) (open_upload_source b io (plan_expected_bytes plan))) in
      let* chunks := if 0 <? resume_from plan
                     then Await (Ret (if seek_ok io then Ok (skip_bytes (resume_from plan) chunks)
                                      else Err PermissionDenied))
                     else Ret (Ok chunks) in
      let* temporary_path := Ret (rmap_err (λ _, FUnsupportedPathEncoding) (remote_path_utf8 temporary)) in
      let* h :=
        if resume_from plan =? 0 then
          match verified_resume_file with
          | Some _ => Ret (Err Protocol)
          | None => bounded_transfer_io (OpenNew temporary_path) Protocol
          end
        else Ret (ok_or verified_resume_file Protocol) in
      let* _ := copy_chunks id g h chunks (resume_from plan) in
      let* _ := bounded_transfer_io (SyncAll h) Protocol in
      let* m := bounded_transfer_io (FileMetadata h) Protocol in
      let* _ := bounded_transfer_io (CloseFile h) Protocol in
      if 0 <? resume_from plan then Ret (Err FUnsafeReplaceUnsupported)
      else
        let* _ := begin_transfer_commit id g (md_len m) false in
        let* final_path := Ret (rmap_err (λ _, FUnsupportedPathEncoding) (remote_path_utf8 target)) in
        let* atomic_replace := commit_upload temporary_path final_path target_precondition in
        let* m := bounded_transfer_io (SymlinkMetadata final_path)
                    (if atomic_replace : bool then CommitOutcomeUncertain else Protocol) in
        let final_length := md_len m in
        let* _ := Ret (if atomic_replace && negb (final_length =? plan_expected_bytes plan)
                       then Err CommitOutcomeUncertain else Ok tt) in
        let* _ := if negb atomic_replace
                  then bounded_transfer_io (RemoveFile temporary_path) FCleanupIncomplete
                  else Ret (Ok tt) in
        finish_transfer id g (mkFacts final_length (negb atomic_replace) atomic_replace)
  end.

End Client.

(** ** The task *)

Definition cleanup_transfer_artifact (live : SftpGeneration) (plan : TransferPlan) : Prog CleanupOutcome :=
  match plan_target plan with
  | Remote target =>
      match remote_temporary_target target (plan_transfer_id plan) with
      | Ok temporary =>
          run* x := cleanup_temporary_target live (plan_generation plan) temporary in
          Ret match x with
              | Ok c => c
              | _ => Residual (default (lit "remote temporary file") (from_utf8 temporary))
              end
      | _ => Ret Cleaned
      end
  | LocalToken _ => Ret Cleaned
  end.

(** What is left behind, for an upload that had been resumed. *)
Definition resumed_residual (plan : TransferPlan) : CleanupOutcome :=
  Residual match plan_target plan with
           | Remote target =>
               match remote_temporary_target target (plan_transfer_id plan) with
               | Ok temporary => safe_remote_path_display temporary
               | _ => lit "remote temporary file"
               end
           | LocalToken _ => lit "remote temporary file"
           end.

Section Task.
Context `{DebugTarget} {W : Type} `{Server W}.

Definition find_transfer (id : TransferId) (e : Env W) : option TransferRecord :=
  match record e with Some a => transfers a !! id | None => None end.

Definition transfer_commit_started (id : TransferId) (e : Env W) : bool :=
  match find_transfer id e with
  | Some r => state_in [Committing; Completed] r || (state_in [Cancelling] r && publish_cancellable r)
  | None => false
  end.

(** The two signals of [select!]: the second is waited for when the session has
    a heartbeat. *)
Definition select_signals (id : TransferId) (watching : bool) (why : Why) (e : Env W) : Verdict :=
  let stop := if transfer_commit_started id e then Detach else Stop in
  match why with
  | CancelRequested => stop
  | TransportGone => if watching then stop else Ignore
  | DeadlinePassed => Ignore
  end.

Definition deadline (why : Why) (e : Env W) : Verdict :=
  match why with DeadlinePassed => Stop | _ => Ignore end.

Definition bounded_transfer_cleanup (live : SftpGeneration) (plan : TransferPlan) (s : Script) (e : Env W)
  : CleanupOutcome * Script * Env W :=
  if bool_decide (plan_direction plan = Upload) && (0 <? resume_from plan)
  then (resumed_residual plan, s, e)
  else match exec deadline true (cleanup_transfer_artifact live plan) s e with
       | (Returned c, s, e) => (c, s, e)
       | (Stopped _, s, e) => (Residual (lit "temporary target cleanup timed out"), s, e)
       end.

(** The rest of the task is not stopped. *)
Definition finishing {A} (d : A) (p : Prog A) (s : Script) (e : Env W) : A * Script * Env W :=
  match exec deadline false p s e with
  | (Returned a, s, e) => (a, s, e)
  | (Stopped _, s, e) => (d, s, e)
  end.

(** Each of the three ends tells the actor, and answers whether the connection
    is to be closed. *)
Definition cancelled_end (id : TransferId) (plan : TransferPlan) (cleanup : CleanupOutcome) : Prog bool :=
  Ask Canonicalize (λ x,
  Locked (finish_cancel id (plan_generation plan) cleanup) (λ _,
  Ret match x with Answer _ => false | _ => true end)).

Definition lost_end (id : TransferId) (plan : TransferPlan) : Prog bool :=
  Locked (fail_transfer id (plan_generation plan) TransportLost) (λ _, Ret true).

Definition failed_end (id : TransferId) (plan : TransferPlan) (failure : TransferFailureCode)
    (cleanup : option CleanupOutcome) : Prog bool :=
  let g := plan_generation plan in
  Locked (λ a,
    let current_state := state <$> transfers a !! id in
    if bool_decide (current_state = Some Cancelling) then
      finish_cancel id g
        match cleanup with
        | Some c => if bool_decide (failure = FCleanupIncomplete)
                    then Residual (lit "selected document may be partial") else c
        | None => Residual (lit "selected document may be partial")
        end a
    else if bool_decide (current_state = Some Cancelled) || bool_decide (current_state = Some Failed)
    then (Ok tt, a)
    else match cleanup with
         | Some c => fail_transfer_after_cleanup id g failure c a
         | None => fail_transfer id g failure a
         end) (λ _,
  Ret (bool_decide (failure ∈ [TransportLost; Protocol; CommitOutcomeUncertain; FCleanupIncomplete]))).

(** The connection is closed and the session told, unless it knows. *)
Definition close_end (plan : TransferPlan) : Prog unit :=
  Await (Locked (λ a,
    if bool_decide (ses_generation (summary a) = Some (plan_generation plan))
       && negb (session_in [Closed; SessionFailed] a)
    then transport_lost (plan_generation plan) a else (Ok tt, a)) (λ _, Ret tt)).

(** [run_transfer] of an upload: the answers are whether the connection was
    closed, and what is left of the script and of the session. *)
Definition run_transfer (live : SftpGeneration) (watching : bool) (id : TransferId) (plan : TransferPlan)
    (b : NativeLocalBoundary) (io : SourceIo) (verified_resume_file : option Handle)
    (s : Script) (e : Env W) : bool * Script * Env W :=
  let execution := run_upload live supports_posix_rename id plan b io verified_resume_file in
  let '(close, s, e) :=
    match exec (select_signals id watching) true execution s e with
    | (Stopped CancelRequested, s, e) =>
        let '(cleanup, s, e) := bounded_transfer_cleanup live plan s e in
        finishing true (cancelled_end id plan cleanup) s e
    | (Stopped _, s, e) => finishing true (lost_end id plan) s e
    | (Returned (Ok _), s, e) => (false, s, e)
    | (Returned (Err failure), s, e) =>
        if bool_decide (failure = TransportLost)
        then finishing true (failed_end id plan failure None) s e
        else let '(cleanup, s, e) := bounded_transfer_cleanup live plan s e in
             finishing true (failed_end id plan failure (Some cleanup)) s e
    | (Returned Panic, s, e) => (false, s, e)
    end in
  if close : bool
  then let '(_, s, e) := finishing tt (close_end plan) s e in (true, s, e)
  else (false, s, e).

End Task.

End Upload.
