(* ===== verification/SftpCommit.v ===== *)
(** * An upload is all or nothing

    What an upload does to the files of the server, for any server that keeps
    the promises of [ServerLaws], wherever the upload is stopped and whatever
    the other tasks of the application do with the session meanwhile. *)

From S2P Require Import Prelude RustStr SftpActor SftpTransfers SftpServer SftpUpload.

Module Commit.
Import Sftp Transfers Remote Upload.

(** ** The files of a server

    Names lead to files, several names may lead to the same file, and a handle
    leads to the file it was opened on. *)

Class FileView (W : Type) := {
  names : W → gmap str Z;
  content : W → Z → list Z;
  file_of : W → Handle → Z }.

Section View.
Context {W : Type} `{FileView W}.

Definition same_files (w w' : W) : Prop :=
  names w' = names w ∧ (∀ i, content w' i = content w i) ∧ (∀ h, file_of w' h = file_of w h).

(** Only the names change. *)
Definition renamed (w w' : W) (n : gmap str Z) : Prop :=
  names w' = n ∧ (∀ i, content w' i = content w i) ∧ (∀ h, file_of w' h = file_of w h).

(** A new, empty file at [p]. *)
Definition created (w w' : W) (p : str) (i : Z) : Prop :=
  names w !! p = None ∧ (∀ q, names w !! q ≠ Some i) ∧ names w' = <[p := i]> (names w) ∧
  content w' i = [] ∧ (∀ j, j ≠ i → content w' j = content w j).

End View.

Definition answered {A} (x : Reply A) : Prop := ∃ a, x = Answer a.

(** Files and names are as they were; handles may come and go. *)
Definition kept_files {W} `{FileView W} (w w' : W) : Prop :=
  names w' = names w ∧ ∀ i, content w' i = content w i.

(** A request that is answered has been carried out. One that is refused or not
    answered in time has been carried out by then, or is never. *)
Class ServerLaws (W : Type) `{Server W} `{FileView W} : Prop := {
  law_exists w p x w' : serve (TryExists p) w = (x, w') →
    same_files w w' ∧ ∀ b, x = Answer b → b = bool_decide (is_Some (names w !! p));
  law_symlink_metadata w p x w' : serve (SymlinkMetadata p) w = (x, w') →
    same_files w w' ∧ ∀ m, x = Answer m → is_Some (names w !! p);
  law_sync w h x w' : serve (SyncAll h) w = (x, w') → same_files w w';
  law_metadata w h x w' : serve (FileMetadata h) w = (x, w') →
    same_files w w' ∧ ∀ m n, x = Answer m → md_size m = Some n → n = zlen (content w (file_of w h));
  law_close w h x w' : serve (CloseFile h) w = (x, w') → kept_files w w';
  law_reading {A} (r : Req A) w x w' : reading r = true → serve r w = (x, w') → kept_files w w';
  law_set_metadata w p n x w' : serve (SetMetadata p n) w = (x, w') → same_files w w';
  law_canonicalize w x w' : serve Canonicalize w = (x, w') → same_files w w';
  (** The directory and the exclusive creation fail when the name is taken. *)
  law_create_dir w p x w' : serve (CreateDir p) w = (x, w') →
    (¬ answered x ∧ same_files w w') ∨ ∃ i, created w w' p i;
  law_open_new w p x w' : serve (OpenNew p) w = (x, w') →
    (¬ answered x ∧ same_files w w')
    ∨ ∃ i, created w w' p i ∧ ∀ h, x = Answer h → file_of w' h = i;
  (** Written at the end of a file that this handle created and wrote. *)
  law_write w h bytes x w' : serve (WriteAll h bytes) w = (x, w') →
    names w' = names w ∧ (∀ i, i ≠ file_of w h → content w' i = content w i) ∧
    (∀ h, file_of w' h = file_of w h) ∧
    (answered x → content w' (file_of w h) = content w (file_of w h) ++ bytes);
  (** [false] says that the server has no such extension. A link fails when the
      name is taken; a rename takes the place of what was there, at once. *)
  law_hardlink w p q x w' : serve (Hardlink p q) w = (x, w') →
    (x ≠ Answer true ∧ same_files w w')
    ∨ (x ≠ Answer false ∧ names w !! q = None ∧
       ∃ i, names w !! p = Some i ∧ renamed w w' (<[q := i]> (names w)));
  law_posix_rename w p q x w' : serve (PosixRename p q) w = (x, w') →
    (x ≠ Answer true ∧ same_files w w')
    ∨ (x ≠ Answer false ∧
       ∃ i, names w !! p = Some i ∧
            (names w !! q ≠ Some i → renamed w w' (<[q := i]> (delete p (names w)))) ∧
            (names w !! q = Some i → same_files w w'));
  law_remove_file w p x w' : serve (RemoveFile p) w = (x, w') →
    (¬ answered x ∧ same_files w w') ∨ renamed w w' (delete p (names w));
  law_remove_dir w p x w' : serve (RemoveDir p) w = (x, w') →
    (¬ answered x ∧ same_files w w') ∨ renamed w w' (delete p (names w)) }.

(** ** The record of the transfer during the upload *)

(** The other tasks leave the completion of this transfer to its own task. *)
Definition not_completing (id : TransferId) (op : Op) : Prop :=
  match op with OComplete id' _ _ => id' ≠ id | _ => True end.

(** What an operation does not change of a record, but completing it. *)
Definition still_open (r r' : TransferRecord) : Prop :=
  conflict_policy r' = conflict_policy r ∧ expected_bytes r' = expected_bytes r ∧
  (state r ≠ Completed → state r' ≠ Completed).

#[global] Instance still_open_reflexive : Reflexive still_open.
Proof. by intros r. Qed.

Lemma keep_residual_open {A} (answer : sres A) l r : still_open r (keep_residual answer l r).2.
Proof. unfold keep_residual. by destruct (bounded_label l). Qed.

Lemma pause_open `{DebugTarget} r : still_open r (pause_transfer r).
Proof. unfold pause_transfer. by destruct (state r) eqn:E; repeat split; rewrite ?E. Qed.

Lemma failure_state_open f : failure_state f ≠ Completed.
Proof. unfold failure_state. by destruct (bool_decide _). Qed.

Ltac open_cases :=
  intros; cbv zeta;
  repeat match goal with
  | |- still_open _ (if ?c then _ else _).2 => destruct c; cbn [snd]
  | |- still_open _ (match ?c with _ => _ end).2 => destruct c; cbn [snd]
  end;
  first [ by apply keep_residual_open
        | split_and!; cbn; first [ reflexivity | done | intros _; apply failure_state_open ] ].

Lemma step_open `{DebugTarget} op a id r :
  not_completing id op → transfers a !! id = Some r →
  ∃ r', transfers (step op a) !! id = Some r' ∧ still_open r r'.
Proof.
  intros Hc. destruct op; cbn [step not_completing] in *.
  all: try relate ltac:(apply pause_open || open_cases).
  intros Hr. exists r. split; [by apply transfer_mut_other|reflexivity].
Qed.

Section Upload.
Context `{DebugTarget} {W : Type} `{ServerLaws W}.
Context (id : TransferId) (policy : ConflictPolicy) (expected : Z).

(** The record of the transfer is there, and not completed. *)
Definition open_record (e : Env W) : Prop :=
  ∀ a, record e = Some a →
  ∃ r, transfers a !! id = Some r ∧ conflict_policy r = policy ∧ expected_bytes r = expected ∧
       state r ≠ Completed.

Lemma still_open_trans r1 r2 r3 : still_open r1 r2 → still_open r2 r3 → still_open r1 r3.
Proof. unfold still_open. naive_solver congruence. Qed.

Lemma run_open ops a r :
  Forall (not_completing id) ops → transfers a !! id = Some r →
  ∃ r', transfers (run ops a) !! id = Some r' ∧ still_open r r'.
Proof using Type.
  intros Ho. revert a r. induction Ho as [|op ops Hop _ IH]; intros a r Hr; [by exists r|].
  destruct (step_open op a id r Hop Hr) as (r1 & Hr1 & Ho1).
  destruct (IH _ r1 Hr1) as (r2 & Hr2 & Ho2). exists r2. split; [done|]. by eapply still_open_trans.
Qed.

Lemma disturb_open ops e : Forall (not_completing id) ops → open_record e → open_record (disturb ops e).
Proof using Type.
  intros Ho He a. unfold disturb. cbn. intros (a0 & Ha0 & ->)%fmap_Some.
  destruct (He a0 Ha0) as (r & Hr & ? & ? & ?). destruct (run_open ops a0 r Ho Hr) as (r' & Hr' & ? & ? & ?).
  exists r'. split; [done|]. split_and!; [congruence|congruence|auto].
Qed.

(** An operation under the lock that cannot complete the transfer. *)
Lemma locked_open {X} (m : AM X) e : related still_open m → open_record e → open_record (locked m e).2.
Proof using Type.
  intros Hm He a. unfold locked. destruct (record e) as [a0|] eqn:Ea; [|cbn; by rewrite Ea].
  destruct (He a0 Ea) as (r & Hr & ? & ? & ?). destruct (Hm a0 id r Hr) as (r' & Hr' & ? & ? & ?).
  unfold after, void in Hr'. destruct (m a0) as [x a1]. cbn in *. intros [= <-].
  exists r'. split; [done|]. split_and!; [congruence|congruence|auto].
Qed.

(** ** The files during the upload *)

Context (w0 : W) (t τ : str) (src : list Z).

(** A file the server had, other than an old temporary file. *)
Definition bound (i : Z) : Prop := ∃ p, p ≠ τ ∧ names w0 !! p = Some i.

Definition untouched (w : W) : Prop :=
  (∀ p, p ≠ τ → names w !! p = names w0 !! p) ∧ (∀ i, bound i → content w i = content w0 i).

(** The temporary file, written so far, has no other name. *)
Definition writing_temp (j : Z) (c : list Z) (w : W) : Prop :=
  untouched w ∧ names w !! τ = Some j ∧ (∀ p, p ≠ τ → names w !! p ≠ Some j) ∧ content w j = c.

(** The target is the file that was written; the temporary name is gone, or
    leads to the same file; nothing else has changed. *)
Definition committed (w : W) : Prop :=
  (∃ j, names w !! t = Some j ∧ content w j = src ∧ (names w !! τ = None ∨ names w !! τ = Some j)) ∧
  (∀ p, p ≠ τ → p ≠ t → names w !! p = names w0 !! p) ∧
  (∀ i, bound i → content w i = content w0 i) ∧
  (names w0 !! t = None ∨ policy = ReplaceSafely) ∧ zlen src = expected.

Definition all_or_nothing (w : W) : Prop := untouched w ∨ committed w.

(** A state of the upload: the record is open and the files are as [P] says. *)
Definition at_files (P : W → Prop) (e : Env W) : Prop := open_record e ∧ P (world e).

Notation I := (at_files all_or_nothing).
Notation WP := (wp (not_completing id)).

Lemma same_untouched w w' : same_files w w' → untouched w → untouched w'.
Proof using Type. intros (Hn & Hc & _) [? ?]. split; [by rewrite Hn|]. intros i Hi. rewrite Hc. auto. Qed.

Lemma same_writing j c w w' : same_files w w' → writing_temp j c w → writing_temp j c w'.
Proof using Type.
  intros Hs (? & ? & ? & ?). pose proof (same_untouched _ _ Hs). destruct Hs as (Hn & Hc & _).
  split_and!; [auto|by rewrite Hn|by rewrite Hn|by rewrite Hc].
Qed.

Lemma same_committed w w' : same_files w w' → committed w → committed w'.
Proof using Type.
  intros (Hn & Hc & _) (? & ? & ? & ? & ?). split_and!; rewrite ?Hn; try done; try setoid_rewrite Hc; done.
Qed.

Lemma same_all_or_nothing w w' : same_files w w' → all_or_nothing w → all_or_nothing w'.
Proof using Type. intros Hs [?|?]; [left; by eapply same_untouched|right; by eapply same_committed]. Qed.

Lemma bound_named w i : untouched w → bound i → ∃ p, p ≠ τ ∧ names w !! p = Some i.
Proof using Type. intros [Hn _] (p & Hp & Hi). exists p. split; [done|]. by rewrite Hn. Qed.

(** ** The steps *)

Lemma wp_ask {X A} (r : Req X) (k : Reply X → Prog A) (P : W → Prop) Q e :
  at_files P e → (∀ w, P w → all_or_nothing w) →
  (∀ w x w' e', P w → serve r w = (x, w') → open_record e' → world e' = w' →
     all_or_nothing w' ∧ WP (k x) Q I e') →
  WP (Ask r k) Q I e.
Proof using Type.
  intros [Ho HP] HI Hk ops Hops. cbn. set (e1 := disturb ops e).
  assert (open_record e1) as Ho1 by by apply disturb_open. assert (world e1 = world e) as Hw by done.
  unfold ask. destruct (serve r (world e1)) as [x w'] eqn:Es. cbn [fst snd]. rewrite Hw in Es.
  destruct (Hk _ _ _ (mkEnv w' (record e1) (trace e1 ++ [mkEvent r x])) HP Es Ho1 eq_refl) as [Hok Hwp].
  split; [split; [done|by apply HI]|]. split; [by split|done].
Qed.

Lemma wp_locked {X A} (m : AM X) (k : option (sres X) → Prog A) (P : W → Prop) Q e :
  at_files P e → (∀ w, P w → all_or_nothing w) →
  (∀ e', at_files P e' → WP (k (locked m e').1) Q I (locked m e').2) →
  WP (Locked m k) Q I e.
Proof using Type.
  intros [Ho HP] HI Hk ops Hops. cbn.
  assert (at_files P (disturb ops e)) as He by (split; [by apply disturb_open|done]).
  split; [split; [by apply disturb_open|by apply HI]|]. by apply Hk.
Qed.

Lemma wp_await {A} (k : Prog A) (P : W → Prop) Q e :
  at_files P e → (∀ w, P w → all_or_nothing w) → (∀ e', at_files P e' → WP k Q I e') →
  WP (Await k) Q I e.
Proof using Type.
  intros [Ho HP] HI Hk ops Hops. cbn.
  assert (at_files P (disturb ops e)) as He by (split; [by apply disturb_open|done]).
  split; [split; [by apply disturb_open|by apply HI]|]. by apply Hk.
Qed.

(** The result of a step: the files when it succeeds, and all or nothing when it
    fails. *)
Definition post {E A} (P : A → W → Prop) (x : rres E A) (e : Env W) : Prop :=
  match x with Ok a => at_files (P a) e | _ => I e end.

(** A postcondition that holds of an error whenever all or nothing does. *)
Definition lenient {E A} (Q : rres E A → Env W → Prop) : Prop :=
  ∀ x e, I e → is_ok x = false → Q x e.

Lemma post_lenient {E A} (P : A → W → Prop) : lenient (E := E) (post P).
Proof using Type. by intros [a|f|] e. Qed.

Lemma wp_then {E A B} (p : Prog (rres E A)) (k : A → Prog (rres E B)) P Q e :
  lenient Q → WP p (post P) I e → (∀ a e', at_files (P a) e' → WP (k a) Q I e') →
  WP (prbind p k) Q I e.
Proof using Type.
  intros HQ Hp Hk. apply wp_rbind. eapply wp_mono; [|done|exact Hp].
  intros [a|f|] e' He'; [by apply Hk|by apply HQ..].
Qed.

Lemma wp_seq {E A B} (p : Prog (rres E A)) (k : A → Prog (rres E B)) P R e :
  WP p (post P) I e → (∀ a e', at_files (P a) e' → WP (k a) (post R) I e') →
  WP (prbind p k) (post R) I e.
Proof using Type. apply wp_then, post_lenient. Qed.

Lemma wp_post_err {E F A} (f : E → F) (p : Prog (rres E A)) P e :
  WP p (post P) I e → WP (pmap_err f p) (post P) I e.
Proof using Type. intros Hp. apply wp_map_err. eapply wp_mono; [|done|exact Hp]. by intros [a|x|]. Qed.

Lemma wp_weaken {E A} (p : Prog (rres E A)) (P P' : A → W → Prop) e :
  (∀ a w, P a w → P' a w) → WP p (post P) I e → WP p (post P') I e.
Proof using Type.
  intros HP Hp. eapply wp_mono; [|done|exact Hp]. intros [a|x|] e'; [|done..]. intros [? ?]. split; auto.
Qed.

Lemma at_files_mono (P P' : W → Prop) e : (∀ w, P w → P' w) → at_files P e → at_files P' e.
Proof using Type. intros HP [? ?]. split; auto. Qed.

(** A value computed without waiting. *)
Lemma wp_value {E A B} (x : rres E A) (k : A → Prog (rres E B)) Q e :
  lenient Q → I e → (∀ a, x = Ok a → WP (k a) Q I e) → WP (prbind (Ret x) k) Q I e.
Proof using Type. intros HQ He Hk. destruct x as [a|f|]; cbn; [by apply Hk|by apply HQ..]. Qed.

Lemma wp_ret {E A B} (x : rres E A) (k : A → Prog (rres E B)) R e :
  I e → (∀ a, x = Ok a → WP (k a) (post R) I e) → WP (prbind (Ret x) k) (post R) I e.
Proof using Type. apply wp_value, post_lenient. Qed.

Lemma at_files_ok (P : W → Prop) e : (∀ w, P w → all_or_nothing w) → at_files P e → I e.
Proof using Type. apply at_files_mono. Qed.

(** A request: [P'] holds of the files after an answer. *)
Lemma wp_request {X E} (r : Req X) (f : E) (P : W → Prop) (P' : X → W → Prop) e :
  at_files P e → (∀ w, P w → all_or_nothing w) →
  (∀ w x w', P w → serve r w = (x, w') →
     match x with Answer a => P' a w' ∧ all_or_nothing w' | _ => all_or_nothing w' end) →
  WP (Ask r (λ x, Ret (match x with Answer a => Ok a | _ => Err f end))) (post P') I e.
Proof using Type.
  intros He HI Hr. apply (wp_ask _ _ P); [done|done|]. intros w x w' e' HP Hs Ho <-.
  specialize (Hr _ _ _ HP Hs). destruct x as [a|y|]; cbn.
  - destruct Hr. split; [done|by split].
  - split; [done|by split].
  - split; [done|by split].
Qed.

(** A request that only reads: [P] is kept, and the answer is true. *)
Lemma wp_read {X E} (r : Req X) (f : E) (P : W → Prop) (T : X → W → Prop) e :
  at_files P e → (∀ w, P w → all_or_nothing w) → (∀ w w', same_files w w' → P w → P w') →
  (∀ w x w', serve r w = (x, w') → same_files w w' ∧ ∀ a, x = Answer a → T a w) →
  (∀ a w w', same_files w w' → T a w → T a w') →
  WP (Ask r (λ x, Ret (match x with Answer a => Ok a | _ => Err f end)))
    (post (λ a w, P w ∧ T a w)) I e.
Proof using Type.
  intros He HI HP Hr HT. eapply wp_request; [done|done|]. intros w x w' Hw Hs.
  destruct (Hr _ _ _ Hs) as [Hsame Hx]. assert (all_or_nothing w') by eauto.
  destruct x as [a|y|]; [|done..]. split; [|done]. split; eauto.
Qed.

Lemma wp_exists {E} (f : E) p (P : W → Prop) e :
  at_files P e → (∀ w, P w → all_or_nothing w) → (∀ w w', same_files w w' → P w → P w') →
  WP (Ask (TryExists p) (λ x, Ret (match x with Answer a => Ok a | _ => Err f end)))
    (post (λ b w, P w ∧ b = bool_decide (is_Some (names w !! p)))) I e.
Proof using Type*.
  intros He HI HP. apply wp_read; [done..| |].
  - intros w x w' Hs. destruct (law_exists _ _ _ _ Hs). split; [done|]. auto.
  - intros b w w' (Hn & _) ->. by rewrite Hn.
Qed.

Lemma wp_symlink_metadata {E} (f : E) p (P : W → Prop) e :
  at_files P e → (∀ w, P w → all_or_nothing w) → (∀ w w', same_files w w' → P w → P w') →
  WP (Ask (SymlinkMetadata p) (λ x, Ret (match x with Answer a => Ok a | _ => Err f end)))
    (post (λ _ w, P w)) I e.
Proof using Type*.
  intros He HI HP. eapply wp_weaken; [|apply (wp_read _ _ P (λ _ _, True)); [done..| |done]].
  - by intros _ w [? _].
  - intros w x w' Hs. by destruct (law_symlink_metadata _ _ _ _ Hs).
Qed.

Hint Resolve same_untouched same_writing same_all_or_nothing : sftp.

Lemma untouched_ok w : untouched w → all_or_nothing w.
Proof using Type. by left. Qed.

Lemma writing_ok j c w : writing_temp j c w → all_or_nothing w.
Proof using Type. intros [? _]. by left. Qed.

Hint Resolve untouched_ok writing_ok : sftp.

(** Removing the temporary name. *)
Lemma removed_untouched w w' : renamed w w' (delete τ (names w)) → untouched w → untouched w'.
Proof using Type.
  intros (Hn & Hc & _) [? ?]. split; [|intros i Hi; rewrite Hc; auto].
  intros p Hp. rewrite Hn, lookup_delete_ne by done. auto.
Qed.

Lemma removed_committed w w' : t ≠ τ → renamed w w' (delete τ (names w)) → committed w → committed w'.
Proof using Type.
  intros Hne (Hn & Hc & _) ((j & Hj & Hs & _) & Hp & Hb & ? & ?). split_and!; [|..|done|done].
  - exists j. rewrite Hn, lookup_delete_ne, lookup_delete_eq, Hc by done. auto.
  - intros p ? ?. rewrite Hn, lookup_delete_ne by done. auto.
  - intros i Hi. rewrite Hc. auto.
Qed.

Lemma removed_all_or_nothing w w' :
  t ≠ τ → renamed w w' (delete τ (names w)) → all_or_nothing w → all_or_nothing w'.
Proof using Type.
  intros Hne Hr [?|?]; [left; by eapply removed_untouched|right; by eapply removed_committed].
Qed.

(** A request that keeps [P], whatever is answered. *)
Lemma wp_keep {X A} (r : Req X) (k : Reply X → Prog A) (P : W → Prop) Q e :
  at_files P e → (∀ w, P w → all_or_nothing w) →
  (∀ w x w', P w → serve r w = (x, w') → P w') →
  (∀ x e', at_files P e' → WP (k x) Q I e') →
  WP (Ask r k) Q I e.
Proof using Type.
  intros He HI Hr Hk. apply (wp_ask _ _ P); [done|done|]. intros w x w' e' HP Hs Ho <-.
  assert (P (world e')) by eauto. split; [auto|]. apply Hk. by split.
Qed.

(** The cleanup keeps what it finds. *)
Lemma wp_cleanup live g temporary (P : W → Prop) e :
  from_utf8 temporary = Some τ → at_files P e → (∀ w, P w → all_or_nothing w) →
  (∀ w w', same_files w w' → P w → P w') → (∀ w w', renamed w w' (delete τ (names w)) → P w → P w') →
  WP (cleanup_temporary_target live g temporary) (λ _ e, at_files P e) I e.
Proof using Type*.
  intros Hu He HI HP HP'. unfold cleanup_temporary_target, client_generation, prbind.
  destruct (live =? g); cbn [pbind]; [|done]. unfold remote_path_utf8. rewrite Hu. cbn [pbind ok_or].
  apply (wp_keep _ _ P); [done|done| |].
  { intros w x w' Hw Hs. destruct (law_exists _ _ _ _ Hs). eauto. }
  intros x e1 He1. destruct x as [b|y|]; cbn [pbind]; [|done|done]. destruct b; cbn [negb]; [|done].
  unfold bounded_protocol. cbn [pbind].
  apply (wp_keep _ _ P); [done|done| |].
  { intros w x w' Hw Hs. destruct (law_remove_file _ _ _ _ Hs) as [[_ ?]|?]; eauto. }
  intros x e2 He2. destruct x as [[]|y|]; cbn [pbind]; [|done|done].
  apply (wp_keep _ _ P); [done|done| |].
  { intros w x w' Hw Hs. destruct (law_exists _ _ _ _ Hs). eauto. }
  by intros [b|y|] e3 He3.
Qed.

(** ** The upload *)

Context (live : SftpGeneration) (plan : TransferPlan) (target temporary : RemotePath).
Context (Htarget : from_utf8 target = Some t) (Htemporary : from_utf8 temporary = Some τ).
Context (Hne : t ≠ τ).

Definition existed (b : bool) : Prop := b = bool_decide (is_Some (names w0 !! t)).

Lemma untouched_target w : untouched w → names w !! t = names w0 !! t.
Proof using Hne. intros [Hn _]. by apply Hn. Qed.

(** What the inspection finds. *)
Definition inspected (f : RemoteTransferPreparationFacts) : Prop :=
  existed (pf_target_existed f) ∧ pf_target_existed f = bool_decide (is_Some (pf_target_precondition f)).

Lemma at_untouched_ok e : at_files untouched e → I e.
Proof using Type. apply at_files_ok. eauto with sftp. Qed.

Hint Resolve at_untouched_ok : sftp.

Lemma wp_inspect sup g e :
  at_files untouched e →
  WP (inspect_transfer_targets live sup g target temporary) (post (λ f w, untouched w ∧ inspected f)) I e.
Proof using Type*.
  intros He. unfold inspect_transfer_targets, client_generation, remote_path_utf8, bounded_protocol.
  rewrite Htarget, Htemporary. do 4 (apply wp_ret; [by eauto with sftp|]; intros ? [= <-] || intros ? _).
  eapply wp_seq; [apply (wp_exists _ _ untouched); eauto with sftp|]. intros b e1 [Ho1 [Hu1 Hb]].
  rewrite untouched_target in Hb by done.
  eapply (wp_seq _ _ (λ o w, untouched w ∧ b = bool_decide (is_Some o))).
  { destruct b.
    - eapply wp_seq; [apply (wp_symlink_metadata _ _ untouched); [by split|eauto with sftp..]|].
      intros m e2 [? ?]. by split.
    - by split. }
  intros o e2 [Ho2 [Hu2 Hob]].
  eapply wp_seq; [apply (wp_exists _ _ untouched); [by split|eauto with sftp..]|].
  intros b' e3 [Ho3 [Hu3 _]].
  eapply (wp_seq _ _ (λ _, untouched)).
  { destruct b'; [|by split].
    eapply wp_seq; [apply (wp_symlink_metadata _ _ untouched); [by split|eauto with sftp..]|].
    intros m e4 He4. cbn. destruct (negb _); cbn; [eauto with sftp|done]. }
  intros l e4 [Ho4 Hu4]. split; [done|]. by split; [|split].
Qed.

(** The record under its lock. *)
Lemma wp_record {X} (m : AM X) (P : W → Prop) (P' : X → W → Prop) e :
  at_files P e → (∀ w, P w → all_or_nothing w) → related still_open m →
  (∀ a r x a', transfers a !! id = Some r → conflict_policy r = policy → expected_bytes r = expected →
     m a = (Ok x, a') → ∀ w, P w → P' x w) →
  WP (with_record m) (post P') I e.
Proof using Type.
  intros He HI Hm HP. apply (wp_locked _ _ P); [done|done|]. intros e' [Ho He'].
  pose proof (locked_open m e' Hm Ho) as Hopen. unfold locked in *.
  destruct (record e') as [a|] eqn:Ea; cbn in *; [|split; [done|by apply HI]].
  destruct (Ho a Ea) as (r & Hr & ? & ? & _). destruct (m a) as [x a'] eqn:Em. cbn in *.
  destruct x as [x|f|]; cbn; (split; [done|]); cbn; [by eapply HP|by apply HI..].
Qed.

Lemma prepared_open id' g temp b safe : related still_open (transfer_prepared id' g temp b safe).
Proof. relate open_cases. Qed.

Lemma progress_open id' g n : related still_open (record_progress id' g n).
Proof. relate open_cases. Qed.

(** What a successful [transfer_prepared] says of the target. *)
Lemma prepared_conflict g temp b safe a r x a' :
  transfers a !! id = Some r → transfer_prepared id g temp b safe a = (Ok x, a') →
  b = true → conflict_policy r = ReplaceSafely.
Proof using Type.
  intros Hr. unfold transfer_prepared, transfer_mut, on_transfer. rewrite Hr.
  destruct (generation r =? g); [|done]. destruct (negb _); [done|].
  destruct (validate_for _ _); [|done|done]. cbn. intros Hx ->. cbn in Hx.
  destruct (conflict_policy r); [|done]. by rewrite bool_decide_true in Hx.
Qed.

(** What is known once the actor has been told. *)
Definition agreed (o : option RemoteObjectPrecondition) : Prop :=
  match o with
  | None => names w0 !! t = None
  | Some _ => policy = ReplaceSafely
  end.

Lemma wp_prepare sup e :
  at_files untouched e →
  WP (prepare_upload live sup id plan target temporary) (post (λ o w, untouched w ∧ agreed o)) I e.
Proof using Type*.
  intros He. unfold prepare_upload.
  eapply wp_seq; [apply wp_post_err, wp_inspect; done|]. intros f e1 [Ho1 [Hu1 [Hex Hpre]]].
  eapply (wp_seq _ _ (λ _, untouched)).
  { destruct (pf_temporary_target_existed f); [|by split].
    eapply (wp_seq _ _ (λ _, untouched)).
    - apply wp_map_err. eapply wp_mono; [| |eapply (wp_cleanup _ _ _ untouched)]; eauto with sftp.
      + intros x e2 He2. destruct x; cbn; eauto with sftp.
      + by split.
      + apply removed_untouched.
    - intros c e2 He2. destruct (bool_decide (c = Cleaned)); [exact He2|exact (at_untouched_ok _ He2)]. }
  intros [] e2 He2.
  eapply (wp_seq _ _ (λ _ w, untouched w ∧ (pf_target_existed f = true → policy = ReplaceSafely))).
  { apply (wp_record _ untouched); [done|eauto with sftp|apply prepared_open|].
    intros a r x a' Hr Hp _ Hx w Hw. split; [done|]. intros Hb. rewrite <- Hp.
    by eapply prepared_conflict. }
  intros [] e3 [Ho3 [Hu3 Hpol]]. split; [done|]. split; [done|]. unfold agreed, existed in *.
  destruct (pf_target_precondition f) as [q|]; [apply Hpol; rewrite Hpre; by apply bool_decide_true|].
  rewrite Hpre in Hex. destruct (names w0 !! t) eqn:E; [|done]. discriminate Hex.
Qed.

(** The temporary file with its handle. *)
Definition writing_handle (h : Handle) (j : Z) (c : list Z) (w : W) : Prop :=
  writing_temp j c w ∧ file_of w h = j.

Lemma same_handle h j c w w' : same_files w w' → writing_handle h j c w → writing_handle h j c w'.
Proof using Type. intros Hs [? <-]. split; [by eapply same_writing|]. by destruct Hs as (_ & _ & ?). Qed.

Lemma handle_ok h j c w : writing_handle h j c w → all_or_nothing w.
Proof using Type. intros [? _]. eauto with sftp. Qed.

Hint Resolve same_handle handle_ok : sftp.

Lemma created_untouched w w' j : created w w' τ j → untouched w → untouched w'.
Proof using Type.
  intros (_ & Hf & Hn & _ & Hc) Hu. split.
  - intros p Hp. rewrite Hn, lookup_insert_ne by done. by apply Hu.
  - intros i Hi. destruct (bound_named w i Hu Hi) as (p & _ & Hpi).
    rewrite Hc by (intros ->; by apply (Hf p)). by apply Hu.
Qed.

Lemma wp_open_new e :
  at_files untouched e →
  WP (bounded_transfer_io (OpenNew τ) Protocol) (post (λ h w, ∃ j, writing_handle h j [] w)) I e.
Proof using Type*.
  intros He. eapply (wp_request _ _ untouched); [done|eauto with sftp|]. intros w x w' Hw Hs.
  destruct (law_open_new _ _ _ _ Hs) as [[Hx Hsame]|(j & Hj & Hfile)].
  { destruct x as [h|y|]; [destruct Hx; by exists h|eauto with sftp..]. }
  assert (untouched w') as Hw' by by eapply created_untouched.
  destruct x as [h|y|]; [|eauto with sftp..]. split; [|eauto with sftp]. exists j.
  split; [|by apply Hfile]. destruct Hj as (_ & Hf & Hn & Hc & _). split_and!; [done|..|done].
  - by rewrite Hn, lookup_insert_eq.
  - intros p Hp. rewrite Hn, lookup_insert_ne by done. apply Hf.
Qed.

Lemma write_untouched h j c bytes x w w' :
  serve (WriteAll h bytes) w = (x, w') → writing_handle h j c w → untouched w'.
Proof using Type*.
  intros Hs [(Hu & Ht & Hf & Hc) Hh]. destruct (law_write _ _ _ _ _ Hs) as (Hn & Ho & _). split.
  - intros p Hp. rewrite Hn. by apply Hu.
  - intros i Hi. destruct (bound_named w i Hu Hi) as (p & Hp & Hpi).
    rewrite Ho; [by apply Hu|]. rewrite Hh. intros ->. by apply (Hf p).
Qed.

Lemma wp_write h j c bytes e :
  at_files (writing_handle h j c) e →
  WP (bounded_transfer_io (WriteAll h bytes) Protocol) (post (λ _, writing_handle h j (c ++ bytes))) I e.
Proof using Type*.
  intros He. eapply (wp_request _ _ (writing_handle h j c)); [done|eauto with sftp|]. intros w x w' Hw Hs.
  assert (untouched w') as Hu by by eapply write_untouched.
  destruct x as [[]|y|]; [|eauto with sftp..]. split; [|eauto with sftp].
  destruct Hw as [(_ & Ht & Hf & Hc) Hh]. destruct (law_write _ _ _ _ _ Hs) as (Hn & _ & Hf' & Ha).
  split; [|by rewrite Hf']. split_and!; [done|by rewrite Hn|by rewrite Hn|].
  rewrite <- Hh, Ha, Hh, Hc; [done|]. by eexists.
Qed.

(** The bytes of the source: what the reads return before the end of the file. *)
Fixpoint source_bytes (chunks : list (option (list Z))) : list Z :=
  match chunks with
  | Some (b :: chunk) :: rest => (b :: chunk) ++ source_bytes rest
  | _ => []
  end.

(** A report of progress that is accepted is within the expected length. *)
Lemma progress_within g n a r x a' :
  transfers a !! id = Some r → record_progress id g n a = (Ok x, a') → n ≤ expected_bytes r.
Proof using Type.
  intros Hr. unfold record_progress, transfer_mut, on_transfer. rewrite Hr.
  destruct (generation r =? g); [|done]. destruct (_ || _) eqn:E; [done|]. intros _. bprop. lia.
Qed.

(** The number of bytes copied, as the code counts them. *)
Definition counted (c : list Z) : Z := Z.min u64_max (zlen c).

Lemma counted_app c d : saturating_add (counted c) (zlen d) = counted (c ++ d).
Proof using Type.
  unfold saturating_add, counted. rewrite zlen_app. pose proof (zlen_nonneg d). unfold u64_max. lia.
Qed.

Lemma wp_copy h j g chunks c e :
  at_files (writing_handle h j c) e → c = [] ∨ counted c ≤ expected →
  WP (copy_chunks id g h chunks (counted c))
    (post (λ _ w, writing_handle h j (c ++ source_bytes chunks) w ∧
                  (c ++ source_bytes chunks = [] ∨ counted (c ++ source_bytes chunks) ≤ expected))) I e.
Proof using Type*.
  revert c e. induction chunks as [|[[|b chunk]|] chunks IH]; intros c e He Hc; cbn [copy_chunks source_bytes];
    apply (wp_await _ (writing_handle h j c)); eauto with sftp; intros e1 He1.
  - rewrite app_nil_r. destruct He1. split; [done|]. by split.
  - rewrite app_nil_r. destruct He1. split; [done|]. by split.
  - eapply wp_seq; [by apply wp_write|]. intros [] e2 He2. rewrite counted_app.
    eapply (wp_seq _ _ (λ _ w, writing_handle h j (c ++ b :: chunk) w ∧ counted (c ++ b :: chunk) ≤ expected)).
    { apply (wp_record _ (writing_handle h j (c ++ b :: chunk))); [done|eauto with sftp|apply progress_open|].
      intros a r x a' Hr _ Hx Hp w Hw. split; [done|]. rewrite <- Hx. by eapply progress_within. }
    intros [] e3 [Ho3 [Hw3 Hle]]. rewrite (assoc_L (++) c). apply IH; [by split|by right].
  - eapply at_files_mono; [|done]. eauto with sftp.
Qed.

Lemma begin_commit_open g n : related still_open (abind (begin_verification id g n) (λ _,
  abind (begin_commit id g) (λ _, aret tt))).
Proof using Type.
  assert (related still_open (begin_verification id g n)) as Hv by relate open_cases.
  assert (related still_open (begin_commit id g)) as Hc by relate open_cases.
  intros a id' r Hr. unfold after, void, abind in *.
  destruct (Hv a id' r Hr) as (r1 & Hr1 & Ho1). unfold after, void in Hr1.
  destruct (begin_verification id g n a) as [[[]| |] a1]; cbn in *; [|by exists r1..].
  destruct (Hc a1 id' r1 Hr1) as (r2 & Hr2 & Ho2). unfold after, void in Hr2.
  destruct (begin_commit id g a1) as [[[]| |] a2]; cbn in *;
    (exists r2; split; [done|by eapply still_open_trans]).
Qed.

Lemma verified_length_ok g n a r x a' :
  transfers a !! id = Some r →
  abind (begin_verification id g n) (λ _, abind (begin_commit id g) (λ _, aret tt)) a = (Ok x, a') →
  n = expected_bytes r.
Proof using Type.
  intros Hr. unfold abind, begin_verification, transfer_mut, on_transfer. rewrite Hr.
  destruct (generation r =? g); [|done]. destruct (negb (state_in _ _)); [done|].
  destruct (_ || _) eqn:E; [done|]. intros _. bprop. lia.
Qed.

(** The end of the writing: the length agrees. *)
Lemma wp_written h j c g (k : Prog (tres unit)) Q e :
  lenient Q → at_files (writing_handle h j c) e → c = [] ∨ counted c ≤ expected →
  (∀ e', at_files (λ w, writing_temp j c w ∧ zlen c = expected) e' → WP k Q I e') →
  WP (let* _ := bounded_transfer_io (SyncAll h) Protocol in
      let* m := bounded_transfer_io (FileMetadata h) Protocol in
      let* _ := bounded_transfer_io (CloseFile h) Protocol in
      let* _ := begin_transfer_commit id g (md_len m) false in k) Q I e.
Proof using Type*.
  intros HQ He Hc Hk.
  eapply (wp_then _ _ (λ _, writing_handle h j c)); [done|..].
  { eapply (wp_request _ _ (writing_handle h j c)); [done|eauto with sftp|]. intros w x w' Hw Hs.
    apply law_sync in Hs. destruct x; eauto with sftp. }
  intros [] e1 He1.
  eapply (wp_then _ _ (λ m w, writing_handle h j c w ∧ ∀ n, md_size m = Some n → n = zlen c)); [done|..].
  { eapply (wp_request _ _ (writing_handle h j c)); [done|eauto with sftp|]. intros w x w' Hw Hs.
    destruct (law_metadata _ _ _ _ Hs) as [Hsame Hm]. destruct x as [m|y|]; [|eauto with sftp..].
    split; [|eauto with sftp]. split; [eauto with sftp|]. intros n Hn.
    rewrite (Hm m n eq_refl Hn). by destruct Hw as [(_ & _ & _ & <-) ->]. }
  intros m e2 [Ho2 [Hw2 Hm]].
  eapply (wp_then _ _ (λ _, writing_temp j c)); [done|..].
  { eapply (wp_request _ _ (writing_handle h j c)); [by split|eauto with sftp|]. intros w x w' [(Hu & Ht & Hf & Hcw) _] Hs.
    destruct (law_close _ _ _ _ Hs) as [Hn Hcc].
    assert (writing_temp j c w') as Hw'.
    { split_and!; [split; [by rewrite Hn; apply Hu|intros i Hi; rewrite Hcc; by apply Hu]|..];
        by rewrite ?Hn, ?Hcc. }
    destruct x; eauto with sftp. }
  intros [] e3 He3. eapply (wp_then _ _ (λ _ w, writing_temp j c w ∧ zlen c = expected)); [done| |].
  2: { intros [] e4 He4. by apply Hk. }
  apply (wp_record _ (writing_temp j c)); [done|eauto with sftp|apply begin_commit_open|].
  intros a r x a' Hr _ Hx Ha w Hw. split; [done|]. apply (verified_length_ok g _ _ r) in Ha; [|done].
  rewrite Hx in Ha. unfold md_len in Ha. destruct (md_size m) as [n|] eqn:En; cbn in Ha.
  - rewrite <- (Hm n eq_refl). done.
  - destruct Hc as [->|Hc]; [done|]. subst. unfold counted, u64_max in Hc. pose proof (zlen_nonneg c). lia.
Qed.

(** The file that was written is the target now. *)
Definition committed_as (gone : bool) (w : W) : Prop :=
  committed w ∧ (gone = true → names w !! τ = None).

Lemma linked_committed j w w' :
  writing_temp j src w → zlen src = expected → names w0 !! t = None →
  renamed w w' (<[t := j]> (names w)) → committed w'.
Proof using Type*.
  intros (Hu & Ht & Hf & Hc) Hl Hno (Hn & Hcc & _). split_and!; [|..|by left|done].
  - exists j. rewrite Hn, lookup_insert_eq, lookup_insert_ne, Hcc, Ht by done. auto.
  - intros p ? ?. rewrite Hn, lookup_insert_ne by done. by apply Hu.
  - intros i Hi. rewrite Hcc. by apply Hu.
Qed.

Lemma replaced_committed j w w' :
  writing_temp j src w → zlen src = expected → policy = ReplaceSafely →
  renamed w w' (<[t := j]> (delete τ (names w))) → committed_as true w'.
Proof using Type*.
  intros (Hu & Ht & Hf & Hc) Hl Hp (Hn & Hcc & _).
  assert (names w' !! τ = None) as Hgone by by rewrite Hn, lookup_insert_ne, lookup_delete_eq.
  split; [|done]. split_and!; [|..|by right|done].
  - exists j. rewrite Hn, lookup_insert_eq, Hcc, <- Hn. auto.
  - intros p ? ?. rewrite Hn, lookup_insert_ne, lookup_delete_ne by done. by apply Hu.
  - intros i Hi. rewrite Hcc. by apply Hu.
Qed.

Lemma committed_as_ok b w : committed_as b w → all_or_nothing w.
Proof using Type. intros [? _]. by right. Qed.

Lemma same_committed_as b w w' : same_files w w' → committed_as b w → committed_as b w'.
Proof using Type.
  intros Hs [Hc Hg]. split; [by eapply same_committed|]. destruct Hs as (-> & _). done.
Qed.

Hint Resolve committed_as_ok same_committed_as : sftp.

Lemma wp_commit j o e :
  at_files (writing_temp j src) e → zlen src = expected → agreed o →
  WP (commit_upload τ t o) (post committed_as) I e.
Proof using Type*.
  intros He Hl Ho. unfold commit_upload. destruct o as [expect|]; cbn in Ho.
  - eapply wp_seq; [apply (wp_symlink_metadata _ _ (writing_temp j src)); eauto with sftp|].
    intros m e1 He1. apply wp_ret; [eapply at_files_ok; [|done]; eauto with sftp|]. intros [] _.
    eapply (wp_seq _ _ (λ b w, all_or_nothing w ∧ (b = true → committed_as true w))).
    { eapply (wp_request _ _ (writing_temp j src)); [done|eauto with sftp|]. intros w x w' Hw Hs.
      destruct (law_posix_rename _ _ _ _ _ Hs) as [[Hx Hsame]|(Hx & i & Hi & Hdone & _)].
      - destruct x as [[]|y|]; eauto with sftp; [done|]. split; [|eauto with sftp]. split; [eauto with sftp|done].
      - destruct Hw as (Hu & Ht & Hf & Hc). rewrite Ht in Hi. injection Hi as <-.
        assert (committed_as true w') as Hcom.
        { eapply replaced_committed; [by split_and!|done..|]. apply Hdone. by apply Hf. }
        destruct x as [b|y|]; eauto with sftp. }
    intros b e2 [Ho2 [Hw2 Hb]]. destruct b; cbn; (split; [done|]); [by apply Hb|done].
  - eapply (wp_seq _ _ (λ b w, all_or_nothing w ∧ (b = true → committed_as false w))).
    { apply (wp_ask _ _ (writing_temp j src)); [done|eauto with sftp|]. intros w x w' e1 Hw Hs Ho1 <-.
      destruct (law_hardlink _ _ _ _ _ Hs) as [[Hx Hsame]|(Hx & Hno & i & Hi & Hdone)].
      - assert (all_or_nothing (world e1)) by eauto with sftp. split; [done|].
        destruct x as [[]|y|]; cbn; (split; [done|]); done.
      - destruct Hw as (Hu & Ht & Hf & Hc). rewrite Ht in Hi. injection Hi as <-.
        assert (committed (world e1)) as Hcom by (eapply linked_committed; [by split_and!|done..]).
        assert (committed_as false (world e1)) by by split.
        split; [eauto with sftp|]. destruct x as [b|y|]; cbn; (split; [done|]); eauto with sftp. }
    intros b e2 [Ho2 [Hw2 Hb]]. destruct b; cbn; (split; [done|]); [by apply Hb|done].
Qed.

Lemma complete_committed g facts e :
  at_files (committed_as true) e →
  WP (finish_transfer id g facts)
    (λ x e, match x with Ok _ => committed_as true (world e) | _ => I e end) I e.
Proof using Type*.
  intros He. apply (wp_locked _ _ (committed_as true)); [done|eauto with sftp|].
  intros e' [Ho Hw]. unfold locked. destruct (record e') as [a|] eqn:Ea; cbn; [|split; eauto with sftp].
  destruct (Ho a Ea) as (r & Hr & Hp & Hx & Hs).
  unfold complete_transfer, transfer_mut, on_transfer. rewrite Hr.
  assert (∀ r' : TransferRecord, conflict_policy r' = policy → expected_bytes r' = expected → state r' ≠ Completed →
    I (mkEnv (world e') (Some (set_transfers (<[id := r']> (transfers a)) a)) (trace e'))) as Hclose.
  { intros r' ? ? ?. split; [|by eapply committed_as_ok]. intros a' [= <-]. exists r'. cbn.
    by rewrite lookup_insert_eq. }
  destruct (generation r =? g); cbn; [|by apply Hclose].
  destruct (negb (state_in _ r)); cbn; [by apply Hclose|].
  destruct (negb (final_length facts =? _)); cbn; [by apply Hclose|].
  match goal with |- context [if negb ?c then _ else _] => destruct (negb c) end; cbn; [by apply Hclose|done].
Qed.

(** What an upload leaves: the written file in place when it succeeds. *)
Definition uploaded (x : tres unit) (e : Env W) : Prop :=
  match x with Ok _ => committed_as true (world e) | _ => I e end.

Lemma uploaded_lenient : lenient uploaded.
Proof using Type. by intros [a|f|] e. Qed.

Hint Resolve uploaded_lenient : sftp.

(** From the commit to the end. *)
Lemma wp_finish j o g n e :
  at_files (writing_temp j src) e → zlen src = expected → agreed o →
  WP (let* final_path := Ret (rmap_err (λ _, FUnsupportedPathEncoding) (remote_path_utf8 target)) in
      let* atomic_replace := commit_upload τ final_path o in
      let* m := bounded_transfer_io (SymlinkMetadata final_path)
                  (if atomic_replace : bool then CommitOutcomeUncertain else Protocol) in
      let final_length := md_len m in
      let* _ := Ret (if atomic_replace && negb (final_length =? n)
                     then Err CommitOutcomeUncertain else Ok tt) in
      let* _ := if negb atomic_replace
                then bounded_transfer_io (RemoveFile τ) FCleanupIncomplete
                else Ret (Ok tt) in
      finish_transfer id g (mkFacts final_length (negb atomic_replace) atomic_replace)) uploaded I e.
Proof using Type*.
  intros He Hl Ho. unfold remote_path_utf8. rewrite Htarget. cbn [ok_or rmap_err].
  apply wp_value; [eauto with sftp|eapply at_files_ok; [|done]; eauto with sftp|]. intros p [= <-].
  eapply wp_then; [eauto with sftp|by apply (wp_commit j)|]. intros rep e1 He1.
  eapply wp_then; [eauto with sftp|apply (wp_symlink_metadata _ _ (committed_as rep)); eauto with sftp|].
  intros m e2 He2. cbv zeta.
  apply wp_value; [eauto with sftp|eapply at_files_ok; [|done]; eauto with sftp|]. intros [] _.
  eapply (wp_then _ _ (λ _, committed_as true)); [eauto with sftp| |by intros [] e3 He3; apply complete_committed].
  destruct rep; cbn [negb]; [exact He2|].
  eapply (wp_request _ _ (committed_as false)); [done|eauto with sftp|]. intros w x w' [Hw _] Hs.
  destruct (law_remove_file _ _ _ _ Hs) as [[Hx Hsame]|Hr].
  - assert (all_or_nothing w') by (right; by eapply same_committed).
    destruct x; [destruct Hx; by eexists|done..].
  - assert (committed w') by by eapply removed_committed.
    assert (all_or_nothing w') by by right. destruct x; [|done..]. split; [|done]. split; [done|]. intros _.
    destruct Hr as (-> & _). apply lookup_delete_eq.
Qed.

Lemma wp_run_upload sup b io vf e :
  at_files untouched e → plan_target plan = Remote target → remote_temporary_target target id = Ok temporary →
  resume_from plan = 0 → src = source_bytes (reads io) →
  WP (run_upload live sup id plan b io vf) uploaded I e.
Proof using Type*.
  intros He Ht Htemp Hres Hsrc. unfold run_upload. rewrite Ht, Htemp, Hres. cbn [rmap_err Z.eqb Z.ltb Z.compare].
  assert (I e) by eauto with sftp. apply wp_value; [eauto with sftp|done|]. intros p [= <-].
  eapply wp_then; [eauto with sftp|by apply wp_prepare|]. intros o e1 [Ho1 [Hu1 Hag]].
  assert (at_files untouched e1) as He1 by by split.
  apply wp_value; [eauto with sftp|eauto with sftp|]. intros chunks Hchunks.
  apply wp_value; [eauto with sftp|eauto with sftp|]. intros chunks' [= <-].
  unfold remote_path_utf8 at 1. rewrite Htemporary. cbn [ok_or rmap_err].
  apply wp_value; [eauto with sftp|eauto with sftp|]. intros p [= <-].
  eapply (wp_then _ _ (λ h w, ∃ j, writing_handle h j [] w)); [eauto with sftp|..].
  { destruct vf; [apply at_untouched_ok; done|by apply wp_open_new]. }
  intros h e2 [Ho2 [j Hj]].
  eapply wp_then; [eauto with sftp|apply (wp_copy h j _ chunks []); [by split|by left]|].
  intros [] e3 [Ho3 [Hw3 Hc3]]. cbn [app] in *.
  assert (source_bytes chunks = src) as Hs.
  { rewrite Hsrc. unfold open_upload_source in Hchunks.
    destruct (rbind _ _) as [c| |] eqn:E in Hchunks; [|done|done]. injection Hchunks as <-. rinv E.
    destruct (negb (has_upload_source b)); [done|]. rinv E. by subst. }
  rewrite Hs in *. eapply (wp_written h j); [eauto with sftp|by split|done|].
  intros e4 [Ho4 [Hw4 Hl4]]. eapply wp_finish; [by split|done|done].
Qed.

(** ** The task *)

Lemma wp_artifact e :
  plan_target plan = Remote target → remote_temporary_target target (plan_transfer_id plan) = Ok temporary →
  I e → WP (cleanup_transfer_artifact live plan) (λ _, I) I e.
Proof using Type*.
  intros Ht Htemp He. unfold cleanup_transfer_artifact. rewrite Ht, Htemp. apply wp_bind.
  eapply wp_mono; [| |eapply (wp_cleanup _ _ _ all_or_nothing)]; eauto with sftp.
  intros. by eapply removed_all_or_nothing.
Qed.

(** A change of the record that cannot complete the transfer, to the end. *)
Lemma wp_end {X A} (m : AM X) (k : option (sres X) → Prog A) e :
  I e → related still_open m → (∀ x e', I e' → WP (k x) (λ _, I) I e') → WP (Locked m k) (λ _, I) I e.
Proof using Type.
  intros He Hm Hk. apply (wp_locked _ _ all_or_nothing); [done|done|]. intros e' [Ho Hw]. apply Hk.
  split; [by apply locked_open|]. unfold locked. destruct (record e') as [a|]; [|done].
  by destruct (m a).
Qed.

Lemma finish_cancel_open g c : related still_open (finish_cancel id g c).
Proof using Type. relate open_cases. Qed.

Lemma fail_open g f : related still_open (fail_transfer id g f).
Proof using Type. relate open_cases. Qed.

Lemma fail_cleanup_open g f c : related still_open (fail_transfer_after_cleanup id g f c).
Proof using Type. relate open_cases. Qed.

Lemma wp_cancelled_end c e : I e → WP (cancelled_end id plan c) (λ _, I) I e.
Proof using Type*.
  intros He. apply (wp_keep _ _ all_or_nothing); [done|done| |].
  - intros w x w' Hw Hs. apply law_canonicalize in Hs. eauto with sftp.
  - intros x e1 He1. apply wp_end; [done|apply finish_cancel_open|done].
Qed.

Lemma wp_lost_end e : I e → WP (lost_end id plan) (λ _, I) I e.
Proof using Type. intros He. apply wp_end; [done|apply fail_open|done]. Qed.

Lemma wp_failed_end f c e : I e → WP (failed_end id plan f c) (λ _, I) I e.
Proof using Type.
  intros He. apply wp_end; [done| |done]. intros a id' r Hr. unfold after, void. cbv beta zeta.
  destruct (bool_decide (_ = Some Cancelling)); [by apply (finish_cancel_open _ _ a)|].
  destruct (_ || _); [by exists r|].
  destruct c; [by apply (fail_cleanup_open _ _ _ a)|by apply (fail_open _ _ a)].
Qed.

Lemma wp_close_end e : I e → WP (close_end plan) (λ _, I) I e.
Proof using Type.
  intros He. apply (wp_await _ all_or_nothing); [done|done|]. intros e1 He1. apply wp_end; [done| |done].
  intros a id' r Hr. unfold after, void. cbv beta. destruct (_ && _); [|by exists r].
  assert (related still_open (transport_lost (plan_generation plan))) as Hl by relate ltac:(apply pause_open).
  by apply (Hl a).
Qed.

Notation allowed := (script_allowed (not_completing id)).

Lemma finishing_ok {A} (d : A) p s e x s' e' :
  WP p (λ _, I) I e → allowed s → finishing d p s e = (x, s', e') → allowed s' ∧ I e'.
Proof using Type.
  intros Hp Hs. unfold finishing. destruct (exec _ _ _ _ _) as [[y s1] e1] eqn:E.
  destruct (exec_sound _ _ _ _ _ _ _ _ _ _ _ Hp Hs E) as [? Hy].
  destruct y; intros [= _ <- <-]; done.
Qed.

Lemma cleanup_ok s e c s' e' :
  plan_target plan = Remote target → remote_temporary_target target (plan_transfer_id plan) = Ok temporary →
  I e → allowed s → bounded_transfer_cleanup live plan s e = (c, s', e') → allowed s' ∧ I e'.
Proof using Type*.
  intros Ht Htemp He Hs. unfold bounded_transfer_cleanup. destruct (_ && _); [by intros [= _ <- <-]|].
  destruct (exec _ _ _ _ _) as [[y s1] e1] eqn:E.
  destruct (exec_sound _ _ _ _ _ _ _ _ _ _ _ (wp_artifact e Ht Htemp He) Hs E) as [? Hy].
  destruct y; intros [= _ <- <-]; done.
Qed.

Lemma task_ok watching b io vf s e close s' e' :
  at_files untouched e → plan_target plan = Remote target → plan_transfer_id plan = id →
  remote_temporary_target target id = Ok temporary → resume_from plan = 0 → src = source_bytes (reads io) →
  allowed s → run_transfer live watching id plan b io vf s e = (close, s', e') →
  committed_as true (world e') ∨ I e'.
Proof using Type*.
  intros He Ht Hid Htemp Hres Hsrc Hs. unfold run_transfer.
  destruct (exec (select_signals _ _) _ _ _ _) as [[y s1] e1] eqn:E.
  destruct (exec_sound _ _ _ _ _ _ _ _ _ _ _
    (wp_run_upload supports_posix_rename b io vf e He Ht Htemp Hres Hsrc) Hs E) as [Hs1 Hy].
  rewrite <- Hid in Htemp.
  assert (∀ (cl : bool) s2 e2, allowed s2 → I e2 →
    (if cl then let '(_, s, e) := finishing tt (close_end plan) s2 e2 in (true, s, e) else (false, s2, e2))
      = (close, s', e') → I e') as Hclose.
  { intros cl s2 e2 Hs2 He2. destruct cl; [|by intros [= _ <- <-]].
    destruct (finishing tt _ s2 e2) as [[z s3] e3] eqn:Ef. intros [= _ <- <-].
    by destruct (finishing_ok _ _ _ _ _ _ _ (wp_close_end e2 He2) Hs2 Ef). }
  assert (∀ p s2 e2, WP p (λ _, I) I e2 → allowed s2 →
    (let '(cl, s, e) := finishing true p s2 e2 in
     if cl : bool then let '(_, s, e) := finishing tt (close_end plan) s e in (true, s, e) else (false, s, e))
      = (close, s', e') → I e') as Hend.
  { intros p s2 e2 Hp Hs2. destruct (finishing true p s2 e2) as [[cl s3] e3] eqn:Ef.
    destruct (finishing_ok _ _ _ _ _ _ _ Hp Hs2 Ef). by apply Hclose. }
  destruct y as [[[]|f|]|why]; cbn [uploaded] in Hy.
  - intros [= _ <- <-]. by left.
  - intros Hx. right. destruct (bool_decide (f = TransportLost)).
    + eapply Hend; [by apply wp_failed_end|done|exact Hx].
    + destruct (bounded_transfer_cleanup _ _ _ _) as [[c s2] e2] eqn:Ec.
      destruct (cleanup_ok _ _ _ _ _ Ht Htemp Hy Hs1 Ec) as [Hs2 He2].
      eapply Hend; [by apply wp_failed_end|done|exact Hx].
  - intros [= _ <- <-]. by right.
  - intros Hx. right. destruct why; [|eapply Hend; [by apply wp_lost_end|done|exact Hx]..].
    destruct (bounded_transfer_cleanup _ _ _ _) as [[c s2] e2] eqn:Ec.
    destruct (cleanup_ok _ _ _ _ _ Ht Htemp Hy Hs1 Ec) as [Hs2 He2].
    eapply Hend; [by apply wp_cancelled_end|done|exact Hx].
Qed.

End Upload.

(** ** The temporary name *)

Lemma utf8_encode_app a b : utf8_encode (a ++ b) = utf8_encode a ++ utf8_encode b.
Proof. unfold utf8_encode. by rewrite map_app, concat_app. Qed.

Lemma encode_char_length c : 1 ≤ zlen (utf8_encode_char c).
Proof. unfold utf8_encode_char, zlen. destruct (c <? 128), (c <? 2048), (c <? 65536); cbn [length]; lia. Qed.

Lemma utf8_encode_length s : zlen s ≤ zlen (utf8_encode s).
Proof.
  induction s as [|c s IH]; [done|]. change (c :: s) with ([c] ++ s).
  rewrite utf8_encode_app, !zlen_app. pose proof (encode_char_length c).
  unfold utf8_encode at 1. cbn [map concat]. rewrite app_nil_r, zlen_cons, zlen_nil. lia.
Qed.

Lemma rsplit_once_Some d s a b : rsplit_once d s = Some (a, b) → s = a ++ d :: b.
Proof.
  unfold rsplit_once. destruct (split_once d (rev s)) as [[x y]|] eqn:E; [|done]. intros [= <- <-].
  apply split_once_Some in E as [E _]. rewrite <- (rev_involutive s), E, rev_app_distr. cbn.
  by rewrite <- app_assoc.
Qed.

(** The temporary file is not the target: its name is longer. *)
Lemma temporary_differs infix unique target temporary t τ :
  1 ≤ zlen infix → temporary_sibling infix unique target = Ok temporary →
  from_utf8 target = Some t → from_utf8 temporary = Some τ → t ≠ τ.
Proof.
  intros Hin Htemp Ht Hτ ->. unfold temporary_sibling in Htemp. rewrite Ht in Htemp. cbn [ok_or rbind] in Htemp.
  destruct (rsplit_once 47 τ) as [[parent name]|] eqn:Es; [|done]. cbn [ok_or rbind] in Htemp.
  destruct (bool_decide (name = [])); [done|]. cbv zeta in Htemp.
  unfold parse_path in Htemp. destruct (_ || _) in Htemp; [done|]. injection Htemp as Htemp.
  apply from_utf8_sound in Ht, Hτ. apply rsplit_once_Some in Es. rewrite <- Hτ in Htemp.
  apply (f_equal zlen) in Htemp. rewrite Es in Htemp at 1.
  change (parent ++ 47 :: name) with (parent ++ [47] ++ name) in Htemp.
  set (start := if bool_decide (parent = []) then lit "/" else parent) in *.
  assert (zlen (utf8_encode parent) ≤ zlen (utf8_encode start)) as Hstart.
  { subst start. destruct (bool_decide (parent = [])) eqn:Ep; [|lia].
    apply bool_decide_eq_true in Ep as ->. apply zlen_nonneg. }
  revert Htemp. generalize (if bool_decide (start = lit "/") then [] else lit "/"). intros separator.
  match goal with |- context [?c :: name ++ ?rest] =>
    change (c :: name ++ rest) with ([c] ++ name ++ rest) end.
  rewrite !utf8_encode_app, !zlen_app.
  pose proof (utf8_encode_length infix). pose proof (zlen_nonneg (utf8_encode (lit ".part"))). pose proof (zlen_nonneg (utf8_encode unique)).
  pose proof (zlen_nonneg (utf8_encode separator)).
  change (zlen (utf8_encode [47])) with 1.
  match goal with |- context [utf8_encode [?c]] => change (zlen (utf8_encode [c])) with 1 end. lia.
Qed.

(** C3. For any server that keeps the promises of the protocol, wherever the
    task of a new upload is cancelled, loses its connection or fails, and
    whatever the other tasks do to the session meanwhile, the files of the
    server are untouched but for the temporary name, or the target is exactly
    the bytes read from the source, of the expected length, in place of an
    earlier target only under the policy to replace it, and nothing else has
    changed. A transfer recorded as Completed is of the second kind, with the
    temporary name gone. *)
Theorem upload_all_or_nothing `{DebugTarget} {W} `{ServerLaws W} live watching plan target temporary t τ
    b io vf a r s e close s' e' :
  record e = Some a → transfers a !! plan_transfer_id plan = Some r → state r ≠ Completed →
  plan_target plan = Remote target → resume_from plan = 0 →
  remote_temporary_target target (plan_transfer_id plan) = Ok temporary →
  from_utf8 target = Some t → from_utf8 temporary = Some τ →
  script_allowed (not_completing (plan_transfer_id plan)) s →
  run_transfer live watching (plan_transfer_id plan) plan b io vf s e = (close, s', e') →
  let uploaded := committed (conflict_policy r) (expected_bytes r) (world e) t τ (source_bytes (reads io)) in
  (untouched (world e) τ (world e') ∨ uploaded (world e')) ∧
  (∀ r', find_transfer (plan_transfer_id plan) e' = Some r' → state r' = Completed →
     uploaded (world e') ∧ names (world e') !! τ = None).
Proof.
  intros He Hr Hst Ht Hres Htemp Hu Huτ Hs Hrun. cbv zeta.
  assert (t ≠ τ) as Hne by (eapply temporary_differs; [|exact Htemp|done..]; done).
  assert (at_files (plan_transfer_id plan) (conflict_policy r) (expected_bytes r) (untouched (world e) τ) e) as Hat.
  { split; [|by split]. intros a' Ha'. rewrite He in Ha'. injection Ha' as <-. by exists r. }
  destruct (task_ok _ _ _ _ _ _ _ live plan target temporary Hu Huτ Hne _ _ _ _ _ _ _ _ _ Hat Ht eq_refl Htemp Hres eq_refl Hs Hrun)
    as [[Hc Hg]|[Ho Hi]].
  - split; [by right|]. intros r' _ _. split; [done|]. by apply Hg.
  - split; [done|]. intros r' Hf Hst'. exfalso. unfold find_transfer in Hf.
    destruct (record e') as [a'|] eqn:Ea; [|done]. destruct (Ho a' Ea) as (r'' & Hr'' & _ & _ & Hn).
    congruence.
Qed.

End Commit.
