(* ===== verification/SftpMutations.v ===== *)
(** * Changing files over SFTP

    src-tauri/src/sftp_session_service.rs and its file_utilities.rs: what one
    confirmed change of the remote files does ([execute_mutation] and what it
    calls), the plan it is made from, the paths it must leave alone while a
    transfer runs, and the ledger that keeps it from being carried out twice.

    The zip library, the URL parser and the HTTP client are parameters. *)

From S2P Require Import Prelude RustStr RustVec SftpActor SftpTransfers SftpServer SftpUpload.

Module Mutate.
Import Sftp Transfers Remote Upload.

Definition MAX_ARCHIVE_INPUT_BYTES : Z := 256 * 1024 * 1024.
Definition MAX_ARCHIVE_OUTPUT_BYTES : Z := 256 * 1024 * 1024.
Definition MAX_EXTRACTED_BYTES : Z := 512 * 1024 * 1024.
Definition MAX_NETWORK_DOWNLOAD_BYTES : Z := 512 * 1024 * 1024.
Definition TRANSFER_CHUNK_BYTES : Z := 64 * 1024.
Definition MUTATION_LEDGER_CAPACITY : Z := 1024.

(** [slice::chunks]. *)
Fixpoint chunks_from {A} (fuel n : nat) (l : list A) : list (list A) :=
  match fuel, l with
  | S fuel, _ :: _ => take n l :: chunks_from fuel n (drop n l)
  | _, _ => []
  end.
Definition chunks_of {A} (n : nat) (l : list A) : list (list A) := chunks_from (length l) n l.

(** ** Loops

    [loop n body] runs [body] until it answers [inr], [n] times at most. *)

Fixpoint loop (n : positive) {S R : Type} (body : S → Prog (S + R)) (s : S) : Prog (S + R) :=
  match n with
  | xH => body s
  | xO n =>
      run* x := loop n body s in
      match x with inl s => loop n body s | inr r => Ret (inr r) end
  | xI n =>
      run* x := body s in
      match x with
      | inl s =>
          run* x := loop n body s in
          match x with inl s => loop n body s | inr r => Ret (inr r) end
      | inr r => Ret (inr r)
      end
  end.

(** The result of a loop; running out is a panic. *)
Definition loop_result {S E A} (p : Prog (S + rres E A)) : Prog (rres E A) :=
  run* x := p in Ret match x with inl _ => Panic | inr r => r end.

(** A step of a loop that may fail. *)
Definition step_of {S E A} (p : Prog (rres E S)) : Prog (S + rres E A) :=
  run* x := p in
  Ret match x with Ok s => inl s | Err e => inr (Err e) | Panic => inr Panic end.

Definition runtime {A} (e : SftpRuntimeError) : pres A := Err (Runtime e).

(** [SftpRuntimeResult] into the service's results. *)
Definition lift {A} (x : sres A) : pres A := rmap_err Runtime x.

(** [map_err(|_| e)] of an answer. *)
Definition or_fail {A} (e : SftpRuntimeError) (p : Prog (pres A)) : Prog (pres A) :=
  pmap_err (λ _, Runtime e) p.

Definition check (ok : bool) (e : SftpRuntimeError) : Prog (pres unit) :=
  Ret (if ok then Ok tt else runtime e).

(** ** Archives *)

Record ArchiveEntry := mkEntry { name : str; is_directory : bool; bytes : list Z }.

(** [trim_end_matches('/')]. *)
Fixpoint drop_slashes (s : str) : str :=
  match s with 47 :: s => drop_slashes s | _ => s end.
Definition trim_slashes (s : str) : str := rev (drop_slashes (rev s)).

(** What the zip library reads of one entry; [zf_read] is at most so many bytes
    of its data. *)
Record ZipFile := mkZipFile {
  zf_encrypted : bool;
  zf_name : str;
  zf_enclosed_name : option str;
  zf_unix_mode : option Z;
  zf_is_dir : bool;
  zf_size : Z;
  zf_read : Z → option (list Z) }.

(** The zip library: its writer, and the entries it finds in an archive. *)
Class ZipLibrary := {
  ZipWriter : Type;
  zip_writer : ZipWriter;
  add_directory : str → ZipWriter → option ZipWriter;
  start_file : str → ZipWriter → option ZipWriter;
  write_data : list Z → ZipWriter → option ZipWriter;
  finish : ZipWriter → option (list Z);
  zip_archive : list Z → option (list (option ZipFile)) }.

Section Zip.
Context `{ZipLibrary}.

Definition check_entry (s : list str * Z) (entry : ArchiveEntry) : sres (list str * Z) :=
  let '(names, total) := s in
  let? _ := validate_archive_name (trim_slashes (name entry)) in
  if bool_decide (name entry ∈ names) then Err Conflict
  else
    let total := total + zlen (bytes entry) in
    if u64_max <? total then Err InvalidInput
    else if MAX_ARCHIVE_INPUT_BYTES <? total then Err InvalidInput
    else Ok (name entry :: names, total).

Definition write_entry (w : ZipWriter) (entry : ArchiveEntry) : sres ZipWriter :=
  if is_directory entry
  then ok_or (add_directory (trim_slashes (name entry) ++ lit "/") w) InvalidInput
  else
    let? w := ok_or (start_file (name entry) w) InvalidInput in
    ok_or (write_data (bytes entry) w) InvalidState.

Definition encode_zip (entries : list ArchiveEntry) : sres (list Z) :=
  if bool_decide (entries = []) || (MAX_ARCHIVE_ENTRIES <? zlen entries) then Err InvalidInput
  else
    let? _ := rfold check_entry ([], 0) entries in
    let? w := rfold write_entry zip_writer entries in
    let? archive := ok_or (finish w) InvalidState in
    if bool_decide (archive = []) || (MAX_ARCHIVE_OUTPUT_BYTES <? zlen archive) then Err InvalidInput
    else Ok archive.

Record Decoding := mkDecoding { decoded : list ArchiveEntry; names_seen : list str; total_bytes : Z }.

Definition decode_entry (s : Decoding) (file : option ZipFile) : sres Decoding :=
  let? file := ok_or file InvalidInput in
  if zf_encrypted file then Err InvalidInput
  else
    let raw_name := trim_slashes (zf_name file) in
    let? _ := validate_archive_name raw_name in
    let? enclosed := ok_or (zf_enclosed_name file) InvalidInput in
    let normalized_name := trim_slashes enclosed in
    let? _ := validate_archive_name normalized_name in
    if negb (bool_decide (raw_name = normalized_name)) || bool_decide (normalized_name ∈ names_seen s)
    then Err InvalidInput
    else if match zf_unix_mode file with Some mode => Z.land mode 61440 =? 40960 | None => false end
    then Err InvalidInput
    else
      let total := total_bytes s + zf_size file in
      if u64_max <? total then Err InvalidInput
      else if MAX_EXTRACTED_BYTES <? total then Err InvalidInput
      else
        let? data :=
          if negb (zf_is_dir file) then
            let? data := ok_or (zf_read file (saturating_add (zf_size file) 1)) InvalidInput in
            if negb (zlen data =? zf_size file) then Err LengthMismatch else Ok data
          else Ok [] in
        Ok (mkDecoding (decoded s ++ [mkEntry normalized_name (zf_is_dir file) data])
              (normalized_name :: names_seen s) total).

Definition decode_zip (archive : list Z) : sres (list ArchiveEntry) :=
  if bool_decide (archive = []) || (MAX_ARCHIVE_OUTPUT_BYTES <? zlen archive) then Err InvalidInput
  else
    let? files := ok_or (zip_archive archive) InvalidInput in
    if bool_decide (files = []) || (MAX_ARCHIVE_ENTRIES <? zlen files) then Err InvalidInput
    else
      let? s := rfold decode_entry (mkDecoding [] [] 0) files in
      Ok (decoded s).

End Zip.

(** ** Paths *)

Definition ends_with_slash (p : list Z) : bool := bool_decide (last p = Some 47).

(** The path of something in a directory. *)
Definition child_path (parent : RemotePath) (relative : str) : list Z :=
  parent ++ (if ends_with_slash parent then [] else [47]) ++ utf8_encode relative.

Definition remote_archive_child_path (parent : RemotePath) (relative : str) : pres RemotePath :=
  let? _ := lift (validate_archive_name relative) in
  lift (parse_path (child_path parent relative)).

Definition remote_directory_child_path (parent : RemotePath) (file_name : str) : pres RemotePath :=
  if bool_decide (file_name = []) || bool_decide (file_name = lit ".") || bool_decide (file_name = lit "..")
     || contains_char file_name 47 || has_nul file_name
  then Err sftp_protocol_error
  else lift (parse_path (child_path parent file_name)).

Definition remote_file_name (path : RemotePath) : pres str :=
  let name := match rsplit_once 47 path with Some (_, name) => name | None => path end in
  if bool_decide (name = []) then runtime InvalidInput else ok_or (from_utf8 name) NonUtf8RemotePath.

Record RemoteDirectoryEntry := mkRemoteEntry { entry_path : RemotePath; entry_facts : RemoteObjectPrecondition }.

Definition map_remote_directory_page (parent : RemotePath) (page : list DirEntry)
  : pres (list RemoteDirectoryEntry) :=
  rmap (λ entry,
    let? path := remote_directory_child_path parent (file_name entry) in
    Ok (mkRemoteEntry path (remote_precondition_from_metadata (entry_metadata entry)))) page.

(** *** The paths of a running transfer *)

Definition contains (ancestor path : list Z) : bool :=
  let ancestor := if 1 <? zlen ancestor then default ancestor (strip_suffix 47 ancestor) else ancestor in
  bool_decide (path = ancestor)
  || (starts_with ancestor path
      && (bool_decide (ancestor = [47]) || bool_decide (path !! length ancestor = Some 47))).

Definition remote_paths_overlap (left right : list Z) : bool := contains left right || contains right left.

Definition transfer_busy_paths (id : TransferId) (paths : list RemotePath) : list RemotePath :=
  concat (map (λ path,
    path :: match remote_temporary_target path id with Ok temporary => [temporary] | _ => [] end) paths).

Definition touched_paths (plan : FileMutationPlan) : list RemotePath :=
  match plan with
  | CreateDirectory _ _ path | CreateEmptyFile _ _ path | WriteText _ _ path _ _
  | DeleteConfirmed _ _ path _ _ | SetPermissions _ _ path _ _ _ => [path]
  | RenameNoReplace _ _ source target _ => [source; target]
  | CreateZip _ _ sources target => map arc_path sources ++ [target]
  | ExtractZip _ _ source _ target_directory => [source; target_directory]
  | DownloadUrl _ _ _ target => [target]
  end.

Definition mutation_touches_busy_paths (plan : FileMutationPlan) (busy_paths : list RemotePath) : bool :=
  existsb (λ touched, existsb (remote_paths_overlap touched) busy_paths) (touched_paths plan).

(** [LentSftpChannel::for_transfer]. *)
Definition busy_paths_of (plan : TransferPlan) : list RemotePath :=
  transfer_busy_paths (plan_transfer_id plan)
    (omap (λ e, match e with Remote path => Some path | LocalToken _ => None end)
       [plan_source plan; plan_target plan]).

(** ** Reading *)

(** The URL of a download, as its parser reports it, and what the HTTP client
    brings: its answer, and the chunks of the body, an error among them. *)
Record Url := mkUrl { scheme : str; username : str; has_password : bool; has_host : bool }.

Inductive HttpAnswer :=
| BuildFailed
| SendFailed
| BadStatus
| Response (content_length : option Z) (body : list (option (list Z))).

(** [http_get] follows a redirect when the policy allows it, which is told how
    many came before and the scheme of the next URL. *)
Class HttpClient := {
  parse_url : str → option Url;
  http_get : (Z → str → bool) → Url → HttpAnswer }.

Section Client.
Context (live : SftpGeneration) `{ZipLibrary} `{HttpClient}.

Definition verify_remote_file (g : SftpGeneration) (path : RemotePath) (expected : RemoteObjectPrecondition)
  : Prog (pres unit) :=
  let* _ := client_generation live g in
  let* path := Ret (remote_path_utf8 path) in
  let* metadata := bounded_protocol (SymlinkMetadata path) in
  let observed := remote_precondition_from_metadata metadata in
  check (bool_decide (observed = expected) && bool_decide (pre_kind observed = EntryFile)) Conflict.

(** One read through [take]: [remaining] bytes may still be read. *)
Definition read_step (h : Handle) (s : list Z * Z) : Prog (list Z * Z + pres (list Z)) :=
  let '(bytes, remaining) := s in
  if remaining <=? 0 then Await (Ret (inr (Ok bytes)))
  else
    run* x := bounded_protocol (ReadChunk h (Z.min remaining TRANSFER_CHUNK_BYTES)) in
    Ret match x with
        | Ok [] => inr (Ok bytes)
        | Ok chunk => inl (bytes ++ chunk, remaining - zlen chunk)
        | Err e => inr (Err e)
        | Panic => inr Panic
        end.

(** Each read but the last brings a byte, and there are at most [limit]. *)
Definition read_all (h : Handle) (limit : Z) : Prog (pres (list Z)) :=
  loop_result (loop (Z.to_pos (limit + 2)) (read_step h) ([], limit)).

Definition read_remote_file_preview (g : SftpGeneration) (path : RemotePath)
    (expected : RemoteObjectPrecondition) (start_offset maximum_bytes : Z) : Prog (pres (list Z)) :=
  let* _ := verify_remote_file g path expected in
  let* expected_size := Ret (ok_or (pre_size expected) (Runtime InvalidInput)) in
  let* _ := check (start_offset <=? expected_size) InvalidInput in
  let* path := Ret (remote_path_utf8 path) in
  let* h := bounded_protocol (OpenRead path) in
  let* _ := bounded_protocol (SeekFile h start_offset) in
  let* bytes := read_all h (saturating_add maximum_bytes 1) in
  run* _ := bounded_protocol (CloseFile h) in
  let* _ := check (zlen bytes <=? maximum_bytes) InvalidInput in
  Ret (Ok bytes).

(** *** Collecting what goes into an archive *)

(** An item of the stack: path, name in the archive, what it should be, depth,
    and whether the user named it. *)
Record Pending := mkPending {
  p_path : RemotePath;
  p_name : str;
  p_expected : RemoteObjectPrecondition;
  p_depth : Z;
  p_root : bool }.

Record Collecting := mkCollecting {
  c_entries : list ArchiveEntry;
  c_total : Z;
  c_pending : list Pending }.

(** The children of a page are pushed last to first. *)
Fixpoint push_children (h : Handle) (archive_name : str) (depth : Z) (children : list RemoteDirectoryEntry)
    (pending : list Pending) : Prog (pres (list Pending)) :=
  match children with
  | [] => Ret (Ok pending)
  | child :: children =>
      let* child_name := Ret (remote_file_name (entry_path child)) in
      let child_archive_name := archive_name ++ lit "/" ++ child_name in
      if bool_decide (pre_kind (entry_facts child) ∈ [EntrySymlink; EntryOther]) then
        run* _ := bounded_protocol (CloseDirStream h) in
        Ret (runtime InvalidInput)
      else
        push_children h archive_name depth children
          (mkPending (entry_path child) child_archive_name (entry_facts child)
             (saturating_add depth 1) false :: pending)
  end.

Definition page_step (path : RemotePath) (archive_name : str) (depth : Z) (entries : list ArchiveEntry)
    (h : Handle) (pending : list Pending) : Prog (list Pending + pres (list Pending)) :=
  run* x :=
    let* (page, complete) := bounded_protocol (NextPage h 256) in
    let* children := Ret (map_remote_directory_page path page) in
    let* pending := push_children h archive_name depth (rev children) pending in
    Ret (Ok (pending, complete)) in
  match x with
  | Ok (pending, complete) =>
      if complete : bool then Ret (inr (Ok pending))
      else if MAX_ARCHIVE_ENTRIES <? zlen pending + zlen entries then
        run* _ := bounded_protocol (CloseDirStream h) in
        Ret (inr (runtime InvalidInput))
      else Ret (inl pending)
  | Err e => Ret (inr (Err e))
  | Panic => Ret (inr Panic)
  end.

(** [pages] bounds the pages of one directory, which the source does not: a
    server may send empty pages for ever. *)
Definition collect_item (pages : positive) (g : SftpGeneration) (item : Pending) (s : Collecting)
  : Prog (pres Collecting) :=
  let* _ := check (negb ((MAX_ARCHIVE_DEPTH <? p_depth item) || (MAX_ARCHIVE_ENTRIES <=? zlen (c_entries s))))
              InvalidInput in
  let* _ := Ret (lift (validate_archive_name (p_name item))) in
  let* path := Ret (remote_path_utf8 (p_path item)) in
  let* metadata := bounded_protocol (SymlinkMetadata path) in
  let observed := remote_precondition_from_metadata metadata in
  let* _ := check (negb (p_root item && negb (bool_decide (observed = p_expected item)))) Conflict in
  match pre_kind observed with
  | EntryFile =>
      let size := md_len metadata in
      let total := c_total s + size in
      let* _ := check (negb (u64_max <? total)) InvalidInput in
      let* _ := check (negb (MAX_ARCHIVE_INPUT_BYTES <? total)) InvalidInput in
      let* bytes := read_remote_file_preview g (p_path item) observed 0
                      (saturating_add (Z.max 0 (MAX_ARCHIVE_INPUT_BYTES - total)) size) in
      Ret (Ok (mkCollecting (c_entries s ++ [mkEntry (p_name item) false bytes]) total (c_pending s)))
  | EntryDirectory =>
      let entries := c_entries s ++ [mkEntry (p_name item) true []] in
      let* h := bounded_protocol (OpenDirStream path) in
      let* pending := loop_result (loop pages
                        (page_step (p_path item) (p_name item) (p_depth item) entries h) (c_pending s)) in
      run* _ := bounded_protocol (CloseDirStream h) in
      Ret (Ok (mkCollecting entries (c_total s) pending))
  | EntrySymlink | EntryOther => Ret (runtime InvalidInput)
  end.

Definition collect_step (pages : positive) (g : SftpGeneration) (s : Collecting)
  : Prog (Collecting + pres (list ArchiveEntry)) :=
  match c_pending s with
  | [] => Ret (inr (Ok (c_entries s)))
  | item :: pending => step_of (collect_item pages g item (mkCollecting (c_entries s) (c_total s) pending))
  end.

(** Each item adds an entry, and there are at most [MAX_ARCHIVE_ENTRIES]. *)
Definition collect_archive_entries (pages : positive) (g : SftpGeneration) (sources : list ArchiveSourcePlan)
  : Prog (pres (list ArchiveEntry)) :=
  let* _ := client_generation live g in
  let pending := map (λ s, mkPending (arc_path s) (archive_name s) (arc_precondition s) 1 true) sources in
  loop_result (loop (Z.to_pos (MAX_ARCHIVE_ENTRIES + 2)) (collect_step pages g) (mkCollecting [] 0 pending)).

(** ** Writing *)

(** Either name taken: the second is asked for when the first is free. *)
Definition either_exists (p q : str) : Prog (pres bool) :=
  let* first := bounded_protocol (TryExists p) in
  if first : bool then Ret (Ok true) else bounded_protocol (TryExists q).

Fixpoint write_chunks (h : Handle) (chunks : list (list Z)) : Prog (pres unit) :=
  match chunks with
  | [] => Ret (Ok tt)
  | chunk :: chunks =>
      let* _ := bounded_protocol (WriteAll h chunk) in
      write_chunks h chunks
  end.

(** Synced, measured, closed, and of the expected length. *)
Definition seal_file (h : Handle) (expected_length : Z) : Prog (pres unit) :=
  let* _ := bounded_protocol (SyncAll h) in
  let* metadata := bounded_protocol (FileMetadata h) in
  let* _ := bounded_protocol (CloseFile h) in
  check (md_len metadata =? expected_length) LengthMismatch.

(** A new file of these chunks. *)
Definition write_temporary (temporary_path : str) (chunks : list (list Z)) (expected_length : Z)
  : Prog (pres unit) :=
  let* h := bounded_protocol (OpenNew temporary_path) in
  let* _ := write_chunks h chunks in
  seal_file h expected_length.

(** On an error, the temporary file is removed and the error returned. *)
Definition or_clean (g : SftpGeneration) (temporary : RemotePath) (p : Prog (pres unit)) : Prog (pres unit) :=
  run* x := p in
  match x with
  | Err e =>
      run* _ := cleanup_temporary_target live g temporary in
      Ret (Err e)
  | _ => Ret x
  end.

(** On an error, the temporary file is removed; a cleanup that is not complete is
    the error. *)
Definition or_report_clean {A} (g : SftpGeneration) (temporary : RemotePath) (p : Prog (pres A))
  : Prog (pres A) :=
  run* x := p in
  match x with
  | Err e =>
      run* cleanup := cleanup_temporary_target live g temporary in
      Ret match cleanup with Ok Cleaned => Err e | _ => runtime CleanupIncomplete end
  | _ => Ret x
  end.

Definition write_new_remote_file (g : SftpGeneration) (operation : OperationFence) (target : RemotePath)
    (contents : list Z) : Prog (pres unit) :=
  let* _ := client_generation live g in
  let* target_path := Ret (remote_path_utf8 target) in
  let* temporary := Ret (lift (remote_edit_temporary_path target (operation_id operation))) in
  let* temporary_path := Ret (remote_path_utf8 temporary) in
  let* taken := either_exists target_path temporary_path in
  let* _ := check (negb taken) Conflict in
  let* _ := or_report_clean g temporary
              (write_temporary temporary_path
                 (chunks_of (Z.to_nat TRANSFER_CHUNK_BYTES) contents) (zlen contents)) in
  let* linked := or_report_clean g temporary (bounded_protocol (Hardlink temporary_path target_path)) in
  let* _ := or_report_clean g temporary (check linked UnsafeReplaceUnsupported) in
  let* _ := or_fail CleanupIncomplete (bounded_protocol (RemoveFile temporary_path)) in
  let* metadata := bounded_protocol (SymlinkMetadata target_path) in
  check (md_len metadata =? zlen contents) LengthMismatch.

Definition write_text_file (g : SftpGeneration) (operation : OperationFence) (path : RemotePath)
    (precondition : RemoteObjectPrecondition) (contents : list Z) : Prog (pres unit) :=
  let* target_path := Ret (remote_path_utf8 path) in
  let* temporary := Ret (lift (remote_edit_temporary_path path (operation_id operation))) in
  let* temporary_path := Ret (remote_path_utf8 temporary) in
  let* metadata := bounded_protocol (SymlinkMetadata target_path) in
  let observed := remote_precondition_from_metadata metadata in
  let* _ := check (bool_decide (observed = precondition) && bool_decide (pre_kind observed = EntryFile))
              Conflict in
  let* taken := bounded_protocol (TryExists temporary_path) in
  let* _ := check (negb taken) Conflict in
  let* _ := or_clean g temporary (write_temporary temporary_path [contents] (zlen contents)) in
  or_clean g temporary (
    let* current := bounded_protocol (SymlinkMetadata target_path) in
    let* _ := check (bool_decide (remote_precondition_from_metadata current = precondition)) Conflict in
    let* replaced := bounded_protocol (PosixRename temporary_path target_path) in
    let* _ := check replaced UnsafeReplaceUnsupported in
    let* metadata := bounded_protocol (SymlinkMetadata target_path) in
    check (md_len metadata =? zlen contents) LengthMismatch).

Definition rename_no_replace (source target : RemotePath) (source_precondition : RemoteObjectPrecondition)
  : Prog (pres unit) :=
  let* source := Ret (remote_path_utf8 source) in
  let* target := Ret (remote_path_utf8 target) in
  let* metadata := bounded_protocol (SymlinkMetadata source) in
  let observed := remote_precondition_from_metadata metadata in
  let* _ := check (bool_decide (observed = source_precondition)) Conflict in
  let* _ := check (bool_decide (pre_kind observed = EntryFile)) UnsafeReplaceUnsupported in
  let* taken := bounded_protocol (TryExists target) in
  let* _ := check (negb taken) Conflict in
  let* linked := or_fail Conflict (bounded_protocol (Hardlink source target)) in
  let* _ := check linked UnsafeReplaceUnsupported in
  or_fail CleanupIncomplete (bounded_protocol (RemoveFile source)).

Definition delete_matches (kind : DeleteKind) (observed : RemoteEntryKind) : bool :=
  match kind, observed with
  | DeleteEmptyDirectory, EntryDirectory => true
  | DeleteFile, (EntryFile | EntrySymlink | EntryOther) => true
  | _, _ => false
  end.

Definition delete_confirmed (path : RemotePath) (kind : DeleteKind) (precondition : RemoteObjectPrecondition)
  : Prog (pres unit) :=
  let* path := Ret (remote_path_utf8 path) in
  let* metadata := bounded_protocol (SymlinkMetadata path) in
  let observed := remote_precondition_from_metadata metadata in
  let* _ := check (bool_decide (observed = precondition) && delete_matches kind (pre_kind observed)) Conflict in
  match kind with
  | DeleteFile => bounded_protocol (RemoveFile path)
  | DeleteEmptyDirectory => bounded_protocol (RemoveDir path)
  end.

Definition remote_permissions_match (m : RemoteFileAttributes) (precondition : RemoteObjectPrecondition)
    (expected_permission_bits : Z) : bool :=
  bool_decide (remote_precondition_from_metadata m = precondition)
  && bool_decide (permissions m = Some expected_permission_bits).

(** [(original & !0o777) | mode] on 32 bits. *)
Definition replace_rwx_permission_bits (original mode : Z) : Z :=
  Z.lor (Z.land original (Z.lxor 4294967295 511)) mode.

Definition set_permission_bits (path : RemotePath) (precondition : RemoteObjectPrecondition)
    (expected_permission_bits mode : Z) : Prog (pres unit) :=
  let* path := Ret (remote_path_utf8 path) in
  let* metadata := bounded_protocol (SymlinkMetadata path) in
  let* _ := check (remote_permissions_match metadata precondition expected_permission_bits) Conflict in
  let updated_bits := replace_rwx_permission_bits expected_permission_bits mode in
  let* _ := bounded_protocol (SetMetadata path updated_bits) in
  let* updated := bounded_protocol (SymlinkMetadata path) in
  check (bool_decide (remote_precondition_from_metadata updated = precondition)
         && bool_decide (permissions updated = Some updated_bits)) Conflict.

(** *** Extracting an archive *)

(** The directories above an entry, and the entry itself when it is one, that
    were not created yet. *)
Fixpoint create_parents (target_directory : RemotePath) (components : list str) (indices : list nat)
    (created : gset str) : Prog (pres (gset str)) :=
  match indices with
  | [] => Ret (Ok created)
  | index :: indices =>
      let relative := join (lit "/") (take index components) in
      if bool_decide (relative ∈ created) then create_parents target_directory components indices created
      else
        let* path := Ret (remote_archive_child_path target_directory relative) in
        let* path := Ret (remote_path_utf8 path) in
        let* _ := or_fail CleanupIncomplete (bounded_protocol (CreateDir path)) in
        create_parents target_directory components indices ({[relative]} ∪ created)
  end.

Definition extract_file (target_directory : RemotePath) (entry : ArchiveEntry) : Prog (pres unit) :=
  let* target := Ret (remote_archive_child_path target_directory (name entry)) in
  let* target_path := Ret (remote_path_utf8 target) in
  let* h := or_fail CleanupIncomplete (bounded_protocol (OpenNew target_path)) in
  or_fail CleanupIncomplete (
    let* _ := bounded_protocol (WriteAll h (bytes entry)) in
    let* _ := bounded_protocol (SyncAll h) in
    bounded_protocol (CloseFile h)).

Fixpoint extract_entries (target_directory : RemotePath) (entries : list ArchiveEntry) (created : gset str)
  : Prog (pres unit) :=
  match entries with
  | [] => Ret (Ok tt)
  | entry :: entries =>
      let components := split_char 47 (name entry) in
      let parent_count := if is_directory entry then length components else (length components - 1)%nat in
      let* created := create_parents target_directory components (seq 1 parent_count) created in
      let* _ := if is_directory entry then Ret (Ok tt) else extract_file target_directory entry in
      extract_entries target_directory entries created
  end.

Definition extract_archive_entries (g : SftpGeneration) (target_directory : RemotePath)
    (entries : list ArchiveEntry) : Prog (pres unit) :=
  let* _ := client_generation live g in
  let* root := Ret (remote_path_utf8 target_directory) in
  let* taken := bounded_protocol (TryExists root) in
  let* _ := check (negb taken) Conflict in
  let* _ := bounded_protocol (CreateDir root) in
  extract_entries target_directory entries {[ [] ]}.

(** *** Downloading a URL into a remote file *)

Definition redirect_policy (previous : Z) (next_scheme : str) : bool :=
  negb ((5 <=? previous) || negb (bool_decide (next_scheme = lit "https"))).

Definition url_accepted (url : Url) : bool :=
  negb (negb (bool_decide (scheme url = lit "https")) || negb (bool_decide (username url = []))
        || has_password url || negb (has_host url)).

(** The body, a chunk at a time; the answer is its length. *)
Fixpoint download_chunks (h : Handle) (body : list (option (list Z))) (downloaded : Z) : Prog (pres Z) :=
  Await match body with
  | [] => Ret (Ok downloaded)
  | None :: _ => Ret (runtime InvalidState)
  | Some chunk :: body =>
      let downloaded := downloaded + zlen chunk in
      let* _ := check (negb (u64_max <? downloaded)) InvalidInput in
      let* _ := check (negb (MAX_NETWORK_DOWNLOAD_BYTES <? downloaded)) InvalidInput in
      let* _ := bounded_protocol (WriteAll h chunk) in
      download_chunks h body downloaded
  end.

(** What follows the answer of the HTTP client. *)
Definition store_download (g : SftpGeneration) (operation : OperationFence) (target : RemotePath)
    (body : list (option (list Z))) : Prog (pres unit) :=
  let* target_path := Ret (remote_path_utf8 target) in
  let* temporary := Ret (lift (remote_edit_temporary_path target (operation_id operation))) in
  let* temporary_path := Ret (remote_path_utf8 temporary) in
  let* taken := either_exists target_path temporary_path in
  let* _ := check (negb taken) Conflict in
  let* h := bounded_protocol (OpenNew temporary_path) in
  let* _ := or_clean g temporary (
    let* downloaded := download_chunks h body 0 in
    seal_file h downloaded) in
  let* linked := or_fail Conflict (bounded_protocol (Hardlink temporary_path target_path)) in
  let* _ := or_clean g temporary (check linked UnsafeReplaceUnsupported) in
  or_fail CleanupIncomplete (bounded_protocol (RemoveFile temporary_path)).

Definition download_url_to_remote_file (g : SftpGeneration) (operation : OperationFence) (url : str)
    (target : RemotePath) : Prog (pres unit) :=
  let* _ := client_generation live g in
  let* parsed := Ret (ok_or (parse_url url) (Runtime InvalidInput)) in
  let* _ := check (url_accepted parsed) InvalidInput in
  Await match http_get redirect_policy parsed with
  | BuildFailed | SendFailed => Ret (runtime InvalidState)
  | BadStatus => Ret (runtime InvalidInput)
  | Response content_length body =>
      let* _ := check (negb (match content_length with
                             | Some n => MAX_NETWORK_DOWNLOAD_BYTES <? n
                             | None => false
                             end)) InvalidInput in
      store_download g operation target body
  end.

(** ** One mutation *)

Definition mutation_generation (plan : FileMutationPlan) : SftpGeneration :=
  match plan with
  | CreateDirectory _ g _ | CreateEmptyFile _ g _ | WriteText _ g _ _ _ | RenameNoReplace _ g _ _ _
  | DeleteConfirmed _ g _ _ _ | SetPermissions _ g _ _ _ _ | CreateZip _ g _ _ | ExtractZip _ g _ _ _
  | DownloadUrl _ g _ _ => g
  end.

Definition execute_mutation (pages : positive) (plan : FileMutationPlan) : Prog (pres unit) :=
  let* _ := client_generation live (mutation_generation plan) in
  match plan with
  | CreateDirectory _ _ path =>
      let* path := Ret (remote_path_utf8 path) in
      bounded_protocol (CreateDir path)
  | CreateEmptyFile _ _ path =>
      let* path := Ret (remote_path_utf8 path) in
      let* h := bounded_protocol (OpenNew path) in
      bounded_protocol (CloseFile h)
  | WriteText operation g path precondition contents =>
      write_text_file g operation path precondition contents
  | RenameNoReplace _ _ source target source_precondition =>
      rename_no_replace source target source_precondition
  | DeleteConfirmed _ _ path kind precondition => delete_confirmed path kind precondition
  | SetPermissions _ _ path precondition expected_permission_bits mode =>
      set_permission_bits path precondition expected_permission_bits mode
  | CreateZip operation g sources target =>
      let* entries := collect_archive_entries pages g sources in
      let* archive := Await (Ret (lift (encode_zip entries))) in
      write_new_remote_file g operation target archive
  | ExtractZip _ g source source_precondition target_directory =>
      let* archive := read_remote_file_preview g source source_precondition 0 MAX_ARCHIVE_OUTPUT_BYTES in
      let* entries := Await (Ret (lift (decode_zip archive))) in
      extract_archive_entries g target_directory entries
  | DownloadUrl operation g url target => download_url_to_remote_file g operation url target
  end.

End Client.

End Mutate.
