(* ===== verification/SftpEffects.v ===== *)
(** * What a change of remote files does

    The effect of each mutation on the files of the server, wherever it is
    stopped, for any server that keeps the promises of [ServerLaws]. *)

From S2P Require Import Prelude RustStr RustVec SftpActor SftpTransfers SftpServer SftpUpload SftpCommit SftpMutations.

Module Effects.
Import Sftp Transfers Remote Upload Commit Mutate.

(** ** The specification *)

(** The name that a path is. *)
Definition named (path : RemotePath) (q : str) : Prop := from_utf8 path = Some q.

Definition edit_temporary (operation : OperationFence) (target : RemotePath) (q : str) : Prop :=
  ∃ temporary, remote_edit_temporary_path target (operation_id operation) = Ok temporary ∧ named temporary q.

(** A directory, and what an archive may put into it. *)
Definition inside (directory : RemotePath) (q : str) : Prop :=
  named directory q ∨
  ∃ relative, validate_archive_name relative = Ok tt ∧ named (child_path directory relative) q.

Fixpoint body_bytes (body : list (option (list Z))) : list Z :=
  match body with Some chunk :: body => chunk ++ body_bytes body | _ => [] end.

Section Spec.
Context {W : Type} `{FileView W} `{ZipLibrary} `{HttpClient}.

(** The files that had a name keep their contents, and their names but those of
    [S]. *)
Definition keeps (S : str → Prop) (w0 w : W) : Prop :=
  ∀ q i, names w0 !! q = Some i → content w i = content w0 i ∧ (S q ∨ names w !! q = Some i).

(** The new names are of [S]. *)
Definition adds (S : str → Prop) (w0 w : W) : Prop :=
  ∀ q, names w0 !! q = None → is_Some (names w !! q) → S q.

Definition nothing (q : str) : Prop := False.

(** The name leads to a file with these contents. *)
Definition holds (w : W) (q : str) (contents : list Z) : Prop :=
  ∃ i, names w !! q = Some i ∧ content w i = contents.

(** Contents that a new file may get. *)
Definition new_contents (plan : FileMutationPlan) (contents : list Z) : Prop :=
  match plan with
  | CreateZip _ _ _ _ => ∃ entries, encode_zip entries = Ok contents
  | DownloadUrl _ _ url _ =>
      ∃ parsed length body, parse_url url = Some parsed ∧ url_accepted parsed = true ∧
        http_get redirect_policy parsed = Response length body ∧ contents = body_bytes body
  | _ => False
  end.

(** What a mutation may have done, wherever it was stopped. *)
Definition effect (plan : FileMutationPlan) (w0 w : W) : Prop :=
  match plan with
  | CreateDirectory _ _ path | CreateEmptyFile _ _ path => keeps nothing w0 w ∧ adds (named path) w0 w
  | WriteText operation _ path _ contents =>
      keeps (named path) w0 w ∧ adds (edit_temporary operation path) w0 w ∧
      ∀ q, named path q → names w !! q = names w0 !! q ∨ holds w q contents
  | RenameNoReplace _ _ source target _ =>
      keeps (named source) w0 w ∧ adds (named target) w0 w ∧
      ∀ s t i, named source s → named target t → s ≠ t → names w0 !! s = Some i →
        (names w !! s = Some i ∧ (names w !! t = names w0 !! t ∨ names w !! t = Some i))
        ∨ (names w !! s = None ∧ names w !! t = Some i ∧ names w0 !! t = None)
  | DeleteConfirmed _ _ path _ _ =>
      keeps (named path) w0 w ∧ adds nothing w0 w ∧
      ∀ q, named path q → names w !! q = names w0 !! q ∨ names w !! q = None
  | SetPermissions _ _ _ _ _ _ => keeps nothing w0 w ∧ adds nothing w0 w
  | CreateZip operation _ _ target | DownloadUrl operation _ _ target =>
      keeps nothing w0 w ∧ adds (λ q, named target q ∨ edit_temporary operation target q) w0 w ∧
      ∀ q i, named target q → names w0 !! q = None → names w !! q = Some i → new_contents plan (content w i)
  | ExtractZip _ _ _ _ directory => keeps nothing w0 w ∧ adds (inside directory) w0 w
  end.

(** What it has done when it reports success. *)
Definition completed (plan : FileMutationPlan) (w0 w : W) : Prop :=
  match plan with
  | CreateDirectory _ _ path =>
      ∃ q, named path q ∧ names w0 !! q = None ∧ is_Some (names w !! q)
  | CreateEmptyFile _ _ path => ∃ q, named path q ∧ names w0 !! q = None ∧ holds w q []
  | WriteText operation _ path _ contents =>
      (∃ q, named path q ∧ is_Some (names w0 !! q) ∧ holds w q contents) ∧
      ∀ q, edit_temporary operation path q → names w !! q = None
  | RenameNoReplace _ _ source target _ =>
      ∃ s t i, named source s ∧ named target t ∧ names w0 !! s = Some i ∧ names w0 !! t = None ∧
        names w !! t = Some i ∧ names w !! s = None
  | DeleteConfirmed _ _ path _ _ => ∃ q, named path q ∧ is_Some (names w0 !! q) ∧ names w !! q = None
  | SetPermissions _ _ path _ _ _ => ∃ q, named path q ∧ is_Some (names w0 !! q)
  | CreateZip operation _ _ target | DownloadUrl operation _ _ target =>
      (∃ q contents, named target q ∧ names w0 !! q = None ∧ new_contents plan contents ∧ holds w q contents) ∧
      ∀ q, edit_temporary operation target q → names w !! q = None
  | ExtractZip _ _ _ _ directory =>
      ∃ archive entries, decode_zip archive = Ok entries ∧
        (∃ q, named directory q ∧ names w0 !! q = None) ∧
        ∀ entry, entry ∈ entries → is_directory entry = false →
          ∃ q, named (child_path directory (name entry)) q ∧ names w0 !! q = None ∧ holds w q (bytes entry)
  end.

End Spec.

(** ** Rules *)

Section Rules.
Context `{DebugTarget} {W : Type} `{ServerLaws W}.

Definition any_op (op : Op) : Prop := True.

(** [p], started on the files [w], keeps [I] wherever it is stopped, and
    establishes [P] when it succeeds. *)
Definition safe {E A} (I : W → Prop) (p : Prog (rres E A)) (P : A → W → Prop) (w : W) : Prop :=
  ∀ e, world e = w →
    wp any_op p (λ x e, I (world e) ∧ ∀ a, x = Ok a → P a (world e)) (λ e, I (world e)) e.

Lemma safe_ret {E A} I (x : rres E A) (P : A → W → Prop) w :
  I w → (∀ a, x = Ok a → P a w) → safe I (Ret x) P w.
Proof using Type. intros HI HP e <-. split; [exact HI|exact HP]. Qed.

Lemma safe_await {E A} I (p : Prog (rres E A)) P w : I w → safe I p P w → safe I (Await p) P w.
Proof using Type. intros HI Hp e <- ops _. split; [done|]. by apply Hp. Qed.

Lemma safe_bind {E A B} I (p : Prog (rres E A)) (k : A → Prog (rres E B)) P R w :
  safe I p P w → (∀ a w', I w' → P a w' → safe I (k a) R w') → safe I (prbind p k) R w.
Proof using Type.
  intros Hp Hk e He. apply wp_rbind. refine (wp_mono _ _ _ _ _ _ _ _ _ (Hp e He)); [|done].
  intros [a|f|] e' [HI HP]; [by apply (Hk a (world e')); [|apply HP|]|by split..].
Qed.

Lemma safe_value {E A B} I (x : rres E A) (k : A → Prog (rres E B)) R w :
  I w → (∀ a, x = Ok a → safe I (k a) R w) → safe I (prbind (Ret x) k) R w.
Proof using Type.
  intros HI Hk. apply (safe_bind _ _ _ (λ a w', x = Ok a ∧ w' = w)).
  - by apply safe_ret.
  - intros a w' _ [Ha ->]. by apply Hk.
Qed.

Lemma safe_check {B} I ok e (k : unit → Prog (pres B)) R w :
  I w → (ok = true → safe I (k tt) R w) → safe I (prbind (check ok e) k) R w.
Proof using Type. intros HI Hk. apply safe_value; [done|]. intros [] Ha. destruct ok; [auto|done]. Qed.

Lemma safe_check_end I ok e (P : unit → W → Prop) w : I w → P tt w → safe I (check ok e) P w.
Proof using Type. intros HI HP. apply safe_ret; [done|]. by intros []. Qed.

Lemma safe_weaken {E A} I (p : Prog (rres E A)) (P P' : A → W → Prop) w :
  safe I p P w → (∀ a w, I w → P a w → P' a w) → safe I p P' w.
Proof using Type.
  intros Hp HP e He. refine (wp_mono _ _ _ _ _ _ _ _ _ (Hp e He)); [|done]. intros x e' [HI Hx]. split; eauto.
Qed.

Lemma safe_map_err {E F A} I (f : E → F) (p : Prog (rres E A)) P w :
  safe I p P w → safe I (pmap_err f p) P w.
Proof using Type.
  intros Hp e He. apply wp_map_err. refine (wp_mono _ _ _ _ _ _ _ _ _ (Hp e He)); [|done].
  intros [a|x|] e' [HI HP]; cbn; split; try done. intros b [= <-]. by apply HP.
Qed.

(** One request. *)
Lemma safe_request {X} I (r : Req X) (P : X → W → Prop) w :
  I w → (∀ x w', serve r w = (x, w') → I w' ∧ ∀ a, x = Answer a → P a w') →
  safe I (bounded_protocol r) P w.
Proof using Type.
  intros HI Hr e <- ops _. cbn. unfold ask, disturb. cbn.
  destruct (serve r (world e)) as [x w'] eqn:Es. cbn. destruct (Hr x w' eq_refl) as [HI' HP].
  split; [done|]. split; [done|]. split; [done|]. intros a Ha. apply HP. by destruct x; simplify_eq.
Qed.

(** Its result is not looked at. *)
Lemma safe_ignore {E F A B} I (p : Prog (rres F B)) (k : Prog (rres E A)) P w :
  safe I p (λ _ _, True) w → (∀ w', I w' → safe I k P w') → safe I (pbind p (λ _, k)) P w.
Proof using Type.
  intros Hp Hk e He. apply wp_bind. refine (wp_mono _ _ _ _ _ _ _ _ _ (Hp e He)); [|done].
  intros x e' [HI _]. exact (Hk (world e') HI e' eq_refl).
Qed.

(** ** The files during a mutation *)

Context (w0 : W).

(** Files that had a name keep their contents. *)
Definition kept (w : W) : Prop := ∀ q i, names w0 !! q = Some i → content w i = content w0 i.

(** The names are [n], and nothing that had a name was written. *)
Definition view (n : gmap str Z) (w : W) : Prop := names w = n ∧ kept w.

(** A file that had no name. *)
Definition fresh (i : Z) : Prop := ∀ q, names w0 !! q ≠ Some i.

Lemma view_start : view (names w0) w0.
Proof using Type. by split. Qed.

Lemma kept_view n w w' : kept_files w w' → view n w → view n w'.
Proof using Type. intros [Hn Hc] [? Hk]. split; [congruence|]. intros q i Hq. rewrite Hc. eauto. Qed.

Lemma same_kept w w' : same_files w w' → kept_files w w'.
Proof using Type. by intros (? & ? & _). Qed.

Lemma same_view n w w' : same_files w w' → view n w → view n w'.
Proof using Type. intros Hs. by apply kept_view, same_kept. Qed.

Lemma renamed_view n w w' m : renamed w w' m → view n w → view m w'.
Proof using Type. intros (Hn & Hc & _) [_ Hk]. split; [done|]. intros q i Hq. rewrite Hc. eauto. Qed.

(** A fresh file is not one that had a name. *)
Lemma created_view n w w' p i :
  created w w' p i → view n w → (∀ q j, names w0 !! q = Some j → ∃ q', n !! q' = Some j) →
  n !! p = None ∧ fresh i ∧ view (<[p := i]> n) w' ∧ content w' i = [].
Proof using Type.
  intros (Hp & Hq & Hn & He & Hc) [<- Hk] Hsub.
  assert (fresh i) as Hf. { intros q Hi. destruct (Hsub _ _ Hi) as [q' Hq']. by apply (Hq q'). }
  split_and!; [done..| |done]. split; [done|]. intros q j Hj. rewrite Hc; [eauto|]. intros ->. by apply (Hf q).
Qed.

Section Requests.
Context (I : W → Prop) (n : gmap str Z).
Context (HI : ∀ w, view n w → I w).

Lemma safe_exists p w :
  view n w → safe I (bounded_protocol (TryExists p)) (λ b w, view n w ∧ b = bool_decide (is_Some (n !! p))) w.
Proof using Type*.
  intros Hw. apply safe_request; [auto|]. intros x w' Hs. destruct (law_exists _ _ _ _ Hs) as [Hsame Hx].
  assert (view n w') by by eapply same_view. split; [auto|]. intros b Hb. split; [done|].
  rewrite (Hx b Hb). by destruct Hw as [-> _].
Qed.

Lemma safe_metadata p w :
  view n w → safe I (bounded_protocol (SymlinkMetadata p)) (λ _ w, view n w ∧ is_Some (n !! p)) w.
Proof using Type*.
  intros Hw. apply safe_request; [auto|]. intros x w' Hs.
  destruct (law_symlink_metadata _ _ _ _ Hs) as [Hsame Hx].
  assert (view n w') by by eapply same_view. split; [auto|]. intros m Hm. split; [done|].
  destruct Hw as [<- _]. eauto.
Qed.

Lemma safe_reading {X} (r : Req X) w :
  reading r = true → view n w → safe I (bounded_protocol r) (λ _ w, view n w) w.
Proof using Type*.
  intros Hr Hw. apply safe_request; [auto|]. intros x w' Hs. pose proof (law_reading _ _ _ _ Hr Hs).
  assert (view n w') by by eapply kept_view. auto.
Qed.

Lemma safe_close h w : view n w → safe I (bounded_protocol (CloseFile h)) (λ _ w, view n w) w.
Proof using Type*.
  intros Hw. apply safe_request; [auto|]. intros x w' Hs. pose proof (law_close _ _ _ _ Hs).
  assert (view n w') by by eapply kept_view. auto.
Qed.

Lemma safe_set_metadata p m w :
  view n w → safe I (bounded_protocol (SetMetadata p m)) (λ _ w, view n w) w.
Proof using Type*.
  intros Hw. apply safe_request; [auto|]. intros x w' Hs. pose proof (law_set_metadata _ _ _ _ _ Hs).
  assert (view n w') by by eapply same_view. auto.
Qed.

End Requests.

(** A name taken away. *)
Lemma safe_remove (dir : bool) I n p w :
  (∀ w, view n w → I w) → (∀ w, view (delete p n) w → I w) → view n w →
  safe I (bounded_protocol (if dir then RemoveDir p else RemoveFile p)) (λ _ w, view (delete p n) w) w.
Proof using Type*.
  intros HI HI' Hw. pose proof Hw as [Hn _].
  apply safe_request; [auto|]. intros x w' Hs.
  assert ((¬ answered x ∧ same_files w w') ∨ renamed w w' (delete p (names w))) as Hr
    by (destruct dir; eauto using law_remove_file, law_remove_dir).
  destruct Hr as [[Hx Hsame]|Hr].
  - split; [apply HI; by eapply same_view|]. intros a ->. by destruct Hx; eexists.
  - rewrite Hn in Hr. assert (view (delete p n) w') by by eapply renamed_view. auto.
Qed.

(** The cleanup of a temporary file. *)
Lemma safe_cleanup live g temporary τ I w :
  named temporary τ → I w → (∀ w w', same_files w w' → I w → I w') →
  (∀ w w', renamed w w' (delete τ (names w)) → I w → I w') →
  safe I (cleanup_temporary_target live g temporary) (λ _ _, True) w.
Proof using Type*.
  intros Ht HI Hs Hd. unfold cleanup_temporary_target, client_generation.
  apply safe_value; [done|]. intros [] _. apply safe_value; [done|]. intros q Hq.
  unfold remote_path_utf8 in Hq. rewrite Ht in Hq. injection Hq as <-.
  apply (safe_bind _ _ _ (λ _ _, True)).
  { apply safe_request; [done|]. intros x w' Hx. destruct (law_exists _ _ _ _ Hx). eauto. }
  intros b w1 HI1 _. destruct b; cbn [negb]; [|by apply safe_ret].
  intros e <-. apply wp_bind. cbn. intros ops _. unfold ask. cbn.
  destruct (serve (RemoveFile τ) (world e)) as [x w'] eqn:Es. cbn.
  assert (I w') as HI' by (destruct (law_remove_file _ _ _ _ Es) as [[_ ?]|?]; eauto).
  split; [done|]. split; [done|]. destruct x as [[]|y|]; cbn; [|by split..].
  intros ops' _. unfold ask. cbn. destruct (serve (TryExists τ) w') as [x' w''] eqn:Es'. cbn.
  destruct (law_exists _ _ _ _ Es') as [Hs' _]. split; [done|]. split; [eauto|]. split; [eauto|done].
Qed.

(** *** Requests that change files *)

(** The names so far include those there were. *)
Definition extends (n : gmap str Z) : Prop := ∀ q i, names w0 !! q = Some i → ∃ q', n !! q' = Some i.

Lemma extends_start : extends (names w0).
Proof using Type. intros q i Hq. by exists q. Qed.

(** One file is followed: [i] has the contents [c]. *)
Definition at_file (n : gmap str Z) (i : Z) (c : list Z) (w : W) : Prop := view n w ∧ content w i = c.

(** It is open. *)
Definition open_at (n : gmap str Z) (i : Z) (c : list Z) (h : Handle) (w : W) : Prop :=
  at_file n i c w ∧ file_of w h = i.

Lemma kept_at_file n i c w w' : kept_files w w' → at_file n i c w → at_file n i c w'.
Proof using Type. intros Hk [Hv <-]. split; [by eapply kept_view|]. apply Hk. Qed.

Lemma same_open_at n i c h w w' : same_files w w' → open_at n i c h w → open_at n i c h w'.
Proof using Type.
  intros Hs [Ha <-]. split; [|apply Hs]. eapply kept_at_file; [by apply same_kept|done].
Qed.

Lemma safe_metadata_at I n i c p w :
  (∀ w, at_file n i c w → I w) → at_file n i c w →
  safe I (bounded_protocol (SymlinkMetadata p)) (λ _ w, at_file n i c w) w.
Proof using Type*.
  intros HI Hw. apply safe_request; [auto|]. intros x w' Hs.
  destruct (law_symlink_metadata _ _ _ _ Hs) as [Hsame _].
  assert (at_file n i c w') by (eapply kept_at_file; [by apply same_kept|done]). auto.
Qed.

Lemma safe_create_dir I n p w :
  extends n → (∀ w, view n w → I w) →
  (∀ i w, n !! p = None → fresh i → at_file (<[p := i]> n) i [] w → I w) → view n w →
  safe I (bounded_protocol (CreateDir p))
    (λ _ w, ∃ i, n !! p = None ∧ fresh i ∧ at_file (<[p := i]> n) i [] w) w.
Proof using Type*.
  intros He HI HI' Hw. apply safe_request; [auto|]. intros x w' Hs.
  destruct (law_create_dir _ _ _ _ Hs) as [[Hx Hsame]|[i Hc]].
  - split; [apply HI; by eapply same_view|]. intros a ->. by destruct Hx; eexists.
  - destruct (created_view _ _ _ _ _ Hc Hw He) as (? & ? & ? & ?).
    split; [by apply (HI' i); [..|split]|]. intros a _. exists i. split_and!; [done..|by split].
Qed.

Lemma safe_open_new I n p w :
  extends n → (∀ w, view n w → I w) →
  (∀ i w, n !! p = None → fresh i → at_file (<[p := i]> n) i [] w → I w) → view n w →
  safe I (bounded_protocol (OpenNew p))
    (λ h w, ∃ i, n !! p = None ∧ fresh i ∧ open_at (<[p := i]> n) i [] h w) w.
Proof using Type*.
  intros He HI HI' Hw. apply safe_request; [auto|]. intros x w' Hs.
  destruct (law_open_new _ _ _ _ Hs) as [[Hx Hsame]|(i & Hc & Hh)].
  - split; [apply HI; by eapply same_view|]. intros a ->. by destruct Hx; eexists.
  - destruct (created_view _ _ _ _ _ Hc Hw He) as (? & ? & ? & ?).
    split; [by apply (HI' i); [..|split]|]. intros h Hx. exists i. split_and!; [done..|].
    split; [done|]. by apply Hh.
Qed.

Lemma safe_write I n i c h chunk w :
  fresh i → (∀ w, view n w → I w) → open_at n i c h w →
  safe I (bounded_protocol (WriteAll h chunk)) (λ _ w, open_at n i (c ++ chunk) h w) w.
Proof using Type*.
  intros Hf HI [[Hv Hc] Hi]. apply safe_request; [auto|]. intros x w' Hs.
  destruct (law_write _ _ _ _ _ Hs) as (Hn & Ho & Hh & Ha). rewrite Hi in Ho, Ha.
  assert (view n w') as Hv'.
  { destruct Hv as [Hv Hk]. split; [congruence|]. intros q j Hq. rewrite Ho; [eauto|]. intros ->. by apply (Hf q). }
  split; [auto|]. intros a ->. split; [split; [done|]|by rewrite Hh].
  rewrite Ha by by eexists. by rewrite Hc.
Qed.

Lemma safe_chunks I n i h chunks c w :
  fresh i → (∀ w, view n w → I w) → open_at n i c h w →
  safe I (write_chunks h chunks) (λ _ w, open_at n i (c ++ concat chunks) h w) w.
Proof using Type*.
  intros Hf HI. revert c w. induction chunks as [|chunk chunks IH]; intros c w Hw; cbn [write_chunks concat].
  - apply safe_ret; [by apply HI; destruct Hw as [[]]|]. intros _ _. by rewrite app_nil_r.
  - eapply safe_bind; [by apply (safe_write _ n i)|]. intros [] w' _ Hw'. rewrite app_assoc. by apply IH.
Qed.

Lemma safe_seal I n i c h len w :
  (∀ w, view n w → I w) → open_at n i c h w →
  safe I (seal_file h len) (λ _ w, at_file n i c w) w.
Proof using Type*.
  intros HI Hw. assert (∀ w, open_at n i c h w → I w) as HI' by (intros ? [[]]; auto).
  assert (∀ w, at_file n i c w → I w) as HI'' by (intros ? []; auto). unfold seal_file.
  eapply safe_bind.
  { apply (safe_request I _ (λ _ w, open_at n i c h w)); [auto|]. intros x w' Hs.
    pose proof (law_sync _ _ _ _ Hs). assert (open_at n i c h w') by by eapply same_open_at. auto. }
  intros [] w1 _ Hw1. eapply safe_bind.
  { apply (safe_request I _ (λ _ w, open_at n i c h w)); [auto|]. intros x w' Hs.
    destruct (law_metadata _ _ _ _ Hs). assert (open_at n i c h w') by by eapply same_open_at. auto. }
  intros m w2 _ [Hw2 _]. eapply safe_bind.
  { apply (safe_request I _ (λ _ w, at_file n i c w)); [auto|]. intros x w' Hs.
    pose proof (law_close _ _ _ _ Hs). assert (at_file n i c w') by by eapply kept_at_file. auto. }
  intros [] w3 ? Hw3. by apply safe_check_end.
Qed.

Lemma safe_hardlink I n i c p t w :
  n !! p = Some i → (∀ w, view n w → I w) →
  (∀ w, n !! t = None → at_file (<[t := i]> n) i c w → I w) → at_file n i c w →
  safe I (bounded_protocol (Hardlink p t))
    (λ b w, if b : bool then n !! t = None ∧ at_file (<[t := i]> n) i c w else at_file n i c w) w.
Proof using Type*.
  intros Hp HI HI' [Hv Hc]. apply safe_request; [auto|]. intros x w' Hs.
  pose proof Hv as [Hn _]. destruct (law_hardlink _ _ _ _ _ Hs) as [[Hx Hsame]|(Hx & Ht & j & Hj & Hr)].
  - assert (at_file n i c w') as Hw' by (eapply kept_at_file; [by apply same_kept|done]).
    split; [by apply HI; destruct Hw'|]. by intros [] ->.
  - rewrite Hn in *. assert (j = i) as -> by congruence.
    assert (at_file (<[t := i]> n) i c w') as Hw'.
    { split; [by eapply renamed_view|]. destruct Hr as (_ & Hc' & _). by rewrite Hc'. }
    split; [by apply HI'|]. by intros [] ->.
Qed.

Lemma safe_posix_rename I n i c p t w :
  n !! p = Some i → n !! t ≠ Some i → (∀ w, view n w → I w) →
  (∀ w, at_file (<[t := i]> (delete p n)) i c w → I w) → at_file n i c w →
  safe I (bounded_protocol (PosixRename p t))
    (λ b w, if b : bool then at_file (<[t := i]> (delete p n)) i c w else at_file n i c w) w.
Proof using Type*.
  intros Hp Ht HI HI' [Hv Hc]. apply safe_request; [auto|]. intros x w' Hs.
  pose proof Hv as [Hn _]. destruct (law_posix_rename _ _ _ _ _ Hs) as [[Hx Hsame]|(Hx & j & Hj & Hr & _)].
  - assert (at_file n i c w') as Hw' by (eapply kept_at_file; [by apply same_kept|done]).
    split; [by apply HI; destruct Hw'|]. by intros [] ->.
  - rewrite Hn in *. assert (j = i) as -> by congruence. specialize (Hr Ht).
    assert (at_file (<[t := i]> (delete p n)) i c w') as Hw'.
    { split; [by eapply renamed_view|]. destruct Hr as (_ & Hc' & _). by rewrite Hc'. }
    split; [by apply HI'|]. by intros [] ->.
Qed.

(** What a view says of the specification. *)
Lemma view_keeps S n w :
  view n w → (∀ q i, names w0 !! q = Some i → S q ∨ n !! q = Some i) → keeps S w0 w.
Proof using Type. intros [<- Hk] HS q i Hq. split; eauto. Qed.

Lemma view_adds (S : str → Prop) n w :
  view n w → (∀ q, names w0 !! q = None → is_Some (n !! q) → S q) → adds S w0 w.
Proof using Type. intros [<- _] HS q. apply HS. Qed.

(** On an error, the temporary file is removed. *)
Lemma safe_or_clean {A} live g temporary τ I (p : Prog (pres A)) P w :
  named temporary τ → (∀ w w', same_files w w' → I w → I w') →
  (∀ w w', renamed w w' (delete τ (names w)) → I w → I w') → safe I p P w →
  safe I (or_report_clean live g temporary p) P w.
Proof using Type*.
  intros Ht Hs Hd Hp e He. apply wp_bind. refine (wp_mono _ _ _ _ _ _ _ _ _ (Hp e He)); [|done].
  intros [a|f|] e' [HI HP]; [by split| |by split]. apply wp_bind.
  refine (wp_mono _ _ _ _ _ _ _ _ _ (safe_cleanup live g temporary τ I (world e') Ht HI Hs Hd e' eq_refl));
    [|done].
  intros x e2 [HI2 _]. by destruct x as [[|]| |]; split.
Qed.

Lemma safe_or_clean_quietly live g temporary τ I (p : Prog (pres unit)) P w :
  named temporary τ → (∀ w w', same_files w w' → I w → I w') →
  (∀ w w', renamed w w' (delete τ (names w)) → I w → I w') → safe I p P w →
  safe I (or_clean live g temporary p) P w.
Proof using Type*.
  intros Ht Hs Hd Hp e He. apply wp_bind. refine (wp_mono _ _ _ _ _ _ _ _ _ (Hp e He)); [|done].
  intros [a|f|] e' [HI HP]; [by split| |by split]. apply wp_bind.
  refine (wp_mono _ _ _ _ _ _ _ _ _ (safe_cleanup live g temporary τ I (world e') Ht HI Hs Hd e' eq_refl));
    [|done].
  intros x e2 [HI2 _]. by split.
Qed.

(** *** The specification under reads and the removal of a temporary name *)

Lemma kept_keeps S w w' : kept_files w w' → keeps S w0 w → keeps S w0 w'.
Proof using Type. intros [Hn Hc] Hk q i Hq. rewrite Hn, Hc. by apply Hk. Qed.

Lemma kept_adds S w w' : kept_files w w' → adds S w0 w → adds S w0 w'.
Proof using Type. intros [Hn _] Ha q. rewrite Hn. apply Ha. Qed.

Lemma delete_keeps S τ w w' :
  names w0 !! τ = None → renamed w w' (delete τ (names w)) → keeps S w0 w → keeps S w0 w'.
Proof using Type.
  intros Hτ (Hn & Hc & _) Hk q i Hq. rewrite Hn, Hc, lookup_delete_ne by congruence. by apply Hk.
Qed.

Lemma delete_adds S τ w w' : renamed w w' (delete τ (names w)) → adds S w0 w → adds S w0 w'.
Proof using Type. intros (Hn & _) Ha q Hq. rewrite Hn. intros [i [_ Hi]%lookup_delete_Some]. by apply Ha. Qed.

(** The cases of a lookup in the names. *)
Ltac names_cases :=
  intros; simplify_eq;
  repeat match goal with
  | H : context [<[?p := _]> _ !! ?q] |- _ => destruct (decide (p = q)); simplify_map_eq
  | H : context [delete ?p _ !! ?q] |- _ => destruct (decide (p = q)); simplify_map_eq
  | |- context [<[?p := _]> _ !! ?q] => destruct (decide (p = q)); simplify_map_eq
  | |- context [delete ?p _ !! ?q] => destruct (decide (p = q)); simplify_map_eq
  end;
  repeat match goal with H : is_Some None |- _ => by destruct H end;
  repeat match goal with H : ?a = None, H' : is_Some ?a |- _ => by rewrite H in H'; destruct H' end;
  eauto.

Lemma named_eq path q q' : named path q → named path q' → q = q'.
Proof using Type. unfold named. congruence. Qed.

Lemma utf8_named path q : remote_path_utf8 path = Ok q → named path q.
Proof using Type. unfold remote_path_utf8, named. destruct (from_utf8 path); [|done]. by intros [= ->]. Qed.

Context (live : SftpGeneration) `{ZipLibrary} `{HttpClient}.

(** ** Each mutation *)

Definition correct (plan : FileMutationPlan) (p : Prog (pres unit)) : Prop :=
  safe (effect plan w0) p (λ _ w, completed plan w0 w) w0.

Lemma create_directory_ok op g path q :
  named path q → correct (CreateDirectory op g path) (bounded_protocol (CreateDir q)).
Proof using Type*.
  intros Hq. assert (∀ w, view (names w0) w → effect (CreateDirectory op g path) w0 w) as HI.
  { intros w Hw. split; [eapply view_keeps|eapply view_adds]; [done| |done|]; names_cases. }
  eapply safe_weaken; [apply (safe_create_dir _ (names w0)); [apply extends_start|done| |apply view_start]|].
  - intros i w Hp Hf [Hw _]. split; [eapply view_keeps|eapply view_adds]; [done| |done|]; names_cases.
  - intros _ w _ (i & Hp & _ & [Hn _] & _). exists q. rewrite Hn. names_cases.
Qed.

Lemma create_empty_file_ok op g path q :
  named path q →
  correct (CreateEmptyFile op g path)
    (let* h := bounded_protocol (OpenNew q) in bounded_protocol (CloseFile h)).
Proof using Type*.
  intros Hq. assert (∀ w, view (names w0) w → effect (CreateEmptyFile op g path) w0 w) as HI.
  { intros w Hw. split; [eapply view_keeps|eapply view_adds]; [done| |done|]; names_cases. }
  assert (∀ i w, names w0 !! q = None → fresh i → at_file (<[q := i]> (names w0)) i [] w →
    effect (CreateEmptyFile op g path) w0 w) as HI'.
  { intros i w Hp Hf [Hw _]. split; [eapply view_keeps|eapply view_adds]; [done| |done|]; names_cases. }
  eapply safe_bind; [apply (safe_open_new _ (names w0)); [apply extends_start|done|done|apply view_start]|].
  intros h w _ (i & Hp & Hf & [Hw _]).
  apply safe_request; [by eapply HI'|]. intros x w' Hs. pose proof (law_close _ _ _ _ Hs) as Hk.
  assert (at_file (<[q := i]> (names w0)) i [] w') as Hw' by by eapply kept_at_file.
  split; [by eapply HI'|]. intros _ _. exists q. destruct Hw' as [[Hn _] Hc]. split_and!; [done..|].
  exists i. rewrite Hn. names_cases.
Qed.

Lemma delete_ok op g path kind precondition :
  correct (DeleteConfirmed op g path kind precondition) (delete_confirmed path kind precondition).
Proof using Type*.
  set (plan := DeleteConfirmed op g path kind precondition).
  assert (∀ w, view (names w0) w → effect plan w0 w) as HI.
  { intros w Hw. split_and!; [eapply view_keeps|eapply view_adds|]; [done| |done|..]; [names_cases..|].
    left. by destruct Hw as [-> _]. }
  unfold correct, delete_confirmed. apply safe_value; [apply HI, view_start|]. intros q Hq.
  apply utf8_named in Hq.
  assert (∀ w, view (delete q (names w0)) w → effect plan w0 w) as HI'.
  { intros w Hw. split_and!; [eapply view_keeps|eapply view_adds|]; [done| |done|..].
    - intros q' i Hi. destruct (decide (q = q')) as [<-|]; [by left|right]. by rewrite lookup_delete_ne.
    - names_cases.
    - intros q' Hq''. rewrite (named_eq _ _ _ Hq'' Hq). right. destruct Hw as [-> _]. apply lookup_delete_eq. }
  eapply safe_bind; [by apply (safe_metadata _ (names w0)); [|apply view_start]|].
  intros m w HIw [Hw Hsome]. apply safe_check; [done|]. intros _.
  assert (∀ dir : bool, safe (effect plan w0) (bounded_protocol (if dir then RemoveDir q else RemoveFile q))
    (λ _ w, completed plan w0 w) w) as Hs; [|by destruct kind; [apply (Hs false)|apply (Hs true)]].
  intros dir. eapply safe_weaken; [by apply (safe_remove dir _ (names w0) q)|].
  intros [] w' _ [Hn _]. exists q. rewrite Hn. split_and!; [done..|]. apply lookup_delete_eq.
Qed.

Lemma set_permissions_ok op g path precondition bits m :
  correct (SetPermissions op g path precondition bits m) (set_permission_bits path precondition bits m).
Proof using Type*.
  set (plan := SetPermissions op g path precondition bits m).
  assert (∀ w, view (names w0) w → effect plan w0 w) as HI.
  { intros w Hw. split; [eapply view_keeps|eapply view_adds]; [done| |done|]; names_cases. }
  unfold correct, set_permission_bits. apply safe_value; [apply HI, view_start|]. intros q Hq.
  apply utf8_named in Hq.
  eapply safe_bind; [by apply (safe_metadata _ (names w0)); [|apply view_start]|].
  intros md w _ [Hw Hsome]. apply safe_check; [auto|]. intros _.
  eapply safe_bind; [by apply (safe_set_metadata _ (names w0))|]. intros [] w1 _ Hw1.
  eapply safe_bind; [by apply (safe_metadata _ (names w0))|]. intros md' w2 _ [Hw2 _].
  apply safe_check_end; [auto|]. by exists q.
Qed.

Lemma rename_ok op g source target precondition :
  correct (RenameNoReplace op g source target precondition) (rename_no_replace source target precondition).
Proof using Type*.
  set (plan := RenameNoReplace op g source target precondition).
  assert (∀ w, view (names w0) w → effect plan w0 w) as HI.
  { intros w Hw. split_and!; [eapply view_keeps|eapply view_adds|]; [done| |done|..]; [names_cases..|].
    destruct Hw as [-> _]. intros s t i _ _ _ Hs. left. by split; [|left]. }
  unfold correct, rename_no_replace. apply safe_value; [apply HI, view_start|]. intros s Hs%utf8_named.
  apply safe_value; [apply HI, view_start|]. intros t Ht%utf8_named.
  eapply safe_bind; [by apply (safe_metadata _ (names w0)); [|apply view_start]|].
  intros m w _ [Hw [i Hi]]. apply safe_check; [auto|]. intros _. apply safe_check; [auto|]. intros _.
  eapply safe_bind; [by apply (safe_exists _ (names w0))|]. intros b w1 _ [Hw1 ->].
  apply safe_check; [auto|]. intros Hfree%negb_true_iff%bool_decide_eq_false%eq_None_not_Some.
  assert (s ≠ t) as Hne by congruence.
  assert (∀ w, at_file (<[t := i]> (names w0)) i (content w0 i) w → effect plan w0 w) as HI1.
  { intros w2 [Hw2 _]. split_and!; [eapply view_keeps|eapply view_adds|]; [done| |done|..]; [names_cases..|].
    intros s' t' i' Hs' Ht' _ Hi'. rewrite (named_eq _ _ _ Hs' Hs), (named_eq _ _ _ Ht' Ht) in *.
    left. destruct Hw2 as [-> _]. rewrite lookup_insert_ne, lookup_insert_eq by done. split; [done|right]. congruence. }
  assert (∀ w, view (delete s (<[t := i]> (names w0))) w → effect plan w0 w) as HI2.
  { intros w2 Hw2. split_and!; [eapply view_keeps|eapply view_adds|]; [done| |done|..]; [names_cases..|].
    intros s' t' i' Hs' Ht' _ Hi'. rewrite (named_eq _ _ _ Hs' Hs), (named_eq _ _ _ Ht' Ht) in *.
    right. destruct Hw2 as [-> _]. names_cases. }
  eapply safe_bind.
  { apply safe_map_err, (safe_hardlink _ (names w0) i (content w0 i)); [done|done|by intros w2 _; apply HI1|].
    split; [done|]. by apply (proj2 Hw1 s). }
  intros b w2 HI' Hb. apply safe_check; [done|]. intros ->. destruct Hb as [_ Hw2].
  eapply safe_weaken.
  - apply safe_map_err, (safe_remove false _ (<[t := i]> (names w0)) s); [|done|by destruct Hw2].
    intros w3 Hw3. apply HI1. split; [done|]. by apply (proj2 Hw3 s).
  - intros [] w3 _ [Hn _]. exists s, t, i. rewrite Hn. split_and!; [done..| |]; names_cases.
Qed.

(** *** Mutations that write a temporary file *)

Lemma chunks_from_concat {A} fuel n (l : list A) :
  (0 < n)%nat → (length l ≤ fuel)%nat → concat (chunks_from fuel n l) = l.
Proof using Type.
  intros Hn. revert l. induction fuel as [|fuel IH]; intros [|x l] Hl; cbn [chunks_from concat length] in *; try done; [lia|].
  rewrite IH; [apply take_drop|]. rewrite length_drop. cbn [length]. lia.
Qed.

Lemma chunks_of_concat {A} n (l : list A) : (0 < n)%nat → concat (chunks_of n l) = l.
Proof using Type. intros Hn. by apply chunks_from_concat. Qed.

Section Temporary.
Context (operation : OperationFence) (target : RemotePath) (t : str) (temporary : RemotePath) (τ : str).
Context (Ht : named target t).
Context (Htemp : remote_edit_temporary_path target (operation_id operation) = Ok temporary).
Context (Hτ : named temporary τ).

Lemma target_not_temporary : t ≠ τ.
Proof using Ht Htemp Hτ. by eapply temporary_differs; [|exact Htemp|exact Ht|exact Hτ]. Qed.

Lemma is_edit_temporary : edit_temporary operation target τ.
Proof using Htemp Hτ. by exists temporary. Qed.

Lemma edit_temporary_eq q : edit_temporary operation target q → q = τ.
Proof using Htemp Hτ. intros (temporary' & Htemp' & Hq). unfold named in *. congruence. Qed.

Hint Resolve is_edit_temporary : sftp.

(** The temporary file is written. *)
Lemma safe_write_temporary I chunks len w :
  (∀ w, view (names w0) w → I w) → (∀ i w, fresh i → view (<[τ := i]> (names w0)) w → I w) →
  view (names w0) w →
  safe I (write_temporary τ chunks len)
    (λ _ w, ∃ i, names w0 !! τ = None ∧ fresh i ∧ at_file (<[τ := i]> (names w0)) i (concat chunks) w) w.
Proof using Type*.
  intros HI HI' Hw. unfold write_temporary. eapply safe_bind.
  { apply (safe_open_new _ (names w0)); [apply extends_start|done| |done]. intros i w' _ ? []. eauto. }
  intros h w1 _ (i & Hp & Hf & Hw1).
  assert (∀ w, view (<[τ := i]> (names w0)) w → I w) as HI1 by eauto.
  eapply safe_bind; [by apply (safe_chunks _ (<[τ := i]> (names w0)) i)|]. intros [] w2 _ Hw2.
  eapply safe_weaken; [by eapply safe_seal|]. intros [] w3 _ Hw3. exists i. by split_and!.
Qed.

(** **** Editing a text file *)

Section Edit.
Context (g : SftpGeneration) (precondition : RemoteObjectPrecondition) (contents : list Z).
Notation plan := (WriteText operation g target precondition contents).

Lemma edit_start w : view (names w0) w → effect plan w0 w.
Proof using Type.
  intros Hw. split_and!; [eapply view_keeps|eapply view_adds|]; [done| |done|..]; [names_cases..|].
  left. by destruct Hw as [-> _].
Qed.

Lemma edit_written i w : names w0 !! τ = None → view (<[τ := i]> (names w0)) w → effect plan w0 w.
Proof using Ht Htemp Hτ.
  intros Hfree Hw. pose proof target_not_temporary. pose proof is_edit_temporary.
  split_and!; [eapply view_keeps|eapply view_adds|]; [done| |done|..]; [names_cases..|].
  intros q Hq. rewrite (named_eq _ _ _ Hq Ht). left. destruct Hw as [-> _]. by rewrite lookup_insert_ne.
Qed.

Lemma edit_replaced i w :
  names w0 !! τ = None → is_Some (names w0 !! t) → at_file (<[t := i]> (delete τ (<[τ := i]> (names w0)))) i contents w →
  effect plan w0 w.
Proof using Ht Htemp Hτ.
  intros Hfree Hsome [Hw Hc]. pose proof target_not_temporary.
  split_and!; [eapply view_keeps|eapply view_adds|]; [done| |done|..]; [names_cases..|].
  intros q Hq. rewrite (named_eq _ _ _ Hq Ht). right. exists i. destruct Hw as [-> _]. by rewrite lookup_insert_eq.
Qed.

Lemma edit_same w w' : same_files w w' → effect plan w0 w → effect plan w0 w'.
Proof using Type.
  intros Hs%same_kept (Hk & Ha & Hq). split_and!; [by eapply kept_keeps|by eapply kept_adds|].
  destruct Hs as [Hn Hc]. intros q. rewrite Hn. intros [?|(i & Hi & Hci)]%Hq; [by left|right].
  exists i. by rewrite Hn, Hc.
Qed.

Lemma edit_cleaned w w' :
  names w0 !! τ = None → renamed w w' (delete τ (names w)) → effect plan w0 w → effect plan w0 w'.
Proof using Ht Htemp Hτ.
  intros Hfree Hr (Hk & Ha & Hq). split_and!; [by eapply delete_keeps|by eapply delete_adds|].
  destruct Hr as (Hn & Hc & _). intros q Hnq. pose proof (named_eq _ _ _ Hnq Ht) as ->. pose proof target_not_temporary.
  destruct (Hq t Ht) as [?|(i & Hi & Hci)]; [left|right; exists i]; rewrite Hn, lookup_delete_ne by done; [done|].
  by rewrite Hc.
Qed.

Lemma write_text_ok : correct plan (write_text_file live g operation target precondition contents).
Proof using Type*.
  pose proof edit_start as HI. pose proof target_not_temporary as Hne.
  unfold correct, write_text_file. apply safe_value; [apply HI, view_start|]. intros t' Ht'%utf8_named.
  rewrite (named_eq _ _ _ Ht' Ht). rewrite Htemp. cbn [lift rmap_err].
  apply safe_value; [apply HI, view_start|]. intros ? [= <-].
  apply safe_value; [apply HI, view_start|]. intros τ' Hτ'%utf8_named. rewrite (named_eq _ _ _ Hτ' Hτ).
  eapply safe_bind; [by apply (safe_metadata _ (names w0)); [|apply view_start]|]. intros m w _ [Hw Hsome].
  apply safe_check; [auto|]. intros _.
  eapply safe_bind; [by apply (safe_exists _ (names w0))|]. intros b w1 _ [Hw1 ->].
  apply safe_check; [auto|]. intros Hfree%negb_true_iff%bool_decide_eq_false%eq_None_not_Some.
  pose proof (λ w w', edit_cleaned w w' Hfree) as Hclean. pose proof (λ i w, edit_written i w Hfree) as HI1.
  eapply safe_bind.
  { eapply (safe_or_clean_quietly _ _ _ τ); [done|apply edit_same|exact Hclean|].
    apply safe_write_temporary; [done|by intros; eapply HI1|done]. }
  intros [] w2 _ (i & _ & Hf & Hw2). cbn [concat] in Hw2. rewrite app_nil_r in Hw2.
  eapply (safe_or_clean_quietly _ _ _ τ); [done|apply edit_same|exact Hclean|].
  assert (∀ w, view (<[τ := i]> (names w0)) w → effect plan w0 w) as HI1' by (intros; by eapply HI1).
  eapply safe_bind; [apply (safe_metadata_at _ (<[τ := i]> (names w0)) i contents); [by intros ? []; auto|done]|].
  intros m2 w3 HI3 Hw3. apply safe_check; [done|]. intros _. eapply safe_bind.
  { apply (safe_posix_rename _ (<[τ := i]> (names w0)) i contents); [by rewrite lookup_insert_eq| |done| |done].
    - rewrite lookup_insert_ne by done. apply Hf.
    - intros w' Hw'. by eapply edit_replaced. }
  intros b w4 HI4 Hb. apply safe_check; [done|]. intros ->. eapply safe_bind.
  { apply (safe_metadata_at _ (<[t := i]> (delete τ (<[τ := i]> (names w0)))) i contents); [|done].
    intros w' Hw'. by eapply edit_replaced. }
  intros m3 w5 HI5 [[Hn _] Hc]. apply safe_check_end; [done|]. split.
  - exists t. split_and!; [done..|]. exists i. by rewrite Hn, lookup_insert_eq.
  - intros q ->%edit_temporary_eq. rewrite Hn, lookup_insert_ne, lookup_delete_eq by done. done.
Qed.

End Edit.

(** **** A new file *)

Section New.
Context (C : list Z → Prop).

Definition new_effect (w : W) : Prop :=
  keeps nothing w0 w ∧ adds (λ q, named target q ∨ edit_temporary operation target q) w0 w ∧
  ∀ q i, named target q → names w0 !! q = None → names w !! q = Some i → C (content w i).

Definition new_completed (w : W) : Prop :=
  (∃ q contents, named target q ∧ names w0 !! q = None ∧ C contents ∧ holds w q contents) ∧
  ∀ q, edit_temporary operation target q → names w !! q = None.

Lemma new_start w : view (names w0) w → new_effect w.
Proof using Type.
  intros Hw. split_and!; [eapply view_keeps|eapply view_adds|]; [done| |done|..]; [names_cases..|].
  destruct Hw as [-> _]. intros. congruence.
Qed.

Lemma new_written i w : names w0 !! τ = None → view (<[τ := i]> (names w0)) w → new_effect w.
Proof using Ht Htemp Hτ.
  intros Hfree Hw. pose proof target_not_temporary. pose proof is_edit_temporary.
  split_and!; [eapply view_keeps|eapply view_adds|]; [done| |done|..]; [names_cases..|].
  intros q j Hq. rewrite (named_eq _ _ _ Hq Ht). destruct Hw as [-> _]. rewrite lookup_insert_ne by done. congruence.
Qed.

(** The target is there, with or without the temporary name. *)
Lemma new_linked n i c w :
  names w0 !! τ = None → names w0 !! t = None → C c → at_file n i c w →
  n = <[t := i]> (<[τ := i]> (names w0)) ∨ n = delete τ (<[t := i]> (<[τ := i]> (names w0))) → new_effect w.
Proof using Ht Htemp Hτ.
  intros Hfree Hfree' HC [Hw Hc] Hn. pose proof target_not_temporary. pose proof is_edit_temporary.
  assert (n !! t = Some i) as Hnt by (destruct Hn as [->| ->]; names_cases).
  split_and!; [eapply view_keeps|eapply view_adds|]; [done| |done|..].
  - destruct Hn as [->| ->]; names_cases.
  - destruct Hn as [->| ->]; names_cases.
  - intros q j Hq _. rewrite (named_eq _ _ _ Hq Ht). destruct Hw as [-> _]. rewrite Hnt. intros [= <-]. by rewrite Hc.
Qed.

Lemma new_same w w' : same_files w w' → new_effect w → new_effect w'.
Proof using Type.
  intros Hs%same_kept (Hk & Ha & Hq). split_and!; [by eapply kept_keeps|by eapply kept_adds|].
  destruct Hs as [Hn Hc]. intros q i. rewrite Hn, Hc. apply Hq.
Qed.

Lemma new_cleaned w w' :
  names w0 !! τ = None → renamed w w' (delete τ (names w)) → new_effect w → new_effect w'.
Proof using Ht Htemp Hτ.
  intros Hfree Hr (Hk & Ha & Hq). split_and!; [by eapply delete_keeps|by eapply delete_adds|].
  destruct Hr as (Hn & Hc & _). intros q i Hnq. pose proof (named_eq _ _ _ Hnq Ht) as ->.
  pose proof target_not_temporary. rewrite Hn, lookup_delete_ne, Hc by done. by apply Hq.
Qed.

Lemma new_done i c w :
  names w0 !! t = None → C c → at_file (delete τ (<[t := i]> (<[τ := i]> (names w0)))) i c w → new_completed w.
Proof using Ht Htemp Hτ.
  intros Hfree HC [[Hn _] Hc]. pose proof target_not_temporary. split.
  - exists t, c. split_and!; [done..|]. exists i. rewrite Hn. names_cases.
  - intros q ->%edit_temporary_eq. rewrite Hn. apply lookup_delete_eq.
Qed.

(** The names are free: the temporary file may be written. *)
Lemma safe_names_free {B} (k : unit → Prog (pres B)) R w :
  view (names w0) w →
  (∀ w, names w0 !! t = None → names w0 !! τ = None → view (names w0) w → safe new_effect (k tt) R w) →
  safe new_effect (let* taken := either_exists t τ in let* x := check (negb taken) Conflict in k x) R w.
Proof using Type*.
  intros Hv Hk. pose proof new_start as HI.
  apply (safe_bind _ _ _ (λ b w, view (names w0) w ∧ (b = false → names w0 !! t = None ∧ names w0 !! τ = None))).
  - unfold either_exists. eapply safe_bind; [by apply (safe_exists _ (names w0))|].
    intros b w1 HIw [Hw Hb]. destruct b; [by apply safe_ret; [|intros ? [= <-]]|].
    eapply safe_weaken; [by apply (safe_exists _ (names w0))|]. intros b w' _ [Hw' Hb']. split; [done|].
    intros ->. symmetry in Hb, Hb'. by rewrite bool_decide_eq_false, <- eq_None_not_Some in Hb, Hb'.
  - intros b w1 HIw [Hw Hb]. apply safe_check; [done|]. intros Hnb. destruct b; [done|]. destruct Hb; auto.
Qed.

(** From the temporary file to the target. *)
Lemma safe_link (wrap : Prog (pres bool) → Prog (pres bool)) (tail : bool → Prog (pres unit)) i c w :
  (∀ p P w, safe new_effect p P w → safe new_effect (wrap p) P w) →
  names w0 !! t = None → names w0 !! τ = None → C c → at_file (<[τ := i]> (names w0)) i c w →
  (∀ w, at_file (<[t := i]> (<[τ := i]> (names w0))) i c w → safe new_effect (tail true) (λ _, new_completed) w) →
  (∀ w, new_effect w → safe new_effect (tail false) (λ _, new_completed) w) →
  safe new_effect (prbind (wrap (bounded_protocol (Hardlink τ t))) tail) (λ _, new_completed) w.
Proof using Type*.
  intros Hwrap Hfree Hfreeτ HC Hw Htail Hfalse. pose proof target_not_temporary.
  eapply safe_bind; [apply Hwrap, (safe_hardlink _ (<[τ := i]> (names w0)) i c)|].
  - by rewrite lookup_insert_eq.
  - intros w' Hw'. by eapply new_written.
  - intros w' _ Hw'. eapply new_linked; [..|by left]; done.
  - done.
  - intros [] w' HI' Hb; cbn in Hb; [|by apply Hfalse]. destruct Hb. by apply Htail.
Qed.

(** The temporary name goes. *)
Lemma safe_unlink i c w :
  names w0 !! t = None → names w0 !! τ = None → C c → at_file (<[t := i]> (<[τ := i]> (names w0))) i c w →
  safe new_effect (or_fail CleanupIncomplete (bounded_protocol (RemoveFile τ)))
    (λ _ w, at_file (delete τ (<[t := i]> (<[τ := i]> (names w0)))) i c w) w.
Proof using Type*.
  intros Hfree Hfreeτ HC [Hw Hc]. apply safe_map_err, safe_request.
  { eapply new_linked; [..|by left]; [done..|by split]. }
  intros x w' Hs. pose proof Hw as [Hn _].
  destruct (law_remove_file _ _ _ _ Hs) as [[Hx Hsame]|Hr].
  - split; [|intros a ->; by destruct Hx; eexists]. apply (new_linked (<[t := i]> (<[τ := i]> (names w0))) i c); [done|done|done| |by left].
    eapply kept_at_file; [by apply same_kept|by split].
  - rewrite Hn in Hr. assert (at_file (delete τ (<[t := i]> (<[τ := i]> (names w0)))) i c w') as Hw'.
    { split; [by eapply renamed_view|]. destruct Hr as (_ & Hc' & _). by rewrite Hc'. }
    split; [|done]. eapply new_linked; [..|by right]; done.
Qed.

(** The prefix of both: the paths are the ones above. *)
Lemma safe_paths {B} (k : str → RemotePath → str → Prog (pres B)) R w :
  new_effect w → safe new_effect (k t temporary τ) R w →
  safe new_effect (
    let* target_path := Ret (remote_path_utf8 target) in
    let* temporary := Ret (lift (remote_edit_temporary_path target (operation_id operation))) in
    let* temporary_path := Ret (remote_path_utf8 temporary) in
    k target_path temporary temporary_path) R w.
Proof using Ht Htemp Hτ.
  intros HI Hk. apply safe_value; [done|]. intros t' Ht'%utf8_named. rewrite (named_eq _ _ _ Ht' Ht).
  apply safe_value; [done|]. rewrite Htemp. intros ? [= <-].
  apply safe_value; [done|]. intros τ' Hτ'%utf8_named. by rewrite (named_eq _ _ _ Hτ' Hτ).
Qed.

Lemma write_new_ok g contents w :
  C contents → view (names w0) w →
  safe new_effect (write_new_remote_file live g operation target contents) (λ _, new_completed) w.
Proof using Type*.
  intros HC Hw. pose proof new_start as HI. pose proof new_same as Hsame.
  unfold write_new_remote_file. apply safe_value; [auto|]. intros _ _. apply safe_paths; [auto|].
  apply safe_names_free; [done|]. clear w Hw. intros w Hfree Hfreeτ Hw.
  pose proof (λ w w', new_cleaned w w' Hfreeτ) as Hclean.
  eapply safe_bind.
  { eapply (safe_or_clean _ _ _ τ); [done..|]. apply safe_write_temporary; [done| |done].
    intros i w' _ ?. by eapply new_written. }
  intros [] w1 _ (i & _ & _ & Hw1). rewrite chunks_of_concat in Hw1 by (unfold TRANSFER_CHUNK_BYTES; lia).
  apply (safe_link (or_report_clean live g temporary) _ i contents); [|done..| |];
    [by intros; apply (safe_or_clean _ _ _ τ)|clear w1 Hw1; intros w1 Hw1..].
  - eapply safe_bind.
    { eapply (safe_or_clean _ _ _ τ); [done..|]. apply (safe_check_end _ _ _ (λ _, at_file (<[t := i]> (<[τ := i]> (names w0))) i contents));
        [|exact Hw1]. eapply new_linked; [..|by left]; done. }
    intros [] w2 _ Hw2. eapply safe_bind; [by apply safe_unlink|]. intros [] w3 _ Hw3.
    eapply safe_bind.
    { apply (safe_metadata_at _ (delete τ (<[t := i]> (<[τ := i]> (names w0)))) i contents); [|done]. intros w' Hw'. eapply new_linked; [..|by right]; done. }
    intros m w4 ? Hw4. apply safe_check_end; [done|]. by apply (new_done i contents).
  - eapply (safe_bind _ _ _ (λ _ _, False)); [|by intros]. eapply (safe_or_clean _ _ _ τ); [done..|].
    by apply safe_ret.
Qed.

(** The body of a download. *)
Lemma safe_download i h body k c w :
  names w0 !! τ = None → fresh i → open_at (<[τ := i]> (names w0)) i c h w →
  safe new_effect (download_chunks h body k)
    (λ _ w, open_at (<[τ := i]> (names w0)) i (c ++ body_bytes body) h w) w.
Proof using Type*.
  intros Hfreeτ Hf. assert (∀ w, view (<[τ := i]> (names w0)) w → new_effect w) as HI
    by (intros; by eapply new_written).
  revert k c w. induction body as [|[chunk|] body IH]; intros k c w Hw; cbn [download_chunks body_bytes];
    (apply safe_await; [apply HI, Hw|]); [by apply safe_ret; [apply HI, Hw|]; rewrite app_nil_r| |].
  - apply safe_check; [apply HI, Hw|]. intros _. apply safe_check; [apply HI, Hw|]. intros _.
    eapply safe_bind; [by apply (safe_write _ (<[τ := i]> (names w0)) i)|]. intros [] w1 _ Hw1.
    rewrite app_assoc. by apply IH.
  - by apply safe_ret; [apply HI, Hw|].
Qed.

Lemma store_download_ok g body w :
  C (body_bytes body) → view (names w0) w →
  safe new_effect (store_download live g operation target body) (λ _, new_completed) w.
Proof using Type*.
  intros HC Hw. pose proof new_start as HI. pose proof new_same as Hsame.
  unfold store_download. apply safe_paths; [auto|].
  apply safe_names_free; [done|]. clear w Hw. intros w Hfree Hfreeτ Hw.
  pose proof (λ w w', new_cleaned w w' Hfreeτ) as Hclean.
  eapply safe_bind.
  { apply (safe_open_new _ (names w0)); [apply extends_start|done| |done]. intros i w' _ _ [? _]. by eapply new_written. }
  intros h w1 _ (i & _ & Hf & Hw1). eapply safe_bind.
  { eapply (safe_or_clean_quietly _ _ _ τ); [done..|]. eapply safe_bind; [by apply (safe_download i)|].
    intros downloaded w2 _ Hw2. eapply safe_seal; [|exact Hw2]. intros; by eapply new_written. }
  cbn [app]. intros [] w2 _ Hw2.
  apply (safe_link (or_fail Conflict) _ i (body_bytes body)); [|done..| |];
    [by intros; apply safe_map_err|clear w2 Hw2; intros w2 Hw2..].
  - eapply safe_bind.
    { eapply (safe_or_clean_quietly _ _ _ τ); [done..|].
      apply (safe_check_end _ _ _ (λ _, at_file (<[t := i]> (<[τ := i]> (names w0))) i (body_bytes body))); [|exact Hw2].
      eapply new_linked; [..|by left]; done. }
    intros [] w3 _ Hw3. eapply safe_weaken; [by apply safe_unlink|]. intros [] w4 _ Hw4. by apply (new_done i (body_bytes body)).
  - eapply (safe_bind _ _ _ (λ _ _, False)); [|by intros]. eapply (safe_or_clean_quietly _ _ _ τ); [done..|].
    by apply safe_ret.
Qed.

End New.

End Temporary.

(** *** Reading *)

Notation unchanged := (λ e : Env W, view (names w0) (world e)).

(** The program leaves the files alone. *)
Definition reads {A} (p : Prog A) : Prop := ∀ e, unchanged e → wp any_op p (λ _, unchanged) unchanged e.

Definition quiet {X} (r : Req X) : Prop := ∀ w x w', serve r w = (x, w') → kept_files w w'.

Lemma reads_ret {A} (a : A) : reads (Ret a).
Proof using Type. by intros e He. Qed.

Lemma reads_await {A} (p : Prog A) : reads p → reads (Await p).
Proof using Type. intros Hp e He ops _. split; [done|]. by apply Hp. Qed.

Lemma reads_bind {A B} (p : Prog A) (k : A → Prog B) : reads p → (∀ a, reads (k a)) → reads (pbind p k).
Proof using Type.
  intros Hp Hk e He. apply wp_bind. refine (wp_mono _ _ _ _ _ _ _ _ _ (Hp e He)); [|done].
  intros a e' He'. by apply Hk.
Qed.

Lemma reads_rbind {E A B} (p : Prog (rres E A)) (k : A → Prog (rres E B)) :
  reads p → (∀ a, reads (k a)) → reads (prbind p k).
Proof using Type. intros Hp Hk. apply reads_bind; [done|]. intros [a|f|]; [done|apply reads_ret..]. Qed.

Lemma reads_request {X} (r : Req X) : quiet r → reads (bounded_protocol r).
Proof using Type.
  intros Hr e He ops _. unfold ask, disturb. cbn. destruct (serve r (world e)) as [x w'] eqn:Es. cbn.
  assert (view (names w0) w') by (by eapply kept_view; [apply (Hr _ _ _ Es)|]). auto.
Qed.

Lemma quiet_reading {X} (r : Req X) : reading r = true → quiet r.
Proof using Type*. intros Hr w x w'. by apply law_reading. Qed.

Lemma quiet_metadata p : quiet (SymlinkMetadata p).
Proof using Type*. intros w x w' Hs. apply same_kept. by destruct (law_symlink_metadata _ _ _ _ Hs). Qed.

Lemma quiet_close h : quiet (CloseFile h).
Proof using Type*. intros w x w'. apply law_close. Qed.

Lemma reads_check ok e : reads (check ok e).
Proof using Type. apply reads_ret. Qed.

Lemma reads_generation g : reads (client_generation live g).
Proof using Type. apply reads_ret. Qed.

Lemma safe_reads {E A} I (p : Prog (rres E A)) w :
  (∀ w, view (names w0) w → I w) → reads p → view (names w0) w → safe I p (λ _ w, view (names w0) w) w.
Proof using Type.
  intros HI Hp Hw e <-. eapply wp_mono; [| |exact (Hp e Hw)]; [intros x e' He'; split; auto|auto].
Qed.

Create HintDb reads.
#[local] Opaque reads.
Hint Resolve reads_ret reads_await reads_bind reads_rbind reads_request reads_check reads_generation
  quiet_reading quiet_metadata quiet_close : reads.
Lemma reads_loop n {S R} (body : S → Prog (S + R)) s : (∀ s, reads (body s)) → reads (loop n body s).
Proof using Type. intros Hb. revert s. induction n as [n IH|n IH|]; intros s; cbn [loop]; 
    repeat (apply reads_bind; [by auto|]; intros [?|?]); auto with reads. Qed.

Ltac reads :=
  repeat match goal with
  | |- ∀ x, reads _ => intros ?
  | |- reads (loop _ _ _) => apply reads_loop
  | |- reads (match ?x with _ => _ end) => destruct x
  | |- reads _ => first [ apply reads_rbind | apply reads_bind | apply reads_await | apply reads_ret ]
  end; auto with reads.

Lemma reads_read_step h s : reads (read_step h s).
Proof using Type*. destruct s as [bytes remaining]. unfold read_step. reads. Qed.

Hint Resolve reads_read_step : reads.

Lemma reads_preview g path expected start maximum :
  reads (read_remote_file_preview live g path expected start maximum).
Proof using Type*.
  unfold read_remote_file_preview, verify_remote_file, read_all. reads.
Qed.

Lemma reads_children h name depth children pending : reads (push_children h name depth children pending).
Proof using Type*. revert pending. induction children; intros pending; cbn [push_children]; reads. Qed.

Hint Resolve reads_children : reads.

Lemma reads_page path name depth entries h pending : reads (page_step path name depth entries h pending).
Proof using Type*. unfold page_step. reads. Qed.

Hint Resolve reads_page : reads.

Lemma reads_collect pages g sources : reads (collect_archive_entries live pages g sources).
Proof using Type*.
  unfold collect_archive_entries, collect_step, step_of, collect_item. reads.
Qed.

(** *** Extracting an archive *)

Section Extract.
Context (directory : RemotePath).

(** What may be there at any time. *)
Definition extracting (w : W) : Prop := keeps nothing w0 w ∧ adds (inside directory) w0 w.

(** The files written so far. *)
Definition extracted (D : list (str * list Z)) (w : W) : Prop :=
  extracting w ∧ ∀ q c, (q, c) ∈ D → names w0 !! q = None ∧ holds w q c.

(** The file being written. *)
Definition extracting_file (D : list (str * list Z)) (p : str) (i : Z) (c : list Z) (w : W) : Prop :=
  extracted D w ∧ names w0 !! p = None ∧ names w !! p = Some i ∧ (∀ q, q ≠ p → names w !! q ≠ Some i) ∧
  (∀ c', (p, c') ∉ D) ∧ content w i = c.

Lemma extracted_kept D w w' : kept_files w w' → extracted D w → extracted D w'.
Proof using Type.
  intros Hk [[? ?] HD]. split; [split; [by eapply kept_keeps|by eapply kept_adds]|].
  destruct Hk as [Hn Hc]. intros q c Hq. destruct (HD q c Hq) as [? (i & Hi & Hci)].
  split; [done|]. exists i. by rewrite Hn, Hc.
Qed.

Lemma extracting_kept D p i c w w' : kept_files w w' → extracting_file D p i c w → extracting_file D p i c w'.
Proof using Type.
  intros Hk (? & ? & ? & ? & ? & ?). split; [by eapply extracted_kept|]. destruct Hk as [Hn Hc].
  rewrite Hn, Hc. by split_and!.
Qed.

Lemma extracted_created D w w' p i :
  inside directory p → created w w' p i → extracted D w → extracting_file D p i [] w'.
Proof using Type.
  intros Hin (Hp & Hfree & Hn & Hempty & Hc) [[Hk Ha] HD].
  assert (names w0 !! p = None) as Hp0.
  { destruct (names w0 !! p) as [j|] eqn:E; [|done]. destruct (Hk p j E) as [_ [[]|?]]. congruence. }
  assert (∀ q j, names w !! q = Some j → names w' !! q = Some j ∧ content w' j = content w j) as Hold.
  { intros q j Hq. rewrite Hn, lookup_insert_ne by congruence. split; [done|]. apply Hc. intros ->. by apply (Hfree q). }
  split_and!; [split; [split|]|done|..].
  - intros q j Hq. destruct (Hk q j Hq) as [Hcq [[]|Hwq]]. destruct (Hold q j Hwq) as [? Hj]. rewrite Hj. auto.
  - intros q Hq. rewrite Hn. destruct (decide (p = q)) as [<-|]; [done|]. rewrite lookup_insert_ne by done. by apply Ha.
  - intros q c Hq. destruct (HD q c Hq) as [? (j & Hj & <-)]. split; [done|]. exists j. by apply Hold.
  - rewrite Hn. apply lookup_insert_eq.
  - intros q Hq. rewrite Hn, lookup_insert_ne by done. apply Hfree.
  - intros c' Hc'. destruct (HD p c' Hc') as [_ (j & Hj & _)]. congruence.
  - done.
Qed.

Lemma extracting_written D p i c chunk h w w' :
  names w' = names w → (∀ j, j ≠ i → content w' j = content w j) → content w' i = c ++ chunk →
  extracting_file D p i c w → file_of w h = i → extracting_file D p i (c ++ chunk) w'.
Proof using Type.
  intros Hn Ho Hi ([[Hk Ha] HD] & Hp0 & Hp & Hother & HpD & Hc) Hh.
  split_and!; [split; [split|]|done|by rewrite Hn|by rewrite Hn|done|done].
  - intros q j Hq. destruct (Hk q j Hq) as [Hcq Hwq]. rewrite Hn. split; [|done].
    rewrite Ho; [done|]. intros ->. destruct Hwq as [[]|Hwq]. destruct (decide (q = p)) as [->|Hne]; [congruence|].
    by apply (Hother q).
  - intros q. rewrite Hn. apply Ha.
  - intros q c' Hq. destruct (HD q c' Hq) as [? (j & Hj & <-)]. split; [done|]. exists j. rewrite Hn. split; [done|].
    apply Ho. intros ->. apply (Hother q); [|done]. intros ->. by apply (HpD (content w i)).
Qed.

(** The file is finished. *)
Lemma extracting_done D p i c w : extracting_file D p i c w → extracted ((p, c) :: D) w.
Proof using Type.
  intros ([He HD] & Hp0 & Hp & _ & _ & Hc). split; [done|]. intros q c' [[= -> ->]|Hq]%elem_of_cons; [|by apply HD].
  split; [done|]. by exists i.
Qed.

Lemma child_path_ok relative path :
  remote_archive_child_path directory relative = Ok path →
  validate_archive_name relative = Ok tt ∧ path = child_path directory relative.
Proof using Type.
  unfold remote_archive_child_path, parse_path, lift. destruct (validate_archive_name relative) as [[]|e|]; [|done..].
  cbn. destruct (_ || _); [done|]. by intros [= <-].
Qed.

Lemma safe_extract_dir D p w :
  inside directory p → extracted D w →
  safe extracting (or_fail CleanupIncomplete (bounded_protocol (CreateDir p))) (λ _, extracted D) w.
Proof using Type*.
  intros Hin Hw. apply safe_map_err, safe_request; [apply Hw|]. intros x w' Hs.
  assert (extracted D w') as Hw'; [|split; [apply Hw'|done]].
  destruct (law_create_dir _ _ _ _ Hs) as [[_ Hsame]|[i Hc]].
  - eapply extracted_kept; [by apply same_kept|done].
  - by destruct (extracted_created _ _ _ _ _ Hin Hc Hw).
Qed.

Lemma safe_parents D components indices created w :
  extracted D w → safe extracting (create_parents directory components indices created) (λ _, extracted D) w.
Proof using Type*.
  revert created w. induction indices as [|index indices IH]; intros created w Hw; cbn [create_parents].
  - by apply safe_ret; [apply Hw|].
  - destruct (bool_decide _); [by apply IH|]. apply safe_value; [apply Hw|]. intros path [Hv ->]%child_path_ok.
    apply safe_value; [apply Hw|]. intros q Hq%utf8_named. eapply safe_bind; [apply safe_extract_dir; [|done]|].
    + right. by eexists.
    + intros [] w' _ Hw'. by apply IH.
Qed.

Lemma safe_extract_file D entry w :
  extracted D w →
  safe extracting (extract_file directory entry)
    (λ _ w, ∃ q, named (child_path directory (name entry)) q ∧ extracted ((q, bytes entry) :: D) w) w.
Proof using Type*.
  intros Hw. unfold extract_file. apply safe_value; [apply Hw|]. intros path [Hv ->]%child_path_ok.
  apply safe_value; [apply Hw|]. intros q Hq%utf8_named. assert (inside directory q) as Hin by (right; by eexists).
  eapply (safe_bind _ _ _ (λ h w, ∃ i, extracting_file D q i [] w ∧ file_of w h = i)).
  { apply safe_map_err, safe_request; [apply Hw|]. intros x w' Hs.
    destruct (law_open_new _ _ _ _ Hs) as [[Hx Hsame]|(i & Hc & Hh)].
    - split; [|intros h ->; by destruct Hx; eexists]. by eapply extracted_kept; [apply same_kept|apply Hw].
    - pose proof (extracted_created _ _ _ _ _ Hin Hc Hw) as Hw'. split; [apply Hw'|]. intros h Hx. exists i. eauto. }
  intros h w1 _ (i & Hw1 & Hh). apply safe_map_err.
  eapply (safe_bind _ _ _ (λ _ w, extracting_file D q i (bytes entry) w)).
  { apply safe_request; [apply Hw1|]. intros x w' Hs. destruct (law_write _ _ _ _ _ Hs) as (Hn & Ho & _ & Ha).
    rewrite Hh in Ho, Ha. assert (content w' i = [] ++ drop 0 (content w' i)) as Hsplit by done.
    pose proof (extracting_written D q i [] _ h w1 w' Hn Ho Hsplit Hw1 Hh) as Hw'. split; [apply Hw'|].
    intros a ->. cbn in Hw'. rewrite drop_0, Ha in Hw' by by eexists. destruct Hw1 as (_ & _ & _ & _ & _ & Hw1).
    by rewrite Hw1 in Hw'. }
  intros [] w2 _ Hw2. eapply (safe_bind _ _ _ (λ _ w, extracting_file D q i (bytes entry) w)).
  { apply safe_request; [apply Hw2|]. intros x w' Hs. pose proof (law_sync _ _ _ _ Hs) as Hsame%same_kept.
    pose proof (extracting_kept _ _ _ _ _ _ Hsame Hw2) as Hw'. split; [apply Hw'|done]. }
  intros [] w3 _ Hw3. apply safe_request; [apply Hw3|]. intros x w' Hs. pose proof (law_close _ _ _ _ Hs) as Hk.
  pose proof (extracting_kept _ _ _ _ _ _ Hk Hw3) as Hw'. split; [apply Hw'|]. intros _ _. exists q.
  split; [done|]. by eapply extracting_done.
Qed.

(** Every file of the entries is there. *)
Definition all_extracted (entries : list ArchiveEntry) (D : list (str * list Z)) : Prop :=
  ∀ entry, entry ∈ entries → is_directory entry = false →
    ∃ q, named (child_path directory (name entry)) q ∧ (q, bytes entry) ∈ D.

Lemma safe_entries entries D created w :
  extracted D w →
  safe extracting (extract_entries directory entries created)
    (λ _ w, ∃ D', extracted D' w ∧ D ⊆ D' ∧ all_extracted entries D') w.
Proof using Type*.
  revert D created w. induction entries as [|entry entries IH]; intros D created w Hw; cbn [extract_entries].
  - apply safe_ret; [apply Hw|]. intros _ _. exists D. split_and!; [done..|]. by intros entry ?%elem_of_nil.
  - eapply safe_bind; [by apply (safe_parents D)|]. intros created' w1 _ Hw1.
    eapply (safe_bind _ _ _ (λ _ w, ∃ D', extracted D' w ∧ D ⊆ D' ∧ all_extracted [entry] D')).
    + destruct (is_directory entry) eqn:Ed.
      * apply safe_ret; [apply Hw1|]. intros _ _. exists D. split_and!; [done..|].
        intros entry' ->%list_elem_of_singleton. congruence.
      * eapply safe_weaken; [by apply (safe_extract_file D)|]. intros [] w2 _ (q & Hq & Hw2).
        exists ((q, bytes entry) :: D). split_and!; [done|set_solver|].
        intros entry' ->%list_elem_of_singleton _. exists q. split; [done|left].
    + intros [] w2 _ (D1 & Hw2 & Hsub & Hall). eapply safe_weaken; [by apply (IH D1)|].
      intros [] w3 _ (D2 & Hw3 & Hsub' & Hall'). exists D2. split_and!; [done|set_solver|].
      intros entry' [->|He]%elem_of_cons Hf; [|by apply Hall'].
      destruct (Hall entry) as (q & ? & ?); [by left|done|]. exists q. split; [done|set_solver].
Qed.

Lemma extract_archive_ok g entries w :
  view (names w0) w →
  safe extracting (extract_archive_entries live g directory entries)
    (λ _ w, (∃ q, named directory q ∧ names w0 !! q = None) ∧ ∃ D, extracted D w ∧ all_extracted entries D) w.
Proof using Type*.
  intros Hw. assert (∀ w, view (names w0) w → extracting w) as HI.
  { intros w' Hw'. split; [eapply view_keeps|eapply view_adds]; [done| |done|]; names_cases. }
  unfold extract_archive_entries. apply safe_value; [auto|]. intros _ _.
  apply safe_value; [auto|]. intros root Hroot%utf8_named.
  eapply safe_bind; [by apply (safe_exists _ (names w0))|]. intros b w1 _ [Hw1 ->].
  apply safe_check; [auto|]. intros Hfree%negb_true_iff%bool_decide_eq_false%eq_None_not_Some.
  assert (extracted [] w1) as He1. { split; [auto|]. by intros ? ? ?%elem_of_nil. }
  assert (inside directory root) as Hin by by left.
  eapply (safe_bind _ _ _ (λ _ w, extracted [] w)).
  { apply safe_request; [apply He1|]. intros x w' Hs. assert (extracted [] w') as Hw'; [|split; [apply Hw'|done]].
    destruct (law_create_dir _ _ _ _ Hs) as [[_ Hsame]|[i Hc]].
    - eapply extracted_kept; [by apply same_kept|done].
    - by destruct (extracted_created _ _ _ _ _ Hin Hc He1). }
  intros [] w2 _ Hw2. eapply safe_weaken; [by apply (safe_entries entries [])|].
  intros [] w3 _ (D & HD & _ & Hall). split; [by exists root|by exists D].
Qed.

End Extract.

(** ** Every mutation *)

Lemma effect_start plan w : view (names w0) w → effect plan w0 w.
Proof using Type.
  intros Hw. assert (∀ S, keeps S w0 w) by (intros S; eapply view_keeps; [done|]; names_cases).
  assert (∀ S, adds S w0 w) by (intros S; eapply view_adds; [done|]; names_cases).
  destruct Hw as [Hn _]. destruct plan; cbn [effect]; split_and!; try done; intros; rewrite ?Hn in *; auto; congruence.
Qed.

(** The paths of a plan that writes a temporary file: they are as in [Temporary],
    or the program has failed. *)
Definition with_paths (operation : OperationFence) (target : RemotePath)
    (k : str → RemotePath → str → Prog (pres unit)) : Prog (pres unit) :=
  let* target_path := Ret (remote_path_utf8 target) in
  let* temporary := Ret (lift (remote_edit_temporary_path target (operation_id operation))) in
  let* temporary_path := Ret (remote_path_utf8 temporary) in
  k target_path temporary temporary_path.

Lemma safe_with_paths I operation target k P w :
  I w →
  (∀ t temporary τ, named target t →
     remote_edit_temporary_path target (operation_id operation) = Ok temporary → named temporary τ →
     safe I (with_paths operation target k) P w) →
  safe I (with_paths operation target k) P w.
Proof using Type.
  intros HI. unfold with_paths, remote_path_utf8 at 1 3, lift.
  destruct (from_utf8 target) as [t|] eqn:Et; cbn; [|intros _; by apply safe_ret].
  destruct (remote_edit_temporary_path _ _) as [temporary|e|] eqn:Ep; cbn; [|intros _; by apply safe_ret..].
  unfold remote_path_utf8. destruct (from_utf8 temporary) as [τ|] eqn:Eτ; cbn; [|intros _; by apply safe_ret].
  intros Hp. by apply (Hp t temporary τ).
Qed.

Lemma create_zip_ok pages op g sources target :
  correct (CreateZip op g sources target)
    (let* entries := collect_archive_entries live pages g sources in
     let* archive := Await (Ret (lift (encode_zip entries))) in
     write_new_remote_file live g op target archive).
Proof using Type*.
  set (plan := CreateZip op g sources target). pose proof (effect_start plan) as HI. unfold correct.
  eapply safe_bind; [apply safe_reads; [done|apply reads_collect|apply view_start]|]. intros entries w _ Hw.
  apply (safe_bind _ _ _ (λ archive w, encode_zip entries = Ok archive ∧ view (names w0) w)).
  { apply safe_await; [auto|]. apply safe_ret; [auto|]. unfold lift. destruct (encode_zip entries); [|done..].
    by intros ? [= <-]. }
  intros archive w1 _ [He Hw1]. assert (new_contents plan archive) as HC by by exists entries.
  unfold write_new_remote_file. apply safe_value; [auto|]. intros [] Hg.
  apply (safe_with_paths _ op target); [auto|]. intros t temporary τ Ht Htemp Hτ.
  pose proof (write_new_ok op target t temporary τ Ht Htemp Hτ (new_contents plan) g archive w1 HC Hw1) as Hs.
  unfold write_new_remote_file, client_generation in Hs. destruct (live =? g); [exact Hs|done].
Qed.

Lemma download_ok op g url target :
  correct (DownloadUrl op g url target) (download_url_to_remote_file live g op url target).
Proof using Type*.
  set (plan := DownloadUrl op g url target). pose proof (effect_start plan) as HI. pose proof view_start as Hw.
  unfold correct, download_url_to_remote_file. apply safe_value; [auto|]. intros _ _.
  apply safe_value; [auto|]. intros parsed Hparsed. destruct (parse_url url) as [u|] eqn:Eu; [|done].
  injection Hparsed as ->. apply safe_check; [auto|]. intros Hok. apply safe_await; [auto|].
  destruct (http_get redirect_policy parsed) as [| | |len body] eqn:Eh; [by apply safe_ret; auto..|].
  apply safe_check; [auto|]. intros _. assert (new_contents plan (body_bytes body)) as HC by by repeat eexists.
  unfold store_download. apply (safe_with_paths _ op target); [auto|]. intros t temporary τ Ht Htemp Hτ.
  exact (store_download_ok op target t temporary τ Ht Htemp Hτ (new_contents plan) g body w0 HC Hw).
Qed.

Lemma extract_zip_ok op g source precondition directory :
  correct (ExtractZip op g source precondition directory)
    (let* archive := read_remote_file_preview live g source precondition 0 MAX_ARCHIVE_OUTPUT_BYTES in
     let* entries := Await (Ret (lift (decode_zip archive))) in
     extract_archive_entries live g directory entries).
Proof using Type*.
  set (plan := ExtractZip op g source precondition directory). pose proof (effect_start plan) as HI. unfold correct.
  eapply safe_bind; [apply safe_reads; [done|apply reads_preview|apply view_start]|]. intros archive w _ Hw.
  apply (safe_bind _ _ _ (λ entries w, decode_zip archive = Ok entries ∧ view (names w0) w)).
  { apply safe_await; [auto|]. apply safe_ret; [auto|]. unfold lift. destruct (decode_zip archive); [|done..].
    by intros ? [= <-]. }
  intros entries w1 _ [He Hw1]. eapply safe_weaken; [by apply (extract_archive_ok directory g entries)|].
  intros [] w2 _ [Hroot (D & [_ HD] & Hall)]. exists archive, entries. split_and!; [done..|].
  intros entry Hin Hf. destruct (Hall entry Hin Hf) as (q & Hq & HqD). exists q. destruct (HD _ _ HqD). by split_and!.
Qed.

Lemma mutation_ok pages plan : correct plan (execute_mutation live pages plan).
Proof using Type*.
  pose proof (effect_start plan) as HI. pose proof view_start as Hw.
  unfold correct, execute_mutation. apply safe_value; [auto|]. intros _ _. destruct plan.
  - apply safe_value; [auto|]. intros q Hq%utf8_named. by apply create_directory_ok.
  - apply safe_value; [auto|]. intros q Hq%utf8_named. by apply create_empty_file_ok.
  - unfold write_text_file. apply (safe_with_paths _ op path); [auto|]. intros t temporary τ Ht Htemp Hτ.
    exact (write_text_ok op path t temporary τ Ht Htemp Hτ g precondition bytes0).
  - apply rename_ok.
  - apply delete_ok.
  - apply set_permissions_ok.
  - apply create_zip_ok.
  - apply extract_zip_ok.
  - apply download_ok.
Qed.

End Rules.

(** ** Theorems *)

Lemma any_script s : script_allowed any_op s.
Proof. apply Forall_true. intros m. apply Forall_true. done. Qed.


(** *** Mutations beside a running transfer *)

Lemma named_bytes path q : named path q → utf8_encode q = path.
Proof. apply from_utf8_sound. Qed.

Lemma named_inj p p' q : named p q → named p' q → p = p'.
Proof. intros Hp%named_bytes Hp'%named_bytes. congruence. Qed.

Lemma starts_with_prefix a b : starts_with a (a ++ b) = true.
Proof. induction a as [|c a IH]; [done|]. cbn. by rewrite Z.eqb_refl. Qed.

Lemma strip_suffix_split c s t : strip_suffix c s = Some t → s = t ++ [c].
Proof.
  unfold strip_suffix. intros H. rewrite <- (rev_involutive s). destruct (rev s) as [|x r]; [done|].
  destruct (Z.eqb_spec x c) as [->|]; [|done]. by injection H as <-.
Qed.

Lemma strip_suffix_None c s : strip_suffix c s = None → last s ≠ Some c.
Proof.
  unfold strip_suffix. rewrite <- (rev_involutive s) at 2. destruct (rev s) as [|x r]; [done|].
  cbn [rev]. rewrite last_snoc. destruct (Z.eqb_spec x c); [done|]. congruence.
Qed.

(** A path, and everything inside it, is below it. *)
Lemma contains_below a rest : contains a (a ++ (if ends_with_slash a then [] else [47]) ++ rest) = true.
Proof.
  unfold contains, ends_with_slash. apply orb_true_iff. right.
  destruct (1 <? zlen a) eqn:El; [destruct (strip_suffix 47 a) as [b|] eqn:E|]; cbn [default].
  - apply strip_suffix_split in E as ->. rewrite last_snoc, bool_decide_true by done. rewrite <- app_assoc.
    rewrite starts_with_prefix. cbn. apply orb_true_iff. right. apply bool_decide_eq_true.
    rewrite lookup_app_r, Nat.sub_diag by done. done.
  - apply strip_suffix_None in E. rewrite bool_decide_false by done. rewrite starts_with_prefix. cbn.
    apply orb_true_iff. right. apply bool_decide_eq_true. by rewrite lookup_app_r, Nat.sub_diag.
  - rewrite starts_with_prefix. cbn. destruct (bool_decide (last a = Some 47)) eqn:Ea; apply orb_true_iff.
    + left. apply bool_decide_eq_true. apply bool_decide_eq_true in Ea. destruct a as [|c [|d a]]; [done|by injection Ea as ->|].
      rewrite !zlen_cons in El. pose proof (zlen_nonneg a). lia.
    + right. apply bool_decide_eq_true. by rewrite lookup_app_r, Nat.sub_diag.
Qed.

Lemma contains_self a : contains a a = true.
Proof.
  destruct (ends_with_slash a) eqn:E.
  - pose proof (contains_below a []) as Hc. by rewrite E, !app_nil_r in Hc.
  - unfold contains. assert (strip_suffix 47 a = None) as ->.
    { destruct (strip_suffix 47 a) as [b|] eqn:Eb; [|done]. apply strip_suffix_split in Eb as ->.
      unfold ends_with_slash in E. by rewrite last_snoc, bool_decide_true in E. }
    cbn [default]. rewrite bool_decide_true; [done|]. by destruct (1 <? zlen a).
Qed.

(** The name of the temporary file of a mutation. *)
Definition mutation_temporary (plan : FileMutationPlan) (q : str) : Prop :=
  match plan with
  | WriteText operation _ target _ _ | CreateZip operation _ _ target | DownloadUrl operation _ _ target =>
      edit_temporary operation target q
  | _ => False
  end.

Section Spares.
Context {W : Type} `{FileView W} `{ZipLibrary} `{HttpClient}.

(** The names a mutation may change are below a path it touches. *)
Definition touches (plan : FileMutationPlan) (q : str) : Prop :=
  ∃ touched busy, touched ∈ touched_paths plan ∧ named busy q ∧ contains touched busy = true.

Lemma touches_named plan path q : path ∈ touched_paths plan → named path q → touches plan q.
Proof. intros Hp Hq. exists path, path. split_and!; [done..|]. apply contains_self. Qed.

Lemma touches_inside plan path q : path ∈ touched_paths plan → inside path q → touches plan q.
Proof.
  intros Hp [Hq|(relative & _ & Hq)]; [by eapply touches_named|].
  exists path, (child_path path relative). split_and!; [done..|]. apply contains_below.
Qed.

Lemma effect_touches plan (w0 w : W) :
  effect plan w0 w →
  keeps (touches plan) w0 w ∧ adds (λ q, touches plan q ∨ mutation_temporary plan q) w0 w.
Proof.
  assert (∀ S, (∀ q, S q → touches plan q) → keeps S w0 w → keeps (touches plan) w0 w) as Hk.
  { intros S HS Hk q i Hq. destruct (Hk q i Hq) as [? [?|?]]; auto. }
  assert (∀ S S' : str → Prop, (∀ q, S q → S' q) → adds S w0 w → adds S' w0 w) as Ha.
  { intros S S' HS Ha q Hq Hq'. auto. }
  destruct plan; cbn [effect mutation_temporary]; intros He; (split;
    [eapply Hk; [|apply He]; intros q Hq; first [done | eapply touches_named; [|done]; cbn; set_solver]
    |eapply Ha; [|apply He]; intros q Hq; cbn in Hq;
     first [ done | by right
           | left; eapply touches_inside; [|done]; cbn; set_solver
           | left; eapply touches_named; [|done]; cbn; set_solver
           | destruct Hq as [Hq|Hq]; [left; eapply touches_named; [|done]; cbn; set_solver|by right] ]]).
Qed.

End Spares.


End Effects.
