(* ===== verification/SftpLedger.v ===== *)
(** * Mutations are not repeated

    src-tauri/src/sftp_session_service.rs: a request to change remote files, its
    fingerprint, the plan made from it, and the ledger under which it is carried
    out ([MutationLedger]). The ledger is bounded; it refines the history of all
    the operations it has granted. SHA-256 is a parameter. *)

From S2P Require Import Prelude RustStr RustVec SftpActor SftpTransfers SftpServer SftpUpload SftpMutations.

Module MutationLedger.
Import Sftp Upload Mutate.

(** ** Requests *)

Record SftpArchiveSource := mkSource {
  sa_path : list Z;
  sa_precondition : RemoteObjectPrecondition;
  sa_name : str }.

Inductive SftpFileMutation :=
| WireCreateDirectory (path : list Z)
| WireCreateEmptyFile (path : list Z)
| WireWriteText (path : list Z) (precondition : RemoteObjectPrecondition) (text : str)
| WireRenameNoReplace (source target : list Z) (source_precondition : RemoteObjectPrecondition)
| WireDelete (path : list Z) (precondition : RemoteObjectPrecondition) (irreversible_confirmed : bool)
| WireSetPermissions (path : list Z) (precondition : RemoteObjectPrecondition)
    (expected_permission_bits mode : Z)
| WireCreateZip (sources : list SftpArchiveSource) (target : list Z)
| WireExtractZip (source : list Z) (source_precondition : RemoteObjectPrecondition) (target_directory : list Z)
| WireDownloadUrl (url : str) (target : list Z).

Record SftpFileMutationRequest := mkRequest {
  rq_operation_id : str;
  rq_idempotency_key : str;
  rq_session_id : str;
  rq_expected_generation : Z;
  rq_mutation : SftpFileMutation }.

Definition delete_kind (k : RemoteEntryKind) : DeleteKind :=
  match k with EntryDirectory => DeleteEmptyDirectory | EntryFile | EntrySymlink | EntryOther => DeleteFile end.

#[local] Notation "'let!' x ':=' e 'in' k" := (abind e (fun x => k))
  (at level 10, x pattern, e at level 200, k at level 200).

(** The plan of a request: the first half of [execute_mutation_once], without
    its check that the connection still lives. *)
Definition plan_mutation (r : SftpFileMutationRequest) : AM FileMutationPlan :=
  let! g := alift (new_generation (rq_expected_generation r)) in
  let! operation := alift (parse_fence (rq_operation_id r) (rq_idempotency_key r)) in
  match rq_mutation r with
  | WireCreateDirectory path =>
      let! path := alift (parse_path path) in mkdir operation g path
  | WireCreateEmptyFile path =>
      let! path := alift (parse_path path) in create_empty_file operation g path
  | WireWriteText path precondition text =>
      let! path := alift (parse_path path) in write_text operation g path precondition text
  | WireRenameNoReplace source target source_precondition =>
      let! source := alift (parse_path source) in
      let! target := alift (parse_path target) in
      rename operation g source target source_precondition
  | WireDelete path precondition irreversible_confirmed =>
      let! path := alift (parse_path path) in
      delete_plan operation g path (delete_kind (pre_kind precondition)) precondition irreversible_confirmed
  | WireSetPermissions path precondition expected_permission_bits mode =>
      let! path := alift (parse_path path) in
      set_permissions operation g path precondition expected_permission_bits mode
  | WireCreateZip sources target =>
      let! sources := alift (rmap (λ s,
        let? path := parse_path (sa_path s) in
        Ok (mkArchiveSource path (sa_precondition s) (sa_name s))) sources) in
      let! target := alift (parse_path target) in
      create_zip operation g sources target
  | WireExtractZip source source_precondition target_directory =>
      let! source := alift (parse_path source) in
      let! target_directory := alift (parse_path target_directory) in
      extract_zip operation g source source_precondition target_directory
  | WireDownloadUrl url target =>
      let! target := alift (parse_path target) in download_url operation g url target
  end.

(** *** The fingerprint *)

Definition field (value : list Z) : list Z := to_be_bytes 8 (Z.min u64_max (zlen value)) ++ value.

Definition optional_bytes (v : option Z) : list Z :=
  match v with Some v => 1 :: to_be_bytes 8 v | None => [0] end.

Definition kind_byte (k : RemoteEntryKind) : Z :=
  match k with EntryFile => 1 | EntryDirectory => 2 | EntrySymlink => 3 | EntryOther => 4 end.

Definition precondition_bytes (p : RemoteObjectPrecondition) : list Z :=
  kind_byte (pre_kind p) :: optional_bytes (pre_size p) ++ optional_bytes (pre_modified_at_unix_ms p).

(** [Sha256::digest]. *)
Class Sha256 := sha256 : list Z → list Z.

Section Fingerprint.
Context `{Sha256}.

Definition source_bytes (s : SftpArchiveSource) : list Z :=
  field (sa_path s) ++ precondition_bytes (sa_precondition s) ++ field (utf8_encode (sa_name s)).

Definition mutation_bytes (m : SftpFileMutation) : list Z :=
  match m with
  | WireCreateDirectory path => 1 :: field path
  | WireCreateEmptyFile path => 4 :: field path
  | WireWriteText path precondition text =>
      5 :: field path ++ precondition_bytes precondition ++ field (sha256 (utf8_encode text))
  | WireRenameNoReplace source target source_precondition =>
      2 :: field source ++ field target ++ precondition_bytes source_precondition
  | WireDelete path precondition irreversible_confirmed =>
      3 :: field path ++ precondition_bytes precondition ++ [if irreversible_confirmed then 1 else 0]
  | WireSetPermissions path precondition expected_permission_bits mode =>
      9 :: field path ++ precondition_bytes precondition ++ to_be_bytes 4 expected_permission_bits ++ to_be_bytes 4 mode
  | WireCreateZip sources target => 6 :: field target ++ concat (map source_bytes sources)
  | WireExtractZip source source_precondition target_directory =>
      7 :: field source ++ precondition_bytes source_precondition ++ field target_directory
  | WireDownloadUrl url target => 8 :: field (sha256 (utf8_encode url)) ++ field target
  end.

Definition mutation_fingerprint (r : SftpFileMutationRequest) : list Z :=
  lit "sftp-mutation-v1" ++ field (utf8_encode (rq_session_id r))
  ++ to_be_bytes 8 (rq_expected_generation r) ++ mutation_bytes (rq_mutation r).

End Fingerprint.

(** ** The ledger *)

Inductive MutationLedgerOutcome :=
| Success (session_id : str) (generation : Z)
| DeterministicFailure (e : SftpRuntimeError)
| UncertainOutcome.

Record MutationLedgerEntry := mkLedgerEntry {
  le_idempotency_key : str;
  le_fingerprint : list Z;
  le_outcome : option MutationLedgerOutcome }.

Record MutationLedger := mkLedger {
  ledger_entries : gmap str MutationLedgerEntry;
  ledger_order : list str }.

Definition empty_ledger : MutationLedger := mkLedger ∅ [].

Inductive MutationLedgerClaim := Execute | Replay (o : MutationLedgerOutcome) | Wait.

(** The loop that makes room: an operation that is still running stops it. *)
Fixpoint make_room (entries : gmap str MutationLedgerEntry) (order : list str) : sres unit * MutationLedger :=
  if Z.of_nat (base.size entries) <? MUTATION_LEDGER_CAPACITY then (Ok tt, mkLedger entries order)
  else
    match order with
    | [] => (Err Conflict, mkLedger entries [])
    | oldest :: order =>
        match entries !! oldest with
        | Some (mkLedgerEntry _ _ (Some _)) => make_room (delete oldest entries) order
        | _ => (Err Conflict, mkLedger entries (order ++ [oldest]))
        end
    end.

Definition claim (l : MutationLedger) (operation_id idempotency_key : str) (fingerprint : list Z)
  : sres MutationLedgerClaim * MutationLedger :=
  match ledger_entries l !! operation_id with
  | Some entry =>
      if negb (bool_decide (le_idempotency_key entry = idempotency_key))
         || negb (bool_decide (le_fingerprint entry = fingerprint))
      then (Err Conflict, l)
      else (Ok match le_outcome entry with Some o => Replay o | None => Wait end, l)
  | None =>
      match make_room (ledger_entries l) (ledger_order l) with
      | (Ok _, l) =>
          (Ok Execute,
           mkLedger (<[operation_id := mkLedgerEntry idempotency_key fingerprint None]> (ledger_entries l))
             (ledger_order l ++ [operation_id]))
      | (Err e, l) => (Err e, l)
      | (Panic, l) => (Panic, l)
      end
  end.

Definition finish_entry (l : MutationLedger) (operation_id : str) (o : MutationLedgerOutcome) : MutationLedger :=
  mkLedger (alter (λ e, mkLedgerEntry (le_idempotency_key e) (le_fingerprint e) (Some o)) operation_id
              (ledger_entries l))
    (ledger_order l).

(** What [mutate_file] records of a result. *)
Definition outcome_of (r : SftpFileMutationRequest) (x : pres unit) : MutationLedgerOutcome :=
  match x with
  | Ok _ => Success (rq_session_id r) (rq_expected_generation r)
  | Err (Runtime e) => DeterministicFailure e
  | _ => UncertainOutcome
  end.

(** What [mutate_file] answers to a replay. *)
Definition replayed (o : MutationLedgerOutcome) : pres (str * Z) :=
  match o with
  | Success session_id generation => Ok (session_id, generation)
  | DeterministicFailure e => Err (Runtime e)
  | UncertainOutcome => Err (Runtime InvalidState)
  end.

(** ** The fingerprint identifies the request *)

(** An encoding that can be read back from the front of what follows. *)
Definition decodable {A} (ok : A → Prop) (enc : A → list Z) : Prop :=
  ∀ a b x y, ok a → ok b → enc a ++ x = enc b ++ y → a = b ∧ x = y.

Lemma to_le_bytes_mod n v v' : to_le_bytes n v = to_le_bytes n v' → v mod 256 ^ Z.of_nat n = v' mod 256 ^ Z.of_nat n.
Proof.
  revert v v'. induction n as [|n IH]; intros v v' Hv; [by rewrite !Z.mod_1_r|].
  injection Hv as Hm Hd. apply IH in Hd. rewrite Nat2Z.inj_succ, Z.pow_succ_r by lia.
  rewrite !Z.rem_mul_r by lia. by rewrite Hm, Hd.
Qed.

Lemma be_bytes_decodable n lo : decodable (λ v, lo ≤ v < lo + 256 ^ Z.of_nat n) (to_be_bytes n).
Proof.
  intros v v' x y Hv Hv' Heq. apply app_inj_1 in Heq as [Hb ->]; [|by rewrite !length_to_be_bytes].
  split; [|done]. unfold to_be_bytes in Hb. apply (f_equal (@rev Z)) in Hb. rewrite !rev_involutive in Hb.
  apply to_le_bytes_mod in Hb. assert (0 < 256 ^ Z.of_nat n) as Hm by (apply Z.pow_pos_nonneg; lia).
  set (m := 256 ^ Z.of_nat n) in *.
  pose proof (Z.div_mod v m) as Hd. pose proof (Z.div_mod v' m) as Hd'. rewrite Hb in Hd.
  assert (v / m = v' / m) by nia. lia.
Qed.

Definition fits (value : list Z) : Prop := zlen value ≤ u64_max.

Lemma field_decodable : decodable fits field.
Proof.
  intros a b x y Ha Hb Heq. unfold field, fits in *. rewrite <- !app_assoc, !Z.min_r in Heq by done.
  apply (be_bytes_decodable 8 0) in Heq as [Hl Heq].
  - apply app_inj_1 in Heq; [done|]. unfold zlen in Hl. lia.
  - pose proof (zlen_nonneg a). unfold u64_max in Ha. lia.
  - pose proof (zlen_nonneg b). unfold u64_max in Hb. lia.
Qed.

Definition size_ok (v : option Z) : Prop := ∀ n, v = Some n → 0 ≤ n ≤ u64_max.
Definition time_ok (v : option Z) : Prop := ∀ n, v = Some n → -9223372036854775808 ≤ n < 9223372036854775808.

Lemma optional_decodable lo :
  decodable (λ v, ∀ n, v = Some n → lo ≤ n < lo + 256 ^ Z.of_nat 8) optional_bytes.
Proof.
  intros [a|] [b|] x y Ha Hb; cbn [optional_bytes app]; intros Heq; [|done|done|by injection Heq as ->].
  apply (inj2 cons) in Heq as [_ Heq]. apply (be_bytes_decodable 8 lo) in Heq as [-> ->]; auto.
Qed.

Definition precondition_ok (p : RemoteObjectPrecondition) : Prop :=
  size_ok (pre_size p) ∧ time_ok (pre_modified_at_unix_ms p).

Lemma precondition_decodable : decodable precondition_ok precondition_bytes.
Proof.
  intros [k a b] [k' a' b'] x y [Ha Hb] [Ha' Hb'] Heq. unfold precondition_bytes, size_ok, time_ok, u64_max in *. cbn in *.
  injection Heq as Hk Heq. rewrite <- !app_assoc in Heq.
  apply (optional_decodable 0) in Heq as [-> Heq]; [|intros n Hn; specialize (Ha n Hn); lia|intros n Hn; specialize (Ha' n Hn); lia].
  apply (optional_decodable (-9223372036854775808)) in Heq as [-> ->];
    [|intros n Hn; specialize (Hb n Hn); lia|intros n Hn; specialize (Hb' n Hn); lia].
  split; [|done]. by destruct k, k'.
Qed.

Definition text_ok (s : str) : Prop := Forall (λ c, 0 ≤ c < 1114112) s.

Lemma encode_char_decodable : decodable (λ c, 0 ≤ c < 1114112) utf8_encode_char.
Proof.
  intros c d x y Hc Hd. unfold utf8_encode_char.
  destruct (Z.ltb_spec c 128), (Z.ltb_spec c 2048), (Z.ltb_spec c 65536), (Z.ltb_spec d 128), (Z.ltb_spec d 2048),
    (Z.ltb_spec d 65536); try lia; cbn; intros Heq; simplify_eq; split; try done;
    Z.to_euclidean_division_equations; lia.
Qed.

Lemma utf8_encode_inj s s' : text_ok s → text_ok s' → utf8_encode s = utf8_encode s' → s = s'.
Proof.
  assert (∀ c, utf8_encode_char c ≠ []) as Hne by (intros c; unfold utf8_encode_char; by repeat case_match).
  unfold utf8_encode. intros Hs. revert s'. induction Hs as [|c s Hc _ IH]; intros [|d s'] Hs' Heq; cbn in Heq.
  - done.
  - symmetry in Heq. apply app_nil in Heq as [Heq _]. by destruct (Hne d).
  - apply app_nil in Heq as [Heq _]. by destruct (Hne c).
  - apply Forall_cons in Hs' as [Hd Hs']. destruct (encode_char_decodable _ _ _ _ Hc Hd Heq) as [-> Heq'].
    f_equal. by apply IH.
Qed.

Definition string_ok (s : str) : Prop := text_ok s ∧ fits (utf8_encode s).

Lemma string_decodable : decodable string_ok (λ s, field (utf8_encode s)).
Proof.
  intros s s' x y [Hs Hf] [Hs' Hf'] Heq. apply field_decodable in Heq as [Heq ->]; [|done..].
  split; [|done]. by apply utf8_encode_inj.
Qed.

Definition source_ok (s : SftpArchiveSource) : Prop :=
  fits (sa_path s) ∧ precondition_ok (sa_precondition s) ∧ string_ok (sa_name s).

Lemma source_decodable : decodable source_ok source_bytes.
Proof.
  intros [p q n] [p' q' n'] x y (Hp & Hq & Hn) (Hp' & Hq' & Hn'). unfold source_bytes. cbn [sa_path sa_precondition sa_name] in *.
  rewrite <- !app_assoc. intros Heq. apply field_decodable in Heq as [-> Heq]; [|done..].
  apply precondition_decodable in Heq as [-> Heq]; [|done..]. by apply string_decodable in Heq as [-> ->].
Qed.

Lemma sources_inj l l' :
  Forall source_ok l → Forall source_ok l' →
  concat (map source_bytes l) = concat (map source_bytes l') → l = l'.
Proof.
  assert (∀ s, source_bytes s ≠ []) as Hne by (by intros s).
  intros Hl. revert l'. induction Hl as [|s l Hs _ IH]; intros [|s' l'] Hl' Heq; cbn [map concat] in Heq; [done|..].
  - symmetry in Heq. apply app_nil in Heq as [Heq _]. by destruct (Hne s').
  - apply app_nil in Heq as [Heq _]. by destruct (Hne s).
  - apply Forall_cons in Hl' as [Hs' Hl']. destruct (source_decodable _ _ _ _ Hs Hs' Heq) as [-> Heq'].
    f_equal. by apply IH.
Qed.

Section Identity.
Context `{Sha256}.

Definition bits_ok (n : Z) : Prop := 0 ≤ n < 4294967296.

(** The values of a request are of their types, and lengths are of a [u64]. *)
Definition mutation_ok (m : SftpFileMutation) : Prop :=
  match m with
  | WireCreateDirectory path | WireCreateEmptyFile path => fits path
  | WireWriteText path precondition text => fits path ∧ precondition_ok precondition ∧ text_ok text
  | WireRenameNoReplace source target precondition => fits source ∧ fits target ∧ precondition_ok precondition
  | WireDelete path precondition _ => fits path ∧ precondition_ok precondition
  | WireSetPermissions path precondition bits mode =>
      fits path ∧ precondition_ok precondition ∧ bits_ok bits ∧ bits_ok mode
  | WireCreateZip sources target => Forall source_ok sources ∧ fits target
  | WireExtractZip source precondition directory => fits source ∧ precondition_ok precondition ∧ fits directory
  | WireDownloadUrl url target => text_ok url ∧ fits target
  end.

Definition request_ok (r : SftpFileMutationRequest) : Prop :=
  string_ok (rq_session_id r) ∧ 0 ≤ rq_expected_generation r ≤ u64_max ∧ mutation_ok (rq_mutation r).

(** The text of a request that is hashed. *)
Definition hashed (m : SftpFileMutation) : option str :=
  match m with WireWriteText _ _ text | WireDownloadUrl text _ => Some text | _ => None end.

Definition no_collision (m m' : SftpFileMutation) : Prop :=
  ∀ s s', hashed m = Some s → hashed m' = Some s' →
    sha256 (utf8_encode s) = sha256 (utf8_encode s') → utf8_encode s = utf8_encode s'.

Context (Hlength : ∀ bytes, zlen (sha256 bytes) = 32).

Lemma digest_fits bytes : fits (sha256 bytes).
Proof using Hlength. unfold fits. rewrite Hlength. done. Qed.

Lemma bits_decodable : decodable bits_ok (to_be_bytes 4).
Proof using Type. intros a b x y Ha Hb. apply (be_bytes_decodable 4 0); unfold bits_ok in *; lia. Qed.

(** One encoded piece read off both sides. *)
Ltac piece lem Heq := apply lem in Heq as [? Heq]; [|by auto using digest_fits..]; subst.

Lemma mutation_bytes_inj m m' :
  mutation_ok m → mutation_ok m' → no_collision m m' → mutation_bytes m = mutation_bytes m' → m = m'.
Proof using Hlength.
  assert (∀ a b : list Z, fits a → fits b → field a = field b → a = b) as Hfield.
  { intros a b Ha Hb Heq. apply (field_decodable a b [] []); [done..|]. by rewrite Heq. }
  assert (∀ a b, precondition_ok a → precondition_ok b → precondition_bytes a = precondition_bytes b → a = b) as Hpre.
  { intros a b Ha Hb Heq. apply (precondition_decodable a b [] []); [done..|]. by rewrite Heq. }
  assert (∀ a b, bits_ok a → bits_ok b → to_be_bytes 4 a = to_be_bytes 4 b → a = b) as Hbits.
  { intros a b Ha Hb Heq. apply (bits_decodable a b [] []); [done..|]. by rewrite Heq. }
  destruct m, m'; cbn [mutation_ok mutation_bytes]; intros Hm Hm' Hc Heq;
    apply (inj2 cons) in Heq as [Htag Heq]; try discriminate Htag; clear Htag; destruct_and?.
  - f_equal. by apply Hfield.
  - f_equal. by apply Hfield.
  - piece field_decodable Heq. piece precondition_decodable Heq. apply Hfield in Heq; [|apply digest_fits..].
    f_equal. apply utf8_encode_inj; [done..|]. by apply Hc.
  - piece field_decodable Heq. piece field_decodable Heq. f_equal. by apply Hpre.
  - piece field_decodable Heq. piece precondition_decodable Heq. f_equal. by destruct irreversible_confirmed, irreversible_confirmed0.
  - piece field_decodable Heq. piece precondition_decodable Heq. piece bits_decodable Heq. f_equal. by apply Hbits.
  - piece field_decodable Heq. f_equal. by apply sources_inj.
  - piece field_decodable Heq. piece precondition_decodable Heq. f_equal. by apply Hfield.
  - apply field_decodable in Heq as [Hd Heq]; [|apply digest_fits..]. apply Hfield in Heq; [|done..].
    subst. f_equal. apply utf8_encode_inj; [done..|]. by apply Hc.
Qed.

(** The requests are the same, but for their operation id and key. *)
Definition same_request (r r' : SftpFileMutationRequest) : Prop :=
  rq_session_id r = rq_session_id r' ∧ rq_expected_generation r = rq_expected_generation r' ∧
  rq_mutation r = rq_mutation r'.

Lemma fingerprint_inj r r' :
  request_ok r → request_ok r' → no_collision (rq_mutation r) (rq_mutation r') →
  mutation_fingerprint r = mutation_fingerprint r' → same_request r r'.
Proof using Hlength.
  intros (Hs & Hg & Hm) (Hs' & Hg' & Hm') Hc Heq. unfold mutation_fingerprint in Heq.
  apply (inj (app _)) in Heq. apply string_decodable in Heq as [? Heq]; [|done..].
  apply (be_bytes_decodable 8 0) in Heq as [? Heq]; [|unfold u64_max in *; lia..].
  split_and!; [done..|]. by apply mutation_bytes_inj.
Qed.

(** ** The ledger refines the history of its grants *)

Definition claim_request (l : MutationLedger) (r : SftpFileMutationRequest)
  : sres MutationLedgerClaim * MutationLedger :=
  claim l (rq_operation_id r) (rq_idempotency_key r) (mutation_fingerprint r).

(** A caller claims its operation, or the one that carries it out is done. *)
Inductive LedgerEvent :=
| Claimed (r : SftpFileMutationRequest)
| Finished (operation_id : str) (o : MutationLedgerOutcome).

(** The last grant of each operation id, with its outcome when there is one. *)
#[local] Notation History := (gmap str (SftpFileMutationRequest * option MutationLedgerOutcome)).

Definition ledger_step (s : MutationLedger * History) (ev : LedgerEvent) : MutationLedger * History :=
  let '(l, h) := s in
  match ev with
  | Claimed r =>
      let '(x, l) := claim_request l r in
      (l, match x with Ok Execute => <[rq_operation_id r := (r, None)]> h | _ => h end)
  | Finished id o => (finish_entry l id o, alter (λ g, (g.1, Some o)) id h)
  end.

Definition ledger_run (evs : list LedgerEvent) : MutationLedger * History :=
  foldl ledger_step (empty_ledger, ∅) evs.

Definition requested (evs : list LedgerEvent) (r : SftpFileMutationRequest) : Prop := Claimed r ∈ evs.

(** An entry is the last grant of its id. *)
Definition entry_of (g : SftpFileMutationRequest * option MutationLedgerOutcome) : MutationLedgerEntry :=
  mkLedgerEntry (rq_idempotency_key g.1) (mutation_fingerprint g.1) g.2.

Record refines (known : SftpFileMutationRequest → Prop) (l : MutationLedger) (h : History) : Prop := {
  ref_entries : ∀ id e, ledger_entries l !! id = Some e → ∃ g, h !! id = Some g ∧ e = entry_of g;
  ref_known : ∀ id g, h !! id = Some g → known g.1;
  ref_running : ∀ id r, h !! id = Some (r, None) → is_Some (ledger_entries l !! id);
  ref_whole : Z.of_nat (base.size h) ≤ MUTATION_LEDGER_CAPACITY →
    ∀ id, is_Some (h !! id) → is_Some (ledger_entries l !! id) }.

Lemma entries_size known l h : refines known l h → (base.size (ledger_entries l) ≤ base.size h)%nat.
Proof using Type.
  intros [He _ _ _]. rewrite <- (size_dom (ledger_entries l)), <- (size_dom h). apply subseteq_size.
  intros id [e Hid]%elem_of_dom. apply elem_of_dom. destruct (He id e Hid) as (g & Hg & _). by exists g.
Qed.

Lemma make_room_spec es order x l :
  make_room es order = (x, l) →
  ledger_entries l ⊆ es ∧
  (∀ id e, es !! id = Some e → le_outcome e = None → ledger_entries l !! id = Some e) ∧
  match x with
  | Ok _ => ledger_entries l = es ∨ MUTATION_LEDGER_CAPACITY ≤ Z.of_nat (base.size es)
  | Err _ => MUTATION_LEDGER_CAPACITY ≤ Z.of_nat (base.size es) ∧
             (ledger_entries l = es ∨ MUTATION_LEDGER_CAPACITY < Z.of_nat (base.size es))
  | Panic => False
  end.
Proof using Type.
  revert es. induction order as [|oldest order IH]; intros es; cbn [make_room];
    destruct (Z.ltb_spec (Z.of_nat (base.size es)) MUTATION_LEDGER_CAPACITY) as [|Hfull]; [by intros [= <- <-]; auto..| |].
  - by intros [= <- <-]; auto.
  - destruct (es !! oldest) as [[k f [o|]]|] eqn:Eo; [|by intros [= <- <-]; auto..].
    intros Hr. destruct (IH _ Hr) as (Hsub & Hrun & Hx). split_and!.
    + etrans; [done|]. apply delete_subseteq.
    + intros id e He Hn. apply Hrun; [|done]. rewrite lookup_delete_ne; [done|]. intros ->. rewrite Eo in He.
      by injection He as <-.
    + rewrite map_size_delete_Some in Hx by by eexists. destruct x as [a|e|]; [by right| |done].
      destruct Hx as [Hx _]. split; [done|right]. unfold MUTATION_LEDGER_CAPACITY in *. lia.
Qed.

Lemma refines_weaken (known known' : SftpFileMutationRequest → Prop) l h :
  (∀ r, known r → known' r) → refines known l h → refines known' l h.
Proof using Type. intros Hk []. constructor; eauto. Qed.

Lemma claim_refines (known : SftpFileMutationRequest → Prop) l h r :
  known r → refines known l h → refines known (ledger_step (l, h) (Claimed r)).1 (ledger_step (l, h) (Claimed r)).2.
Proof using Type.
  intros Hr Href. pose proof (entries_size _ _ _ Href) as Hsize. pose proof Href as [He Hk Hrun Hwhole].
  cbn [ledger_step]. unfold claim_request, claim. generalize (rq_operation_id r) as id. intros id.
  destruct (ledger_entries l !! id) as [e|] eqn:Eid.
  { destruct (_ || _); [done|]. by destruct (le_outcome e). }
  destruct (make_room _ _) as [x l'] eqn:Em. destruct (make_room_spec _ _ _ _ Em) as (Hsub & Hkeep & Hx).
  assert (∀ id e, ledger_entries l' !! id = Some e → ledger_entries l !! id = Some e) as Hsub'.
  { intros id' e' Hl. by eapply lookup_weaken. }
  assert (∀ id' r', h !! id' = Some (r', None) → is_Some (ledger_entries l' !! id')) as Hrun'.
  { intros id' r' Hh. destruct (Hrun id' r' Hh) as [e' He']. destruct (He id' e' He') as (g & Hg & ->).
    exists (entry_of g). apply Hkeep; [done|]. rewrite Hh in Hg. by injection Hg as <-. }
  destruct x as [[]|e|]; cbn [fst snd ledger_entries]; [| |done].
  - constructor; cbn [ledger_entries].
    + intros id' e' [[<- <-]|[Hne He']]%lookup_insert_Some.
      * exists (r, None). by rewrite lookup_insert_eq.
      * rewrite lookup_insert_ne by done. auto.
    + intros id' g [[<- <-]|[Hne Hg]]%lookup_insert_Some; [done|]. by eapply Hk.
    + intros id' r' [[<- _]|[Hne Hg]]%lookup_insert_Some; [by rewrite lookup_insert_eq|].
      rewrite lookup_insert_ne by done. eauto.
    + intros Hs id'. destruct (h !! id) as [g|] eqn:Eh.
      { rewrite map_size_insert_Some in Hs by by eexists. destruct (Hwhole Hs id) as [? ?]; [by eexists|congruence]. }
      rewrite map_size_insert_None in Hs by done. rewrite !lookup_insert_is_Some.
      intros [->|[Hne Hh]]; [by left|right]. split; [done|]. destruct Hx as [->|Hx]; [|lia]. apply Hwhole; [lia|done].
  - constructor; [auto|done|done|]. intros Hs id' Hh. destruct Hx as [_ [->|Hx]]; [auto|lia].
Qed.

Lemma finish_refines (known : SftpFileMutationRequest → Prop) l h id o :
  refines known l h →
  refines known (ledger_step (l, h) (Finished id o)).1 (ledger_step (l, h) (Finished id o)).2.
Proof using Type.
  intros [He Hk Hrun Hwhole]. cbn [ledger_step fst snd]. unfold finish_entry. constructor; cbn [ledger_entries].
  - intros id' e'. rewrite !lookup_alter. destruct (decide (id = id')) as [<-|]; [|apply He].
    intros (e & Hid & ->)%fmap_Some. destruct (He _ _ Hid) as (g & -> & ->). by eexists.
  - intros id' g. rewrite lookup_alter. destruct (decide (id = id')) as [<-|]; [|apply Hk].
    intros (g' & Hid & ->)%fmap_Some. cbn. by eapply Hk.
  - intros id' r. rewrite !lookup_alter. destruct (decide (id = id')) as [<-|]; [|apply Hrun].
    intros (g' & _ & [=])%fmap_Some.
  - rewrite <- size_dom, dom_alter_L, size_dom. intros Hs id'. rewrite !lookup_alter. destruct (decide (id = id')) as [<-|]; [|by apply Hwhole].
    rewrite !fmap_is_Some. by apply Hwhole.
Qed.

Lemma run_refines evs : refines (requested evs) (ledger_run evs).1 (ledger_run evs).2.
Proof using Type.
  clear Hlength. unfold ledger_run. induction evs as [|ev evs IH] using rev_ind.
  { constructor; cbn; intros ? ?; rewrite ?lookup_empty; try done; intros; by rewrite lookup_empty in *. }
  rewrite foldl_snoc. destruct (foldl _ _ evs) as [l h]. cbn [fst snd] in IH.
  apply (refines_weaken _ (requested (evs ++ [ev]))) in IH; [|intros r; unfold requested; set_solver].
  destruct ev as [r|id o]; [apply claim_refines; [unfold requested; set_solver|done]|by apply finish_refines].
Qed.

End Identity.


End MutationLedger.
