(* ===== verification/SftpModels.v ===== *)
(** * A server in memory, and the SFTP theorems at concrete inputs

    An instance of [ServerLaws]: a server that keeps its files in maps and
    follows a list of faults, one for each request. *)

From S2P Require Import Prelude RustStr SftpActor SftpTransfers SftpServer SftpUpload SftpCommit.
From S2P Require Import SftpMutations SftpEffects SftpLedger.

Module SftpModels.
Import Sftp Transfers Remote Upload Commit Mutate Effects.

(** ** The server *)

(** A request is answered, refused without effect, or carried out with its
    answer lost. *)
Inductive Fault := NoFault | Refuse | Lose.

Record Memory := mkMemory {
  m_names : gmap str Z;
  m_files : gmap Z (list Z);
  m_handles : gmap Z Z;
  m_positions : gmap Z Z;
  m_next : Handle;
  m_faults : list Fault }.

Definition m_content (w : Memory) (i : Z) : list Z := default [] (m_files w !! i).
Definition m_file_of (w : Memory) (h : Handle) : Z := default 0 (m_handles w !! h).

#[global] Instance memory_view : FileView Memory :=
  {| names := m_names; content := m_content; file_of := m_file_of |}.

Definition fresh_inode (n : gmap str Z) : Z := 1 + map_fold (λ _ i m, Z.max i m) 0 n.

Definition with_names (n : gmap str Z) (w : Memory) : Memory :=
  mkMemory n (m_files w) (m_handles w) (m_positions w) (m_next w) (m_faults w).

Definition with_position (h : Handle) (n : Z) (w : Memory) : Memory :=
  mkMemory (m_names w) (m_files w) (m_handles w) (<[h := n]> (m_positions w)) (m_next w) (m_faults w).

Definition file_metadata (w : Memory) (i : Z) : RemoteFileAttributes :=
  mkAttributes true false false (Some (zlen (m_content w i))) (Some 0) (Some 33188).

Definition new_file (p : str) (w : Memory) : Memory :=
  let i := fresh_inode (m_names w) in
  mkMemory (<[p := i]> (m_names w)) (<[i := []]> (m_files w)) (<[m_next w := i]> (m_handles w))
    (m_positions w) (m_next w + 1) (m_faults w).

Definition open_file (i : Z) (w : Memory) : Memory :=
  mkMemory (m_names w) (m_files w) (<[m_next w := i]> (m_handles w)) (m_positions w) (m_next w + 1) (m_faults w).

(** What a request does, or the error it is refused with. *)
Definition perform {A} (r : Req A) (w : Memory) : ClientError + A * Memory :=
  match r with
  | TryExists p => inr (bool_decide (is_Some (m_names w !! p)), w)
  | SymlinkMetadata p =>
      match m_names w !! p with
      | Some i => inr (file_metadata w i, w)
      | None => inl (Status StOther)
      end
  | CreateDir p =>
      match m_names w !! p with Some _ => inl (Status StOther) | None => inr (tt, new_file p w) end
  | OpenNew p =>
      match m_names w !! p with Some _ => inl (Status StOther) | None => inr (m_next w, new_file p w) end
  | WriteAll h bytes =>
      let i := m_file_of w h in
      inr (tt, mkMemory (m_names w) (<[i := m_content w i ++ bytes]> (m_files w)) (m_handles w)
                 (m_positions w) (m_next w) (m_faults w))
  | SyncAll _ | CloseFile _ => inr (tt, w)
  | FileMetadata h => inr (file_metadata w (m_file_of w h), w)
  | SetMetadata _ _ => inr (tt, w)
  | PosixRename p q =>
      match m_names w !! p with
      | Some i => inr (true, if bool_decide (m_names w !! q = Some i) then w
                             else with_names (<[q := i]> (delete p (m_names w))) w)
      | None => inl (Status StOther)
      end
  | Hardlink p q =>
      match m_names w !! p, m_names w !! q with
      | Some i, None => inr (true, with_names (<[q := i]> (m_names w)) w)
      | _, _ => inl (Status StOther)
      end
  | RemoveFile p | RemoveDir p => inr (tt, with_names (delete p (m_names w)) w)
  | Canonicalize => inr (tt, w)
  | OpenRead p =>
      match m_names w !! p with Some i => inr (m_next w, open_file i w) | None => inl (Status StOther) end
  | SeekFile h n => inr (tt, with_position h n w)
  | ReadChunk h n =>
      let at_ := default 0 (m_positions w !! h) in
      let bytes := take (Z.to_nat n) (drop (Z.to_nat at_) (m_content w (m_file_of w h))) in
      inr (bytes, with_position h (at_ + zlen bytes) w)
  | OpenDirStream _ | NextPage _ _ | CloseDirStream _ => inl (Status StOther)
  end.

Definition next_fault (w : Memory) : Fault * Memory :=
  match m_faults w with
  | [] => (NoFault, w)
  | f :: fs => (f, mkMemory (m_names w) (m_files w) (m_handles w) (m_positions w) (m_next w) fs)
  end.

Definition memory_serve {A} (r : Req A) (w : Memory) : Reply A * Memory :=
  let '(f, w) := next_fault w in
  match f, perform r w with
  | NoFault, inr (a, w') => (Answer a, w')
  | Lose, inr (_, w') => (TimedOut, w')
  | Refuse, _ => (Refused ClientOther, w)
  | _, inl e => (Refused e, w)
  end.

#[global] Instance memory_server : Server Memory :=
  {| serve := @memory_serve; supports_posix_rename := true |}.

(** ** The server keeps its promises *)

Lemma next_fault_same w f w' :
  next_fault w = (f, w') → m_names w' = m_names w ∧ m_files w' = m_files w ∧ m_handles w' = m_handles w.
Proof. unfold next_fault. by destruct (m_faults w); intros [= _ <-]. Qed.

(** Every request either has no effect and no answer, or its effect. *)
Lemma memory_serve_cases {A} (r : Req A) w x w' :
  memory_serve r w = (x, w') →
  ∃ w1, m_names w1 = m_names w ∧ m_files w1 = m_files w ∧ m_handles w1 = m_handles w ∧
  ((¬ answered x ∧ w' = w1) ∨ ∃ a, perform r w1 = inr (a, w') ∧ ∀ b, x = Answer b → b = a).
Proof.
  unfold memory_serve. destruct (next_fault w) as [f w1] eqn:Ef.
  destruct (next_fault_same _ _ _ Ef) as (? & ? & ?). intros Hx. exists w1. split_and!; [done..|].
  destruct f, (perform r w1) as [e|[a w2]]; simplify_eq;
    first [ by left; split; [intros [? ?]|] | by right; eexists; split; [done|]; intros b [= <-]
          | by right; eexists ].
Qed.

Lemma same_files_of w w' :
  m_names w' = m_names w → m_files w' = m_files w → m_handles w' = m_handles w → same_files w w'.
Proof.
  intros Hn Hf Hh. split_and!; [done|..]; cbn; unfold m_content, m_file_of; by rewrite ?Hf, ?Hh.
Qed.

Lemma fresh_inode_above (n : gmap str Z) p i : n !! p = Some i → i < fresh_inode n.
Proof.
  unfold fresh_inode. revert p i.
  apply (map_fold_weak_ind (λ m (n : gmap str Z), ∀ p i, n !! p = Some i → i < 1 + m)).
  - intros p i. by rewrite lookup_empty.
  - intros q j m r _ IH p i. destruct (decide (p = q)) as [->|Hne].
    + rewrite lookup_insert_eq. intros [= ->]. lia.
    + rewrite lookup_insert_ne by done. intros Hp. apply IH in Hp. lia.
Qed.

Lemma new_file_created w1 w p :
  m_names w1 = m_names w → m_files w1 = m_files w → m_names w1 !! p = None →
  created w (new_file p w1) p (fresh_inode (m_names w1)).
Proof.
  intros Hn Hf Hp. split_and!; cbn; unfold m_content; cbn.
  - by rewrite <- Hn.
  - intros q Hq. rewrite <- Hn in Hq. apply fresh_inode_above in Hq. lia.
  - by rewrite Hn.
  - by rewrite lookup_insert_eq.
  - intros j Hj. rewrite lookup_insert_ne by done. by rewrite Hf.
Qed.

Lemma renamed_of w1 w n :
  m_files w1 = m_files w → m_handles w1 = m_handles w → renamed w (with_names n w1) n.
Proof. intros Hf Hh. split_and!; [done|..]; cbn; unfold m_content, m_file_of; cbn; by rewrite ?Hf, ?Hh. Qed.

Ltac cases Hs :=
  apply memory_serve_cases in Hs as (w1 & Hn & Hf & Hh & [[Hx ->]|(a & Ha & Hx)]); cbn [perform] in *.

(** A request that leaves the files alone. *)
Lemma memory_reads {A} (r : Req A) w x w' :
  (∀ w1 a w2, perform r w1 = inr (a, w2) → w2 = w1) → serve r w = (x, w') →
  same_files w w' ∧ ∀ a, x = Answer a → ∃ w1, m_names w1 = m_names w ∧ m_files w1 = m_files w ∧
    m_handles w1 = m_handles w ∧ perform r w1 = inr (a, w').
Proof.
  intros Hr Hs. cases Hs; [split; [by apply same_files_of|]; intros a ->; destruct Hx; by eexists|].
  pose proof (Hr _ _ _ Ha) as ->. split; [by apply same_files_of|]. intros b ->. exists w1.
  by rewrite (Hx b eq_refl).
Qed.

Lemma memory_open_new w p x w' : serve (OpenNew p) w = (x, w') →
  (¬ answered x ∧ same_files w w') ∨ ∃ i, created w w' p i ∧ ∀ h, x = Answer h → file_of w' h = i.
Proof.
  intros Hs. cases Hs; [left; split; [done|by apply same_files_of]|]. right.
  destruct (m_names w1 !! p) eqn:Ep; [done|]. injection Ha as <- <-.
  exists (fresh_inode (m_names w1)). split; [by apply new_file_created|]. intros h ->.
  rewrite (Hx h eq_refl). cbn. unfold m_file_of. cbn. by rewrite lookup_insert_eq.
Qed.

Lemma memory_write w h bytes x w' : serve (WriteAll h bytes) w = (x, w') →
  names w' = names w ∧ (∀ i, i ≠ file_of w h → content w' i = content w i) ∧
  (∀ h, file_of w' h = file_of w h) ∧
  (answered x → content w' (file_of w h) = content w (file_of w h) ++ bytes).
Proof.
  intros Hs. cases Hs.
  - destruct (same_files_of w w1 Hn Hf Hh) as (? & Hc & ?). split_and!; [done|by intros; apply Hc|done|done].
  - injection Ha as _ <-.
    assert (m_file_of w1 h = m_file_of w h) as -> by (unfold m_file_of; by rewrite Hh).
    split_and!; cbn; unfold m_content, m_file_of; cbn; rewrite ?Hh, ?Hf; try done.
    + intros i Hi. by rewrite lookup_insert_ne.
    + intros _. by rewrite lookup_insert_eq.
Qed.

Lemma memory_hardlink w p q x w' : serve (Hardlink p q) w = (x, w') →
  (x ≠ Answer true ∧ same_files w w')
  ∨ (x ≠ Answer false ∧ names w !! q = None ∧
     ∃ i, names w !! p = Some i ∧ renamed w w' (<[q := i]> (names w))).
Proof.
  intros Hs. cases Hs.
  - left. split; [intros ->; destruct Hx; by eexists|by apply same_files_of].
  - right. destruct (m_names w1 !! p) as [i|] eqn:Ep; [|done]. destruct (m_names w1 !! q) eqn:Eq; [done|].
    injection Ha as <- <-. split; [intros ->; by specialize (Hx false eq_refl)|]. cbn. rewrite <- Hn.
    split; [done|]. exists i. split; [done|by apply renamed_of].
Qed.

Lemma memory_posix_rename w p q x w' : serve (PosixRename p q) w = (x, w') →
  (x ≠ Answer true ∧ same_files w w')
  ∨ (x ≠ Answer false ∧
     ∃ i, names w !! p = Some i ∧
          (names w !! q ≠ Some i → renamed w w' (<[q := i]> (delete p (names w)))) ∧
          (names w !! q = Some i → same_files w w')).
Proof.
  intros Hs. cases Hs.
  - left. split; [intros ->; destruct Hx; by eexists|by apply same_files_of].
  - right. destruct (m_names w1 !! p) as [i|] eqn:Ep; [|done]. injection Ha as <- <-.
    split; [intros ->; by specialize (Hx false eq_refl)|]. cbn. rewrite <- Hn.
    exists i. split; [done|]. split; intros Hq.
    + rewrite bool_decide_false by done. by apply renamed_of.
    + rewrite bool_decide_true by done. by apply same_files_of.
Qed.

Lemma memory_remove (dir : bool) w p x w' :
  serve (if dir then RemoveDir p else RemoveFile p) w = (x, w') →
  (¬ answered x ∧ same_files w w') ∨ renamed w w' (delete p (names w)).
Proof.
  intros Hs. destruct dir; (cases Hs; [left; split; [done|by apply same_files_of]|];
  injection Ha as _ <-; right; cbn; rewrite <- Hn; by apply renamed_of).
Qed.

Lemma memory_reading {A} (r : Req A) w x w' : reading r = true → serve r w = (x, w') → kept_files w w'.
Proof.
  intros Hr Hs. cases Hs; [by destruct (same_files_of w w1 Hn Hf Hh) as (? & ? & _)|].
  assert (m_names w' = m_names w1 ∧ m_files w' = m_files w1) as [Hn' Hf'].
  { destruct r; try discriminate Hr; cbn in Ha; repeat case_match; by simplify_eq. }
  split; cbn; [congruence|]. intros i. unfold m_content. by rewrite Hf', Hf.
Qed.

#[global] Instance memory_laws : ServerLaws Memory.
Proof.
  split.
  - intros w p x w' Hs. apply memory_reads in Hs as [? Hx]; [|by intros w1 a w2 [= _ <-]].
    split; [done|]. intros b Hb. destruct (Hx b Hb) as (w1 & Hn & _ & _ & [= <- _]). by cbn; rewrite Hn.
  - intros w p x w' Hs. apply memory_reads in Hs as [? Hx].
    2: { cbn. intros w1 a w2. destruct (m_names w1 !! p); by intros [= _ <-]. }
    split; [done|]. intros b Hb. destruct (Hx b Hb) as (w1 & Hn & _ & _ & Hp). cbn in *.
    rewrite <- Hn. by destruct (m_names w1 !! p).
  - intros w h x w' Hs. apply memory_reads in Hs as [? _]; [done|]. by intros w1 a w2 [= _ <-].
  - intros w h x w' Hs. apply memory_reads in Hs as [? Hx]; [|by intros w1 a w2 [= _ <-]].
    split; [done|]. intros m n Hm. destruct (Hx m Hm) as (w1 & Hn & Hf & Hh & [= <- _]). cbn.
    unfold m_content, m_file_of. rewrite Hf, Hh. by intros [= <-].
  - intros w h x w' Hs. apply memory_reads in Hs as [(? & ? & _) _]; [by split|]. by intros w1 a w2 [= _ <-].
  - intros A r w x w'. apply memory_reading.
  - intros w p n x w' Hs. apply memory_reads in Hs as [? _]; [done|]. by intros w1 a w2 [= _ <-].
  - intros w x w' Hs. apply memory_reads in Hs as [? _]; [done|]. by intros w1 a w2 [= _ <-].
  - intros w p x w' Hs. cases Hs; [left; split; [done|by apply same_files_of]|]. right.
    destruct (m_names w1 !! p) eqn:Ep; [done|]. injection Ha as _ <-.
    exists (fresh_inode (m_names w1)). by apply new_file_created.
  - apply memory_open_new.
  - apply memory_write.
  - apply memory_hardlink.
  - apply memory_posix_rename.
  - apply (memory_remove false).
  - apply (memory_remove true).
Qed.

(** ** A session with one upload *)

#[global] Instance plain_debug : DebugTarget := λ _, lit "target".

Definition upload_id : TransferId := lit "t1".
Definition upload_target : RemotePath := lit "/srv/a".
Definition upload_temporary : RemotePath := lit "/srv/.a.norishell-t1.part".

Definition idle_summary : SftpSessionSummary :=
  mkSummary (lit "s") (Some (lit "host")) None None 0 Idle None None None.
Definition idle_session : SftpSessionActor := mkActor idle_summary None ∅.

(** The session is connected, and the upload begun. *)
Definition begun : list Op :=
  [OStart (lit "r1"); OTransportReady 1 (lit "tr"); OSubsystemOpened 1 (lit "sub");
   OEnqueue upload_id 1 Sftp.Upload (LocalToken (lit "file")) (Remote upload_target) 3 FailIfExists;
   OBegin 0 upload_id 1].

(** All the bytes are there, and the commit has begun. *)
Definition committing : list Op :=
  begun ++ [OPrepared upload_id 1 (RemoteTemp upload_temporary) false false; OProgress upload_id 1 2;
            OProgress upload_id 1 3; OVerify upload_id 1 3; OCommit upload_id 1].

Definition upload_session : SftpSessionActor := run begun idle_session.

Definition upload_plan : TransferPlan :=
  mkPlan upload_id 1 Sftp.Upload (LocalToken (lit "file")) (Remote upload_target) FailIfExists 3 true 0.

Definition local_identity : NativeFileIdentity := mkIdentity 1 3 33188 3 0 0.
Definition local_boundary : NativeLocalBoundary := mkBoundary 1 2 true (Some local_identity).
Definition local_io : SourceIo :=
  mkSourceIo (Some (mkIdentity 1 2 16877 0 0 0)) (Some local_identity) true true [Some [1; 2]; Some [3]].

Definition empty_server (faults : list Fault) : Memory := mkMemory ∅ ∅ ∅ ∅ 0 faults.

Definition upload (s : Script) (faults : list Fault) : bool * Script * Env Memory :=
  run_transfer 1 true upload_id upload_plan local_boundary local_io None s
    (mkEnv (empty_server faults) (Some upload_session) []).

Lemma begun_ok : Forall op_ok begun.
Proof. unfold begun. repeat constructor; cbn; lia. Qed.

Lemma committing_ok : Forall op_ok committing.
Proof. unfold committing. apply Forall_app. split; [apply begun_ok|]. by repeat constructor. Qed.

Lemma idle_new : new (lit "s") (lit "host") = Ok idle_session.
Proof. by vm_compute. Qed.

Lemma started_ok ops : Forall op_ok ops → actor_ok (run ops idle_session).
Proof. intros Ho. apply run_ok; [done|]. eapply new_ok, idle_new. Qed.

Lemma session_keeps_invariant_witness : actor_ok (run committing idle_session).
Proof.
  apply (session_keeps_invariant (lit "s") (lit "host") idle_session committing).
  - left. apply idle_new.
  - apply committing_ok.
Defined.

Definition begun_record : TransferRecord :=
  mkTransfer upload_id 1 Sftp.Upload (LocalToken (lit "file")) (Remote upload_target) 3 0 (Some 0)
    FailIfExists Preparing 2 NotCommitted None false false None None None false.

Lemma upload_session_record : transfers upload_session !! upload_id = Some begun_record.
Proof. vm_compute. reflexivity. Qed.

(** Two reports of progress leave the revision acceptable that the user saw. *)
Definition transferring : list Op := begun ++ [OPrepared upload_id 1 (RemoteTemp upload_temporary) false false].
Definition transferring_session : SftpSessionActor := run transferring idle_session.
Definition transferring_record : TransferRecord :=
  transfer_transition (set_temporary (Some (RemoteTemp upload_temporary)) begun_record) Transferring None.
Definition reports : list Op := [OProgress upload_id 1 2; OProgress upload_id 1 3].

Lemma progress_fence_exact_witness :
  ∃ r', transfers (run reports transferring_session) !! upload_id = Some r' ∧ 3 ≤ state_revision r' ∧
  (state_revision r' < u64_max →
   (accepts_revision r' 3 = true ↔ only_progress upload_id reports transferring_session)
   ∧ (accepts_revision r' 3 = true → state r' = Transferring)).
Proof.
  apply (progress_fence_exact transferring_session reports upload_id transferring_record).
  - apply started_ok. unfold transferring. apply Forall_app. split; [apply begun_ok|]. by repeat constructor.
  - by repeat constructor.
  - vm_compute. reflexivity.
Defined.

Definition committing_session : SftpSessionActor := run committing idle_session.
Definition committing_record : TransferRecord :=
  mkTransfer upload_id 1 Sftp.Upload (LocalToken (lit "file")) (Remote upload_target) 3 3 (Some 0)
    FailIfExists Committing 7 NotCommitted (Some (RemoteTemp upload_temporary)) false false None None
    (Some (3, 5)) false.
Definition retries : list Op :=
  [OStart (lit "r2"); OTransportReady 2 (lit "tr"); OSubsystemOpened 2 (lit "sub"); ORestart upload_id 2 Cleaned;
   OResume upload_id 2 (mkEvidence (RemoteTemp upload_temporary) 3 true)].


(** The upload, run to its end. *)
Definition uploaded_env : Env Memory := (upload [] []).2.
Definition target_holds (content_of_target : list Z) (e : Env Memory) : Prop :=
  ∃ i, names (world e) !! upload_target = Some i ∧ content (world e) i = content_of_target.

Lemma upload_all_or_nothing_witness :
  target_holds [1; 2; 3] uploaded_env ∧ names (world uploaded_env) !! upload_temporary = None.
Proof.
  destruct (upload_all_or_nothing 1 true upload_plan upload_target upload_temporary upload_target upload_temporary
    local_boundary local_io None upload_session begun_record []
    (mkEnv (empty_server []) (Some upload_session) []) false [] uploaded_env) as [_ Hc].
  - reflexivity.
  - apply upload_session_record.
  - discriminate.
  - reflexivity.
  - reflexivity.
  - vm_compute. reflexivity.
  - vm_compute. reflexivity.
  - vm_compute. reflexivity.
  - constructor.
  - vm_compute. reflexivity.
  - destruct (find_transfer upload_id uploaded_env) as [r'|] eqn:E; [|vm_compute in E; discriminate].
    destruct (Hc r' E) as [((j & Hj & Hs & _) & _) Hn].
    + vm_compute in E. injection E as <-. reflexivity.
    + split; [|exact Hn]. exists j. split; [exact Hj|exact Hs].
Defined.

(** ** A committed upload recorded as not committed *)

(** The server links the temporary file to the target, and then refuses the
    request for the target's metadata: the target holds the whole source, and
    the record says that nothing was committed. *)
Example committed_recorded_as_failed :
  let e := (upload [] (repeat NoFault 9 ++ [Refuse])).2 in
  target_holds [1; 2; 3] e ∧
  ∃ r, find_transfer upload_id e = Some r ∧ state r = Failed ∧ commit_outcome r = NotCommitted.
Proof. split; [exists 1; vm_compute; by split|]. eexists. by vm_compute. Qed.

(** ** Mutations *)

(** A zip library that reads no archives, and an HTTP client that brings one
    byte. *)
#[global] Instance plain_zip : ZipLibrary :=
  {| ZipWriter := list Z; zip_writer := [80; 75]; add_directory _ w := Some w; start_file _ w := Some w;
     write_data data w := Some (w ++ data); finish w := Some w; zip_archive _ := None |}.

#[global] Instance plain_http : HttpClient :=
  {| parse_url _ := Some (mkUrl (lit "https") [] false true);
     http_get _ _ := Response None [Some [7]] |}.

(** A server with one file of two bytes. *)
Definition edited_path : RemotePath := lit "/srv/b".
Definition edit_fence : OperationFence := mkFence (lit "op") (lit "key").
Definition one_file (faults : list Fault) : Memory :=
  mkMemory {[ edited_path := 1 ]} {[ 1 := [1; 2] ]} ∅ ∅ 0 faults.
Definition edit_plan : FileMutationPlan :=
  WriteText edit_fence 1 edited_path (mkPrecondition EntryFile (Some 2) (Some 0)) [9].

Definition mutate (plan : FileMutationPlan) (w : Memory) : Exit (rres SftpProductionError unit) * Script * Env Memory :=
  exec deadline true (execute_mutation 1 1 plan) [] (mkEnv w None []).

Definition edited : Env Memory := (mutate edit_plan (one_file [])).2.



(** *** A download that leaves its temporary file *)

Definition download_plan : FileMutationPlan := DownloadUrl edit_fence 1 (lit "https://h/x") upload_target.
Definition download_temporary : str := lit "/srv/.a.norishell-edit-op.part".

(** The server refuses the link to the target: the error is reported as a
    conflict, and the temporary file stays. *)
Example download_leaves_temporary :
  let '(x, _, e) := mutate download_plan (empty_server (repeat NoFault 7 ++ [Refuse])) in
  x = Returned (Err (Runtime Conflict)) ∧ names (world e) !! upload_target = None ∧
  holds (world e) download_temporary [7].
Proof. vm_compute. split; [done|]. split; [done|]. by exists 1. Qed.

(** *** The ledger *)

#[global] Instance plain_sha256 : MutationLedger.Sha256 := λ bytes, take 32 (bytes ++ repeat 0 32).

Definition directory_request : MutationLedger.SftpFileMutationRequest :=
  MutationLedger.mkRequest (lit "op") (lit "key") (lit "s") 1 (MutationLedger.WireCreateDirectory (lit "/srv/d")).

Definition ledger_events : list MutationLedger.LedgerEvent :=
  [MutationLedger.Claimed directory_request;
   MutationLedger.Finished (lit "op") (MutationLedger.Success (lit "s") 1)].

Lemma directory_request_ok : MutationLedger.request_ok directory_request.
Proof.
  split_and!; [split|..]; cbn; try done; try (vm_compute; discriminate). repeat constructor; lia.
Qed.


End SftpModels.
